(* ===== verification/_CoqProject ===== *)
-Q . S2P
Prelude.v
GoNum.v
Sort.v
GoJson.v
TmplLexer.v
TmplParser.v
TmplSlots.v
TmplEval.v
F64Bounds.v
Sha256.v
RetryPolicy.v
GoStruct.v
StateBlobs.v
StateFrame.v
StateLog.v
EnginePath.v
GoPath.v
Signal.v
SignalBroker.v
SignalQueue.v
SignalControl.v
EngineEvents.v
Ir.v
RunState.v
EngineFold.v
Journal.v
IrShape.v
IrDiag.v
ValStructural.v
ValRefs.v
ValFiles.v
SkillRoute.v
ValRest.v
ValContinues.v
ValLaws.v
Agent.v
DisplaySanitize.v
Commit.v
Scope.v
ScopeLaws.v
ReachLaws.v
Threads.v
ContLaws.v
Artifacts.v
Containers.v
Rerun.v
RetryLoop.v
Adapters.v
Steps.v
Skills.v
Contracts.v
Dispatch.v
AgentDispatch.v
DispatchLaws.v
AgentLaws.v
Exports.v
Runtimes.v
AgentStep.v
React.v
Interp.v
Call.v
InterpLaws.v
InterpFold.v
InterpGate.v
InterpTerm.v
InterpResume.v
AgentWalk.v
ReactWalk.v
ReactLaws.v
InterpRun.v
CallLaws.v
CallRun.v
MapRun.v
MapLaws.v
MapKeep.v
Reduce.v
ReduceLaws.v
SignalLaws.v
