(* ===== verification/Prelude.v ===== *)
(** * AWF: a verification development

    AWF runs agentic workflows durably.  A workflow definition (a graph of steps and control nodes) is
    interpreted; everything that happened is appended to a log of framed, checksummed events, and every
    output is put into a content-addressed blob store.  A run is resumed by folding its log into a run
    state and walking the graph again.  This development models that core — the log, the blob store,
    the commit of a node, the fold, the template language, the addresses, the scopes, the retry loop and
    the graph walk — as executable definitions, and proves what a durable interpreter must guarantee.

    ** The parts, and where the code is

    Each file models the Go files it names in its own header; a definition keeps the name of the
    function it translates, and a Go method's receiver becomes an argument.

    - Go itself: [GoNum] (strconv, float64 as the Standard Library's SpecFloat, integers at their width),
      [Sort] (sort.Slice), [GoJson] and [GoStruct] (encoding/json: texts, canonical printing, struct tags), [GoPath]
      (strings and package path), [Sha256] (crypto/sha256, executable).
    - template/: [TmplLexer], [TmplParser], [TmplSlots], [TmplEval].  Tokens, grammar, the slots of a
      host string, the evaluator over any scope.
    - retry/: [RetryPolicy], with the float64 bounds it needs in [F64Bounds].
    - state/: [StateBlobs] (blobs.go over a file system whose calls fail and which can crash),
      [StateFrame] (the record frame), [StateLog] (event codec, append, sync, recovery).  [Journal] has
      the two interfaces the engine uses, [Log] and [Blobs], with their laws as type classes; the
      in-memory fakes are instances, and StateLog.FileLog_refines relates the file log to them.
    - ir/: [Ir] (node types, JSON encoders, walk, digests), [EnginePath] (addresses).
    - ir/, the validator: [IrShape] (which scopes a reference crosses), [IrDiag] (findings, their order,
      the catalog), [ValStructural] (the structural pass), [ValRefs] (the reference pass), [ValFiles] (input and
      output files, calls, workflow exports), [ValContinues] (conversations), [ValRest] (recovery, roles,
      skills, reduce, prune, tools, juries, the schema floor).  [ValLaws] has what the structural pass
      guarantees, [ReachLaws] compares the scopes it lets through with what the engine resolves, and
      [ContLaws] compares the conversations it accepts with [Threads], the engine's walk of them.
    - skillroute/: [SkillRoute] (corpora, their digest, BM25 routing in float64).
    - engine/, the data: [EngineEvents] (every payload and its JSON), [RunState] (the index of a run),
      [EngineFold] (Fold), [Commit] (commit.go and nodekey.go, in a state and error monad over the log
      and the store).
    - engine/, references and files: [Scope] and [ScopeLaws] (what [step.x.y] means at a node of a run),
      [Artifacts] (input files, assets, output contracts).
    - signal/: [Signal] (the broker and the control requests, as programs of file system calls over a
      directory that several processes share), [SignalBroker] (consumers interleaved call by call),
      [SignalQueue] (the broker as a queue), [SignalControl] (pause and cancel, races of writers).
    - engine/, the run: [Rerun] (--from), [RetryLoop] (the attempts of one step), [Steps] (the code and
      the signal step, whole), [Interp] (if, loop, try, gate, skip, the walk, Run).  The laws of the walk
      are in [InterpLaws], [InterpFold], [InterpGate], [InterpTerm], [InterpResume], [InterpRun] and
      [SignalLaws].  [MapRun] is map.go and prune.go, its goroutines as the transitions of a step relation;
      [MapLaws] and [MapKeep] have its laws.  [Reduce] is the fan-in of a map (reduce.go), [ReduceLaws] what it guarantees.
    - engine/, the dispatcher: [Dispatch] (local_dispatcher.go: an attempt of a code step over a container
      backend), with its laws in [DispatchLaws]; [AgentDispatch] (local_dispatcher_agent.go: an attempt of an
      agent step over a container backend and the adapters), with its laws in [AgentLaws].
    - agent/: [Agent] (what an adapter is given and gives back, its errors), [Adapters] (the interface of an
      adapter, and the roles derived from one), [DisplaySanitize] (terminal sequences, in a text and in a
      stream).
    - engine/, agent steps: [AgentStep] (agent_step.go and agent_event_sink.go: configuration, conversation,
      files, attempts, the sink of live events, commit), over [Skills] (skills.go: the corpus, the recorded
      selection, the staged files) and [Threads].  [AgentWalk] has its laws in the walk.
    - engine/, react steps: [React] (react.go: the calls of the model, the calls of its tools, the rounds and
      their replay).  [ReactWalk] has its laws in the walk, [ReactLaws] shows that the replay is exact.
    - engine/, called workflows: [Call] (call_step.go: a first and a resumed call, the walk of the child
      in its own frame, the preflight of a resumed run; interpCalls ties the knot), over [Containers]
      (handles and container specifications), [Runtimes] (agent runtimes, drift, the containers of a
      child), [Exports] (outputs and files of a workflow) and [Contracts] (contracts of files and
      outputs).  [CallLaws] shows that a call steps at its own address and inside it, so that the laws of
      the walk hold of definitions that call each other; they are stated in [CallRun].

    ** State and effects

    A handler of the engine is a function on [Steps.St]: the log, the blob store, the run state and the
    outside world, which are the Go arguments [log], [blobs], [runstate] and the rest.  It returns the Go
    pair (Outcome, error) and the state it leaves, on every branch.  The outside world is a type with the
    operations of the class [RetryLoop.World] (dispatcher, clock, context, workspaces) and
    [Steps.Signals] (broker, control requests): theorems hold for every instance, so for every answer and
    every failure.  Errors are values ([goError], [engErr], [foldErr], ...): a message is kept as its
    format and arguments, so that wrapping and errors.As are exact, and its text is an external function
    where the code stores it ([Steps.xErrText]).

    ** What the theorems show

    - Durability of the store and the log: Get returns only what was put; Put is atomic and survives a
      crash; opening a log after a crash recovers at least the synced events.
    - Atomicity: Commit leaves a log that folds to the old state or to the state with exactly that node,
      every artifact of it in the store.
    - Fold: committed means a last completion event; every reference resolves; prefixes fold; unread event
      types do not matter.
    - The walk and the log (graphs without signal steps, maps, parallel and compose): whatever call fails, the log folds to a state that mirrors the one in memory
      (interp_mirrors_fold, by a simulation over the primitive steps of [InterpLaws.prim]); resuming a
      completed run does nothing (resume_noop, for graphs without loops and catch, which are entered again); a node writes inside its own address only; a graph with
      bounded loops is walked to a result.
    - The state machines: the attempts of a step follow a protocol, those of a gate are numbered, judged
      and bounded; a received signal is committed in two steps and never received again.
    - The broker: a signal is delivered once, to a wait that accepts it, under every interleaving of
      consumers; alone, the broker is a queue; a writer that runs beside a consumer is not safe.
    - Maps: however the items interleave, slots are bounded and every item that runs is committed once;
      a frontier keeps exactly the best k; a vote counts exactly the passed items that voted yes, against the
      cohort; a reducer and a reference collect the same items exactly when no failed item has a result.
    - The dispatcher: its answers keep the contract of the retry loop; a code step or an agent step that
      ends ok has delivered what it declares.
    - What is shown: no terminal sequence of an agent gets through to the log or a terminal, whether its
      output comes whole or in chunks.
    - Calls, agent and react steps: the laws of the walk hold with agent and react steps, and calls nested to
      any depth; a started call is resumed with the input it was started with.
    - React steps: whatever fails, a resumed step rebuilds the conversation its model had, byte for byte, and
      asks for no answer that is recorded.
    - References: a resolved reference names an instance of its step and keeps its value; a called
      workflow sees its own part of the run.
    - The validator: a graph it accepts has an address of its own for every node; a reference it lets
      through resolves to the instance that is meant, but in nested loops; a conversation it accepts is
      assembled in the workflow's own run.
    - Templates: what the printer writes parses back; the evaluator computes a relational semantics that
      says which part of an expression fails, and how.
    - Retries: the attempts of a step are bounded, a sleep is at least the curve and the hint and at most
      a quarter longer.
    - Skill corpora: their digest does not depend on the order of the files and determines them; routing
      returns the best of the candidates.
    - Encodings: addresses, node keys, digests, frames and events are injective or invertible.

    Lemmas that no property uses but that show a defect are named in the findings: for example
    RetryPolicy.BackoffFor_overflow, StateLog.Append_after_short_write, StateBlobs.Put_dedup_not_durable,
    Artifacts.collision_missed, InterpRun.loop_resume_extra, InterpRun.finally_launders_internal,
    DisplaySanitize.cut_rune_hides, CallRun.loop_call_not_resumable, CallRun.skipped_child_failed_ok, CallRun.exports_callers_iteration,
    ReactLaws.unknown_tool_not_resumable, ReachLaws.nested_loops_unresolved, SignalBroker.hyphen_undeliverable,
    DispatchLaws.stale_output_committed, DispatchLaws.output_paths_collide.

    ** Fuel and bounds

    Parsers recurse on the length of their input plus one, which each call decreases.  The walk's only
    fuel is the number of iterations of one entry into a loop: [None] is "out of fuel", and
    CallRun.interpNodes_terminates shows that 2^64 is enough when a loop has max_iters, and that more
    fuel changes nothing; a loop with only [until] may run forever, as in the code.  A second fuel bounds
    how deeply calls are nested: the import edges of a definition are acyclic, and more depth than the
    calls need changes nothing.  Machine integers are
    Z with their wrap-around written out where the code computes on them.

    ** Assumptions

    The laws of [Journal] are assumed of a log and a store, and proved for the fakes; a log also keeps
    accepting appends after a failed call ([LogRobust]) where a theorem follows a walk past a failure:
    the file log has that property as long as no write is cut short.  Distinct contents have distinct
    addresses ([Commit.clean]), that is SHA-256 does not collide on the contents at hand.  RFC 8785
    canonicalisation, the JSON Schema compiler, the Unicode tables, math.Log and the times of
    encoding/json are parameters.

    ** Not modelled

    Parallel and compose are a parameter of the walk, and so is a map
    inside it, which [MapRun] models on its own; the laws of the walk are about graphs of the other kinds.  A nil map inside an [any] value is read as an empty
    one.  The chunks and events shown on the live tap are left out: nothing the model reads depends on them.
    The sink of live events runs beside the attempts: what it is handed, and when, is an answer of the
    outside ([AgentStep.AgentHost]); the redaction of secrets (regular expressions) is a parameter.  The mutex of the run state and the poller goroutine are left out: a method
    is one step, and the requests the poller found are an answer of the world.  The passes over
    the raw document (durations, unknown keys) and over compose files call a YAML library.  The JSON and
    YAML decoders of definitions, the loader, pricing, observability, the command line, the clients of the adapters and
    the container backends are not modelled yet or are pure I/O. *)

From Stdlib Require Export ZArith Lia Ascii String.
From stdpp Require Export base gmap strings list fin_maps pretty.

#[global] Set Default Goal Selector "!".

(** ** Results: a Go pair [(value, error)] in which exactly one side is set. *)

Inductive res (E A : Type) : Type :=
  | Ok (a : A)
  | Err (e : E).
Arguments Ok {E A} a.
Arguments Err {E A} e.

Definition res_bind {E A B} (r : res E A) (k : A → res E B) : res E B :=
  match r with Ok a => k a | Err e => Err e end.

Definition res_map {E A B} (f : A → B) (r : res E A) : res E B :=
  match r with Ok a => Ok (f a) | Err e => Err e end.

Definition res_map_err {E F A} (f : E → F) (r : res E A) : res F A :=
  match r with Ok a => Ok a | Err e => Err (f e) end.

Definition is_ok {E A} (r : res E A) : bool :=
  match r with Ok _ => true | Err _ => false end.

Declare Scope awf_scope.
Delimit Scope awf_scope with awf.
Notation "'let?' x := r 'in' k" := (res_bind r (λ x, k))
  (at level 10, x pattern, r at level 100, k at level 200) : awf_scope.
#[global] Open Scope awf_scope.

(** [res_mapM f l] applies [f] left to right and stops at the first error. *)
Fixpoint res_mapM {E A B} (f : A → res E B) (l : list A) : res E (list B) :=
  match l with
  | [] => Ok []
  | a :: l => let? b := f a in let? bs := res_mapM f l in Ok (b :: bs)
  end.

#[global] Instance res_eq_dec {E A} `{EqDecision E} `{EqDecision A} : EqDecision (res E A).
Proof. solve_decision. Defined.

Lemma res_bind_ok {E A B} (r : res E A) (k : A → res E B) b :
  res_bind r k = Ok b ↔ ∃ a, r = Ok a ∧ k a = Ok b.
Proof.
  split.
  - destruct r as [a|e]; simpl; [by eauto|done].
  - by intros (a & -> & H).
Qed.

Lemma res_bind_err {E A B} (r : res E A) (k : A → res E B) e :
  res_bind r k = Err e ↔ r = Err e ∨ ∃ a, r = Ok a ∧ k a = Err e.
Proof.
  split.
  - destruct r as [a|e']; simpl; [by eauto|]. intros [= <-]. by left.
  - intros [->|(a & -> & H)]; done.
Qed.

Lemma res_mapM_length {E A B} (f : A → res E B) l bs :
  res_mapM f l = Ok bs → length bs = length l.
Proof.
  revert bs; induction l as [|a l IH]; simpl; intros bs H; [by simplify_eq|].
  apply res_bind_ok in H as (b & _ & (bs' & Hl & [= <-])%res_bind_ok).
  simpl. by rewrite (IH _ Hl).
Qed.

Lemma res_mapM_elem {E A B} (f : A → res E B) l bs :
  res_mapM f l = Ok bs → ∀ b, b ∈ bs → ∃ a, a ∈ l ∧ f a = Ok b.
Proof.
  revert bs. induction l as [|a l IH]; simpl; intros bs H b Hb; [simplify_eq; by apply elem_of_nil in Hb|].
  apply res_bind_ok in H as (b0 & Hf & (bs' & Hl & [= <-])%res_bind_ok).
  apply elem_of_cons in Hb as [->|Hb]; [exists a; split; [by left|done]|].
  destruct (IH _ Hl b Hb) as (a' & ? & ?). exists a'. split; [by right|done].
Qed.

(** [inv_res] unfolds every hypothesis saying that a bind succeeded. *)
Ltac inv_res :=
  repeat match goal with
  | H : res_bind ?r _ = Ok _ |- _ =>
      let a := fresh "a" in let Ha := fresh "Hr" in
      apply res_bind_ok in H as (a & Ha & H)
  | H : Ok _ = Ok _ |- _ => injection H as H; try subst
  | H : Err _ = Ok _ |- _ => discriminate H
  | H : Ok _ = Err _ |- _ => discriminate H
  end.

(** [case_term t] splits on the scrutinee of the first match in the goal. *)
Ltac case_goal :=
  match goal with
  | |- context [match ?x with _ => _ end] => destruct x eqn:?
  end.

Create HintDb awf.
Create Rewrite HintDb awf.

(** ** Integers at their width *)

Open Scope Z_scope.

Definition two64 : Z := 2 ^ 64.
Definition two63 : Z := 2 ^ 63.
Definition two32 : Z := 2 ^ 32.
Definition two31 : Z := 2 ^ 31.

(** Go's [uint64], [uint32] and [int64] (and [int] on a 64-bit target) arithmetic wraps. *)
Definition wrap_u64 (z : Z) : Z := z mod two64.
Definition wrap_u32 (z : Z) : Z := z mod two32.
Definition wrap_i64 (z : Z) : Z := (z + two63) mod two64 - two63.

Definition in_i64 (z : Z) : bool := (- two63 <=? z) && (z <? two63).

Lemma wrap_i64_id z : - two63 ≤ z < two63 → wrap_i64 z = z.
Proof. intros H. unfold wrap_i64, two63, two64 in *. rewrite Z.mod_small; lia. Qed.

Lemma wrap_i64_range z : - two63 ≤ wrap_i64 z < two63.
Proof.
  unfold wrap_i64. pose proof (Z.mod_pos_bound (z + two63) two64 eq_refl).
  unfold two63, two64 in *. lia.
Qed.

Lemma wrap_u64_id z : 0 ≤ z < two64 → wrap_u64 z = z.
Proof. intros H. unfold wrap_u64. by apply Z.mod_small. Qed.

Lemma wrap_u32_id z : 0 ≤ z < two32 → wrap_u32 z = z.
Proof. intros H. unfold wrap_u32. by apply Z.mod_small. Qed.

Lemma wrap_u32_range z : 0 ≤ wrap_u32 z < two32.
Proof. apply Z.mod_pos_bound. reflexivity. Qed.

Lemma in_i64_wrap z : in_i64 (wrap_i64 z) = true.
Proof. unfold in_i64. pose proof (wrap_i64_range z). rewrite andb_true_iff, Z.leb_le, Z.ltb_lt. lia. Qed.

#[export] Hint Resolve wrap_i64_range wrap_u32_range : awf.

Close Scope Z_scope.

(** ** Go strings: byte sequences

    A Go [string] (and a [[]byte]) is a [string] of 8-bit characters; [stake] and [sdrop] are
    the slices [s[:n]] and [s[n:]] (which the code only takes in range). *)

Abbreviation slen := String.length.
#[global] Arguments String.append !_ _ /.

Fixpoint stake (n : nat) (s : string) : string :=
  match n, s with
  | S n, String c s => String c (stake n s)
  | _, _ => ""
  end.

Fixpoint sdrop (n : nat) (s : string) : string :=
  match n, s with
  | O, _ => s
  | S n, String _ s => sdrop n s
  | S _, EmptyString => ""
  end.

(** [sslice s i j] is Go's [s[i:j]]. *)
Definition sslice (s : string) (i j : nat) : string := stake (j - i) (sdrop i s).

(** [sget s i] is [s[i]], absent when the index is out of range. *)
Definition sget (s : string) (i : nat) : option ascii := String.get i s.

Section string_lemmas.
Implicit Types s t u : string.

Lemma sapp_nil_r s : s +:+ "" = s.
Proof. induction s as [|c s IH]; [done|]. simpl. by rewrite IH. Qed.
Lemma sapp_assoc s t u : s +:+ (t +:+ u) = (s +:+ t) +:+ u.
Proof. induction s as [|c s IH]; [done|]. simpl. by rewrite IH. Qed.
Lemma slen_app s t : slen (s +:+ t) = slen s + slen t.
Proof. induction s as [|c s IH]; [done|]. simpl. by rewrite IH. Qed.
Lemma stake_sdrop n s : stake n s +:+ sdrop n s = s.
Proof. revert s; induction n as [|n IH]; intros [|c s]; simpl; try done. by rewrite IH. Qed.
Lemma slen_stake n s : slen (stake n s) = n `min` slen s.
Proof. revert s; induction n as [|n IH]; intros [|c s]; simpl; try done. by rewrite IH. Qed.
Lemma slen_sdrop n s : slen (sdrop n s) = slen s - n.
Proof. revert s; induction n as [|n IH]; intros [|c s]; simpl; try done. Qed.
Lemma sdrop_0 s : sdrop 0 s = s.
Proof. by destruct s. Qed.
Lemma stake_0 s : stake 0 s = "".
Proof. by destruct s. Qed.
Lemma sdrop_sdrop n m s : sdrop n (sdrop m s) = sdrop (m + n) s.
Proof.
  revert s; induction m as [|m IH]; intros [|c s]; simpl; try done. by destruct n.
Qed.
Lemma stake_app s t : stake (slen s) (s +:+ t) = s.
Proof. induction s as [|c s IH]; simpl; [by destruct t|]. by rewrite IH. Qed.
Lemma sdrop_app s t : sdrop (slen s) (s +:+ t) = t.
Proof. induction s as [|c s IH]; simpl; [by destruct t|]. done. Qed.
Lemma stake_app_le n s t : n ≤ slen s → stake n (s +:+ t) = stake n s.
Proof.
  revert s; induction n as [|n IH]; intros [|c s] H; simpl in *; try done; try lia.
  rewrite IH; [done|lia].
Qed.
Lemma sdrop_app_ge n s t : slen s ≤ n → sdrop n (s +:+ t) = sdrop (n - slen s) t.
Proof.
  revert n; induction s as [|c s IH]; intros [|n] H; simpl in *; try done; try lia.
  apply IH; lia.
Qed.
Lemma sdrop_app_le n s t : n ≤ slen s → sdrop n (s +:+ t) = sdrop n s +:+ t.
Proof.
  revert s; induction n as [|n IH]; intros [|c s] H; simpl in *; try done; try lia.
  apply IH; lia.
Qed.
Lemma stake_all n s : slen s ≤ n → stake n s = s.
Proof.
  revert n; induction s as [|c s IH]; intros [|n] H; simpl in *; try done; try lia.
  rewrite IH; [done|lia].
Qed.
Lemma sdrop_all n s : slen s ≤ n → sdrop n s = "".
Proof.
  revert n; induction s as [|c s IH]; intros [|n] H; simpl in *; try done; try lia.
  apply IH; lia.
Qed.
Lemma sapp_inj_l s t u : s +:+ t = s +:+ u → t = u.
Proof. induction s as [|c s IH]; simpl; [done|]. intros [= H]. by apply IH. Qed.
Lemma sapp_inj_len s t s' t' :
  slen s = slen s' → s +:+ t = s' +:+ t' → s = s' ∧ t = t'.
Proof.
  revert s'; induction s as [|c s IH]; intros [|c' s'] Hl H; simpl in *; try done.
  injection Hl as Hl. injection H as -> H. by destruct (IH s' Hl H) as [-> ->].
Qed.
End string_lemmas.

#[export] Hint Rewrite slen_app slen_stake slen_sdrop sapp_nil_r sdrop_0 stake_0 : awf.

(** [strings.HasPrefix], [strings.HasSuffix], [strings.Index] and [strings.Contains]. *)
Definition HasPrefix (s p : string) : bool := String.prefix p s.

Definition HasSuffix (s p : string) : bool :=
  (slen p <=? slen s)%nat && String.eqb (sdrop (slen s - slen p) s) p.

Fixpoint strIndex (s sub : string) : option nat :=
  if String.prefix sub s then Some 0
  else match s with
       | "" => None
       | String _ s' => S <$> strIndex s' sub
       end.

Definition strContains (s sub : string) : bool :=
  match strIndex s sub with Some _ => true | None => false end.

Lemma prefix_spec p s : String.prefix p s = true ↔ ∃ t, s = p +:+ t.
Proof.
  revert s; induction p as [|c p IH]; intros s; simpl.
  - split; [|by destruct s]. by exists s.
  - destruct s as [|c' s]; simpl.
    + split; [done|]. by intros [t [=]].
    + destruct (ascii_dec c c') as [->|Hne].
      * rewrite IH. split; intros [t Ht]; exists t; [by rewrite Ht|by injection Ht].
      * split; [done|]. intros [t [=]]. congruence.
Qed.

Lemma prefix_app p t : String.prefix p (p +:+ t) = true.
Proof. apply prefix_spec. by exists t. Qed.

(** [strIndex] finds the leftmost occurrence. *)
Lemma strIndex_Some s sub n :
  strIndex s sub = Some n →
  String.prefix sub (sdrop n s) = true ∧ n + slen sub ≤ slen s ∧
  ∀ m, m < n → String.prefix sub (sdrop m s) = false.
Proof.
  revert n; induction s as [|c s IH]; intros n.
  - unfold strIndex. destruct (String.prefix sub "") eqn:E; [|done]. intros [= <-].
    split; [done|]. split; [|lia].
    apply prefix_spec in E as [t Ht]. destruct sub; [simpl; lia|done].
  - cbn [strIndex]. destruct (String.prefix sub (String c s)) eqn:E.
    + intros [= <-]. split; [done|]. split; [|lia].
      apply prefix_spec in E as [t Ht]. rewrite Ht, slen_app. lia.
    + destruct (strIndex s sub) as [k|] eqn:Ek; [|done]. intros [= <-].
      destruct (IH k eq_refl) as (H1 & H2 & H3). simpl. split; [done|]. split; [lia|].
      intros [|m] Hm; [done|]. simpl. apply H3. lia.
Qed.

Lemma strIndex_None s sub n :
  strIndex s sub = None → String.prefix sub (sdrop n s) = false.
Proof.
  revert n; induction s as [|c s IH]; intros n.
  - unfold strIndex. destruct (String.prefix sub "") eqn:E; [done|]. by destruct n.
  - cbn [strIndex]. destruct (String.prefix sub (String c s)) eqn:E; [done|].
    destruct (strIndex s sub) eqn:Ek; [done|]. intros _. destruct n; [done|]. simpl. by apply IH.
Qed.

(** [strings.TrimSpace]: [spaceSpan s] is the length of the UTF-8 encoded white space character
    ([unicode.IsSpace]) that [s] starts with. *)
Definition spaceSpan (s : string) : option nat :=
  let n (c : ascii) := nat_of_ascii c in
  match s with
  | "" => None
  | String c r =>
      if ((9 <=? n c) && (n c <=? 13) || (n c =? 32))%nat then Some 1
      else match r with
      | "" => None
      | String c1 r1 =>
          if ((n c =? 194) && ((n c1 =? 133) || (n c1 =? 160)))%nat then Some 2
          else match r1 with
          | "" => None
          | String c2 _ =>
              if ((n c =? 225) && (n c1 =? 154) && (n c2 =? 128)
                  || (n c =? 226) && (n c1 =? 128) &&
                     ((128 <=? n c2) && (n c2 <=? 138) || (n c2 =? 168) || (n c2 =? 169) || (n c2 =? 175))
                  || (n c =? 226) && (n c1 =? 129) && (n c2 =? 159)
                  || (n c =? 227) && (n c1 =? 128) && (n c2 =? 128))%nat
              then Some 3 else None
          end
      end
  end.

Fixpoint trimLeft (s : string) : string :=
  match s with
  | "" => ""
  | String _ r =>
      match spaceSpan s with
      | None => s
      | Some 1 => trimLeft r
      | Some 2 => match r with String _ r1 => trimLeft r1 | "" => "" end
      | Some _ => match r with String _ (String _ r2) => trimLeft r2 | _ => "" end
      end
  end.

Fixpoint trimRight (s : string) : string :=
  match s with
  | "" => ""
  | String c r => if String.eqb (trimLeft s) "" then "" else String c (trimRight r)
  end.

Definition TrimSpace (s : string) : string := trimRight (trimLeft s).

Example trim_ex : TrimSpace (" a b" +:+ String (ascii_of_nat 194) (String (ascii_of_nat 160) " ")) = "a b".
Proof. reflexivity. Qed.
