(* ===== verification/GoNum.v ===== *)
(** * Numbers of the Go standard library

    [strconv]'s decimal integers and IEEE-754 [float64] values: parsing
    ([strconv.ParseInt], [strconv.ParseFloat]) and formatting ([strconv.Itoa],
    [strconv.FormatFloat] with precision -1), as the template evaluator, the JSON encoder and the
    retry jitter use them.  [float64] is the Standard Library's [spec_float] at precision 53 and
    maximal exponent 1024, so every operation is executable and correctly rounded. *)

From Stdlib Require Import DecimalString DecimalZ DecimalN SpecFloat.
From S2P Require Import Prelude.

(** ** Decimal integers *)

(** [strconv.Itoa] and [strconv.FormatInt(_, 10)]. *)
Definition Itoa (z : Z) : string := NilZero.string_of_int (Z.to_int z).

Definition isDigit (c : ascii) : bool :=
  let n := nat_of_ascii c in ((48 <=? n) && (n <=? 57))%nat.

(** The value of a non-empty digit string. *)
Definition parse_digits (s : string) : option Z :=
  match s with
  | "" => None
  | _ => Z.of_uint <$> NilEmpty.uint_of_string s
  end.

(** [strconv.ParseInt(s, 10, 64)]: an optional sign, digits, and the int64 range. *)
Definition ParseInt (s : string) : option Z :=
  let signed (neg : bool) (r : string) :=
    z ← parse_digits r;
    let z := if neg then Z.opp z else z in
    if in_i64 z then Some z else None in
  match s with
  | String "-"%char r => signed true r
  | String "+"%char r => signed false r
  | _ => signed false s
  end.

Lemma uint_string_head u :
  match NilEmpty.string_of_uint u with
  | String c _ => isDigit c = true
  | "" => u = Decimal.Nil
  end.
Proof. by destruct u. Qed.

Lemma uint_string_nonempty p : NilEmpty.string_of_uint (Pos.to_uint p) ≠ "".
Proof.
  intros H. pose proof (uint_string_head (Pos.to_uint p)) as Hh. rewrite H in Hh.
  by apply (DecimalPos.Unsigned.to_uint_nonnil p).
Qed.

Lemma parse_digits_pos p :
  parse_digits (NilEmpty.string_of_uint (Pos.to_uint p)) = Some (Z.pos p).
Proof.
  unfold parse_digits.
  destruct (NilEmpty.string_of_uint (Pos.to_uint p)) eqn:E.
  - by apply uint_string_nonempty in E.
  - rewrite <- E, NilEmpty.usu. simpl.
    f_equal. unfold Z.of_uint. rewrite DecimalPos.Unsigned.of_to. done.
Qed.

Lemma ParseInt_unsigned s :
  match s with String c _ => isDigit c = true | "" => False end →
  ParseInt s = z ← parse_digits s; if in_i64 z then Some z else None.
Proof.
  destruct s as [|c s]; [done|]. intros H.
  destruct c as [[] [] [] [] [] [] [] []]; try discriminate H; done.
Qed.

Lemma nz_uint_string_pos p :
  NilZero.string_of_uint (Pos.to_uint p) = NilEmpty.string_of_uint (Pos.to_uint p).
Proof.
  unfold NilZero.string_of_uint. destruct (Pos.to_uint p) eqn:E; try done.
  by apply DecimalPos.Unsigned.to_uint_nonnil in E.
Qed.

(** Every int64 survives formatting and parsing. *)
Lemma ParseInt_Itoa z : in_i64 z = true → ParseInt (Itoa z) = Some z.
Proof.
  intros Hr. destruct z as [|p|p]; [done| |].
  - unfold Itoa. simpl Z.to_int. unfold NilZero.string_of_int. rewrite nz_uint_string_pos.
    rewrite ParseInt_unsigned.
    + rewrite parse_digits_pos. simpl. by rewrite Hr.
    + pose proof (uint_string_head (Pos.to_uint p)) as Hh.
      destruct (NilEmpty.string_of_uint (Pos.to_uint p)) eqn:E; [|done].
      by apply uint_string_nonempty in E.
  - unfold Itoa. simpl Z.to_int. unfold NilZero.string_of_int. rewrite nz_uint_string_pos.
    change (in_i64 (Z.opp (Z.pos p)) = true) in Hr.
    unfold ParseInt. rewrite parse_digits_pos. simpl. by rewrite Hr.
Qed.

Lemma to_int_nonnil z : Z.to_int z ≠ Decimal.Pos Decimal.Nil ∧ Z.to_int z ≠ Decimal.Neg Decimal.Nil.
Proof.
  destruct z as [|p|p]; simpl; split; try done; intros [= E]; by apply DecimalPos.Unsigned.to_uint_nonnil in E.
Qed.

Lemma Itoa_inj z z' : Itoa z = Itoa z' → z = z'.
Proof.
  intros H. apply (f_equal NilZero.int_of_string) in H. unfold Itoa in H.
  destruct (to_int_nonnil z), (to_int_nonnil z'). rewrite !NilZero.isi in H by done.
  injection H as H. apply (f_equal Z.of_int) in H. by rewrite !DecimalZ.of_to in H.
Qed.

Lemma parse_digits_Itoa z : (0 ≤ z)%Z → parse_digits (Itoa z) = Some z.
Proof.
  intros Hz. destruct z as [|p|p]; [done| |lia].
  unfold Itoa. simpl Z.to_int. unfold NilZero.string_of_int. rewrite nz_uint_string_pos. apply parse_digits_pos.
Qed.

(** The decimal text of a positive number does not start with a zero. *)
Lemma to_uint_no_zero p u : Pos.to_uint p ≠ Decimal.D0 u.
Proof.
  intros E. assert (Hn : Decimal.nb_digits (Decimal.unorm (Pos.to_uint p)) = Decimal.nb_digits (Pos.to_uint p)).
  { rewrite <- DecimalPos.Unsigned.to_of, DecimalPos.Unsigned.of_to. done. }
  rewrite E, DecimalFacts.unorm_D0 in Hn. assert (Hu : u = Decimal.Nil ∨ u ≠ Decimal.Nil) by (destruct u; [by left|by right..]).
  destruct Hu as [->|Hu].
  - apply (f_equal Pos.of_uint) in E. by rewrite DecimalPos.Unsigned.of_to in E.
  - pose proof (DecimalFacts.nb_digits_unorm u Hu). cbn in Hn. lia.
Qed.

(** ** float64 *)

Abbreviation f64 := spec_float.

#[global] Instance f64_eq_dec : EqDecision f64.
Proof. solve_decision. Defined.

Definition f64_of_Z (z : Z) : f64 := binary_normalize 53 1024 z 0 false.
Definition f64_mul : f64 → f64 → f64 := SFmul 53 1024.
Definition f64_div : f64 → f64 → f64 := SFdiv 53 1024.

(** The float64 nearest to [n * 10^k] (ties to even), for [n >= 0]. *)
Definition f64_of_dec (neg : bool) (n : Z) (k : Z) : f64 :=
  match n with
  | Zpos p =>
      if (0 <=? k)%Z then
        match (Zpos p * 10 ^ k)%Z with
        | Zpos q => binary_round 53 1024 neg q 0
        | _ => S754_zero neg
        end
      else
        match (10 ^ (- k))%Z with
        | Zpos d => f64_div (S754_finite neg p 0) (S754_finite false d 0)
        | _ => S754_zero neg
        end
  | _ => S754_zero neg
  end.

(** Split a string after its longest prefix of digits. *)
Fixpoint span_digits (s : string) : string * string :=
  match s with
  | String c s' =>
      if isDigit c then let '(d, r) := span_digits s' in (String c d, r) else ("", s)
  | "" => ("", "")
  end.

Definition digits_val (s : string) : Z := default 0%Z (parse_digits s).

(** [strconv.ParseFloat(s, 64)] on decimal numerals (sign, digits, fraction, exponent), the only
    shape a NUMBER token or a JSON number has.  Overflow is [ErrRange]: no value. *)
Definition ParseFloat (s : string) : option f64 :=
  let '(neg, r) := match s with
                   | String "-"%char r => (true, r)
                   | String "+"%char r => (false, r)
                   | _ => (false, s)
                   end in
  let '(ip, r) := span_digits r in
  let '(fp, r) := match r with
                  | String "."%char r' => span_digits r'
                  | _ => ("", r)
                  end in
  if (slen ip + slen fp =? 0)%nat then None else
  let mant := digits_val (ip +:+ fp) in
  let finish (e : Z) :=
    match f64_of_dec neg mant (e - Z.of_nat (slen fp))%Z with
    | S754_infinity _ => None
    | x => Some x
    end in
  match r with
  | "" => finish 0%Z
  | String c r' =>
      if (c =? "e")%char || (c =? "E")%char then
        let '(eneg, r') := match r' with
                           | String "-"%char q => (true, q)
                           | String "+"%char q => (false, q)
                           | _ => (false, r')
                           end in
        let '(ed, rest) := span_digits r' in
        if (slen ed =? 0)%nat || negb (slen rest =? 0)%nat then None
        else finish (if eneg then - digits_val ed else digits_val ed)%Z
      else None
  end.

(** *** Comparisons (IEEE: NaN is unordered, the two zeros are equal) *)

Definition f64_eqb (x y : f64) : bool := SFeqb x y.
Definition f64_ltb (x y : f64) : bool := SFltb x y.
Definition f64_leb (x y : f64) : bool := SFleb x y.

(** [x == math.Trunc(x) && !IsInf(x) && !IsNaN(x)]: a finite integer. *)
Definition f64_is_integer (x : f64) : bool :=
  match x with
  | S754_zero _ => true
  | S754_finite _ m e => (0 <=? e)%Z || (Zpos m mod 2 ^ (- e) =? 0)%Z
  | _ => false
  end.

(** Go's conversion [int64(x)] of an in-range float: truncation towards zero. *)
Definition f64_trunc (x : f64) : Z :=
  match x with
  | S754_finite s m e =>
      let a := (if (0 <=? e)%Z then Zpos m * 2 ^ e else Zpos m / 2 ^ (- e))%Z in
      if s then (- a)%Z else a
  | _ => 0%Z
  end.

(** *** Shortest formatting

    The decimal digits [strconv] prints for precision -1: the fewest digits that read back as the
    same float; of the two neighbours that do, the nearer one. *)

Definition zpow10_ratio (m : positive) (e j : Z) : Z * Z :=
  (Zpos m * 2 ^ (Z.max e 0) * 10 ^ (Z.max (- j) 0), 2 ^ (Z.max (- e) 0) * 10 ^ (Z.max j 0))%Z.

(** [floor (log10 (m * 2^e))], searched upwards from below. *)
Fixpoint log10_up (fuel : nat) (m : positive) (e p : Z) : Z :=
  match fuel with
  | O => p
  | S f => let '(n, d) := zpow10_ratio m e (p + 1) in
           if (d <=? n)%Z then log10_up f m e (p + 1) else p
  end.

Definition f64_log10 (m : positive) (e : Z) : Z := log10_up 700 m e (-350).

Fixpoint shortest_from (fuel : nat) (n : Z) (m : positive) (e p : Z) : Z * Z :=
  let j := (p - n + 1)%Z in
  let '(num, den) := zpow10_ratio m e j in
  let down := (num / den)%Z in
  let r := (num mod den)%Z in
  let x := S754_finite false m e in
  let okd := f64_eqb (f64_of_dec false down j) x in
  let oku := f64_eqb (f64_of_dec false (down + 1) j) x in
  match fuel with
  | O => (down, j)
  | S f =>
      if okd && oku then
        if (2 * r <? den)%Z then (down, j)
        else if (den <? 2 * r)%Z then (down + 1, j)%Z
        else if Z.even down then (down, j) else (down + 1, j)%Z
      else if okd then (down, j)
      else if oku then (down + 1, j)%Z
      else shortest_from f (n + 1) m e p
  end.

Fixpoint strip_zeros (fuel : nat) (d k : Z) : Z * Z :=
  match fuel with
  | O => (d, k)
  | S f => if (d mod 10 =? 0)%Z && negb (d =? 0)%Z then strip_zeros f (d / 10) (k + 1) else (d, k)
  end.

(** Digits and decimal-point position: the value is [0.d1d2... * 10^dp]. *)
Definition shortest (m : positive) (e : Z) : string * Z :=
  let '(d, j) := shortest_from 17 1 m e (f64_log10 m e) in
  let '(d, k) := strip_zeros 20 d j in
  let ds := Itoa d in
  (ds, (k + Z.of_nat (slen ds))%Z).

Fixpoint srepeat (c : ascii) (n : nat) : string :=
  match n with O => "" | S n => String c (srepeat c n) end.

(** [%f] and [%e] of a digit string. *)
Definition fmtF (ds : string) (dp : Z) : string :=
  let nd := slen ds in
  if (dp <=? 0)%Z then "0." +:+ srepeat "0" (Z.to_nat (- dp)) +:+ ds
  else let p := Z.to_nat dp in
       if (nd <=? p)%nat then ds +:+ srepeat "0" (p - nd)
       else stake p ds +:+ "." +:+ sdrop p ds.

Definition fmtExp (x : Z) (pad : bool) : string :=
  (if (x <? 0)%Z then "e-" else "e+") +:+
  (if pad && (Z.abs x <? 10)%Z then "0" else "") +:+ Itoa (Z.abs x).

Definition fmtE (ds : string) (dp : Z) (pad : bool) : string :=
  stake 1 ds +:+ (if (slen ds <=? 1)%nat then "" else "." +:+ sdrop 1 ds) +:+ fmtExp (dp - 1) pad.

Definition fmt_sign (s : bool) (r : string) : string := if s then "-" +:+ r else r.

(** [strconv.FormatFloat(x, 'f', -1, 64)]. *)
Definition FormatFloat_f (x : f64) : string :=
  match x with
  | S754_zero s => fmt_sign s "0"
  | S754_infinity s => if s then "-Inf" else "+Inf"
  | S754_nan => "NaN"
  | S754_finite s m e => let '(ds, dp) := shortest m e in fmt_sign s (fmtF ds dp)
  end.

(** [strconv.FormatFloat(x, 'g', -1, 64)]: [%e] below 1e-4 and from 1e6 up. *)
Definition FormatFloat_g (x : f64) : string :=
  match x with
  | S754_finite s m e =>
      let '(ds, dp) := shortest m e in
      let x := (dp - 1)%Z in
      fmt_sign s (if (x <? -4)%Z || (6 <=? x)%Z then fmtE ds dp true else fmtF ds dp)
  | _ => FormatFloat_f x
  end.

(** [encoding/json]'s float encoding: ES6 thresholds, a one-digit negative exponent unpadded. *)
Definition json_float (x : f64) : option string :=
  match x with
  | S754_nan | S754_infinity _ => None
  | S754_zero s => Some (fmt_sign s "0")
  | S754_finite s m e =>
      let '(ds, dp) := shortest m e in
      let ex := (dp - 1)%Z in
      Some (fmt_sign s (if (ex <? -6)%Z || (21 <=? ex)%Z
                        then fmtE ds dp (0 <=? ex)%Z else fmtF ds dp))
  end.

Example fmt_ex1 : FormatFloat_g <$> ParseFloat "1234567.5" = Some "1.2345675e+06".
Proof. vm_compute. reflexivity. Qed.
Example fmt_ex2 : FormatFloat_g <$> ParseFloat "0.1" = Some "0.1".
Proof. vm_compute. reflexivity. Qed.
Example fmt_ex3 : FormatFloat_f <$> ParseFloat "1e23" = Some "100000000000000000000000".
Proof. vm_compute. reflexivity. Qed.
Example fmt_ex4 : FormatFloat_f <$> ParseFloat "9007199254740993" = Some "9007199254740992".
Proof. vm_compute. reflexivity. Qed.
Example fmt_ex5 : (ParseFloat "5e-324" ≫= json_float) = Some "5e-324".
Proof. vm_compute. reflexivity. Qed.
Example fmt_ex6 : ParseFloat "1e309" = None.
Proof. vm_compute. reflexivity. Qed.
Example fmt_ex7 : FormatFloat_g <$> ParseFloat "-0.000012" = Some "-1.2e-05".
Proof. vm_compute. reflexivity. Qed.
