(* ===== verification/Sort.v ===== *)
(** * Sorting

    [sort.Slice] by a boolean order, its result and the rank of an element in it, and the order of the
    float64 that are numbers. *)

From Stdlib Require Import SpecFloat.
From stdpp Require Import sorting.
From S2P Require Import Prelude GoNum.

(** ** Sorting by a boolean order

    [sort.Slice] on a list whose elements are pairwise different in the order: one result is sorted. *)

Fixpoint insert_by {A} (leb : A → A → bool) (x : A) (l : list A) : list A :=
  match l with [] => [x] | y :: l' => if leb x y then x :: l else y :: insert_by leb x l' end.
Definition sort_by {A} (leb : A → A → bool) (l : list A) : list A := foldr (insert_by leb) [] l.

Section sort_by.
Context {A} (leb : A → A → bool) (P : A → Prop).
Hypothesis trans : ∀ a b c, P a → P b → P c → leb a b = true → leb b c = true → leb a c = true.
Hypothesis total : ∀ a b, P a → P b → leb a b = true ∨ leb b a = true.
Notation le := (λ a b, leb a b = true).

Lemma insert_by_perm x l : insert_by leb x l ≡ₚ x :: l.
Proof.
  induction l as [|y l IH]; cbn; [done|]. destruct (leb x y); [done|]. rewrite IH. constructor.
Qed.
Lemma sort_by_perm l : sort_by leb l ≡ₚ l.
Proof. induction l as [|x l IH]; cbn; [done|]. by rewrite insert_by_perm, IH. Qed.

Lemma insert_by_sorted x l : P x → Forall P l → StronglySorted le l → StronglySorted le (insert_by leb x l).
Proof.
  intros Hx. induction l as [|y l IH]; cbn; intros HP H; [by repeat constructor|].
  apply Forall_cons in HP as [Hy HP]. apply StronglySorted_inv in H as [Hs Hf].
  destruct (leb x y) eqn:E; (constructor; [|]).
  - by constructor.
  - constructor; [done|]. rewrite Forall_forall in *. intros z Hz. eapply (trans x y z); eauto.
  - by apply IH.
  - rewrite insert_by_perm. constructor; [|done]. by destruct (total x y) as [?|?]; [..|congruence|done].
Qed.
Lemma sort_by_sorted l : Forall P l → StronglySorted le (sort_by leb l).
Proof.
  induction l as [|x l IH]; cbn; [constructor|]. intros [Hx HP]%Forall_cons. apply insert_by_sorted; [done| |by apply IH].
  rewrite Forall_forall in *. intros y. fold (sort_by leb l). rewrite sort_by_perm. apply HP.
Qed.
End sort_by.

(** ** Ranks *)

Section rank.
Context {A} (leb : A → A → bool).
Notation le := (λ a b, leb a b = true).
(** [a] comes before [b]. *)
Definition before (a b : A) : bool := leb a b && negb (leb b a).
(** How many elements of [l] come before [x]. *)
Definition rank (l : list A) (x : A) : nat := length (List.filter (λ a, before a x) l).

Lemma rank_perm l l' x : l ≡ₚ l' → rank l x = rank l' x.
Proof.
  unfold rank. induction 1; cbn; [done|case_match; cbn; lia|repeat case_match; cbn; lia|lia].
Qed.

Lemma rank_app l l' x : rank (l ++ l') x = (rank l x + rank l' x)%nat.
Proof. unfold rank. by rewrite List.filter_app, length_app. Qed.
Lemma rank_all l x : Forall (λ a, before a x = true) l → rank l x = length l.
Proof. unfold rank. induction 1 as [|a l Ha _ IH]; [done|]. cbn. rewrite Ha. cbn. lia. Qed.
Lemma rank_none l x : Forall (λ a, before a x = false) l → rank l x = 0%nat.
Proof. unfold rank. induction 1 as [|a l Ha _ IH]; [done|]. cbn. by rewrite Ha. Qed.

(** In a sorted list of different elements the rank is the position. *)
Lemma rank_sorted l : StronglySorted le l → (∀ a b, a ∈ l → b ∈ l → leb a b = true → leb b a = true → a = b) → NoDup l →
  (∀ a, a ∈ l → leb a a = true) → ∀ k x, x ∈ l → (x ∈ drop k l ↔ (k ≤ rank l x)%nat).
Proof.
  intros Hs Ha Hn Hr k x Hx. apply list_elem_of_split in Hx as (l1 & l2 & ->).
  apply NoDup_app in Hn as (Hn1 & Hd & Hn2). apply NoDup_cons in Hn2 as [Hx2 Hn2].
  assert (H1 : Forall (λ a, before a x = true) l1).
  { apply Forall_forall. intros a Hin. unfold before.
    assert (Hax : leb a x = true) by (apply (StronglySorted_app_1_elem_of le l1 (x :: l2) a x Hs Hin); left).
    rewrite Hax. cbn. apply negb_true_iff. destruct (leb x a) eqn:E; [|done]. exfalso. apply (Hd a Hin).
    rewrite (Ha a x) by (done || (apply elem_of_app; set_solver)). left. }
  assert (H2 : Forall (λ a, before a x = false) (x :: l2)).
  { constructor; [unfold before; by destruct (leb x x)|]. apply Forall_forall. intros a Hin. unfold before.
    apply StronglySorted_app_1_r in Hs. apply StronglySorted_inv in Hs as [_ Hf]. rewrite Forall_forall in Hf. rewrite (Hf a Hin). by rewrite andb_false_r. }
  rewrite rank_app, (rank_all _ _ H1), (rank_none _ _ H2), Nat.add_0_r. split.
  - intros Hin. destruct (decide (k ≤ length l1)%nat); [done|]. exfalso. rewrite drop_app_ge in Hin by lia.
    apply Hx2. destruct (k - length l1)%nat eqn:E; [lia|]. cbn in Hin. rewrite <- (take_drop n0 l2). apply elem_of_app. by right.
  - intros Hk. rewrite drop_app_le by lia. apply elem_of_app. right. left.
Qed.
End rank.

(** ** The order of numbers *)

Definition f64_num (x : f64) : Prop := f64_eqb x x = true.

(** A number by class, exponent and mantissa. *)
Definition f64_key (x : f64) : Z * Z * Z :=
  match x with
  | S754_infinity true => (-2, 0, 0)
  | S754_finite true m e => (-1, - e, - Zpos m)
  | S754_zero _ | S754_nan => (0, 0, 0)
  | S754_finite false m e => (1, e, Zpos m)
  | S754_infinity false => (2, 0, 0)
  end%Z.
Definition key_cmp (a b : Z * Z * Z) : comparison :=
  match Z.compare a.1.1 b.1.1 with
  | Eq => match Z.compare a.1.2 b.1.2 with Eq => Z.compare a.2 b.2 | c => c end
  | c => c
  end.

Lemma f64_num_nan : ¬ f64_num S754_nan.
Proof. done. Qed.
Lemma SFcompare_key x y : f64_num x → f64_num y → SFcompare x y = Some (key_cmp (f64_key x) (f64_key y)).
Proof.
  intros Hx Hy. unfold key_cmp.
  destruct x as [|[]| |[] m e], y as [|[]| |[] m' e']; try done; cbn [SFcompare f64_key fst snd]; try done.
  rewrite Z.compare_refl, !Z.compare_opp, (Z.compare_antisym e e'). cbn [Z.compare CompOpp]. rewrite (Pos.compare_antisym m m').
  by destruct (e ?= e')%Z.
Qed.
Lemma key_cmp_eq a b : key_cmp a b = Eq ↔ a = b.
Proof.
  destruct a as [[a1 a2] a3], b as [[b1 b2] b3]. unfold key_cmp. cbn.
  destruct (Z.compare_spec a1 b1), (Z.compare_spec a2 b2), (Z.compare_spec a3 b3); subst; split; try done; intros [=]; lia.
Qed.
Lemma key_cmp_lt a b : key_cmp a b = Lt ↔ (a.1.1 < b.1.1 ∨ a.1.1 = b.1.1 ∧ (a.1.2 < b.1.2 ∨ a.1.2 = b.1.2 ∧ a.2 < b.2))%Z.
Proof.
  destruct a as [[a1 a2] a3], b as [[b1 b2] b3]. unfold key_cmp. cbn.
  destruct (Z.compare_spec a1 b1), (Z.compare_spec a2 b2), (Z.compare_spec a3 b3); subst; split; try done; lia.
Qed.
Lemma f64_ltb_key x y : f64_num x → f64_num y → f64_ltb x y = true ↔ key_cmp (f64_key x) (f64_key y) = Lt.
Proof. intros Hx Hy. unfold f64_ltb, SFltb. rewrite SFcompare_key by done. by destruct (key_cmp _ _). Qed.
Lemma f64_eqb_key x y : f64_num x → f64_num y → f64_eqb x y = true ↔ f64_key x = f64_key y.
Proof. intros Hx Hy. unfold f64_eqb, SFeqb. rewrite SFcompare_key by done. rewrite <- key_cmp_eq. by destruct (key_cmp _ _). Qed.
