(* ===== verification/GoJson.v ===== *)
(** * encoding/json

    The JSON text format as Go's [encoding/json] writes and reads it: the syntax tree [json]
    (numbers keep their literal, objects their order), the compact encoder [json_print] with Go's
    escaping rules, the decoder [json_parse], and the theorem that the decoder inverts the
    encoder on every well-formed tree.  On top of it, Go's dynamically typed values ([any]):
    [json.Marshal] ([Marshal]) and [json.Unmarshal] into [any] ([Unmarshal_any]). *)

From Stdlib Require Import DecimalString.
From S2P Require Import Prelude GoNum.

Inductive json : Type :=
  | JNull
  | JBool (b : bool)
  | JNum (lit : string)
  | JStr (s : string)
  | JArr (l : list json)
  | JObj (l : list (string * json)).

(** ** UTF-8

    [utf8_span s] is the length of the valid UTF-8 sequence [s] starts with, [None] when its first
    byte starts none ([utf8.DecodeRuneInString] returning [RuneError, 1]). *)

Definition in_range (lo hi : nat) (c : ascii) : bool :=
  let n := nat_of_ascii c in ((lo <=? n) && (n <=? hi))%nat.

Definition cont (c : ascii) : bool := in_range 128 191 c.

Definition utf8_span (s : string) : option nat :=
  match s with
  | "" => None
  | String c r =>
      let n := nat_of_ascii c in
      if (n <? 128)%nat then Some 1%nat
      else match r with
      | "" => None
      | String c1 r1 =>
          if in_range 194 223 c && cont c1 then Some 2%nat
          else match r1 with
          | "" => None
          | String c2 r2 =>
              let first_ok :=
                if (n =? 224)%nat then in_range 160 191 c1
                else if (n =? 237)%nat then in_range 128 159 c1
                else in_range 225 239 c && cont c1 in
              if first_ok && cont c2 then Some 3%nat
              else match r2 with
              | "" => None
              | String c3 _ =>
                  let first_ok :=
                    if (n =? 240)%nat then in_range 144 191 c1
                    else if (n =? 244)%nat then in_range 128 143 c1
                    else in_range 241 243 c && cont c1 in
                  if first_ok && cont c2 && cont c3 then Some 4%nat else None
              end
          end
      end
  end.

Definition chr (n : nat) : ascii := ascii_of_nat n.
Definition code (c : ascii) : nat := nat_of_ascii c.

(** ** Encoding strings *)

Definition hex_digit (n : nat) : ascii := chr (if (n <? 10)%nat then 48 + n else 87 + n)%nat.

(** The escape of a byte below 0x80, [None] when the byte is copied. *)
Definition escape_ascii (c : ascii) : option string :=
  let n := code c in
  let two (e : nat) := Some (String (chr 92) (String (chr e) "")) in
  if (n =? 34)%nat then two 34%nat
  else if (n =? 92)%nat then two 92%nat
  else if (n =? 8)%nat then two 98%nat
  else if (n =? 12)%nat then two 102%nat
  else if (n =? 10)%nat then two 110%nat
  else if (n =? 13)%nat then two 114%nat
  else if (n =? 9)%nat then two 116%nat
  else if (n <? 32)%nat || (n =? 60)%nat || (n =? 62)%nat || (n =? 38)%nat
  then Some ("\u00" +:+ String (hex_digit (n / 16)) (String (hex_digit (n mod 16)) ""))
  else None.

(** U+2028 and U+2029 are escaped although they are not ASCII. *)
Definition escape_ls_ps (c c1 c2 : ascii) : option string :=
  if (code c =? 226)%nat && (code c1 =? 128)%nat then
    if (code c2 =? 168)%nat then Some "\u2028"
    else if (code c2 =? 169)%nat then Some "\u2029" else None
  else None.

(** The body of a quoted string: invalid UTF-8 bytes become U+FFFD. *)
Fixpoint quote_body (s : string) : string :=
  match s with
  | "" => ""
  | String c r =>
      match utf8_span s with
      | None => "\ufffd" +:+ quote_body r
      | Some 1%nat =>
          match escape_ascii c with
          | Some e => e +:+ quote_body r
          | None => String c (quote_body r)
          end
      | Some 2%nat =>
          match r with String c1 r1 => String c (String c1 (quote_body r1)) | "" => "" end
      | Some 3%nat =>
          match r with
          | String c1 (String c2 r2) =>
              match escape_ls_ps c c1 c2 with
              | Some e => e +:+ quote_body r2
              | None => String c (String c1 (String c2 (quote_body r2)))
              end
          | _ => ""
          end
      | Some _ =>
          match r with
          | String c1 (String c2 (String c3 r3)) =>
              String c (String c1 (String c2 (String c3 (quote_body r3))))
          | _ => ""
          end
      end
  end.

Definition dq : string := String (chr 34) "".
Definition quote (s : string) : string := dq +:+ quote_body s +:+ dq.

(** ** Decoding strings *)

Definition hex_val (c : ascii) : option Z :=
  let n := Z.of_nat (code c) in
  if (48 <=? n)%Z && (n <=? 57)%Z then Some (n - 48)%Z
  else if (97 <=? n)%Z && (n <=? 102)%Z then Some (n - 87)%Z
  else if (65 <=? n)%Z && (n <=? 70)%Z then Some (n - 55)%Z
  else None.

Definition hex4 (a b c d : ascii) : option Z :=
  a ← hex_val a; b ← hex_val b; c ← hex_val c; d ← hex_val d;
  Some (((a * 16 + b) * 16 + c) * 16 + d)%Z.

Definition zchr (z : Z) : ascii := chr (Z.to_nat z).

(** [utf8.AppendRune]. *)
Definition utf8_encode (r : Z) : string :=
  if (r <? 128)%Z then String (zchr r) ""
  else if (r <? 2048)%Z then String (zchr (192 + r / 64)) (String (zchr (128 + r mod 64)) "")
  else if (r <? 65536)%Z then
    String (zchr (224 + r / 4096)) (String (zchr (128 + (r / 64) mod 64))
      (String (zchr (128 + r mod 64)) ""))
  else
    String (zchr (240 + r / 262144)) (String (zchr (128 + (r / 4096) mod 64))
      (String (zchr (128 + (r / 64) mod 64)) (String (zchr (128 + r mod 64)) ""))).

Definition replacement : Z := 65533.

Definition simple_escape (c : ascii) : option ascii :=
  let n := code c in
  if (n =? 34)%nat || (n =? 92)%nat || (n =? 47)%nat then Some c
  else if (n =? 98)%nat then Some (chr 8)
  else if (n =? 102)%nat then Some (chr 12)
  else if (n =? 110)%nat then Some (chr 10)
  else if (n =? 114)%nat then Some (chr 13)
  else if (n =? 116)%nat then Some (chr 9)
  else None.

Definition cons_fst (p : string) (x : option (string * string)) : option (string * string) :=
  '(s, r) ← x; Some (p +:+ s, r).

(** Reads up to the closing quote: the decoded string and what follows the quote. *)
Fixpoint unquote (s : string) : option (string * string) :=
  match s with
  | "" => None
  | String c r =>
      if (code c =? 34)%nat then Some ("", r)
      else if (code c =? 92)%nat then
        match r with
        | "" => None
        | String e r1 =>
            if (code e =? 117)%nat then
              match r1 with
              | String h1 (String h2 (String h3 (String h4 r2))) =>
                  match hex4 h1 h2 h3 h4 with
                  | None => None
                  | Some x =>
                      if (55296 <=? x)%Z && (x <? 57344)%Z then
                        match r2 with
                        | String b (String u (String g1 (String g2 (String g3 (String g4 r3))))) =>
                            match hex4 g1 g2 g3 g4 with
                            | Some y =>
                                if (code b =? 92)%nat && (code u =? 117)%nat && (x <? 56320)%Z
                                   && (56320 <=? y)%Z && (y <? 57344)%Z
                                then cons_fst (utf8_encode (65536 + (x - 55296) * 1024 + (y - 56320))%Z)
                                       (unquote r3)
                                else cons_fst (utf8_encode replacement) (unquote r2)
                            | None => cons_fst (utf8_encode replacement) (unquote r2)
                            end
                        | _ => cons_fst (utf8_encode replacement) (unquote r2)
                        end
                      else cons_fst (utf8_encode x) (unquote r2)
                  end
              | _ => None
              end
            else match simple_escape e with
                 | Some c' => cons_fst (String c' "") (unquote r1)
                 | None => None
                 end
        end
      else if (code c <? 32)%nat then None
      else
        match utf8_span s with
        | None => cons_fst (utf8_encode replacement) (unquote r)
        | Some 1%nat => cons_fst (String c "") (unquote r)
        | Some 2%nat =>
            match r with
            | String c1 r1 => cons_fst (String c (String c1 "")) (unquote r1)
            | "" => None
            end
        | Some 3%nat =>
            match r with
            | String c1 (String c2 r2) =>
                cons_fst (String c (String c1 (String c2 ""))) (unquote r2)
            | _ => None
            end
        | Some _ =>
            match r with
            | String c1 (String c2 (String c3 r3)) =>
                cons_fst (String c (String c1 (String c2 (String c3 "")))) (unquote r3)
            | _ => None
            end
        end
  end.

(** Strings the encoder does not alter: valid UTF-8. *)
Fixpoint utf8_valid (s : string) : bool :=
  match s with
  | "" => true
  | String c r =>
      match utf8_span s with
      | None => false
      | Some 1%nat => utf8_valid r
      | Some 2%nat => match r with String _ r1 => utf8_valid r1 | _ => false end
      | Some 3%nat => match r with String _ (String _ r2) => utf8_valid r2 | _ => false end
      | Some _ => match r with String _ (String _ (String _ r3)) => utf8_valid r3 | _ => false end
      end
  end.

(** What is decoded of an encoded string: every byte that is not UTF-8 is a replacement character. *)
Fixpoint mend (s : string) : string :=
  match s with
  | "" => ""
  | String c r =>
      match utf8_span s with
      | None => utf8_encode replacement +:+ mend r
      | Some 1%nat => String c (mend r)
      | Some 2%nat => match r with String c1 r1 => String c (String c1 (mend r1)) | "" => "" end
      | Some 3%nat => match r with String c1 (String c2 r2) => String c (String c1 (String c2 (mend r2))) | _ => "" end
      | Some _ => match r with String c1 (String c2 (String c3 r3)) => String c (String c1 (String c2 (String c3 (mend r3)))) | _ => "" end
      end
  end.

(** *** The decoder inverts the encoder *)

(** The span is read off the first bytes only. *)
Lemma utf8_span_1 c r t : utf8_span (String c r) = Some 1%nat → utf8_span (String c t) = Some 1%nat.
Proof.
  unfold utf8_span. destruct (nat_of_ascii c <? 128)%nat; [done|].
  intros H. exfalso. revert H. repeat case_goal; congruence.
Qed.

Lemma utf8_span_2 c c1 r t :
  utf8_span (String c (String c1 r)) = Some 2%nat → utf8_span (String c (String c1 t)) = Some 2%nat.
Proof.
  unfold utf8_span. destruct (nat_of_ascii c <? 128)%nat; [done|].
  destruct (in_range 194 223 c && cont c1); [done|].
  intros H. exfalso. revert H. repeat case_goal; congruence.
Qed.

Lemma utf8_span_3 c c1 c2 r t :
  utf8_span (String c (String c1 (String c2 r))) = Some 3%nat →
  utf8_span (String c (String c1 (String c2 t))) = Some 3%nat.
Proof.
  unfold utf8_span. destruct (nat_of_ascii c <? 128)%nat; [done|].
  destruct (in_range 194 223 c && cont c1); [done|]. cbv zeta.
  match goal with |- context [if ?b then Some 3%nat else _] => destruct b end; [done|].
  intros H. exfalso. revert H. repeat case_goal; congruence.
Qed.

Lemma utf8_span_4 c c1 c2 c3 r t :
  utf8_span (String c (String c1 (String c2 (String c3 r)))) = Some 4%nat →
  utf8_span (String c (String c1 (String c2 (String c3 t)))) = Some 4%nat.
Proof.
  unfold utf8_span. destruct (nat_of_ascii c <? 128)%nat; [done|].
  destruct (in_range 194 223 c && cont c1); [done|]. cbv zeta.
  match goal with |- context [if ?b then Some 3%nat else _] => destruct b end; done.
Qed.

Lemma utf8_span_cases c r k :
  utf8_span (String c r) = Some k →
  (k = 1%nat ∧ (code c < 128)%nat) ∨
  ((128 ≤ code c)%nat ∧
   ((k = 2%nat ∧ ∃ c1 r1, r = String c1 r1) ∨
    (k = 3%nat ∧ ∃ c1 c2 r2, r = String c1 (String c2 r2)) ∨
    (k = 4%nat ∧ ∃ c1 c2 c3 r3, r = String c1 (String c2 (String c3 r3))))).
Proof.
  unfold utf8_span, code. destruct (nat_of_ascii c <? 128)%nat eqn:E.
  - intros [= <-]. apply Nat.ltb_lt in E. auto.
  - apply Nat.ltb_ge in E. intros H. right. split; [done|]. revert H.
    destruct r as [|c1 r]; [done|]. case_goal; [intros [= <-]; left; eauto|].
    destruct r as [|c2 r]; [done|]. cbv zeta.
    match goal with |- context [if ?b then Some 3%nat else _] => destruct b end.
    { intros [= <-]. right; left; eauto. }
    destruct r as [|c3 r]; [done|]. case_goal; [|done]. intros [= <-]. right; right; eauto 10.
Qed.

Lemma escape_ascii_unquote c e t :
  escape_ascii c = Some e → unquote (e +:+ t) = cons_fst (String c "") (unquote t).
Proof.
  destruct c as [[] [] [] [] [] [] [] []]; intros H; vm_compute in H;
    first [discriminate H | injection H as <-; reflexivity].
Qed.

Lemma escape_ascii_None c :
  escape_ascii c = None → (32 ≤ code c ∧ code c ≠ 34 ∧ code c ≠ 92)%nat.
Proof.
  unfold escape_ascii. repeat case_goal; try discriminate.
  repeat match goal with
  | H : (_ =? _)%nat = false |- _ => apply Nat.eqb_neq in H
  | H : _ || _ = false |- _ => apply orb_false_iff in H as [H ?]
  | H : (_ <? _)%nat = false |- _ => apply Nat.ltb_ge in H
  end. auto.
Qed.

Lemma escape_ls_ps_unquote c c1 c2 e t :
  escape_ls_ps c c1 c2 = Some e →
  unquote (e +:+ t) = cons_fst (String c (String c1 (String c2 ""))) (unquote t).
Proof.
  unfold escape_ls_ps. intros H.
  destruct ((code c =? 226)%nat && (code c1 =? 128)%nat) eqn:E; [|done].
  apply andb_true_iff in E as [E1%Nat.eqb_eq E2%Nat.eqb_eq].
  assert (c = chr 226) as -> by (unfold chr; rewrite <- E1; symmetry; apply ascii_nat_embedding).
  assert (c1 = chr 128) as -> by (unfold chr; rewrite <- E2; symmetry; apply ascii_nat_embedding).
  destruct (code c2 =? 168)%nat eqn:E3; [|destruct (code c2 =? 169)%nat eqn:E4; [|done]];
    injection H as <-.
  - apply Nat.eqb_eq in E3.
    assert (c2 = chr 168) as -> by (unfold chr; rewrite <- E3; symmetry; apply ascii_nat_embedding).
    reflexivity.
  - apply Nat.eqb_eq in E4.
    assert (c2 = chr 169) as -> by (unfold chr; rewrite <- E4; symmetry; apply ascii_nat_embedding).
    reflexivity.
Qed.

(** One step of [unquote] on a byte that is neither a quote, nor a backslash, nor a control. *)
Lemma unquote_plain c r :
  (32 ≤ code c ∧ code c ≠ 34 ∧ code c ≠ 92)%nat →
  unquote (String c r) =
    match utf8_span (String c r) with
    | None => cons_fst (utf8_encode replacement) (unquote r)
    | Some 1%nat => cons_fst (String c "") (unquote r)
    | Some 2%nat =>
        match r with
        | String c1 r1 => cons_fst (String c (String c1 "")) (unquote r1)
        | "" => None
        end
    | Some 3%nat =>
        match r with
        | String c1 (String c2 r2) => cons_fst (String c (String c1 (String c2 ""))) (unquote r2)
        | _ => None
        end
    | Some _ =>
        match r with
        | String c1 (String c2 (String c3 r3)) =>
            cons_fst (String c (String c1 (String c2 (String c3 "")))) (unquote r3)
        | _ => None
        end
    end.
Proof.
  intros (H1 & H2 & H3). cbn [unquote].
  apply Nat.eqb_neq in H2 as ->. apply Nat.eqb_neq in H3 as ->.
  apply Nat.ltb_ge in H1 as ->. done.
Qed.

Lemma cons_fst_app p s r : cons_fst p (Some (s, r)) = Some (p +:+ s, r).
Proof. done. Qed.

Lemma unquote_quote s rest : unquote (quote_body s +:+ dq +:+ rest) = Some (mend s, rest).
Proof.
  remember (slen s) as n eqn:Hn. revert s Hn.
  induction (lt_wf n) as [n _ IH]. intros s ->.
  destruct s as [|c r]; [done|]. cbn [quote_body mend].
  destruct (utf8_span (String c r)) as [k|] eqn:Ek.
  2: { assert (Hr : unquote (quote_body r +:+ dq +:+ rest) = Some (mend r, rest)) by (eapply IH; [|done]; simpl; lia).
       rewrite <- sapp_assoc. change (unquote ("\ufffd" +:+ quote_body r +:+ dq +:+ rest)) with
         (cons_fst (utf8_encode replacement) (unquote (quote_body r +:+ dq +:+ rest))). by rewrite Hr. }
  destruct (utf8_span_cases _ _ _ Ek) as
    [[-> Hc]|[Hc [[-> (c1 & r1 & ->)]|[[-> (c1 & c2 & r2 & ->)]|[-> (c1 & c2 & c3 & r3 & ->)]]]]].
  - assert (Hr : unquote (quote_body r +:+ dq +:+ rest) = Some (mend r, rest))
      by (eapply IH; [|done]; simpl; lia).
    destruct (escape_ascii c) as [e|] eqn:Ee.
    + rewrite <- sapp_assoc, (escape_ascii_unquote _ _ _ Ee), Hr. done.
    + cbn [String.append]. rewrite unquote_plain by (by apply escape_ascii_None).
      rewrite (utf8_span_1 _ _ _ Ek), Hr. done.
  - cbn [String.append]. rewrite unquote_plain by lia.
    rewrite (utf8_span_2 _ _ _ _ Ek).
    erewrite IH; [done| |done]. simpl; lia.
  - assert (Hr : unquote (quote_body r2 +:+ dq +:+ rest) = Some (mend r2, rest))
      by (eapply IH; [|done]; simpl; lia).
    destruct (escape_ls_ps c c1 c2) as [e|] eqn:Ee.
    + rewrite <- sapp_assoc, (escape_ls_ps_unquote _ _ _ _ _ Ee), Hr. done.
    + cbn [String.append]. rewrite unquote_plain by lia.
      rewrite (utf8_span_3 _ _ _ _ _ Ek), Hr. done.
  - cbn [String.append]. rewrite unquote_plain by lia.
    rewrite (utf8_span_4 _ _ _ _ _ _ Ek).
    erewrite IH; [done| |done]. simpl; lia.
Qed.

Lemma mend_valid s : utf8_valid s = true → mend s = s.
Proof.
  remember (slen s) as n eqn:Hn. revert s Hn.
  induction (lt_wf n) as [n _ IH]. intros s -> Hv. destruct s as [|c r]; [done|].
  cbn [utf8_valid] in Hv. cbn [mend]. destruct (utf8_span (String c r)) as [k|] eqn:Ek; [|done].
  destruct (utf8_span_cases _ _ _ Ek) as
    [[-> Hc]|[Hc [[-> (c1 & r1 & ->)]|[[-> (c1 & c2 & r2 & ->)]|[-> (c1 & c2 & c3 & r3 & ->)]]]]];
    (erewrite IH; [done| |done|done]); simpl; lia.
Qed.

(** ** Number literals

    An optional minus, [0] or digits without a leading zero, an optional fraction, an optional
    exponent. *)

Definition isNumChar (c : ascii) : bool :=
  let n := code c in
  isDigit c || (n =? 43)%nat || (n =? 45)%nat || (n =? 46)%nat || (n =? 69)%nat || (n =? 101)%nat.

Definition valid_exp (s : string) : bool :=
  match s with
  | "" => true
  | String e r =>
      ((code e =? 101)%nat || (code e =? 69)%nat) &&
      (let r' := match r with
                 | String c q => if (code c =? 43)%nat || (code c =? 45)%nat then q else r
                 | "" => r
                 end in
       let '(d, rest) := span_digits r' in
       negb (slen d =? 0)%nat && (slen rest =? 0)%nat)
  end.

Definition valid_frac (s : string) : bool :=
  match s with
  | String c r =>
      if (code c =? 46)%nat then
        let '(d, rest) := span_digits r in negb (slen d =? 0)%nat && valid_exp rest
      else valid_exp s
  | "" => true
  end.

Definition valid_number (s : string) : bool :=
  let r := match s with String c q => if (code c =? 45)%nat then q else s | "" => s end in
  match r with
  | "" => false
  | String c q =>
      if (code c =? 48)%nat then valid_frac q
      else isDigit c && (let '(_, rest) := span_digits q in valid_frac rest)
  end.

Fixpoint span_num (s : string) : string * string :=
  match s with
  | String c s' =>
      if isNumChar c then let '(d, r) := span_num s' in (String c d, r) else ("", s)
  | "" => ("", "")
  end.

Fixpoint all_num (s : string) : bool :=
  match s with "" => true | String c r => isNumChar c && all_num r end.

Definition num_stop (s : string) : bool :=
  match s with "" => true | String c _ => negb (isNumChar c) end.

Lemma span_num_app s t : all_num s = true → num_stop t = true → span_num (s +:+ t) = (s, t).
Proof.
  intros H Ht. induction s as [|c s IH]; simpl in *.
  - destruct t as [|c t]; [done|]. simpl in *. by destruct (isNumChar c).
  - apply andb_true_iff in H as [-> H]. by rewrite (IH H).
Qed.

(** ** The tree: printing *)

Definition lb : string := "[".
Definition rb : string := "]".
Definition lc : string := "{".
Definition rc : string := "}".

Fixpoint json_print (j : json) : string :=
  match j with
  | JNull => "null"
  | JBool true => "true"
  | JBool false => "false"
  | JNum l => l
  | JStr s => quote s
  | JArr l =>
      lb +:+ (match l with
              | [] => ""
              | x :: l => json_print x +:+
                  (fix go l := match l with
                               | [] => ""
                               | x :: l => "," +:+ json_print x +:+ go l
                               end) l
              end) +:+ rb
  | JObj l =>
      lc +:+ (match l with
              | [] => ""
              | (k, x) :: l => quote k +:+ ":" +:+ json_print x +:+
                  (fix go l := match l with
                               | [] => ""
                               | (k, x) :: l => "," +:+ quote k +:+ ":" +:+ json_print x +:+ go l
                               end) l
              end) +:+ rc
  end.

Fixpoint print_elems (l : list json) : string :=
  match l with [] => "" | x :: l => "," +:+ json_print x +:+ print_elems l end.
Fixpoint print_members (l : list (string * json)) : string :=
  match l with
  | [] => ""
  | (k, x) :: l => "," +:+ quote k +:+ ":" +:+ json_print x +:+ print_members l
  end.

(** ** The tree: parsing *)

Definition isWs (c : ascii) : bool :=
  let n := code c in (n =? 32)%nat || (n =? 9)%nat || (n =? 10)%nat || (n =? 13)%nat.

Fixpoint skip_ws (s : string) : string :=
  match s with String c r => if isWs c then skip_ws r else s | "" => "" end.

(** [expect n s] reads the byte [n] after white space. *)
Definition expect (n : nat) (s : string) : option string :=
  match skip_ws s with
  | String c r => if (code c =? n)%nat then Some r else None
  | "" => None
  end.

Definition keyword (k : string) (j : json) (s : string) : option (json * string) :=
  if String.prefix k s then Some (j, sdrop (slen k) s) else None.

(** Each nested value uses one unit of fuel; the length of the text is enough. *)
Fixpoint parse_value (fuel : nat) (s : string) : option (json * string) :=
  match fuel with
  | O => None
  | S f =>
      match skip_ws s with
      | "" => None
      | String c r =>
          let n := code c in
          if (n =? 34)%nat then '(x, r) ← unquote r; Some (JStr x, r)
          else if (n =? 123)%nat then
            match expect 125 r with
            | Some r' => Some (JObj [], r')
            | None => '(l, r') ← parse_members f r; Some (JObj l, r')
            end
          else if (n =? 91)%nat then
            match expect 93 r with
            | Some r' => Some (JArr [], r')
            | None => '(l, r') ← parse_elems f r; Some (JArr l, r')
            end
          else if (n =? 116)%nat then keyword "true" (JBool true) (String c r)
          else if (n =? 102)%nat then keyword "false" (JBool false) (String c r)
          else if (n =? 110)%nat then keyword "null" JNull (String c r)
          else let '(l, r') := span_num (String c r) in
               if valid_number l then Some (JNum l, r') else None
      end
  end
with parse_elems (fuel : nat) (s : string) : option (list json * string) :=
  match fuel with
  | O => None
  | S f =>
      '(x, r) ← parse_value f s;
      match expect 44 r with
      | Some r' => '(l, r') ← parse_elems f r'; Some (x :: l, r')
      | None => r' ← expect 93 r; Some ([x], r')
      end
  end
with parse_members (fuel : nat) (s : string) : option (list (string * json) * string) :=
  match fuel with
  | O => None
  | S f =>
      r ← expect 34 s;
      '(k, r) ← unquote r;
      r ← expect 58 r;
      '(x, r) ← parse_value f r;
      match expect 44 r with
      | Some r' => '(l, r') ← parse_members f r'; Some ((k, x) :: l, r')
      | None => r' ← expect 125 r; Some ([(k, x)], r')
      end
  end.

(** A whole document: one value and nothing else but white space. *)
Definition json_parse (s : string) : option json :=
  '(j, r) ← parse_value (S (slen s)) s;
  if String.eqb (skip_ws r) "" then Some j else None.

(** ** Round trip *)

Fixpoint json_wf (j : json) : bool :=
  match j with
  | JNull | JBool _ => true
  | JNum l => valid_number l && all_num l
  | JStr s => utf8_valid s
  | JArr l => forallb json_wf l
  | JObj l => forallb (λ kx, utf8_valid kx.1 && json_wf kx.2) l
  end.

(** A tree as it is read back. *)
Fixpoint json_numeric (j : json) : bool :=
  match j with
  | JNum l => valid_number l && all_num l
  | JArr l => forallb json_numeric l
  | JObj l => forallb (λ kx, json_numeric kx.2) l
  | _ => true
  end.
Fixpoint json_mend (j : json) : json :=
  match j with
  | JStr s => JStr (mend s)
  | JArr l => JArr (map json_mend l)
  | JObj l => JObj (map (prod_map mend json_mend) l)
  | _ => j
  end.

(** What [json.Marshal] checks of a tree built from Go values: its number literals. *)
Fixpoint nums_ok (j : json) : bool :=
  match j with
  | JNum l => valid_number l
  | JArr l => forallb nums_ok l
  | JObj l => forallb (λ kx, nums_ok kx.2) l
  | _ => true
  end.

(** Integers in decimal are JSON numbers. *)
Lemma string_of_uint_digits u :
  span_digits (NilEmpty.string_of_uint u) = (NilEmpty.string_of_uint u, "") ∧
  all_num (NilEmpty.string_of_uint u) = true.
Proof. induction u as [|u IH|u IH|u IH|u IH|u IH|u IH|u IH|u IH|u IH|u IH]; [done|..]; destruct IH as [IH1 IH2]; cbn; by rewrite IH1, IH2. Qed.

Lemma valid_number_pos p :
  valid_number (NilEmpty.string_of_uint (Pos.to_uint p)) = true ∧
  valid_number (String "-" (NilEmpty.string_of_uint (Pos.to_uint p))) = true.
Proof.
  pose proof (to_uint_no_zero p) as H0. pose proof (DecimalPos.Unsigned.to_uint_nonnil p) as Hn.
  destruct (Pos.to_uint p) as [|u|u|u|u|u|u|u|u|u|u]; [done|by edestruct H0|..];
    destruct (string_of_uint_digits u) as [Hu _];
    (split; (transitivity (let '(_, rest) := span_digits (NilEmpty.string_of_uint u) in valid_frac rest);
             [reflexivity|by rewrite Hu])).
Qed.

Lemma json_wf_Itoa z : json_wf (JNum (Itoa z)) = true.
Proof.
  destruct z as [|p|p]; [done|..]; cbn [json_wf]; unfold Itoa; simpl Z.to_int;
    unfold NilZero.string_of_int; rewrite nz_uint_string_pos;
    destruct (valid_number_pos p) as [H1 H2], (string_of_uint_digits (Pos.to_uint p)) as [_ H3].
  - by rewrite H1, H3.
  - cbn [all_num]. by rewrite H2, H3.
Qed.

(** The fuel a tree needs. *)
Fixpoint json_need (j : json) : nat :=
  match j with
  | JArr l => S ((fix go l := match l with [] => 0 | x :: l => S (json_need x `max` go l) end) l)
  | JObj l => S ((fix go l := match l with [] => 0 | (_, x) :: l => S (json_need x `max` go l) end) l)
  | _ => 1
  end%nat.
Fixpoint elems_need (l : list json) : nat :=
  match l with [] => 0 | x :: l => S (json_need x `max` elems_need l) end%nat.
Fixpoint members_need (l : list (string * json)) : nat :=
  match l with [] => 0 | (_, x) :: l => S (json_need x `max` members_need l) end%nat.

Section json_ind.
Variable P : json → Prop.
Hypothesis Hnull : P JNull.
Hypothesis Hbool : ∀ b, P (JBool b).
Hypothesis Hnum : ∀ l, P (JNum l).
Hypothesis Hstr : ∀ s, P (JStr s).
Hypothesis Harr : ∀ l, Forall P l → P (JArr l).
Hypothesis Hobj : ∀ l, Forall (λ kx, P kx.2) l → P (JObj l).

Fixpoint json_ind' (j : json) : P j :=
  match j with
  | JNull => Hnull
  | JBool b => Hbool b
  | JNum l => Hnum l
  | JStr s => Hstr s
  | JArr l => Harr l ((fix go l : Forall _ l := match l with
                                   | [] => List.Forall_nil _
                                   | x :: l => List.Forall_cons _ _ _ (json_ind' x) (go l)
                                   end) l)
  | JObj l => Hobj l ((fix go l : Forall _ l := match l with
                                   | [] => List.Forall_nil _
                                   | kx :: l => List.Forall_cons _ kx _ (json_ind' kx.2) (go l)
                                   end) l)
  end.
End json_ind.

Lemma json_print_arr x l :
  json_print (JArr (x :: l)) = lb +:+ json_print x +:+ print_elems l +:+ rb.
Proof.
  cbn [json_print]. by rewrite <- !sapp_assoc.
Qed.

Lemma json_print_obj k x l :
  json_print (JObj ((k, x) :: l)) =
  lc +:+ quote k +:+ ":" +:+ json_print x +:+ print_members l +:+ rc.
Proof.
  cbn [json_print]. by rewrite <- !sapp_assoc.
Qed.

Lemma json_need_arr l : json_need (JArr l) = S (elems_need l).
Proof. done. Qed.

Lemma json_need_obj l : json_need (JObj l) = S (members_need l).
Proof. done. Qed.

(** The first byte of a printed tree: neither white space nor a closing bracket or comma. *)
Definition value_start (c : ascii) : bool :=
  negb (isWs c) && negb (code c =? 44)%nat && negb (code c =? 58)%nat && negb (code c =? 93)%nat
  && negb (code c =? 125)%nat.

Lemma valid_number_start l :
  valid_number l = true →
  ∃ c r, l = String c r ∧ value_start c = true ∧ isWs c = false ∧
    (code c =? 34)%nat = false ∧ (code c =? 123)%nat = false ∧ (code c =? 91)%nat = false ∧
    (code c =? 116)%nat = false ∧ (code c =? 102)%nat = false ∧ (code c =? 110)%nat = false.
Proof.
  destruct l as [|c r]; [done|]. intros H. exists c, r. split; [done|].
  unfold valid_number in H.
  destruct (code c =? 45)%nat eqn:E; [|destruct (code c =? 48)%nat eqn:E0].
  - apply Nat.eqb_eq in E. unfold value_start, isWs. rewrite E. done.
  - apply Nat.eqb_eq in E0. unfold value_start, isWs. rewrite E0. done.
  - apply andb_true_iff in H as [Hd _].
    destruct c as [[] [] [] [] [] [] [] []]; try discriminate Hd; vm_compute; auto 10.
Qed.

Lemma json_print_start j :
  json_numeric j = true → ∃ c r, json_print j = String c r ∧ value_start c = true.
Proof.
  destruct j as [|[]|l|s|l|l]; simpl; intros H; eauto.
  apply andb_true_iff in H as [H _].
  destruct (valid_number_start _ H) as (c & r & -> & Hc & _). eauto.
Qed.

Lemma value_start_spec c :
  value_start c = true →
  isWs c = false ∧ (code c =? 93)%nat = false ∧ (code c =? 125)%nat = false.
Proof.
  unfold value_start. rewrite !andb_true_iff, !negb_true_iff. tauto.
Qed.

Lemma expect_value_start n j t :
  json_numeric j = true → n = 93%nat ∨ n = 125%nat → expect n (json_print j +:+ t) = None.
Proof.
  intros Hj Hn. destruct (json_print_start _ Hj) as (c & r & -> & Hc).
  destruct (value_start_spec _ Hc) as (Hw & H1 & H2).
  unfold expect. simpl. rewrite Hw. by destruct Hn as [-> | ->]; rewrite ?H1, ?H2.
Qed.

Lemma skip_ws_value j t :
  json_numeric j = true → skip_ws (json_print j +:+ t) = json_print j +:+ t.
Proof.
  intros Hj. destruct (json_print_start _ Hj) as (c & r & -> & Hc).
  destruct (value_start_spec _ Hc) as (Hw & _). simpl. by rewrite Hw.
Qed.

Lemma print_elems_stop l t : num_stop (print_elems l +:+ rb +:+ t) = true.
Proof. by destruct l. Qed.
Lemma print_members_stop l t : num_stop (print_members l +:+ rc +:+ t) = true.
Proof. by destruct l as [|[k x] l]. Qed.

Lemma parse_quoted f s t :
  parse_value (S f) (quote s +:+ t) = Some (JStr (mend s), t).
Proof.
  unfold quote. rewrite <- !sapp_assoc.
  change (dq +:+ quote_body s +:+ dq +:+ t) with (String (chr 34) (quote_body s +:+ dq +:+ t)).
  cbn [parse_value skip_ws isWs]. change (isWs (chr 34)) with false.
  change (code (chr 34) =? 34)%nat with true. cbn match. by rewrite unquote_quote.
Qed.

Lemma parse_number f l t :
  valid_number l = true → all_num l = true → num_stop t = true →
  parse_value (S f) (l +:+ t) = Some (JNum l, t).
Proof.
  intros Hv Ha Ht.
  destruct (valid_number_start _ Hv) as (c & r & -> & _ & Hw & H1 & H2 & H3 & H4 & H5 & H6).
  cbn [parse_value]. change (skip_ws (String c r +:+ t)) with
    (if isWs c then skip_ws (r +:+ t) else String c (r +:+ t)). rewrite Hw.
  cbv zeta. rewrite H1, H2, H3, H4, H5, H6.
  change (String c (r +:+ t)) with (String c r +:+ t).
  rewrite (span_num_app _ _ Ha Ht), Hv. done.
Qed.

Definition parses (j : json) : Prop :=
  json_numeric j = true → ∀ f t, (json_need j ≤ f)%nat → num_stop t = true →
  parse_value f (json_print j +:+ t) = Some (json_mend j, t).

Lemma parse_elems_print x l f t :
  Forall parses (x :: l) → forallb json_numeric (x :: l) = true → (elems_need (x :: l) ≤ f)%nat →
  parse_elems f (json_print x +:+ print_elems l +:+ rb +:+ t) = Some (map json_mend (x :: l), t).
Proof.
  revert x f; induction l as [|y l IH]; intros x f HF Hw Hf;
    apply Forall_cons in HF as [Hx HF]; cbn [forallb] in Hw;
    apply andb_true_iff in Hw as [Hwx Hw]; cbn [elems_need] in Hf;
    (destruct f as [|f]; [lia|]); cbn [parse_elems].
  - rewrite (Hx Hwx f _ ltac:(lia) (print_elems_stop [] t)). done.
  - rewrite (Hx Hwx f _ ltac:(lia) (print_elems_stop (y :: l) t)). cbn [mbind option_bind].
    cbn [print_elems]. rewrite <- !sapp_assoc. cbn [String.append].
    change (expect 44 (String "," (json_print y +:+ print_elems l +:+ rb +:+ t)))
      with (Some (json_print y +:+ print_elems l +:+ rb +:+ t)). cbn match.
    rewrite IH; [done|done|done|cbn [elems_need] in *; lia].
Qed.

Lemma unquote_member k t :
  (r ← expect 34 (quote k +:+ t); unquote r) = Some (mend k, t).
Proof.
  unfold quote. rewrite <- !sapp_assoc.
  change (expect 34 (dq +:+ quote_body k +:+ dq +:+ t)) with (Some (quote_body k +:+ dq +:+ t)).
  cbn [mbind option_bind]. apply unquote_quote.
Qed.

Lemma parse_members_S f s :
  parse_members (S f) s =
    '(k, r) ← (r ← expect 34 s; unquote r);
    r ← expect 58 r;
    '(x, r) ← parse_value f r;
    match expect 44 r with
    | Some r' => '(l, r') ← parse_members f r'; Some ((k, x) :: l, r')
    | None => r' ← expect 125 r; Some ([(k, x)], r')
    end.
Proof. cbn [parse_members]. by destruct (expect 34 s). Qed.

Lemma parse_members_print k x l f t :
  Forall (λ kx, parses kx.2) ((k, x) :: l) →
  forallb (λ kx, json_numeric kx.2) ((k, x) :: l) = true →
  (members_need ((k, x) :: l) ≤ f)%nat →
  parse_members f (quote k +:+ ":" +:+ json_print x +:+ print_members l +:+ rc +:+ t)
  = Some (map (prod_map mend json_mend) ((k, x) :: l), t).
Proof.
  revert k x f; induction l as [|[k' y] l IH]; intros k x f HF Hw Hf;
    apply Forall_cons in HF as [Hx HF]; cbn [forallb fst snd] in Hw, Hx;
    apply andb_true_iff in Hw as [Hwx Hw]; cbn [members_need] in Hf;
    (destruct f as [|f]; [lia|]); rewrite parse_members_S, unquote_member;
    cbn [mbind option_bind].
  - change (expect 58 (":" +:+ json_print x +:+ print_members [] +:+ rc +:+ t))
      with (Some (json_print x +:+ print_members [] +:+ rc +:+ t)).
    cbn [mbind option_bind].
    rewrite (Hx Hwx f _ ltac:(lia) (print_members_stop [] t)). done.
  - change (expect 58 (":" +:+ json_print x +:+ print_members ((k', y) :: l) +:+ rc +:+ t))
      with (Some (json_print x +:+ print_members ((k', y) :: l) +:+ rc +:+ t)).
    cbn [mbind option_bind].
    rewrite (Hx Hwx f _ ltac:(lia) (print_members_stop ((k', y) :: l) t)). cbn [mbind option_bind].
    cbn [print_members]. rewrite <- !sapp_assoc.
    match goal with |- context [expect 44 ("," +:+ ?u)] =>
      change (expect 44 ("," +:+ u)) with (Some u) end. cbn match.
    rewrite IH; [done|done|done|cbn [members_need] in *; lia].
Qed.

Lemma keyword_app k j t : keyword k j (k +:+ t) = Some (j, t).
Proof. unfold keyword. by rewrite prefix_app, sdrop_app. Qed.

Lemma parses_all j : parses j.
Proof.
  induction j as [| | | |l IH|l IH] using json_ind'; intros Hw f t Hf Ht;
    (destruct f as [|f]; [by inversion Hf|]).
  - exact (keyword_app "null" JNull t).
  - destruct b; [exact (keyword_app "true" (JBool true) t)|exact (keyword_app "false" (JBool false) t)].
  - cbn [json_numeric] in Hw. apply andb_true_iff in Hw as [Hv Ha]. by apply parse_number.
  - apply parse_quoted.
  - destruct l as [|x l]; [done|].
    rewrite json_need_arr in Hf. rewrite json_print_arr, <- !sapp_assoc.
    cbn [json_numeric] in Hw.
    assert (Hwx : json_numeric x = true) by (cbn [forallb] in Hw; by apply andb_true_iff in Hw as [? _]).
    change (parse_value (S f) (lb +:+ json_print x +:+ print_elems l +:+ rb +:+ t)) with
      (match expect 93 (json_print x +:+ print_elems l +:+ rb +:+ t) with
       | Some r' => Some (JArr [], r')
       | None => '(l, r') ← parse_elems f (json_print x +:+ print_elems l +:+ rb +:+ t);
                 Some (JArr l, r')
       end).
    rewrite expect_value_start by auto. rewrite parse_elems_print by (try done; lia). done.
  - destruct l as [|[k x] l]; [done|].
    rewrite json_need_obj in Hf. rewrite json_print_obj, <- !sapp_assoc.
    cbn [json_numeric] in Hw.
    change (parse_value (S f) (lc +:+ quote k +:+ ":" +:+ json_print x +:+ print_members l +:+ rc +:+ t))
      with (match expect 125 (quote k +:+ ":" +:+ json_print x +:+ print_members l +:+ rc +:+ t) with
            | Some r' => Some (JObj [], r')
            | None => '(l, r') ← parse_members f
                        (quote k +:+ ":" +:+ json_print x +:+ print_members l +:+ rc +:+ t);
                      Some (JObj l, r')
            end).
    change (expect 125 (quote k +:+ ":" +:+ json_print x +:+ print_members l +:+ rc +:+ t))
      with (@None string). cbn match.
    rewrite parse_members_print by (try done; lia). done.
Qed.

(** The fuel is bounded by the length of the text. *)
Lemma json_need_le j : json_numeric j = true → (json_need j ≤ slen (json_print j))%nat.
Proof.
  induction j as [| | | |l IH|l IH] using json_ind'; intros Hw.
  - simpl; lia.
  - destruct b; simpl; lia.
  - cbn [json_numeric] in Hw. apply andb_true_iff in Hw as [Hv _].
    destruct (valid_number_start _ Hv) as (c & r & -> & _). simpl; lia.
  - simpl. lia.
  - rewrite json_need_arr. destruct l as [|x l]; [simpl; lia|].
    rewrite json_print_arr. cbn [json_numeric] in Hw.
    rewrite !slen_app. change (slen lb) with 1%nat. change (slen rb) with 1%nat.
    cut (elems_need (x :: l) ≤ S (slen (json_print x) + slen (print_elems l)))%nat; [lia|].
    revert x IH Hw; induction l as [|y l IHl]; intros x HF Hw;
      apply Forall_cons in HF as [Hx HF]; cbn [forallb] in Hw; apply andb_true_iff in Hw as [Hwx Hw].
    + cbn [elems_need]. specialize (Hx Hwx). simpl. lia.
    + specialize (IHl y HF Hw). specialize (Hx Hwx).
      cbn [elems_need print_elems] in *. rewrite !slen_app. simpl. lia.
  - rewrite json_need_obj. destruct l as [|[k x] l]; [simpl; lia|].
    rewrite json_print_obj. cbn [json_numeric] in Hw.
    rewrite !slen_app. change (slen lc) with 1%nat. change (slen rc) with 1%nat.
    cut (members_need ((k, x) :: l) ≤ S (slen (json_print x) + slen (print_members l)))%nat; [lia|].
    revert k x IH Hw; induction l as [|[k' y] l IHl]; intros k x HF Hw;
      apply Forall_cons in HF as [Hx HF]; cbn [forallb fst snd] in Hw, Hx;
      apply andb_true_iff in Hw as [Hwx Hw].
    + cbn [members_need]. specialize (Hx Hwx). simpl. lia.
    + specialize (IHl k' y HF Hw). specialize (Hx Hwx).
      cbn [members_need print_members] in *. rewrite !slen_app. simpl. lia.
Qed.

(** Decoding the encoding of a tree gives the tree back, its strings mended: the very tree where they are UTF-8. *)
Lemma json_parse_mended j : json_numeric j = true → json_parse (json_print j) = Some (json_mend j).
Proof.
  intros Hw. unfold json_parse. rewrite <- (sapp_nil_r (json_print j)) at 2.
  rewrite (parses_all j Hw); [done| |done]. pose proof (json_need_le j Hw). lia.
Qed.
Lemma json_wf_numeric j : json_wf j = true → json_numeric j = true ∧ json_mend j = j.
Proof.
  induction j as [| | |s|l IH|l IH] using json_ind'; cbn [json_wf json_numeric json_mend]; try done.
  - intros Hs. by rewrite mend_valid.
  - intros Hl. rewrite forallb_forall in *. rewrite Forall_forall in IH. split; [intros x Hx; by apply IH, Hl; [apply list_elem_of_In|]|].
    f_equal. rewrite <- (map_id l) at 2. apply map_ext_in. intros x Hx. by apply IH, Hl; [apply list_elem_of_In|].
  - intros Hl. rewrite forallb_forall in *. rewrite Forall_forall in IH. split.
    + intros x Hx. pose proof (Hl x Hx) as [_ Hk]%andb_true_iff. by apply IH; [apply list_elem_of_In|].
    + f_equal. rewrite <- (map_id l) at 2. apply map_ext_in. intros [k x] Hx. pose proof (Hl _ Hx) as [Hu Hk]%andb_true_iff.
      cbn [fst snd] in Hu, Hk. cbn [prod_map fst snd]. rewrite mend_valid by done. f_equal. apply (IH (k, x)); [by apply list_elem_of_In|done].
Qed.
Lemma json_parse_print j : json_wf j = true → json_parse (json_print j) = Some j.
Proof. intros [Hn Hm]%json_wf_numeric. by rewrite json_parse_mended, Hm. Qed.

(** ** Go's dynamically typed values ([any]) *)

Inductive value : Type :=
  | VNil
  | VBool (b : bool)
  | VInt (z : Z)          (* int *)
  | VInt64 (z : Z)        (* int64 *)
  | VFloat (x : f64)      (* float64 *)
  | VNumber (lit : string) (* json.Number *)
  | VString (s : string)
  | VSlice (l : list value)                (* []any *)
  | VMap (l : list (string * value))       (* map[string]any; one entry per key *)
  | VMaps (l : list value).                (* []map[string]any: every element is a VMap or VNil *)

(** A [map[string]any]: nil, or its entries. *)
Definition gomap : Type := option (list (string * value)).

(** [m[k] = v] on the entry list of a map. *)
Fixpoint entry_set {A} (k : string) (v : A) (l : list (string * A)) : list (string * A) :=
  match l with
  | [] => [(k, v)]
  | (k', v') :: l => if String.eqb k k' then (k, v) :: l else (k', v') :: entry_set k v l
  end.

Fixpoint entry_get {A} (k : string) (l : list (string * A)) : option A :=
  match l with
  | [] => None
  | (k', v) :: l => if String.eqb k k' then Some v else entry_get k l
  end.

(** [json.Unmarshal] into [any] by a decoder with UseNumber: numbers keep their text. *)
Fixpoint useNumber (j : json) : value :=
  match j with
  | JNull => VNil
  | JBool b => VBool b
  | JNum l => VNumber l
  | JStr s => VString s
  | JArr l => VSlice (map useNumber l)
  | JObj l => VMap ((fix go acc l := match l with
                                     | [] => acc
                                     | (k, x) :: l => go (entry_set k (useNumber x) acc) l
                                     end) [] l)
  end.

(** [json.Unmarshal] of a decoded tree into [any]: numbers become float64, [None] when a number is
    out of range; a repeated object key keeps its last value. *)
Fixpoint Unmarshal_any (j : json) : option value :=
  match j with
  | JNull => Some VNil
  | JBool b => Some (VBool b)
  | JNum l => VFloat <$> ParseFloat l
  | JStr s => Some (VString s)
  | JArr l =>
      VSlice <$> (fix go l := match l with
                              | [] => Some []
                              | x :: l => v ← Unmarshal_any x; vs ← go l; Some (v :: vs)
                              end) l
  | JObj l =>
      VMap <$> (fix go acc l := match l with
                                | [] => Some acc
                                | (k, x) :: l => v ← Unmarshal_any x; go (entry_set k v acc) l
                                end) [] l
  end.

(** Insertion sort by key, in byte order. *)
Fixpoint key_insert {A} (kv : string * A) (l : list (string * A)) : list (string * A) :=
  match l with
  | [] => [kv]
  | kv' :: l' => if String.leb kv.1 kv'.1 then kv :: l else kv' :: key_insert kv l'
  end.

Fixpoint key_sort {A} (l : list (string * A)) : list (string * A) :=
  match l with [] => [] | kv :: l => key_insert kv (key_sort l) end.

(** [json.Marshal]: the tree it writes; an error on NaN, infinities and malformed numbers.
    Map keys are written in sorted order. *)
Fixpoint to_json (v : value) : option json :=
  match v with
  | VNil => Some JNull
  | VBool b => Some (JBool b)
  | VInt z | VInt64 z => Some (JNum (Itoa z))
  | VFloat x => JNum <$> json_float x
  | VNumber s => if String.eqb s "" then Some (JNum "0")
                 else if valid_number s then Some (JNum s) else None
  | VString s => Some (JStr s)
  | VSlice l | VMaps l =>
      JArr <$> (fix go l := match l with
                            | [] => Some []
                            | x :: l => j ← to_json x; js ← go l; Some (j :: js)
                            end) l
  | VMap l =>
      (λ js, JObj (key_sort js)) <$>
        (fix go l := match l with
                     | [] => Some []
                     | (k, x) :: l => j ← to_json x; js ← go l; Some ((k, j) :: js)
                     end) l
  end.

Definition Marshal (v : value) : option string := json_print <$> to_json v.

Example marshal_ex :
  Marshal (VMap [("b", VSlice [VInt (-3); VFloat (f64_of_Z 1000000); VNil]); ("a", VString "<é")])
  = Some ("{" +:+ quote "a" +:+ ":" +:+ quote "<é" +:+ "," +:+ quote "b" +:+ ":[-3,1000000,null]}").
Proof. vm_compute. reflexivity. Qed.

Example marshal_parse_ex :
  (j ← json_parse (" [1.50, {" +:+ dq +:+ "k" +:+ dq +:+ ": true}] ");
   v ← Unmarshal_any j; Marshal v)
  = Some ("[1.5,{" +:+ quote "k" +:+ ":true}]").
Proof. vm_compute. reflexivity. Qed.
