(* ===== verification/TmplLexer.v ===== *)
(** * template/lexer.go: tokens of the expression language

    [Lex] turns the bytes of an expression into tokens.  The scanner keeps the unread suffix of
    the source; the byte offset [i] of the code is the length of the source minus the length of
    that suffix.  A [SyntaxError] carries the offset and the message's format site with its
    arguments ([SyntaxMsg]) in place of the rendered text. *)

From Stdlib Require Import Sorted.
From S2P Require Import Prelude GoNum.

Inductive TokenKind : Type :=
  | TEOF | TIdent | TNumber | TString | TDot | TLParen | TRParen
  | TOr | TAnd | TNot | TEq | TNeq | TLt | TLe | TGt | TGe.

#[global] Instance TokenKind_eq_dec : EqDecision TokenKind.
Proof. solve_decision. Defined.

Record Token : Type := MkToken { Kind : TokenKind; Text : string; Pos : nat }.

#[global] Instance Token_eq_dec : EqDecision Token.
Proof. solve_decision. Defined.

(** The message sites of lexer.go, parser.go and slots.go. *)
Inductive SyntaxMsg : Type :=
  | MBareEq
  | MUnexpectedDash
  | MUnexpectedChar (c : ascii)
  | MUnterminatedString
  | MUnexpectedAfter (t : Token)
  | MExpectedEndOfRef (t : Token)
  | MNonAssociative
  | MExpectedRParen (t : Token)
  | MExpectedPrimary (t : Token)
  | MExpectedIdent (t : Token)
  | MRefIndex (text : string)
  | MExpectedSegment (t : Token)
  | MUnterminatedSlot
  | MNestedSlot
  | MFuel        (* the model ran out of fuel: never returned, see [Lex_fuel], [Parse_fuel] *)
  | MPanic.      (* an index out of range: never returned, see [Parse_fuel] *)

Record SyntaxError : Type := MkSyntaxError { sePos : nat; seMsg : SyntaxMsg }.

(** [unicode.IsSpace(rune(c))] of one byte: Latin-1 white space. *)
Definition isSpace (c : ascii) : bool :=
  let n := nat_of_ascii c in
  ((9 <=? n) && (n <=? 13) || (n =? 32) || (n =? 133) || (n =? 160))%nat.

Definition isIdentStart (c : ascii) : bool :=
  let n := nat_of_ascii c in
  ((65 <=? n) && (n <=? 90) || (97 <=? n) && (n <=? 122) || (n =? 95))%nat.

Definition isIdentCont (c : ascii) : bool :=
  isIdentStart c || isDigit c || Ascii.eqb c "-".

Definition quoteByte : ascii := ascii_of_nat 34.
Definition backslash : ascii := ascii_of_nat 92.

(** The body of a string literal after the opening quote: the decoded text and the rest. *)
Fixpoint lexStringBody (s : string) : option (string * string) :=
  match s with
  | "" => None
  | String c r =>
      if Ascii.eqb c quoteByte then Some ("", r)
      else if Ascii.eqb c backslash then
        match r with
        | String d r' => '(t, rest) ← lexStringBody r'; Some (String d t, rest)
        | "" => None
        end
      else '(t, rest) ← lexStringBody r; Some (String c t, rest)
  end.

(** [start] is the offset of the opening quote, [r] the source after it. *)
Definition lexString (start : nat) (r : string) : res SyntaxError (Token * string) :=
  match lexStringBody r with
  | Some (t, rest) => Ok (MkToken TString t start, rest)
  | None => Err (MkSyntaxError start MUnterminatedString)
  end.

(** The fraction is consumed only when a digit follows the dot. *)
Definition lexFraction (r : string) : string * string :=
  match r with
  | String "." (String d _ as r') =>
      if isDigit d then let '(fp, rest) := span_digits r' in (String "." fp, rest) else ("", r)
  | _ => ("", r)
  end.

Definition lexNumber (start : nat) (s : string) : Token * string :=
  let '(sign, r) := match s with
                    | String c r => if Ascii.eqb c "-" then ("-", r) else ("", s)
                    | "" => ("", s)
                    end in
  let '(ip, r) := span_digits r in
  let '(fp, rest) := lexFraction r in
  (MkToken TNumber (sign +:+ ip +:+ fp) start, rest).

Fixpoint span_ident (s : string) : string * string :=
  match s with
  | String c s' =>
      if isIdentCont c then let '(d, r) := span_ident s' in (String c d, r) else ("", s)
  | "" => ("", "")
  end.

Definition lexIdent (start : nat) (s : string) : Token * string :=
  let '(t, rest) := span_ident s in (MkToken TIdent t start, rest).

(** The byte after [c] is [d]. *)
Definition next_is (d : ascii) (r : string) : bool :=
  match r with String c _ => Ascii.eqb c d | "" => false end.

(** One iteration of the loop on a non-space byte [c], [r] being the source after it. *)
Definition lexOne (start : nat) (c : ascii) (r : string) : res SyntaxError (Token * string) :=
  let tok1 k := Ok (MkToken k (String c "") start, r) in
  let tok2 k := Ok (MkToken k (stake 2 (String c r)) start, sdrop 1 r) in
  if Ascii.eqb c "(" then tok1 TLParen
  else if Ascii.eqb c ")" then tok1 TRParen
  else if Ascii.eqb c "." then tok1 TDot
  else if Ascii.eqb c "|" && next_is "|" r then tok2 TOr
  else if Ascii.eqb c "&" && next_is "&" r then tok2 TAnd
  else if Ascii.eqb c "!" then (if next_is "=" r then tok2 TNeq else tok1 TNot)
  else if Ascii.eqb c "=" then
    (if next_is "=" r then tok2 TEq else Err (MkSyntaxError start MBareEq))
  else if Ascii.eqb c "<" then (if next_is "=" r then tok2 TLe else tok1 TLt)
  else if Ascii.eqb c ">" then (if next_is "=" r then tok2 TGe else tok1 TGt)
  else if Ascii.eqb c quoteByte then lexString start r
  else if Ascii.eqb c "-" then
    match r with
    | String d _ => if isDigit d then Ok (lexNumber start (String c r))
                    else Err (MkSyntaxError start MUnexpectedDash)
    | "" => Err (MkSyntaxError start MUnexpectedDash)
    end
  else if isDigit c then Ok (lexNumber start (String c r))
  else if isIdentStart c then Ok (lexIdent start (String c r))
  else Err (MkSyntaxError start (MUnexpectedChar c)).

(** The scanning loop: [n] is the length of the source, [s] its unread suffix. *)
Fixpoint lexLoop (fuel n : nat) (s : string) : res SyntaxError (list Token) :=
  match fuel with
  | O => Err (MkSyntaxError (n - slen s) MFuel)
  | S f =>
      match s with
      | "" => Ok [MkToken TEOF "" n]
      | String c r =>
          if isSpace c then lexLoop f n r
          else let? (t, rest) := lexOne (n - slen s) c r in
               let? ts := lexLoop f n rest in
               Ok (t :: ts)
      end
  end.

(** Every iteration consumes a byte, so one unit of fuel per byte and one for the end suffice. *)
Definition Lex (src : string) : res SyntaxError (list Token) :=
  lexLoop (S (slen src)) (slen src) src.

Example lex_ex :
  Lex "a.0.b>=-1.5" =
  Ok [MkToken TIdent "a" 0; MkToken TDot "." 1; MkToken TNumber "0" 2; MkToken TDot "." 3;
      MkToken TIdent "b" 4; MkToken TGe ">=" 5; MkToken TNumber "-1.5" 7; MkToken TEOF "" 11].
Proof. reflexivity. Qed.

(** ** What one token consumes *)

Lemma span_digits_app s : let '(d, r) := span_digits s in s = d +:+ r.
Proof.
  induction s as [|c s IH]; simpl; [done|]. destruct (isDigit c); [|done].
  destruct (span_digits s) as [d r]. simpl. by rewrite <- IH.
Qed.

Lemma span_ident_app s : let '(d, r) := span_ident s in s = d +:+ r.
Proof.
  induction s as [|c s IH]; simpl; [done|]. destruct (isIdentCont c); [|done].
  destruct (span_ident s) as [d r]. simpl. by rewrite <- IH.
Qed.

Lemma lexFraction_app r : let '(f, rest) := lexFraction r in r = f +:+ rest.
Proof.
  unfold lexFraction. destruct r as [|[[] [] [] [] [] [] [] []] [|d r]]; try done.
  destruct (isDigit d); [|done]. pose proof (span_digits_app (String d r)) as H.
  destruct (span_digits (String d r)) as [fp rest]. simpl. by rewrite H.
Qed.

Lemma lexNumber_spec start s :
  let '(t, rest) := lexNumber start s in
  Kind t = TNumber ∧ Pos t = start ∧ s = Text t +:+ rest.
Proof.
  unfold lexNumber.
  set (sr := match s with
             | String c r => if Ascii.eqb c "-" then ("-", r) else ("", s)
             | "" => ("", s)
             end).
  assert (Hs : s = sr.1 +:+ sr.2).
  { subst sr. destruct s as [|c r]; [done|]. destruct (Ascii.eqb_spec c "-"); by subst. }
  destruct sr as [sign r]. simpl in Hs.
  pose proof (span_digits_app r) as H1. destruct (span_digits r) as [ip r1].
  pose proof (lexFraction_app r1) as H2. destruct (lexFraction r1) as [fp rest].
  simpl. repeat split. by rewrite Hs, H1, H2, <- !sapp_assoc.
Qed.

Lemma lexIdent_spec start s :
  let '(t, rest) := lexIdent start s in
  Kind t = TIdent ∧ Pos t = start ∧ s = Text t +:+ rest.
Proof.
  unfold lexIdent. pose proof (span_ident_app s) as H. by destruct (span_ident s) as [d r].
Qed.

Lemma lexStringBody_suffix s t rest :
  lexStringBody s = Some (t, rest) → ∃ p, s = p +:+ rest ∧ p ≠ "".
Proof.
  remember (slen s) as n eqn:Hn. revert s t Hn.
  induction (lt_wf n) as [n _ IH]. intros s t -> H.
  destruct s as [|c r]; [done|]. cbn [lexStringBody] in H.
  destruct (Ascii.eqb c quoteByte).
  { injection H as <- <-. by exists (String c ""). }
  destruct (Ascii.eqb c backslash).
  - destruct r as [|d r']; [done|].
    destruct (lexStringBody r') as [[t' rest']|] eqn:E; [|done]. injection H as <- <-.
    destruct (IH (slen r') ltac:(simpl; lia) r' t' eq_refl E) as (p & -> & _).
    by exists (String c (String d p)).
  - destruct (lexStringBody r) as [[t' rest']|] eqn:E; [|done]. injection H as <- <-.
    destruct (IH (slen r) ltac:(simpl; lia) r t' eq_refl E) as (p & -> & _).
    by exists (String c p).
Qed.

Lemma app_nonempty_head s t c r : s +:+ t = String c r → s ≠ "" ∨ t = String c r.
Proof. destruct s; simpl; [by right|by left]. Qed.

(** A token spans a non-empty piece of the source, which it spells out unless it is a string. *)
Lemma lexOne_spec start c r t rest :
  lexOne start c r = Ok (t, rest) →
  ∃ p, String c r = p +:+ rest ∧ p ≠ "" ∧ Pos t = start ∧ Kind t ≠ TEOF ∧
       (Kind t ≠ TString → Text t = p).
Proof.
  unfold lexOne.
  assert (Htok1 : ∀ k, k ≠ TEOF → Ok (MkToken k (String c "") start, r) = Ok (E := SyntaxError) (t, rest) →
    ∃ p, String c r = p +:+ rest ∧ p ≠ "" ∧ Pos t = start ∧ Kind t ≠ TEOF ∧ (Kind t ≠ TString → Text t = p)).
  { intros k Hk [= <- <-]. by exists (String c ""). }
  assert (Htok2 : ∀ k, k ≠ TEOF → ∀ d, next_is d r = true →
    Ok (MkToken k (stake 2 (String c r)) start, sdrop 1 r) = Ok (E := SyntaxError) (t, rest) →
    ∃ p, String c r = p +:+ rest ∧ p ≠ "" ∧ Pos t = start ∧ Kind t ≠ TEOF ∧ (Kind t ≠ TString → Text t = p)).
  { intros k Hk d Hd [= <- <-]. destruct r as [|c' r]; [done|]. simpl.
    by exists (String c (String c' "")). }
  assert (Hnum : ∀ q, q = String c r → isDigit c = true ∨ c = "-"%char →
    Ok (lexNumber start q) = Ok (E := SyntaxError) (t, rest) →
    ∃ p, String c r = p +:+ rest ∧ p ≠ "" ∧ Pos t = start ∧ Kind t ≠ TEOF ∧ (Kind t ≠ TString → Text t = p)).
  { intros q -> Hc [= H]. pose proof (lexNumber_spec start (String c r)) as Hs. rewrite H in Hs.
    destruct Hs as (HK & HP & HT). exists (Text t). rewrite HK. repeat split; try done.
    intros He. unfold lexNumber in H. destruct (Ascii.eqb_spec c "-") as [->|Hne].
    - destruct (span_digits r), (lexFraction s0). injection H as <- _. done.
    - destruct Hc as [Hc|?]; [|done]. simpl in H. rewrite Hc in H.
      destruct (span_digits r), (lexFraction s0). injection H as <- _. done. }
  repeat match goal with
  | |- (if ?b then _ else _) = _ → _ => destruct b eqn:?
  end; try (by apply Htok1); try (by intros [=]).
  all: try (intros H; match goal with
    | E : next_is ?d _ = true |- _ => by refine (Htok2 _ _ d E H)
    | E : _ && next_is ?d _ = true |- _ =>
        apply andb_true_iff in E as [_ E]; by refine (Htok2 _ _ d E H)
    end).
  - unfold lexString. destruct (lexStringBody r) as [[b rest']|] eqn:E; [|done].
    intros [= <- <-]. destruct (lexStringBody_suffix _ _ _ E) as (p & -> & _).
    by exists (String c p).
  - destruct r as [|d r]; [done|]. destruct (isDigit d); [|done]. apply Hnum; [done|].
    right. by apply Ascii.eqb_eq.
  - apply Hnum; auto.
  - intros [= H]. pose proof (lexIdent_spec start (String c r)) as Hs. rewrite H in Hs.
    destruct Hs as (HK & HP & HT). exists (Text t). rewrite HK. repeat split; try done.
    intros He. unfold lexIdent in H. simpl in H. unfold isIdentCont in H.
    match goal with E : isIdentStart c = true |- _ => rewrite E in H end. simpl in H.
    destruct (span_ident r). injection H as <- _. done.
Qed.

(** ** The scanning loop *)

Lemma isDigit_not_MFuel start c r e : lexOne start c r = Err e → seMsg e ≠ MFuel ∧ seMsg e ≠ MPanic.
Proof.
  unfold lexOne, lexString.
  repeat match goal with
  | |- (if ?b then _ else _) = _ → _ => destruct b eqn:?
  | |- (match ?b with _ => _ end) = _ → _ => destruct b eqn:?
  end; try done; by intros [= <-].
Qed.

(** The fuel suffices: a failure is a genuine syntax error. *)
Lemma lexLoop_fuel fuel n s e :
  slen s < fuel → lexLoop fuel n s = Err e → seMsg e ≠ MFuel ∧ seMsg e ≠ MPanic.
Proof.
  revert s; induction fuel as [|f IH]; intros s Hf; [lia|]. cbn [lexLoop].
  destruct s as [|c r]; [done|]. simpl in Hf.
  destruct (isSpace c); [apply IH; lia|].
  intros [H|([t rest] & H1 & [H|(ts & H2 & [=])]%res_bind_err)]%res_bind_err.
  - by apply isDigit_not_MFuel in H.
  - destruct (lexOne_spec _ _ _ _ _ H1) as (p & Hp & Hne & _).
    apply (f_equal slen) in Hp. rewrite slen_app in Hp. simpl in Hp.
    apply (IH rest); [|done]. destruct p; [done|]. simpl in *; lia.
Qed.

(** What a token list says about the suffix [s] of a source of length [n]: tokens in order,
    separated by nothing but white space, each spelled by the bytes at its position. *)
Inductive spelled (n : nat) : string → list Token → Prop :=
  | spelled_eof : spelled n "" [MkToken TEOF "" n]
  | spelled_space c s ts : isSpace c = true → spelled n s ts → spelled n (String c s) ts
  | spelled_token p rest t ts :
      p ≠ "" → Pos t = n - slen (p +:+ rest) → Kind t ≠ TEOF →
      (Kind t ≠ TString → Text t = p) →
      spelled n rest ts → spelled n (p +:+ rest) (t :: ts).

Lemma lexLoop_spelled fuel n s ts : lexLoop fuel n s = Ok ts → spelled n s ts.
Proof.
  revert s ts; induction fuel as [|f IH]; intros s ts; [done|]. cbn [lexLoop].
  destruct s as [|c r]; [intros [= <-]; constructor|].
  destruct (isSpace c) eqn:E; [intros H; constructor; auto|].
  intros ([t rest] & H1 & (ts' & H2 & [= <-])%res_bind_ok)%res_bind_ok.
  destruct (lexOne_spec _ _ _ _ _ H1) as (p & Hp & Hne & HP & HK & HT).
  rewrite Hp in *. constructor; auto.
Qed.

Definition token_at (src : string) (t : Token) : Prop :=
  Kind t ≠ TEOF ∧ Pos t < slen src ∧
  (Kind t ≠ TString → sslice src (Pos t) (Pos t + slen (Text t)) = Text t).

Definition pos_lt (a b : Token) : Prop := Pos a < Pos b.

Lemma spelled_tokens pre s ts :
  spelled (slen pre + slen s) s ts →
  ∃ body, ts = body ++ [MkToken TEOF "" (slen pre + slen s)] ∧
    StronglySorted pos_lt body ∧
    Forall (λ t, slen pre ≤ Pos t) body ∧ Forall (token_at (pre +:+ s)) body.
Proof.
  remember (slen pre + slen s) as n eqn:Hn. intros H. revert pre Hn.
  induction H as [|c s ts Hc H IH|p rest t ts Hne HP HK HT H IH]; intros pre Hn.
  - exists []. split; [done|]. repeat constructor.
  - destruct (IH (pre +:+ String c "")) as (body & -> & HS & HF & HA).
    { rewrite slen_app. simpl in *. lia. }
    exists body. split; [done|]. split; [done|]. split.
    + eapply Forall_impl; [exact HF|]. intros t Ht. rewrite slen_app in Ht. simpl in Ht. lia.
    + by rewrite <- sapp_assoc in HA.
  - destruct (IH (pre +:+ p)) as (body & -> & HS & HF & HA).
    { rewrite !slen_app in *. lia. }
    rewrite slen_app in HP, Hn. assert (HPt : Pos t = slen pre) by lia.
    assert (Hp : 0 < slen p) by (destruct p; simpl; [done|lia]).
    exists (t :: body). split; [done|]. split; [|split].
    + constructor; [done|]. eapply Forall_impl; [exact HF|]. intros t' Ht'.
      rewrite slen_app in Ht'. unfold pos_lt. lia.
    + constructor; [lia|]. eapply Forall_impl; [exact HF|]. intros t' Ht'.
      rewrite slen_app in Ht'. lia.
    + rewrite sapp_assoc. constructor; [|done]. split; [done|].
      split; [rewrite !slen_app; lia|]. intros Hk. rewrite (HT Hk), HPt. unfold sslice.
      rewrite <- sapp_assoc, sdrop_app. replace (slen pre + slen p - slen pre) with (slen p) by lia.
      apply stake_app.
Qed.

(** ** Spelling tokens back *)

Fixpoint escape_string (s : string) : string :=
  match s with
  | "" => ""
  | String c r =>
      if Ascii.eqb c quoteByte || Ascii.eqb c backslash
      then String backslash (String c (escape_string r))
      else String c (escape_string r)
  end.

Definition spell_string (s : string) : string :=
  String quoteByte (escape_string s +:+ String quoteByte "").

Definition spell (t : Token) : string :=
  match Kind t with TString => spell_string (Text t) | _ => Text t end.

Fixpoint spell_all (ts : list Token) : string :=
  match ts with [] => "" | t :: ts => spell t +:+ " " +:+ spell_all ts end.

Definition ident_ok (s : string) : bool :=
  match s with
  | String c _ => isIdentStart c && String.eqb (span_ident s).2 ""
  | "" => false
  end.

Definition number_ok (s : string) : bool :=
  match s with
  | String c r =>
      (isDigit c || (Ascii.eqb c "-" && match r with String d _ => isDigit d | "" => false end))
      && String.eqb (lexNumber 0 s).2 ""
  | "" => false
  end.

Definition punct (k : TokenKind) : option string :=
  match k with
  | TDot => Some "." | TLParen => Some "(" | TRParen => Some ")"
  | TOr => Some "||" | TAnd => Some "&&" | TNot => Some "!"
  | TEq => Some "==" | TNeq => Some "!=" | TLt => Some "<" | TLe => Some "<="
  | TGt => Some ">" | TGe => Some ">="
  | _ => None
  end.

Definition token_ok (t : Token) : bool :=
  match Kind t with
  | TEOF => false
  | TIdent => ident_ok (Text t)
  | TNumber => number_ok (Text t)
  | TString => true
  | k => match punct k with Some p => String.eqb (Text t) p | None => false end
  end.

Lemma lexStringBody_escape s rest :
  lexStringBody (escape_string s +:+ String quoteByte "" +:+ rest) = Some (s, rest).
Proof.
  induction s as [|c s IH]; [done|]. cbn [escape_string].
  destruct (Ascii.eqb c quoteByte || Ascii.eqb c backslash) eqn:E.
  - cbn [String.append lexStringBody]. change (Ascii.eqb backslash quoteByte) with false.
    change (Ascii.eqb backslash backslash) with true. cbn match.
    change (String quoteByte rest) with (String quoteByte "" +:+ rest). by rewrite IH.
  - apply orb_false_iff in E as [E1 E2]. cbn [String.append lexStringBody]. rewrite E1, E2.
    change (String quoteByte rest) with (String quoteByte "" +:+ rest). by rewrite IH.
Qed.

Lemma span_digits_space s rest d :
  span_digits s = (d, "") → span_digits (s +:+ String " " rest) = (d, String " " rest).
Proof.
  revert d; induction s as [|c s IH]; intros d; simpl; [by intros [= <-]|].
  destruct (isDigit c); [|done]. destruct (span_digits s) as [d' r'].
  intros [= <- ->]. by rewrite (IH d').
Qed.

Lemma span_digits_app_ne s t d c r :
  span_digits s = (d, String c r) → span_digits (s +:+ t) = (d, String c r +:+ t).
Proof.
  revert d; induction s as [|c' s IH]; intros d; simpl; [done|].
  destruct (isDigit c') eqn:E.
  - destruct (span_digits s) as [d' r']. intros [= <- ->]. by rewrite (IH d').
  - by intros [= <- -> ->].
Qed.

Lemma span_ident_space s rest d :
  span_ident s = (d, "") → span_ident (s +:+ String " " rest) = (d, String " " rest).
Proof.
  revert d; induction s as [|c s IH]; intros d; simpl; [by intros [= <-]|].
  destruct (isIdentCont c); [|done]. destruct (span_ident s) as [d' r'].
  intros [= <- ->]. by rewrite (IH d').
Qed.

Lemma lexFraction_space r rest fp :
  lexFraction r = (fp, "") → lexFraction (r +:+ String " " rest) = (fp, String " " rest).
Proof.
  destruct r as [|c r]; [by intros [= <-]|]. unfold lexFraction.
  destruct c as [[] [] [] [] [] [] [] []]; try done.
  destruct r as [|d r]; [done|]. cbn [String.append]. destruct (isDigit d); [|done].
  destruct (span_digits (String d r)) as [d' r'] eqn:E. intros [= <- ->].
  change (String d (r +:+ String " " rest)) with (String d r +:+ String " " rest).
  by rewrite (span_digits_space _ _ _ E).
Qed.

Lemma lexNumber_space start s rest :
  s ≠ "" → (lexNumber 0 s).2 = "" →
  lexNumber start (s +:+ String " " rest) = (MkToken TNumber s start, String " " rest).
Proof.
  intros Hne Hr. pose proof (lexNumber_spec 0 s) as Hs. revert Hr Hs. unfold lexNumber.
  destruct s as [|c s]; [done|]. cbn [String.append].
  assert (Hgo : ∀ sign q, String c s = sign +:+ q →
    (let '(ip, r) := span_digits q in
     let '(fp, rest0) := lexFraction r in
     (MkToken TNumber (sign +:+ ip +:+ fp) 0, rest0)).2 = "" →
    (let '(ip, r) := span_digits (q +:+ String " " rest) in
     let '(fp, rest0) := lexFraction r in
     (MkToken TNumber (sign +:+ ip +:+ fp) start, rest0)) =
    (MkToken TNumber (String c s) start, String " " rest)).
  { intros sign q Hsq. pose proof (span_digits_app q) as H1.
    destruct (span_digits q) as [ip r] eqn:E1.
    pose proof (lexFraction_app r) as H2. destruct (lexFraction r) as [fp r0] eqn:E2.
    simpl. intros ->. rewrite sapp_nil_r in H2. subst r.
    assert (E : span_digits (q +:+ String " " rest) = (ip, fp +:+ String " " rest)).
    { destruct fp as [|c' fp]; [by apply span_digits_space|]. by apply span_digits_app_ne. }
    rewrite E, (lexFraction_space _ _ _ E2). by rewrite Hsq, H1. }
  destruct (Ascii.eqb_spec c "-") as [->|Hc]; intros Hr _.
  - by apply (Hgo "-" s).
  - by apply (Hgo "" (String c s)).
Qed.

Lemma lexOne_spell start t rest c r :
  token_ok t = true → spell t +:+ String " " rest = String c r →
  lexOne start c r = Ok (MkToken (Kind t) (Text t) start, String " " rest) ∧ isSpace c = false.
Proof.
  destruct t as [k s p]. unfold token_ok, spell. cbn [Kind Text].
  destruct k; cbn [punct]; try done;
    try (intros Heq%String.eqb_eq; subst s; cbn [String.append]; intros [= <- <-]; split; reflexivity).
  - (* identifiers *)
    unfold ident_ok. destruct s as [|c0 s]; [done|].
    intros [Hs Hr%String.eqb_eq]%andb_true_iff [= <- <-].
    assert (Hspan : span_ident (String c0 s) = (String c0 s, "")).
    { pose proof (span_ident_app (String c0 s)) as Ha. destruct (span_ident (String c0 s)).
      cbn in Hr. subst. by rewrite sapp_nil_r in Ha; subst. }
    split.
    + pose proof (span_ident_space _ rest _ Hspan) as Hsp. cbn [String.append] in Hsp.
      unfold lexOne, lexIdent. rewrite Hs, Hsp.
      destruct c0 as [[] [] [] [] [] [] [] []]; try discriminate Hs; reflexivity.
    + destruct c0 as [[] [] [] [] [] [] [] []]; try discriminate Hs; reflexivity.
  - (* numbers *)
    unfold number_ok. destruct s as [|c0 s]; [done|].
    intros [Hs Hr%String.eqb_eq]%andb_true_iff [= <- <-].
    pose proof (lexNumber_space start (String c0 s) rest ltac:(done) Hr) as Hn.
    cbn [String.append] in Hn.
    apply orb_true_iff in Hs as [Hs|[Hs Hd]%andb_true_iff].
    + unfold lexOne. rewrite Hs, Hn.
      destruct c0 as [[] [] [] [] [] [] [] []]; try discriminate Hs; split; reflexivity.
    + apply Ascii.eqb_eq in Hs as ->. unfold lexOne. rewrite Hn.
      destruct s as [|d s]; [done|]. cbn [String.append]. rewrite Hd. split; reflexivity.
  - (* strings *)
    intros _. unfold spell_string. cbn [String.append]. intros [= <- <-]. split; [|done].
    unfold lexOne, lexString. rewrite <- sapp_assoc.
    by rewrite (lexStringBody_escape s (String " " rest)).
Qed.

Definition erase (t : Token) : TokenKind * string := (Kind t, Text t).

(** Scanning a spelled token list gives the tokens back, up to positions. *)
Lemma lexLoop_spell fuel n ts :
  forallb token_ok ts = true → slen (spell_all ts) < fuel →
  ∃ ts', lexLoop fuel n (spell_all ts) = Ok (ts' ++ [MkToken TEOF "" n]) ∧
         erase <$> ts' = erase <$> ts.
Proof.
  revert fuel; induction ts as [|t ts IH]; intros fuel Hok Hf; cbn [spell_all] in *.
  - destruct fuel; [lia|]. by exists [].
  - cbn [forallb] in Hok. apply andb_true_iff in Hok as [Ht Hok].
    rewrite !slen_app in Hf. simpl in Hf.
    destruct (spell t +:+ " " +:+ spell_all ts) as [|c r] eqn:E.
    { apply (f_equal slen) in E. rewrite !slen_app in E. simpl in E. lia. }
    destruct fuel as [|fuel]; [lia|]. cbn [lexLoop].
    destruct (lexOne_spell (n - slen (String c r)) t (spell_all ts) c r Ht E) as [H1 H2].
    rewrite H2, H1. cbn [res_bind].
    assert (0 < slen (spell t)).
    { unfold spell, spell_string, token_ok, ident_ok, number_ok in *.
      destruct (Kind t); simpl; try lia; destruct (Text t); simpl in *; try discriminate Ht; lia. }
    destruct fuel as [|fuel]; [lia|]. cbn [lexLoop]. change (isSpace " ") with true. cbn match.
    destruct (IH fuel Hok ltac:(lia)) as (ts' & -> & He). cbn [res_bind].
    exists (MkToken (Kind t) (Text t) (n - slen (String c r)) :: ts'). split; [done|].
    by rewrite !fmap_cons, He.
Qed.

(** ** The properties *)

(** the token stream is faithful to the source. When [Lex] succeeds it ends in one EOF token at
    the length of the source; the tokens before it start at strictly increasing offsets inside the
    source, and each one that is not a string literal is spelled by the bytes at its offset. *)
Theorem Lex_positions src ts :
  Lex src = Ok ts →
  ∃ body, ts = body ++ [MkToken TEOF "" (slen src)] ∧
    StronglySorted pos_lt body ∧ Forall (token_at src) body.
Proof.
  intros H%lexLoop_spelled. destruct (spelled_tokens "" _ _ H) as (body & -> & HS & _ & HA). eauto.
Qed.

Lemma Lex_positions_witness :
  ∃ body, [MkToken TIdent "a" 0; MkToken TEq "==" 2; MkToken TNumber "1.5" 5; MkToken TEOF "" 8]
          = body ++ [MkToken TEOF "" (slen "a == 1.5")] ∧
    StronglySorted pos_lt body ∧ Forall (token_at "a == 1.5") body.
Proof. apply Lex_positions. reflexivity. Defined.
