(* ===== verification/TmplParser.v ===== *)
(** * template/ast.go, parser.go, refs.go, envelope.go, artifact_ref.go

    The syntax tree of the expression language, the recursive-descent parser and the reference
    walker.  The parser's state is the list of tokens not yet consumed ([p.toks[p.i:]]); each
    function of the code is one function here, with fuel in place of the Go call stack.  The fuel
    [ParseExpr] and [ParseRef] supply is always enough and the parser never reads past the end of
    its input ([Parse_fuel]). *)

From Stdlib Require Import DecimalString.
From S2P Require Import Prelude GoNum TmplLexer.

(** ** ast.go *)

Record Segment : Type :=
  MkSegment { Ident : string; Index : Z; IsIndex : bool; SegPos : nat }.

Record Ref : Type := MkRef { Segments : list Segment }.

Inductive Expr : Type :=
  | OrExpr (L R : Expr)
  | AndExpr (L R : Expr)
  | NotExpr (X : Expr)
  | CmpExpr (Op : string) (L R : Expr)
  | RefExpr (r : Ref)
  | StringLit (v : string)
  | NumberLit (v : string)
  | BoolLit (v : bool)
  | NullLit.

#[global] Instance Segment_eq_dec : EqDecision Segment.
Proof. solve_decision. Defined.
#[global] Instance Ref_eq_dec : EqDecision Ref.
Proof. solve_decision. Defined.
#[global] Instance Expr_eq_dec : EqDecision Expr.
Proof. solve_decision. Defined.

Definition identSegment (s : string) (pos : nat) : Segment := MkSegment s 0 false pos.
Definition indexSegment (i : Z) (pos : nat) : Segment := MkSegment "" i true pos.

(** ** parser.go *)

Definition parsed (A : Type) : Type := res SyntaxError (A * list Token).

Definition errAt {A} (t : Token) (m : SyntaxMsg) : res SyntaxError A :=
  Err (MkSyntaxError (Pos t) m).
Definition outOfFuel {A} : res SyntaxError A := Err (MkSyntaxError 0 MFuel).
Definition indexPanic {A} : res SyntaxError A := Err (MkSyntaxError 0 MPanic).

Definition cmpOpString (k : TokenKind) : option string :=
  match k with
  | TEq => Some "==" | TNeq => Some "!=" | TLt => Some "<"
  | TLe => Some "<=" | TGt => Some ">" | TGe => Some ">="
  | _ => None
  end.

(** The segments after the first: one per [.ident] or [.int]; structural in the tokens. *)
Fixpoint parseSegments (acc : list Segment) (ts : list Token) : parsed (list Segment) :=
  match ts with
  | [] => indexPanic
  | d :: ts' =>
      if decide (Kind d = TDot) then
        match ts' with
        | [] => indexPanic
        | t :: ts'' =>
            match Kind t with
            | TIdent => parseSegments (acc ++ [identSegment (Text t) (Pos t)]) ts''
            | TNumber =>
                match ParseInt (Text t) with
                | Some n =>
                    if (n <? 0)%Z then errAt t (MRefIndex (Text t))
                    else parseSegments (acc ++ [indexSegment n (Pos t)]) ts''
                | None => errAt t (MRefIndex (Text t))
                end
            | _ => errAt t (MExpectedSegment t)
            end
        end
      else Ok (acc, ts)
  end.

Definition parseRef (ts : list Token) : parsed Ref :=
  match ts with
  | [] => indexPanic
  | first :: ts' =>
      if decide (Kind first = TIdent) then
        let? (segs, rest) := parseSegments [identSegment (Text first) (Pos first)] ts' in
        Ok (MkRef segs, rest)
      else errAt first (MExpectedIdent first)
  end.

Fixpoint parseOr (fuel : nat) (ts : list Token) : parsed Expr :=
  match fuel with
  | O => outOfFuel
  | S f => let? (l, ts) := parseAnd f ts in orLoop f l ts
  end
with orLoop (fuel : nat) (l : Expr) (ts : list Token) : parsed Expr :=
  match fuel with
  | O => outOfFuel
  | S f =>
      match ts with
      | [] => indexPanic
      | t :: ts' =>
          if decide (Kind t = TOr) then
            let? (r, ts) := parseAnd f ts' in orLoop f (OrExpr l r) ts
          else Ok (l, ts)
      end
  end
with parseAnd (fuel : nat) (ts : list Token) : parsed Expr :=
  match fuel with
  | O => outOfFuel
  | S f => let? (l, ts) := parseUnary f ts in andLoop f l ts
  end
with andLoop (fuel : nat) (l : Expr) (ts : list Token) : parsed Expr :=
  match fuel with
  | O => outOfFuel
  | S f =>
      match ts with
      | [] => indexPanic
      | t :: ts' =>
          if decide (Kind t = TAnd) then
            let? (r, ts) := parseUnary f ts' in andLoop f (AndExpr l r) ts
          else Ok (l, ts)
      end
  end
with parseUnary (fuel : nat) (ts : list Token) : parsed Expr :=
  match fuel with
  | O => outOfFuel
  | S f =>
      match ts with
      | [] => indexPanic
      | t :: ts' =>
          if decide (Kind t = TNot) then
            let? (x, ts) := parseUnary f ts' in Ok (NotExpr x, ts)
          else parseComparison f ts
      end
  end
with parseComparison (fuel : nat) (ts : list Token) : parsed Expr :=
  match fuel with
  | O => outOfFuel
  | S f =>
      let? (l, ts) := parsePrimary f ts in
      match ts with
      | [] => indexPanic
      | t :: ts' =>
          match cmpOpString (Kind t) with
          | Some op =>
              let? (r, ts) := parsePrimary f ts' in
              match ts with
              | [] => indexPanic
              | t' :: _ =>
                  match cmpOpString (Kind t') with
                  | Some _ => errAt t' MNonAssociative
                  | None => Ok (CmpExpr op l r, ts)
                  end
              end
          | None => Ok (l, ts)
          end
      end
  end
with parsePrimary (fuel : nat) (ts : list Token) : parsed Expr :=
  match fuel with
  | O => outOfFuel
  | S f =>
      match ts with
      | [] => indexPanic
      | t :: ts' =>
          match Kind t with
          | TLParen =>
              let? (e, ts) := parseOr f ts' in
              match ts with
              | [] => indexPanic
              | rp :: ts'' =>
                  if decide (Kind rp = TRParen) then Ok (e, ts'') else errAt rp (MExpectedRParen rp)
              end
          | TNumber => Ok (NumberLit (Text t), ts')
          | TString => Ok (StringLit (Text t), ts')
          | TIdent =>
              if String.eqb (Text t) "true" then Ok (BoolLit true, ts')
              else if String.eqb (Text t) "false" then Ok (BoolLit false, ts')
              else if String.eqb (Text t) "null" then Ok (NullLit, ts')
              else let? (r, ts) := parseRef ts in Ok (RefExpr r, ts)
          | _ => errAt t (MExpectedPrimary t)
          end
      end
  end.

(** [p.peek().Kind != TEOF] after the parse is an error. *)
Definition finish {A} (m : Token → SyntaxMsg) (r : A * list Token) : res SyntaxError A :=
  match r.2 with
  | [] => indexPanic
  | t :: _ => if decide (Kind t = TEOF) then Ok r.1 else errAt t (m t)
  end.

Definition parseFuel (ts : list Token) : nat := 8 * length ts + 8.

Definition ParseExpr (src : string) : res SyntaxError Expr :=
  let? toks := Lex src in
  let? r := parseOr (parseFuel toks) toks in
  finish MUnexpectedAfter r.

Definition ParseRef (src : string) : res SyntaxError Ref :=
  let? toks := Lex src in
  let? r := parseRef toks in
  finish MExpectedEndOfRef r.

(** ** refs.go *)

Fixpoint References (e : Expr) : list Ref :=
  match e with
  | OrExpr l r | AndExpr l r | CmpExpr _ l r => References l ++ References r
  | NotExpr x => References x
  | RefExpr r => [r]
  | StringLit _ | NumberLit _ | BoolLit _ | NullLit => []
  end.

(** ** envelope.go *)

Definition UnwrapEnvelope (src : string) : string :=
  let s := TrimSpace src in
  if HasPrefix s "{{" && HasSuffix s "}}" then TrimSpace (sslice s 2 (slen s - 2)) else src.

(** ** artifact_ref.go *)

Definition isIdent (s : string) (g : Segment) : bool := negb (IsIndex g) && String.eqb (Ident g) s.

Definition ParseArtifactRef (raw : string) : option (string * string) :=
  match ParseRef (TrimSpace raw) with
  | Ok (MkRef [a; b; c; d]) =>
      if isIdent "step" a && negb (IsIndex b) && isIdent "files" c && negb (IsIndex d)
      then Some (Ident b, Ident d) else None
  | _ => None
  end.

Definition ParseAssetRef (raw : string) : option string :=
  match ParseRef (TrimSpace raw) with
  | Ok (MkRef [a; b]) => if isIdent "asset" a && negb (IsIndex b) then Some (Ident b) else None
  | _ => None
  end.

Definition ParseWorkflowInputFileRef (raw : string) : option string :=
  match ParseRef (TrimSpace raw) with
  | Ok (MkRef [a; b; c]) =>
      if isIdent "input" a && isIdent "files" b && negb (IsIndex c) then Some (Ident c) else None
  | _ => None
  end.

Example parse_ex1 :
  ParseExpr "!a == b || c.0 < 3 && true" =
  Ok (OrExpr (NotExpr (CmpExpr "==" (RefExpr (MkRef [identSegment "a" 1])) (RefExpr (MkRef [identSegment "b" 6]))))
             (AndExpr (CmpExpr "<" (RefExpr (MkRef [identSegment "c" 11; indexSegment 0 13])) (NumberLit "3"))
                      (BoolLit true))).
Proof. reflexivity. Qed.
Example parse_ex2 : ParseExpr "a < b < c" = Err (MkSyntaxError 6 MNonAssociative).
Proof. reflexivity. Qed.
Example parse_ex3 : ParseArtifactRef " step.build.files.log " = Some ("build", "log").
Proof. reflexivity. Qed.
Example unwrap_ex : UnwrapEnvelope " {{ a == 1 }} " = "a == 1".
Proof. reflexivity. Qed.

(** ** Totality: fuel and end of input *)

(** What [Lex] produces: tokens other than EOF, then one EOF. *)
Definition eof_ended (ts : list Token) : Prop :=
  ∃ body e, ts = body ++ [e] ∧ Kind e = TEOF ∧ Forall (λ t, Kind t ≠ TEOF) body.

Lemma eof_ended_cons t ts :
  eof_ended (t :: ts) → Kind t ≠ TEOF → eof_ended ts.
Proof.
  intros (body & e & H & He & HF) Ht. destruct body as [|b body].
  - injection H as -> ->. done.
  - injection H as -> ->. exists body, e. by apply Forall_cons in HF as [_ HF].
Qed.

Lemma eof_ended_nonnil : ¬ eof_ended [].
Proof. by intros ([|] & e & [=] & _). Qed.

Definition genuine (e : SyntaxError) : Prop := seMsg e ≠ MFuel ∧ seMsg e ≠ MPanic.

(** A parse result: a genuine error, or a value with a remaining input at most [n] long. *)
Definition fine {A} (n : nat) (r : parsed A) : Prop :=
  match r with
  | Ok (_, ts) => eof_ended ts ∧ length ts ≤ n
  | Err e => genuine e
  end.

Lemma fine_bind {A B} n m (r : parsed A) (k : A * list Token → parsed B) :
  fine n r →
  (∀ a ts, eof_ended ts → length ts ≤ n → fine m (k (a, ts))) →
  fine m (res_bind r k).
Proof. destruct r as [[a ts]|e]; simpl; [|done]. intros [H1 H2] Hk. by apply Hk. Qed.

Lemma fine_le {A} n m (r : parsed A) : fine n r → n ≤ m → fine m r.
Proof. destruct r as [[a ts]|e]; simpl; [|done]. intros [H1 H2] Hk. split; [done|lia]. Qed.

Lemma fine_err {A} n t m : m ≠ MFuel → m ≠ MPanic → fine n (@errAt (A * list Token) t m).
Proof. done. Qed.

Lemma parseSegments_fine acc ts : eof_ended ts → fine (length ts) (parseSegments acc ts).
Proof.
  remember (length ts) as n eqn:Hn. revert acc ts Hn.
  induction (lt_wf n) as [n _ IH]. intros acc ts -> H.
  destruct ts as [|d ts]; [by apply eof_ended_nonnil in H|]. cbn [parseSegments].
  case_decide as Hd; [|split; [done|simpl; lia]].
  assert (H' : eof_ended ts) by (apply (eof_ended_cons d); [done|congruence]).
  destruct ts as [|t ts]; [by apply eof_ended_nonnil in H'|].
  destruct (Kind t) eqn:Ek; try (by apply fine_err).
  - assert (H'' : eof_ended ts) by (apply (eof_ended_cons t); [done|congruence]).
    eapply fine_le; [by apply (IH (length ts)); [simpl; lia| |]|simpl; lia].
  - destruct (ParseInt (Text t)) as [z|]; [|by apply fine_err].
    destruct (z <? 0)%Z; [by apply fine_err|].
    assert (H'' : eof_ended ts) by (apply (eof_ended_cons t); [done|congruence]).
    eapply fine_le; [by apply (IH (length ts)); [simpl; lia| |]|simpl; lia].
Qed.

Lemma parseRef_fine ts : eof_ended ts → fine (length ts - 1) (parseRef ts).
Proof.
  intros H. destruct ts as [|t ts]; [by apply eof_ended_nonnil in H|]. cbn [parseRef].
  case_decide as Hd; [|by apply fine_err].
  assert (H' : eof_ended ts) by (apply (eof_ended_cons t); [done|congruence]).
  eapply fine_bind; [by apply parseSegments_fine|]. intros segs ts' He Hl. simpl. split; [done|lia].
Qed.

(** The fuel each function needs on [n] remaining tokens; it is met with room for the whole
    call tree because every nested call that does not consume a token has a smaller offset. *)
Lemma parse_fine f :
  (∀ ts, eof_ended ts → 8 * length ts + 7 ≤ f → fine (length ts - 1) (parseOr f ts)) ∧
  (∀ l ts, eof_ended ts → 8 * length ts + 1 ≤ f → fine (length ts) (orLoop f l ts)) ∧
  (∀ ts, eof_ended ts → 8 * length ts + 6 ≤ f → fine (length ts - 1) (parseAnd f ts)) ∧
  (∀ l ts, eof_ended ts → 8 * length ts + 1 ≤ f → fine (length ts) (andLoop f l ts)) ∧
  (∀ ts, eof_ended ts → 8 * length ts + 4 ≤ f → fine (length ts - 1) (parseUnary f ts)) ∧
  (∀ ts, eof_ended ts → 8 * length ts + 3 ≤ f → fine (length ts - 1) (parseComparison f ts)) ∧
  (∀ ts, eof_ended ts → 8 * length ts + 1 ≤ f → fine (length ts - 1) (parsePrimary f ts)).
Proof.
  induction f as [|f (IHo & IHol & IHa & IHal & IHu & IHc & IHp)];
    [repeat split; intros; lia|].
  assert (Hnn : ∀ ts : list Token, eof_ended ts → 1 ≤ length ts).
  { intros [|t ts] H; [by apply eof_ended_nonnil in H|simpl; lia]. }
  repeat split.
  - intros ts H Hf. cbn [parseOr]. pose proof (Hnn _ H).
    eapply fine_bind; [apply IHa; [done|lia]|]. intros l ts' He Hl.
    eapply fine_le; [apply IHol; [done|lia]|lia].
  - intros l ts H Hf. cbn [orLoop]. destruct ts as [|t ts]; [by apply eof_ended_nonnil in H|].
    case_decide as Hd; [|split; [done|simpl; lia]].
    assert (H' : eof_ended ts) by (apply (eof_ended_cons t); [done|congruence]).
    simpl in Hf. pose proof (Hnn _ H').
    eapply fine_bind; [apply IHa; [done|lia]|]. intros r ts' He Hl.
    eapply fine_le; [apply IHol; [done|lia]|simpl; lia].
  - intros ts H Hf. cbn [parseAnd]. pose proof (Hnn _ H).
    eapply fine_bind; [apply IHu; [done|lia]|]. intros l ts' He Hl.
    eapply fine_le; [apply IHal; [done|lia]|lia].
  - intros l ts H Hf. cbn [andLoop]. destruct ts as [|t ts]; [by apply eof_ended_nonnil in H|].
    case_decide as Hd; [|split; [done|simpl; lia]].
    assert (H' : eof_ended ts) by (apply (eof_ended_cons t); [done|congruence]).
    simpl in Hf. pose proof (Hnn _ H').
    eapply fine_bind; [apply IHu; [done|lia]|]. intros r ts' He Hl.
    eapply fine_le; [apply IHal; [done|lia]|simpl; lia].
  - intros ts H Hf. cbn [parseUnary]. destruct ts as [|t ts]; [by apply eof_ended_nonnil in H|].
    case_decide as Hd; [|apply IHc; [done|lia]].
    assert (H' : eof_ended ts) by (apply (eof_ended_cons t); [done|congruence]).
    simpl in Hf. pose proof (Hnn _ H').
    eapply fine_bind; [apply IHu; [done|lia]|]. intros x ts' He Hl. split; [done|simpl; lia].
  - intros ts H Hf. cbn [parseComparison]. pose proof (Hnn _ H).
    eapply fine_bind; [apply IHp; [done|lia]|]. intros l ts' He Hl.
    destruct ts' as [|t ts']; [by apply eof_ended_nonnil in He|].
    destruct (cmpOpString (Kind t)) as [op|] eqn:Eop; [|split; [done|lia]].
    assert (H' : eof_ended ts') by (apply (eof_ended_cons t); [done|by intros E; rewrite E in Eop]).
    simpl in Hl. pose proof (Hnn _ H').
    eapply fine_bind; [apply IHp; [done|lia]|]. intros r ts'' He' Hl'.
    destruct ts'' as [|t' ts'']; [by apply eof_ended_nonnil in He'|].
    destruct (cmpOpString (Kind t')); [by apply fine_err|]. split; [done|lia].
  - intros ts H Hf. cbn [parsePrimary]. destruct ts as [|t ts]; [by apply eof_ended_nonnil in H|].
    assert (H' : Kind t ≠ TEOF → eof_ended ts) by (by apply eof_ended_cons).
    simpl in Hf. destruct (Kind t) eqn:Ek; try (by apply fine_err).
    + assert (Hone : ∀ e, fine (length (t :: ts) - 1) (Ok (E := SyntaxError) (e : Expr, ts))).
      { intros e. split; [by apply H'|simpl; lia]. }
      repeat (destruct (String.eqb (Text t) _); [apply Hone|]).
      eapply fine_bind; [by apply parseRef_fine|]. intros r ts' He Hl. split; [done|simpl in *; lia].
    + split; [by apply H'|simpl; lia].
    + split; [by apply H'|simpl; lia].
    + specialize (H' ltac:(done)). pose proof (Hnn _ H').
      eapply fine_bind; [apply IHo; [done|lia]|]. intros e ts' He Hl.
      destruct ts' as [|rp ts']; [by apply eof_ended_nonnil in He|].
      case_decide as Hd; [|by apply fine_err]. simpl in Hl.
      split; [by apply (eof_ended_cons rp); [done|congruence]|simpl; lia].
Qed.

Lemma spelled_eof_ended n s ts : spelled n s ts → eof_ended ts.
Proof.
  induction 1 as [|c s ts _ _ IH|p rest t ts _ _ Ht _ _ IH]; [|done|].
  - by exists [], (MkToken TEOF "" n).
  - destruct IH as (body & e & -> & He & HF). exists (t :: body), e. by repeat split; [|constructor].
Qed.

Lemma Lex_eof_ended src ts : Lex src = Ok ts → eof_ended ts.
Proof. intros H%lexLoop_spelled. by eapply spelled_eof_ended. Qed.

Lemma finish_genuine {A} m (r : A * list Token) e :
  (∀ t, m t ≠ MFuel ∧ m t ≠ MPanic) → eof_ended r.2 → finish m r = Err e → genuine e.
Proof.
  unfold finish. intros Hm He. destruct (r.2) as [|t ts]; [by apply eof_ended_nonnil in He|].
  case_decide; [done|]. intros [= <-]. apply Hm.
Qed.

Lemma ParseExpr_genuine src e : ParseExpr src = Err e → genuine e.
Proof.
  unfold ParseExpr. intros [H|(toks & Hl & H)]%res_bind_err; [by eapply lexLoop_fuel; [|exact H]; lia|].
  pose proof (Lex_eof_ended _ _ Hl) as He.
  destruct (parse_fine (parseFuel toks)) as [Hp _].
  specialize (Hp toks He ltac:(unfold parseFuel; lia)).
  destruct (parseOr (parseFuel toks) toks) as [[x ts]|e'] eqn:Ep; simpl in H.
  - eapply finish_genuine; [| |exact H]; [done|]. apply Hp.
  - by injection H as <-.
Qed.

Lemma ParseRef_genuine src e : ParseRef src = Err e → genuine e.
Proof.
  unfold ParseRef. intros [H|(toks & Hl & H)]%res_bind_err; [by eapply lexLoop_fuel; [|exact H]; lia|].
  pose proof (Lex_eof_ended _ _ Hl) as He. pose proof (parseRef_fine _ He) as Hp.
  destruct (parseRef toks) as [[x ts]|e'] eqn:Ep; simpl in H.
  - eapply finish_genuine; [| |exact H]; [done|]. apply Hp.
  - by injection H as <-.
Qed.

(** ** More fuel changes nothing *)

Definition determined {A} (r : res SyntaxError A) : Prop :=
  match r with Ok _ => True | Err e => seMsg e ≠ MFuel end.

Lemma bind_mono {A B} (r r' : res SyntaxError A) (k k' : A → res SyntaxError B) :
  (determined r → r' = r) →
  (∀ a, determined (k a) → k' a = k a) →
  determined (res_bind r k) → res_bind r' k' = res_bind r k.
Proof. intros Hr Hk. destruct r as [a|e]; simpl; intros H; rewrite Hr by done; simpl; auto. Qed.

Ltac mono_step :=
  match goal with
  | |- determined (res_bind _ _) → _ => apply bind_mono; [by auto|intros [? ?]; cbv beta iota]
  | |- determined (match ?ts with _ => _ end) → _ => destruct ts; try done
  | |- determined (if ?b then _ else _) → _ => destruct b; try done
  end.

(** The defining equations of the parser, one unit of fuel deep. *)
Lemma parseOr_S f ts : parseOr (S f) ts = let? (l, ts) := parseAnd f ts in orLoop f l ts.
Proof. done. Qed.
Lemma orLoop_S f l ts :
  orLoop (S f) l ts =
  match ts with
  | [] => indexPanic
  | t :: ts' =>
      if decide (Kind t = TOr) then
        let? (r, ts) := parseAnd f ts' in orLoop f (OrExpr l r) ts
      else Ok (l, ts)
  end.
Proof. done. Qed.
Lemma parseAnd_S f ts : parseAnd (S f) ts = let? (l, ts) := parseUnary f ts in andLoop f l ts.
Proof. done. Qed.
Lemma andLoop_S f l ts :
  andLoop (S f) l ts =
  match ts with
  | [] => indexPanic
  | t :: ts' =>
      if decide (Kind t = TAnd) then
        let? (r, ts) := parseUnary f ts' in andLoop f (AndExpr l r) ts
      else Ok (l, ts)
  end.
Proof. done. Qed.
Lemma parseUnary_S f ts :
  parseUnary (S f) ts =
  match ts with
  | [] => indexPanic
  | t :: ts' =>
      if decide (Kind t = TNot) then
        let? (x, ts) := parseUnary f ts' in Ok (NotExpr x, ts)
      else parseComparison f ts
  end.
Proof. done. Qed.
Definition comparisonRest (f : nat) (l : Expr) (ts : list Token) : parsed Expr :=
  match ts with
  | [] => indexPanic
  | t :: ts' =>
      match cmpOpString (Kind t) with
      | Some op =>
          let? (r, ts) := parsePrimary f ts' in
          match ts with
          | [] => indexPanic
          | t' :: _ =>
              match cmpOpString (Kind t') with
              | Some _ => errAt t' MNonAssociative
              | None => Ok (CmpExpr op l r, ts)
              end
          end
      | None => Ok (l, ts)
      end
  end.
Lemma parseComparison_S f ts :
  parseComparison (S f) ts = let? (l, ts) := parsePrimary f ts in comparisonRest f l ts.
Proof. done. Qed.
Definition closeParen (e : Expr) (ts : list Token) : parsed Expr :=
  match ts with
  | [] => indexPanic
  | rp :: ts'' =>
      if decide (Kind rp = TRParen) then Ok (e, ts'') else errAt rp (MExpectedRParen rp)
  end.
Lemma parsePrimary_S f t ts :
  parsePrimary (S f) (t :: ts) =
  match Kind t with
  | TLParen => let? (e, ts) := parseOr f ts in closeParen e ts
  | TNumber => Ok (NumberLit (Text t), ts)
  | TString => Ok (StringLit (Text t), ts)
  | TIdent =>
      if String.eqb (Text t) "true" then Ok (BoolLit true, ts)
      else if String.eqb (Text t) "false" then Ok (BoolLit false, ts)
      else if String.eqb (Text t) "null" then Ok (NullLit, ts)
      else let? (r, ts) := parseRef (t :: ts) in Ok (RefExpr r, ts)
  | _ => errAt t (MExpectedPrimary t)
  end.
Proof. done. Qed.

Lemma parse_mono f :
  (∀ ts, determined (parseOr f ts) → parseOr (S f) ts = parseOr f ts) ∧
  (∀ l ts, determined (orLoop f l ts) → orLoop (S f) l ts = orLoop f l ts) ∧
  (∀ ts, determined (parseAnd f ts) → parseAnd (S f) ts = parseAnd f ts) ∧
  (∀ l ts, determined (andLoop f l ts) → andLoop (S f) l ts = andLoop f l ts) ∧
  (∀ ts, determined (parseUnary f ts) → parseUnary (S f) ts = parseUnary f ts) ∧
  (∀ ts, determined (parseComparison f ts) → parseComparison (S f) ts = parseComparison f ts) ∧
  (∀ ts, determined (parsePrimary f ts) → parsePrimary (S f) ts = parsePrimary f ts).
Proof.
  induction f as [|f (IHo & IHol & IHa & IHal & IHu & IHc & IHp)];
    [by repeat split; intros; exfalso|].
  repeat split.
  - intros ts. rewrite (parseOr_S (S f)), (parseOr_S f). mono_step. auto.
  - intros l ts. rewrite (orLoop_S (S f)), (orLoop_S f). repeat mono_step. auto.
  - intros ts. rewrite (parseAnd_S (S f)), (parseAnd_S f). mono_step. auto.
  - intros l ts. rewrite (andLoop_S (S f)), (andLoop_S f). repeat mono_step. auto.
  - intros ts. rewrite (parseUnary_S (S f)), (parseUnary_S f). destruct ts as [|t ts]; [done|].
    destruct (decide (Kind t = TNot)); [|auto]. by mono_step.
  - intros ts. rewrite (parseComparison_S (S f)), (parseComparison_S f). mono_step.
    unfold comparisonRest. destruct l as [|t l]; [done|]. destruct (cmpOpString (Kind t)); [|done].
    by mono_step.
  - intros ts. destruct ts as [|t ts]; [done|].
    rewrite (parsePrimary_S (S f)), (parsePrimary_S f). destruct (Kind t); try done. by mono_step.
Qed.

(** [ev p ts x]: with some fuel, [p] returns [x] on [ts]. *)
Definition ev {A} (p : nat → res SyntaxError A) (x : A) : Prop := ∃ f, p f = Ok x.

Definition mono {A} (p : nat → res SyntaxError A) : Prop :=
  ∀ f, determined (p f) → p (S f) = p f.

Lemma mono_le {A} (p : nat → res SyntaxError A) f f' :
  mono p → f ≤ f' → determined (p f) → p f' = p f.
Proof.
  intros Hm Hle Hd. induction Hle as [|f' Hle IH]; [done|].
  rewrite Hm; [done|]. by rewrite IH.
Qed.

Lemma ev_det {A} (p : nat → res SyntaxError A) f x :
  mono p → ev p x → determined (p f) → p f = Ok x.
Proof.
  intros Hm [f0 Hx] Hd.
  assert (Hd0 : determined (p f0)) by by rewrite Hx.
  destruct (Nat.le_ge_cases f f0) as [Hle|Hle].
  - rewrite <- Hx. symmetry. by apply mono_le.
  - rewrite <- Hx. by apply mono_le.
Qed.

Lemma ev_bind {A B} (p : nat → res SyntaxError A) (k : nat → A → res SyntaxError B) a b :
  mono p → (∀ a, mono (λ f, k f a)) →
  ev p a → ev (λ f, k f a) b → ev (λ f, res_bind (p f) (k f)) b.
Proof.
  intros Hp Hk [f1 H1] [f2 H2]. exists (f1 `max` f2).
  rewrite (mono_le p f1) by (try done; try lia; by rewrite H1). rewrite H1. simpl.
  rewrite (mono_le (λ f, k f a) f2); try done; [lia|by rewrite H2].
Qed.

Lemma ev_S {A} (p q : nat → res SyntaxError A) x :
  (∀ f, p (S f) = q f) → ev q x → ev p x.
Proof. intros H [f Hf]. exists (S f). by rewrite H. Qed.

Lemma mono_parseOr ts : mono (λ f, parseOr f ts).
Proof. intros f. apply parse_mono. Qed.
Lemma mono_orLoop l ts : mono (λ f, orLoop f l ts).
Proof. intros f. apply parse_mono. Qed.
Lemma mono_parseAnd ts : mono (λ f, parseAnd f ts).
Proof. intros f. apply parse_mono. Qed.
Lemma mono_andLoop l ts : mono (λ f, andLoop f l ts).
Proof. intros f. apply parse_mono. Qed.
Lemma mono_parseUnary ts : mono (λ f, parseUnary f ts).
Proof. intros f. apply parse_mono. Qed.
Lemma mono_parseComparison ts : mono (λ f, parseComparison f ts).
Proof. intros f. apply parse_mono. Qed.
Lemma mono_parsePrimary ts : mono (λ f, parsePrimary f ts).
Proof. intros f. apply parse_mono. Qed.
Lemma mono_const {A} (r : res SyntaxError A) : mono (λ _, r).
Proof. by intros f. Qed.

#[export] Hint Resolve mono_parseOr mono_orLoop mono_parseAnd mono_andLoop mono_parseUnary
  mono_parseComparison mono_parsePrimary : awf.

(** ** Printing an expression with the fewest parentheses *)

Definition level (e : Expr) : nat :=
  match e with
  | OrExpr _ _ => 0
  | AndExpr _ _ => 1
  | NotExpr _ | CmpExpr _ _ _ => 2
  | _ => 3
  end.

Definition tk (k : TokenKind) (s : string) : Token := MkToken k s 0.

Definition opKind (op : string) : TokenKind :=
  if String.eqb op "==" then TEq else if String.eqb op "!=" then TNeq
  else if String.eqb op "<" then TLt else if String.eqb op "<=" then TLe
  else if String.eqb op ">" then TGt else if String.eqb op ">=" then TGe else TEOF.

Definition segment_tokens (g : Segment) : list Token :=
  [tk TDot "."; if IsIndex g then tk TNumber (Itoa (Index g)) else tk TIdent (Ident g)].

Definition ref_tokens (r : Ref) : list Token :=
  match Segments r with
  | [] => []
  | g :: gs => tk TIdent (Ident g) :: concat (segment_tokens <$> gs)
  end.

Definition parens (b : bool) (ts : list Token) : list Token :=
  if b then [tk TLParen "("] ++ ts ++ [tk TRParen ")"] else ts.

(** [expr_tokens lvl e] prints [e] where the grammar expects a phrase of level [lvl]. *)
Fixpoint expr_tokens (lvl : nat) (e : Expr) : list Token :=
  parens (level e <? lvl)
    (match e with
     | OrExpr l r => expr_tokens 0 l ++ [tk TOr "||"] ++ expr_tokens 1 r
     | AndExpr l r => expr_tokens 1 l ++ [tk TAnd "&&"] ++ expr_tokens 2 r
     | NotExpr x => [tk TNot "!"] ++ expr_tokens 2 x
     | CmpExpr op l r => expr_tokens 3 l ++ [tk (opKind op) op] ++ expr_tokens 3 r
     | RefExpr r => ref_tokens r
     | StringLit s => [tk TString s]
     | NumberLit s => [tk TNumber s]
     | BoolLit b => [tk TIdent (if b then "true" else "false")]
     | NullLit => [tk TIdent "null"]
     end).

Definition PrintExpr (e : Expr) : string := spell_all (expr_tokens 0 e).

Definition keyword (s : string) : bool :=
  String.eqb s "true" || String.eqb s "false" || String.eqb s "null".

Definition segment_wf (g : Segment) : bool :=
  if IsIndex g then String.eqb (Ident g) "" && (0 <=? Index g)%Z && (Index g <? two63)%Z
  else ident_ok (Ident g) && (Index g =? 0)%Z.

Definition ref_wf (r : Ref) : bool :=
  match Segments r with
  | [] => false
  | g :: gs => negb (IsIndex g) && segment_wf g && negb (keyword (Ident g)) && forallb segment_wf gs
  end.

(** Expressions the grammar can produce. *)
Fixpoint expr_wf (e : Expr) : bool :=
  match e with
  | OrExpr l r | AndExpr l r => expr_wf l && expr_wf r
  | NotExpr x => expr_wf x
  | CmpExpr op l r => negb (bool_decide (opKind op = TEOF)) && expr_wf l && expr_wf r
  | RefExpr r => ref_wf r
  | NumberLit s => number_ok s
  | StringLit _ | BoolLit _ | NullLit => true
  end.

Definition strip_segment (g : Segment) : Segment := MkSegment (Ident g) (Index g) (IsIndex g) 0.
Definition strip_ref (r : Ref) : Ref := MkRef (strip_segment <$> Segments r).

(** Forget source positions. *)
Fixpoint strip (e : Expr) : Expr :=
  match e with
  | OrExpr l r => OrExpr (strip l) (strip r)
  | AndExpr l r => AndExpr (strip l) (strip r)
  | NotExpr x => NotExpr (strip x)
  | CmpExpr op l r => CmpExpr op (strip l) (strip r)
  | RefExpr r => RefExpr (strip_ref r)
  | e => e
  end.

(** *** The printed tokens can be spelled and scanned *)

Lemma Itoa_number_ok z : (0 ≤ z < two63)%Z → number_ok (Itoa z) = true.
Proof.
  intros Hz. destruct z as [|p|p]; [done| |lia].
  unfold Itoa. simpl Z.to_int. unfold NilZero.string_of_int. rewrite nz_uint_string_pos.
  assert (Hall : ∀ u, span_digits (NilEmpty.string_of_uint u) = (NilEmpty.string_of_uint u, "")).
  { induction u as [|u IH|u IH|u IH|u IH|u IH|u IH|u IH|u IH|u IH|u IH]; simpl; try done; by rewrite IH. }
  pose proof (uint_string_head (Pos.to_uint p)) as Hh. specialize (Hall (Pos.to_uint p)).
  destruct (NilEmpty.string_of_uint (Pos.to_uint p)) as [|c s] eqn:E.
  { by apply uint_string_nonempty in E. }
  unfold number_ok, lexNumber. rewrite Hh. simpl.
  destruct (Ascii.eqb_spec c "-") as [->|_]; [done|]. rewrite Hall. done.
Qed.

Lemma opKind_token op : opKind op ≠ TEOF → token_ok (tk (opKind op) op) = true ∧ cmpOpString (opKind op) = Some op.
Proof.
  unfold opKind. repeat case_goal; try done; intros _;
    match goal with H : String.eqb op _ = true |- _ => apply String.eqb_eq in H as -> end; done.
Qed.

Lemma ref_tokens_ok r : ref_wf r = true → forallb token_ok (ref_tokens r) = true.
Proof.
  destruct r as [[|g gs]]; [done|]. unfold ref_wf, ref_tokens. cbn [Segments].
  rewrite !andb_true_iff, !negb_true_iff. intros [[[Hi Hg] _] Hgs]. cbn [forallb].
  unfold segment_wf in Hg. rewrite Hi in Hg. apply andb_true_iff in Hg as [Hg _].
  apply andb_true_iff. split; [done|].
  induction gs as [|h gs IH]; [done|]. cbn [forallb] in Hgs. apply andb_true_iff in Hgs as [Hh Hgs].
  rewrite fmap_cons. cbn [concat]. rewrite forallb_app, (IH Hgs), andb_true_r.
  unfold segment_tokens, segment_wf in *. destruct (IsIndex h); cbn [forallb]; rewrite andb_true_r.
  - apply andb_true_iff in Hh as [[_ H1%Z.leb_le]%andb_true_iff H2%Z.ltb_lt].
    by apply Itoa_number_ok.
  - by apply andb_true_iff in Hh as [Hh _].
Qed.

Lemma parens_ok b ts : forallb token_ok (parens b ts) = forallb token_ok ts.
Proof.
  destruct b; [|done]. unfold parens. rewrite !forallb_app. cbn. by rewrite andb_true_r.
Qed.

Lemma expr_tokens_ok lvl e : expr_wf e = true → forallb token_ok (expr_tokens lvl e) = true.
Proof.
  revert lvl; induction e as [l IHl r IHr|l IHl r IHr|x IH|op l IHl r IHr|r|s|s|b|]; intros lvl;
    cbn [expr_wf expr_tokens]; rewrite parens_ok; rewrite ?forallb_app.
  - intros [Hl Hr]%andb_true_iff. by rewrite IHl, IHr.
  - intros [Hl Hr]%andb_true_iff. by rewrite IHl, IHr.
  - intros Hx. by rewrite IH.
  - intros [[Hop Hl]%andb_true_iff Hr]%andb_true_iff.
    apply negb_true_iff, bool_decide_eq_false in Hop.
    destruct (opKind_token op Hop) as [Ht _]. rewrite IHl, IHr by done.
    cbn [forallb]. by rewrite Ht.
  - apply ref_tokens_ok.
  - done.
  - intros H. cbn [forallb]. by rewrite andb_true_r.
  - by destruct b.
  - done.
Qed.

(** *** The parser inverts the printer on tokens *)

Definition kinds_of (ts : list Token) : list (TokenKind * string) := erase <$> ts.

Definition head_kind (ts : list Token) : option TokenKind := Kind <$> head ts.

(** What may follow a phrase for the parser to stop after it. *)
Definition follow3 (ts : list Token) : Prop := ∃ k, head_kind ts = Some k ∧ k ≠ TDot.
Definition follow2 (ts : list Token) : Prop :=
  ∃ k, head_kind ts = Some k ∧ k ≠ TDot ∧ cmpOpString k = None.
Definition follow1 (ts : list Token) : Prop :=
  ∃ k, head_kind ts = Some k ∧ k ≠ TDot ∧ cmpOpString k = None ∧ k ≠ TAnd.

Definition reads3 (e : Expr) : Prop :=
  ∀ ts rest, kinds_of ts = kinds_of (expr_tokens 3 e) → follow3 rest →
  ∃ e', strip e' = strip e ∧ ev (λ f, parsePrimary f (ts ++ rest)) (e', rest).
Definition reads2 (e : Expr) : Prop :=
  ∀ ts rest, kinds_of ts = kinds_of (expr_tokens 2 e) → follow2 rest →
  ∃ e', strip e' = strip e ∧ ev (λ f, parseUnary f (ts ++ rest)) (e', rest).
Definition reads1 (e : Expr) : Prop :=
  ∀ ts rest, kinds_of ts = kinds_of (expr_tokens 1 e) → follow2 rest →
  ∃ e', strip e' = strip e ∧
  ∀ x, ev (λ f, andLoop f e' rest) x → ev (λ f, parseAnd f (ts ++ rest)) x.
Definition reads0 (e : Expr) : Prop :=
  ∀ ts rest, kinds_of ts = kinds_of (expr_tokens 0 e) → follow1 rest →
  ∃ e', strip e' = strip e ∧
  ∀ x, ev (λ f, orLoop f e' rest) x → ev (λ f, parseOr f (ts ++ rest)) x.

Lemma kinds_app_inv ts a b :
  kinds_of ts = kinds_of (a ++ b) →
  ∃ ta tb, ts = ta ++ tb ∧ kinds_of ta = kinds_of a ∧ kinds_of tb = kinds_of b.
Proof.
  unfold kinds_of. rewrite fmap_app. intros H. apply fmap_app_inv in H as (ta & tb & H1 & H2 & ->).
  by exists ta, tb.
Qed.

Lemma kinds_cons_inv ts k s b :
  kinds_of ts = kinds_of (tk k s :: b) →
  ∃ t tb, ts = t :: tb ∧ Kind t = k ∧ Text t = s ∧ kinds_of tb = kinds_of b.
Proof.
  destruct ts as [|t ts]; [done|]. unfold kinds_of. rewrite !fmap_cons.
  intros [= H1 H2 H3]. by exists t, ts.
Qed.

Lemma ev_const {A} (x : A) : ev (λ _, Ok x) x.
Proof. by exists 0. Qed.

Lemma reads3_reads2 e : expr_tokens 2 e = expr_tokens 3 e → reads3 e → reads2 e.
Proof.
  intros Heq H ts rest Hts (k & Hk & Hd & Hc). rewrite Heq in Hts.
  destruct (H ts rest Hts) as (e' & He & Hev); [by exists k|].
  exists e'. split; [done|].
  apply (ev_S _ (λ f, match ts ++ rest with
                      | [] => indexPanic
                      | t :: ts' => if decide (Kind t = TNot)
                          then let? (x, ts) := parseUnary f ts' in Ok (NotExpr x, ts)
                          else parseComparison f (ts ++ rest)
                      end)); [intros f; apply parseUnary_S|].
  assert (Hnot : ∃ t ts', ts ++ rest = t :: ts' ∧ Kind t ≠ TNot).
  { destruct Hev as [[|f] Hf]; [done|]. destruct (ts ++ rest) as [|t ts']; [done|].
    rewrite parsePrimary_S in Hf. exists t, ts'. split; [done|]. intros E. by rewrite E in Hf. }
  destruct Hnot as (t & ts' & E & Hnt). rewrite E.
  destruct (decide (Kind t = TNot)) as [?|_]; [done|]. rewrite <- E.
  apply (ev_S _ (λ f, let? (l, ts) := parsePrimary f (ts ++ rest) in comparisonRest f l ts));
    [intros f; apply parseComparison_S|].
  destruct Hev as [f Hf]. exists f. rewrite Hf. simpl. unfold comparisonRest.
  destruct rest as [|r rest]; [done|]. injection Hk as <-. by rewrite Hc.
Qed.

Lemma reads2_reads1 e : expr_tokens 1 e = expr_tokens 2 e → reads2 e → reads1 e.
Proof.
  intros Heq H ts rest Hts Hf. rewrite Heq in Hts. destruct (H ts rest Hts Hf) as (e' & He & Hev).
  exists e'. split; [done|]. intros x Hx.
  apply (ev_S _ (λ f, res_bind (parseUnary f (ts ++ rest)) (λ '(l, ts), andLoop f l ts)));
    [intros f; apply parseAnd_S|].
  apply (ev_bind _ (λ f '(l, ts), andLoop f l ts) (e', rest)); auto with awf.
  intros [l ts']. apply mono_andLoop.
Qed.

Lemma orLoop_stop e rest k :
  head_kind rest = Some k → k ≠ TOr → ev (λ f, orLoop f e rest) (e, rest).
Proof.
  intros Hk Hne. exists 1. rewrite orLoop_S. destruct rest as [|t rest]; [done|].
  injection Hk as Hk. by rewrite decide_False by congruence.
Qed.

Lemma andLoop_stop e rest k :
  head_kind rest = Some k → k ≠ TAnd → ev (λ f, andLoop f e rest) (e, rest).
Proof.
  intros Hk Hne. exists 1. rewrite andLoop_S. destruct rest as [|t rest]; [done|].
  injection Hk as Hk. by rewrite decide_False by congruence.
Qed.

Lemma reads1_parseAnd e ts rest :
  reads1 e → kinds_of ts = kinds_of (expr_tokens 1 e) → follow1 rest →
  ∃ e', strip e' = strip e ∧ ev (λ f, parseAnd f (ts ++ rest)) (e', rest).
Proof.
  intros H Hts (k & Hk & Hd & Hc & Ha). destruct (H ts rest Hts) as (e' & He & Hev); [by exists k|].
  exists e'. split; [done|]. apply Hev. by eapply andLoop_stop.
Qed.

Lemma reads1_reads0 e : expr_tokens 0 e = expr_tokens 1 e → reads1 e → reads0 e.
Proof.
  intros Heq H ts rest Hts Hf. rewrite Heq in Hts.
  destruct (reads1_parseAnd e ts rest H Hts Hf) as (e' & He & Hev).
  exists e'. split; [done|]. intros x Hx.
  apply (ev_S _ (λ f, res_bind (parseAnd f (ts ++ rest)) (λ '(l, ts), orLoop f l ts)));
    [intros f; apply parseOr_S|].
  apply (ev_bind _ (λ f '(l, ts), orLoop f l ts) (e', rest)); auto with awf.
  intros [l ts']. apply mono_orLoop.
Qed.

Lemma reads0_parens e :
  expr_tokens 3 e = [tk TLParen "("] ++ expr_tokens 0 e ++ [tk TRParen ")"] → reads0 e → reads3 e.
Proof.
  intros Heq H ts rest Hts _. rewrite Heq in Hts.
  apply kinds_cons_inv in Hts as (lp & ts0 & -> & Hlp & _ & Hts).
  apply kinds_app_inv in Hts as (tse & trp & -> & Htse & Htrp).
  apply kinds_cons_inv in Htrp as (rp & tn & -> & Hrp & _ & Htn).
  destruct tn; [|done]. rewrite <- app_comm_cons, <- app_assoc. cbn [app].
  destruct (H tse (rp :: rest) Htse) as (e' & He & Hev).
  { exists TRParen. unfold head_kind. cbn. by rewrite Hrp. }
  exists e'. split; [done|].
  apply (ev_S _ (λ f, res_bind (parseOr f (tse ++ rp :: rest)) (λ '(e, ts), closeParen e ts))).
  { intros f. rewrite parsePrimary_S, Hlp. done. }
  apply (ev_bind _ (λ f '(e, ts), closeParen e ts) (e', rp :: rest)); auto with awf.
  - intros [x ts]. apply mono_const.
  - apply Hev, (orLoop_stop _ _ TRParen); [|done]. unfold head_kind. cbn. by rewrite Hrp.
  - unfold closeParen. rewrite decide_True by done. apply ev_const.
Qed.

(** All four readings of a phrase follow from the one at its own level. *)
Definition reads (e : Expr) : Prop := reads0 e ∧ reads1 e ∧ reads2 e ∧ reads3 e.

Lemma tokens_paren lvl e : level e < lvl →
  expr_tokens lvl e = [tk TLParen "("] ++ expr_tokens 0 e ++ [tk TRParen ")"].
Proof.
  intros H. destruct e; cbn [expr_tokens level] in *;
    apply Nat.ltb_lt in H as ->; done.
Qed.

Lemma tokens_plain lvl e : lvl ≤ level e → expr_tokens lvl e = expr_tokens 0 e.
Proof.
  intros H. destruct e; cbn [expr_tokens level] in *; apply Nat.ltb_ge in H as ->; done.
Qed.

Lemma tokens_same a b e : a ≤ level e → b ≤ level e → expr_tokens a e = expr_tokens b e.
Proof. intros Ha Hb. by rewrite (tokens_plain a), (tokens_plain b). Qed.

Lemma tokens_same_paren a b e : level e < a → level e < b → expr_tokens a e = expr_tokens b e.
Proof. intros Ha Hb. by rewrite (tokens_paren a), (tokens_paren b). Qed.

Lemma reads_from3 e : level e = 3 → reads3 e → reads e.
Proof.
  intros Hl H3.
  assert (H2 : reads2 e) by (apply reads3_reads2; [apply tokens_same; lia|done]).
  assert (H1 : reads1 e) by (apply reads2_reads1; [apply tokens_same; lia|done]).
  assert (H0 : reads0 e) by (apply reads1_reads0; [apply tokens_same; lia|done]).
  done.
Qed.

Lemma reads_from2 e : level e = 2 → reads2 e → reads e.
Proof.
  intros Hl H2.
  assert (H1 : reads1 e) by (apply reads2_reads1; [apply tokens_same; lia|done]).
  assert (H0 : reads0 e) by (apply reads1_reads0; [apply tokens_same; lia|done]).
  assert (H3 : reads3 e) by (apply reads0_parens; [by rewrite tokens_paren by lia|done]).
  done.
Qed.

Lemma reads_from1 e : level e = 1 → reads1 e → reads e.
Proof.
  intros Hl H1.
  assert (H0 : reads0 e) by (apply reads1_reads0; [apply tokens_same; lia|done]).
  assert (H3 : reads3 e) by (apply reads0_parens; [by rewrite tokens_paren by lia|done]).
  assert (H2 : reads2 e) by (apply reads3_reads2; [apply tokens_same_paren; lia|done]).
  done.
Qed.

Lemma reads_from0 e : level e = 0 → reads0 e → reads e.
Proof.
  intros Hl H0.
  assert (H3 : reads3 e) by (apply reads0_parens; [by rewrite tokens_paren by lia|done]).
  assert (H2 : reads2 e) by (apply reads3_reads2; [apply tokens_same_paren; lia|done]).
  assert (H1 : reads1 e) by (apply reads2_reads1; [apply tokens_same_paren; lia|done]).
  done.
Qed.

Lemma parseSegments_tokens gs ts rest acc :
  forallb segment_wf gs = true →
  kinds_of ts = kinds_of (concat (segment_tokens <$> gs)) → follow3 rest →
  ∃ gs', strip_segment <$> gs' = strip_segment <$> gs ∧
         parseSegments acc (ts ++ rest) = Ok (acc ++ gs', rest).
Proof.
  revert ts acc; induction gs as [|g gs IH]; intros ts acc Hw Hts Hf.
  - destruct ts; [|done]. exists []. split; [done|]. cbn [app]. rewrite app_nil_r.
    destruct Hf as (k & Hk & Hd). destruct rest as [|t rest]; [done|]. injection Hk as <-.
    cbn [parseSegments]. by rewrite decide_False.
  - cbn [forallb] in Hw. apply andb_true_iff in Hw as [Hg Hw].
    rewrite fmap_cons in Hts. cbn [concat] in Hts. unfold segment_tokens in Hts at 1.
    apply kinds_cons_inv in Hts as (d & ts1 & -> & Hd & _ & Hts).
    unfold segment_wf in Hg. destruct (IsIndex g) eqn:Ei.
    + apply kinds_cons_inv in Hts as (t & ts2 & -> & Ht & Hx & Hts).
      apply andb_true_iff in Hg as [[Hid%String.eqb_eq H1%Z.leb_le]%andb_true_iff H2%Z.ltb_lt].
      destruct (IH ts2 (acc ++ [indexSegment (Index g) (Pos t)]) Hw Hts Hf) as (gs' & He & Hp).
      exists (indexSegment (Index g) (Pos t) :: gs'). split.
      * rewrite !fmap_cons, He. f_equal. unfold strip_segment, indexSegment. cbn. by rewrite Hid, Ei.
      * cbn [app parseSegments]. rewrite (decide_True _ _ Hd), Ht, Hx, ParseInt_Itoa.
        -- apply Z.ltb_ge in H1 as ->. rewrite Hp. by rewrite <- app_assoc.
        -- unfold in_i64. apply andb_true_iff. split; [apply Z.leb_le|apply Z.ltb_lt]; unfold two63 in *; lia.
    + apply kinds_cons_inv in Hts as (t & ts2 & -> & Ht & Hx & Hts).
      apply andb_true_iff in Hg as [_ Hix%Z.eqb_eq].
      destruct (IH ts2 (acc ++ [identSegment (Ident g) (Pos t)]) Hw Hts Hf) as (gs' & He & Hp).
      exists (identSegment (Ident g) (Pos t) :: gs'). split.
      * rewrite !fmap_cons, He. f_equal. unfold strip_segment, identSegment. cbn. by rewrite Hix, Ei.
      * cbn [app parseSegments]. rewrite (decide_True _ _ Hd), Ht, Hx, Hp. by rewrite <- app_assoc.
Qed.

Lemma reads3_token e t0 :
  expr_tokens 3 e = [t0] →
  (∀ t f ts, Kind t = Kind t0 → Text t = Text t0 → parsePrimary (S f) (t :: ts) = Ok (e, ts)) →
  reads3 e.
Proof.
  intros Heq Hp ts rest Hts _. rewrite Heq in Hts. destruct t0 as [k s p].
  destruct ts as [|t [|]]; try done. injection Hts as Hk Hs.
  exists e. split; [done|]. exists 1. by apply Hp.
Qed.

Lemma reads3_ref r : ref_wf r = true → reads3 (RefExpr r).
Proof.
  destruct r as [[|g gs]]; [done|]. unfold ref_wf. cbn [Segments].
  rewrite !andb_true_iff, !negb_true_iff. intros [[[Hi Hg] Hk] Hgs] ts rest Hts Hf.
  change (expr_tokens 3 (RefExpr (MkRef (g :: gs)))) with
    (tk TIdent (Ident g) :: concat (segment_tokens <$> gs)) in Hts.
  apply kinds_cons_inv in Hts as (t & ts' & -> & Ht & Hx & Hts).
  destruct (parseSegments_tokens gs ts' rest [identSegment (Text t) (Pos t)] Hgs Hts Hf)
    as (gs' & He & Hp).
  exists (RefExpr (MkRef (identSegment (Text t) (Pos t) :: gs'))). split.
  - cbn [strip]. unfold strip_ref. cbn [Segments]. rewrite !fmap_cons, He. do 3 f_equal.
    unfold segment_wf in Hg. rewrite Hi in Hg. apply andb_true_iff in Hg as [_ Hix%Z.eqb_eq].
    unfold strip_segment, identSegment. cbn. by rewrite Hx, Hix, Hi.
  - exists 1. unfold keyword in Hk. apply orb_false_iff in Hk as [[H1 H2]%orb_false_iff H3].
    cbn [app]. rewrite parsePrimary_S, Ht, Hx, H1, H2, H3. unfold parseRef.
    rewrite (decide_True _ _ Ht). cbn [app] in Hp. rewrite Hp. cbn. by rewrite Hx.
Qed.

Lemma follow2_of k t rest : Kind t = k → k ≠ TDot → cmpOpString k = None → follow2 (t :: rest).
Proof. intros <- H1 H2. by exists (Kind t). Qed.

Lemma follow1_of k t rest :
  Kind t = k → k ≠ TDot → cmpOpString k = None → k ≠ TAnd → follow1 (t :: rest).
Proof. intros <- H1 H2 H3. by exists (Kind t). Qed.

Lemma follow3_of k t rest : Kind t = k → k ≠ TDot → follow3 (t :: rest).
Proof. intros <- H1. by exists (Kind t). Qed.

Lemma follow2_3 rest : follow2 rest → follow3 rest.
Proof. intros (k & H1 & H2 & H3). by exists k. Qed.
Lemma follow1_2 rest : follow1 rest → follow2 rest.
Proof. intros (k & H1 & H2 & H3 & _). by exists k. Qed.

#[export] Hint Resolve follow2_3 follow1_2 : awf.

Lemma reads0_or l r : reads l → reads r → reads0 (OrExpr l r).
Proof.
  intros (Hl & _) (_ & Hr & _) ts rest Hts Hf.
  change (expr_tokens 0 (OrExpr l r)) with (expr_tokens 0 l ++ [tk TOr "||"] ++ expr_tokens 1 r) in Hts.
  apply kinds_app_inv in Hts as (tl & ts' & -> & Htl & Hts).
  apply kinds_cons_inv in Hts as (t & tr & -> & Ht & _ & Htr).
  destruct (Hl tl (t :: tr ++ rest) Htl) as (l' & El & Kl); [by apply (follow1_of TOr)|].
  destruct (reads1_parseAnd r tr rest Hr Htr Hf) as (r' & Er & Kr).
  exists (OrExpr l' r'). split; [cbn; by rewrite El, Er|]. intros x Hx.
  rewrite <- app_assoc. cbn [app]. apply Kl.
  apply (ev_S _ (λ f, res_bind (parseAnd f (tr ++ rest)) (λ '(r, ts), orLoop f (OrExpr l' r) ts))).
  { intros f. rewrite orLoop_S. by rewrite (decide_True _ _ Ht). }
  apply (ev_bind _ (λ f '(r, ts), orLoop f (OrExpr l' r) ts) (r', rest)); auto with awf.
  intros [l0 ts0]. apply mono_orLoop.
Qed.

Lemma reads1_and l r : reads l → reads r → reads1 (AndExpr l r).
Proof.
  intros (_ & Hl & _) (_ & _ & Hr & _) ts rest Hts Hf.
  change (expr_tokens 1 (AndExpr l r)) with (expr_tokens 1 l ++ [tk TAnd "&&"] ++ expr_tokens 2 r) in Hts.
  apply kinds_app_inv in Hts as (tl & ts' & -> & Htl & Hts).
  apply kinds_cons_inv in Hts as (t & tr & -> & Ht & _ & Htr).
  destruct (Hl tl (t :: tr ++ rest) Htl) as (l' & El & Kl); [by apply (follow2_of TAnd)|].
  destruct (Hr tr rest Htr Hf) as (r' & Er & Kr).
  exists (AndExpr l' r'). split; [cbn; by rewrite El, Er|]. intros x Hx.
  rewrite <- app_assoc. cbn [app]. apply Kl.
  apply (ev_S _ (λ f, res_bind (parseUnary f (tr ++ rest)) (λ '(r, ts), andLoop f (AndExpr l' r) ts))).
  { intros f. rewrite andLoop_S. by rewrite (decide_True _ _ Ht). }
  apply (ev_bind _ (λ f '(r, ts), andLoop f (AndExpr l' r) ts) (r', rest)); auto with awf.
  intros [l0 ts0]. apply mono_andLoop.
Qed.

Lemma reads2_not x : reads x → reads2 (NotExpr x).
Proof.
  intros (_ & _ & Hx & _) ts rest Hts Hf.
  change (expr_tokens 2 (NotExpr x)) with (tk TNot "!" :: expr_tokens 2 x) in Hts.
  apply kinds_cons_inv in Hts as (t & tx & -> & Ht & _ & Htx).
  destruct (Hx tx rest Htx Hf) as (x' & Ex & Kx).
  exists (NotExpr x'). split; [cbn; by rewrite Ex|]. cbn [app].
  apply (ev_S _ (λ f, res_bind (parseUnary f (tx ++ rest)) (λ '(x, ts), Ok (NotExpr x, ts)))).
  { intros f. rewrite parseUnary_S. by rewrite (decide_True _ _ Ht). }
  destruct Kx as [f Hfx]. exists f. by rewrite Hfx.
Qed.

Lemma reads2_cmp op l r : opKind op ≠ TEOF → reads l → reads r → reads2 (CmpExpr op l r).
Proof.
  intros Hop (_ & _ & _ & Hl) (_ & _ & _ & Hr) ts rest Hts Hf.
  destruct (opKind_token op Hop) as [_ Hc].
  change (expr_tokens 2 (CmpExpr op l r)) with
    (expr_tokens 3 l ++ [tk (opKind op) op] ++ expr_tokens 3 r) in Hts.
  apply kinds_app_inv in Hts as (tl & ts' & -> & Htl & Hts).
  apply kinds_cons_inv in Hts as (t & tr & -> & Ht & _ & Htr).
  assert (Hnd : opKind op ≠ TDot) by by intros E; rewrite E in Hc.
  destruct (Hl tl (t :: tr ++ rest) Htl) as (l' & El & Kl); [by apply (follow3_of (opKind op))|].
  destruct (Hr tr rest Htr) as (r' & Er & Kr); [by apply follow2_3|].
  exists (CmpExpr op l' r'). split; [cbn; by rewrite El, Er|].
  rewrite <- app_assoc. cbn [app].
  assert (Hnot : ∀ u, ev (λ f, parseComparison f u) (CmpExpr op l' r', rest) →
                      ev (λ f, parsePrimary f u) (l', t :: tr ++ rest) →
                      ev (λ f, parseUnary f u) (CmpExpr op l' r', rest)).
  { intros u [f Hcmp] [[|f'] Hu]; [done|]. destruct u as [|h u]; [done|].
    rewrite parsePrimary_S in Hu. exists (S f). rewrite parseUnary_S.
    rewrite decide_False; [done|]. intros E. by rewrite E in Hu. }
  apply Hnot; [|done].
  apply (ev_S _ (λ f, res_bind (parsePrimary f (tl ++ t :: tr ++ rest)) (λ '(l, ts), comparisonRest f l ts)));
    [intros f; apply parseComparison_S|].
  apply (ev_bind _ (λ f '(l, ts), comparisonRest f l ts) (l', t :: tr ++ rest)); auto with awf.
  - intros [l0 ts0] f. unfold comparisonRest. destruct ts0 as [|t0 ts0]; [done|].
    destruct (cmpOpString (Kind t0)); [|done]. apply bind_mono; [apply mono_parsePrimary|done].
  - unfold comparisonRest. rewrite Ht, Hc. destruct Kr as [f Hfr]. exists f. rewrite Hfr. simpl.
    destruct Hf as (k & Hk & _ & Hck). destruct rest as [|h rest]; [done|]. injection Hk as <-.
    by rewrite Hck.
Qed.

Lemma reads_all e : expr_wf e = true → reads e.
Proof.
  induction e as [l IHl r IHr|l IHl r IHr|x IH|op l IHl r IHr|r|s|s|b|]; cbn [expr_wf]; intros Hw.
  - apply andb_true_iff in Hw as [Hl Hr]. apply reads_from0; [done|]. apply reads0_or; auto.
  - apply andb_true_iff in Hw as [Hl Hr]. apply reads_from1; [done|]. apply reads1_and; auto.
  - apply reads_from2; [done|]. apply reads2_not; auto.
  - apply andb_true_iff in Hw as [[Hop Hl]%andb_true_iff Hr].
    apply negb_true_iff, bool_decide_eq_false in Hop.
    apply reads_from2; [done|]. apply reads2_cmp; auto.
  - apply reads_from3; [done|]. by apply reads3_ref.
  - apply reads_from3; [done|]. apply (reads3_token _ (tk TString s)); [done|].
    intros t f ts Hk Hs. rewrite parsePrimary_S, Hk, Hs. done.
  - apply reads_from3; [done|]. apply (reads3_token _ (tk TNumber s)); [done|].
    intros t f ts Hk Hs. rewrite parsePrimary_S, Hk, Hs. done.
  - apply reads_from3; [done|]. apply (reads3_token _ (tk TIdent (if b then "true" else "false"))); [done|].
    intros t f ts Hk Hs. rewrite parsePrimary_S, Hk, Hs. by destruct b.
  - apply reads_from3; [done|]. apply (reads3_token _ (tk TIdent "null")); [done|].
    intros t f ts Hk Hs. rewrite parsePrimary_S, Hk, Hs. done.
Qed.

Lemma Lex_spell_all ts :
  forallb token_ok ts = true →
  ∃ ts' e, Lex (spell_all ts) = Ok (ts' ++ [e]) ∧ kinds_of ts' = kinds_of ts ∧ Kind e = TEOF.
Proof.
  intros H.
  destruct (lexLoop_spell (S (slen (spell_all ts))) (slen (spell_all ts)) ts H) as (ts' & Hl & He); [lia|].
  by exists ts', (MkToken TEOF "" (slen (spell_all ts))).
Qed.

Lemma ParseExpr_PrintExpr e :
  expr_wf e = true → ∃ e', ParseExpr (PrintExpr e) = Ok e' ∧ strip e' = strip e.
Proof.
  intros Hw. destruct (Lex_spell_all _ (expr_tokens_ok 0 e Hw)) as (ts & eof & Hl & Hk & He).
  destruct (reads_all e Hw) as (H0 & _).
  destruct (H0 ts [eof] Hk) as (e' & Hs & Hev); [by apply (follow1_of TEOF)|].
  exists e'. split; [|done]. unfold ParseExpr, PrintExpr. rewrite Hl. cbn [res_bind].
  rewrite (ev_det (λ f, parseOr f (ts ++ [eof])) (parseFuel (ts ++ [eof])) (e', [eof])).
  - cbn [res_bind]. unfold finish. cbn [snd fst]. by rewrite decide_True.
  - apply mono_parseOr.
  - apply Hev, (orLoop_stop _ _ TEOF); [|done]. unfold head_kind. cbn. by rewrite He.
  - destruct (parse_fine (parseFuel (ts ++ [eof]))) as [Hp _].
    specialize (Hp (ts ++ [eof]) (Lex_eof_ended _ _ Hl) ltac:(unfold parseFuel; lia)).
    destruct (parseOr _ _) as [[x y]|err]; [done|]. by destruct Hp.
Qed.

(** ** The properties *)

(** C35: the parser reads back what the grammar writes. [PrintExpr] spells an expression with the
    parentheses the precedence levels require and no others; parsing it gives the expression back,
    up to the source offsets recorded in its segments.  So [||] and [&&] associate to the left, [&&]
    binds tighter than [||], [!] applies to the whole comparison that follows it, and comparisons do
    not associate. *)
Theorem ParseExpr_roundtrip e :
  expr_wf e = true → ∃ e', ParseExpr (PrintExpr e) = Ok e' ∧ strip e' = strip e.
Proof. apply ParseExpr_PrintExpr. Qed.

Definition ex_expr : Expr :=
  AndExpr (OrExpr (NotExpr (BoolLit true)) (RefExpr (MkRef [identSegment "a" 0; indexSegment 3 0])))
          (CmpExpr "<=" (NumberLit "1.5") (StringLit "it's")).

Lemma ParseExpr_roundtrip_witness :
  ∃ e', ParseExpr (PrintExpr ex_expr) = Ok e' ∧ strip e' = strip ex_expr.
Proof. apply ParseExpr_roundtrip. vm_compute. reflexivity. Defined.

(** parsing is total. [ParseExpr] and [ParseRef] never read past the end of the token stream and
    never recurse without consuming: every failure is a genuine syntax error of the source. *)
Theorem parse_total src e :
  ParseExpr src = Err e ∨ ParseRef src = Err e → seMsg e ≠ MFuel ∧ seMsg e ≠ MPanic.
Proof. intros [H|H]; [by apply (ParseExpr_genuine src)|by apply (ParseRef_genuine src)]. Qed.

Lemma parse_total_witness : MExpectedPrimary (MkToken TEOF "" 4) ≠ MFuel ∧ MExpectedPrimary (MkToken TEOF "" 4) ≠ MPanic.
Proof. apply (parse_total "a ==" (MkSyntaxError 4 (MExpectedPrimary (MkToken TEOF "" 4)))). left. reflexivity. Defined.
