(* ===== verification/TmplSlots.v ===== *)
(** * template/slots.go: the [{{ ... }}] slots of a host string

    [scan] is the scanner shared by validation ([Slots]) and rendering (Substitute): it returns the
    slots and the offsets of the backslashes that escape an opener.  The second half states what the
    scanner recognises: a host string is a sequence of pieces (literal text, an escaped opener, a
    slot) and [scan] returns exactly the positions of the slots and escapes of the canonical
    decomposition ([scan_pieces], [scan_flatten]). *)

From S2P Require Import Prelude GoNum TmplLexer.

Definition slotOpen : string := "{{".
Definition slotClose : string := "}}".

Record Slot : Type := MkSlot { slStart : nat; slEnd : nat; slInner : string }.

(** The loop of [scan] from byte offset [i]; [fuel] bounds the number of openers still ahead. *)
Fixpoint scanLoop (fuel : nat) (src : string) (i : nat) : res SyntaxError (list Slot * list nat) :=
  match fuel with
  | O => Err (MkSyntaxError 0 MFuel)
  | S f =>
      if (i <? slen src)%nat then
        match strIndex (sdrop i src) slotOpen with
        | None => Ok ([], [])
        | Some j =>
            let start := (i + j)%nat in
            if (0 <? start)%nat && bool_decide (sget src (start - 1) = Some backslash) then
              let? (slots, escapes) := scanLoop f src (start + slen slotOpen) in
              Ok (slots, (start - 1)%nat :: escapes)
            else
              let innerStart := (start + slen slotOpen)%nat in
              match strIndex (sdrop innerStart src) slotClose with
              | None => Err (MkSyntaxError start MUnterminatedSlot)
              | Some k =>
                  let inner := sslice src innerStart (innerStart + k) in
                  if strContains inner slotOpen then Err (MkSyntaxError start MNestedSlot)
                  else
                    let end_ := (innerStart + k + slen slotClose)%nat in
                    let? (slots, escapes) := scanLoop f src end_ in
                    Ok (MkSlot start end_ inner :: slots, escapes)
              end
        end
      else Ok ([], [])
  end.

Definition scan (src : string) : res SyntaxError (list Slot * list nat) :=
  scanLoop (S (slen src)) src 0.

Definition Slots (src : string) : res SyntaxError (list Slot) := res_map fst (scan src).

Example slots_ex :
  scan "a {{x}} \{{y}}{{ z }}" =
  Ok ([MkSlot 2 7 "x"; MkSlot 14 21 " z "], [8%nat]).
Proof. reflexivity. Qed.
Example slots_nested : Slots "{{ {{ a }} }}" = Err (MkSyntaxError 0 MNestedSlot).
Proof. reflexivity. Qed.
Example slots_open : Slots "x{{{{" = Err (MkSyntaxError 1 MUnterminatedSlot).
Proof. reflexivity. Qed.

(** ** The pieces of a host string *)

Inductive piece : Type :=
  | PText (s : string)       (* literal text *)
  | PEscape                  (* a backslash and an opener: a literal opener *)
  | PSlot (inner : string).  (* an opener, [inner], a closer *)

Definition spell_piece (p : piece) : string :=
  match p with
  | PText s => s
  | PEscape => String backslash slotOpen
  | PSlot i => slotOpen +:+ i +:+ slotClose
  end.

Fixpoint flatten (ps : list piece) : string :=
  match ps with [] => "" | p :: ps => spell_piece p +:+ flatten ps end.

(** The slots and the escape offsets of the pieces, the first piece starting at offset [n]. *)
Fixpoint piece_slots (n : nat) (ps : list piece) : list Slot :=
  match ps with
  | [] => []
  | p :: ps =>
      let m := (n + slen (spell_piece p))%nat in
      match p with PSlot i => MkSlot n m i :: piece_slots m ps | _ => piece_slots m ps end
  end.

Fixpoint piece_escapes (n : nat) (ps : list piece) : list nat :=
  match ps with
  | [] => []
  | p :: ps =>
      let m := (n + slen (spell_piece p))%nat in
      match p with PEscape => n :: piece_escapes m ps | _ => piece_escapes m ps end
  end.

(** The last byte of a string. *)
Fixpoint slast (s : string) : option ascii :=
  match s with "" => None | String c "" => Some c | String _ s => slast s end.

Definition brace : ascii := "{".
Definition closebrace : ascii := "}".

(** A canonical decomposition: text holds no opener, is merged with its neighbours, and neither
    completes nor escapes the opener of the slot that follows it; a slot's text holds no opener and
    ends at its first closer. *)
Definition text_ok (s : string) (ps : list piece) : bool :=
  negb (String.eqb s "") && negb (strContains s slotOpen) &&
  match ps with
  | PText _ :: _ => false
  | PSlot _ :: _ => bool_decide (slast s ≠ Some brace) && bool_decide (slast s ≠ Some backslash)
  | _ => true
  end.

Definition inner_ok (i : string) : bool :=
  negb (strContains i slotOpen) && negb (strContains i slotClose) &&
  bool_decide (slast i ≠ Some closebrace).

Fixpoint canonical (ps : list piece) : bool :=
  match ps with
  | [] => true
  | PText s :: ps => text_ok s ps && canonical ps
  | PEscape :: ps => canonical ps
  | PSlot i :: ps => inner_ok i && canonical ps
  end.

(** ** Leftmost occurrences of a doubled byte *)

Lemma slast_snoc s c : slast (s +:+ String c "") = Some c.
Proof. induction s as [|a s IH]; [done|]. simpl. rewrite IH. by destruct (s +:+ _) eqn:E; [destruct s|]. Qed.

Lemma slast_app s t : t ≠ "" → slast (s +:+ t) = slast t.
Proof.
  intros Ht. induction s as [|a s IH]; [done|]. simpl. rewrite IH.
  destruct (s +:+ t) eqn:E; [|done]. by destruct s, t.
Qed.

Lemma sget_slast s u : s ≠ "" → sget (s +:+ u) (slen s - 1) = slast s.
Proof.
  unfold sget. induction s as [|c s IH]; [done|]. intros _. destruct s as [|c' s]; [done|].
  change (slast (String c (String c' s))) with (slast (String c' s)). rewrite <- IH by done.
  simpl. by rewrite Nat.sub_0_r.
Qed.

Section double.
Context (d : ascii).
Let dd : string := String d (String d "").

Lemma prefix_dd_app t u v : t = dd +:+ v → String.prefix dd (t +:+ u) = true.
Proof. intros ->. apply prefix_spec. exists (v +:+ u). by rewrite sapp_assoc. Qed.

Lemma strIndex_double_split s n :
  strIndex s dd = Some n →
  ∃ t u, s = t +:+ dd +:+ u ∧ slen t = n ∧ strIndex t dd = None ∧ slast t ≠ Some d.
Proof.
  revert n; induction s as [|c s IH]; intros n; [done|]. cbn [strIndex].
  destruct (String.prefix dd (String c s)) eqn:E.
  - intros [= <-]. apply prefix_spec in E as [u Hu]. by exists "", u.
  - destruct (strIndex s dd) as [k|] eqn:Ek; [|done]. intros [= <-].
    destruct (IH k eq_refl) as (t & u & -> & Hl & Hn & Hd).
    exists (String c t), u. split; [done|]. split; [by simpl; rewrite Hl|]. split.
    + cbn [strIndex]. rewrite Hn. destruct (String.prefix dd (String c t)) eqn:E2; [|done].
      apply prefix_spec in E2 as [v Hv].
      pose proof (prefix_dd_app (String c t) (dd +:+ u) v Hv) as E3.
      change (String.prefix dd (String c (t +:+ dd +:+ u)) = true) in E3. congruence.
    + destruct t as [|c' t]; [|exact Hd]. intros [= ->].
      change (String.prefix dd (dd +:+ String d u) = false) in E. by rewrite prefix_app in E.
Qed.

Lemma strIndex_double_app t u :
  strIndex t dd = None → slast t ≠ Some d → strIndex (t +:+ dd +:+ u) dd = Some (slen t).
Proof.
  induction t as [|c t IH]; intros Hn Hd.
  - cbn [String.append]. unfold dd. simpl. destruct (ascii_dec d d); [|done]. by destruct u.
  - cbn [String.append strIndex] in *.
    destruct (String.prefix dd (String c t)) eqn:E; [done|].
    destruct (strIndex t dd) eqn:Et; [done|].
    assert (Hd' : slast t ≠ Some d) by (by destruct t).
    rewrite (IH eq_refl Hd').
    destruct (String.prefix dd (String c (t +:+ dd +:+ u))) eqn:E2; [|done].
    exfalso. revert E. apply prefix_spec in E2 as [v Hv]. unfold dd in Hv. simpl in Hv.
    injection Hv as -> Hv. destruct t as [|c' t].
    + by destruct Hd.
    + simpl in Hv. injection Hv as -> Hv. simpl.
      destruct (ascii_dec d d); [|done]. destruct (ascii_dec d d); [|done]. by destruct t.
Qed.
End double.

Lemma strContains_None s sub : strContains s sub = false ↔ strIndex s sub = None.
Proof. unfold strContains. by destruct (strIndex s sub). Qed.

(** ** One step of the scanner, at the boundary between what was read and what was not *)

Lemma scan_done fuel pre t :
  strIndex t slotOpen = None → scanLoop (S fuel) (pre +:+ t) (slen pre) = Ok ([], []).
Proof. intros H. simpl. rewrite sdrop_app, H. by case_match. Qed.

(** What the scanner does at the opener that follows the text [u]. *)
Definition scan_opener (fuel : nat) (u r : string) : res SyntaxError (list Slot * list nat) :=
  if decide (slast u = Some backslash) then
    let? (slots, escapes) := scanLoop fuel (u +:+ slotOpen +:+ r) (slen u + 2) in
    Ok (slots, (slen u - 1)%nat :: escapes)
  else
    match strIndex r slotClose with
    | None => Err (MkSyntaxError (slen u) MUnterminatedSlot)
    | Some k =>
        if strContains (stake k r) slotOpen then Err (MkSyntaxError (slen u) MNestedSlot)
        else
          let? (slots, escapes) := scanLoop fuel (u +:+ slotOpen +:+ r) (slen u + 2 + k + 2) in
          Ok (MkSlot (slen u) (slen u + 2 + k + 2) (stake k r) :: slots, escapes)
    end.

Lemma scan_step fuel pre t r :
  strIndex t slotOpen = None → slast t ≠ Some brace →
  scanLoop (S fuel) (pre +:+ t +:+ slotOpen +:+ r) (slen pre) = scan_opener fuel (pre +:+ t) r.
Proof.
  intros H1 H2. unfold scan_opener. cbn [scanLoop].
  replace (slen pre <? slen (pre +:+ t +:+ slotOpen +:+ r))%nat with true
    by (symmetry; apply Nat.ltb_lt; rewrite !slen_app; simpl; lia).
  rewrite sdrop_app, (strIndex_double_app _ _ _ H1 H2), <- slen_app, (sapp_assoc pre).
  set (u := pre +:+ t).
  assert (Hd : sdrop (slen u + slen slotOpen) (u +:+ slotOpen +:+ r) = r)
    by (rewrite (sapp_assoc u), <- slen_app; apply sdrop_app).
  assert (Hg : (0 <? slen u)%nat && bool_decide (sget (u +:+ slotOpen +:+ r) (slen u - 1) = Some backslash)
               = bool_decide (slast u = Some backslash)).
  { clearbody u. clear Hd. destruct u as [|c u']; [done|]. by rewrite sget_slast. }
  rewrite Hg. unfold sslice. rewrite Hd. 
  destruct (decide (slast u = Some backslash)) as [E|E];
    [by rewrite bool_decide_eq_true_2|rewrite bool_decide_eq_false_2 by done]. destruct (strIndex r slotClose) as [k|]; [|done].
  replace (slen u + slen slotOpen + k - (slen u + slen slotOpen))%nat with k by lia. done.
Qed.

Lemma no_open_snoc t : strIndex t slotOpen = None → strIndex (t +:+ String backslash "") slotOpen = None.
Proof.
  induction t as [|c t IH]; [done|]. cbn [String.append strIndex].
  destruct (String.prefix slotOpen (String c t)) eqn:E; [done|].
  destruct (strIndex t slotOpen) eqn:Et; [done|]. intros _. rewrite IH by done.
  destruct (String.prefix slotOpen (String c (t +:+ String backslash ""))) eqn:E2; [|done].
  exfalso. apply prefix_spec in E2 as [v Hv]. simpl in Hv. injection Hv as -> Hv.
  destruct t as [|c' t]; [done|]. injection Hv as -> Hv. simpl in E. by destruct t.
Qed.

Definition follows (pre t : string) (ps : list piece) : Prop :=
  match ps with
  | PText _ :: _ => t = ""
  | PSlot _ :: _ => slast t ≠ Some brace ∧ slast (pre +:+ t) ≠ Some backslash
  | _ => True
  end.

Lemma follows_fresh pre ps : slast pre ≠ Some backslash → follows pre "" ps.
Proof. intros H. destruct ps as [|[] ?]; try done. split; [done|]. by rewrite sapp_nil_r. Qed.

Lemma inner_ok_spec i :
  inner_ok i = true ↔
  strContains i slotOpen = false ∧ strIndex i slotClose = None ∧ slast i ≠ Some closebrace.
Proof.
  unfold inner_ok. rewrite !andb_true_iff, !negb_true_iff, bool_decide_eq_true, <- strContains_None. tauto.
Qed.

Lemma scan_flatten_gen ps : ∀ fuel pre t,
  canonical ps = true → strIndex t slotOpen = None → follows pre t ps →
  (slen (flatten ps) < fuel)%nat →
  scanLoop fuel (pre +:+ t +:+ flatten ps) (slen pre) =
  Ok (piece_slots (slen pre + slen t) ps, piece_escapes (slen pre + slen t) ps).
Proof.
  induction ps as [|p ps IH]; intros [|fuel] pre t Hc Ht Hf Hn; try (by inversion Hn).
  - cbn [flatten]. rewrite sapp_nil_r. by apply scan_done.
  - destruct p as [s| |i]; cbn [flatten canonical spell_piece] in *; rewrite slen_app in Hn.
    + cbn in Hf. subst t. apply andb_true_iff in Hc as [Hs Hc]. unfold text_ok in Hs.
      apply andb_true_iff in Hs as [[Hne%negb_true_iff Hs%negb_true_iff%strContains_None]%andb_true_iff Hps].
      cbn [piece_slots piece_escapes spell_piece String.length String.append]. rewrite Nat.add_0_r.
      apply IH; [done|done| |by destruct s; simpl in *; lia].
      destruct ps as [|[] ps]; [done|done|done|].
      apply andb_true_iff in Hps as [H1%bool_decide_eq_true H2%bool_decide_eq_true].
      split; [done|]. rewrite slast_app; [done|]. by intros ->.
    + set (u := t +:+ String backslash "").
      assert (Eu : pre +:+ t +:+ String backslash slotOpen +:+ flatten ps = pre +:+ u +:+ slotOpen +:+ flatten ps)
        by (unfold u; by rewrite <- sapp_assoc).
      rewrite Eu, scan_step; [|by apply no_open_snoc|by unfold u; rewrite slast_snoc].
      unfold scan_opener. rewrite decide_True by (unfold u; by rewrite sapp_assoc, slast_snoc).
      specialize (IH fuel ((pre +:+ u) +:+ slotOpen) "" Hc eq_refl).
      cbn [String.append] in IH. rewrite slen_app in IH. cbn [slotOpen String.length] in IH.
      rewrite sapp_assoc, IH; [|apply follows_fresh; rewrite slast_app; done|simpl in Hn; lia].
      cbn [res_bind piece_slots piece_escapes spell_piece]. unfold u. rewrite !slen_app. simpl.
      f_equal. f_equal; [f_equal; lia|]. f_equal; [lia|f_equal; lia].
    + apply andb_true_iff in Hc as [(Hi1 & Hi2 & Hi3)%inner_ok_spec Hc]. destruct Hf as [Hf1 Hf2].
      rewrite <- sapp_assoc, scan_step by done.
      unfold scan_opener. rewrite decide_False by done. rewrite <- sapp_assoc.
      rewrite (strIndex_double_app _ _ _ Hi2 Hi3), stake_app, Hi1.
      specialize (IH fuel ((pre +:+ t) +:+ slotOpen +:+ i +:+ slotClose) "" Hc eq_refl).
      cbn [String.append] in IH. rewrite !slen_app in IH. cbn [slotOpen slotClose String.length] in IH.
      rewrite <- slen_app, Nat.add_0_r in IH.
      replace (slen (pre +:+ t) + 2 + slen i + 2)%nat with (slen (pre +:+ t) + (2 + (slen i + 2)))%nat by lia.
      rewrite !sapp_assoc. rewrite !sapp_assoc in IH.
      rewrite IH; [|apply follows_fresh; by rewrite slast_app|rewrite !slen_app in Hn; simpl in Hn; lia].
      cbn [res_bind piece_slots piece_escapes spell_piece]. rewrite !slen_app. done.
Qed.

(** The scanner inverts [flatten] on canonical pieces. *)
Lemma scan_flatten ps :
  canonical ps = true → scan (flatten ps) = Ok (piece_slots 0 ps, piece_escapes 0 ps).
Proof.
  intros H. apply (scan_flatten_gen ps _ "" ""); [done|done|by apply follows_fresh|lia].
Qed.

(** Text [t] in front of the pieces [ps]. *)
Definition with_text (t : string) (ps : list piece) : list piece :=
  if String.eqb t "" then ps else PText t :: ps.

Lemma with_text_spec t ps n :
  flatten (with_text t ps) = t +:+ flatten ps ∧
  piece_slots n (with_text t ps) = piece_slots (n + slen t) ps ∧
  piece_escapes n (with_text t ps) = piece_escapes (n + slen t) ps.
Proof.
  unfold with_text. destruct (String.eqb_spec t "") as [->|H]; [|done].
  cbn [String.length String.append]. by rewrite Nat.add_0_r.
Qed.

Lemma with_text_canonical t ps :
  strIndex t slotOpen = None →
  match ps with
  | PText _ :: _ => False
  | PSlot _ :: _ => slast t ≠ Some brace ∧ slast t ≠ Some backslash
  | _ => True
  end → canonical ps = true → canonical (with_text t ps) = true.
Proof.
  intros Ht Hps Hc. unfold with_text. destruct (String.eqb_spec t "") as [->|H]; [done|].
  cbn [canonical]. rewrite Hc, andb_true_r. unfold text_ok.
  apply strContains_None in Ht. apply String.eqb_neq in H. rewrite Ht, H. cbn [negb andb].
  destruct ps as [|[] ps]; try done. destruct Hps. by rewrite !bool_decide_eq_true_2.
Qed.

Lemma no_open_prefix t u : strIndex (t +:+ u) slotOpen = None → strIndex t slotOpen = None.
Proof.
  induction t as [|c t IH]; [done|]. cbn [String.append strIndex].
  destruct (String.prefix slotOpen (String c (t +:+ u))) eqn:E; [done|].
  destruct (strIndex (t +:+ u) slotOpen); [done|]. intros _. rewrite IH by done.
  destruct (String.prefix slotOpen (String c t)) eqn:E2; [|done].
  apply prefix_spec in E2 as [v Hv].
  assert (String.prefix slotOpen (String c t +:+ u) = true) by exact (prefix_dd_app brace _ u v Hv).
  cbn [String.append] in *. congruence.
Qed.

Lemma slast_snoc_inv t c : slast t = Some c → ∃ t', t = t' +:+ String c "".
Proof.
  induction t as [|a t IH]; [done|]. destruct t as [|b t].
  - intros [= ->]. by exists "".
  - intros H. destruct (IH H) as [t' ->]. by exists (String a t').
Qed.

Lemma scan_pieces_gen fuel : ∀ pre rest sl es,
  (slen rest < fuel)%nat → slast pre ≠ Some backslash →
  scanLoop fuel (pre +:+ rest) (slen pre) = Ok (sl, es) →
  ∃ ps, flatten ps = rest ∧ canonical ps = true ∧
        piece_slots (slen pre) ps = sl ∧ piece_escapes (slen pre) ps = es.
Proof.
  induction fuel as [|fuel IH]; intros pre rest sl es Hn Hpre Hs; [by inversion Hn|].
  destruct (strIndex rest slotOpen) as [n|] eqn:En.
  - destruct (strIndex_double_split _ _ _ En) as (t & r & -> & _ & Ht & Hb).
    rewrite scan_step in Hs by done. unfold scan_opener in Hs. rewrite !slen_app in Hn.
    destruct (decide (slast (pre +:+ t) = Some backslash)) as [E|E].
    + destruct t as [|c t0] eqn:Et; [by rewrite sapp_nil_r in E|]. rewrite <- Et in *. clear Et c t0.
      rewrite slast_app in E by (by intros ->; simpl in E; rewrite sapp_nil_r in E).
      destruct (slast_snoc_inv _ _ E) as [t' Et]. apply res_bind_ok in Hs as ([sl' es'] & Hs & [= <- <-]).
      rewrite sapp_assoc in Hs.
      replace (slen (pre +:+ t) + 2)%nat with (slen ((pre +:+ t) +:+ slotOpen)) in Hs by (by rewrite slen_app).
      apply IH in Hs as (ps & <- & Hc & <- & <-); [|simpl in Hn; lia|by rewrite slast_app].
      exists (with_text t' (PEscape :: ps)).
      destruct (with_text_spec t' (PEscape :: ps) (slen pre)) as (-> & -> & ->).
      split; [rewrite Et; cbn [flatten spell_piece]; by rewrite <- sapp_assoc|].
      split; [apply with_text_canonical; [rewrite Et in Ht; by eapply no_open_prefix|done|done]|].
      cbn [piece_slots piece_escapes spell_piece]. rewrite Et, !slen_app. simpl.
      split; [f_equal; lia|]. f_equal; [lia|f_equal; lia].
    + destruct (strIndex r slotClose) as [k|] eqn:Ek; [|done].
      destruct (strIndex_double_split _ _ _ Ek) as (i & r' & -> & <- & Hi & Hib).
      rewrite stake_app in Hs. destruct (strContains i slotOpen) eqn:Ei; [done|].
      apply res_bind_ok in Hs as ([sl' es'] & Hs & [= <- <-]).
      set (pre' := (pre +:+ t) +:+ slotOpen +:+ i +:+ slotClose).
      assert (El : (slen (pre +:+ t) + 2 + slen i + 2)%nat = slen pre')
        by (unfold pre'; rewrite !slen_app; simpl; lia).
      rewrite El in *. rewrite <- !slen_app in Hn.
      replace ((pre +:+ t) +:+ slotOpen +:+ i +:+ "}}" +:+ r') with (pre' +:+ r') in Hs
        by (unfold pre'; by rewrite !sapp_assoc).
      apply IH in Hs as (ps & <- & Hc & <- & <-);
        [|rewrite !slen_app in Hn; simpl in Hn; lia|unfold pre'; rewrite slast_app; [by rewrite sapp_assoc, slast_app|done]].
      exists (with_text t (PSlot i :: ps)).
      destruct (with_text_spec t (PSlot i :: ps) (slen pre)) as (-> & -> & ->).
      split; [cbn [flatten spell_piece]; by rewrite <- !sapp_assoc|].
      split.
      { apply with_text_canonical; [done| |].
        - split; [done|]. intros Hl. destruct t as [|c t]; [done|]. rewrite slast_app in E; done.
        - cbn [canonical]. rewrite Hc, andb_true_r. by apply inner_ok_spec. }
      cbn [piece_slots piece_escapes spell_piece]. rewrite <- slen_app.
      replace (slen (pre +:+ t) + slen (slotOpen +:+ i +:+ slotClose))%nat with (slen pre')
        by (unfold pre'; rewrite !slen_app; done). done.
  - rewrite scan_done in Hs by done. injection Hs as <- <-.
    exists (with_text rest []). destruct (with_text_spec rest [] (slen pre)) as (-> & -> & ->).
    cbn [flatten]. rewrite sapp_nil_r. split; [done|]. split; [by apply with_text_canonical|done].
Qed.

(** Every host string the scanner accepts is the text of a canonical sequence of pieces. *)
Lemma scan_pieces src sl es :
  scan src = Ok (sl, es) →
  ∃ ps, flatten ps = src ∧ canonical ps = true ∧ piece_slots 0 ps = sl ∧ piece_escapes 0 ps = es.
Proof. intros H. apply (scan_pieces_gen (S (slen src)) "" src sl es); [lia|done|done]. Qed.

Lemma scanLoop_errors fuel : ∀ src i e,
  (slen src - i < fuel)%nat → scanLoop fuel src i = Err e →
  (seMsg e = MUnterminatedSlot ∨ seMsg e = MNestedSlot) ∧
  (sePos e < slen src)%nat ∧ String.prefix slotOpen (sdrop (sePos e) src) = true.
Proof.
  induction fuel as [|fuel IH]; intros src i e Hf; [lia|]. cbn [scanLoop].
  destruct (i <? slen src)%nat eqn:Hi; [apply Nat.ltb_lt in Hi|done].
  destruct (strIndex (sdrop i src) slotOpen) as [j|] eqn:Ej; [|done].
  apply strIndex_Some in Ej as (Hp & Hl & _). rewrite slen_sdrop in Hl. cbn [slotOpen String.length] in Hl.
  rewrite sdrop_sdrop in Hp. cbn zeta.
  assert (Hr : ∀ k, (slen src - (i + j + slen slotOpen + k) < fuel)%nat) by (cbn; lia).
  case_match.
  - intros H1. apply res_bind_err in H1 as [H1|([? ?] & _ & H1)]; [|done].
    eapply IH; [|exact H1]. specialize (Hr 0). lia.
  - destruct (strIndex (sdrop _ src) slotClose) as [k|]; [|intros [= <-]; simpl; auto with lia].
    case_match; [intros [= <-]; simpl; auto with lia|].
    intros H1. apply res_bind_err in H1 as [H1|([? ?] & _ & H1)]; [|done].
    eapply IH; [|exact H1]. specialize (Hr (k + slen slotClose)%nat). lia.
Qed.

(** ** The properties *)

(** the slot grammar. The scanner inverts the spelling of every canonical sequence of pieces: it
    returns exactly its slots, with their offsets and inner text, and the offsets of its escapes. *)
Theorem scan_roundtrip ps :
  canonical ps = true → scan (flatten ps) = Ok (piece_slots 0 ps, piece_escapes 0 ps).
Proof. apply scan_flatten. Qed.

Lemma scan_roundtrip_witness :
  scan "a{{x}}\{{y}}" = Ok ([MkSlot 1 6 "x"], [6%nat]).
Proof. apply (scan_roundtrip [PText "a"; PSlot "x"; PEscape; PText "y}}"]). reflexivity. Defined.

(** what the scanner rejects. It fails only with an unterminated or a nested slot, at the offset
    of an opener of the source (never for want of fuel: the loop terminates). *)
Theorem scan_errors src e :
  scan src = Err e →
  (seMsg e = MUnterminatedSlot ∨ seMsg e = MNestedSlot) ∧
  (sePos e < slen src)%nat ∧ String.prefix slotOpen (sdrop (sePos e) src) = true.
Proof. apply scanLoop_errors. lia. Qed.

Lemma scan_errors_witness :
  (MNestedSlot = MUnterminatedSlot ∨ MNestedSlot = MNestedSlot) ∧
  (1 < slen "a{{ {{ }}")%nat ∧ String.prefix slotOpen (sdrop 1 "a{{ {{ }}") = true.
Proof. apply (scan_errors "a{{ {{ }}" (MkSyntaxError 1 MNestedSlot)). reflexivity. Defined.
