(* ===== verification/TmplEval.v ===== *)
(** * template/eval.go, template/value.go: evaluation of expressions and rendering of templates

    The scope is the code's one-method interface, a function [Resolve] that every definition takes;
    the definitions are those of the code, with the fmt text of an error kept as its format site and
    arguments ([EvalMsg]).  The lemmas relate [Substitute]'s cursor arithmetic to the rendering of
    the pieces of the host string ([Substitute_flatten]), and give the semantics of the operators:
    short circuits, no coercion, null, and which references an evaluation consults.  A relational
    semantics ([evalsTo], [reached], [fault]) says what an expression means and how it fails; the
    evaluator computes it. *)

From S2P Require Import Prelude GoNum GoJson TmplLexer TmplParser TmplSlots.

Definition MaxInlineBytes : nat := 64 * 1024.

Definition EvalCodeOversize : string := "AWF4001".
Definition EvalCodeRefUnresolved : string := "AWF4002".
Definition EvalCodeTypeMismatch : string := "AWF4003".
Definition EvalCodeInvalidScalar : string := "AWF4004".
Definition EvalCodeSyntax : string := "AWF4005".
Definition EvalCodeRefAbsent : string := "AWF4006".
Definition EvalCodeDeferred : string := "AWF4099".

(** The message sites of eval.go and value.go. *)
Inductive EvalMsg : Type :=
  | EmText (s : string)                      (* text made elsewhere *)
  | EmSyntax (e : SyntaxError)               (* the text of a syntax error *)
  | EmSlotScan (pos : nat) (m : SyntaxMsg)   (* slot scan at offset %d: %s *)
  | EmParseSlot (pos : nat) (m : SyntaxMsg)  (* parse slot at host offset %d: %s *)
  | EmAtSlot (pos : nat) (m : EvalMsg)       (* slot at host offset %d: ... *)
  | EmNotBool (role typ : string)            (* %s is %T, want bool *)
  | EmNumberLit (lit : string)
  | EmNotEncodable
  | EmOversize (n : nat)
  | EmNilScalar
  | EmNotScalar (typ : string)
  | EmNullOperand (op : string)
  | EmNumericOperands (op l r : string)
  | EmAcrossTypes (l r : string)
  | EmDecodeJSON
  | EmFmt (fmt : string) (args : list string)                 (* fmt.Sprintf(fmt, args...) *)
  | EmWrap (fmt : string) (args : list string) (m : EvalMsg). (* the same, with an error as last argument *)

Record EvalError : Type := MkEvalError { eeCode : string; eeMsg : EvalMsg }.

(** The error values that flow through the package: [*EvalError], [*SyntaxError] or another. *)
Inductive goerr : Type :=
  | GEval (e : EvalError)
  | GSyntax (e : SyntaxError)
  | GOther (m : EvalMsg).

Definition EvalErrf {A} (code : string) (m : EvalMsg) : res goerr A := Err (GEval (MkEvalError code m)).

(** [rerr.Error()] as a message. *)
Definition error_text (e : goerr) : EvalMsg :=
  match e with GEval e => eeMsg e | GSyntax e => EmSyntax e | GOther m => m end.

(** The [%T] of a value. *)
Definition goType (v : value) : string :=
  match v with
  | VNil => "<nil>"
  | VBool _ => "bool"
  | VInt _ => "int"
  | VInt64 _ => "int64"
  | VFloat _ => "float64"
  | VNumber _ => "json.Number"
  | VString _ => "string"
  | VSlice _ => "[]interface {}"
  | VMap _ => "map[string]interface {}"
  | VMaps _ => "[]map[string]interface {}"
  end.

(** ** The size gate and scalars *)

Definition checkInlineSize (v : value) : res goerr unit :=
  let gate (n : nat) :=
    if (MaxInlineBytes <? n)%nat then EvalErrf EvalCodeOversize (EmOversize n) else Ok () in
  match v with
  | VString s => gate (slen s)
  | VMap _ | VSlice _ =>
      match Marshal v with
      | None => EvalErrf EvalCodeInvalidScalar EmNotEncodable
      | Some b => gate (slen b)
      end
  | _ => Ok ()
  end.

Definition FormatBool (b : bool) : string := if b then "true" else "false".

(** The error of [renderScalar] is a plain [error]: a message. *)
Definition renderScalar (v : value) : res EvalMsg string :=
  match v with
  | VNil => Err EmNilScalar
  | VString s => Ok s
  | VBool b => Ok (FormatBool b)
  | VInt z | VInt64 z => Ok (Itoa z)
  | VFloat x => Ok (if f64_is_integer x then FormatFloat_f x else FormatFloat_g x)
  | VNumber lit => Ok lit
  | VSlice _ | VMap _ | VMaps _ => Err (EmNotScalar (goType v))
  end.

(** ** Comparison *)

Definition toFloat (v : value) : option f64 :=
  match v with
  | VFloat x => Some x
  | VInt z | VInt64 z => Some (f64_of_Z z)
  | VNumber lit => ParseFloat lit
  | _ => None
  end.

Definition sameKind (l r : value) : bool :=
  match l, r with
  | VBool _, VBool _ => true
  | VString _, VString _ => true
  | _, _ => false
  end.

Definition equalValue (l r : value) : bool :=
  match l, r with
  | VBool x, VBool y => Bool.eqb x y
  | VString x, VString y => String.eqb x y
  | _, _ => false
  end.

Definition isNil (v : value) : bool := match v with VNil => true | _ => false end.

(** The numeric arm: the comparison of two floats by one of the six operators. *)
Definition compareFloat (op : string) (lf rf : f64) : option bool :=
  if String.eqb op "==" then Some (f64_eqb lf rf)
  else if String.eqb op "!=" then Some (negb (f64_eqb lf rf))
  else if String.eqb op "<" then Some (f64_ltb lf rf)
  else if String.eqb op "<=" then Some (f64_leb lf rf)
  else if String.eqb op ">" then Some (f64_ltb rf lf)
  else if String.eqb op ">=" then Some (f64_leb rf lf)
  else None.

(** What [compare] does once the numeric arm does not apply. *)
Definition compareOther (op : string) (l r : value) : res goerr bool :=
  if negb (String.eqb op "==") && negb (String.eqb op "!=") then
    EvalErrf EvalCodeTypeMismatch (EmNumericOperands op (goType l) (goType r))
  else if negb (sameKind l r) then
    EvalErrf EvalCodeTypeMismatch (EmAcrossTypes (goType l) (goType r))
  else
    let eq := equalValue l r in
    Ok (if String.eqb op "==" then eq else negb eq).

Definition compare (op : string) (l r : value) : res goerr bool :=
  if isNil l || isNil r then
    if String.eqb op "==" then Ok (isNil l && isNil r)
    else if String.eqb op "!=" then Ok (negb (isNil l) || negb (isNil r))
    else EvalErrf EvalCodeTypeMismatch (EmNullOperand op)
  else
    match toFloat l, toFloat r with
    | Some lf, Some rf =>
        match compareFloat op lf rf with
        | Some b => Ok b
        | None => compareOther op l r
        end
    | _, _ => compareOther op l r
    end.

Definition requireBool (role : string) (v : value) : res goerr bool :=
  match v with
  | VBool b => Ok b
  | _ => EvalErrf EvalCodeTypeMismatch (EmNotBool role (goType v))
  end.

(** ** Evaluation, for a scope *)

Section eval.
Context (Resolve : Ref → res goerr value).

Definition resolveRefValue (ref : Ref) : res goerr value :=
  let? v := Resolve ref in
  let? _ := checkInlineSize v in
  Ok v.

(** [evalLogical] over the operands' evaluations; the right one runs only when needed. *)
Definition evalLogical (l : res goerr value) (r : unit → res goerr value)
    (op : string) (shortCircuitOn : bool) : res goerr value :=
  let? lv := l in
  let? lb := requireBool (op +:+ " left operand") lv in
  if Bool.eqb lb shortCircuitOn then Ok (VBool shortCircuitOn)
  else
    let? rv := r () in
    res_map VBool (requireBool (op +:+ " right operand") rv).

Fixpoint evalExpr (e : Expr) : res goerr value :=
  match e with
  | BoolLit b => Ok (VBool b)
  | StringLit s => Ok (VString s)
  | NumberLit lit =>
      match ParseFloat lit with
      | Some f => Ok (VFloat f)
      | None => EvalErrf EvalCodeInvalidScalar (EmNumberLit lit)
      end
  | NullLit => Ok VNil
  | RefExpr r => resolveRefValue r
  | NotExpr x =>
      let? v := evalExpr x in
      let? b := requireBool "! operand" v in
      Ok (VBool (negb b))
  | AndExpr l r => evalLogical (evalExpr l) (λ _, evalExpr r) "&&" false
  | OrExpr l r => evalLogical (evalExpr l) (λ _, evalExpr r) "||" true
  | CmpExpr op l r =>
      let? lv := evalExpr l in
      let? rv := evalExpr r in
      res_map VBool (compare op lv rv)
  end.

Definition EvalBool (e : Expr) : res goerr bool :=
  let? v := evalExpr e in requireBool "top-level expression" v.

Definition EvalBoolString (src : string) : res goerr bool :=
  let? e := res_map_err GSyntax (ParseExpr (UnwrapEnvelope src)) in EvalBool e.

(** [writeUpTo]: copies [host[cursor:end_]], each escape in the span rendered as an opener with
    its backslash dropped.  Returns the text written, the new cursor and the escapes left. *)
Fixpoint writeUpTo (host : string) (end_ cursor : nat) (escapes : list nat)
    : string * nat * list nat :=
  match escapes with
  | e :: escapes' =>
      if (e <? end_)%nat then
        let '(out, cursor', rest) := writeUpTo host end_ (e + 1 + slen slotOpen) escapes' in
        (sslice host cursor e +:+ slotOpen +:+ out, cursor', rest)
      else (sslice host cursor end_, end_, escapes)
  | [] => (sslice host cursor end_, end_, [])
  end.

(** The text of one slot. *)
Definition substSlot (sl : Slot) : res goerr string :=
  let slotErr (code : string) (m : EvalMsg) : res goerr string :=
    EvalErrf code (EmAtSlot (slStart sl) m) in
  match ParseRef (slInner sl) with
  | Err se => EvalErrf EvalCodeSyntax (EmParseSlot (slStart sl + slen slotOpen + sePos se) (seMsg se))
  | Ok ref =>
      match resolveRefValue ref with
      | Err (GEval ee) => slotErr (eeCode ee) (eeMsg ee)
      | Err e => slotErr EvalCodeRefUnresolved (error_text e)
      | Ok v =>
          match renderScalar v with
          | Err m => slotErr EvalCodeInvalidScalar m
          | Ok s => Ok s
          end
      end
  end.

(** The loop over the slots, then the tail. *)
Fixpoint substLoop (host : string) (slots : list Slot) (cursor : nat) (escapes : list nat)
    : res goerr string :=
  match slots with
  | [] => Ok (writeUpTo host (slen host) cursor escapes).1.1
  | sl :: slots =>
      let '(out, _, escapes) := writeUpTo host (slStart sl) cursor escapes in
      let? s := substSlot sl in
      let? rest := substLoop host slots (slEnd sl) escapes in
      Ok (out +:+ s +:+ rest)
  end.

Definition Substitute (host : string) : res goerr string :=
  match scan host with
  | Err se => EvalErrf EvalCodeSyntax (EmSlotScan (sePos se) (seMsg se))
  | Ok ([], []) => Ok host
  | Ok (slots, escapes) => substLoop host slots 0 escapes
  end.

(** ** template/value.go *)

Definition evalTemplateStringValue (s : string) : res goerr value :=
  match Slots s with
  | Err se => EvalErrf EvalCodeSyntax (EmSlotScan (sePos se) (seMsg se))
  | Ok [sl] =>
      if (slStart sl =? 0)%nat && (slEnd sl =? slen s)%nat then
        match ParseRef (slInner sl) with
        | Err se =>
            EvalErrf EvalCodeSyntax (EmParseSlot (slStart sl + slen slotOpen + sePos se) (seMsg se))
        | Ok ref => resolveRefValue ref
        end
      else res_map VString (Substitute s)
  | Ok _ => res_map VString (Substitute s)
  end.

(** The entry list of a [VMap] is in the order the [range] of the run visits the map. *)
Fixpoint evalTemplateDecodedValue (v : value) : res goerr value :=
  match v with
  | VString s => evalTemplateStringValue s
  | VSlice l =>
      res_map VSlice
        ((fix go l := match l with
                      | [] => Ok []
                      | x :: l => let? v := evalTemplateDecodedValue x in
                                  let? vs := go l in Ok (v :: vs)
                      end) l)
  | VMap l =>
      res_map VMap
        ((fix go l := match l with
                      | [] => Ok []
                      | (k, x) :: l => let? v := evalTemplateDecodedValue x in
                                       let? vs := go l in Ok ((k, v) :: vs)
                      end) l)
  | _ => Ok v
  end.

Definition EvalTemplateValue (raw : string) : res goerr value :=
  match (j ← json_parse raw; Unmarshal_any j) with
  | None => Err (GOther EmDecodeJSON)
  | Some v => evalTemplateDecodedValue v
  end.
End eval.

Example compare_ex :
  compare "==" (VInt 1) (VNumber "1.0") = Ok true ∧
  compare "==" (VString "1") (VInt 1) = EvalErrf "AWF4003" (EmAcrossTypes "string" "int") ∧
  compare "!=" VNil (VInt 0) = Ok true ∧
  compare "<" VNil (VInt 0) = EvalErrf "AWF4003" (EmNullOperand "<").
Proof. by vm_compute. Qed.

Definition ex_scope (r : Ref) : res goerr value :=
  match Ident <$> Segments r with
  | ["step"; "a"; "exit"] => Ok (VInt 0)
  | ["step"; "a"; "out"] => Ok (VString "hi")
  | _ => EvalErrf EvalCodeRefUnresolved (EmText "unbound")
  end.

Example substitute_ex :
  Substitute ex_scope "x \{{ y }} {{step.a.out}}{{ step.a.exit }}!" = Ok "x {{ y }} hi0!".
Proof. by vm_compute. Qed.
Example substitute_err :
  Substitute ex_scope "x {{ step.b }}" =
  EvalErrf "AWF4002" (EmAtSlot 2 (EmText "unbound")).
Proof. by vm_compute. Qed.
Example evalBool_ex :
  EvalBoolString ex_scope "{{ step.a.exit == 0 || nope }}" = Ok true ∧
  EvalBoolString ex_scope "step.a.exit == 1 || nope" = EvalErrf "AWF4002" (EmText "unbound").
Proof. by vm_compute. Qed.

(** ** Rendering, piece by piece *)

Section render.
Context (Resolve : Ref → res goerr value).

(** What the pieces render to, the first one starting at host offset [n]. *)
Fixpoint render (n : nat) (ps : list piece) : res goerr string :=
  match ps with
  | [] => Ok ""
  | p :: ps =>
      let m := (n + slen (spell_piece p))%nat in
      let? s := match p with
                | PText s => Ok s
                | PEscape => Ok slotOpen
                | PSlot i => substSlot Resolve (MkSlot n m i)
                end in
      let? rest := render m ps in
      Ok (s +:+ rest)
  end.

Lemma piece_slots_ge ps n : Forall (λ sl, n ≤ slStart sl)%nat (piece_slots n ps).
Proof.
  revert n; induction ps as [|p ps IH]; intros n; [constructor|].
  assert (Forall (λ sl, n ≤ slStart sl)%nat (piece_slots (n + slen (spell_piece p)) ps))
    by (eapply Forall_impl; [apply IH|simpl; lia]).
  destruct p; [done|done|]. constructor; [done|done].
Qed.

Lemma piece_escapes_ge ps n : Forall (λ e, n ≤ e)%nat (piece_escapes n ps).
Proof.
  revert n; induction ps as [|p ps IH]; intros n; [constructor|].
  assert (Forall (λ e, n ≤ e)%nat (piece_escapes (n + slen (spell_piece p)) ps))
    by (eapply Forall_impl; [apply IH|simpl; lia]).
  destruct p; [done| |done]. constructor; [done|done].
Qed.

Definition next_stop (host : string) (slots : list Slot) : nat :=
  match slots with [] => slen host | sl :: _ => slStart sl end.

(** An escape ahead of the next slot is rendered first. *)
Lemma substLoop_escape host slots cursor e es :
  (e < next_stop host slots)%nat →
  substLoop Resolve host slots cursor (e :: es) =
  res_map (λ r, sslice host cursor e +:+ slotOpen +:+ r)
          (substLoop Resolve host slots (e + 1 + slen slotOpen) es).
Proof.
  intros H. destruct slots as [|sl slots]; cbn [next_stop] in H; apply Nat.ltb_lt in H;
    cbn [substLoop writeUpTo]; rewrite H.
  - destruct (writeUpTo _ _ _ es) as [[out c] r]. done.
  - destruct (writeUpTo _ _ _ es) as [[out c] r]. cbn [fst snd].
    destruct (substSlot Resolve sl); [|done]. cbn [res_bind].
    destruct (substLoop Resolve host slots _ r); [|done]. cbn. by rewrite <- !sapp_assoc.
Qed.

Lemma writeUpTo_none host end_ cursor es :
  Forall (λ e, end_ ≤ e)%nat es → writeUpTo host end_ cursor es = (sslice host cursor end_, end_, es).
Proof.
  intros H. destruct H as [|e es He _]; [done|]. simpl. by apply Nat.ltb_ge in He as ->.
Qed.

Lemma sslice_mid pre t u : sslice (pre +:+ t +:+ u) (slen pre) (slen pre + slen t) = t.
Proof.
  unfold sslice. rewrite sdrop_app. replace (slen pre + slen t - slen pre)%nat with (slen t) by lia.
  apply stake_app.
Qed.

Lemma substLoop_render ps : ∀ pre t,
  substLoop Resolve (pre +:+ t +:+ flatten ps) (piece_slots (slen pre + slen t) ps) (slen pre)
    (piece_escapes (slen pre + slen t) ps) =
  res_map (λ r, t +:+ r) (render (slen pre + slen t) ps).
Proof.
  induction ps as [|p ps IH]; intros pre t.
  - cbn [flatten piece_slots piece_escapes substLoop writeUpTo render fst res_map].
    rewrite sapp_nil_r, slen_app. f_equal. rewrite <- (sapp_nil_r t) at 1. apply sslice_mid.
  - destruct p as [s| |i]; cbn [flatten spell_piece piece_slots piece_escapes render res_bind].
    + rewrite (sapp_assoc t), <- Nat.add_assoc, <- slen_app, IH.
      destruct (render _ ps); [|done]. cbn. by rewrite <- sapp_assoc.
    + set (h := pre +:+ t +:+ String backslash slotOpen +:+ flatten ps).
      set (n := (slen pre + slen t)%nat).
      rewrite substLoop_escape.
      * specialize (IH (pre +:+ t +:+ String backslash slotOpen) "").
        cbn [String.append String.length] in IH. rewrite <- !sapp_assoc in IH. fold h in IH.
        rewrite !slen_app, Nat.add_0_r, Nat.add_assoc in IH. fold n in IH.
        rewrite <- Nat.add_assoc. change (1 + slen slotOpen)%nat with (slen (String backslash slotOpen)).
        rewrite IH. unfold h, n. rewrite sslice_mid.
        destruct (render _ ps); [|done]. cbn. done.
      * pose proof (piece_slots_ge ps (n + slen (String backslash slotOpen))) as Hge.
        destruct (piece_slots _ ps) as [|sl sls]; cbn [next_stop].
        -- unfold h, n. rewrite !slen_app. simpl. lia.
        -- inversion Hge; subst. simpl in *. lia.
    + set (m := (slen pre + slen t + slen (slotOpen +:+ i +:+ slotClose))%nat).
      cbn [substLoop slStart slEnd]. rewrite writeUpTo_none.
      2:{ eapply Forall_impl; [apply piece_escapes_ge|]. simpl. unfold m. lia. }
      rewrite sslice_mid. destruct (substSlot Resolve _) as [s|]; [|done]. cbn [res_bind].
      specialize (IH (pre +:+ t +:+ slotOpen +:+ i +:+ slotClose) "").
      cbn [String.append String.length] in IH. rewrite <- !sapp_assoc in IH.
      replace (slen (pre +:+ t +:+ slotOpen +:+ i +:+ slotClose)) with m in IH
        by (unfold m; rewrite !slen_app; lia).
      rewrite Nat.add_0_r in IH. rewrite <- !sapp_assoc. rewrite IH.
      destruct (render m ps); done.
Qed.

Lemma Substitute_flatten ps : canonical ps = true → Substitute Resolve (flatten ps) = render 0 ps.
Proof.
  intros Hc. unfold Substitute. rewrite (scan_flatten _ Hc).
  assert (E : substLoop Resolve (flatten ps) (piece_slots 0 ps) 0 (piece_escapes 0 ps) = render 0 ps).
  { pose proof (substLoop_render ps "" "") as H. cbn in H. rewrite H. by destruct (render 0 ps). }
  destruct (piece_slots 0 ps) eqn:Es; [|done]. destruct (piece_escapes 0 ps) eqn:Ee; [|done].
  rewrite <- E. cbn. unfold sslice. by rewrite sdrop_0, Nat.sub_0_r, stake_all.
Qed.
End render.

(** ** Operators *)

Lemma requireBool_ok role v b : requireBool role v = Ok b ↔ v = VBool b.
Proof. destruct v; split; simpl; try done; by intros [= ->]. Qed.

Lemma evalLogical_ok l r op sc v :
  evalLogical l r op sc = Ok v ↔
  (l = Ok (VBool sc) ∧ v = VBool sc) ∨
  (l = Ok (VBool (negb sc)) ∧ ∃ b, r () = Ok (VBool b) ∧ v = VBool b).
Proof.
  unfold evalLogical. split.
  - intros H. apply res_bind_ok in H as (lv & -> & H). apply res_bind_ok in H as (b0 & Hb & H).
    apply requireBool_ok in Hb as ->.
    destruct (Bool.eqb b0 sc) eqn:E.
    { apply Bool.eqb_prop in E as ->. injection H as <-. by left. }
    right. split; [by destruct b0, sc|]. apply res_bind_ok in H as (rv & -> & H).
    destruct (requireBool _ rv) as [b|] eqn:E2; [|done]. apply requireBool_ok in E2 as ->.
    injection H as <-. by exists b.
  - intros [[-> ->]|[-> (b & Hr & ->)]]; cbn; [by rewrite Bool.eqb_reflx|].
    rewrite Hr. by destruct sc.
Qed.

Lemma checkInlineSize_string s : is_ok (checkInlineSize (VString s)) = true ↔ slen s ≤ MaxInlineBytes.
Proof.
  unfold checkInlineSize. destruct (MaxInlineBytes <? slen s)%nat eqn:E.
  - apply Nat.ltb_lt in E. split; [done|]. intros H. by apply Nat.le_ngt in H.
  - apply Nat.ltb_ge in E. done.
Qed.

Lemma resolveRefValue_ok R r v :
  resolveRefValue R r = Ok v ↔ R r = Ok v ∧ is_ok (checkInlineSize v) = true.
Proof.
  unfold resolveRefValue. destruct (R r) as [w|]; [|by split; [|intros []]]. cbn [res_bind].
  destruct (checkInlineSize w) eqn:E; cbn [res_bind].
  - split; [intros [= <-]; by rewrite E|]. by intros [[= ->] _].
  - split; [done|]. intros [[= ->] H]. by rewrite E in H.
Qed.

Lemma evalExpr_ext R R' e :
  (∀ r, r ∈ References e → R r = R' r) → evalExpr R e = evalExpr R' e.
Proof.
  induction e as [l IHl r IHr|l IHl r IHr|x IH|op l IHl r IHr|r|s|s|b|]; cbn [References evalExpr];
    intros H; try done.
  1,2: rewrite IHl, IHr; [done|intros; apply H; set_solver..].
  - by rewrite IH.
  - rewrite IHl, IHr; [done|intros; apply H; set_solver..].
  - unfold resolveRefValue. rewrite H; [done|set_solver].
Qed.

(** ** Comparison laws *)

Lemma compare_ne op_l op_r : compare "!=" op_l op_r = res_map negb (compare "==" op_l op_r).
Proof.
  unfold compare, compareOther. destruct (isNil op_l || isNil op_r); simpl.
  { by destruct (isNil op_l), (isNil op_r). }
  destruct (toFloat op_l), (toFloat op_r); simpl; try done; by destruct (sameKind op_l op_r).
Qed.

(** The operands [compare] accepts for an ordered operator, and for equality. *)
Definition numeric (v : value) : bool :=
  match toFloat v with Some _ => true | None => false end.
Definition comparable (l r : value) : bool :=
  isNil l || isNil r || (numeric l && numeric r) || sameKind l r.

Lemma compare_ok_eq l r : is_ok (compare "==" l r) = comparable l r.
Proof.
  unfold compare, compareOther, comparable, numeric. simpl.
  destruct (isNil l || isNil r); [done|]. simpl.
  destruct (toFloat l), (toFloat r); simpl; try done; by destruct (sameKind l r).
Qed.

Lemma compare_ok_lt op l r :
  op ∈ ["<"; "<="; ">"; ">="] → is_ok (compare op l r) = numeric l && numeric r.
Proof.
  intros Hop. unfold compare, compareOther, numeric.
  assert (H1 : String.eqb op "==" = false) by (by decompose_list_elem_of; subst).
  assert (H2 : String.eqb op "!=" = false) by (by decompose_list_elem_of; subst).
  assert (H3 : ∀ x y, is_Some (compareFloat op x y)) by (intros; decompose_list_elem_of; subst; by eexists).
  rewrite H1, H2. cbn [negb andb].
  assert (Hl : isNil l = true → toFloat l = None) by (by destruct l).
  assert (Hr : isNil r = true → toFloat r = None) by (by destruct r).
  destruct (isNil l || isNil r) eqn:E; [apply orb_true_iff in E as [E|E]|]; cbn [is_ok EvalErrf].
  - by rewrite (Hl E).
  - rewrite (Hr E). by rewrite andb_false_r.
  - destruct (toFloat l) as [x|], (toFloat r) as [y|]; try done.
    destruct (H3 x y) as [b ->]. done.
Qed.

Lemma f64_eqb_sym x y : f64_eqb x y = f64_eqb y x.
Proof.
  unfold f64_eqb, SpecFloat.SFeqb, SpecFloat.SFcompare.
  destruct x as [[]|[]| |[] m e], y as [[]|[]| |[] m' e']; try done.
  all: rewrite (Z.compare_antisym e e'); destruct (Z.compare e e'); simpl; try done.
  all: change (PosDef.Pos.compare_cont Eq) with Pos.compare; rewrite (Pos.compare_antisym m m');
    by destruct (Pos.compare m m').
Qed.

Lemma compare_eq_sym l r b : compare "==" l r = Ok b → compare "==" r l = Ok b.
Proof.
  unfold compare, compareOther. rewrite (orb_comm (isNil r)), (andb_comm (isNil r)). simpl.
  destruct (isNil l || isNil r); [done|].
  destruct (toFloat l), (toFloat r); simpl; [by rewrite f64_eqb_sym|..].
  all: destruct l, r; simpl; try done; intros [= <-]; f_equal;
    first [by rewrite String.eqb_sym|by destruct b0, b1].
Qed.

Lemma compare_gt l r b : compare ">" l r = Ok b ↔ compare "<" r l = Ok b.
Proof.
  unfold compare, compareOther. rewrite (orb_comm (isNil r)). simpl.
  destruct (isNil l || isNil r); [done|]. by destruct (toFloat l), (toFloat r).
Qed.

(** ** Plain documents *)

(** No string of the document holds an opener. *)
Fixpoint plain_value (v : value) : bool :=
  match v with
  | VString s => negb (strContains s slotOpen)
  | VSlice l => forallb plain_value l
  | VMap l => forallb (λ kx : string * value, plain_value kx.2) l
  | _ => true
  end.

Section value_ind.
Context (P : value → Prop)
  (Hleaf : ∀ v, (∀ l, v ≠ VSlice l) → (∀ l, v ≠ VMap l) → P v)
  (Hslice : ∀ l, Forall P l → P (VSlice l))
  (Hmap : ∀ l, Forall (λ kx : string * value, P kx.2) l → P (VMap l)).

Fixpoint value_ind' (v : value) : P v :=
  match v with
  | VSlice l =>
      Hslice l ((fix go l : Forall P l :=
        match l with
        | [] => Forall_nil_2 P
        | x :: l => Forall_cons_2 P x l (value_ind' x) (go l)
        end) l)
  | VMap l =>
      Hmap l ((fix go l : Forall (λ kx : string * value, P kx.2) l :=
        match l with
        | [] => Forall_nil_2 _
        | kx :: l => Forall_cons_2 _ kx l (value_ind' kx.2) (go l)
        end) l)
  | v => Hleaf v ltac:(done) ltac:(done)
  end.
End value_ind.

Lemma scan_plain s : strIndex s slotOpen = None → scan s = Ok ([], []).
Proof. intros H. unfold scan. exact (scan_done (slen s) "" s H). Qed.

Lemma eval_string_plain R s :
  strContains s slotOpen = false → evalTemplateStringValue R s = Ok (VString s).
Proof.
  intros H%strContains_None%scan_plain. unfold evalTemplateStringValue, Slots, Substitute. by rewrite H.
Qed.

Lemma eval_plain R v : plain_value v = true → evalTemplateDecodedValue R v = Ok v.
Proof.
  induction v as [v Hs Hm|l IH|l IH] using value_ind'; intros Hp.
  - destruct v; try done; [|by edestruct Hs|by edestruct Hm].
    cbn in *. apply negb_true_iff in Hp. by apply eval_string_plain.
  - induction IH as [|x l Hx _ IHl]; [done|]. cbn in Hp. apply andb_true_iff in Hp as [H1 H2].
    specialize (IHl H2). cbn in *. rewrite Hx by done. cbn.
    match type of IHl with res_map _ ?X = _ => destruct X; [|done] end. by injection IHl as ->.
  - induction IH as [|[k x] l Hx _ IHl]; [done|]. cbn in Hp. apply andb_true_iff in Hp as [H1 H2].
    specialize (IHl H2). cbn in *. rewrite Hx by done. cbn.
    match type of IHl with res_map _ ?X = _ => destruct X; [|done] end. by injection IHl as ->.
Qed.

(** ** The properties *)

(** rendering is piecewise. Every host string either is rejected by the slot scanner, and then
    [Substitute] fails with AWF4005 at the scanner's offset; or it is the text of a canonical
    sequence of pieces and [Substitute] renders exactly those: literal text is copied, an escaped
    opener becomes an opener without its backslash, a slot becomes its scalar, and the first slot
    that fails decides the error. *)
Theorem Substitute_pieces R host :
  (∃ se, scan host = Err se ∧
         Substitute R host = Err (GEval (MkEvalError EvalCodeSyntax (EmSlotScan (sePos se) (seMsg se))))) ∨
  (∃ ps, flatten ps = host ∧ canonical ps = true ∧ Substitute R host = render R 0 ps).
Proof.
  destruct (scan host) as [[sl es]|se] eqn:E.
  - right. destruct (scan_pieces _ _ _ E) as (ps & <- & Hc & _ & _). exists ps.
    by rewrite Substitute_flatten.
  - left. exists se. unfold Substitute. by rewrite E.
Qed.

(** [&&] and [||] short-circuit and never coerce. [l && r] is [false] when [l] is [false],
    whatever [r] does, even when [r] would fail; otherwise [l] must be [true] and [r] a bool, which
    is the result.  Dually for [||]. *)
Theorem evalExpr_logical R l r v :
  (evalExpr R (AndExpr l r) = Ok v ↔
   (evalExpr R l = Ok (VBool false) ∧ v = VBool false) ∨
   (evalExpr R l = Ok (VBool true) ∧ ∃ b, evalExpr R r = Ok (VBool b) ∧ v = VBool b)) ∧
  (evalExpr R (OrExpr l r) = Ok v ↔
   (evalExpr R l = Ok (VBool true) ∧ v = VBool true) ∨
   (evalExpr R l = Ok (VBool false) ∧ ∃ b, evalExpr R r = Ok (VBool b) ∧ v = VBool b)).
Proof. split; apply evalLogical_ok. Qed.

(** an evaluation consults the scope only at the references [References] lists, which is what
    validation checks: two scopes that agree on them give the same result, errors included. *)
Theorem EvalBool_scope R R' e :
  (∀ r, r ∈ References e → R r = R' r) → EvalBool R e = EvalBool R' e.
Proof. intros H. unfold EvalBool. by rewrite (evalExpr_ext R R' e H). Qed.

Definition ex_ref : Ref := MkRef [identSegment "step" 0; identSegment "a" 5; identSegment "exit" 7].
Definition ex_cond : Expr := CmpExpr "==" (RefExpr ex_ref) (NumberLit "0").

Lemma EvalBool_scope_witness :
  EvalBool ex_scope ex_cond = EvalBool (λ _, Ok (VInt 0)) ex_cond ∧ EvalBool ex_scope ex_cond = Ok true.
Proof.
  split; [|by vm_compute]. apply (EvalBool_scope ex_scope (λ _, Ok (VInt 0)) ex_cond).
  intros r Hr. assert (r = ex_ref) as -> by set_solver. reflexivity.
Defined.

(** *** What an evaluation means

    A relational semantics of the expressions, next to the code: what an expression evaluates to, which
    of its parts an evaluation reaches, and what is wrong with a part. *)

(** The size that counts against the limit: of a string its bytes, of a composite its JSON. *)
Definition inlineSize (v : value) : option nat :=
  match v with VString s => Some (slen s) | VSlice _ | VMap _ => slen <$> Marshal v | _ => Some 0%nat end.
Definition fitsInline (v : value) : Prop := ∃ n, inlineSize v = Some n ∧ (Z.of_nat n ≤ 65536)%Z.
Definition notBool (v : value) : Prop := ∀ b, v ≠ VBool b.
Definition equality (op : string) : bool := String.eqb op "==" || String.eqb op "!=".

Inductive compares : string → value → value → bool → Prop :=
  | cp_null_eq a b : isNil a || isNil b = true → compares "==" a b (isNil a && isNil b)
  | cp_null_ne a b : isNil a || isNil b = true → compares "!=" a b (negb (isNil a && isNil b))
  | cp_num op a b x y c : toFloat a = Some x → toFloat b = Some y → compareFloat op x y = Some c → compares op a b c
  | cp_bool_eq x y : compares "==" (VBool x) (VBool y) (Bool.eqb x y)
  | cp_bool_ne x y : compares "!=" (VBool x) (VBool y) (negb (Bool.eqb x y))
  | cp_string_eq x y : compares "==" (VString x) (VString y) (String.eqb x y)
  | cp_string_ne x y : compares "!=" (VString x) (VString y) (negb (String.eqb x y)).
Inductive uncomparable (op : string) (a b : value) : EvalMsg → Prop :=
  | un_null : isNil a || isNil b = true → equality op = false → uncomparable op a b (EmNullOperand op)
  | un_order : isNil a || isNil b = false → equality op = false →
      (∀ x y c, toFloat a = Some x → toFloat b = Some y → compareFloat op x y ≠ Some c) →
      uncomparable op a b (EmNumericOperands op (goType a) (goType b))
  | un_types : isNil a || isNil b = false → equality op = true → numeric a && numeric b = false → sameKind a b = false →
      uncomparable op a b (EmAcrossTypes (goType a) (goType b)).

Section semantics.
Variable R : Ref → res goerr value.

Inductive evalsTo : Expr → value → Prop :=
  | ev_bool b : evalsTo (BoolLit b) (VBool b)
  | ev_string s : evalsTo (StringLit s) (VString s)
  | ev_number lit x : ParseFloat lit = Some x → evalsTo (NumberLit lit) (VFloat x)
  | ev_null : evalsTo NullLit VNil
  | ev_ref r v : R r = Ok v → fitsInline v → evalsTo (RefExpr r) v
  | ev_not x b : evalsTo x (VBool b) → evalsTo (NotExpr x) (VBool (negb b))
  | ev_and_short l r : evalsTo l (VBool false) → evalsTo (AndExpr l r) (VBool false)
  | ev_and l r b : evalsTo l (VBool true) → evalsTo r (VBool b) → evalsTo (AndExpr l r) (VBool b)
  | ev_or_short l r : evalsTo l (VBool true) → evalsTo (OrExpr l r) (VBool true)
  | ev_or l r b : evalsTo l (VBool false) → evalsTo r (VBool b) → evalsTo (OrExpr l r) (VBool b)
  | ev_cmp op l r a b c : evalsTo l a → evalsTo r b → compares op a b c → evalsTo (CmpExpr op l r) (VBool c).

(** The parts an evaluation comes to: the left operand first, the right one of [&&] and [||] only if
    the left one does not decide, the right one of a comparison if the left one has a value. *)
Inductive reached : Expr → Expr → Prop :=
  | re_here e : reached e e
  | re_not x s : reached x s → reached (NotExpr x) s
  | re_and_left l r s : reached l s → reached (AndExpr l r) s
  | re_and_right l r s : evalsTo l (VBool true) → reached r s → reached (AndExpr l r) s
  | re_or_left l r s : reached l s → reached (OrExpr l r) s
  | re_or_right l r s : evalsTo l (VBool false) → reached r s → reached (OrExpr l r) s
  | re_cmp_left op l r s : reached l s → reached (CmpExpr op l r) s
  | re_cmp_right op l r a s : evalsTo l a → reached r s → reached (CmpExpr op l r) s.

Definition evalError (code : string) (m : EvalMsg) : goerr := GEval (MkEvalError code m).
Inductive fault : Expr → goerr → Prop :=
  | fa_scope r x : R r = Err x → fault (RefExpr r) x
  | fa_large r v n : R r = Ok v → inlineSize v = Some n → (65536 < Z.of_nat n)%Z → fault (RefExpr r) (evalError "AWF4001" (EmOversize n))
  | fa_encode r v : R r = Ok v → inlineSize v = None → fault (RefExpr r) (evalError "AWF4004" EmNotEncodable)
  | fa_number lit : ParseFloat lit = None → fault (NumberLit lit) (evalError "AWF4004" (EmNumberLit lit))
  | fa_not x v : evalsTo x v → notBool v → fault (NotExpr x) (evalError "AWF4003" (EmNotBool "! operand" (goType v)))
  | fa_and_left l r v : evalsTo l v → notBool v → fault (AndExpr l r) (evalError "AWF4003" (EmNotBool "&& left operand" (goType v)))
  | fa_and_right l r v : evalsTo l (VBool true) → evalsTo r v → notBool v →
      fault (AndExpr l r) (evalError "AWF4003" (EmNotBool "&& right operand" (goType v)))
  | fa_or_left l r v : evalsTo l v → notBool v → fault (OrExpr l r) (evalError "AWF4003" (EmNotBool "|| left operand" (goType v)))
  | fa_or_right l r v : evalsTo l (VBool false) → evalsTo r v → notBool v →
      fault (OrExpr l r) (evalError "AWF4003" (EmNotBool "|| right operand" (goType v)))
  | fa_cmp op l r a b m : evalsTo l a → evalsTo r b → uncomparable op a b m → fault (CmpExpr op l r) (evalError "AWF4003" m).
Definition failsWith (e : Expr) (x : goerr) : Prop := ∃ s, reached e s ∧ fault s x.
End semantics.

Lemma inlineSize_gate v :
  (checkInlineSize v = Ok () ∧ fitsInline v) ∨
  (∃ n, checkInlineSize v = EvalErrf EvalCodeOversize (EmOversize n) ∧ inlineSize v = Some n ∧ (65536 < Z.of_nat n)%Z) ∨
  (checkInlineSize v = EvalErrf EvalCodeInvalidScalar EmNotEncodable ∧ inlineSize v = None).
Proof.
  assert (G : ∀ n, inlineSize v = Some n →
    checkInlineSize v = (if (MaxInlineBytes <? n)%nat then EvalErrf EvalCodeOversize (EmOversize n) else Ok ()) →
    (checkInlineSize v = Ok () ∧ fitsInline v) ∨
    (∃ n, checkInlineSize v = EvalErrf EvalCodeOversize (EmOversize n) ∧ inlineSize v = Some n ∧ (65536 < Z.of_nat n)%Z)).
  { intros n Hn ->. destruct (MaxInlineBytes <? n)%nat eqn:E; [right; exists n; apply Nat.ltb_lt in E|left; split; [done|]; exists n; apply Nat.ltb_ge in E];
      unfold MaxInlineBytes in E; (repeat split; [done|lia]). }
  destruct v; try (left; split; [done|]; by exists 0%nat).
  1: destruct (G _ eq_refl eq_refl) as [?|?]; auto.
  all: cbn [checkInlineSize inlineSize] in *; destruct (Marshal _) as [b|]; [|by right; right].
  all: destruct (G _ eq_refl eq_refl) as [?|?]; auto.
Qed.

Lemma compareOther_spec op a b :
  isNil a || isNil b = false → (∀ x y c, toFloat a = Some x → toFloat b = Some y → compareFloat op x y ≠ Some c) →
  match compareOther op a b with
  | Ok c => compares op a b c
  | Err x => ∃ m, uncomparable op a b m ∧ x = evalError "AWF4003" m
  end.
Proof.
  intros Hn Hf. unfold compareOther. rewrite <- negb_orb. fold (equality op). destruct (equality op) eqn:Eq; cbn [negb].
  - destruct (sameKind a b) eqn:Es; cbn [negb].
    + unfold equality in Eq. apply orb_prop in Eq as [->%String.eqb_eq| ->%String.eqb_eq]; destruct a, b; try done; cbn; constructor.
    + eexists. split; [|reflexivity]. apply un_types; [done..| |done]. unfold numeric, equality in *.
      destruct (toFloat a) as [x|] eqn:Ea; [|done]. destruct (toFloat b) as [y|] eqn:Eb; [|done]. exfalso.
      apply orb_prop in Eq as [->%String.eqb_eq| ->%String.eqb_eq]; by eapply Hf.
  - eexists. split; [|reflexivity]. by apply un_order.
Qed.

Lemma compare_spec op a b :
  match compare op a b with
  | Ok c => compares op a b c
  | Err x => ∃ m, uncomparable op a b m ∧ x = evalError "AWF4003" m
  end.
Proof.
  unfold compare. destruct (isNil a || isNil b) eqn:En.
  - destruct (String.eqb op "==") eqn:E1; [apply String.eqb_eq in E1 as ->; by constructor|].
    destruct (String.eqb op "!=") eqn:E2; [apply String.eqb_eq in E2 as ->; rewrite <- negb_andb; by constructor|].
    eexists. split; [apply un_null; [done|]|reflexivity]. unfold equality. by rewrite E1, E2.
  - destruct (toFloat a) as [x|] eqn:Ea, (toFloat b) as [y|] eqn:Eb;
      [destruct (compareFloat op x y) as [c|] eqn:Ec; [by eapply cp_num|]|..];
      apply compareOther_spec; try done; intros x' y' c'; rewrite Ea, Eb; try done. intros [= <-] [= <-]. by rewrite Ec.
Qed.

Lemma requireBool_spec role v :
  match requireBool role v with Ok b => v = VBool b | Err x => notBool v ∧ x = evalError "AWF4003" (EmNotBool role (goType v)) end.
Proof. destruct v; cbn; done. Qed.

Lemma evalLogical_spec R (conn : Expr → Expr → Expr) op (sc : bool) l r :
  (evalsTo R l (VBool sc) → evalsTo R (conn l r) (VBool sc)) →
  (∀ b, evalsTo R l (VBool (negb sc)) → evalsTo R r (VBool b) → evalsTo R (conn l r) (VBool b)) →
  (∀ x, failsWith R l x → failsWith R (conn l r) x) →
  (∀ x, evalsTo R l (VBool (negb sc)) → failsWith R r x → failsWith R (conn l r) x) →
  (∀ v, evalsTo R l v → notBool v → failsWith R (conn l r) (evalError "AWF4003" (EmNotBool (op +:+ " left operand") (goType v)))) →
  (∀ v, evalsTo R l (VBool (negb sc)) → evalsTo R r v → notBool v →
     failsWith R (conn l r) (evalError "AWF4003" (EmNotBool (op +:+ " right operand") (goType v)))) →
  (match evalExpr R l with Ok v => evalsTo R l v | Err x => failsWith R l x end) →
  (match evalExpr R r with Ok v => evalsTo R r v | Err x => failsWith R r x end) →
  match evalLogical (evalExpr R l) (λ _, evalExpr R r) op sc with
  | Ok v => evalsTo R (conn l r) v
  | Err x => failsWith R (conn l r) x
  end.
Proof.
  intros H1 H2 H3 H4 H5 H6 Hl Hr. unfold evalLogical. destruct (evalExpr R l) as [lv|x]; cbn [res_bind]; [|auto].
  pose proof (requireBool_spec (op +:+ " left operand") lv) as Hb. destruct (requireBool _ lv) as [lb|x]; cbn [res_bind];
    [subst lv|destruct Hb as [? ->]; auto].
  destruct (Bool.eqb lb sc) eqn:E; [apply Bool.eqb_prop in E as ->; auto|].
  assert (E' : lb = negb sc) by (by destruct lb, sc). subst lb.
  destruct (evalExpr R r) as [rv|x]; cbn [res_bind]; [|auto].
  pose proof (requireBool_spec (op +:+ " right operand") rv) as Hb. destruct (requireBool _ rv) as [rb|x]; cbn [res_map];
    [subst rv|destruct Hb as [? ->]]; auto.
Qed.

Lemma fails_step R e e' x : (∀ s, reached R e s → reached R e' s) → failsWith R e x → failsWith R e' x.
Proof. intros H (s & Hs & Hf). exists s. auto. Qed.
Lemma fails_here R e x : fault R e x → failsWith R e x.
Proof. exists e. by split; [constructor|]. Qed.
#[local] Hint Constructors evalsTo reached fault compares : eval_sem.
#[local] Hint Resolve fails_here : eval_sem.

(** The code computes the semantics. *)
Lemma evalExpr_spec R e :
  match evalExpr R e with Ok v => evalsTo R e v | Err x => failsWith R e x end.
Proof.
  induction e as [l IHl r IHr|l IHl r IHr|x IH|op l IHl r IHr|r|s|lit|b|]; cbn [evalExpr].
  - apply (evalLogical_spec R OrExpr); eauto using fails_step with eval_sem.
  - apply (evalLogical_spec R AndExpr); eauto using fails_step with eval_sem.
  - destruct (evalExpr R x) as [v|y]; cbn [res_bind]; [|eauto using fails_step with eval_sem].
    pose proof (requireBool_spec "! operand" v) as Hb. destruct (requireBool _ v) as [b|y]; cbn [res_bind];
      [subst v|destruct Hb as [? ->]]; eauto with eval_sem.
  - destruct (evalExpr R l) as [a|y]; cbn [res_bind]; [|eauto using fails_step with eval_sem].
    destruct (evalExpr R r) as [b|y]; cbn [res_bind]; [|eauto using fails_step with eval_sem].
    pose proof (compare_spec op a b) as Hc. destruct (compare op a b) as [c|y]; cbn [res_map];
      [|destruct Hc as (m & ? & ->)]; eauto with eval_sem.
  - unfold resolveRefValue. destruct (R r) as [v|y] eqn:Er; cbn [res_bind]; [|eauto with eval_sem].
    destruct (inlineSize_gate v) as [[-> ?]|[(n & -> & ? & ?)|[-> ?]]]; cbn [res_bind]; [eauto with eval_sem|apply fails_here..];
      [by apply (fa_large R r v)|by apply (fa_encode R r v)].
  - constructor.
  - destruct (ParseFloat lit) eqn:E; [eauto with eval_sem|by apply fails_here, fa_number].
  - constructor.
  - constructor.
Qed.
Lemma toFloat_notNil v x : toFloat v = Some x → isNil v = false.
Proof. by destruct v. Qed.
Lemma compares_compare op a b c : compares op a b c → compare op a b = Ok c.
Proof.
  destruct 1 as [a b Hn|a b Hn|op a b x y c Ha Hb Hc| | | | ]; try done; unfold compare.
  - by rewrite Hn.
  - by rewrite Hn, negb_andb.
  - by rewrite (toFloat_notNil _ _ Ha), (toFloat_notNil _ _ Hb), Ha, Hb, Hc.
Qed.
Lemma uncomparable_compare op a b m : uncomparable op a b m → compare op a b = Err (evalError "AWF4003" m).
Proof.
  unfold compare, compareOther, equality. destruct 1 as [Hn He|Hn He Hf|Hn He Hf Hs]; rewrite Hn; try apply orb_false_iff in He as [E1 E2].
  - by rewrite E1, E2.
  - rewrite E1, E2. destruct (toFloat a) as [x|] eqn:Ea; [|done]. destruct (toFloat b) as [y|] eqn:Eb; [|done].
    destruct (compareFloat op x y) eqn:Ec; [|done]. by exfalso; eapply Hf.
  - rewrite <- negb_orb. fold (equality op). rewrite He, Hs. unfold numeric in Hf. by destruct (toFloat a), (toFloat b).
Qed.
Lemma fitsInline_gate v : fitsInline v → checkInlineSize v = Ok ().
Proof.
  intros (n & Hn & Hle). destruct (inlineSize_gate v) as [[? _]|[(n' & _ & Hn' & ?)|[_ Hn']]]; [done|..]; rewrite Hn in Hn'; [injection Hn' as <-; lia|done].
Qed.
Lemma requireBool_not role v : notBool v → requireBool role v = Err (evalError "AWF4003" (EmNotBool role (goType v))).
Proof. destruct v; try done. intros H. by destruct (H b). Qed.

Lemma evalsTo_evalExpr R e v : evalsTo R e v → evalExpr R e = Ok v.
Proof.
  induction 1; cbn [evalExpr evalLogical]; unfold evalLogical; rewrite ?IHevalsTo, ?IHevalsTo1, ?IHevalsTo2; try done.
  - by rewrite H.
  - apply resolveRefValue_ok. by rewrite fitsInline_gate.
  - cbn [res_bind]. by rewrite (compares_compare _ _ _ _ H1).
Qed.
Lemma fault_evalExpr R e x : fault R e x → evalExpr R e = Err x.
Proof.
  destruct 1; cbn [evalExpr]; unfold evalLogical, resolveRefValue;
    repeat match goal with H : evalsTo _ _ _ |- _ => apply evalsTo_evalExpr in H; rewrite H end; cbn [res_bind requireBool Bool.eqb];
    repeat match goal with H : ?l = _ |- context [?l] => rewrite H end; cbn [res_bind];
    rewrite ?requireBool_not by done; try done.
  - destruct (inlineSize_gate v) as [[_ (n' & Hn & ?)]|[(n' & -> & Hn & ?)|[_ Hn]]]; rewrite Hn in H0; try done; injection H0 as <-; [lia|done].
  - destruct (inlineSize_gate v) as [[_ (n' & Hn & ?)]|[(n' & -> & Hn & ?)|[-> Hn]]]; try done; by rewrite Hn in H0.
  - by rewrite (uncomparable_compare _ _ _ _ H1).
Qed.
Lemma failsWith_evalExpr R e x : failsWith R e x → evalExpr R e = Err x.
Proof.
  intros (s & Hr & Hf). induction Hr; [by apply fault_evalExpr|..]; cbn [evalExpr]; unfold evalLogical;
    repeat match goal with H : evalsTo _ _ _ |- _ => apply evalsTo_evalExpr in H; rewrite H end; by rewrite (IHHr Hf).
Qed.

(** C36: evaluation, errors included.  An expression evaluates to [b] exactly when the semantics gives
    it the value [b].  It fails exactly when the evaluation reaches a part with a fault, with the error
    of that fault: the error of the scope; AWF4001 for a string or composite of more than 65536 bytes;
    AWF4004 for one JSON cannot encode, or a number out of range; AWF4003 for an operand of [!], [&&]
    or [||] that is not a bool, and for operands a comparison does not take; or when it has a value
    that is not a bool, with AWF4003.  The right operand of [&&] is reached only after [true], that of
    [||] only after [false]. *)
Theorem EvalBool_errors R e :
  (∀ b, EvalBool R e = Ok b ↔ evalsTo R e (VBool b)) ∧
  (∀ x, EvalBool R e = Err x ↔
     (∃ s, reached R e s ∧ fault R s x) ∨
     (∃ v, evalsTo R e v ∧ notBool v ∧ x = evalError "AWF4003" (EmNotBool "top-level expression" (goType v)))).
Proof.
  unfold EvalBool. split; [intros b|intros x]; split.
  - intros (v & Hv & Hb)%res_bind_ok. apply requireBool_ok in Hb as ->. pose proof (evalExpr_spec R e) as H. by rewrite Hv in H.
  - intros H%evalsTo_evalExpr. by rewrite H.
  - pose proof (evalExpr_spec R e) as H. destruct (evalExpr R e) as [v|y]; cbn [res_bind]; [|intros [= <-]; by left].
    pose proof (requireBool_spec "top-level expression" v) as Hb. destruct (requireBool _ v) as [b|y]; [done|].
    destruct Hb as [Hb ->]. intros [= <-]. right. by exists v.
  - intros [H%failsWith_evalExpr|(v & H%evalsTo_evalExpr & Hb & ->)]; rewrite H; [done|]. cbn [res_bind]. by apply requireBool_not.
Qed.

(** comparison never coerces. [==] is defined exactly on operands that are both numeric, of the
    same non-numeric kind, or one of which is null; [!=] is its negation, with the same errors; it is
    symmetric; the ordered operators are defined exactly on numeric operands, and [>] is [<] with
    the operands exchanged. *)
Theorem compare_laws l r :
  is_ok (compare "==" l r) = comparable l r ∧
  compare "!=" l r = res_map negb (compare "==" l r) ∧
  (∀ b, compare "==" l r = Ok b ↔ compare "==" r l = Ok b) ∧
  (∀ op, op ∈ ["<"; "<="; ">"; ">="] → is_ok (compare op l r) = numeric l && numeric r) ∧
  (∀ b, compare ">" l r = Ok b ↔ compare "<" r l = Ok b).
Proof.
  split; [apply compare_ok_eq|]. split; [apply compare_ne|].
  split; [split; apply compare_eq_sym|]. split; [intros op; apply compare_ok_lt|].
  intros b. apply compare_gt.
Qed.

(** the inline limit. A string (or the JSON text of a list or map) longer than 64 KiB that a
    reference resolves to never gets through: resolving it fails with AWF4001. *)
Theorem resolveRefValue_limit R r v :
  resolveRefValue R r = Ok v →
  R r = Ok v ∧
  match v with
  | VString s => slen s ≤ MaxInlineBytes
  | VSlice _ | VMap _ => ∃ b, Marshal v = Some b ∧ slen b ≤ MaxInlineBytes
  | _ => True
  end.
Proof.
  intros [HR Hc]%resolveRefValue_ok. split; [done|].
  destruct v; try done; [by apply checkInlineSize_string|..].
  all: unfold checkInlineSize in Hc; destruct (Marshal _) as [b|]; [|done].
  all: exists b; split; [done|]; apply Nat.ltb_ge; by destruct (MaxInlineBytes <? slen b)%nat.
Qed.

Definition ex_out : Ref := MkRef [identSegment "step" 0; identSegment "a" 5; identSegment "out" 7].

Lemma resolveRefValue_limit_witness :
  ex_scope ex_out = Ok (VString "hi") ∧ slen "hi" ≤ MaxInlineBytes.
Proof. apply (resolveRefValue_limit ex_scope ex_out (VString "hi")). reflexivity. Defined.

(** template values. A JSON document none of whose strings holds an opener evaluates to itself,
    whatever the scope; and a string that is exactly one slot evaluates to the typed value its
    reference resolves to, not to its rendering. *)
Theorem evalTemplate_leaves R v i ref :
  (plain_value v = true → evalTemplateDecodedValue R v = Ok v) ∧
  (inner_ok i = true → ParseRef i = Ok ref →
   evalTemplateDecodedValue R (VString (slotOpen +:+ i +:+ slotClose)) = resolveRefValue R ref).
Proof.
  split; [apply eval_plain|]. intros Hi Hr.
  assert (Hc : canonical [PSlot i] = true) by (cbn; by rewrite Hi).
  pose proof (scan_flatten _ Hc) as Hs. cbn [flatten spell_piece] in Hs. rewrite sapp_nil_r in Hs.
  cbn [evalTemplateDecodedValue]. unfold evalTemplateStringValue, Slots. rewrite Hs.
  cbn [res_map fst piece_slots slStart slEnd slInner spell_piece]. 
  rewrite Nat.add_0_l, !Nat.eqb_refl. cbn [andb]. by rewrite Hr.
Qed.

Lemma evalTemplate_leaves_witness :
  evalTemplateDecodedValue ex_scope (VMap [("n", VInt 1); ("s", VSlice [VString "a } b"])])
    = Ok (VMap [("n", VInt 1); ("s", VSlice [VString "a } b"])]) ∧
  evalTemplateDecodedValue ex_scope (VString "{{ step.a.exit }}") = Ok (VInt 0).
Proof.
  split.
  - apply (evalTemplate_leaves ex_scope _ "" ex_ref). reflexivity.
  - apply (evalTemplate_leaves ex_scope VNil " step.a.exit "
             (MkRef [identSegment "step" 1; identSegment "a" 6; identSegment "exit" 8])); reflexivity.
Defined.

(** A [json.Number] is not measured: a slot can render one of any length (the signal payload decoder
    produces them), although the gate's comment says that numbers are bounded. *)
Theorem number_not_gated n :
  ∃ R out, Substitute R "{{x}}" = Ok out ∧ (n < slen out)%nat.
Proof.
  assert (Hl : slen (srepeat "1" (S n)) = S n).
  { generalize (S n). intros m. induction m as [|m IH]; [done|]. simpl. by rewrite IH. }
  revert Hl. generalize (srepeat "1" (S n)). intros lit Hl.
  exists (λ _, Ok (VNumber lit)), lit. split; [|lia].
  transitivity (Ok (E:=goerr) (lit +:+ "")); [reflexivity|]. by rewrite sapp_nil_r.
Qed.
