(* ===== verification/F64Bounds.v ===== *)
(** * Magnitude bounds of float64 arithmetic

    [below x k]: [x] is a finite float64 with [0 <= x < 2^k].  Products, quotients and conversions
    of such numbers stay below the power of two the operands allow, up to one binade lost to
    rounding; enough to show that a duration computed in floating point does not overflow.
    [atMost x m e]: [0 <= x <= m * 2^e]; rounding respects such a bound when [m] has 53 digits. *)

From Stdlib Require Import Floats.SpecFloat.
From S2P Require Import Prelude GoNum.

Local Open Scope Z_scope.

Definition below (x : f64) (k : Z) : Prop :=
  match x with
  | S754_zero false => True
  | S754_finite false m e => Zdigits2 (Zpos m) + e ≤ k
  | _ => False
  end.

Lemma below_weaken x k k' : below x k → k ≤ k' → below x k'.
Proof. destruct x as [[]|[]| |[] m e]; simpl; try done. lia. Qed.

(** ** Number of binary digits *)

Lemma digits2_spec p : 2 ^ (Zpos (digits2_pos p) - 1) ≤ Zpos p < 2 ^ Zpos (digits2_pos p).
Proof.
  induction p as [p IH|p IH|]; cbn [digits2_pos]; [..|done].
  all: rewrite Pos2Z.inj_succ; unfold Z.succ; rewrite Z.add_simpl_r.
  all: replace (2 ^ Zpos (digits2_pos p)) with (2 * 2 ^ (Zpos (digits2_pos p) - 1)) in IH
         by (rewrite <- Z.pow_succ_r by lia; f_equal; lia).
  all: rewrite Z.pow_add_r by lia; change (2 ^ 1) with 2.
  all: replace (2 ^ Zpos (digits2_pos p)) with (2 * 2 ^ (Zpos (digits2_pos p) - 1))
         by (rewrite <- Z.pow_succ_r by lia; f_equal; lia).
  all: lia.
Qed.

Lemma digits2_le z k : 0 ≤ k → 0 ≤ z < 2 ^ k → Zdigits2 z ≤ k.
Proof.
  intros Hk Hz. destruct z as [|p|]; [simpl; lia| |lia]. cbn [Zdigits2].
  destruct (digits2_spec p) as [H _]. apply Z.le_ngt. intros Hlt.
  assert (2 ^ k ≤ 2 ^ (Zpos (digits2_pos p) - 1)) by (apply Z.pow_le_mono_r; lia). lia.
Qed.

Lemma digits2_lt z : 0 ≤ z → z < 2 ^ Zdigits2 z.
Proof. destruct z as [|p|]; [done| |lia]. intros _. apply digits2_spec. Qed.

Lemma digits2_nonneg z : 0 ≤ Zdigits2 z.
Proof. destruct z; simpl; lia. Qed.

Lemma digits2_mul p q : Zdigits2 (Zpos (p * q)) ≤ Zdigits2 (Zpos p) + Zdigits2 (Zpos q).
Proof.
  pose proof (digits2_nonneg (Zpos p)). pose proof (digits2_nonneg (Zpos q)).
  apply digits2_le; [lia|]. rewrite Z.pow_add_r by lia. split; [lia|].
  rewrite Pos2Z.inj_mul. apply Z.mul_lt_mono_nonneg; try lia; by apply digits2_lt.
Qed.

Lemma digits2_incr z : 0 ≤ z → Zdigits2 (z + 1) ≤ Zdigits2 z + 1.
Proof.
  intros Hz. pose proof (digits2_nonneg z). apply digits2_le; [lia|]. pose proof (digits2_lt z Hz).
  rewrite Z.pow_add_r by lia. change (2 ^ 1) with 2.
  assert (1 ≤ 2 ^ Zdigits2 z) by (apply Z.lt_pred_le, Z.pow_pos_nonneg; lia). lia.
Qed.

(** ** Rounding *)

Lemma shr_1_digits r : 0 ≤ shr_m r →
  0 ≤ shr_m (shr_1 r) ∧ Zdigits2 (shr_m (shr_1 r)) = Z.max 0 (Zdigits2 (shr_m r) - 1).
Proof. destruct r as [[|[p|p|]|] r s]; cbn; intros H; try lia; split; try lia. Qed.

Lemma shr_iter_digits n : ∀ r, 0 ≤ shr_m r →
  0 ≤ shr_m (SpecFloat.iter_pos shr_1 n r) ∧
  Zdigits2 (shr_m (SpecFloat.iter_pos shr_1 n r)) = Z.max 0 (Zdigits2 (shr_m r) - Zpos n).
Proof.
  induction n as [n IH|n IH|]; intros r Hr; cbn [SpecFloat.iter_pos].
  - destruct (shr_1_digits r Hr) as [H1 D1]. destruct (IH _ H1) as [H2 D2].
    destruct (IH _ H2) as [H3 D3]. lia.
  - destruct (IH _ Hr) as [H2 D2]. destruct (IH _ H2) as [H3 D3]. lia.
  - by apply shr_1_digits.
Qed.

Notation emin64 := (-1074) (only parsing).

Lemma shr_fexp_below m e l k :
  0 ≤ m → Zdigits2 m + e ≤ k → emin64 < k →
  let '(r, e') := shr_fexp 53 1024 m e l in 0 ≤ shr_m r ∧ Zdigits2 (shr_m r) + e' ≤ k.
Proof.
  intros Hm Hk Hmin. unfold shr_fexp.
  assert (Hrec : shr_m (shr_record_of_loc m l) = m) by (by destruct l as [|[]]).
  assert (Hf : fexp 53 1024 (Zdigits2 m + e) < k).
  { unfold fexp, SpecFloat.emin. lia. }
  unfold shr. destruct (fexp 53 1024 (Zdigits2 m + e) - e) as [|n|n] eqn:En; [by rewrite Hrec| |by rewrite Hrec].
  destruct (shr_iter_digits n (shr_record_of_loc m l)) as [H1 D]; [by rewrite Hrec|].
  rewrite Hrec in D. lia.
Qed.

Lemma round_nearest_below m l k e :
  0 ≤ m → Zdigits2 m + e ≤ k →
  0 ≤ round_nearest_even m l ∧ Zdigits2 (round_nearest_even m l) + e ≤ k + 1.
Proof.
  intros Hm Hk. pose proof (digits2_incr m Hm).
  destruct l as [|[]]; simpl; [lia| |lia|lia]. destruct (Z.even m); lia.
Qed.

Lemma binary_round_aux_below m e l k :
  0 ≤ m → Zdigits2 m + e ≤ k → emin64 < k < 970 → below (binary_round_aux 53 1024 false m e l) (k + 1).
Proof.
  intros Hm Hk Hr. unfold binary_round_aux.
  pose proof (shr_fexp_below m e l k Hm Hk ltac:(lia)) as H1.
  destruct (shr_fexp 53 1024 m e l) as [r e1]. destruct H1 as [H1 H2].
  destruct (round_nearest_below (shr_m r) (loc_of_shr_record r) k e1 H1 H2) as [H3 H4].
  pose proof (shr_fexp_below _ e1 loc_Exact (k + 1) H3 H4 ltac:(lia)) as H5.
  destruct (shr_fexp 53 1024 (round_nearest_even _ _) e1 loc_Exact) as [r2 e2]. destruct H5 as [H5 H6].
  destruct (shr_m r2) as [|p|p]; [done| |lia].
  assert (He : (e2 <=? 1024 - 53) = true).
  { apply Z.leb_le. cbn [Zdigits2] in H6. lia. }
  by rewrite He.
Qed.

Lemma shl_align_digits m e e' :
  let '(m', e1) := shl_align m e e' in Zdigits2 (Zpos m') + e1 = Zdigits2 (Zpos m) + e.
Proof.
  unfold shl_align. destruct (e' - e) as [|d|d] eqn:Ed; [done..|].
  assert (H : ∀ q, Zdigits2 (Zpos (Pos.iter xO q d)) = Zdigits2 (Zpos q) + Zpos d).
  { intros q. revert Ed. clear. intros _. induction d as [|d IH] using Pos.peano_ind; [simpl; lia|].
    rewrite Pos.iter_succ. cbn [Zdigits2 digits2_pos] in *. lia. }
  rewrite H. lia.
Qed.

Lemma f64_of_Z_below z k : 0 ≤ z < 2 ^ k → 0 ≤ k < 970 → below (f64_of_Z z) (k + 1).
Proof.
  intros Hz Hk. destruct z as [|p|]; [done| |lia]. unfold f64_of_Z, binary_normalize, binary_round.
  pose proof (shl_align_digits p 0 (fexp 53 1024 (Zpos (digits2_pos p) + 0))) as H.
  destruct (shl_align _ _ _) as [mz ez]. apply binary_round_aux_below; [lia| |lia].
  rewrite H. pose proof (digits2_le (Zpos p) k ltac:(lia) Hz). lia.
Qed.

Lemma f64_mul_below x y k k' :
  below x k → below y k' → emin64 < k + k' < 970 → below (f64_mul x y) (k + k' + 1).
Proof.
  unfold f64_mul. destruct x as [[]|[]| |[] m e], y as [[]|[]| |[] m' e']; try done.
  intros H1 H2 Hk. cbn [SFmul xorb]. cbn [below] in H1, H2. apply binary_round_aux_below; [lia| |lia].
  pose proof (digits2_mul m m'). lia.
Qed.

(** Division by a normal number at least [2^j]. *)
Lemma f64_div_below x m2 e2 k j :
  below x k → j < Zdigits2 (Zpos m2) + e2 → emin64 + 54 < k - j < 960 →
  below (f64_div x (S754_finite false m2 e2)) (k - j + 1).
Proof.
  unfold f64_div. destruct x as [[]|[]| |[] m1 e1]; try done.
  intros H1 Hj Hk. cbn [below] in H1. cbn [SFdiv]. unfold SFdiv_core_binary.
  set (e' := Z.min _ _). set (s := e1 - e2 - e').
  assert (Hs : 0 ≤ s) by (unfold s, e'; lia).
  set (m' := match s with Z0 => Zpos m1 | Zpos _ => Z.shiftl (Zpos m1) s | Zneg _ => 0 end).
  assert (Em : m' = Zpos m1 * 2 ^ s).
  { unfold m'. destruct s as [|s'|s']; [lia|by rewrite Z.shiftl_mul_pow2 by lia|lia]. }
  destruct (Z.div_eucl m' (Zpos m2)) as [q r] eqn:Eq. cbn [xorb].
  assert (Hq : q = m' / Zpos m2) by (unfold Z.div; by rewrite Eq).
  assert (Hq0 : 0 ≤ q) by (rewrite Hq; apply Z.div_pos; lia).
  destruct (digits2_spec m2) as [Hm2 _]. pose proof (digits2_lt (Zpos m1) ltac:(lia)) as Hm1.
  set (d1 := Zdigits2 (Zpos m1)) in *. set (d2 := Zpos (digits2_pos m2)) in *.
  assert (Hd1 : 0 < d1) by (unfold d1; simpl; lia). assert (Hd2 : 0 < d2) by (unfold d2; lia).
  apply binary_round_aux_below; [done| |lia].
  assert (Hb : q < 2 ^ Z.max 0 (d1 + s - (d2 - 1))).
  { rewrite Hq. apply Z.div_lt_upper_bound; [lia|].
    apply Z.lt_le_trans with (2 ^ (d1 + s)).
    - rewrite Em, Z.pow_add_r by lia. apply Z.mul_lt_mono_pos_r; [|done]. apply Z.pow_pos_nonneg; lia.
    - apply Z.le_trans with (2 ^ (d2 - 1) * 2 ^ Z.max 0 (d1 + s - (d2 - 1))).
      + rewrite <- Z.pow_add_r by lia. apply Z.pow_le_mono_r; lia.
      + apply Z.mul_le_mono_nonneg_r; [|done]. apply Z.pow_nonneg; lia. }
  pose proof (digits2_le q _ (Z.le_max_l 0 _) (conj Hq0 Hb)) as Hdq.
  change (Zdigits2 (Zpos m2)) with d2 in Hj.
  destruct (Z.max_spec 0 (d1 + s - (d2 - 1))) as [[? Hmx]|[? Hmx]]; rewrite Hmx in Hdq; [unfold s in *; lia|].
  apply Z.le_trans with e'; [lia|]. unfold e'.
  apply Z.le_trans with (fexp 53 1024 (d1 + e1 - (d2 + e2))); [apply Z.le_min_l|].
  unfold fexp, SpecFloat.emin. lia.
Qed.

(** Truncation of a bounded float. *)
Lemma f64_trunc_below x k : 0 ≤ k → below x k → 0 ≤ f64_trunc x < 2 ^ k.
Proof.
  intros Hk. assert (0 < 2 ^ k) by (apply Z.pow_pos_nonneg; lia).
  destruct x as [[]|[]| |[] m e]; try done. cbn [below]. intros H1. unfold f64_trunc.
  pose proof (digits2_lt (Zpos m) ltac:(lia)) as Hm. set (d := Zdigits2 (Zpos m)) in *.
  assert (Hd : 0 < d) by (unfold d; simpl; lia).
  destruct (Z.leb_spec 0 e).
  - split; [apply Z.mul_nonneg_nonneg; [lia|apply Z.pow_nonneg; lia]|].
    apply Z.lt_le_trans with (2 ^ d * 2 ^ e).
    + apply Z.mul_lt_mono_pos_r; [apply Z.pow_pos_nonneg; lia|done].
    + rewrite <- Z.pow_add_r by lia. apply Z.pow_le_mono_r; lia.
  - split; [apply Z.div_pos; [lia|apply Z.pow_pos_nonneg; lia]|].
    apply Z.div_lt_upper_bound; [apply Z.pow_pos_nonneg; lia|].
    apply Z.lt_le_trans with (2 ^ d); [done|]. rewrite <- Z.pow_add_r by lia. apply Z.pow_le_mono_r; lia.
Qed.

(** ** Rounding up to a representable bound

    [atMost x m e]: [x] is a finite float64 with [0 <= x <= m * 2^e].  Rounding does not take a number
    past such a bound when the bound itself has at most 53 digits. *)

Definition atMost (x : f64) (M E : Z) : Prop :=
  match x with
  | S754_zero false => True
  | S754_finite false m e => e ≤ E ∧ Zpos m ≤ M * 2 ^ (E - e)
  | _ => False
  end.

(** The least integer above a mantissa and what was shifted out of it. *)
Definition ceiling (r : shr_record) : Z := shr_m r + (if shr_r r || shr_s r then 1 else 0).

Lemma shr_1_ceiling r k : 0 ≤ shr_m r → ceiling r ≤ k * 2 → ceiling (shr_1 r) ≤ k.
Proof. destruct r as [[|[p|p|]|] r s]; unfold ceiling; cbn; intros H; destruct r, s; cbn; lia. Qed.

Lemma shr_iter_ceiling n : ∀ r k, 0 ≤ shr_m r → ceiling r ≤ k * 2 ^ Zpos n → ceiling (SpecFloat.iter_pos shr_1 n r) ≤ k.
Proof.
  induction n as [n IH|n IH|]; intros r k Hr Hk; cbn [SpecFloat.iter_pos].
  - destruct (shr_1_digits r Hr) as [H1 _]. destruct (shr_iter_digits n _ H1) as [H2 _].
    apply IH, IH, shr_1_ceiling; [done..|]. replace (Zpos n~1) with (Zpos n + Zpos n + 1) in Hk by lia.
    rewrite !Z.pow_add_r in Hk by lia. lia.
  - destruct (shr_iter_digits n _ Hr) as [H2 _]. apply IH, IH; [done..|].
    replace (Zpos n~0) with (Zpos n + Zpos n) in Hk by lia. rewrite Z.pow_add_r in Hk by lia. lia.
  - by apply shr_1_ceiling.
Qed.

Lemma shr_fexp_atMost m e l M E :
  0 ≤ m → ceiling (shr_record_of_loc m l) ≤ M * 2 ^ (E - e) → 0 < M → e ≤ E → Zdigits2 M ≤ 53 → emin64 ≤ E →
  let '(r, e') := shr_fexp 53 1024 m e l in 0 ≤ shr_m r ∧ e' ≤ E ∧ ceiling r ≤ M * 2 ^ (E - e').
Proof.
  intros Hm Hc HM He Hd HE. unfold shr_fexp.
  assert (Hrec : shr_m (shr_record_of_loc m l) = m) by (by destruct l as [|[]]).
  assert (Hle : m ≤ M * 2 ^ (E - e)).
  { unfold ceiling in Hc. rewrite Hrec in Hc. destruct (_ || _) in Hc; lia. }
  assert (Hdm : Zdigits2 m ≤ Zdigits2 M + (E - e)).
  { pose proof (digits2_nonneg M). apply digits2_le; [lia|]. split; [done|]. rewrite Z.pow_add_r by lia.
    apply Z.le_lt_trans with (1 := Hle), Z.mul_lt_mono_pos_r; [apply Z.pow_pos_nonneg; lia|]. apply digits2_lt. lia. }
  assert (Hf : fexp 53 1024 (Zdigits2 m + e) ≤ E) by (unfold fexp, SpecFloat.emin; lia).
  unfold shr. destruct (fexp 53 1024 (Zdigits2 m + e) - e) as [|n|n] eqn:En; [by rewrite Hrec| |by rewrite Hrec].
  destruct (shr_iter_digits n (shr_record_of_loc m l)) as [H1 _]; [by rewrite Hrec|].
  split; [done|]. split; [lia|]. apply shr_iter_ceiling; [by rewrite Hrec|].
  rewrite <- Z.mul_assoc, <- Z.pow_add_r by lia. by replace (E - (e + Zpos n) + Zpos n) with (E - e) by lia.
Qed.

Lemma round_nearest_ceiling r : 0 ≤ shr_m r →
  0 ≤ round_nearest_even (shr_m r) (loc_of_shr_record r) ≤ ceiling r.
Proof. destruct r as [m [] []]; unfold ceiling; cbn; intros H; [lia|destruct (Z.even m); lia|lia|lia]. Qed.

Lemma binary_round_aux_atMost m e l M E :
  0 ≤ m → ceiling (shr_record_of_loc m l) ≤ M * 2 ^ (E - e) → 0 < M → e ≤ E → Zdigits2 M ≤ 53 → emin64 ≤ E < 970 →
  atMost (binary_round_aux 53 1024 false m e l) M E.
Proof.
  intros Hm Hc HM He Hd HE. unfold binary_round_aux.
  pose proof (shr_fexp_atMost m e l M E Hm Hc HM He Hd ltac:(lia)) as H1.
  destruct (shr_fexp 53 1024 m e l) as [r e1]. destruct H1 as (H1 & H2 & H3).
  destruct (round_nearest_ceiling r H1) as [H4 H5].
  pose proof (shr_fexp_atMost _ e1 loc_Exact M E H4 ltac:(unfold ceiling; cbn; lia) HM H2 Hd ltac:(lia)) as H6.
  destruct (shr_fexp 53 1024 (round_nearest_even _ _) e1 loc_Exact) as [r2 e2]. destruct H6 as (H6 & H7 & H8).
  unfold ceiling in H8. destruct (shr_m r2) as [|p|p]; [done| |lia].
  assert (Hle : (e2 <=? 1024 - 53) = true) by (apply Z.leb_le; lia). rewrite Hle. split; [done|].
  destruct (_ || _) in H8; lia.
Qed.

Lemma f64_of_Z_atMost z M E : 0 ≤ z ≤ M * 2 ^ E → 0 < M → Zdigits2 M ≤ 53 → 0 ≤ E < 970 → atMost (f64_of_Z z) M E.
Proof.
  intros Hz HM Hd HE. destruct z as [|p|]; [done| |lia]. unfold f64_of_Z, binary_normalize, binary_round, shl_align.
  destruct (fexp 53 1024 (Zpos (digits2_pos p) + 0) - 0) as [|d|d] eqn:Ed.
  1,2: apply binary_round_aux_atMost; [lia| |done|lia|done|lia]; unfold ceiling; cbn; rewrite Z.sub_0_r; lia.
  rewrite Z.sub_0_r in Ed. rewrite Ed. apply binary_round_aux_atMost; [lia| |done|lia|done|lia].
  assert (Es : Zpos (Pos.iter xO p d) = Zpos p * 2 ^ Zpos d).
  { clear. induction d as [|d IH] using Pos.peano_ind; [simpl; lia|].
    rewrite Pos.iter_succ, Pos2Z.inj_xO, IH, Pos2Z.inj_succ, Z.pow_succ_r by lia. lia. }
  unfold ceiling. cbn [shr_m shr_r shr_s shr_record_of_loc orb]. rewrite Es, Z.add_0_r.
  replace (E - Zneg d) with (E + Zpos d) by lia. rewrite Z.pow_add_r, Z.mul_assoc by lia.
  apply Z.mul_le_mono_nonneg_r; [apply Z.pow_nonneg; lia|lia].
Qed.

Lemma f64_mul_atMost x y M E M' E' :
  atMost x M E → atMost y M' E' → 0 < M → 0 < M' → Zdigits2 (M * M') ≤ 53 → emin64 ≤ E + E' < 970 →
  atMost (f64_mul x y) (M * M') (E + E').
Proof.
  unfold f64_mul. destruct x as [[]|[]| |[] m e], y as [[]|[]| |[] m' e']; try done.
  intros [H1 H2] [H3 H4] HM HM' Hd HE. cbn [SFmul xorb]. apply binary_round_aux_atMost; [lia| |lia|lia|done|done].
  unfold ceiling. cbn [shr_m shr_r shr_s shr_record_of_loc orb]. rewrite Z.add_0_r, Pos2Z.inj_mul.
  replace (E + E' - (e + e')) with (E - e + (E' - e')) by lia. rewrite Z.pow_add_r by lia.
  replace (M * M' * (2 ^ (E - e) * 2 ^ (E' - e'))) with ((M * 2 ^ (E - e)) * (M' * 2 ^ (E' - e'))) by lia.
  apply Z.mul_le_mono_nonneg; lia.
Qed.

Lemma new_location_exact n r : r = 0 → new_location n r = loc_Exact.
Proof. intros ->. unfold new_location, new_location_even, new_location_odd. by destruct (Z.even n). Qed.
Lemma ceiling_of_loc m l : ceiling (shr_record_of_loc m l) ≤ m + 1.
Proof. destruct l as [|[]]; unfold ceiling; cbn; lia. Qed.

(** Division by a power of two, [m2 * 2^e2 = 2^k]: the quotient of what is at most [2^k] is at most 1. *)
Lemma f64_div_atMost x m2 e2 k :
  atMost x 1 k → 0 ≤ e2 ≤ k → Zpos m2 = 2 ^ (k - e2) → atMost (f64_div x (S754_finite false m2 e2)) 1 0.
Proof.
  unfold f64_div. destruct x as [[]|[]| |[] m1 e1]; try done.
  intros [He Hm] Hk Hm2. cbn [SFdiv]. unfold SFdiv_core_binary.
  set (e' := Z.min _ _). set (s := e1 - e2 - e').
  assert (Hs : 0 ≤ s) by (unfold s, e'; lia).
  set (m' := match s with Z0 => Zpos m1 | Zpos _ => Z.shiftl (Zpos m1) s | Zneg _ => 0 end).
  assert (Em : m' = Zpos m1 * 2 ^ s).
  { unfold m'. destruct s as [|s'|s']; [lia|by rewrite Z.shiftl_mul_pow2 by lia|lia]. }
  assert (Hd1 : Zdigits2 (Zpos m1) + e1 ≤ k + 1).
  { rewrite Z.mul_1_l in Hm. assert (Zdigits2 (Zpos m1) ≤ k - e1 + 1); [|lia]. apply digits2_le; [lia|].
    rewrite Z.pow_add_r by lia. change (2 ^ 1) with 2. assert (0 < 2 ^ (k - e1)) by (apply Z.pow_pos_nonneg; lia). lia. }
  assert (Hd2 : k - e2 < Zdigits2 (Zpos m2)).
  { apply Z.nle_gt. intros H. pose proof (digits2_lt (Zpos m2) ltac:(lia)).
    assert (2 ^ Zdigits2 (Zpos m2) ≤ 2 ^ (k - e2)) by (apply Z.pow_le_mono_r; lia). lia. }
  assert (He' : e' ≤ 0).
  { apply Z.le_trans with (1 := Z.le_min_l _ _). unfold fexp, SpecFloat.emin. lia. }
  pose proof (Z.div_eucl_eq m' (Zpos m2) ltac:(lia)) as Hq. pose proof (Z.mod_pos_bound m' (Zpos m2) ltac:(lia)) as Hr.
  unfold Z.modulo in Hr. destruct (Z.div_eucl m' (Zpos m2)) as [q r]. cbn [xorb].
  assert (Hle : m' ≤ Zpos m2 * 2 ^ (- e')).
  { rewrite Em, Hm2, <- Z.pow_add_r by lia. apply Z.le_trans with (2 ^ (k - e1) * 2 ^ s).
    - apply Z.mul_le_mono_nonneg_r; [apply Z.pow_nonneg; lia|lia].
    - rewrite <- Z.pow_add_r by lia. apply Z.pow_le_mono_r; unfold s; lia. }
  assert (Hm0 : 0 ≤ m') by (rewrite Em; apply Z.mul_nonneg_nonneg; [lia|apply Z.pow_nonneg; lia]).
  assert (Hq0 : 0 ≤ q) by nia.
  apply binary_round_aux_atMost; [done| |done|done|done|done]. rewrite Z.mul_1_l, Z.sub_0_l.
  assert (Hup : q + (if decide (r = 0) then 0 else 1) ≤ 2 ^ (- e')) by (case_decide; nia).
  case_decide as Hr0; [rewrite new_location_exact by done; unfold ceiling; cbn; lia|].
  pose proof (ceiling_of_loc q (new_location (Zpos m2) r)). lia.
Qed.

(** The integer part. *)
Lemma f64_trunc_atMost x M k : atMost x M (- k) → 0 ≤ k → 0 ≤ M → 0 ≤ f64_trunc x ≤ M / 2 ^ k.
Proof.
  intros H Hk HM. assert (0 < 2 ^ k) by (apply Z.pow_pos_nonneg; lia).
  destruct x as [[]|[]| |[] m e]; try done; [split; [done|apply Z.div_pos; lia]|]. destruct H as [He Hm]. unfold f64_trunc.
  assert (Hle : (0 <=? e) = true → e = 0 ∧ k = 0) by (intros ?%Z.leb_le; lia).
  destruct (Z.leb_spec 0 e).
  - destruct (Hle eq_refl) as [-> ->]. cbn in Hm |- *. rewrite Z.div_1_r. lia.
  - assert (0 < 2 ^ (- e)) by (apply Z.pow_pos_nonneg; lia). split; [apply Z.div_pos; lia|].
    apply Z.div_le_lower_bound; [done|]. apply Z.mul_le_mono_pos_r with (2 ^ (- k - e)); [apply Z.pow_pos_nonneg; lia|].
    apply Z.le_trans with (2 := Hm). replace (2 ^ k * (Zpos m / 2 ^ (- e)) * 2 ^ (- k - e)) with (2 ^ (- e) * (Zpos m / 2 ^ (- e))).
    + apply Z.mul_div_le. done.
    + replace (2 ^ (- e)) with (2 ^ k * 2 ^ (- k - e)) at 1 by (rewrite <- Z.pow_add_r by lia; f_equal; lia). lia.
Qed.
