(* ===== verification/Sha256.v ===== *)
(** * SHA-256 and hexadecimal text

    The two Standard Library functions the retry jitter and the blob store compute with, written out
    executably ([sha256.Sum256], [hex.EncodeToString]) on byte strings.  Words are 32-bit integers
    in [Z]. *)

From S2P Require Import Prelude.

Local Open Scope Z_scope.

Definition w32 (z : Z) : Z := z mod two32.
Definition rotr (n x : Z) : Z := Z.lor (Z.shiftr x n) (w32 (Z.shiftl x (32 - n))).

(** The round constants: the first 32 bits of the fractional parts of the cube roots of the first 64
    primes; the initial state: the same of the square roots of the first eight. *)
Definition is_prime (n : Z) : bool :=
  forallb (λ d, negb (n mod Z.of_nat d =? 0)) (seq 2 (Z.to_nat n - 2)).
Definition primes : list Z := List.filter is_prime (map Z.of_nat (seq 2 310)).
(** The integer cube root of [n], bit by bit from [bit] downwards. *)
Fixpoint cbrt_from (bit : nat) (r n : Z) : Z :=
  let r' := r + 2 ^ Z.of_nat bit in
  let r := if r' ^ 3 <=? n then r' else r in
  match bit with O => r | S bit => cbrt_from bit r n end.

Definition k256 : list Z := Eval vm_compute in map (λ p, w32 (cbrt_from 36 0 (p * 2 ^ 96))) primes.
Definition h256 : list Z := Eval vm_compute in map (λ p, w32 (Z.sqrt (p * 2 ^ 64))) (take 8 primes).

(** Big-endian words of a byte list, four bytes each. *)
Fixpoint be_words (l : list Z) : list Z :=
  match l with
  | a :: b :: c :: d :: l => (((a * 256 + b) * 256 + c) * 256 + d) :: be_words l
  | _ => []
  end.

Definition be_bytes (w : Z) (n : nat) : list Z :=
  rev (map (λ i, Z.shiftr w (8 * Z.of_nat i) mod 256) (seq 0 n)).

Definition byte_of (c : ascii) : Z := Z.of_nat (nat_of_ascii c).
Definition sbytes (s : string) : list Z := map byte_of (list_ascii_of_string s).

(** The message with its padding: a one bit, zeros, the length in bits. *)
Definition pad256 (m : list Z) : list Z :=
  let n := Z.of_nat (length m) in
  m ++ 0x80 :: repeat 0 (Z.to_nat ((55 - n) mod 64)) ++ be_bytes (8 * n) 8.

(** The message schedule, newest word first. *)
Fixpoint extend (n : nat) (ws : list Z) : list Z :=
  match n with
  | O => ws
  | S n =>
      let w i := nth i ws 0 in
      let s0 := Z.lxor (Z.lxor (rotr 7 (w 14%nat)) (rotr 18 (w 14%nat))) (Z.shiftr (w 14%nat) 3) in
      let s1 := Z.lxor (Z.lxor (rotr 17 (w 1%nat)) (rotr 19 (w 1%nat))) (Z.shiftr (w 1%nat) 10) in
      extend n (w32 (w 15%nat + s0 + w 6%nat + s1) :: ws)
  end.

Definition round256 (st : list Z) (kw : Z * Z) : list Z :=
  match st with
  | [a; b; c; d; e; f; g; h] =>
      let S1 := Z.lxor (Z.lxor (rotr 6 e) (rotr 11 e)) (rotr 25 e) in
      let ch := Z.lxor (Z.land e f) (Z.land (Z.lxor e 0xffffffff) g) in
      let t1 := h + S1 + ch + kw.1 + kw.2 in
      let S0 := Z.lxor (Z.lxor (rotr 2 a) (rotr 13 a)) (rotr 22 a) in
      let maj := Z.lxor (Z.lxor (Z.land a b) (Z.land a c)) (Z.land b c) in
      [w32 (t1 + S0 + maj); a; b; c; w32 (d + t1); e; f; g]
  | _ => st
  end.

Definition block256 (st ws : list Z) : list Z :=
  let sched := rev (extend 48 (rev ws)) in
  zip_with (λ x y, w32 (x + y)) st (fold_left round256 (zip k256 sched) st).

Fixpoint blocks256 (fuel : nat) (st ws : list Z) : list Z :=
  match fuel with
  | O => st
  | S f => match ws with [] => st | _ => blocks256 f (block256 st (take 16 ws)) (drop 16 ws) end
  end.

(** The digest: 32 bytes. *)
Definition Sum256 (s : string) : list Z :=
  let ws := be_words (pad256 (sbytes s)) in
  concat (map (λ w, be_bytes w 4) (blocks256 (length ws) h256 ws)).

(** [binary.BigEndian.Uint64]. *)
Definition Uint64 (l : list Z) : Z := fold_left (λ acc b, acc * 256 + b) (take 8 l) 0.

Definition hexDigit (n : Z) : ascii :=
  ascii_of_nat (Z.to_nat (if n <? 10 then 48 + n else 87 + n)).

Fixpoint EncodeToString (l : list Z) : string :=
  match l with
  | [] => ""
  | b :: l => String (hexDigit (Z.shiftr b 4)) (String (hexDigit (Z.land b 15)) (EncodeToString l))
  end.

Example sha256_abc :
  EncodeToString (Sum256 "abc") = "ba7816bf8f01cfea414140de5dae2223b00361a396177a9cb410ff61f20015ad".
Proof. vm_compute. reflexivity. Qed.
Example sha256_empty :
  EncodeToString (Sum256 "") = "e3b0c44298fc1c149afbf4c8996fb92427ae41e4649b934ca495991b7852b855".
Proof. vm_compute. reflexivity. Qed.
Example sha256_long :
  EncodeToString (Sum256 "abcdbcdecdefdefgefghfghighijhijkijkljklmklmnlmnomnopnopq")
  = "248d6a61d20638b8e5c026930c3e6039a33ce45964ff2167f6ecedd419db06c1".
Proof. vm_compute. reflexivity. Qed.

(** ** Shape of a digest *)

Lemma be_bytes_range w n : Forall (λ b, 0 ≤ b < 256) (be_bytes w n).
Proof.
  unfold be_bytes. apply Forall_rev, Forall_forall. intros b Hb.
  apply list_elem_of_In, in_map_iff in Hb as (i & <- & _). by apply Z.mod_pos_bound.
Qed.

Lemma be_bytes_length w n : length (be_bytes w n) = n.
Proof. unfold be_bytes. by rewrite length_rev, length_map, length_seq. Qed.

Lemma round256_length st kw : length (round256 st kw) = length st.
Proof. do 8 (destruct st as [|? st]; [done|]). by destruct st. Qed.

Lemma rounds_length l st : length (fold_left round256 l st) = length st.
Proof. revert st; induction l as [|kw l IH]; intros st; [done|]. simpl. by rewrite IH, round256_length. Qed.

Lemma blocks256_length fuel st ws : length (blocks256 fuel st ws) = length st.
Proof.
  revert st ws; induction fuel as [|f IH]; intros st ws; [done|]. simpl.
  destruct ws; [done|]. rewrite IH. unfold block256. rewrite length_zip_with, rounds_length. lia.
Qed.

Lemma concat_words_length ws : length (concat (map (λ w, be_bytes w 4) ws)) = (4 * length ws)%nat.
Proof. induction ws as [|w ws IH]; [done|]. cbn [map concat length]. rewrite length_app, be_bytes_length, IH. lia. Qed.

Lemma Sum256_length s : length (Sum256 s) = 32%nat.
Proof. unfold Sum256. by rewrite concat_words_length, blocks256_length. Qed.

Lemma Sum256_range s : Forall (λ b, 0 ≤ b < 256) (Sum256 s).
Proof.
  unfold Sum256. apply Forall_concat, Forall_forall. intros l Hl.
  apply list_elem_of_In, in_map_iff in Hl as (w & <- & _). apply be_bytes_range.
Qed.

Lemma Uint64_range l : Forall (λ b, 0 ≤ b < 256) l → 0 ≤ Uint64 l < two64.
Proof.
  intros H. unfold Uint64.
  assert (Hg : ∀ n l acc k, Forall (λ b, 0 ≤ b < 256) l → 0 ≤ k → 0 ≤ acc < 2 ^ k →
    0 ≤ fold_left (λ acc b, acc * 256 + b) (take n l) acc < 2 ^ (k + 8 * Z.of_nat n)).
  { induction n as [|n IH]; intros l0 acc k Hl Hk Ha.
    - rewrite take_0. simpl. by rewrite Z.add_0_r.
    - destruct Hl as [|b l0 Hb Hl].
      + rewrite take_nil. simpl. split; [lia|]. eapply Z.lt_le_trans; [apply Ha|]. apply Z.pow_le_mono_r; lia.
      + cbn [take fold_left]. replace (k + 8 * Z.of_nat (S n)) with ((k + 8) + 8 * Z.of_nat n) by lia.
        apply IH; [done|lia|]. rewrite Z.pow_add_r by lia. change (2 ^ 8) with 256. lia. }
  specialize (Hg 8%nat l 0 0 H ltac:(lia) ltac:(lia)). exact Hg.
Qed.

Lemma EncodeToString_length l : slen (EncodeToString l) = (2 * length l)%nat.
Proof. induction l as [|b l IH]; [done|]. simpl. rewrite IH. lia. Qed.
