(* ===== verification/RetryPolicy.v ===== *)
(** * retry/policy.go: retry policies and backoff

    A [time.Duration] is an int64 of nanoseconds, a Go [int] an int64: both are [Z] with the
    wrap-around of the code's additions, multiplications and shifts written out ([wrap_i64]).  The
    wire form [ir.RetryPolicy] is a record of optional fields. *)

From Stdlib Require Import Floats.SpecFloat.
From S2P Require Import Prelude GoNum F64Bounds Sha256.

Local Open Scope Z_scope.

(** ** Data *)

Inductive BackoffKind : Type := BackoffExp | BackoffLinear | BackoffNone.

#[global] Instance BackoffKind_eq_dec : EqDecision BackoffKind.
Proof. solve_decision. Defined.

Record Policy : Type := MkPolicy {
  Attempts : Z;
  Backoff : BackoffKind;
  Initial : Z;
  Max : Z;
  NonRetryableExitCodes : list Z;
  Recovery : string
}.

(** [ir.RetryPolicy]; an absent exit-code list is [None] (nil). *)
Record RetryPolicy : Type := MkRetryPolicy {
  rpAttempts : Z;
  rpBackoff : string;
  rpInitial : option Z;
  rpMax : option Z;
  rpNonRetryableExitCodes : option (list Z);
  rpRecovery : string
}.

Definition Nanosecond : Z := 1.
Definition Second : Z := 1000000000.
Definition Minute : Z := 60 * Second.

Definition AgentDefault : Policy := MkPolicy 8 BackoffExp Second (60 * Second) [78] "".
Definition CodeDefault : Policy := MkPolicy 1 BackoffExp Second (60 * Second) [78] "".
Definition Default : Policy := MkPolicy 8 BackoffExp Second (60 * Second) [78] "".

Definition MaxHonoredRetryAfter : Z := 5 * Minute.

(** The constant 0.25 as a float64. *)
Definition jitterFraction : f64 := f64_div (f64_of_Z 1) (f64_of_Z 4).

(** ** Merge *)

(** The error is the unknown name. *)
Definition backoffKindFromString (s : string) : res string BackoffKind :=
  if String.eqb s "exp" || String.eqb s "" then Ok BackoffExp
  else if String.eqb s "linear" then Ok BackoffLinear
  else if String.eqb s "none" then Ok BackoffNone
  else Err s.

Definition Merge (def : Policy) (override : option RetryPolicy) : res string Policy :=
  match override with
  | None => Ok def
  | Some o =>
      let? backoff :=
        (if negb (String.eqb (rpBackoff o) "") then backoffKindFromString (rpBackoff o)
         else Ok (Backoff def)) in
      Ok {| Attempts := if rpAttempts o =? 0 then Attempts def else rpAttempts o;
            Backoff := backoff;
            Initial := default (Initial def) (rpInitial o);
            Max := default (Max def) (rpMax o);
            NonRetryableExitCodes := default (NonRetryableExitCodes def) (rpNonRetryableExitCodes o);
            Recovery := if String.eqb (rpRecovery o) "" then Recovery def else rpRecovery o |}
  end.

(** ** Backoff *)

Definition BackoffFor (p : Policy) (attempt : Z) : Z :=
  if attempt <=? 1 then 0
  else
    match Backoff p with
    | BackoffNone => 0
    | k =>
        let d :=
          match k with
          | BackoffLinear => wrap_i64 (Initial p * wrap_i64 (attempt - 1))
          | _ =>
              let shift := wrap_u64 (attempt - 2) in
              if 62 <=? shift then Max p else wrap_i64 (Z.shiftl (Initial p) shift)
          end in
        if (0 <? Max p) && (Max p <? d) then Max p else d
    end.

Definition jitterFor (base : Z) (seed : string) (attempt : Z) : Z :=
  let h := Sum256 (seed +:+ ":" +:+ Itoa attempt) in
  let frac := f64_div (f64_of_Z (Uint64 h)) (f64_of_Z (two64 - 1)) in
  f64_trunc (f64_mul (f64_mul frac jitterFraction) (f64_of_Z base)).

(** The base of the sleep: the curve, or the capped hint when it is longer. *)
Definition hintedBase (base retryAfter : Z) : Z :=
  if 0 <? retryAfter then
    let retryAfter := if MaxHonoredRetryAfter <? retryAfter then MaxHonoredRetryAfter else retryAfter in
    if base <? retryAfter then retryAfter else base
  else base.

Definition EffectiveBackoff (p : Policy) (attempt retryAfter : Z) (seed : string) : Z :=
  let base := hintedBase (BackoffFor p attempt) retryAfter in
  if base <=? 0 then 0 else wrap_i64 (base + jitterFor base seed attempt).

Definition IsRetryableExit (p : Policy) (exitCode : Z) : bool :=
  if exitCode =? 0 then false
  else negb (existsb (λ c, c =? exitCode) (NonRetryableExitCodes p)).

Example backoff_default :
  map (BackoffFor AgentDefault) [1; 2; 3; 4; 5; 6; 7; 8]
  = map (λ s, s * Second) [0; 1; 2; 4; 8; 16; 32; 60].
Proof. reflexivity. Qed.

Example jitter_ex :
  let d := EffectiveBackoff AgentDefault 2 0 "wf/build" in
  (Second <? d) && (d <? Second + Second / 4) = true.
Proof. vm_compute. reflexivity. Qed.

(** ** Lemmas *)

Lemma backoffKind_ok s k :
  backoffKindFromString s = Ok k ↔
  (k = BackoffExp ∧ (s = "exp" ∨ s = "")) ∨ (k = BackoffLinear ∧ s = "linear") ∨
  (k = BackoffNone ∧ s = "none").
Proof.
  unfold backoffKindFromString.
  destruct (String.eqb_spec s "exp") as [->|H1]; [split; [intros [= <-]|]; naive_solver|].
  destruct (String.eqb_spec s "") as [->|H2]; [split; [intros [= <-]|]; naive_solver|].
  destruct (String.eqb_spec s "linear") as [->|H3]; [split; [intros [= <-]|]; naive_solver|].
  destruct (String.eqb_spec s "none") as [->|H4]; [split; [intros [= <-]|]; naive_solver|].
  split; [done|]. naive_solver.
Qed.

Lemma jitterFor_bound base seed attempt b :
  0 ≤ b < 500 → 0 ≤ base < 2 ^ b → 0 ≤ jitterFor base seed attempt < 2 ^ (b + 5).
Proof.
  intros Hb Hbase. unfold jitterFor.
  set (h := Uint64 _). assert (Hh : 0 ≤ h < 2 ^ 64) by (apply Uint64_range, Sum256_range).
  assert (B1 : below (f64_of_Z h) 65) by (by apply (f64_of_Z_below h 64)).
  assert (B2 : below (f64_div (f64_of_Z h) (f64_of_Z (two64 - 1))) 2).
  { change (f64_of_Z (two64 - 1)) with (S754_finite false 4503599627370496 12).
    apply (f64_div_below _ _ _ 65 64); [done|reflexivity|lia]. }
  assert (B3 : below jitterFraction (-1)) by (vm_compute; done).
  assert (B4 : below (f64_mul (f64_div (f64_of_Z h) (f64_of_Z (two64 - 1))) jitterFraction) 2)
    by (apply (f64_mul_below _ _ 2 (-1)); [done|done|lia]).
  assert (B5 : below (f64_of_Z base) (b + 1)) by (apply f64_of_Z_below; lia).
  apply f64_trunc_below; [lia|].
  apply (below_weaken _ (2 + (b + 1) + 1)); [|lia]. apply f64_mul_below; [done|done|lia].
Qed.

(** Up to 2^53 ns the conversion of the base is exact: the jitter is at most a quarter of it. *)
Lemma jitterFor_quarter base seed attempt : 0 < base < 2 ^ 53 → 0 ≤ jitterFor base seed attempt ≤ base / 4.
Proof.
  intros Hbase. unfold jitterFor.
  set (h := Uint64 _). assert (Hh : 0 ≤ h < 2 ^ 64) by (apply Uint64_range, Sum256_range).
  assert (Hd : Zdigits2 base ≤ 53) by (apply digits2_le; lia).
  assert (B1 : atMost (f64_of_Z h) 1 64) by (apply f64_of_Z_atMost; [lia|lia|done|lia]).
  assert (B2 : atMost (f64_div (f64_of_Z h) (f64_of_Z (two64 - 1))) 1 0).
  { change (f64_of_Z (two64 - 1)) with (S754_finite false 4503599627370496 12). by apply (f64_div_atMost _ _ _ 64). }
  assert (B3 : atMost jitterFraction 1 (-2)) by (vm_compute; split; discriminate).
  assert (B4 : atMost (f64_mul (f64_div (f64_of_Z h) (f64_of_Z (two64 - 1))) jitterFraction) 1 (-2)) by (by apply (f64_mul_atMost _ _ 1 0 1 (-2))).
  assert (B5 : atMost (f64_of_Z base) base 0) by (apply f64_of_Z_atMost; lia).
  apply (f64_trunc_atMost _ base 2); [|lia..]. rewrite <- (Z.mul_1_l base) at 2. apply (f64_mul_atMost _ _ 1 (-2) base 0); rewrite ?Z.mul_1_l; done || lia.
Qed.

Lemma hintedBase_spec base retryAfter :
  hintedBase base retryAfter = Z.max base (if 0 <? retryAfter then Z.min retryAfter MaxHonoredRetryAfter else base).
Proof.
  unfold hintedBase. destruct (Z.ltb_spec 0 retryAfter); [|lia].
  destruct (Z.ltb_spec MaxHonoredRetryAfter retryAfter).
  - rewrite Z.min_r by lia. destruct (Z.ltb_spec base MaxHonoredRetryAfter); lia.
  - rewrite Z.min_l by lia. destruct (Z.ltb_spec base retryAfter); lia.
Qed.

Lemma BackoffFor_le_Max p attempt : 0 < Max p → BackoffFor p attempt ≤ Max p.
Proof.
  intros H. unfold BackoffFor. destruct (attempt <=? 1); [lia|].
  destruct (Backoff p); [..|lia].
  all: apply Z.ltb_lt in H as ->; cbn [andb]; match goal with |- context [_ <? ?d] => destruct (Z.ltb_spec (Max p) d) end; lia.
Qed.

(** [f64] conversions wrap nothing below 2^63. *)
Lemma shiftl_wrap i s : 0 ≤ s → 0 ≤ i → i * 2 ^ s < two63 → wrap_i64 (Z.shiftl i s) = i * 2 ^ s.
Proof.
  intros Hs Hi H. rewrite Z.shiftl_mul_pow2 by done. apply wrap_i64_id.
  assert (0 ≤ i * 2 ^ s) by (apply Z.mul_nonneg_nonneg; [done|apply Z.pow_nonneg; lia]).
  unfold two63 in *. lia.
Qed.

(** The curves, as the documentation states them. *)
Definition curve (p : Policy) (attempt : Z) : Z :=
  match Backoff p with
  | BackoffNone => 0
  | BackoffLinear => Initial p * (attempt - 1)
  | BackoffExp => Initial p * 2 ^ (attempt - 2)
  end.

Definition capped (p : Policy) (d : Z) : Z := if 0 <? Max p then Z.min d (Max p) else d.

Lemma BackoffFor_curve p attempt :
  2 ≤ attempt < 64 → 0 ≤ Initial p → 0 ≤ Max p → curve p attempt < two63 →
  BackoffFor p attempt = capped p (curve p attempt).
Proof.
  intros Ha Hi Hm Hc. unfold BackoffFor, capped, curve in *.
  replace (attempt <=? 1) with false by (symmetry; apply Z.leb_gt; lia).
  destruct (Backoff p).
  - rewrite wrap_u64_id by (unfold two64; lia).
    replace (62 <=? attempt - 2) with false by (symmetry; apply Z.leb_gt; lia).
    rewrite shiftl_wrap by (done || lia). set (d := Initial p * 2 ^ (attempt - 2)).
    destruct (0 <? Max p); [|done]. cbn [andb]. destruct (Z.ltb_spec (Max p) d); lia.
  - rewrite (wrap_i64_id (attempt - 1)) by (unfold two63; lia).
    rewrite wrap_i64_id by (unfold two63 in *; nia). set (d := Initial p * (attempt - 1)).
    destruct (0 <? Max p); [|done]. cbn [andb]. destruct (Z.ltb_spec (Max p) d); lia.
  - destruct (Z.ltb_spec 0 (Max p)); lia.
Qed.

Lemma curve_mono p a b :
  2 ≤ a ≤ b → 0 ≤ Initial p → curve p a ≤ curve p b.
Proof.
  intros H Hi. unfold curve. destruct (Backoff p); [|nia|lia].
  apply Z.mul_le_mono_nonneg_l; [done|]. apply Z.pow_le_mono_r; lia.
Qed.

Lemma capped_mono p x y : x ≤ y → capped p x ≤ capped p y.
Proof. unfold capped. destruct (0 <? Max p); lia. Qed.

(** ** The properties *)

(** the backoff curve. As long as the documented curve fits an int64 and the attempt count is
    below 64, [BackoffFor] is that curve capped at [Max]: [Initial * 2^(n-2)] for exp,
    [Initial * (n-1)] for linear, nothing for none. *)
Theorem BackoffFor_spec p attempt :
  2 ≤ attempt < 64 → 0 ≤ Initial p → 0 ≤ Max p → curve p attempt < two63 →
  BackoffFor p attempt = capped p (curve p attempt).
Proof. apply BackoffFor_curve. Qed.

Lemma BackoffFor_spec_witness : BackoffFor AgentDefault 8 = capped AgentDefault (64 * Second).
Proof. apply (BackoffFor_spec AgentDefault 8); vm_compute; try done; split; done. Defined.

(** the sleeps never exceed [Max] when one is set (whatever overflows), and within the range of
    the curve they never shrink from one attempt to a later one. *)
Theorem BackoffFor_bounds p a b :
  (0 < Max p → BackoffFor p a ≤ Max p) ∧
  (2 ≤ a ≤ b → b < 64 → 0 ≤ Initial p → 0 ≤ Max p → curve p b < two63 →
   BackoffFor p a ≤ BackoffFor p b).
Proof.
  split; [apply BackoffFor_le_Max|]. intros Hab Hb Hi Hm Hc.
  pose proof (curve_mono p a b Hab Hi).
  rewrite !BackoffFor_curve by lia. by apply capped_mono.
Qed.

Lemma BackoffFor_bounds_witness :
  BackoffFor AgentDefault 1000 ≤ 60 * Second ∧ BackoffFor AgentDefault 3 ≤ BackoffFor AgentDefault 30.
Proof.
  split.
  - apply (BackoffFor_bounds AgentDefault 1000 0). reflexivity.
  - apply (BackoffFor_bounds AgentDefault 3 30); vm_compute; try done; split; done.
Defined.

(** C37: a retry never undershoots the curve or the server's hint, and does not overshoot them by more
    than a quarter.  With base the longer of the curve and the hint capped at five minutes: no base, no
    sleep; for a base below 2^57 ns (four years) the sleep is at least base, the curve and the capped
    hint, and nothing overflows; for a base below 2^53 ns (104 days), where the base is exact in
    float64, the sleep is at most base and a quarter of it. *)
Theorem EffectiveBackoff_bounds p attempt retryAfter seed :
  let base := hintedBase (BackoffFor p attempt) retryAfter in
  let sleep := EffectiveBackoff p attempt retryAfter seed in
  (base ≤ 0 → sleep = 0) ∧
  (0 < base < 2 ^ 57 →
   base ≤ sleep ∧ BackoffFor p attempt ≤ sleep ∧ (0 < retryAfter → Z.min retryAfter MaxHonoredRetryAfter ≤ sleep)) ∧
  (0 < base < 2 ^ 53 → sleep ≤ base + base / 4).
Proof.
  intros base sleep. unfold sleep, EffectiveBackoff. fold base. split.
  { intros H. by apply Z.leb_le in H as ->. }
  assert (E : base = Z.max (BackoffFor p attempt) (if 0 <? retryAfter then Z.min retryAfter MaxHonoredRetryAfter else BackoffFor p attempt))
    by apply hintedBase_spec.
  split; intros Hbase; replace (base <=? 0) with false by (symmetry; apply Z.leb_gt; lia).
  - pose proof (jitterFor_bound base seed attempt 57 ltac:(lia) ltac:(lia)) as Hj.
    rewrite wrap_i64_id by (unfold two63; lia). split; [lia|]. split; [lia|].
    intros Hr. apply Z.ltb_lt in Hr. rewrite Hr in E. lia.
  - pose proof (jitterFor_quarter base seed attempt Hbase) as Hj.
    assert (base / 4 ≤ base) by (apply Z.div_le_upper_bound; lia). rewrite wrap_i64_id by (unfold two63; lia). lia.
Qed.

Lemma EffectiveBackoff_bounds_witness :
  30 * Second ≤ EffectiveBackoff AgentDefault 2 (30 * Second) "wf/build" ≤ 30 * Second + 30 * Second / 4.
Proof.
  destruct (EffectiveBackoff_bounds AgentDefault 2 (30 * Second) "wf/build") as (_ & H1 & H2).
  split; [apply H1; vm_compute; split; reflexivity|apply H2; vm_compute; split; reflexivity].
Defined.

(** merging a step's policy over a default. It fails exactly on an unknown backoff name; every
    field the override sets wins and every field it leaves at its zero value keeps the default
    (exit codes replaced as a whole); merging the same override twice changes nothing more. *)
Theorem Merge_spec def o :
  Merge def None = Ok def ∧
  (is_ok (Merge def (Some o)) = bool_decide (rpBackoff o ∈ ["exp"; ""; "linear"; "none"])) ∧
  ∀ p, Merge def (Some o) = Ok p →
    Attempts p = (if rpAttempts o =? 0 then Attempts def else rpAttempts o) ∧
    (if String.eqb (rpBackoff o) "" then Backoff p = Backoff def
     else backoffKindFromString (rpBackoff o) = Ok (Backoff p)) ∧
    Initial p = default (Initial def) (rpInitial o) ∧
    Max p = default (Max def) (rpMax o) ∧
    NonRetryableExitCodes p = default (NonRetryableExitCodes def) (rpNonRetryableExitCodes o) ∧
    Recovery p = (if String.eqb (rpRecovery o) "" then Recovery def else rpRecovery o) ∧
    Merge p (Some o) = Ok p.
Proof.
  split; [done|]. unfold Merge. split.
  - case_bool_decide as Hb.
    + decompose_list_elem_of; repeat match goal with H : rpBackoff o = _ |- _ => rewrite H; clear H end; done.
    + destruct (String.eqb_spec (rpBackoff o) "") as [E|E]; [rewrite E in Hb; set_solver|]. simpl.
      destruct (backoffKindFromString (rpBackoff o)) as [k|] eqn:Ek; [|done].
      apply backoffKind_ok in Ek. destruct Hb. naive_solver set_solver.
  - intros p (k & Hk & [= <-])%res_bind_ok. cbn [Attempts Backoff Initial Max NonRetryableExitCodes Recovery].
    destruct (String.eqb (rpBackoff o) "") eqn:Eb; simpl in *; [injection Hk as ->|rewrite Hk];
      repeat (split; [done|]); simpl; destruct (rpAttempts o =? 0), (rpInitial o), (rpMax o),
        (rpNonRetryableExitCodes o), (String.eqb (rpRecovery o) ""); done.
Qed.

Definition ex_override : RetryPolicy := MkRetryPolicy 3 "linear" None (Some (2 * Second)) (Some [1; 2]) "".

Lemma Merge_spec_witness :
  Attempts (MkPolicy 3 BackoffLinear Second (2 * Second) [1; 2] "") = 3.
Proof.
  destruct (Merge_spec AgentDefault ex_override) as (_ & _ & H).
  apply (H (MkPolicy 3 BackoffLinear Second (2 * Second) [1; 2] "")). reflexivity.
Defined.

(** exit-code classification. Exit 0 is never retried; a nonzero exit is retried unless the
    policy lists it. *)
Theorem IsRetryableExit_spec p c :
  IsRetryableExit p c = true ↔ c ≠ 0 ∧ c ∉ NonRetryableExitCodes p.
Proof.
  unfold IsRetryableExit. destruct (Z.eqb_spec c 0) as [->|Hc]; [naive_solver|].
  rewrite negb_true_iff, <- not_true_iff_false, existsb_exists. split.
  - intros H. split; [done|]. intros Hin. apply H. exists c. split; [by apply list_elem_of_In|apply Z.eqb_refl].
  - intros [_ H] (x & Hx & ->%Z.eqb_eq). apply H. by apply list_elem_of_In.
Qed.

(** The guard of [BackoffFor] is on the shift, not on the product: with the default policy attempt 36
    shifts one second past the sign bit, the sleep is negative, the cap does not apply to it, and
    [EffectiveBackoff] sleeps not at all, where the curve is capped at a minute. *)
Theorem BackoffFor_overflow :
  BackoffFor AgentDefault 36 < 0 ∧ (∀ seed, EffectiveBackoff AgentDefault 36 0 seed = 0) ∧
  capped AgentDefault (curve AgentDefault 36) = 60 * Second.
Proof. by vm_compute. Qed.
