(* ===== verification/GoStruct.v ===== *)
(** * encoding/json on structs

    How the Standard Library writes and reads a struct: fields in declaration order, an omitempty
    field left out at its zero value; reading visits the members of the object in order, finds the
    field by exact name, else by case-insensitive name (ASCII letters), ignores unknown members,
    leaves a field alone on null, and fails on a value of the wrong kind.  A struct's decoder is the
    list of its fields with their setters. *)

From stdpp Require Import sorting.
From S2P Require Import Prelude GoNum GoJson.

(** ** Writing *)

Definition obj (fs : list (option (string * json))) : json := JObj (omap id fs).

Definition field (k : string) (j : json) : option (string * json) := Some (k, j).
Definition omit_if (b : bool) (k : string) (j : json) : option (string * json) :=
  if b then None else Some (k, j).
Definition omit_str (k s : string) : option (string * json) := omit_if (String.eqb s "") k (JStr s).
Definition omit_int (k : string) (z : Z) : option (string * json) := omit_if (z =? 0)%Z k (JNum (Itoa z)).
Definition omit_bool (k : string) (b : bool) : option (string * json) := omit_if (negb b) k (JBool b).
Definition omit_opt {A} (k : string) (f : A → json) (o : option A) : option (string * json) :=
  (λ a, (k, f a)) <$> o.
Definition omit_list {A} (k : string) (f : A → json) (l : list A) : option (string * json) :=
  match l with [] => None | _ => Some (k, JArr (map f l)) end.

(** ** Reading *)

Definition lower (c : ascii) : ascii :=
  let n := nat_of_ascii c in if (65 <=? n)%nat && (n <=? 90)%nat then ascii_of_nat (n + 32) else c.
Fixpoint sLower (s : string) : string :=
  match s with "" => "" | String c s => String (lower c) (sLower s) end.

Fixpoint mem (k : string) (names : list string) : bool :=
  match names with [] => false | k' :: names => String.eqb k k' || mem k names end.

Fixpoint find_fold (k : string) (names : list string) : option string :=
  match names with
  | [] => None
  | k' :: names => if String.eqb (sLower k) (sLower k') then Some k' else find_fold k names
  end.

(** The field a member's key selects. *)
Definition resolve (names : list string) (key : string) : option string :=
  if mem key names then Some key else find_fold key names.

(** The values the members of an object give the field [k], in order. *)
Fixpoint values (names : list string) (k : string) (ms : list (string * json)) : list json :=
  match ms with
  | [] => []
  | (key, v) :: ms =>
      match resolve names key with
      | Some k' => if String.eqb k k' then v :: values names k ms else values names k ms
      | None => values names k ms
      end
  end.

(** A field's value: each given value is decoded into what the field holds so far. *)
Fixpoint decode_field {A} (step : json → A → option A) (a : A) (vs : list json) : option A :=
  match vs with
  | [] => Some a
  | v :: vs => a' ← step v a; decode_field step a' vs
  end.

(** A struct from the members of an object; [null] is the struct of no members. *)
Definition decode_struct {R} (dec : list (string * json) → option R) (j : json) : option R :=
  match j with
  | JObj ms => dec ms
  | JNull => dec []
  | _ => None
  end.

(** *** By the Go type of the field *)

Definition as_string (j : json) (s : string) : option string :=
  match j with JStr s' => Some s' | JNull => Some s | _ => None end.

Definition as_bool (j : json) (b : bool) : option bool :=
  match j with JBool b' => Some b' | JNull => Some b | _ => None end.

(** A signed integer of 64 bits. *)
Definition as_int (j : json) (z : Z) : option Z :=
  match j with JNum l => ParseInt l | JNull => Some z | _ => None end.

(** An unsigned one below [hi]: digits only. *)
Definition as_uint (hi : Z) (j : json) (z : Z) : option Z :=
  match j with
  | JNum l => match parse_digits l with
              | Some z => if (z <? hi)%Z then Some z else None
              | None => None
              end
  | JNull => Some z
  | _ => None
  end.

Definition as_float (j : json) (x : f64) : option f64 :=
  match j with JNum l => ParseFloat l | JNull => Some x | _ => None end.

(** [json.RawMessage]: any value, [null] included. *)
Definition as_raw (j : json) (_ : option json) : option (option json) := Some (Some j).

(** A pointer: [null] is nil. *)
Definition as_ptr {A} (step : json → A → option A) (zero : A) (j : json) (p : option A) : option (option A) :=
  match j with
  | JNull => Some None
  | _ => Some <$> step j (default zero p)
  end.

(** A slice: [null] is nil; each element is decoded from its zero value. *)
Fixpoint as_elems {A} (step : json → A → option A) (zero : A) (l : list json) : option (list A) :=
  match l with
  | [] => Some []
  | j :: l => a ← step j zero; r ← as_elems step zero l; Some (a :: r)
  end.

Definition as_slice {A} (step : json → A → option A) (zero : A) (j : json) (_ : list A) : option (list A) :=
  match j with
  | JArr l => as_elems step zero l
  | JNull => Some []
  | _ => None
  end.

(** A map with string keys: members are added to the map the field holds, [null] is nil. *)
Fixpoint as_entries {A} (step : json → A → option A) (zero : A) (ms : list (string * json))
    (m : gmap string A) : option (gmap string A) :=
  match ms with
  | [] => Some m
  | (k, j) :: ms => a ← step j zero; as_entries step zero ms (<[k := a]> m)
  end.

Definition as_map {A} (step : json → A → option A) (zero : A) (j : json) (m : gmap string A)
    : option (gmap string A) :=
  match j with
  | JObj ms => as_entries step zero ms m
  | JNull => Some ∅
  | _ => None
  end.

(** A nested struct of the decoder [dec] (whose fields do not occur twice). *)
Definition as_struct {A} (dec : list (string * json) → option A) (j : json) (a : A) : option A :=
  match j with JObj ms => dec ms | JNull => Some a | _ => None end.

(** *** Writing maps: members in key order *)

Definition map_json {A} (f : A → json) (m : gmap string A) : json :=
  JObj (key_sort (map (λ ka : string * A, (ka.1, f ka.2)) (map_to_list m))).

Definition omit_map {A} (k : string) (f : A → json) (m : gmap string A) : option (string * json) :=
  if bool_decide (m = ∅) then None else Some (k, map_json f m).

Lemma key_insert_perm {A} (kv : string * A) l : key_insert kv l ≡ₚ kv :: l.
Proof.
  induction l as [|kv' l IH]; [done|]. cbn. destruct (String.leb kv.1 kv'.1); [done|].
  rewrite IH. apply Permutation_swap.
Qed.

Lemma key_sort_perm {A} (l : list (string * A)) : key_sort l ≡ₚ l.
Proof. induction l as [|kv l IH]; [done|]. cbn. by rewrite key_insert_perm, IH. Qed.

Lemma as_entries_list {A} (step : json → A → option A) zero (f : A → json) (l : list (string * A)) : ∀ m,
  NoDup l.*1 → (∀ ka, ka ∈ l → step (f ka.2) zero = Some ka.2) →
  as_entries step zero (map (λ ka : string * A, (ka.1, f ka.2)) l) m = Some (list_to_map l ∪ m).
Proof.
  induction l as [|[k a] l IH]; intros m Hn Hs.
  - cbn. by rewrite map_empty_union.
  - apply NoDup_cons in Hn as [Hk Hn]. cbn [map as_entries fst snd].
    assert (Ha : step (f a) zero = Some a) by (apply (Hs (k, a)); set_solver).
    rewrite Ha. cbn [mbind option_bind].
    rewrite IH; [|done|intros; apply Hs; set_solver]. f_equal. rewrite list_to_map_cons.
    rewrite <- insert_union_l. symmetry. apply insert_union_r. by apply not_elem_of_list_to_map_1.
Qed.

(** Writing a map and reading it back into a nil field. *)
Lemma map_json_roundtrip {A} (step : json → A → option A) zero (f : A → json) (m : gmap string A) :
  (∀ k a, m !! k = Some a → step (f a) zero = Some a) →
  as_map step zero (map_json f m) ∅ = Some m.
Proof.
  intros Hs. unfold map_json. cbn [as_map].
  set (l := map_to_list m).
  assert (Hsort : ∀ l : list (string * A), key_sort (map (λ ka : string * A, (ka.1, f ka.2)) l)
                   = map (λ ka : string * A, (ka.1, f ka.2)) (key_sort l)).
  { clear. induction l as [|[k a] l IH]; [done|]. cbn [map key_sort]. rewrite IH. generalize (key_sort l).
    clear. intros l. induction l as [|[k' a'] l IH]; [done|]. cbn. destruct (String.leb k k'); [done|].
    cbn in IH. by rewrite IH. }
  rewrite Hsort. assert (Hp : key_sort l ≡ₚ l) by apply key_sort_perm.
  rewrite as_entries_list.
  - rewrite map_union_empty. f_equal. rewrite (list_to_map_proper _ l); [apply list_to_map_to_list| |done].
    rewrite Hp. apply NoDup_fst_map_to_list.
  - rewrite Hp. apply NoDup_fst_map_to_list.
  - intros [k a] Hka. rewrite Hp in Hka. apply elem_of_map_to_list in Hka. by apply (Hs k).
Qed.

Lemma as_elems_map {A} (step : json → A → option A) zero (f : A → json) (l : list A) :
  (∀ a, a ∈ l → step (f a) zero = Some a) → as_elems step zero (map f l) = Some l.
Proof.
  induction l as [|a l IH]; intros Hs; [done|]. cbn. rewrite Hs by set_solver. cbn.
  rewrite IH by set_solver. done.
Qed.

(** The tree of a map is well formed when its parts are. *)
Lemma map_json_wf {A} (f : A → json) (m : gmap string A) :
  (∀ k a, m !! k = Some a → utf8_valid k = true ∧ json_wf (f a) = true) → json_wf (map_json f m) = true.
Proof.
  intros H. unfold map_json. cbn [json_wf]. apply forallb_forall. intros [k j] Hin.
  apply list_elem_of_In in Hin. rewrite key_sort_perm in Hin.
  apply list_elem_of_In, in_map_iff in Hin as ([k' a] & [= <- <-] & Hin).
  apply list_elem_of_In, elem_of_map_to_list in Hin. cbn. by destruct (H _ _ Hin) as [-> ->].
Qed.

(** ** Reading back what was written

    The values an encoded struct gives a field, by the way the field is written; [pick] computes on
    the concrete names of a struct, the values themselves stay folded. *)

Definition if_vals (b : bool) (j : json) : list json := if b then [] else [j].
Definition opt_vals {A} (f : A → json) (o : option A) : list json :=
  match o with Some a => [f a] | None => [] end.
Definition list_vals {A} (f : A → json) (l : list A) : list json :=
  match l with [] => [] | _ => [JArr (map f l)] end.
Definition map_vals {A} (f : A → json) (m : gmap string A) : list json :=
  if bool_decide (m = ∅) then [] else [map_json f m].
#[global] Arguments if_vals : simpl never.
#[global] Arguments opt_vals : simpl never.
#[global] Arguments list_vals : simpl never.
#[global] Arguments map_vals : simpl never.

(** A written field list and the values of each of its keys. *)
Definition rep (o : option (string * json)) (kv : string * list json) : Prop :=
  match o with Some (k, v) => kv = (k, [v]) | None => kv.2 = [] end.

Fixpoint assoc (k : string) (l : list (string * list json)) : list json :=
  match l with [] => [] | kv :: l => if String.eqb k kv.1 then kv.2 else assoc k l end.

Lemma rep_field k j : rep (field k j) (k, [j]).
Proof. done. Qed.
Lemma rep_omit_if b k j : rep (omit_if b k j) (k, if_vals b j).
Proof. by destruct b. Qed.
Lemma rep_omit_opt {A} k (f : A → json) o : rep (omit_opt k f o) (k, opt_vals f o).
Proof. by destruct o. Qed.
Lemma rep_omit_list {A} k (f : A → json) l : rep (omit_list k f l) (k, list_vals f l).
Proof. by destruct l. Qed.
Lemma rep_omit_map {A} k (f : A → json) m : rep (omit_map k f m) (k, map_vals f m).
Proof. unfold omit_map, map_vals. by case_bool_decide. Qed.

Lemma assoc_absent k fv : k ∉ fv.*1 → assoc k fv = [].
Proof.
  induction fv as [|kv fv IH]; intros H; [done|]. cbn in *. destruct (String.eqb_spec k kv.1); [set_solver|].
  apply IH. set_solver.
Qed.

(** Distinct names select their own values. *)
Lemma values_assoc names fs fv k :
  Forall2 rep fs fv → (∀ x, x ∈ fv.*1 → mem x names = true) → NoDup fv.*1 →
  values names k (omap id fs) = assoc k fv.
Proof.
  induction 1 as [|o [k' vs] fs fv Ho _ IH]; intros Hm Hn; [done|]. cbn [fmap list_fmap fst] in *.
  apply NoDup_cons in Hn as [Hk Hn]. specialize (IH (λ x Hx, Hm x (list_elem_of_further _ _ _ Hx)) Hn).
  assert (Hr : resolve names k' = Some k') by (unfold resolve; by rewrite (Hm k') by left).
  cbn [assoc fst snd]. destruct o as [[k1 v]|].
  - injection Ho as <- ->. cbn [omap list_omap id]. cbn [values]. rewrite Hr, IH.
    destruct (String.eqb_spec k k') as [->|]; [|done]. by rewrite assoc_absent.
  - cbn in Ho. subst vs. cbn [omap list_omap id]. rewrite IH.
    destruct (String.eqb_spec k k') as [->|]; [|done]. by rewrite assoc_absent.
Qed.

Definition keys_ok (names ks : list string) : bool :=
  forallb (λ x, mem x names) ks && bool_decide (NoDup ks).
Lemma values_keys names fs fv :
  Forall2 rep fs fv → keys_ok names fv.*1 = true → ∀ k, values names k (omap id fs) = assoc k fv.
Proof.
  intros Hr Hk k. apply andb_prop in Hk as [Hk Hn%bool_decide_eq_true]. rewrite forallb_forall in Hk.
  apply values_assoc; [done| |done]. intros x Hx. by apply Hk, list_elem_of_In.
Qed.

Lemma decode_one {A} (step : json → A → option A) a j a' : step j a = Some a' → decode_field step a [j] = Some a'.
Proof. intros H. cbn. by rewrite H. Qed.

Lemma decode_str s : decode_field as_string "" (if_vals (String.eqb s "") (JStr s)) = Some s.
Proof. unfold if_vals. by destruct (String.eqb_spec s "") as [->|]. Qed.
Lemma decode_str1 s : decode_field as_string "" [JStr s] = Some s.
Proof. done. Qed.

Lemma decode_int1 z : in_i64 z = true → decode_field as_int 0%Z [JNum (Itoa z)] = Some z.
Proof. intros H. cbn. by rewrite ParseInt_Itoa. Qed.
Lemma decode_int z : in_i64 z = true → decode_field as_int 0%Z (if_vals (z =? 0)%Z (JNum (Itoa z))) = Some z.
Proof. intros H. unfold if_vals. destruct (Z.eqb_spec z 0) as [->|]; [done|]. by apply decode_int1. Qed.
Lemma decode_uint1 hi z : (0 ≤ z < hi)%Z → decode_field (as_uint hi) 0%Z [JNum (Itoa z)] = Some z.
Proof.
  intros H. cbn. rewrite parse_digits_Itoa by lia. cbn. by rewrite (proj2 (Z.ltb_lt z hi)) by lia.
Qed.
Lemma decode_bool1 b : decode_field as_bool false [JBool b] = Some b.
Proof. done. Qed.

Lemma decode_opt {A} (step : json → A → option A) zero (f : A → json) o :
  (∀ a, o = Some a → step (f a) zero = Some a ∧ f a ≠ JNull) →
  decode_field (as_ptr step zero) None (opt_vals f o) = Some o.
Proof.
  intros H. destruct o as [a|]; [|done]. destruct (H a eq_refl) as [Ha Hn]. revert Ha Hn.
  unfold opt_vals, decode_field, as_ptr, default, from_option, id. destruct (f a); intros Ha Hn; rewrite ?Ha; done.
Qed.

Lemma decode_list {A} (step : json → A → option A) zero (f : A → json) l :
  (∀ a, a ∈ l → step (f a) zero = Some a) → decode_field (as_slice step zero) [] (list_vals f l) = Some l.
Proof.
  intros H. destruct l as [|a l]; [done|]. unfold list_vals, decode_field, as_slice.
  by rewrite as_elems_map.
Qed.
Lemma decode_list1 {A} (step : json → A → option A) zero (f : A → json) l :
  (∀ a, a ∈ l → step (f a) zero = Some a) → decode_field (as_slice step zero) [] [JArr (map f l)] = Some l.
Proof. intros H. unfold decode_field, as_slice. by rewrite as_elems_map. Qed.

Lemma decode_map {A} (step : json → A → option A) zero (f : A → json) m :
  (∀ k a, m !! k = Some a → step (f a) zero = Some a) →
  decode_field (as_map step zero) ∅ (map_vals f m) = Some m.
Proof.
  intros H. unfold map_vals. case_bool_decide as E; [by rewrite E|].
  unfold decode_field. by rewrite map_json_roundtrip.
Qed.
Lemma decode_map1 {A} (step : json → A → option A) zero (f : A → json) m :
  (∀ k a, m !! k = Some a → step (f a) zero = Some a) →
  decode_field (as_map step zero) ∅ [map_json f m] = Some m.
Proof. intros H. unfold decode_field. by rewrite map_json_roundtrip. Qed.

(** [struct_fields] replaces the values of every field of an encoded struct. *)
Ltac reify_fields fs :=
  lazymatch fs with
  | [] => constr:(@nil (string * list json))
  | ?o :: ?fs =>
      let r := reify_fields fs in
      let kv := lazymatch o with
        | field ?k ?j => constr:((k, [j]))
        | omit_if ?b ?k ?j => constr:((k, if_vals b j))
        | omit_str ?k ?s => constr:((k, if_vals (String.eqb s "") (JStr s)))
        | omit_int ?k ?z => constr:((k, if_vals (z =? 0)%Z (JNum (Itoa z))))
        | omit_opt ?k ?f ?o => constr:((k, opt_vals f o))
        | omit_list ?k ?f ?l => constr:((k, list_vals f l))
        | omit_map ?k ?f ?m => constr:((k, map_vals f m))
        end in
      constr:(kv :: r)
  end.

Ltac struct_fields :=
  unfold obj; cbn [decode_struct as_struct]; cbv beta zeta;
  lazymatch goal with
  | |- context [values ?ns _ (omap id ?fs)] =>
      let fv := reify_fields fs in
      let H := fresh in
      assert (H : ∀ k, values ns k (omap id fs) = assoc k fv);
      [ apply values_keys;
        [ repeat first [ apply Forall2_nil_2 | apply Forall2_cons_2 ];
          first [ apply rep_field | apply rep_omit_if | apply rep_omit_opt | apply rep_omit_list | apply rep_omit_map ]
        | reflexivity ]
      | repeat (rewrite H); clear H;
        cbn [assoc fst snd String.eqb Ascii.eqb Bool.eqb] ]
  end.

(** ** Keys in byte order *)

Definition string_le (a b : string) : Prop := String.leb a b = true.

Lemma leb_compare a b : String.leb a b = true ↔ String.compare a b ≠ Gt.
Proof. unfold String.leb. by destruct (String.compare a b). Qed.

#[global] Instance string_le_trans : Transitive string_le.
Proof.
  intros a b c. unfold string_le. rewrite !leb_compare. revert b c.
  induction a as [|x a IH]; intros [|y b] [|z c]; cbn; try done.
  unfold Ascii.compare.
  destruct (N.compare_spec (N_of_ascii x) (N_of_ascii y)) as [E1|L1|G1],
           (N.compare_spec (N_of_ascii y) (N_of_ascii z)) as [E2|L2|G2]; try done; intros H1 H2;
    destruct (N.compare_spec (N_of_ascii x) (N_of_ascii z)) as [E3|L3|G3]; try done; try lia.
  by apply (IH b c).
Qed.
#[global] Instance string_le_antisym : AntiSymm eq string_le.
Proof. intros a b. apply String.leb_antisym. Qed.
#[global] Instance string_le_total : Total string_le.
Proof. intros a b. apply String.leb_total. Qed.

Lemma key_insert_sorted {A} (kv : string * A) l : StronglySorted string_le l.*1 → StronglySorted string_le (key_insert kv l).*1.
Proof.
  induction l as [|kv' l IH]; cbn; intros H; [by repeat constructor|].
  destruct (String.leb kv.1 kv'.1) eqn:E; cbn.
  - constructor; [done|]. apply StronglySorted_inv in H as [_ H]. constructor; [done|].
    eapply Forall_impl; [exact H|]. intros x Hx. by transitivity (kv'.1).
  - apply StronglySorted_inv in H as [H1 H2]. constructor; [by apply IH|]. rewrite key_insert_perm.
    constructor; [|done]. destruct (string_le_total kv.1 kv'.1) as [Ht|Ht]; [unfold string_le in Ht; congruence|done].
Qed.

Lemma key_sort_sorted {A} (l : list (string * A)) : StronglySorted string_le (key_sort l).*1.
Proof. induction l as [|kv l IH]; [constructor|]. by apply key_insert_sorted. Qed.

(** [slices.Sort] on strings. *)
Definition sort_strings (l : list string) : list string := (key_sort (map (λ s, (s, ())) l)).*1.

Lemma sort_strings_perm l : sort_strings l ≡ₚ l.
Proof.
  unfold sort_strings. rewrite key_sort_perm. rewrite <- list_fmap_compose.
  induction l as [|s l IH]; [done|]. cbn. by f_equiv.
Qed.

Lemma sort_strings_eq l l' : sort_strings l = sort_strings l' ↔ l ≡ₚ l'.
Proof.
  split.
  - intros H. by rewrite <- (sort_strings_perm l), H, sort_strings_perm.
  - intros H. apply (StronglySorted_unique string_le); [apply key_sort_sorted..|].
    by rewrite !sort_strings_perm.
Qed.
