(* ===== verification/StateBlobs.v ===== *)
(** * state/blobs.go, state/fake.go: the content-addressed blob store

    [FSBlobs] over a small file system with durability: a file's bytes and its directory entry are
    each either fsynced or only in the page cache, and a crash keeps what is fsynced.  Every
    operating-system call of [Put] and [Get] consumes one entry of a fault script ([true]: the call
    fails), so each error path of the code is a branch of the model.  [InMemoryBlobs] is the fake
    with its programmed fault. *)

From S2P Require Import Prelude GoNum Sha256.

Definition blobRefPrefix : string := "awf-d1:sha256:".
Definition blobHashHexLen : nat := 64.
Definition blobShardLen : nat := 2.

Definition hashAndRef (content : string) : string * string :=
  let hashHex := EncodeToString (Sum256 content) in
  (hashHex, blobRefPrefix +:+ hashHex).

Definition RefFor (content : string) : string := (hashAndRef content).2.

(** ** parseRef *)

Inductive blobErr : Type :=
  | ErrBadRef (why : nat)     (* 0: prefix, 1: length, 2: upper case, 3: not hexadecimal *)
  | ErrCorruption
  | ErrNotExist               (* fs.ErrNotExist from open *)
  | ErrIO (call : string).    (* another failure of the named call *)

#[global] Instance blobErr_eq_dec : EqDecision blobErr.
Proof. solve_decision. Defined.

Fixpoint sforall (f : ascii → bool) (s : string) : bool :=
  match s with "" => true | String c s => f c && sforall f s end.

Definition isUpper (c : ascii) : bool :=
  let n := nat_of_ascii c in ((65 <=? n) && (n <=? 90))%nat.
Definition isHexAny (c : ascii) : bool :=
  let n := nat_of_ascii c in
  ((48 <=? n) && (n <=? 57) || (97 <=? n) && (n <=? 102) || (65 <=? n) && (n <=? 70))%nat.

(** [hex.DecodeString] succeeds on an even number of hexadecimal digits; [strings.ToLower] changes a
    string exactly when it holds an upper-case letter (a non-ASCII letter is not hexadecimal, so the
    string is rejected either way). *)
Definition parseRef (ref : string) : res blobErr string :=
  if negb (HasPrefix ref blobRefPrefix) then Err (ErrBadRef 0)
  else
    let rest := sdrop (slen blobRefPrefix) ref in
    if negb (slen rest =? blobHashHexLen)%nat then Err (ErrBadRef 1)
    else if negb (sforall (λ c, negb (isUpper c)) rest) then Err (ErrBadRef 2)
    else if negb (sforall isHexAny rest) then Err (ErrBadRef 3)
    else Ok rest.

(** ** The file system *)

Record file : Type := MkFile { fContent : string; fSynced : bool; fEntrySynced : bool }.

Record FS : Type := MkFS {
  files : gmap string file;
  dirs : gset string;
  script : list bool;   (* the calls still to come that will fail *)
  partial : nat         (* how many bytes a failed write gets to disk *)
}.

Definition setFiles (m : gmap string file) (fs : FS) : FS := MkFS m (dirs fs) (script fs) (partial fs).

(** A call: it fails when the script says so. *)
Definition sys (fs : FS) : bool * FS :=
  match script fs with
  | [] => (false, fs)
  | b :: s => (b, MkFS (files fs) (dirs fs) s (partial fs))
  end.

(** [filepath.Join] of clean components. *)
Definition join (a b : string) : string := a +:+ "/" +:+ b.

(** [p] is an entry of the directory [d] itself. *)
Definition childOf (d p : string) : bool :=
  HasPrefix p (d +:+ "/") && negb (strContains (sdrop (slen d + 1) p) "/").

Section fs_ops.
Variable fs : FS.

Definition osMkdirAll (d : string) : bool * FS :=
  let '(bad, fs) := sys fs in
  if bad then (true, fs) else (false, MkFS (files fs) ({[d]} ∪ dirs fs) (script fs) (partial fs)).

(** [os.Stat(p)] succeeds on an existing file. *)
Definition osStat (p : string) : bool * FS :=
  let '(bad, fs) := sys fs in
  (bad || negb (bool_decide (is_Some (files fs !! p))), fs).

(** [syncDir]: the entries of the directory become durable. *)
Definition syncDir (d : string) : bool * FS :=
  let '(bad, fs) := sys fs in
  if bad then (true, fs)
  else (false, setFiles (map_imap (λ p f, Some (if childOf d p
                                                then MkFile (fContent f) (fSynced f) true else f))
                                  (files fs)) fs).

Definition osCreate (p : string) : bool * FS :=
  let '(bad, fs) := sys fs in
  if bad then (true, fs) else (false, setFiles (<[p := MkFile "" false false]> (files fs)) fs).

(** A failed write leaves a prefix of the content; the caller removes the file. *)
Definition osWrite (p content : string) : bool * FS :=
  let '(bad, fs) := sys fs in
  let wrote written := setFiles (alter (λ f, MkFile (fContent f +:+ written) false (fEntrySynced f)) p (files fs)) fs in
  if bad then (true, wrote (stake (partial fs) content)) else (false, wrote content).

Definition osSync (p : string) : bool * FS :=
  let '(bad, fs) := sys fs in
  if bad then (true, fs)
  else (false, setFiles (alter (λ f, MkFile (fContent f) true (fEntrySynced f)) p (files fs)) fs).

Definition osClose : bool * FS := sys fs.

(** Best effort: [_ = os.Remove(p)]. *)
Definition osRemove (p : string) : FS :=
  let '(bad, fs) := sys fs in
  if bad then fs else setFiles (delete p (files fs)) fs.

(** An atomic rename in one directory: the new entry is not durable yet. *)
Definition osRename (p q : string) : bool * FS :=
  let '(bad, fs) := sys fs in
  if bad then (true, fs)
  else match files fs !! p with
       | Some f => (false, setFiles (<[q := MkFile (fContent f) (fSynced f) false]> (delete p (files fs))) fs)
       | None => (true, fs)
       end.

(** A crash: what was not fsynced is lost. *)
Definition crash : FS :=
  MkFS (filter (λ pf, fSynced pf.2 && fEntrySynced pf.2 = true) (files fs)) (dirs fs) [] (partial fs).
End fs_ops.

(** ** FSBlobs *)

Section FSBlobs.
Variable root : string.

Definition algoDir : string := join root "sha256".
Definition shardDir (hashHex : string) : string := join algoDir (stake blobShardLen hashHex).
Definition finalPath (hashHex : string) : string := join (shardDir hashHex) hashHex.

(** [OpenBlobs]: the root directory is prepared. *)
Definition OpenBlobs (fs : FS) : res blobErr unit * FS :=
  let '(bad, fs) := osMkdirAll fs algoDir in
  if bad then (Err (ErrIO "prepare blob root"), fs) else (Ok (), fs).

(** [Put]; [rnd] is the random part [os.CreateTemp] puts into the temporary name. *)
Definition Put (content rnd : string) (fs : FS) : res blobErr string * FS :=
  let '(hashHex, ref) := hashAndRef content in
  let '(bad, fs) := osMkdirAll fs (shardDir hashHex) in
  if bad then (Err (ErrIO "prepare shard"), fs) else
  let '(absent, fs) := osStat fs (finalPath hashHex) in
  if negb absent then (Ok ref, fs) else
  let '(bad, fs) := syncDir fs algoDir in
  if bad then (Err (ErrIO "sync dir"), fs) else
  let tmpPath := join (shardDir hashHex) (hashHex +:+ ".tmp." +:+ rnd) in
  let '(bad, fs) := osCreate fs tmpPath in
  if bad then (Err (ErrIO "create tmp"), fs) else
  let '(bad, fs) := osWrite fs tmpPath content in
  if bad then (let '(_, fs) := osClose fs in (Err (ErrIO "write tmp"), osRemove fs tmpPath)) else
  let '(bad, fs) := osSync fs tmpPath in
  if bad then (let '(_, fs) := osClose fs in (Err (ErrIO "sync tmp"), osRemove fs tmpPath)) else
  let '(bad, fs) := osClose fs in
  if bad then (Err (ErrIO "close tmp"), osRemove fs tmpPath) else
  let '(bad, fs) := osRename fs tmpPath (finalPath hashHex) in
  if bad then (Err (ErrIO "rename"), osRemove fs tmpPath) else
  let '(bad, fs) := syncDir fs (shardDir hashHex) in
  if bad then (Err (ErrIO "sync shard dir"), fs) else
  (Ok ref, fs).

(** [Get]. *)
Definition Get (ref : string) (fs : FS) : res blobErr string * FS :=
  match parseRef ref with
  | Err e => (Err e, fs)
  | Ok hashHex =>
      let '(bad, fs) := sys fs in
      if bad then (Err (ErrIO "open blob"), fs) else
      match files fs !! finalPath hashHex with
      | None => (Err ErrNotExist, fs)
      | Some f =>
          let '(bad, fs) := sys fs in
          if bad then (Err (ErrIO "read blob"), fs)
          else if negb (String.eqb (EncodeToString (Sum256 (fContent f))) hashHex)
               then (Err ErrCorruption, fs)
               else (Ok (fContent f), fs)
      end
  end.
End FSBlobs.

(** ** InMemoryBlobs *)

Record InMemoryBlobs : Type := MkBlobs {
  store : gmap string string;
  putCalls : nat;
  failPutAt : option nat
}.

Definition NewInMemoryBlobs : InMemoryBlobs := MkBlobs ∅ 0 None.

Definition memPut (content : string) (b : InMemoryBlobs) : res blobErr string * InMemoryBlobs :=
  if bool_decide (failPutAt b = Some (putCalls b)) then
    (Err (ErrIO "induced Put fault"), MkBlobs (store b) (S (putCalls b)) (failPutAt b))
  else
    let '(hashHex, ref) := hashAndRef content in
    let store' := match store b !! hashHex with
                  | Some _ => store b
                  | None => <[hashHex := content]> (store b)
                  end in
    (Ok ref, MkBlobs store' (S (putCalls b)) (failPutAt b)).

Definition FailPutAfterN (n : nat) (b : InMemoryBlobs) : InMemoryBlobs :=
  MkBlobs (store b) (putCalls b) (Some n).
Definition ClearPutFault (b : InMemoryBlobs) : InMemoryBlobs := MkBlobs (store b) (putCalls b) None.

Definition memGet (ref : string) (b : InMemoryBlobs) : res blobErr string :=
  let? hashHex := parseRef ref in
  match store b !! hashHex with
  | None => Err ErrNotExist
  | Some content => Ok content
  end.

Definition fs0 : FS := MkFS ∅ ∅ [] 0.

Example put_get :
  let '(r, fs) := Put "/s" "hello" "1" fs0 in
  r = Ok (RefFor "hello") ∧ (Get "/s" (RefFor "hello") fs).1 = Ok "hello" ∧
  (Get "/s" (RefFor "hello") (crash fs)).1 = Ok "hello".
Proof. vm_compute. done. Qed.

(** ** The calls, on the files *)

Lemma sys_files fs b fs' : sys fs = (b, fs') → files fs' = files fs.
Proof. unfold sys. destruct (script fs); by intros [= <- <-]. Qed.

Lemma osMkdirAll_files fs d b fs' : osMkdirAll fs d = (b, fs') → files fs' = files fs.
Proof. unfold osMkdirAll. destruct (sys fs) as [[] fs1] eqn:E; intros [= <- <-]; by rewrite <- (sys_files _ _ _ E). Qed.

Lemma osStat_files fs p b fs' :
  osStat fs p = (b, fs') → files fs' = files fs ∧ (b = false → is_Some (files fs !! p)).
Proof.
  unfold osStat. destruct (sys fs) as [bad fs1] eqn:E. intros [= <- <-]. rewrite (sys_files _ _ _ E).
  split; [done|]. rewrite orb_false_iff, negb_false_iff, bool_decide_eq_true. naive_solver.
Qed.

Lemma syncDir_files fs d b fs' p :
  syncDir fs d = (b, fs') →
  (b = true ∧ files fs' = files fs) ∨
  (b = false ∧ files fs' !! p =
     (λ f, if childOf d p then MkFile (fContent f) (fSynced f) true else f) <$> files fs !! p).
Proof.
  unfold syncDir. destruct (sys fs) as [[] fs1] eqn:E; intros [= <- <-]; rewrite <- (sys_files _ _ _ E); [by left|right].
  split; [done|]. cbn [files setFiles]. rewrite map_lookup_imap. by destruct (files fs1 !! p).
Qed.

Lemma osCreate_files fs p b fs' :
  osCreate fs p = (b, fs') → files fs' = if b then files fs else <[p := MkFile "" false false]> (files fs).
Proof. unfold osCreate. destruct (sys fs) as [[] fs1] eqn:E; intros [= <- <-]; by rewrite <- (sys_files _ _ _ E). Qed.

Lemma osWrite_files fs p c b fs' :
  osWrite fs p c = (b, fs') → ∃ w, (b = false → w = c) ∧
  files fs' = alter (λ f, MkFile (fContent f +:+ w) false (fEntrySynced f)) p (files fs).
Proof.
  unfold osWrite. destruct (sys fs) as [[] fs1] eqn:E; intros [= <- <-]; rewrite <- (sys_files _ _ _ E); (eexists; split; [|reflexivity]; done).
Qed.

Lemma osSync_files fs p b fs' :
  osSync fs p = (b, fs') →
  files fs' = if b then files fs else alter (λ f, MkFile (fContent f) true (fEntrySynced f)) p (files fs).
Proof. unfold osSync. destruct (sys fs) as [[] fs1] eqn:E; intros [= <- <-]; by rewrite <- (sys_files _ _ _ E). Qed.

Lemma osRemove_lookup fs p q : p ≠ q → files (osRemove fs p) !! q = files fs !! q.
Proof.
  intros H. unfold osRemove. destruct (sys fs) as [[] fs1] eqn:E; rewrite <- (sys_files _ _ _ E); [done|].
  cbn [files setFiles]. by rewrite lookup_delete_ne.
Qed.

Lemma osRename_files fs p q b fs' :
  osRename fs p q = (b, fs') →
  (b = true ∧ files fs' = files fs) ∨
  (b = false ∧ ∃ f, files fs !! p = Some f ∧
     files fs' = <[q := MkFile (fContent f) (fSynced f) false]> (delete p (files fs))).
Proof.
  unfold osRename. destruct (sys fs) as [[] fs1] eqn:E; rewrite <- (sys_files _ _ _ E); [intros [= <- <-]; by left|].
  destruct (files fs1 !! p) as [f|] eqn:Ef; intros [= <- <-]; [right; split; [done|]; by exists f|by left].
Qed.

(** ** What a call leaves alone *)

(** Same bytes, at least as durable. *)
Definition le_file (f f' : file) : Prop :=
  fContent f' = fContent f ∧ fSynced f' = fSynced f ∧ (fEntrySynced f = true → fEntrySynced f' = true).

#[global] Instance le_file_preorder : PreOrder le_file.
Proof.
  split; [by intros f|]. intros f g h (H1 & H2 & H3) (H4 & H5 & H6).
  split; [congruence|]. split; [congruence|auto].
Qed.

Definition keeps (P : string → Prop) (fs fs' : FS) : Prop :=
  ∀ q, P q → option_Forall2 le_file (files fs !! q) (files fs' !! q).

#[global] Instance keeps_preorder P : PreOrder (keeps P).
Proof.
  split; [intros fs q _; reflexivity|]. intros a b c H1 H2 q Hq.
  transitivity (files b !! q); auto.
Qed.

Lemma keeps_eq P fs fs' : (∀ q, P q → files fs' !! q = files fs !! q) → keeps P fs fs'.
Proof. intros H q Hq. rewrite H by done. reflexivity. Qed.

Lemma keeps_weaken (P Q : string → Prop) fs fs' : (∀ q, Q q → P q) → keeps P fs fs' → keeps Q fs fs'.
Proof. intros H K q Hq. auto. Qed.

Lemma sys_keeps P fs b fs' : sys fs = (b, fs') → keeps P fs fs'.
Proof. intros H. apply keeps_eq. intros. by rewrite (sys_files _ _ _ H). Qed.
Lemma osMkdirAll_keeps P fs d b fs' : osMkdirAll fs d = (b, fs') → keeps P fs fs'.
Proof. intros H. apply keeps_eq. intros. by rewrite (osMkdirAll_files _ _ _ _ H). Qed.
Lemma osStat_keeps P fs p b fs' : osStat fs p = (b, fs') → keeps P fs fs'.
Proof. intros H. apply keeps_eq. intros. by destruct (osStat_files _ _ _ _ H) as [-> _]. Qed.
Lemma syncDir_keeps P fs d b fs' : syncDir fs d = (b, fs') → keeps P fs fs'.
Proof.
  intros H q _. destruct (syncDir_files _ _ _ _ q H) as [[_ ->]|[_ ->]]; [reflexivity|].
  destruct (files fs !! q) as [f|]; simpl; constructor. case_match; [by split|reflexivity].
Qed.
Lemma osCreate_keeps fs p b fs' : osCreate fs p = (b, fs') → keeps (λ q, p ≠ q) fs fs'.
Proof.
  intros H. apply keeps_eq. intros q Hq. rewrite (osCreate_files _ _ _ _ H).
  destruct b; [done|by rewrite lookup_insert_ne].
Qed.
Lemma osWrite_keeps fs p c b fs' : osWrite fs p c = (b, fs') → keeps (λ q, p ≠ q) fs fs'.
Proof.
  intros H. apply keeps_eq. intros q Hq. apply osWrite_files in H as (w & _ & ->). by rewrite lookup_alter_ne.
Qed.
Lemma osSync_keeps fs p b fs' : osSync fs p = (b, fs') → keeps (λ q, p ≠ q) fs fs'.
Proof.
  intros H. apply keeps_eq. intros q Hq. rewrite (osSync_files _ _ _ _ H).
  destruct b; [done|by rewrite lookup_alter_ne].
Qed.
Lemma osRemove_keeps fs p : keeps (λ q, p ≠ q) fs (osRemove fs p).
Proof. apply keeps_eq. intros q Hq. by apply osRemove_lookup. Qed.
Lemma osRename_keeps fs p q b fs' : osRename fs p q = (b, fs') → keeps (λ x, p ≠ x ∧ q ≠ x) fs fs'.
Proof.
  intros H. apply keeps_eq. intros x [Hp Hq].
  destruct (osRename_files _ _ _ _ _ H) as [[_ ->]|(_ & f & _ & ->)]; [done|].
  by rewrite lookup_insert_ne, lookup_delete_ne.
Qed.

#[export] Hint Resolve sys_keeps osMkdirAll_keeps osStat_keeps syncDir_keeps osCreate_keeps osWrite_keeps
  osSync_keeps osRemove_keeps osRename_keeps : awf.

(** ** Paths *)

Section paths.
Variable root : string.

Definition tmpOf (hashHex rnd : string) : string := join (shardDir root hashHex) (hashHex +:+ ".tmp." +:+ rnd).

Lemma finalPath_inj h h' :
  slen h = blobHashHexLen → slen h' = blobHashHexLen → finalPath root h = finalPath root h' → h = h'.
Proof.
  unfold finalPath, shardDir, join, blobHashHexLen. intros Hl Hl'. rewrite <- !sapp_assoc.
  intros H%sapp_inj_l%sapp_inj_l. apply sapp_inj_len in H as [_ H]; [|rewrite !slen_stake; lia].
  by apply sapp_inj_l in H.
Qed.

Lemma tmp_not_final h rnd h' :
  slen h = blobHashHexLen → slen h' = blobHashHexLen → tmpOf h rnd ≠ finalPath root h'.
Proof.
  intros Hl Hl' H. apply (f_equal slen) in H. revert H.
  unfold tmpOf, finalPath, shardDir, join, algoDir, blobHashHexLen in *.
  rewrite !slen_app, !slen_stake. cbn [slen]. lia.
Qed.

Lemma hash_length content : slen (EncodeToString (Sum256 content)) = blobHashHexLen.
Proof. by rewrite EncodeToString_length, Sum256_length. Qed.

End paths.

(** ** The characters of an address *)

Lemma EncodeToString_chars f l :
  forallb (λ n, f (hexDigit (Z.of_nat n))) (seq 0 16) = true →
  Forall (λ b, 0 ≤ b < 256)%Z l → sforall f (EncodeToString l) = true.
Proof.
  intros Hf. assert (H : ∀ z, (0 ≤ z < 16)%Z → f (hexDigit z) = true).
  { intros z Hz. rewrite forallb_forall in Hf. rewrite <- (Z2Nat.id z) by lia. apply Hf, in_seq. lia. }
  induction 1 as [|b l Hb _ IH]; [done|]. cbn [EncodeToString sforall]. rewrite IH, !H; [done| |].
  - change 15%Z with (Z.ones 4). rewrite Z.land_ones by lia. apply Z.mod_pos_bound. lia.
  - rewrite Z.shiftr_div_pow2 by lia. change (2 ^ 4)%Z with 16%Z.
    split; [apply Z.div_pos; lia|apply Z.div_lt_upper_bound; lia].
Qed.

Lemma hash_chars f content :
  forallb (λ n, f (hexDigit (Z.of_nat n))) (seq 0 16) = true →
  sforall f (EncodeToString (Sum256 content)) = true.
Proof. intros H. apply EncodeToString_chars; [done|apply Sum256_range]. Qed.

Lemma sforall_no_slash s : sforall (λ c, negb (Ascii.eqb c "/")) s = true → strContains s "/" = false.
Proof.
  unfold strContains. induction s as [|c s IH]; [done|]. cbn [sforall strIndex].
  rewrite andb_true_iff, negb_true_iff. intros [Hc Hs].
  destruct (String.prefix "/" (String c s)) eqn:E.
  - apply prefix_spec in E as [t [= -> _]]. discriminate Hc.
  - specialize (IH Hs). by destruct (strIndex s "/").
Qed.

Lemma childOf_final root content :
  let h := EncodeToString (Sum256 content) in childOf (shardDir root h) (finalPath root h) = true.
Proof.
  intros h. unfold childOf, finalPath, join. apply andb_true_iff. split.
  - unfold HasPrefix. rewrite sapp_assoc. apply prefix_app.
  - apply negb_true_iff, sforall_no_slash.
    replace (slen (shardDir root h) + 1)%nat with (slen (shardDir root h +:+ "/")) by (by rewrite slen_app).
    rewrite sapp_assoc, sdrop_app. by apply hash_chars.
Qed.

Lemma parseRef_RefFor content : parseRef (RefFor content) = Ok (EncodeToString (Sum256 content)).
Proof.
  unfold parseRef, RefFor, hashAndRef. cbn [snd]. unfold HasPrefix. rewrite prefix_app, sdrop_app. cbn [negb].
  rewrite hash_length. cbn. rewrite !hash_chars by reflexivity. done.
Qed.

(** [parseRef] only lets through 64 lower-case hexadecimal digits. *)
Definition isHexLower (c : ascii) : bool := isHexAny c && negb (isUpper c).

Lemma parseRef_ok ref h :
  parseRef ref = Ok h →
  ref = blobRefPrefix +:+ h ∧ slen h = blobHashHexLen ∧ sforall isHexLower h = true.
Proof.
  unfold parseRef. destruct (HasPrefix ref blobRefPrefix) eqn:E1; [|done].
  apply prefix_spec in E1 as [t ->]. rewrite sdrop_app. cbn [negb].
  destruct (slen t =? blobHashHexLen)%nat eqn:E2; [apply Nat.eqb_eq in E2|done]. cbn [negb].
  destruct (sforall _ t) eqn:E3; [|done]. destruct (sforall isHexAny t) eqn:E4; [|done]. intros [= <-].
  split; [done|]. split; [done|]. revert E3 E4. clear. induction t as [|c t IH]; [done|]. cbn.
  rewrite !andb_true_iff. unfold isHexLower. rewrite andb_true_iff. naive_solver.
Qed.

(** ** Put *)

Section put.
Context (root content rnd : string).
Let h := EncodeToString (Sum256 content).
Let fp := finalPath root h.
Let tmp := tmpOf root h rnd.

(** Everything except the temporary file and the blob itself is kept; the blob's file is kept too,
    or it is now complete and synced; a successful [Put] leaves a file there, durable when it
    wrote it. *)
Definition put_effect (fs : FS) (r : res blobErr string) (fs' : FS) : Prop :=
  keeps (λ q, tmp ≠ q ∧ fp ≠ q) fs fs' ∧
  ((option_Forall2 le_file (files fs !! fp) (files fs' !! fp) ∧ (is_ok r = true → is_Some (files fs !! fp))) ∨
   (∃ b, files fs' !! fp = Some (MkFile content true b) ∧ (is_ok r = true → b = true))) ∧
  (∀ ref, r = Ok ref → ref = RefFor content).

Lemma tmp_ne_fp : tmp ≠ fp.
Proof. apply tmp_not_final; apply hash_length. Qed.

Lemma put_failed fs e fs' : keeps (λ q, tmp ≠ q) fs fs' → put_effect fs (Err e) fs'.
Proof.
  intros H. split; [|split; [left; split; [apply H, tmp_ne_fp|done]|done]].
  eapply keeps_weaken; [|exact H]. by intros q [? _].
Qed.

(** The end of [Put], once the temporary file is complete and synced. *)
Lemma put_rename fs fs7 r fs' :
  keeps (λ q, tmp ≠ q) fs fs7 → files fs7 !! tmp = Some (MkFile content true false) →
  (let '(bad, fs8) := osRename fs7 tmp fp in
   if bad then (Err (ErrIO "rename"), osRemove fs8 tmp) else
   let '(bad, fs9) := syncDir fs8 (shardDir root h) in
   if bad then (Err (ErrIO "sync shard dir"), fs9) else (Ok (blobRefPrefix +:+ h), fs9)) = (r, fs') →
  put_effect fs r fs'.
Proof.
  intros K7 Hf0. destruct (osRename fs7 tmp fp) as [b fs8] eqn:E8.
  assert (K8 : keeps (λ q, tmp ≠ q ∧ fp ≠ q) fs fs8).
  { etransitivity; [eapply keeps_weaken; [|exact K7]; by intros q [? _]|eauto with awf]. }
  apply osRename_files in E8 as [[-> E8]|(-> & f & Hf & E8)].
  { intros [= <- <-]. apply put_failed. etransitivity; [exact K7|].
    etransitivity; [|apply osRemove_keeps]. apply keeps_eq. intros. by rewrite E8. }
  rewrite Hf0 in Hf. injection Hf as <-. cbn [fContent fSynced] in E8.
  destruct (syncDir fs8 (shardDir root h)) as [b fs9] eqn:E9.
  assert (K9 : keeps (λ q, tmp ≠ q ∧ fp ≠ q) fs fs9) by (etransitivity; eauto with awf).
  intros Hr. assert (fs9 = fs') as -> by (by destruct b; injection Hr). split; [done|].
  split; [|intros ref ->; destruct b; [done|by injection Hr]].
  right. apply (syncDir_files _ _ _ _ fp) in E9 as [[-> E9]|[-> E9]].
  - exists false. rewrite E9, E8, lookup_insert_eq. by injection Hr as <-.
  - exists true. rewrite E9, E8, lookup_insert_eq. cbn. unfold fp, h. by rewrite childOf_final.
Qed.

Lemma Put_effect fs r fs' : Put root content rnd fs = (r, fs') → put_effect fs r fs'.
Proof.
  unfold Put, hashAndRef. fold h. fold (tmpOf root h rnd). fold fp tmp.
  destruct (osMkdirAll fs (shardDir root h)) as [b fs1] eqn:E.
  assert (K1 : keeps (λ q, tmp ≠ q) fs fs1) by eauto with awf.
  destruct b; [intros [= <- <-]; by apply put_failed|].
  destruct (osStat fs1 fp) as [b fs2] eqn:E2. apply osStat_files in E2 as Hst.
  assert (K2 : keeps (λ q, tmp ≠ q) fs fs2) by (etransitivity; eauto with awf).
  destruct b; cbn [negb].
  2:{ intros [= <- <-]. split; [eapply keeps_weaken; [|exact K2]; by intros q [? _]|].
      split; [left; split; [apply K2, tmp_ne_fp|]|by intros ref [= <-]].
      intros _. destruct Hst as [_ Hst]. specialize (Hst eq_refl).
      rewrite <- (osMkdirAll_files _ _ _ _ E). done. }
  clear Hst E2 E K1.
  destruct (syncDir fs2 (algoDir root)) as [b fs3] eqn:E.
  assert (K3 : keeps (λ q, tmp ≠ q) fs fs3) by (etransitivity; eauto with awf).
  destruct b; [intros [= <- <-]; by apply put_failed|]. clear E K2.
  destruct (osCreate fs3 tmp) as [b fs4] eqn:E4.
  assert (K4 : keeps (λ q, tmp ≠ q) fs fs4) by (etransitivity; eauto with awf).
  destruct b; [intros [= <- <-]; by apply put_failed|]. apply osCreate_files in E4. clear K3.
  destruct (osWrite fs4 tmp content) as [b fs5] eqn:E5.
  assert (K5 : keeps (λ q, tmp ≠ q) fs fs5) by (etransitivity; eauto with awf).
  destruct b.
  { destruct (osClose fs5) as [b fs6] eqn:E6. intros [= <- <-]. apply put_failed.
    etransitivity; [exact K5|]. etransitivity; [by eapply sys_keeps|apply osRemove_keeps]. }
  apply osWrite_files in E5 as (w & Hw & E5). specialize (Hw eq_refl) as ->. clear K4.
  destruct (osSync fs5 tmp) as [b fs6] eqn:E6.
  assert (K6 : keeps (λ q, tmp ≠ q) fs fs6) by (etransitivity; eauto with awf).
  destruct b.
  { destruct (osClose fs6) as [b fs7] eqn:E7. intros [= <- <-]. apply put_failed.
    etransitivity; [exact K6|]. etransitivity; [by eapply sys_keeps|apply osRemove_keeps]. }
  apply osSync_files in E6. clear K5.
  destruct (osClose fs6) as [b fs7] eqn:E7.
  assert (K7 : keeps (λ q, tmp ≠ q) fs fs7) by (etransitivity; [exact K6|by eapply sys_keeps]).
  destruct b; [intros [= <- <-]; apply put_failed; etransitivity; [exact K7|apply osRemove_keeps]|].
  apply sys_files in E7. clear K6.
  apply put_rename; [done|]. by rewrite E7, E6, E5, E4, !lookup_alter_eq, lookup_insert_eq.
Qed.
End put.

(** ** The store as a whole *)

Section invariants.
Variable root : string.

(** Every blob file holds the content its name is the hash of. *)
Definition blobs_ok (fs : FS) : Prop :=
  ∀ h f, slen h = blobHashHexLen → files fs !! finalPath root h = Some f →
         EncodeToString (Sum256 (fContent f)) = h.

(** Every blob file survives a crash. *)
Definition blobs_durable (fs : FS) : Prop :=
  ∀ h f, slen h = blobHashHexLen → files fs !! finalPath root h = Some f →
         fSynced f = true ∧ fEntrySynced f = true.

Lemma Put_lookup content rnd fs r fs' h :
  Put root content rnd fs = (r, fs') → slen h = blobHashHexLen →
  option_Forall2 le_file (files fs !! finalPath root h) (files fs' !! finalPath root h) ∨
  h = EncodeToString (Sum256 content) ∧
  ∃ b, files fs' !! finalPath root h = Some (MkFile content true b) ∧ (is_ok r = true → b = true).
Proof.
  intros H Hl. apply Put_effect in H as (K & Hf & _).
  destruct (decide (h = EncodeToString (Sum256 content))) as [->|Hne].
  - destruct Hf as [[Hf _]|Hf]; [by left|by right].
  - left. apply K. split; [by apply tmp_not_final; [apply hash_length|]|].
    intros E. apply Hne. symmetry. by apply (finalPath_inj root); [apply hash_length| |].
Qed.

Lemma Put_blobs_ok content rnd fs r fs' :
  Put root content rnd fs = (r, fs') → blobs_ok fs → blobs_ok fs'.
Proof.
  intros H Hok h f Hl Hf. destruct (Put_lookup _ _ _ _ _ h H Hl) as [Hk|[-> (b & Hb & _)]].
  - rewrite Hf in Hk. inversion Hk as [f0 ? (Hc & _) Hf0|]; subst. rewrite Hc. by apply Hok.
  - rewrite Hf in Hb. by injection Hb as ->.
Qed.

Lemma Put_durable content rnd fs ref fs' :
  Put root content rnd fs = (Ok ref, fs') → blobs_durable fs → blobs_durable fs'.
Proof.
  intros H Hd h f Hl Hf. destruct (Put_lookup _ _ _ _ _ h H Hl) as [Hk|[-> (b & Hb & Hr)]].
  - rewrite Hf in Hk. inversion Hk as [f0 ? (Hc & Hs & He) Hf0|]; subst.
    destruct (Hd h f0 Hl) as [H1 H2]; [done|]. rewrite Hs. auto.
  - rewrite Hf in Hb. injection Hb as ->. by rewrite Hr.
Qed.

Lemma Put_present content rnd fs ref fs' :
  Put root content rnd fs = (Ok ref, fs') →
  ref = RefFor content ∧ is_Some (files fs' !! finalPath root (EncodeToString (Sum256 content))).
Proof.
  intros H. apply Put_effect in H as (_ & Hf & Hr). split; [by apply Hr|].
  destruct Hf as [[Hf Hs]|(b & Hb & _)]; [|by eexists].
  destruct (Hs eq_refl) as [f Ef]. rewrite Ef in Hf. by inversion Hf; eexists.
Qed.

(** [Get] without faults. *)
Lemma Get_clean ref h fs :
  parseRef ref = Ok h → script fs = [] →
  (Get root ref fs).1 =
  match files fs !! finalPath root h with
  | None => Err ErrNotExist
  | Some f => if String.eqb (EncodeToString (Sum256 (fContent f))) h then Ok (fContent f) else Err ErrCorruption
  end.
Proof.
  intros Hp Hs. unfold Get. rewrite Hp. unfold sys. rewrite Hs.
  destruct (files fs !! finalPath root h) as [f|]; [|done]. rewrite Hs. cbn [negb].
  by destruct (String.eqb _ h).
Qed.

Lemma crash_lookup fs p f :
  files fs !! p = Some f → fSynced f = true → fEntrySynced f = true → files (crash fs) !! p = Some f.
Proof.
  intros Hf H1 H2. unfold crash. cbn [files]. apply map_lookup_filter_Some. split; [done|]. cbn. by rewrite H1, H2.
Qed.
End invariants.

(** ** The properties *)

(** C32: content addressing. Whatever is on disk, and whichever call fails: when [Get] returns
    content, it is content the reference is the address of; and the reference was well formed, so
    only 64 lower-case hexadecimal digits ever reach a path. *)
Theorem Get_integrity root ref fs c fs' :
  Get root ref fs = (Ok c, fs') →
  RefFor c = ref ∧ ∃ h, ref = blobRefPrefix +:+ h ∧ slen h = blobHashHexLen ∧ sforall isHexLower h = true.
Proof.
  unfold Get. destruct (parseRef ref) as [h|] eqn:Hp; [|done]. apply parseRef_ok in Hp as (-> & Hl & Hh).
  destruct (sys fs) as [[] fs1]; [done|]. destruct (files fs1 !! _) as [f|]; [|done].
  destruct (sys fs1) as [[] fs2]; [done|].
  destruct (String.eqb_spec (EncodeToString (Sum256 (fContent f))) h) as [<-|]; [|done]. cbn [negb].
  intros [= <- _]. split; [done|]. by eexists.
Qed.

Lemma Get_integrity_witness :
  let fs := (Put "/s" "hello" "1" fs0).2 in
  RefFor "hello" = RefFor "hello" ∧
  ∃ h, RefFor "hello" = blobRefPrefix +:+ h ∧ slen h = blobHashHexLen ∧ sforall isHexLower h = true.
Proof.
  intros fs. apply (Get_integrity "/s" (RefFor "hello") fs "hello" fs). vm_compute. reflexivity.
Defined.

(** C33: [Put] is atomic. Whichever of its ten calls fails, and with whatever leftovers: no blob file
    is ever partial (each one keeps holding the content its name is the hash of), and every other
    blob keeps its content. *)
Theorem Put_atomic root content rnd fs r fs' :
  Put root content rnd fs = (r, fs') → blobs_ok root fs →
  blobs_ok root fs' ∧
  ∀ h f, slen h = blobHashHexLen → files fs !! finalPath root h = Some f →
    ∃ f', files fs' !! finalPath root h = Some f' ∧
          (fContent f' = fContent f ∨ h = EncodeToString (Sum256 content) ∧ fContent f' = content).
Proof.
  intros H Hok. split; [by eapply Put_blobs_ok|]. intros h f Hl Hf.
  destruct (Put_lookup _ _ _ _ _ _ h H Hl) as [Hk|[-> (b & Hb & _)]].
  - rewrite Hf in Hk. inversion Hk as [? f' (Hc & _)|]; subst. eauto.
  - eexists. split; [exact Hb|]. by right.
Qed.

Lemma empty_store root s k : blobs_ok root (MkFS ∅ ∅ s k) ∧ blobs_durable root (MkFS ∅ ∅ s k).
Proof. split; intros h f _ Hf; cbn [files] in Hf; by rewrite lookup_empty in Hf. Qed.

Lemma Put_atomic_witness :
  blobs_ok "/s" (Put "/s" "hello" "1" (MkFS ∅ ∅ [false; true; false; false; false; false; false; true] 3)).2.
Proof.
  eapply (Put_atomic "/s" "hello" "1" (MkFS ∅ ∅ [false; true; false; false; false; false; false; true] 3));
    [apply surjective_pairing|apply empty_store].
Defined.

(** put, crash, get. From a store whose blobs are intact and durable, a successful [Put] returns
    the address of the content, keeps the store intact and durable, and after a crash [Get] of that
    address returns content with that address (the content itself, absent SHA-256 collisions). *)
Theorem Put_crash_Get root content rnd fs ref fs' :
  Put root content rnd fs = (Ok ref, fs') → blobs_ok root fs → blobs_durable root fs →
  ref = RefFor content ∧ blobs_ok root fs' ∧ blobs_durable root fs' ∧
  ∃ c, (Get root ref (crash fs')).1 = Ok c ∧ RefFor c = ref ∧
       ((∀ c', RefFor c' = RefFor content → c' = content) → c = content).
Proof.
  intros H Hok Hd. destruct (Put_present _ _ _ _ _ _ H) as [-> [f Hf]].
  assert (Hok' := Put_blobs_ok _ _ _ _ _ _ H Hok). assert (Hd' := Put_durable _ _ _ _ _ _ H Hd).
  split; [done|]. split; [done|]. split; [done|]. exists (fContent f).
  assert (Ec := Hok' _ f (hash_length content) Hf).
  destruct (Hd' _ f (hash_length content) Hf) as [H1 H2].
  rewrite (Get_clean _ _ _ _ (parseRef_RefFor content)) by done.
  rewrite (crash_lookup _ _ f Hf H1 H2), Ec, String.eqb_refl. split; [done|].
  assert (Er : RefFor (fContent f) = RefFor content) by (unfold RefFor, hashAndRef; cbn; by rewrite Ec).
  split; [done|]. auto.
Qed.

Lemma Put_crash_Get_witness :
  RefFor "hello" = RefFor "hello" ∧ ∃ c, (Get "/s" (RefFor "hello") (crash (Put "/s" "hello" "1" fs0).2)).1 = Ok c
    ∧ RefFor c = RefFor "hello".
Proof.
  destruct (Put_crash_Get "/s" "hello" "1" fs0 (RefFor "hello") (Put "/s" "hello" "1" fs0).2)
    as (H1 & _ & _ & c & H2 & H3 & _).
  - vm_compute. reflexivity.
  - apply empty_store.
  - apply empty_store.
  - split; [exact H1|]. exists c. split; [exact H2|exact H3].
Defined.

(** The fast path skips the directory sync: a [Put] that fails at its last call leaves a visible but
    not durable entry; retrying it succeeds by deduplication, and a crash then loses a blob whose
    [Put] succeeded. *)
Theorem Put_dedup_not_durable :
  let fs := MkFS ∅ ∅ [false; true; false; false; false; false; false; false; true] 3 in
  let '(r1, fs1) := Put "/s" "hello" "1" fs in
  let '(r2, fs2) := Put "/s" "hello" "2" fs1 in
  r1 = Err (ErrIO "sync shard dir") ∧ r2 = Ok (RefFor "hello") ∧
  (Get "/s" (RefFor "hello") fs2).1 = Ok "hello" ∧
  (Get "/s" (RefFor "hello") (crash fs2)).1 = Err ErrNotExist.
Proof. vm_compute. repeat split. Qed.

(** the in-memory store. A [Put] fails exactly at its programmed call and then stores nothing;
    otherwise it returns the address, and from then on [Get] of the address returns content with
    that address. *)
Theorem memPut_memGet content b r b' :
  memPut content b = (r, b') →
  (failPutAt b = Some (putCalls b) ∧ is_ok r = false ∧ store b' = store b) ∨
  (failPutAt b ≠ Some (putCalls b) ∧ r = Ok (RefFor content) ∧
   (∀ ref c, memGet ref b = Ok c → memGet ref b' = Ok c) ∧
   match memGet (RefFor content) b with
   | Ok c => memGet (RefFor content) b' = Ok c
   | Err _ => memGet (RefFor content) b' = Ok content
   end).
Proof.
  set (h := EncodeToString (Sum256 content)).
  unfold memPut. change (hashAndRef content) with (h, RefFor content).
  case_bool_decide as E; [intros [= <- <-]; by left|].
  intros Hr. injection Hr as <- <-. right. split; [done|]. split; [done|].
  unfold memGet. rewrite parseRef_RefFor. fold h. cbn [res_bind store]. split.
  - intros ref c. destruct (parseRef ref) as [h'|]; [|done]. cbn [res_bind]. intros Hc.
    destruct (store b !! h) eqn:Eh; [done|]. destruct (decide (h = h')) as [<-|Hne]; [by rewrite Eh in Hc|].
    by rewrite lookup_insert_ne.
  - destruct (store b !! h) eqn:Eh; [by rewrite Eh|]. by rewrite lookup_insert_eq.
Qed.

Lemma memPut_memGet_witness :
  let b' := (memPut "hello" NewInMemoryBlobs).2 in
  (failPutAt NewInMemoryBlobs = Some (putCalls NewInMemoryBlobs) ∧ is_ok (Ok (E:=blobErr) (RefFor "hello")) = false
     ∧ store b' = store NewInMemoryBlobs) ∨
  (failPutAt NewInMemoryBlobs ≠ Some (putCalls NewInMemoryBlobs) ∧ Ok (E:=blobErr) (RefFor "hello") = Ok (RefFor "hello") ∧
   (∀ ref c, memGet ref NewInMemoryBlobs = Ok c → memGet ref b' = Ok c) ∧
   match memGet (RefFor "hello") NewInMemoryBlobs with
   | Ok c => memGet (RefFor "hello") b' = Ok c
   | Err _ => memGet (RefFor "hello") b' = Ok "hello"
   end).
Proof. apply (memPut_memGet "hello" NewInMemoryBlobs (Ok (RefFor "hello"))). vm_compute. reflexivity. Defined.
