(* ===== verification/StateFrame.v ===== *)
(** * state/event.go: the record frame

    A record on disk is a header (payload length and CRC32C, little endian), the payload, and zero
    padding up to a multiple of eight bytes.  [decodeFrame] reads one back from the front of a
    buffer. *)

From S2P Require Import Prelude GoNum Sha256.

Definition frameHeaderSize : nat := 8.
Definition frameAlignment : nat := 8.

(** ** CRC32C ([crc32.Checksum] with the Castagnoli table), bit by bit *)

Definition crcPoly : Z := 0x82f63b78.

Fixpoint crc_bits (n : nat) (c : Z) : Z :=
  match n with
  | O => c
  | S n => crc_bits n (if Z.odd c then Z.lxor (Z.shiftr c 1) crcPoly else Z.shiftr c 1)
  end.

Fixpoint crc_update (c : Z) (s : string) : Z :=
  match s with
  | "" => c
  | String b s => crc_update (crc_bits 8 (Z.lxor c (byte_of b))) s
  end.

Definition Checksum (s : string) : Z := Z.lxor (crc_update 0xffffffff s) 0xffffffff.

Example crc_is_castagnoli : Checksum "123456789" = 0xe3069283%Z.
Proof. vm_compute. reflexivity. Qed.

(** ** Little-endian integers *)

Definition byteAt (z : Z) (i : nat) : ascii :=
  ascii_of_nat (Z.to_nat (Z.shiftr z (8 * Z.of_nat i) mod 256)).

Definition PutUint32 (z : Z) : string :=
  String (byteAt z 0) (String (byteAt z 1) (String (byteAt z 2) (String (byteAt z 3) ""))).

(** [binary.LittleEndian.Uint32] of the first four bytes. *)
Definition Uint32 (s : string) : Z :=
  match s with
  | String a (String b (String c (String d _))) =>
      (byte_of a + 256 * (byte_of b + 256 * (byte_of c + 256 * byte_of d)))%Z
  | _ => 0%Z
  end.

(** ** Frames *)

Definition zeros (n : nat) : string := srepeat (ascii_of_nat 0) n.

(** The padding after [n] bytes. *)
Definition padLen (n : nat) : nat :=
  let rem := (n mod frameAlignment)%nat in
  if (rem =? 0)%nat then 0%nat else (frameAlignment - rem)%nat.

(** [make] followed by [PutUint32] and [copy]: [payloadLen] is the length as a uint32. *)
Definition encodeFrame (payload : string) : string :=
  let payloadLen := wrap_u32 (Z.of_nat (slen payload)) in
  let crc := Checksum payload in
  let total := (frameHeaderSize + slen payload)%nat in
  PutUint32 payloadLen +:+ PutUint32 crc +:+ payload +:+ zeros (padLen total).

Inductive frameErr : Type := errShortFrame | errCRCMismatch.

#[global] Instance frameErr_eq_dec : EqDecision frameErr.
Proof. solve_decision. Defined.

Definition decodeFrame (buf : string) : res frameErr (string * nat) :=
  if (slen buf <? frameHeaderSize)%nat then Err errShortFrame
  else
    let payloadLen := Uint32 buf in
    let wantCRC := Uint32 (sdrop 4 buf) in
    if (Z.of_nat (slen buf - frameHeaderSize) <? payloadLen)%Z then Err errShortFrame
    else
      let end_ := (frameHeaderSize + Z.to_nat payloadLen)%nat in
      let payload := sslice buf frameHeaderSize end_ in
      if negb (Checksum payload =? wantCRC)%Z then Err errCRCMismatch
      else
        let consumed := (end_ + padLen end_)%nat in
        if (slen buf <? consumed)%nat then Err errShortFrame
        else Ok (payload, consumed).

Example frame_ex : decodeFrame (encodeFrame "hello" +:+ "rest") = Ok ("hello", 16%nat).
Proof. vm_compute. reflexivity. Qed.

(** ** Lemmas *)

Lemma byte_of_byteAt z i : byte_of (byteAt z i) = (Z.shiftr z (8 * Z.of_nat i) mod 256)%Z.
Proof.
  unfold byte_of, byteAt.
  assert (H : (0 ≤ Z.shiftr z (8 * Z.of_nat i) mod 256 < 256)%Z) by (by apply Z.mod_pos_bound).
  rewrite nat_ascii_embedding by lia. lia.
Qed.

Lemma byte_of_range c : (0 ≤ byte_of c < 256)%Z.
Proof. unfold byte_of. pose proof (nat_ascii_bounded c). lia. Qed.

Lemma Uint32_PutUint32 z s : (0 ≤ z < two32)%Z → Uint32 (PutUint32 z +:+ s) = z.
Proof.
  intros Hz. cbn [PutUint32 String.append Uint32]. rewrite !byte_of_byteAt.
  rewrite !Z.shiftr_div_pow2 by lia. change (8 * Z.of_nat 0)%Z with 0%Z.
  change (2 ^ 0)%Z with 1%Z. change (2 ^ (8 * Z.of_nat 1))%Z with 256%Z.
  change (2 ^ (8 * Z.of_nat 2))%Z with (256 * 256)%Z. change (2 ^ (8 * Z.of_nat 3))%Z with (256 * (256 * 256))%Z.
  rewrite Z.div_1_r. rewrite <- !Z.div_div by lia. unfold two32 in Hz.
  pose proof (Z.div_mod z 256 ltac:(lia)). pose proof (Z.div_mod (z / 256) 256 ltac:(lia)).
  pose proof (Z.div_mod (z / 256 / 256) 256 ltac:(lia)).
  assert (0 ≤ z / 256 / 256 / 256 < 256)%Z.
  { rewrite !Z.div_div by lia. split; [apply Z.div_pos; lia|apply Z.div_lt_upper_bound; lia]. }
  rewrite (Z.mod_small (z / 256 / 256 / 256)) by lia. lia.
Qed.

Lemma lxor_range a b : (0 ≤ a < two32)%Z → (0 ≤ b < two32)%Z → (0 ≤ Z.lxor a b < two32)%Z.
Proof.
  intros Ha Hb. assert (Hn : (0 ≤ Z.lxor a b)%Z) by (apply Z.lxor_nonneg; lia). split; [done|].
  destruct (decide (Z.lxor a b = 0)%Z) as [->|Hne]; [done|].
  apply Z.log2_lt_pow2; [lia|].
  apply Z.le_lt_trans with (Z.max (Z.log2 a) (Z.log2 b)); [apply Z.log2_lxor; lia|].
  apply Z.max_lub_lt.
  - destruct (decide (a = 0)%Z) as [->|]; [done|]. apply Z.log2_lt_pow2; [lia|apply Ha].
  - destruct (decide (b = 0)%Z) as [->|]; [done|]. apply Z.log2_lt_pow2; [lia|apply Hb].
Qed.

Lemma crc_bits_range n c : (0 ≤ c < two32)%Z → (0 ≤ crc_bits n c < two32)%Z.
Proof.
  revert c; induction n as [|n IH]; intros c Hc; [done|]. cbn [crc_bits]. apply IH.
  assert (H1 : (0 ≤ Z.shiftr c 1 < two32)%Z).
  { rewrite Z.shiftr_div_pow2 by lia. unfold two32 in *.
    split; [apply Z.div_pos; lia|apply Z.div_lt_upper_bound; lia]. }
  destruct (Z.odd c); [by apply lxor_range|done].
Qed.

Lemma Checksum_range s : (0 ≤ Checksum s < two32)%Z.
Proof.
  unfold Checksum. apply lxor_range; [|done].
  assert (H : ∀ c, (0 ≤ c < two32)%Z → (0 ≤ crc_update c s < two32)%Z); [|by apply H].
  induction s as [|b s IH]; intros c Hc; [done|]. cbn [crc_update]. apply IH, crc_bits_range, lxor_range; [done|].
  pose proof (byte_of_range b). unfold two32. lia.
Qed.

Lemma slen_srepeat c n : slen (srepeat c n) = n.
Proof. induction n as [|n IH]; [done|]. simpl. by rewrite IH. Qed.

Lemma padLen_spec n : (padLen n < 8)%nat ∧ ((n + padLen n) mod 8 = 0)%nat.
Proof.
  unfold padLen, frameAlignment. pose proof (Nat.mod_upper_bound n 8 ltac:(lia)).
  pose proof (Nat.div_mod n 8 ltac:(lia)) as Hn. destruct (Nat.eqb_spec (n mod 8) 0) as [E|E].
  - split; [lia|]. by rewrite Nat.add_0_r.
  - split; [lia|]. replace (n + (8 - n mod 8))%nat with ((n / 8 + 1) * 8)%nat by lia. apply Nat.Div0.mod_mul.
Qed.

Definition frameLen (payload : string) : nat :=
  (frameHeaderSize + slen payload + padLen (frameHeaderSize + slen payload))%nat.

Lemma encodeFrame_length payload : slen (encodeFrame payload) = frameLen payload.
Proof. unfold encodeFrame, zeros. rewrite !slen_app, slen_srepeat. unfold frameLen. cbn. lia. Qed.

Lemma stake_stake_app p z n : (slen p ≤ n)%nat → stake (slen p) (stake n (p +:+ z)) = p.
Proof.
  revert n; induction p as [|c p IH]; intros n Hn; [by destruct n|].
  destruct n as [|n]; [simpl in Hn; lia|]. cbn [String.append stake String.length].
  rewrite IH; [done|simpl in Hn; lia].
Qed.

(** The header and the payload at the front of any buffer that starts like a frame. *)
Lemma frame_fields payload rest :
  (Z.of_nat (slen payload) < two32)%Z →
  let buf := PutUint32 (wrap_u32 (Z.of_nat (slen payload))) +:+ PutUint32 (Checksum payload) +:+ rest in
  Uint32 buf = Z.of_nat (slen payload) ∧ Uint32 (sdrop 4 buf) = Checksum payload ∧ sdrop 8 buf = rest.
Proof.
  intros Hl buf. unfold buf. rewrite wrap_u32_id by lia. split; [apply Uint32_PutUint32; lia|].
  split; [apply (Uint32_PutUint32 (Checksum payload) rest), Checksum_range|]. cbn. by destruct rest.
Qed.

Lemma decode_encode payload rest :
  (Z.of_nat (slen payload) < two32)%Z →
  decodeFrame (encodeFrame payload +:+ rest) = Ok (payload, frameLen payload).
Proof.
  intros Hl. unfold decodeFrame, encodeFrame. cbn zeta. rewrite <- !sapp_assoc.
  destruct (frame_fields payload (payload +:+ zeros (padLen (frameHeaderSize + slen payload)) +:+ rest) Hl)
    as (H1 & H2 & H3).
  set (buf := PutUint32 _ +:+ _) in *. rewrite H1, H2.
  assert (Hlen : slen buf = (frameLen payload + slen rest)%nat).
  { unfold buf, zeros. rewrite !slen_app, slen_srepeat. unfold frameLen. cbn. lia. }
  replace (slen buf <? frameHeaderSize)%nat with false
    by (symmetry; apply Nat.ltb_ge; rewrite Hlen; unfold frameLen; lia).
  replace (Z.of_nat (slen buf - frameHeaderSize) <? Z.of_nat (slen payload))%Z with false
    by (symmetry; apply Z.ltb_ge; rewrite Hlen; unfold frameLen; lia).
  rewrite Nat2Z.id. unfold sslice. change (sdrop frameHeaderSize buf) with (sdrop 8 buf). rewrite H3.
  replace (frameHeaderSize + slen payload - frameHeaderSize)%nat with (slen payload) by lia.
  rewrite stake_app, Z.eqb_refl. cbn [negb]. fold (frameLen payload).
  replace (slen buf <? frameLen payload)%nat with false by (symmetry; apply Nat.ltb_ge; lia). done.
Qed.

(** A proper prefix of a frame is always too short: the length field rejects it before the CRC is
    computed. *)
Lemma decode_torn payload k :
  (Z.of_nat (slen payload) < two32)%Z → (k < frameLen payload)%nat →
  decodeFrame (stake k (encodeFrame payload)) = Err errShortFrame.
Proof.
  intros Hl Hk. unfold decodeFrame.
  assert (Hlen : slen (stake k (encodeFrame payload)) = k)
    by (rewrite slen_stake, encodeFrame_length; lia).
  rewrite Hlen. destruct (k <? frameHeaderSize)%nat eqn:E; [done|]. apply Nat.ltb_ge in E.
  unfold frameHeaderSize in E.
  set (rest := stake (k - 8) (payload +:+ zeros (padLen (frameHeaderSize + slen payload)))).
  assert (Hb : stake k (encodeFrame payload) =
     PutUint32 (wrap_u32 (Z.of_nat (slen payload))) +:+ PutUint32 (Checksum payload) +:+ rest).
  { unfold encodeFrame, rest. do 8 (destruct k as [|k]; [lia|]).
    replace (S (S (S (S (S (S (S (S k))))))) - 8)%nat with k by lia. reflexivity. }
  destruct (frame_fields payload rest Hl) as (H1 & H2 & H3). rewrite Hb, H1, H2.
  destruct (Z.of_nat (k - frameHeaderSize) <? Z.of_nat (slen payload))%Z eqn:E2; [done|].
  apply Z.ltb_ge in E2. rewrite Nat2Z.id. unfold sslice. change (sdrop frameHeaderSize) with (sdrop 8). rewrite H3.
  replace (frameHeaderSize + slen payload - frameHeaderSize)%nat with (slen payload) by lia.
  assert (Hr : stake (slen payload) rest = payload).
  { unfold rest. unfold frameHeaderSize in *. apply stake_stake_app. lia. }
  rewrite Hr, Z.eqb_refl. cbn [negb]. fold (frameLen payload).
  replace (k <? frameLen payload)%nat with true by (symmetry; apply Nat.ltb_lt; lia). done.
Qed.

(** ** The properties *)

(** frames round-trip. Decoding the frame of a payload (shorter than 4 GiB), whatever follows it,
    gives the payload back and consumes exactly the frame, whose length is a multiple of eight. *)
Theorem frame_roundtrip payload rest :
  (Z.of_nat (slen payload) < two32)%Z →
  decodeFrame (encodeFrame payload +:+ rest) = Ok (payload, slen (encodeFrame payload)) ∧
  (slen (encodeFrame payload) mod frameAlignment = 0)%nat.
Proof.
  intros H. rewrite encodeFrame_length. split; [by apply decode_encode|]. apply padLen_spec.
Qed.

Lemma frame_roundtrip_witness :
  decodeFrame (encodeFrame "abc" +:+ "tail") = Ok ("abc", slen (encodeFrame "abc")) ∧
  (slen (encodeFrame "abc") mod frameAlignment = 0)%nat.
Proof. apply frame_roundtrip. reflexivity. Defined.

(** torn frames. Any proper prefix of a frame (a write cut short anywhere: in the header, the
    payload or the padding) decodes to the short-frame error, never to a payload. *)
Theorem frame_torn payload k :
  (Z.of_nat (slen payload) < two32)%Z → (k < slen (encodeFrame payload))%nat →
  decodeFrame (stake k (encodeFrame payload)) = Err errShortFrame.
Proof. rewrite encodeFrame_length. apply decode_torn. Qed.

Lemma frame_torn_witness : decodeFrame (stake 11 (encodeFrame "abc")) = Err errShortFrame.
Proof. apply frame_torn; [reflexivity|]. vm_compute. lia. Defined.
