(* ===== verification/StateLog.v ===== *)
(** * state/event.go, state/log.go, state/fake.go: the append-only log

    An [Event] is one record; [FileLog] keeps the bytes of its file, the length that is fsynced and
    the two counters, [InMemoryLog] a list of events.  A write may fail after any number of bytes; a
    crash cuts the file at any length not below what is fsynced; [scanFile] is the recovery scan.

    [time.Time] is a parameter with its JSON text ([TimeCodec]; the text of a time reads back as the
    same instant).  Raw JSON ([Data]) is a tree: its white space and escapes are not kept apart. *)

From S2P Require Import Prelude GoNum GoJson GoStruct Sha256 StateFrame.

(** [time.Time], its zero value and its RFC 3339 text. *)
Class TimeCodec : Type := {
  time : Type;
  time_zero : time;
  MarshalTime : time → option string;
  UnmarshalTime : string → option time
}.

Class TimeLaws `{TimeCodec} : Prop := {
  time_roundtrip t s : MarshalTime t = Some s → UnmarshalTime s = Some t;
  time_text_valid t s : MarshalTime t = Some s → utf8_valid s = true
}.

Section log.
Context `{TimeCodec}.

Record Event : Type := MkEvent {
  Seq : Z;
  Epoch : Z;
  TS : time;
  Path : string;
  EvType : string;
  PayloadRef : string;
  Data : option json
}.

(** *** The wire format *)

Definition event_json (ts : string) (e : Event) : json :=
  obj [ field "seq" (JNum (Itoa (Seq e)));
        field "epoch" (JNum (Itoa (Epoch e)));
        field "ts" (JStr ts);
        field "path" (JStr (Path e));
        field "type" (JStr (EvType e));
        omit_str "payload_ref" (PayloadRef e);
        omit_opt "data" id (Data e) ].

(** [marshalEvent]: fails on a time outside RFC 3339 and on raw data that is not JSON. *)
Definition marshalEvent (e : Event) : option string :=
  ts ← MarshalTime (TS e);
  if match Data e with Some d => json_wf d | None => true end
  then Some (json_print (event_json ts e)) else None.

Definition as_time (j : json) (t : time) : option time :=
  match j with JStr s => UnmarshalTime s | JNull => Some t | _ => None end.

Definition event_names : list string := ["seq"; "epoch"; "ts"; "path"; "type"; "payload_ref"; "data"].

Definition event_of (ms : list (string * json)) : option Event :=
  let get k := values event_names k ms in
  sq ← decode_field (as_uint two64) 0%Z (get "seq");
  ep ← decode_field (as_uint two32) 0%Z (get "epoch");
  ts ← decode_field as_time time_zero (get "ts");
  pa ← decode_field as_string "" (get "path");
  ty ← decode_field as_string "" (get "type");
  pr ← decode_field as_string "" (get "payload_ref");
  d ← decode_field as_raw None (get "data");
  Some (MkEvent sq ep ts pa ty pr d).

Definition unmarshalEvent (b : string) : option Event := j ← json_parse b; decode_struct event_of j.

(** *** The scan *)

(** The loop of [scanFile] at offset [off], over the bytes not yet read. *)
Fixpoint scanLoop (fuel : nat) (buf : string) (off : nat) : list Event * nat :=
  match fuel with
  | O => ([], off)
  | S f =>
      match buf with
      | "" => ([], off)
      | _ =>
          match decodeFrame buf with
          | Err _ => ([], off)
          | Ok (payload, consumed) =>
              match unmarshalEvent payload with
              | None => ([], off)
              | Some e =>
                  let '(es, n) := scanLoop f (sdrop consumed buf) (off + consumed) in (e :: es, n)
              end
          end
      end
  end.

(** Events and the offset of the end of the last good record; every frame has a byte, so the
    length of the file is fuel enough. *)
Definition scanFile (buf : string) : list Event * nat := scanLoop (S (slen buf)) buf 0.

(** *** FileLog *)

Record FileLog : Type := MkLog {
  lgFile : string;   (* the bytes of the file *)
  lgSynced : nat;    (* the length that survives a crash *)
  lgSeq : Z;
  lgEpoch : Z
}.

Inductive logErr : Type :=
  | LeOpen | LeExist | LeScan | LeStat | LeTruncate | LeSeek | LeMarshal | LeWrite | LeSync.

(** [openLog] on an existing file; [fault] is the call that fails, if any.  The second component is
    the file afterwards.  The file read is taken to be on disk: the crashes of this model are those
    after which the file is what the disk kept, and the code does not sync a file it opens. *)
Definition openLog (fault : option logErr) (file : string) : res logErr FileLog * string :=
  let fails e := match fault with
                 | Some f => match f, e with
                             | LeOpen, LeOpen | LeScan, LeScan | LeStat, LeStat
                             | LeTruncate, LeTruncate | LeSeek, LeSeek => true
                             | _, _ => false
                             end
                 | None => false
                 end in
  if fails LeOpen then (Err LeOpen, file) else
  if fails LeScan then (Err LeScan, file) else
  let '(events, validBytes) := scanFile file in
  if fails LeStat then (Err LeStat, file) else
  let lg file' :=
    match last events with
    | Some e => MkLog file' (slen file') (Seq e) (wrap_u32 (Epoch e + 1))
    | None => MkLog file' (slen file') 0 0
    end in
  if (validBytes <? slen file)%nat then
    if fails LeTruncate then (Err LeTruncate, file) else
    let file' := stake validBytes file in
    if fails LeSeek then (Err LeSeek, file') else (Ok (lg file'), file')
  else (Ok (lg file), file).

(** An absent file is created empty. *)
Definition OpenLog (fault : option logErr) (file : option string) : res logErr FileLog * string :=
  openLog fault (default "" file).

Definition OpenLogExisting (fault : option logErr) (file : option string) : res logErr FileLog :=
  match file with
  | None => Err LeOpen
  | Some file => (openLog fault file).1
  end.

(** [O_EXCL]: never on an existing file. *)
Definition OpenLogExclusive (file : option string) : res logErr FileLog :=
  match file with
  | Some _ => Err LeExist
  | None => Ok (MkLog "" 0 0 0)
  end.

Definition assign (e : Event) (seq epoch : Z) (now : time) : Event :=
  MkEvent seq epoch now (Path e) (EvType e) (PayloadRef e) (Data e).

(** [Append] at clock time [now]; [w] is the outcome of the write: [None], or failure after some
    bytes.  Returns the error, if any, and the log. *)
Definition Append (e : Event) (now : time) (w : option nat) (lg : FileLog) : option logErr * FileLog :=
  let seq := wrap_u64 (lgSeq lg + 1) in
  let e := assign e seq (lgEpoch lg) now in
  match marshalEvent e with
  | None => (Some LeMarshal, MkLog (lgFile lg) (lgSynced lg) (wrap_u64 (seq - 1)) (lgEpoch lg))
  | Some payload =>
      let frame := encodeFrame payload in
      match w with
      | Some n => (Some LeWrite, MkLog (lgFile lg +:+ stake n frame) (lgSynced lg) (wrap_u64 (seq - 1)) (lgEpoch lg))
      | None => (None, MkLog (lgFile lg +:+ frame) (lgSynced lg) seq (lgEpoch lg))
      end
  end.

Definition Sync (ok : bool) (lg : FileLog) : option logErr * FileLog :=
  if ok then (None, MkLog (lgFile lg) (slen (lgFile lg)) (lgSeq lg) (lgEpoch lg))
  else (Some LeSync, lg).

(** [Fold] re-reads the file; [FoldFile] is the same scan of a file another handle writes. *)
Definition Fold (lg : FileLog) : list Event := (scanFile (lgFile lg)).1.

Definition FoldFile (file : option string) : res logErr (list Event) :=
  match file with None => Err LeOpen | Some file => Ok (scanFile file).1 end.

Definition Close (ok : bool) (lg : FileLog) : option logErr * FileLog := Sync ok lg.

(** The files a crash can leave: cut anywhere at or after the synced length. *)
Definition crashed (lg : FileLog) (file : string) : Prop :=
  ∃ k, (lgSynced lg ≤ k)%nat ∧ file = stake k (lgFile lg).

(** *** InMemoryLog *)

Record InMemoryLog : Type := MkMem {
  mlEvents : list Event;
  mlSeq : Z;
  mlEpoch : Z;
  appendCalls : nat;
  failAppendAt : option nat
}.

Definition NewInMemoryLog : InMemoryLog := MkMem [] 0 0 0 None.

Definition memAppend (e : Event) (now : time) (l : InMemoryLog) : bool * InMemoryLog :=
  if bool_decide (failAppendAt l = Some (appendCalls l)) then
    (false, MkMem (mlEvents l) (mlSeq l) (mlEpoch l) (S (appendCalls l)) (failAppendAt l))
  else
    let seq := wrap_u64 (mlSeq l + 1) in
    (true, MkMem (mlEvents l ++ [assign e seq (mlEpoch l) now]) seq (mlEpoch l)
                 (S (appendCalls l)) (failAppendAt l)).

Definition FailAppendAfterN (n : nat) (l : InMemoryLog) : InMemoryLog :=
  MkMem (mlEvents l) (mlSeq l) (mlEpoch l) (appendCalls l) (Some n).
Definition ClearFault (l : InMemoryLog) : InMemoryLog :=
  MkMem (mlEvents l) (mlSeq l) (mlEpoch l) (appendCalls l) None.

Definition Reopen (l : InMemoryLog) : InMemoryLog :=
  match last (mlEvents l) with
  | None => l
  | Some e => MkMem (mlEvents l) (mlSeq l) (wrap_u32 (Epoch e + 1)) (appendCalls l) (failAppendAt l)
  end.

Definition memFold (l : InMemoryLog) : list Event := mlEvents l.
End log.

(** ** The event codec *)

Section codec.
Context `{TimeLaws}.

Definition event_wf (e : Event) : bool :=
  (0 <=? Seq e)%Z && (Seq e <? two64)%Z && (0 <=? Epoch e)%Z && (Epoch e <? two32)%Z &&
  utf8_valid (Path e) && utf8_valid (EvType e) && utf8_valid (PayloadRef e).

Lemma event_json_wf ts e :
  event_wf e = true → utf8_valid ts = true →
  match Data e with Some d => json_wf d | None => true end = true →
  json_wf (event_json ts e) = true.
Proof.
  unfold event_wf. rewrite !andb_true_iff. intros [[[[[[H1 H2] H3] H4] H5] H6] H7] Ht Hd.
  pose proof (json_wf_Itoa (Seq e)) as W1. pose proof (json_wf_Itoa (Epoch e)) as W2.
  unfold event_json, obj, omit_str, omit_if, omit_opt, field.
  destruct (String.eqb (PayloadRef e) ""), (Data e) as [d|];
    cbn [omap list_omap id fmap option_fmap option_map]; cbn [json_wf forallb fst snd] in *;
    rewrite ?W1, ?W2, ?Ht, ?H5, ?H6, ?H7, ?Hd; done.
Qed.

Lemma unmarshal_marshal e p :
  event_wf e = true → marshalEvent e = Some p → unmarshalEvent p = Some e.
Proof.
  intros Hw Hm. unfold marshalEvent in Hm. destruct (MarshalTime (TS e)) as [ts|] eqn:Ht; [|done].
  destruct (match Data e with Some d => json_wf d | None => true end) eqn:Hd; [|done].
  cbn [mbind option_bind] in Hm. apply (inj Some) in Hm as <-. unfold unmarshalEvent.
  rewrite json_parse_print by (apply event_json_wf; [done|by eapply time_text_valid|done]).
  apply time_roundtrip in Ht. unfold event_wf in Hw. rewrite !andb_true_iff in Hw.
  destruct Hw as [[[[[[H1 H2] H3] H4] _] _] _]. apply Z.leb_le in H1, H3.
  unfold event_json, obj, omit_str, omit_if, omit_opt, field. destruct e as [sq ep t pa ty pr d].
  cbn [Seq Epoch TS Path EvType PayloadRef Data] in *.
  assert (Hsq := parse_digits_Itoa sq H1). assert (Hep := parse_digits_Itoa ep H3).
  destruct (String.eqb_spec pr "") as [->|_], d as [d|]; cbn; rewrite Hsq, H2; cbn; rewrite Hep, H4; cbn; rewrite Ht; done.
Qed.
End codec.

(** ** Files that are sequences of frames *)

Section frames.
Context `{TimeLaws}.

(** [p] is a payload that reads back as [e] and fits a frame. *)
Definition stored (e : Event) (p : string) : Prop :=
  (Z.of_nat (slen p) < two32)%Z ∧ unmarshalEvent p = Some e.

Fixpoint frames (ps : list string) : string :=
  match ps with [] => "" | p :: ps => encodeFrame p +:+ frames ps end.

Lemma frames_app ps qs : frames (ps ++ qs) = frames ps +:+ frames qs.
Proof. induction ps as [|p ps IH]; [done|]. cbn [app frames]. by rewrite IH, sapp_assoc. Qed.

Lemma encodeFrame_cons p s : ∃ c r, encodeFrame p +:+ s = String c r.
Proof. unfold encodeFrame, PutUint32. cbn. eauto. Qed.

Lemma scanLoop_frames ps es : ∀ fuel tail off,
  Forall2 stored es ps → (slen (frames ps +:+ tail) < fuel)%nat →
  scanLoop fuel (frames ps +:+ tail) off =
  let '(es', n) := scanLoop (fuel - length ps) tail (off + slen (frames ps)) in (es ++ es', n).
Proof.
  intros fuel tail off Hs. revert fuel off. induction Hs as [|e p es ps [Hl Hu] _ IH]; intros fuel off Hf.
  - cbn [frames app length String.append]. rewrite Nat.sub_0_r, Nat.add_0_r. by destruct (scanLoop _ _ _).
  - destruct fuel as [|fuel]; [lia|]. cbn [frames length]. cbn [frames] in Hf.
    rewrite <- sapp_assoc in *. destruct (encodeFrame_cons p (frames ps +:+ tail)) as (c & r & Ec).
    cbn [scanLoop]. rewrite Ec. rewrite <- Ec, decode_encode by done. rewrite Hu.
    rewrite <- encodeFrame_length, sdrop_app, IH.
    + rewrite slen_app, Nat.add_assoc. by destruct (scanLoop _ tail _).
    + rewrite slen_app, encodeFrame_length in Hf. unfold frameLen, frameHeaderSize in Hf. lia.
Qed.

(** A tail the scan stops at: nothing, or a torn frame. *)
Definition torn (tail : string) : Prop :=
  tail = "" ∨ ∃ p k, (Z.of_nat (slen p) < two32)%Z ∧ (k < frameLen p)%nat ∧ tail = stake k (encodeFrame p).

Lemma scanLoop_torn fuel tail off : torn tail → scanLoop fuel tail off = ([], off).
Proof.
  intros [->|(p & k & Hl & Hk & ->)]; [by destruct fuel|]. destruct fuel as [|f]; [done|].
  cbn [scanLoop]. destruct (stake k (encodeFrame p)) eqn:E; [done|]. by rewrite <- E, decode_torn.
Qed.

Lemma scanFile_frames es ps tail :
  Forall2 stored es ps → torn tail → scanFile (frames ps +:+ tail) = (es, slen (frames ps)).
Proof.
  intros Hs Ht. unfold scanFile. rewrite (scanLoop_frames ps es) by (done || lia).
  rewrite scanLoop_torn by done. by rewrite app_nil_r.
Qed.

Lemma scanFile_clean es ps : Forall2 stored es ps → scanFile (frames ps) = (es, slen (frames ps)).
Proof. intros Hs. rewrite <- (sapp_nil_r (frames ps)) at 1. apply scanFile_frames; [done|by left]. Qed.

(** A prefix of a sequence of frames is a sequence of frames and a torn tail. *)
Lemma frames_prefix es ps k :
  Forall2 stored es ps →
  ∃ n tail, stake k (frames ps) = frames (take n ps) +:+ tail ∧ torn tail ∧
            (∀ m, (slen (frames (take m ps)) ≤ k)%nat → (m ≤ length ps)%nat → (m ≤ n)%nat).
Proof.
  intros Hs. revert k. induction Hs as [|e p es ps [Hl Hu] _ IH]; intros k.
  - exists 0%nat, "". split; [by destruct k|]. split; [by left|]. simpl. lia.
  - destruct (decide (k < frameLen p)%nat) as [Hk|Hk].
    + exists 0%nat, (stake k (encodeFrame p)). cbn [frames take String.append]. split.
      { apply stake_app_le. rewrite encodeFrame_length. lia. }
      split; [right; by exists p, k|]. intros [|m]; [lia|]. cbn [take frames].
      rewrite slen_app, encodeFrame_length. lia.
    + destruct (IH (k - frameLen p)%nat) as (n & tail & He & Ht & Hm).
      exists (S n), tail. cbn [frames take]. split.
      { rewrite <- sapp_assoc, <- He. rewrite <- encodeFrame_length in *.
        clear -Hk. revert k Hk. induction (encodeFrame p) as [|c s IHs]; intros k Hk.
        - cbn. by rewrite Nat.sub_0_r.
        - destruct k as [|k]; [cbn in Hk; lia|]. cbn. rewrite IHs; [done|cbn in Hk; lia]. }
      split; [done|]. intros [|m] Hk' Hlen; [lia|]. cbn [take frames length] in *.
      rewrite slen_app, encodeFrame_length in Hk'. specialize (Hm m). lia.
Qed.

(** *** The log and the events it holds *)

(** [lg] holds exactly [es], numbered from 1 without gaps, each epoch at most the current one; the
    first [n] of them are fsynced. *)
Record log_holds (lg : FileLog) (es : list Event) (n : nat) : Prop := {
  lh_file : ∃ ps, Forall2 stored es ps ∧ lgFile lg = frames ps ∧ lgSynced lg = slen (frames (take n ps));
  lh_synced : (n ≤ length es)%nat;
  lh_numbered : Seq <$> es = Z.of_nat <$> seq 1 (length es);
  lh_seq : lgSeq lg = Z.of_nat (length es);
  lh_epoch : Forall (λ e, (0 ≤ Epoch e ≤ lgEpoch lg)%Z) es;
  lh_sorted : ∀ i j a b, (i ≤ j)%nat → es !! i = Some a → es !! j = Some b → (Epoch a ≤ Epoch b)%Z;
  lh_epoch_range : (0 ≤ lgEpoch lg < two32)%Z
}.

Lemma Fold_holds lg es n : log_holds lg es n → Fold lg = es.
Proof. intros [(ps & Hs & Hf & _) _ _ _ _ _ _]. unfold Fold. by rewrite Hf, (scanFile_clean es). Qed.

Definition fields_valid (e : Event) : bool :=
  utf8_valid (Path e) && utf8_valid (EvType e) && utf8_valid (PayloadRef e).

(** The payload [Append] would frame. *)
Definition next_payload (lg : FileLog) (e : Event) (now : time) : option string :=
  marshalEvent (assign e (wrap_u64 (lgSeq lg + 1)) (lgEpoch lg) now).

Lemma Append_holds lg es n e now lg' p :
  log_holds lg es n → fields_valid e = true → (Z.of_nat (length es) < two64 - 1)%Z →
  next_payload lg e now = Some p → (Z.of_nat (slen p) < two32)%Z →
  Append e now None lg = (None, lg') →
  log_holds lg' (es ++ [assign e (Z.of_nat (S (length es))) (lgEpoch lg) now]) n ∧ lgEpoch lg' = lgEpoch lg.
Proof.
  intros [(ps & Hs & Hf & Hsy) Hn Hnum Hq He Hso Hr] Hv Hlt Hp Hl Ha.
  pose proof (Forall2_length _ _ _ Hs) as Hlen.
  unfold next_payload in Hp. unfold Append in Ha. rewrite Hp in Ha.
  assert (Eq : wrap_u64 (lgSeq lg + 1) = Z.of_nat (S (length es))).
  { rewrite Hq, wrap_u64_id; unfold two64 in *; lia. }
  rewrite Eq in *. injection Ha as <-. split; [|done].
  set (e' := assign e (Z.of_nat (S (length es))) (lgEpoch lg) now) in *.
  assert (Hw : event_wf e' = true).
  { unfold event_wf, fields_valid in *. cbn. rewrite !andb_true_iff in *.
    repeat split; try apply Hv; try apply Z.leb_le; try apply Z.ltb_lt; unfold two64, two32 in *; lia. }
  split; cbn [lgFile lgSynced lgSeq lgEpoch].
  - exists (ps ++ [p]). split; [|split].
    + apply Forall2_app; [done|]. constructor; [|done]. split; [done|]. by apply unmarshal_marshal.
    + rewrite Hf, frames_app. cbn [frames]. by rewrite sapp_nil_r.
    + by rewrite take_app_le by lia.
  - rewrite length_app. lia.
  - rewrite fmap_app, Hnum, length_app, (Nat.add_comm _ 1), Nat.add_comm. cbn [length].
    by rewrite seq_app, fmap_app.
  - rewrite length_app. cbn. lia.
  - apply Forall_app. split; [done|]. constructor; [|done]. cbn. lia.
  - intros i j a b Hij Ha Hb. apply lookup_snoc_Some in Ha as [[Hi Ha]|[Hi <-]], Hb as [[Hj Hb]|[Hj <-]].
    + by apply (Hso i j).
    + rewrite Forall_forall in He. apply list_elem_of_lookup_2, He in Ha. cbn. lia.
    + lia.
    + done.
  - done.
Qed.

Lemma last_numbered es e : Seq <$> es = Z.of_nat <$> seq 1 (length es) → last es = Some e → Seq e = Z.of_nat (length es).
Proof.
  intros Hn (es' & ->)%last_Some. rewrite fmap_app, length_app, Nat.add_comm in Hn.
  change (1 + length es')%nat with (S (length es')) in Hn. rewrite seq_S, fmap_app in Hn.
  apply app_inj_2 in Hn as [_ Hn]; [|done]. injection Hn as ->. rewrite length_app. cbn. lia.
Qed.

Lemma take_numbered n es : Seq <$> es = Z.of_nat <$> seq 1 (length es) →
  Seq <$> take n es = Z.of_nat <$> seq 1 (length (take n es)).
Proof. intros Hn. rewrite fmap_take, Hn, <- fmap_take, take_seq, length_take. by rewrite Nat.min_comm, (Nat.min_comm (length es)). Qed.

Lemma Sync_holds lg es n lg' :
  log_holds lg es n → Sync true lg = (None, lg') → log_holds lg' es (length es) ∧ lgEpoch lg' = lgEpoch lg.
Proof.
  intros [(ps & Hs & Hf & _) _ Hnum Hq He Hso Hr] [= <-]. split; [|done]. split; try done.
  exists ps. split; [done|]. split; [done|]. cbn. rewrite Hf.
  by rewrite take_ge by (by rewrite (Forall2_length _ _ _ Hs)).
Qed.

(** Opening a file that holds frames and a torn tail. *)
Lemma openLog_frames es ps tail :
  Forall2 stored es ps → torn tail →
  let lg := match last es with
            | Some e => MkLog (frames ps) (slen (frames ps)) (Seq e) (wrap_u32 (Epoch e + 1))
            | None => MkLog (frames ps) (slen (frames ps)) 0 0
            end in
  openLog None (frames ps +:+ tail) = (Ok lg, frames ps).
Proof.
  intros Hs Ht lg. unfold openLog. rewrite (scanFile_frames es ps tail Hs Ht).
  destruct (Nat.ltb_spec (slen (frames ps)) (slen (frames ps +:+ tail))) as [Hlt|Hge].
  - rewrite stake_app. unfold lg. by destruct (last es).
  - rewrite slen_app in Hge. destruct tail as [|c t]; [|cbn in Hge; lia].
    rewrite sapp_nil_r. unfold lg. by destruct (last es).
Qed.

(** Opening after a crash: a prefix of the events survives, every synced event among them, and the
    log continues after the last survivor in a new epoch. *)
Lemma openLog_crashed lg es n file :
  log_holds lg es n → (lgEpoch lg + 1 < two32)%Z → crashed lg file →
  ∃ m lg', (n ≤ m)%nat ∧ openLog None file = (Ok lg', lgFile lg') ∧
    log_holds lg' (take m es) (length (take m es)) ∧
    lgEpoch lg' = match last (take m es) with Some e => (Epoch e + 1)%Z | None => 0%Z end.
Proof.
  intros [(ps & Hs & Hf & Hsy) Hn Hnum Hq He Hso Hr] Hep (k & Hk & ->). rewrite Hf.
  pose proof (Forall2_length _ _ _ Hs) as Hlen.
  destruct (frames_prefix es ps k Hs) as (m & tail & -> & Ht & Hm).
  assert (Hs' : Forall2 stored (take m es) (take m ps)) by (by apply Forall2_take).
  pose proof (openLog_frames (take m es) (take m ps) tail Hs' Ht) as Ho.
  set (lg' := match last (take m es) with Some _ => _ | None => _ end) in Ho.
  exists m, lg'. split; [apply Hm; rewrite <- ?Hsy; lia|].
  split; [rewrite Ho; unfold lg'; by destruct (last (take m es))|]. unfold lg'. clear Ho lg'.
  assert (Hnum' := take_numbered m es Hnum).
  assert (He' : Forall (λ e, (0 ≤ Epoch e ≤ lgEpoch lg)%Z) (take m es)) by (by apply Forall_take).
  assert (Hso' : ∀ i j a b, (i ≤ j)%nat → take m es !! i = Some a → take m es !! j = Some b → (Epoch a ≤ Epoch b)%Z).
  { intros i j a b Hij [Ha _]%lookup_take_Some [Hb _]%lookup_take_Some. by apply (Hso i j). }
  assert (Hf' : slen (frames (take m ps)) = slen (frames (take (length (take m es)) (take m ps)))).
  { rewrite (take_ge (take m ps)); [done|]. by rewrite (Forall2_length _ _ _ Hs'). }
  destruct (last (take m es)) as [e|] eqn:El; cbn [lgFile lgSynced lgSeq lgEpoch].
  - apply last_numbered in El as Hse; [|done]. rewrite last_lookup in El.
    assert (Hee : ∀ a, a ∈ take m es → (0 ≤ Epoch a ≤ Epoch e)%Z).
    { intros a Ha. split; [rewrite Forall_forall in He'; by apply He'|].
      apply list_elem_of_lookup in Ha as [i Hi]. apply (Hso' i _ a e) in El; [done| |done].
      apply lookup_lt_Some in Hi. lia. }
    assert (He0 : (0 ≤ Epoch e ≤ lgEpoch lg)%Z) by (rewrite Forall_forall in He'; by eapply He', list_elem_of_lookup_2).
    rewrite wrap_u32_id by (unfold two32 in *; lia). split; [|done].
    split; cbn [lgFile lgSynced lgSeq lgEpoch]; try done; [by exists (take m ps)| |lia].
    rewrite Forall_forall. intros a Ha. specialize (Hee a Ha). lia.
  - apply last_None in El. rewrite El in *. split; [|done].
    split; cbn [lgFile lgSynced lgSeq lgEpoch]; try done. by exists (take m ps).
Qed.

Lemma openLog_clean lg es n :
  log_holds lg es n → (lgEpoch lg + 1 < two32)%Z →
  ∃ lg', openLog None (lgFile lg) = (Ok lg', lgFile lg') ∧ log_holds lg' es (length es) ∧
    lgEpoch lg' = match last es with Some e => (Epoch e + 1)%Z | None => 0%Z end.
Proof.
  intros Hh Hep. destruct (Sync_holds lg es n _ Hh eq_refl) as [Hs Es].
  destruct (openLog_crashed _ es (length es) (lgFile lg) Hs) as (m & lg' & Hm & Ho & Hh' & He); [done| |].
  { exists (slen (lgFile lg)). cbn. split; [done|]. by rewrite stake_all. }
  rewrite take_ge in * by done. by exists lg'.
Qed.

(** *** The two logs side by side *)

Inductive logOp : Type := OpAppend (e : Event) (now : time) | OpReopen.

(** A run on the file log in which every call succeeds and every payload fits a frame. *)
Fixpoint runFile (ops : list logOp) (lg : FileLog) : option FileLog :=
  match ops with
  | [] => Some lg
  | OpAppend e now :: ops =>
      match next_payload lg e now with
      | Some p =>
          if (Z.of_nat (slen p) <? two32)%Z && fields_valid e then runFile ops (Append e now None lg).2 else None
      | None => None
      end
  | OpReopen :: ops =>
      match OpenLog None (Some (lgFile lg)) with (Ok lg', _) => runFile ops lg' | _ => None end
  end.

Fixpoint runMem (ops : list logOp) (l : InMemoryLog) : InMemoryLog :=
  match ops with
  | [] => l
  | OpAppend e now :: ops => runMem ops (memAppend e now l).2
  | OpReopen :: ops => runMem ops (Reopen l)
  end.

Definition same_log (lg : FileLog) (l : InMemoryLog) (k : Z) : Prop :=
  (∃ n, log_holds lg (mlEvents l) n) ∧ mlSeq l = lgSeq lg ∧ mlEpoch l = lgEpoch lg ∧
  failAppendAt l = None ∧ (mlEvents l = [] → mlEpoch l = 0%Z) ∧
  (Z.of_nat (length (mlEvents l)) ≤ k)%Z ∧ (mlEpoch l ≤ k)%Z.

Lemma same_log_append lg l k e now p :
  same_log lg l k → (k + 1 < two32)%Z → next_payload lg e now = Some p →
  (Z.of_nat (slen p) < two32)%Z → fields_valid e = true →
  same_log (Append e now None lg).2 (memAppend e now l).2 (k + 1).
Proof.
  intros ([n Hh] & Hq & He & Hf & Hz & Hlen & Hep) Hk Hp Hl Hv.
  assert (Ha : Append e now None lg = (None, (Append e now None lg).2)).
  { unfold Append. unfold next_payload in Hp. by rewrite Hp. }
  destruct (Append_holds lg _ n e now _ p Hh Hv ltac:(unfold two64, two32 in *; lia) Hp Hl Ha) as [Hh' He'].
  unfold memAppend. rewrite Hf. rewrite bool_decide_eq_false_2 by done. unfold same_log. cbn.
  assert (Eq : wrap_u64 (mlSeq l + 1) = Z.of_nat (S (length (mlEvents l)))).
  { rewrite Hq, (lh_seq _ _ _ Hh), wrap_u64_id; unfold two64, two32 in *; lia. }
  rewrite Eq, He. split; [by eexists|]. split.
  { rewrite (lh_seq _ _ _ Hh'), length_app. cbn. lia. }
  split; [done|]. split; [done|]. rewrite length_app. cbn. split; [by destruct (mlEvents l)|]. lia.
Qed.

Lemma same_log_reopen lg l k :
  same_log lg l k → (k + 1 < two32)%Z →
  ∃ lg', OpenLog None (Some (lgFile lg)) = (Ok lg', lgFile lg') ∧ same_log lg' (Reopen l) (k + 1).
Proof.
  intros ([n Hh] & Hq & He & Hf & Hz & Hlen & Hep) Hk.
  destruct (openLog_clean lg _ n Hh) as (lg' & Ho & Hh' & He'); [lia|].
  exists lg'. split; [done|]. unfold Reopen, same_log. rewrite He'.
  destruct (last (mlEvents l)) as [e|] eqn:El; cbn.
  - assert (Hee : (0 ≤ Epoch e ≤ mlEpoch l)%Z).
    { rewrite He. pose proof (lh_epoch _ _ _ Hh) as Hfe. rewrite Forall_forall in Hfe.
      rewrite last_lookup in El. by eapply Hfe, list_elem_of_lookup_2. }
    rewrite wrap_u32_id by (unfold two32 in *; lia).
    split; [by eexists|]. rewrite (lh_seq _ _ _ Hh'), Hq, (lh_seq _ _ _ Hh).
    repeat split; try done; try lia. intros E. by rewrite E in El.
  - apply last_None in El. split; [by eexists|]. rewrite (lh_seq _ _ _ Hh'), Hq, (lh_seq _ _ _ Hh).
    rewrite El in *. specialize (Hz eq_refl). repeat split; try done; lia.
Qed.

Lemma runs_agree ops : ∀ lg l k lg',
  same_log lg l k → (k + Z.of_nat (length ops) < two32)%Z → runFile ops lg = Some lg' →
  same_log lg' (runMem ops l) (k + Z.of_nat (length ops)).
Proof.
  induction ops as [|[e now|] ops IH]; intros lg l k lg' Hs Hk Hr; cbn [runFile runMem length] in *.
  - injection Hr as <-. by rewrite Z.add_0_r.
  - destruct (next_payload lg e now) as [p|] eqn:Hp; [|done].
    destruct ((Z.of_nat (slen p) <? two32)%Z && fields_valid e) eqn:E; [|done].
    apply andb_true_iff in E as [E1%Z.ltb_lt E2].
    replace (k + Z.of_nat (S (length ops)))%Z with ((k + 1) + Z.of_nat (length ops))%Z by lia.
    eapply IH; [|lia|exact Hr]. apply (same_log_append _ _ _ _ _ p); [done|lia|done..].
  - destruct (same_log_reopen lg l k Hs) as (lg1 & Ho & Hs'); [lia|]. rewrite Ho in Hr.
    replace (k + Z.of_nat (S (length ops)))%Z with ((k + 1) + Z.of_nat (length ops))%Z by lia.
    by apply (IH lg1); [|lia|].
Qed.
End frames.

(** ** A concrete clock, for examples *)

Definition two_times : TimeCodec := {|
  time := bool;
  time_zero := false;
  MarshalTime b := Some (if b : bool then "2026-01-02T03:04:05Z" else "0001-01-01T00:00:00Z");
  UnmarshalTime s := Some (String.eqb s "2026-01-02T03:04:05Z")
|}.

#[local] Existing Instance two_times.

#[local] Instance two_times_laws : TimeLaws.
Proof. split; intros [] s [= <-]; reflexivity. Qed.

Definition ex_event (ty : string) : Event := MkEvent 0 0 false "wf/a" ty "" (Some (JObj [("n", JNum "1")])).
Definition fresh : FileLog := MkLog "" 0 0 0.
Definition log1 : FileLog := (Sync true (Append (ex_event "a") true None fresh).2).2.
Definition log2 : FileLog := (Append (ex_event "b") true None log1).2.
Definition ev (seq : Z) (ty : string) : Event := assign (ex_event ty) seq 0 true.

Lemma log2_holds : log_holds log2 [ev 1 "a"; ev 2 "b"] 1.
Proof.
  assert (H0 : log_holds fresh [] 0).
  { split; cbn; try done; by exists []. }
  destruct (Append_holds fresh [] 0 (ex_event "a") true (Append (ex_event "a") true None fresh).2
              (default "" (next_payload fresh (ex_event "a") true)) H0) as [H1 _]; [by vm_compute..|].
  destruct (Sync_holds _ _ _ log1 H1) as [H2 _]; [by vm_compute|].
  destruct (Append_holds log1 _ _ (ex_event "b") true log2
              (default "" (next_payload log1 (ex_event "b") true)) H2) as [H3 _]; [by vm_compute..|]. exact H3.
Qed.

(** ** The properties *)

(** C34: the event codec round-trips. Reading back the JSON of an event whose counters are in range and
    whose strings are valid UTF-8 gives the event. *)
Theorem event_roundtrip `{TimeLaws} e p :
  event_wf e = true → marshalEvent e = Some p → unmarshalEvent p = Some e.
Proof. apply unmarshal_marshal. Qed.

Lemma event_roundtrip_witness :
  unmarshalEvent (json_print (event_json "2026-01-02T03:04:05Z" (ev 7 "a"))) = Some (ev 7 "a").
Proof. apply event_roundtrip; reflexivity. Defined.

(** append, then fold. On a log that holds [es], an [Append] whose write succeeds makes [Fold]
    return [es] and the event, which carries the next sequence number, the log's epoch and the clock's
    time; the log still holds exactly that. *)
Theorem Append_Fold `{TimeLaws} lg es n e now lg' p :
  log_holds lg es n → fields_valid e = true → (Z.of_nat (length es) < two64 - 1)%Z →
  next_payload lg e now = Some p → (Z.of_nat (slen p) < two32)%Z →
  Append e now None lg = (None, lg') →
  Fold lg' = es ++ [assign e (Z.of_nat (S (length es))) (lgEpoch lg) now] ∧ log_holds lg' (Fold lg') n.
Proof.
  intros Hh Hv Hlt Hp Hl Ha. destruct (Append_holds lg es n e now lg' p Hh Hv Hlt Hp Hl Ha) as [H' _].
  rewrite (Fold_holds _ _ _ H'). done.
Qed.

Lemma Append_Fold_witness :
  Fold (Append (ex_event "c") true None log2).2 = [ev 1 "a"; ev 2 "b"; ev 3 "c"] ∧
  log_holds (Append (ex_event "c") true None log2).2 (Fold (Append (ex_event "c") true None log2).2) 1.
Proof.
  apply (Append_Fold log2 [ev 1 "a"; ev 2 "b"] 1 (ex_event "c") true _
           (default "" (next_payload log2 (ex_event "c") true)) log2_holds); by vm_compute.
Defined.

(** C6: recovery. Whatever prefix of the file a crash leaves (at least what is fsynced), opening it
    succeeds, and recovers a prefix of the events that contains every fsynced one: the torn record is
    cut off, the numbering goes on without a gap, and a new epoch begins. *)
Theorem openLog_recovers `{TimeLaws} lg es n file :
  log_holds lg es n → (lgEpoch lg + 1 < two32)%Z → crashed lg file →
  ∃ m lg', (n ≤ m)%nat ∧ openLog None file = (Ok lg', lgFile lg') ∧
    Fold lg' = take m es ∧ log_holds lg' (take m es) (length (take m es)) ∧
    lgEpoch lg' = match last (take m es) with Some e => (Epoch e + 1)%Z | None => 0%Z end.
Proof.
  intros Hh He Hc. destruct (openLog_crashed lg es n file Hh He Hc) as (m & lg' & H1 & H2 & H3 & H4).
  exists m, lg'. by rewrite (Fold_holds _ _ _ H3).
Qed.

Lemma openLog_recovers_witness :
  ∃ m lg', (1 ≤ m)%nat ∧ openLog None (stake 200 (lgFile log2)) = (Ok lg', lgFile lg') ∧
    Fold lg' = take m [ev 1 "a"; ev 2 "b"] ∧
    log_holds lg' (take m [ev 1 "a"; ev 2 "b"]) (length (take m [ev 1 "a"; ev 2 "b"])) ∧
    lgEpoch lg' = match last (take m [ev 1 "a"; ev 2 "b"]) with Some e => (Epoch e + 1)%Z | None => 0%Z end.
Proof.
  apply (openLog_recovers log2 _ 1 _ log2_holds); [by vm_compute|].
  exists 200%nat. split; [|reflexivity]. apply Nat.leb_le. vm_compute. reflexivity.
Defined.

(** C12: the file log refines the in-memory log. Any sequence of appends and reopens that succeeds on a
    fresh file log leaves the two logs with the same events, sequence number and epoch. *)
Theorem FileLog_refines `{TimeLaws} ops lg :
  (Z.of_nat (length ops) < two32)%Z → runFile ops (MkLog "" 0 0 0) = Some lg →
  let l := runMem ops NewInMemoryLog in
  Fold lg = memFold l ∧ lgSeq lg = mlSeq l ∧ lgEpoch lg = mlEpoch l.
Proof.
  intros Hk Hr l. assert (Hs : same_log (MkLog "" 0 0 0) NewInMemoryLog 0).
  { split; [|done]. exists 0%nat. split; cbn; try done; by exists []. }
  destruct (runs_agree ops _ _ 0 lg Hs Hk Hr) as ([n Hh] & Hq & He & _).
  rewrite (Fold_holds _ _ _ Hh). done.
Qed.

Lemma FileLog_refines_witness :
  let ops := [OpAppend (ex_event "a") true; OpReopen; OpAppend (ex_event "b") true] in
  let l := runMem ops NewInMemoryLog in
  Fold (default fresh (runFile ops fresh)) = memFold l ∧
  lgSeq (default fresh (runFile ops fresh)) = mlSeq l ∧ lgEpoch (default fresh (runFile ops fresh)) = mlEpoch l.
Proof. apply FileLog_refines; vm_compute; reflexivity. Defined.

(** A write that fails half way leaves its bytes in the file: the next [Append] succeeds, reuses the
    sequence number and lands behind the torn record, where [Fold] never sees it and the next
    [openLog] cuts it off. *)
Theorem Append_after_short_write :
  let '(err1, lg1) := Append (ex_event "b") true (Some 9%nat) log1 in
  let '(err2, lg2) := Append (ex_event "b") true None lg1 in
  err1 = Some LeWrite ∧ err2 = None ∧ Fold lg2 = [ev 1 "a"] ∧
  (openLog None (lgFile lg2)).2 = lgFile log1.
Proof. vm_compute. repeat split. Qed.
