(* ===== verification/EnginePath.v ===== *)
(** * engine/path.go, ir/path.go: node addresses

    The journal key of a node is a string built by joining segments with dots.  The address functions
    are those of the code; the lemmas say that a path determines how it was built: its parent is
    recovered by cutting the last segment, and no two runtime suffixes collide. *)

From S2P Require Import Prelude GoNum.

Definition iterSep : string := ".iter-".
Definition attemptSep : string := ".attempt-".
Definition itemSep : string := ".item-".
Definition roundSep : string := ".round-".
Definition CallWorkflowSegment : string := "workflow".

Definition IterPath (bodyPath : string) (iter : Z) : string := bodyPath +:+ iterSep +:+ Itoa iter.
Definition AttemptPath (gatePath : string) (attempt : Z) : string := gatePath +:+ attemptSep +:+ Itoa attempt.
Definition ItemPath (mapPath : string) (item : Z) : string := mapPath +:+ itemSep +:+ Itoa item.

Definition ItemStepPath (mapPath : string) (item : Z) (suffix : string) : string :=
  let p := ItemPath mapPath item in
  if String.eqb suffix "" then p else p +:+ "." +:+ suffix.

Definition RoundPath (reactPath : string) (round : Z) : string := reactPath +:+ roundSep +:+ Itoa round.
Definition ModelPath (roundPath : string) : string := roundPath +:+ ".model".
Definition ToolPath (roundPath : string) (j : Z) : string := roundPath +:+ ".tool-" +:+ Itoa j.

Definition CallWorkflowRuntimePath (callPath : string) : string :=
  if String.eqb callPath "" then CallWorkflowSegment else callPath +:+ "." +:+ CallWorkflowSegment.

Definition QualifiedContainerKey (runtimeParent container : string) : string :=
  if String.eqb runtimeParent "" then container else runtimeParent +:+ "::" +:+ container.

Definition bareRunHandleKeyPrefix : string := "_run:".
Definition BareRunHandleKey (nodePath : string) : string := bareRunHandleKeyPrefix +:+ nodePath.

(** The text before the last dot. *)
Fixpoint ParentPath (path : string) : option string :=
  match path with
  | "" => None
  | String c r =>
      match ParentPath r with
      | Some p => Some (String c p)
      | None => if Ascii.eqb c "." then Some "" else None
      end
  end.

(** ** ir/path.go *)

Definition PathFor (parent keyword stepID : string) (index : Z) : string :=
  let self :=
    if negb (String.eqb stepID "") then stepID
    else if negb (String.eqb keyword "") then keyword +:+ "[" +:+ Itoa index +:+ "]"
    else "?[" +:+ Itoa index +:+ "]" in
  if String.eqb parent "" then self else parent +:+ "." +:+ self.

Definition ChildPath (parent keyword : string) (idx : Z) (branch : string) : string :=
  PathFor parent keyword "" idx +:+ "." +:+ branch.

Definition ContainerPath (name fld : string) : string :=
  if String.eqb fld "" then "containers." +:+ name else "containers." +:+ name +:+ "." +:+ fld.

Definition CallWorkflowParentPath (callPath : string) : string :=
  if String.eqb callPath "" then CallWorkflowSegment else callPath +:+ "." +:+ CallWorkflowSegment.

Example path_ex : IterPath (ChildPath "" "loop" 0 "body") 3 = "loop[0].body.iter-3".
Proof. reflexivity. Qed.
Example parent_ex : ParentPath "gate[0].attempt-2.generate" = Some "gate[0].attempt-2".
Proof. reflexivity. Qed.

(** ** Segments *)

(** A string without the byte [d]. *)
Fixpoint lacks (d : ascii) (s : string) : bool :=
  match s with "" => true | String c s => negb (Ascii.eqb c d) && lacks d s end.

Lemma lacks_app d s t : lacks d (s +:+ t) = lacks d s && lacks d t.
Proof. induction s as [|c s IH]; [done|]. simpl. by rewrite IH, andb_assoc. Qed.

Lemma lacks_uint d u : isDigit d = false → lacks d (DecimalString.NilEmpty.string_of_uint u) = true.
Proof.
  intros Hd. assert (H : ∀ c, isDigit c = true → Ascii.eqb c d = false).
  { intros c Hc. apply Ascii.eqb_neq. intros ->. congruence. }
  induction u as [|u IH|u IH|u IH|u IH|u IH|u IH|u IH|u IH|u IH|u IH]; [done|..];
    cbn [DecimalString.NilEmpty.string_of_uint lacks]; by rewrite H.
Qed.

Lemma lacks_Itoa d z : isDigit d = false → d ≠ "-"%char → lacks d (Itoa z) = true.
Proof.
  intros Hd Hm. unfold Itoa.
  destruct z as [|p|p]; simpl Z.to_int; unfold DecimalString.NilZero.string_of_int.
  - change (lacks d (String "0" "") = true). cbn [lacks]. rewrite andb_true_r, negb_true_iff.
    apply Ascii.eqb_neq. by intros <-.
  - rewrite nz_uint_string_pos. by apply lacks_uint.
  - rewrite nz_uint_string_pos. cbn [lacks]. rewrite lacks_uint by done. rewrite andb_true_r, negb_true_iff.
    apply Ascii.eqb_neq. congruence.
Qed.

Lemma ParentPath_lacks s : lacks "." s = true → ParentPath s = None.
Proof.
  induction s as [|c s IH]; [done|]. cbn [lacks ParentPath]. rewrite andb_true_iff, negb_true_iff.
  intros [Hc Hs]. by rewrite (IH Hs), Hc.
Qed.

Lemma ParentPath_join p seg : lacks "." seg = true → ParentPath (p +:+ "." +:+ seg) = Some p.
Proof.
  intros H. induction p as [|c p IH].
  - cbn. by rewrite (ParentPath_lacks _ H).
  - cbn [String.append ParentPath] in *. by rewrite IH.
Qed.

Lemma join_inj p q a b :
  lacks "." a = true → lacks "." b = true → p +:+ "." +:+ a = q +:+ "." +:+ b → p = q ∧ a = b.
Proof.
  intros Ha Hb H. pose proof (ParentPath_join p a Ha) as H1. rewrite H, (ParentPath_join q b Hb) in H1.
  injection H1 as ->. split; [done|]. by apply sapp_inj_l, sapp_inj_l in H.
Qed.

(** ** The runtime suffixes *)

Inductive suffix : Type :=
  | SIter (n : Z) | SAttempt (n : Z) | SItem (n : Z) | SRound (n : Z) | SModel | STool (j : Z).

Definition address (p : string) (x : suffix) : string :=
  match x with
  | SIter n => IterPath p n
  | SAttempt n => AttemptPath p n
  | SItem n => ItemPath p n
  | SRound n => RoundPath p n
  | SModel => ModelPath p
  | STool j => ToolPath p j
  end.

Definition segment (x : suffix) : string :=
  match x with
  | SIter n => "iter-" +:+ Itoa n
  | SAttempt n => "attempt-" +:+ Itoa n
  | SItem n => "item-" +:+ Itoa n
  | SRound n => "round-" +:+ Itoa n
  | SModel => "model"
  | STool j => "tool-" +:+ Itoa j
  end.

Lemma address_segment p x : address p x = p +:+ "." +:+ segment x.
Proof. by destruct x. Qed.

Lemma segment_lacks x : lacks "." (segment x) = true.
Proof. destruct x; cbn [segment]; rewrite ?lacks_app, ?lacks_Itoa; done. Qed.

Lemma segment_inj x y : segment x = segment y → x = y.
Proof.
  destruct x, y; cbn [segment]; intros H; try discriminate H; try done;
    apply sapp_inj_l, Itoa_inj in H; by subst.
Qed.

(** ** Node paths *)

Inductive node_key : Type := NStep (id : string) | NControl (keyword : string) (index : Z).

Definition node_key_ok (k : node_key) : bool :=
  match k with
  | NStep id => negb (String.eqb id "") && lacks "." id && lacks "[" id
  | NControl kw _ => negb (String.eqb kw "") && lacks "." kw && lacks "[" kw
  end.

Definition node_path (parent : string) (k : node_key) : string :=
  match k with NStep id => PathFor parent "" id 0 | NControl kw i => PathFor parent kw "" i end.

Definition node_self (k : node_key) : string :=
  match k with NStep id => id | NControl kw i => kw +:+ "[" +:+ Itoa i +:+ "]" end.

Lemma node_path_self parent k :
  node_key_ok k = true →
  node_path parent k = if String.eqb parent "" then node_self k else parent +:+ "." +:+ node_self k.
Proof.
  destruct k as [id|kw i]; cbn; rewrite !andb_true_iff; intros [[H _] _]; unfold PathFor; by rewrite H.
Qed.

Lemma node_self_lacks k : node_key_ok k = true → lacks "." (node_self k) = true.
Proof.
  destruct k as [id|kw i]; cbn [node_key_ok node_self]; rewrite !andb_true_iff; intros [[_ H] _]; [done|].
  by rewrite !lacks_app, H, lacks_Itoa.
Qed.

Lemma lacks_split d a b s t :
  lacks d a = true → lacks d b = true → a +:+ String d s = b +:+ String d t → a = b ∧ s = t.
Proof.
  revert b. induction a as [|c a IH]; intros [|c' b]; cbn [lacks String.append]; rewrite ?andb_true_iff, ?negb_true_iff.
  - intros _ _ [=]. done.
  - intros _ [Hc _] [= -> _]. by rewrite Ascii.eqb_refl in Hc.
  - intros [Hc _] _ [= -> _]. by rewrite Ascii.eqb_refl in Hc.
  - intros [_ Ha] [_ Hb] [= -> H]. by destruct (IH b Ha Hb H) as [-> ->].
Qed.

Lemma lacks_absent d a s : lacks d (a +:+ String d s) = false.
Proof. rewrite lacks_app. cbn. by rewrite Ascii.eqb_refl, andb_false_r. Qed.

Lemma node_self_inj k k' :
  node_key_ok k = true → node_key_ok k' = true → node_self k = node_self k' → k = k'.
Proof.
  destruct k as [id|kw i], k' as [id'|kw' i']; cbn [node_key_ok node_self]; rewrite !andb_true_iff;
    intros [[_ _] H] [[_ _] H'] E.
  - by subst.
  - rewrite E in H. cbn [String.append] in H. by rewrite lacks_absent in H.
  - rewrite <- E in H'. cbn [String.append] in H'. by rewrite lacks_absent in H'.
  - apply lacks_split in E as [-> E]; [|done..].
    assert (Hi : Itoa i = Itoa i').
    { destruct (lacks_split "]" (Itoa i) (Itoa i') "" "") as [? _]; [by apply lacks_Itoa..|done|done]. }
    by apply Itoa_inj in Hi as ->.
Qed.

(** ** The properties *)

(** Runtime addresses never collide. The six suffix functions are jointly injective: a path built
    by one of them determines the function, the index and the path it was built on; and [ParentPath]
    inverts each of them. *)
Theorem address_injective p x q y :
  (address p x = address q y ↔ p = q ∧ x = y) ∧ ParentPath (address p x) = Some p.
Proof.
  rewrite !address_segment. split; [|apply ParentPath_join, segment_lacks]. split; [|by intros [-> ->]].
  intros H. apply join_inj in H as [-> H]; [|apply segment_lacks..]. split; [done|]. by apply segment_inj.
Qed.

(** node paths never collide. With ids and keywords free of dots and brackets, the path of a node
    determines its parent and its own key (step id, or control keyword and position), and
    [ParentPath] recovers the parent of every node that is not at the top level. *)
Theorem PathFor_injective parent k parent' k' :
  node_key_ok k = true → node_key_ok k' = true →
  (node_path parent k = node_path parent' k' ↔ parent = parent' ∧ k = k') ∧
  ParentPath (node_path parent k) = if String.eqb parent "" then None else Some parent.
Proof.
  intros Hk Hk'. rewrite !node_path_self by done.
  pose proof (node_self_lacks k Hk) as L. pose proof (node_self_lacks k' Hk') as L'. split.
  - split; [|by intros [-> ->]].
    destruct (String.eqb_spec parent "") as [->|Hp], (String.eqb_spec parent' "") as [->|Hp']; intros H.
    + split; [done|]. by apply node_self_inj.
    + rewrite H in L. cbn [String.append] in L. by rewrite lacks_absent in L.
    + rewrite <- H in L'. cbn [String.append] in L'. by rewrite lacks_absent in L'.
    + apply join_inj in H as [-> H]; [|done..]. split; [done|]. by apply node_self_inj.
  - destruct (String.eqb parent ""); [by apply ParentPath_lacks|by apply ParentPath_join].
Qed.

Lemma PathFor_injective_witness :
  (node_path "loop[0].body.iter-1" (NStep "build") = node_path "" (NControl "if" 2) ↔
   "loop[0].body.iter-1" = "" ∧ NStep "build" = NControl "if" 2) ∧
  ParentPath (node_path "loop[0].body.iter-1" (NStep "build")) = Some "loop[0].body.iter-1".
Proof.
  apply (PathFor_injective "loop[0].body.iter-1" (NStep "build") "" (NControl "if" 2)); reflexivity.
Defined.
