(* ===== verification/GoPath.v ===== *)
(** * strings.Split, strings.Join, strings.Replace and package path

    The parts of the Go standard library with which the engine takes addresses apart and cleans
    container paths, written out on byte strings, with the laws of splitting and joining. *)

From S2P Require Import Prelude GoNum EnginePath.

(** [strings.Split(s, sep)] for a one-byte separator. *)
Fixpoint Split (d : ascii) (s : string) : list string :=
  match s with
  | "" => [""]
  | String c r =>
      if Ascii.eqb c d then "" :: Split d r
      else match Split d r with h :: t => String c h :: t | [] => [String c ""] end
  end.

(** [strings.Join(l, sep)]. *)
Fixpoint Join (d : ascii) (l : list string) : string :=
  match l with
  | [] => ""
  | [s] => s
  | s :: l => s +:+ String d (Join d l)
  end.

Definition SplitDot : string → list string := Split ".".
Definition JoinDot : list string → string := Join ".".

Definition TrimPrefix (s p : string) : string := if HasPrefix s p then sdrop (slen p) s else s.
Definition TrimSuffix (s p : string) : string := if HasSuffix s p then stake (slen s - slen p) s else s.

Lemma HasPrefix_app p s : HasPrefix (p +:+ s) p = true.
Proof. unfold HasPrefix. by rewrite prefix_app. Qed.
Lemma HasSuffix_app s p : HasSuffix (s +:+ p) p = true.
Proof.
  unfold HasSuffix. rewrite slen_app. rewrite andb_true_iff, Nat.leb_le, String.eqb_eq. split; [lia|].
  replace (slen s + slen p - slen p) with (slen s) by lia. apply sdrop_app.
Qed.
Lemma TrimPrefix_app p s : TrimPrefix (p +:+ s) p = s.
Proof. unfold TrimPrefix. rewrite HasPrefix_app. apply sdrop_app. Qed.
Lemma TrimSuffix_app s p : TrimSuffix (s +:+ p) p = s.
Proof. unfold TrimSuffix. rewrite HasSuffix_app, slen_app. replace (slen s + slen p - slen p) with (slen s) by lia. apply stake_app. Qed.

(** [strings.Replace(s, old, new, 1)]. *)
Definition Replace1 (s old new : string) : string :=
  match strIndex s old with
  | None => s
  | Some i => stake i s +:+ new +:+ sdrop (i + slen old) s
  end.

(** [strconv.Atoi] on a 64-bit platform. *)
Definition Atoi : string → option Z := ParseInt.

(** ** Package path *)

Definition IsAbs (p : string) : bool := HasPrefix p "/".

(** The elements of a path: [.] and empty ones dropped, each [..] cancelling the element before it;
    at the root [..] is dropped.  The result is in reverse. *)
Fixpoint cleanElems (rooted : bool) (acc : list string) (l : list string) : list string :=
  match l with
  | [] => acc
  | s :: l =>
      if String.eqb s "" || String.eqb s "." then cleanElems rooted acc l
      else if String.eqb s ".." then
        match acc with
        | [] => cleanElems rooted (if rooted then [] else [s]) l
        | a :: acc' => cleanElems rooted (if String.eqb a ".." then s :: acc else acc') l
        end
      else cleanElems rooted (s :: acc) l
  end.

(** [path.Clean]. *)
Definition Clean (p : string) : string :=
  let body := Join "/" (rev (cleanElems (IsAbs p) [] (Split "/" p))) in
  if IsAbs p then "/" +:+ body else if String.eqb body "" then "." else body.

(** [path.Join] of two elements. *)
Definition pathJoin (a b : string) : string :=
  match List.filter (λ s, negb (String.eqb s "")) [a; b] with
  | [] => ""
  | l => Clean (Join "/" l)
  end.

Example clean_ex :
  map Clean ["/a//b/../c/."; ""; "a/../.."; "/.."; "./x"] = ["/a/c"; "."; ".."; "/"; "x"].
Proof. reflexivity. Qed.
Example replace_ex : Replace1 "gate[0].generate.x" "gate[0]" "gate[0].attempt-2" = "gate[0].attempt-2.generate.x".
Proof. reflexivity. Qed.

(** ** Splitting and joining *)

Lemma Split_cons d s : ∃ h t, Split d s = h :: t.
Proof.
  destruct s as [|c r]; cbn; [by eauto|]. destruct (Ascii.eqb c d); [by eauto|].
  destruct (Split d r); by eauto.
Qed.

Lemma Join_cons d s l : l ≠ [] → Join d (s :: l) = s +:+ String d (Join d l).
Proof. by destruct l. Qed.

Lemma Join_Split d s : Join d (Split d s) = s.
Proof.
  induction s as [|c r IH]; [done|]. cbn [Split]. destruct (Ascii.eqb_spec c d) as [->|Hc].
  - rewrite Join_cons, IH; [done|]. destruct (Split_cons d r) as (h & t & ->). done.
  - destruct (Split_cons d r) as (h & t & E). rewrite E in *.
    destruct t as [|u t]; cbn [Join String.append] in *; by rewrite <- IH.
Qed.

Lemma Split_lacks d s : Forall (λ x, lacks d x = true) (Split d s).
Proof.
  induction s as [|c r IH]; [by repeat constructor|]. cbn [Split]. destruct (Ascii.eqb c d) eqn:Hc; [by constructor|].
  destruct (Split d r) as [|h t]; inversion IH; subst; constructor; cbn [lacks]; rewrite ?Hc; done.
Qed.

Lemma Split_app d s t : lacks d s = true → Split d (s +:+ String d t) = s :: Split d t.
Proof.
  induction s as [|c s IH]; cbn [lacks String.append Split].
  - by rewrite Ascii.eqb_refl.
  - rewrite andb_true_iff, negb_true_iff. intros [-> Hs]. by rewrite IH.
Qed.

Lemma Split_one d s : lacks d s = true → Split d s = [s].
Proof.
  induction s as [|c s IH]; cbn [lacks Split]; [done|]. rewrite andb_true_iff, negb_true_iff.
  intros [-> Hs]. by rewrite IH.
Qed.

Lemma Split_Join d l : l ≠ [] → Forall (λ x, lacks d x = true) l → Split d (Join d l) = l.
Proof.
  intros Hl HF. induction HF as [|s l Hs HF IH]; [done|]. destruct l as [|s' l]; [by apply Split_one|].
  rewrite Join_cons by done. rewrite Split_app by done. by rewrite IH.
Qed.

Lemma Join_snoc d l s : l ≠ [] → Join d (l ++ [s]) = Join d l +:+ String d s.
Proof.
  induction l as [|x l IH]; [done|]. intros _. destruct l as [|y l]; [done|].
  change ((x :: y :: l) ++ [s]) with (x :: ((y :: l) ++ [s])).
  rewrite (Join_cons d x ((y :: l) ++ [s])), (Join_cons d x (y :: l)), IH by done. by rewrite <- sapp_assoc.
Qed.

Lemma Join_app d l l' : l ≠ [] → l' ≠ [] → Join d (l ++ l') = Join d l +:+ String d (Join d l').
Proof.
  intros Hl Hl'. induction l as [|x l IH]; [done|]. destruct l as [|y l].
  - cbn [app]. by rewrite Join_cons.
  - cbn [app]. rewrite (Join_cons d x (y :: l ++ l')), (Join_cons d x (y :: l)) by done.
    change (y :: l ++ l') with ((y :: l) ++ l'). rewrite IH by done. by rewrite <- sapp_assoc.
Qed.

Lemma Join_inj d l l' :
  l ≠ [] → l' ≠ [] → Forall (λ x, lacks d x = true) l → Forall (λ x, lacks d x = true) l' →
  Join d l = Join d l' → l = l'.
Proof. intros H H' HF HF' E. by rewrite <- (Split_Join d l), <- (Split_Join d l'), E. Qed.

(** ** Clean paths *)

(** An element of a cleaned path other than [..]. *)
Definition plainElem (s : string) : Prop := s ≠ "" ∧ s ≠ "." ∧ s ≠ ".." ∧ lacks "/" s = true.

Lemma cleanElems_plain rooted acc l :
  Forall plainElem l → cleanElems rooted acc l = rev l ++ acc.
Proof.
  intros HF. revert acc. induction HF as [|s l (H1 & H2 & H3 & _) HF IH]; intros acc; [done|]. cbn [cleanElems].
  apply String.eqb_neq in H1, H2, H3. rewrite H1, H2, H3. cbn [orb rev]. by rewrite IH, <- app_assoc.
Qed.

(** What [cleanElems] accumulates: plain elements above a run of [..], which is empty at the root. *)
Definition cleanAcc (rooted : bool) (acc : list string) : Prop :=
  ∃ ps k, acc = ps ++ repeat ".." k ∧ Forall plainElem ps ∧ (rooted = true → k = 0).

Lemma cleanElems_acc rooted l : ∀ acc,
  Forall (λ x, lacks "/" x = true) l → cleanAcc rooted acc → cleanAcc rooted (cleanElems rooted acc l).
Proof.
  induction l as [|s l IH]; intros acc HF Ha; [done|]. apply Forall_cons in HF as [Hs HF]. cbn [cleanElems].
  destruct (String.eqb_spec s "") as [->|N1]; [by apply IH|]. destruct (String.eqb_spec s ".") as [->|N2]; [by apply IH|].
  cbn [orb]. destruct Ha as (ps & k & -> & Hp & Hk). destruct (String.eqb_spec s "..") as [->|N3].
  - destruct ps as [|p ps].
    + destruct k as [|k]; cbn [app repeat].
      * apply IH; [done|]. exists [], (if rooted then 0 else 1). by destruct rooted.
      * rewrite String.eqb_refl. apply IH; [done|]. exists [], (S (S k)). split; [done|]. split; [done|]. intros H. by apply Hk in H.
    + apply Forall_cons in Hp as [(? & ? & H3 & ?) Hp]. apply String.eqb_neq in H3. cbn [app]. rewrite H3.
      apply IH; [done|]. by exists ps, k.
  - apply IH; [done|]. exists (s :: ps), k. split; [done|]. split; [|done]. by apply Forall_cons_2.
Qed.

Lemma Join_plain_nonempty l : l ≠ [] → Forall plainElem l → Join "/" l ≠ "".
Proof.
  intros Hl HF E. destruct HF as [|s l (H1 & _) _]; [done|]. destruct l; [done|].
  rewrite Join_cons in E by done. by destruct s.
Qed.

(** A cleaned absolute path is the root or plain elements after the root. *)
Lemma Clean_abs p : IsAbs p = true → p = Clean p → ∃ es, Forall plainElem es ∧ p = "/" +:+ Join "/" es.
Proof.
  intros Ha Hc. unfold Clean in Hc. rewrite Ha in Hc.
  destruct (cleanElems_acc true (Split "/" p) []) as (ps & k & E & Hp & Hk); [apply Split_lacks|by exists [], 0|].
  exists (rev ps). split; [by apply Forall_rev|]. rewrite Hc at 1. by rewrite E, (Hk eq_refl), app_nil_r.
Qed.

(** A cleaned relative path that does not start by going up is plain elements. *)
Lemma Clean_rel p :
  IsAbs p = false → p = Clean p → p ≠ "." → p ≠ ".." → HasPrefix p "../" = false →
  ∃ es, es ≠ [] ∧ Forall plainElem es ∧ p = Join "/" es.
Proof.
  intros Ha Hc N1 N2 N3. unfold Clean in Hc. rewrite Ha in Hc.
  destruct (cleanElems_acc false (Split "/" p) []) as (ps & k & E & Hp & _); [apply Split_lacks|by exists [], 0|].
  rewrite E in Hc. rewrite rev_app_distr, rev_repeat in Hc. destruct k as [|k].
  - cbn [repeat app] in Hc. destruct ps as [|x ps]; [by cbn in Hc|].
    assert (Hne : rev (x :: ps) ≠ []) by (cbn; by destruct (rev ps)).
    apply Forall_rev in Hp. pose proof (Join_plain_nonempty _ Hne Hp) as Hj. apply String.eqb_neq in Hj. rewrite Hj in Hc. eauto.
  - exfalso. cbn [repeat app] in Hc. destruct (repeat ".." k ++ rev ps) as [|y l] eqn:El.
    + by cbn in Hc.
    + rewrite Join_cons in Hc by done. change (p = "../" +:+ Join "/" (y :: l)) in Hc. rewrite Hc in N3.
      unfold HasPrefix in N3. by rewrite prefix_app in N3.
Qed.

(** Joining a clean relative path that does not go up onto a clean absolute path stays inside it. *)
Lemma pathJoin_inside d p es fs :
  d = "/" +:+ Join "/" es → p = Join "/" fs → fs ≠ [] → Forall plainElem es → Forall plainElem fs →
  pathJoin d p = "/" +:+ Join "/" (es ++ fs).
Proof.
  intros -> -> Hf He Hfs. unfold pathJoin. cbn [List.filter].
  pose proof (Join_plain_nonempty _ Hf Hfs) as Hj. apply String.eqb_neq in Hj. rewrite Hj. cbn [String.append String.eqb negb].
  rewrite Join_cons by done. unfold Clean. cbn [Join]. change (String "/" (Join "/" es) +:+ String "/" (Join "/" fs))
    with (String "/" (Join "/" es +:+ String "/" (Join "/" fs))).
  set (tail := Join "/" es +:+ String "/" (Join "/" fs)).
  assert (Hs : cleanElems true [] (Split "/" (String "/" tail)) = rev (es ++ fs)).
  { unfold tail. cbn [Split Ascii.eqb Bool.eqb cleanElems String.eqb orb].
    assert (Hl : ∀ l, Forall plainElem l → Forall (λ x, lacks "/" x = true) l).
    { intros l HF. eapply Forall_impl; [exact HF|]. by intros x (_ & _ & _ & ?). }
    destruct es as [|e es].
    - cbn [Join String.append Split Ascii.eqb Bool.eqb cleanElems String.eqb orb].
      rewrite Split_Join by auto. by rewrite cleanElems_plain, app_nil_r.
    - assert (E : Join "/" (e :: es) +:+ String "/" (Join "/" fs) = Join "/" ((e :: es) ++ fs))
        by (symmetry; by apply Join_app).
      rewrite E, Split_Join; [|done|by apply Forall_app_2; auto].
      by rewrite cleanElems_plain, app_nil_r by by apply Forall_app_2. }
  assert (Ha : IsAbs (String "/" tail) = true) by apply (prefix_app "/" tail).
  rewrite Ha, Hs. by rewrite rev_involutive.
Qed.

#[export] Hint Resolve Split_lacks : core.
