(* ===== verification/Signal.v ===== *)
(** * signal/paths.go, broker.go, control.go: the control surface of a run

    Signals, pause and cancel requests are files in a directory that several processes share.  The
    functions of the broker are programs of file system calls ([prog]), so that they can be run alone
    ([exec]) and interleaved with others call by call ([interleave]); a call may fail.  Files are inodes
    with names, as in POSIX: a file that is renamed while another process writes it gets the rest of the
    write.  Subdirectories are not among the entries: the code skips them. *)

From stdpp Require Import sorting.
From S2P Require Import Prelude GoNum GoJson GoStruct EnginePath GoPath.

(** ** paths.go *)

(** [filepath.Join] of three elements, on slash-separated paths. *)
Definition ControlDir (stateDir runID : string) : string :=
  pathJoin (pathJoin (pathJoin stateDir "runs") runID) "control".
Definition ConsumedDir (controlDir : string) : string := pathJoin controlDir "consumed".

Definition signalFileName (name : string) (seq : Z) : string :=
  "signal-" +:+ name +:+ "-" +:+ Itoa seq +:+ ".json".

(** [strings.LastIndex(s, sep)] for a one-byte separator: the parts before and after it. *)
Fixpoint lastCut (d : ascii) (s : string) : option (string * string) :=
  match s with
  | "" => None
  | String c r =>
      match lastCut d r with
      | Some (a, b) => Some (String c a, b)
      | None => if Ascii.eqb c d then Some ("", r) else None
      end
  end.

Fixpoint lastByte (s : string) : option ascii :=
  match s with "" => None | String c "" => Some c | String _ r => lastByte r end.

Definition parseSignalFileName (fileName : string) : option (string * Z) :=
  if negb (HasPrefix fileName "signal-") then None
  else if negb (HasSuffix fileName ".json") then None
  else
    let mid := TrimSuffix (TrimPrefix fileName "signal-") ".json" in
    match lastCut "-" mid with
    | None => None
    | Some (name, seqStr) =>
        match lastByte name with
        | None => None
        | Some c =>
            if Ascii.eqb c "-" then None
            else match Atoi seqStr with
                 | Some n => if (n <? 1)%Z then None else Some (name, n)
                 | None => None
                 end
        end
    end.

Definition pauseFileName : string := "pause.json".
Definition cancelFileName : string := "cancel.json".

(** [signalNamePattern]: a letter or an underscore, then letters, digits, underscores and hyphens. *)
Definition isNameStart (c : ascii) : bool :=
  let n := nat_of_ascii c in
  (((65 <=? n) && (n <=? 90)) || ((97 <=? n) && (n <=? 122)) || (n =? 95))%nat.
Definition isNameByte (c : ascii) : bool :=
  let n := nat_of_ascii c in isNameStart c || ((48 <=? n) && (n <=? 57))%nat || (n =? 45)%nat.
Fixpoint all_bytes (p : ascii → bool) (s : string) : bool :=
  match s with "" => true | String c s => p c && all_bytes p s end.
Definition validateSignalName (name : string) : bool :=
  match name with "" => false | String c s => isNameStart c && all_bytes isNameByte s end.

(** ** The file system *)

Inductive fserr : Type := ENotExist | EExist | EOther.
Inductive dir : Type := Control | Consumed.

Record FS : Type := MkFS {
  fsControl : option (gmap string positive); fsConsumed : option (gmap string positive);
  fsData : gmap positive string; fsNext : positive }.

(** The calls of the broker; a file named without a directory is in the control directory. *)
Inductive op : Type → Type :=
  | ReadDir (d : dir) : op (list string)           (* os.ReadDir *)
  | ReadFile (f : string) : op string               (* os.ReadFile *)
  | MkdirAll (d : dir) : op ()
  | Rename (f : string) : op ()                     (* from the control directory to consumed/ *)
  | OpenExcl (f : string) : op positive             (* O_WRONLY|O_CREATE|O_EXCL *)
  | OpenTrunc (f : string) : op positive            (* O_WRONLY|O_CREATE|O_TRUNC *)
  | Write (ino : positive) (data : string) : op ()  (* at the end of what was written *)
  | Close (ino : positive) : op ()
  | Remove (f : string) : op ().

Definition entries (d : dir) (fs : FS) : option (gmap string positive) :=
  match d with Control => fsControl fs | Consumed => fsConsumed fs end.
Definition lookupFile (f : string) (fs : FS) : option positive := m ← fsControl fs; m !! f.
Definition content (fs : FS) (ino : positive) : string := default "" (fsData fs !! ino).

(** A call that the operating system does not fail. *)
Definition sys {X} (o : op X) (fs : FS) : res fserr X * FS :=
  match o in op X return res fserr X * FS with
  | ReadDir d => match entries d fs with
                 | None => (Err ENotExist, fs)
                 | Some m => (Ok (sort_strings (elements (dom m))), fs)
                 end
  | ReadFile f => match lookupFile f fs with
                  | None => (Err ENotExist, fs)
                  | Some i => (Ok (content fs i), fs)
                  end
  | MkdirAll d =>
      (Ok (), MkFS (Some (default ∅ (fsControl fs)))
                (match d with Control => fsConsumed fs | Consumed => Some (default ∅ (fsConsumed fs)) end)
                (fsData fs) (fsNext fs))
  | Rename f =>
      match lookupFile f fs, fsConsumed fs with
      | Some i, Some c => (Ok (), MkFS (delete f <$> fsControl fs) (Some (<[f := i]> c)) (fsData fs) (fsNext fs))
      | _, _ => (Err ENotExist, fs)
      end
  | OpenExcl f =>
      match fsControl fs with
      | None => (Err ENotExist, fs)
      | Some m =>
          match m !! f with
          | Some _ => (Err EExist, fs)
          | None => (Ok (fsNext fs), MkFS (Some (<[f := fsNext fs]> m)) (fsConsumed fs)
                                       (<[fsNext fs := ""]> (fsData fs)) (Pos.succ (fsNext fs)))
          end
      end
  | OpenTrunc f =>
      match fsControl fs with
      | None => (Err ENotExist, fs)
      | Some m =>
          match m !! f with
          | Some i => (Ok i, MkFS (Some m) (fsConsumed fs) (<[i := ""]> (fsData fs)) (fsNext fs))
          | None => (Ok (fsNext fs), MkFS (Some (<[f := fsNext fs]> m)) (fsConsumed fs)
                                       (<[fsNext fs := ""]> (fsData fs)) (Pos.succ (fsNext fs)))
          end
      end
  | Write i data => (Ok (), MkFS (fsControl fs) (fsConsumed fs) (<[i := content fs i +:+ data]> (fsData fs)) (fsNext fs))
  | Close _ => (Ok (), fs)
  | Remove f => match lookupFile f fs with
                | None => (Err ENotExist, fs)
                | Some _ => (Ok (), MkFS (delete f <$> fsControl fs) (fsConsumed fs) (fsData fs) (fsNext fs))
                end
  end.

(** ** Programs of calls *)

Inductive prog (A : Type) : Type :=
  | Ret (a : A)
  | Do {X} (o : op X) (k : res fserr X → prog A).
Arguments Ret {A} a.
Arguments Do {A X} o k.

Fixpoint pbind {A B} (p : prog A) (f : A → prog B) : prog B :=
  match p with Ret a => f a | Do o k => Do o (λ r, pbind (k r) f) end.

(** Alone, without failures. *)
Fixpoint exec {A} (p : prog A) (fs : FS) : A * FS :=
  match p with
  | Ret a => (a, fs)
  | Do o k => let '(r, fs') := sys o fs in exec (k r) fs'
  end.

(** What others see of a call. *)
Inductive obs : Type := ORename (f : string) | OCreate (f : string) | OWrite | OOther.
Definition observe {X} (o : op X) (r : res fserr X) : obs :=
  if is_ok r then match o with Rename f => ORename f | OpenExcl f | OpenTrunc f => OCreate f | Write _ _ => OWrite | _ => OOther end
  else OOther.

(** One call of program [i], failing as [fault] says. *)
Definition step {A} (i : nat) (fault : option fserr) (s : list (prog A) * FS) : option obs * (list (prog A) * FS) :=
  match s.1 !! i with
  | Some (Do o k) =>
      let '(r, fs') := match fault with Some e => (Err e, s.2) | None => sys o s.2 end in
      (Some (observe o r), (<[i := k r]> s.1, fs'))
  | _ => (None, s)
  end.
(** A schedule: who moves, and whether the call fails. *)
Fixpoint interleave {A} (sched : list (nat * option fserr)) (s : list (prog A) * FS) : list (prog A) * FS :=
  match sched with [] => s | (i, fault) :: sched => interleave sched (step i fault s).2 end.

(** ** broker.go *)

Inductive sigErr : Type :=
  | SBadName (name : string)
  | SCall (what path : string) (e : fserr)
  | SContended (name : string).

Record Delivery : Type := MkDelivery { dlName : string; dlSeq : Z; dlPayload : string }.

(** The largest sequence number of [name] among the entries. *)
Definition maxSeq (name : string) (names : list string) (acc : Z) : Z :=
  foldl (λ acc f, match parseSignalFileName f with
                  | Some (n, seq) => if String.eqb n name && (acc <? seq)%Z then seq else acc
                  | None => acc
                  end) acc names.

Definition nextSeqIn (name : string) (d : dir) (acc : Z) (k : Z → prog (res sigErr Z)) : prog (res sigErr Z) :=
  Do (ReadDir d) (λ r, match r with
                       | Err ENotExist => k acc
                       | Err e => Ret (Err (SCall "read" "" e))
                       | Ok names => k (maxSeq name names acc)
                       end).
Definition nextSeq (name : string) : prog (res sigErr Z) :=
  nextSeqIn name Control 0 (λ acc, nextSeqIn name Consumed acc (λ acc, Ret (Ok (wrap_i64 (acc + 1))))).

(** One attempt: [None] when another writer has the number. *)
Definition writeOnce (name payload : string) : prog (option (res sigErr Z)) :=
  pbind (nextSeq name) (λ r,
    match r with
    | Err e => Ret (Some (Err e))
    | Ok seq =>
        let f := signalFileName name seq in
        Do (OpenExcl f) (λ r,
          match r with
          | Err EExist => Ret None
          | Err e => Ret (Some (Err (SCall "write" f e)))
          | Ok ino =>
              Do (Write ino payload) (λ r,
                match r with
                | Err e => Do (Close ino) (λ _, Do (Remove f) (λ _, Ret (Some (Err (SCall "write payload" f e)))))
                | Ok _ => Do (Close ino) (λ r,
                            match r with
                            | Err e => Ret (Some (Err (SCall "close" f e)))
                            | Ok _ => Ret (Some (Ok seq))
                            end)
                end)
          end)
    end).
Fixpoint writeAttempts (n : nat) (name payload : string) : prog (res sigErr Z) :=
  match n with
  | O => Ret (Err (SContended name))
  | S n => pbind (writeOnce name payload) (λ r, match r with Some r => Ret r | None => writeAttempts n name payload end)
  end.
Definition maxAttempts : nat := 50.

Definition WriteSignal (name payload : string) : prog (res sigErr Z) :=
  if negb (validateSignalName name) then Ret (Err (SBadName name))
  else Do (MkdirAll Control) (λ r,
         match r with
         | Err e => Ret (Err (SCall "mkdir" "" e))
         | Ok _ => writeAttempts maxAttempts name payload
         end).

Record candidate : Type := MkCandidate { caSeq : Z; caFileName : string }.
Definition cand_le (a b : candidate) : Prop := (caSeq a ≤ caSeq b)%Z.
#[global] Instance cand_le_dec : RelDecision cand_le.
Proof. intros a b. unfold cand_le. apply _. Defined.

Definition candidatesOf (name : string) (names : list string) : list candidate :=
  merge_sort cand_le
    (omap (λ f, match parseSignalFileName f with
                | Some (n, seq) => if String.eqb n name then Some (MkCandidate seq f) else None
                | None => None
                end) names).

Definition sortedCandidates (name : string) : prog (res sigErr (list candidate)) :=
  Do (ReadDir Control) (λ r, match r with
                             | Err ENotExist => Ret (Ok [])
                             | Err e => Ret (Err (SCall "read" "" e))
                             | Ok names => Ret (Ok (candidatesOf name names))
                             end).

(** The rename of a read candidate.  [None]: another consumer has it. *)
Definition claim (name : string) (c : candidate) (payload : string)
    : prog (res sigErr (option Delivery)) :=
  let f := caFileName c in
  Do (MkdirAll Consumed) (λ r,
    match r with
    | Err e => Ret (Err (SCall "mkdir" f e))
    | Ok _ =>
        Do (Rename f) (λ r,
          match r with
          | Ok _ => Ret (Ok (Some (MkDelivery name (caSeq c) payload)))
          | Err ENotExist =>
              Do (ReadFile f) (λ r,
                match r with
                | Err ENotExist => Ret (Ok None)
                | Err e => Ret (Err (SCall "verify rename source" f e))
                | Ok _ => Ret (Err (SCall "rename" f ENotExist))
                end)
          | Err e => Ret (Err (SCall "rename" f e))
          end)
    end).

Definition tryConsume (name : string) : prog (res sigErr (option Delivery)) :=
  pbind (sortedCandidates name) (λ r,
    match r with
    | Err e => Ret (Err e)
    | Ok [] => Ret (Ok None)
    | Ok (c :: _) =>
        Do (ReadFile (caFileName c)) (λ r,
          match r with
          | Err ENotExist => Ret (Ok None)
          | Err e => Ret (Err (SCall "read" (caFileName c) e))
          | Ok payload => claim name c payload
          end)
    end).

(** The first candidate whose payload matches; a predicate that fails does not match. *)
Fixpoint consumeFirst {E} (name : string) (match_ : string → res E bool) (cs : list candidate)
    : prog (res sigErr (option Delivery)) :=
  match cs with
  | [] => Ret (Ok None)
  | c :: cs =>
      Do (ReadFile (caFileName c)) (λ r,
        match r with
        | Err ENotExist => consumeFirst name match_ cs
        | Err e => Ret (Err (SCall "read" (caFileName c) e))
        | Ok payload =>
            match match_ payload with
            | Ok true => pbind (claim name c payload) (λ r,
                           match r with Ok None => consumeFirst name match_ cs | _ => Ret r end)
            | _ => consumeFirst name match_ cs
            end
        end)
  end.
Definition tryConsumeMatching {E} (name : string) (match_ : string → res E bool) : prog (res sigErr (option Delivery)) :=
  pbind (sortedCandidates name) (λ r,
    match r with Err e => Ret (Err e) | Ok cs => consumeFirst name match_ cs end).

(** The error of a wait. *)
Inductive recvErr (T : Type) : Type := RDeadline | RCanceled | ROther (e : T).
Arguments RDeadline {T}.
Arguments RCanceled {T}.
Arguments ROther {T} e.

(** The polling loop: the context is done after [n] ticks, with the error [done]. *)
Fixpoint poll (n : nat) (done : recvErr sigErr) (try : prog (res sigErr (option Delivery))) : prog (res (recvErr sigErr) Delivery) :=
  pbind try (λ r,
    match r with
    | Err e => Ret (Err (ROther e))
    | Ok (Some d) => Ret (Ok d)
    | Ok None => match n with O => Ret (Err done) | S n => poll n done try end
    end).
Definition Receive (n : nat) (done : recvErr sigErr) (name : string) : prog (res (recvErr sigErr) Delivery) :=
  if negb (validateSignalName name) then Ret (Err (ROther (SBadName name))) else poll n done (tryConsume name).
Definition ReceiveMatching {E} (n : nat) (done : recvErr sigErr) (name : string) (match_ : option (string → res E bool))
    : prog (res (recvErr sigErr) Delivery) :=
  if negb (validateSignalName name) then Ret (Err (ROther (SBadName name)))
  else match match_ with
       | None => Receive n done name
       | Some m => poll n done (tryConsumeMatching name m)
       end.

(** Each entry that parses: one attempt to consume its name; errors are dropped. *)
Fixpoint drainNames (names : list string) (acc : list Delivery) : prog (list Delivery) :=
  match names with
  | [] => Ret acc
  | f :: names =>
      match parseSignalFileName f with
      | None => drainNames names acc
      | Some (name, _) =>
          pbind (tryConsume name) (λ r,
            drainNames names (match r with Ok (Some d) => acc ++ [d] | _ => acc end))
      end
  end.
Definition Drain : prog (list Delivery) :=
  Do (ReadDir Control) (λ r, match r with Err _ => Ret [] | Ok names => drainNames names [] end).

(** ** control.go *)

Record PauseRequest : Type := MkPauseRequest { prNodePath : string; prReason : string }.
Record CancelRequest : Type := MkCancelRequest { crReason : string }.
Definition PauseRequest_json (r : PauseRequest) : json :=
  obj [omit_str "node_path" (prNodePath r); omit_str "reason" (prReason r)].
Definition CancelRequest_json (r : CancelRequest) : json := obj [omit_str "reason" (crReason r)].

(** [os.WriteFile] after the directory is made. *)
Definition writeControlJSON (filename : string) (j : json) : prog (option sigErr) :=
  Do (MkdirAll Control) (λ r,
    match r with
    | Err e => Ret (Some (SCall "mkdir" "" e))
    | Ok _ =>
        Do (OpenTrunc filename) (λ r,
          match r with
          | Err e => Ret (Some (SCall "write" filename e))
          | Ok ino =>
              Do (Write ino (json_print j)) (λ w,
                Do (Close ino) (λ c,
                  match w, c with
                  | Err e, _ | _, Err e => Ret (Some (SCall "write" filename e))
                  | _, _ => Ret None
                  end))
          end)
    end).
Definition WritePause (r : PauseRequest) : prog (option sigErr) := writeControlJSON pauseFileName (PauseRequest_json r).
Definition WriteCancel (r : CancelRequest) : prog (option sigErr) := writeControlJSON cancelFileName (CancelRequest_json r).

Definition maxControlFileBytes : nat := (64 * 1024)%nat.

Definition readControlFile (f : string) (k : option string → prog (res sigErr (option PauseRequest * option CancelRequest)))
    (what : string) : prog (res sigErr (option PauseRequest * option CancelRequest)) :=
  Do (ReadFile f) (λ r, match r with
                        | Err ENotExist => k None
                        | Err e => Ret (Err (SCall what f e))
                        | Ok data => k (Some (stake maxControlFileBytes data))
                        end).

(** [json.Unmarshal] into a struct of strings, its error dropped: malformed text sets nothing, a value
    of another type is passed over. *)
Definition lastString (vs : list json) : string :=
  foldl (λ acc v, match v with JStr s => s | _ => acc end) "" vs.
Definition unmarshalStrings (names : list string) (data : string) (k : string) : string :=
  match json_parse data with Some (JObj ms) => lastString (values names k ms) | _ => "" end.
Definition PauseRequest_of (data : string) : PauseRequest :=
  let get := unmarshalStrings ["node_path"; "reason"] data in MkPauseRequest (get "node_path") (get "reason").
Definition CancelRequest_of (data : string) : CancelRequest :=
  MkCancelRequest (unmarshalStrings ["reason"] data "reason").

Definition CheckPauseCancel : prog (res sigErr (option PauseRequest * option CancelRequest)) :=
  readControlFile pauseFileName (λ p,
    readControlFile cancelFileName (λ c, Ret (Ok (PauseRequest_of <$> p, CancelRequest_of <$> c))) "read cancel") "read pause".

Definition ClearPauseCancel : prog (option sigErr) :=
  let clear f k := Do (Remove f) (λ r, match r with
                                       | Ok _ | Err ENotExist => k
                                       | Err e => Ret (Some (SCall "clear" f e))
                                       end) in
  clear pauseFileName (clear cancelFileName (Ret None)).
