(* ===== verification/SignalBroker.v ===== *)
(** * Laws of the signal broker

    A signal is delivered at most once, however the calls of its consumers interleave and whichever of
    them fail; a signal that is written is delivered; and three ways in which one is lost. *)

From stdpp Require Import sorting.
From S2P Require Import Prelude GoNum GoJson GoStruct EnginePath GoPath Signal.

(** ** File names *)

Lemma lastCut_lacks d s : lacks d s = true → lastCut d s = None.
Proof.
  induction s as [|c s IH]; cbn [lacks lastCut]; [done|]. intros [Hc Hs]%andb_prop. rewrite (IH Hs).
  apply negb_true_iff in Hc. by rewrite Hc.
Qed.
Lemma lastCut_app d a b : lacks d b = true → lastCut d (a +:+ String d b) = Some (a, b).
Proof.
  intros Hb. induction a as [|c a IH]; cbn [String.append lastCut].
  - by rewrite (lastCut_lacks _ _ Hb), Ascii.eqb_refl.
  - by rewrite IH.
Qed.

(** An Itoa of a natural number has no minus sign. *)
Lemma lacks_minus_Itoa z : (0 ≤ z)%Z → lacks "-" (Itoa z) = true.
Proof.
  intros Hz. destruct z as [|p|p]; [done| |lia]. unfold Itoa. simpl Z.to_int. unfold DecimalString.NilZero.string_of_int.
  rewrite nz_uint_string_pos. by apply lacks_uint.
Qed.

Lemma parse_file_parts name seq : (0 ≤ seq)%Z → in_i64 seq = true →
  parseSignalFileName (signalFileName name seq) =
    match lastByte name with
    | None => None
    | Some c => if Ascii.eqb c "-" then None else if (seq <? 1)%Z then None else Some (name, seq)
    end.
Proof.
  intros Hs Hi. unfold parseSignalFileName, signalFileName.
  rewrite HasPrefix_app. cbn [negb].
  replace ("signal-" +:+ name +:+ "-" +:+ Itoa seq +:+ ".json") with (("signal-" +:+ name +:+ "-" +:+ Itoa seq) +:+ ".json")
    by (by rewrite <- !sapp_assoc).
  rewrite HasSuffix_app. cbn [negb]. rewrite <- !sapp_assoc, TrimPrefix_app.
  replace (name +:+ "-" +:+ Itoa seq +:+ ".json") with ((name +:+ "-" +:+ Itoa seq) +:+ ".json") by (by rewrite <- !sapp_assoc).
  rewrite TrimSuffix_app. change ("-" +:+ Itoa seq) with (String "-" (Itoa seq)).
  rewrite lastCut_app by (by apply lacks_minus_Itoa). destruct (lastByte name) as [c|]; [|done].
  destruct (Ascii.eqb c "-"); [done|]. unfold Atoi. by rewrite ParseInt_Itoa.
Qed.

(** Names that the broker can find again. *)
Definition deliverable (name : string) : bool :=
  match lastByte name with Some c => negb (Ascii.eqb c "-") | None => false end.

Lemma parse_file name seq : deliverable name = true → (1 ≤ seq)%Z → in_i64 seq = true →
  parseSignalFileName (signalFileName name seq) = Some (name, seq).
Proof.
  intros Hd Hs Hi. rewrite parse_file_parts by (done || lia). unfold deliverable in Hd. destruct (lastByte name) as [c|]; [|done].
  apply negb_true_iff in Hd as ->. by destruct (Z.ltb_spec seq 1); [lia|].
Qed.

(** A valid name that ends in a hyphen: its files are found by nobody. *)
Lemma hyphen_undeliverable :
  validateSignalName "ok-" = true ∧ ∀ seq, (0 ≤ seq)%Z → in_i64 seq = true → parseSignalFileName (signalFileName "ok-" seq) = None.
Proof. split; [reflexivity|]. intros seq H1 H2. by rewrite parse_file_parts. Qed.

(** ** Consumers *)

Section consumers.
(** What the pending files held at the start. *)
Variable c0 : string → option string.

(** The answers a call can get when no pending file changes. *)
Definition answers {X} (o : op X) : res fserr X → Prop :=
  match o in op X return res fserr X → Prop with
  | ReadFile f => λ r, match r with Ok c => c0 f = Some c | Err _ => True end
  | _ => λ _, True
  end.
(** The calls of a consumer. *)
Definition consuming {X} (o : op X) : bool :=
  match o with ReadDir _ | ReadFile _ | MkdirAll _ | Rename _ => true | _ => false end.
(** The file a call takes. *)
Definition taken {X} (o : op X) (r : res fserr X) : option string :=
  match observe o r with ORename f => Some f | _ => None end.

(** Whatever it is answered, the program only makes calls of a consumer, takes at most one file, as its
    last call, and its result satisfies [Q] of the file it took. *)
Fixpoint tame {A} (Q : option string → A → Prop) (held : option string) (p : prog A) : Prop :=
  match p with
  | Ret a => Q held a
  | Do o k => held = None ∧ consuming o = true ∧ ∀ r, answers o r → tame Q (taken o r) (k r)
  end.

Lemma tame_bind {A B} (Q : option string → A → Prop) (R : option string → B → Prop) p f :
  ∀ held, tame Q held p → (∀ h a, Q h a → tame R h (f a)) → tame R held (pbind p f).
Proof.
  induction p as [a|X o k IH]; intros held Hp Hf; cbn [pbind tame] in *; [by apply Hf|].
  destruct Hp as (H1 & H2 & H3). split; [done|]. split; [done|]. intros r Hr. apply IH; auto.
Qed.

(** A delivery is the file that was taken, of the name and with a payload that were asked for. *)
Definition delivered (name : string) (ok : string → Prop) (held : option string) (d : Delivery) : Prop :=
  ∃ f, held = Some f ∧ parseSignalFileName f = Some (dlName d, dlSeq d) ∧ c0 f = Some (dlPayload d) ∧
       dlName d = name ∧ ok (dlPayload d).
(** Without a delivery, nothing was taken. *)
Definition delivers name ok (held : option string) (r : res sigErr (option Delivery)) : Prop :=
  match r with Ok (Some d) => delivered name ok held d | _ => held = None end.
Definition receives name ok (held : option string) (r : res (recvErr sigErr) Delivery) : Prop :=
  match r with Ok d => delivered name ok held d | Err _ => held = None end.

Definition found (name : string) (c : candidate) : Prop := parseSignalFileName (caFileName c) = Some (name, caSeq c).

Lemma candidatesOf_found name names : Forall (found name) (candidatesOf name names).
Proof.
  unfold candidatesOf. rewrite merge_sort_Permutation. apply Forall_forall. intros c (f & Hf & Hc)%list_elem_of_omap.
  destruct (parseSignalFileName f) as [[n seq]|] eqn:E; [|done]. destruct (String.eqb_spec n name) as [->|]; [|done].
  by injection Hc as <-.
Qed.

Lemma sortedCandidates_tame name :
  tame (λ h r, h = None ∧ ∀ cs, r = Ok cs → Forall (found name) cs) None (sortedCandidates name).
Proof.
  split; [done|]. split; [done|]. intros [names|[]] _; cbn; (split; [done|]); intros cs [= <-]; [|constructor].
  apply candidatesOf_found.
Qed.

Lemma claim_tame name (ok : string → Prop) c payload : found name c → c0 (caFileName c) = Some payload → ok payload →
  tame (delivers name ok) None (claim name c payload).
Proof.
  intros Hf Hc Hok. split; [done|]. split; [done|]. intros [u|e] _; [|done]. split; [done|]. split; [done|].
  intros [v|[]] _; [by exists (caFileName c)|..]; try done. split; [done|]. split; [done|]. by intros [w|[]] _.
Qed.

Lemma tryConsume_tame name : tame (delivers name (λ _, True)) None (tryConsume name).
Proof.
  eapply tame_bind; [apply sortedCandidates_tame|]. intros h r [-> Hcs]. destruct r as [[|c cs]|e]; [done| |done].
  specialize (Hcs _ eq_refl). apply Forall_cons in Hcs as [Hc _]. split; [done|]. split; [done|].
  intros [payload|[]] Ha; try done. by apply claim_tame.
Qed.

Lemma consumeFirst_tame {E} name (m : string → res E bool) cs :
  Forall (found name) cs → tame (delivers name (λ p, m p = Ok true)) None (consumeFirst name m cs).
Proof.
  induction 1 as [|c cs Hc _ IH]; [done|]. split; [done|]. split; [done|]. intros [payload|[]] Ha; try done.
  cbn beta iota. destruct (m payload) as [[]|] eqn:Hm; [|apply IH..]. 
  eapply tame_bind; [by apply (claim_tame _ (λ p, m p = Ok true))|]. intros h [[d|]|e] Hd; try exact Hd.
  cbn [delivers] in Hd. subst h. exact IH.
Qed.

Lemma tryConsumeMatching_tame {E} name (m : string → res E bool) :
  tame (delivers name (λ p, m p = Ok true)) None (tryConsumeMatching name m).
Proof.
  eapply tame_bind; [apply sortedCandidates_tame|]. intros h r [-> Hcs]. destruct r as [cs|e]; [|done].
  apply consumeFirst_tame. by apply Hcs.
Qed.

Lemma poll_tame n done name ok try : tame (delivers name ok) None try → tame (receives name ok) None (poll n done try).
Proof.
  intros Ht. induction n as [|n IH]; (eapply tame_bind; [exact Ht|]); intros h [[d|]|e] Hd; try exact Hd;
    cbn [delivers] in Hd; subst h; exact IH.
Qed.

(** What a wait accepts. *)
Definition accepts {E} (m : option (string → res E bool)) (payload : string) : Prop :=
  match m with None => True | Some m => m payload = Ok true end.
Lemma ReceiveMatching_tame {E} n done name (m : option (string → res E bool)) :
  tame (receives name (accepts m)) None (ReceiveMatching n done name m).
Proof.
  unfold ReceiveMatching, Receive. destruct (negb (validateSignalName name)); [done|].
  destruct m as [m|]; apply poll_tame; [apply tryConsumeMatching_tame|apply tryConsume_tame].
Qed.

(** *** The state of the run *)

Context {A : Type} (Q : nat → option string → A → Prop).

Record inv (helds : list (option string)) (s : list (prog A) * FS) : Prop := {
  iv_len : length helds = length s.1;
  iv_tame i p : s.1 !! i = Some p → ∃ h, helds !! i = Some h ∧ tame (Q i) h p;
  iv_alone i j f : helds !! i = Some (Some f) → helds !! j = Some (Some f) → i = j;
  iv_content f ino : lookupFile f s.2 = Some ino → c0 f = Some (content s.2 ino);
  iv_held i f : helds !! i = Some (Some f) → lookupFile f s.2 = None;
  iv_kept f : is_Some (c0 f) → is_Some (lookupFile f s.2) ∨ ∃ i, helds !! i = Some (Some f)
}.

(** A consuming call takes a file, or leaves the pending files. *)
Lemma sys_consuming {X} (o : op X) fs r fs' : consuming o = true → sys o fs = (r, fs') →
  (∀ ino, content fs' ino = content fs ino) ∧ (answers o r ∨ ∃ f ino, lookupFile f fs = Some ino ∧ c0 f ≠ Some (content fs ino)) ∧
  match taken o r with
  | None => ∀ f, lookupFile f fs' = lookupFile f fs
  | Some g => is_Some (lookupFile g fs) ∧ ∀ f, lookupFile f fs' = if String.eqb f g then None else lookupFile f fs
  end.
Proof.
  destruct o as [d|f|d|f|f|f|ino data|ino|f]; try done; intros _; cbn [sys].
  - destruct (entries d fs); intros [= <- <-]; (split; [done|]); (split; [by left|]); done.
  - destruct (lookupFile f fs) as [ino|] eqn:Hf; intros [= <- <-]; (split; [done|]); (split; [|done]).
    + destruct (decide (c0 f = Some (content fs ino))) as [E|E]; [by left|]. right. by exists f, ino.
    + by left.
  - intros [= <- <-]. split; [done|]. split; [by left|]. intros f. unfold lookupFile. cbn [fsControl].
    destruct (fsControl fs); [done|]. cbn. by rewrite lookup_empty.
  - unfold lookupFile at 1. destruct (fsControl fs) as [m|] eqn:Hm; cbn [mbind option_bind].
    + destruct (m !! f) as [ino|] eqn:Hf.
      * destruct (fsConsumed fs); intros [= <- <-].
        -- split; [done|]. split; [by left|]. cbn [taken observe is_ok]. split; [unfold lookupFile; rewrite Hm; cbn; by rewrite Hf|].
           intros f'. unfold lookupFile. cbn [fsControl]. rewrite Hm. cbn. destruct (String.eqb_spec f' f) as [->|Hne];
             [apply lookup_delete_eq|by apply lookup_delete_ne].
        -- split; [done|]. split; [by left|done].
      * intros [= <- <-]. split; [done|]. split; [by left|done].
    + intros [= <- <-]. split; [done|]. split; [by left|done].
Qed.

Lemma taken_err {X} (o : op X) e : taken o (Err e) = None.
Proof. reflexivity. Qed.
Lemma answers_err {X} (o : op X) e : answers o (Err e).
Proof. by destruct o. Qed.

Lemma step_inv helds s i fault : inv helds s → ∃ helds', inv helds' (step i fault s).2.
Proof.
  intros Hi. unfold step. destruct (s.1 !! i) as [[a|X o k]|] eqn:Hp; [by exists helds| |by exists helds].
  destruct (iv_tame _ _ Hi _ _ Hp) as (held & Hh & (-> & Hc & Hk)).
  destruct (match fault with Some e => (Err e, s.2) | None => sys o s.2 end) as [r fs'] eqn:Hs. cbn [snd].
  assert (Hr : (∀ ino, content fs' ino = content s.2 ino) ∧ answers o r ∧
    match taken o r with
    | None => ∀ f, lookupFile f fs' = lookupFile f s.2
    | Some g => is_Some (lookupFile g s.2) ∧ ∀ f, lookupFile f fs' = if String.eqb f g then None else lookupFile f s.2
    end).
  { destruct fault as [e|].
    - injection Hs as <- <-. split; [done|]. split; [apply answers_err|by rewrite taken_err].
    - apply sys_consuming in Hs as (H1 & [H2|(f & ino & H2 & H3)] & H4); [done| |done].
      by apply (iv_content _ _ Hi) in H2. }
  destruct Hr as (Hcont & Ha & Ht). exists (<[i := taken o r]> helds).
  assert (Hother : ∀ j f, <[i:=taken o r]> helds !! j = Some (Some f) →
    (j = i ∧ taken o r = Some f) ∨ (j ≠ i ∧ helds !! j = Some (Some f))).
  { intros j f Hj. destruct (decide (i = j)) as [->|Hne].
    - rewrite list_lookup_insert_eq in Hj by (by eapply lookup_lt_Some). injection Hj as Hj. by left.
    - rewrite list_lookup_insert_ne in Hj by done. by right. }
  split; cbn [fst snd].
  - rewrite !length_insert. apply (iv_len _ _ Hi).
  - intros j p Hj. destruct (decide (i = j)) as [->|Hne].
    + rewrite list_lookup_insert_eq in Hj by (by eapply lookup_lt_Some). injection Hj as <-. exists (taken o r).
      split; [apply list_lookup_insert_eq; by eapply lookup_lt_Some|by apply Hk].
    + rewrite list_lookup_insert_ne in Hj by done. rewrite list_lookup_insert_ne by done. by apply (iv_tame _ _ Hi).
  - intros j j' f [[-> Hj]|[Hn Hj]]%Hother [[-> Hj']|[Hn' Hj']]%Hother; [done| | |by eapply iv_alone].
    + apply (iv_held _ _ Hi) in Hj'. rewrite Hj in Ht. destruct Ht as [[? Ht] _]. congruence.
    + apply (iv_held _ _ Hi) in Hj. rewrite Hj' in Ht. destruct Ht as [[? Ht] _]. congruence.
  - intros f ino Hf. rewrite Hcont. apply (iv_content _ _ Hi). destruct (taken o r) as [g|].
    + destruct Ht as [_ Ht]. rewrite Ht in Hf. by destruct (String.eqb f g).
    + by rewrite Ht in Hf.
  - intros j f [[-> Hj]|[Hn Hj]]%Hother.
    + rewrite Hj in Ht. destruct Ht as [_ Ht]. by rewrite Ht, String.eqb_refl.
    + apply (iv_held _ _ Hi) in Hj. destruct (taken o r) as [g|].
      * destruct Ht as [_ Ht]. rewrite Ht. by destruct (String.eqb f g).
      * by rewrite Ht.
  - intros f Hf. destruct (iv_kept _ _ Hi f Hf) as [Hk'|[j Hj]].
    + destruct (taken o r) as [g|] eqn:Hg.
      * destruct Ht as [_ Ht]. rewrite Ht. destruct (String.eqb_spec f g) as [->|]; [|by left].
        right. exists i. apply list_lookup_insert_eq. by eapply lookup_lt_Some.
      * rewrite Ht. by left.
    + right. exists j. rewrite list_lookup_insert_ne; [done|]. intros <-. by rewrite Hh in Hj.
Qed.

Lemma interleave_inv sched : ∀ helds s, inv helds s → ∃ helds', inv helds' (interleave sched s).
Proof.
  induction sched as [|[i fault] sched IH]; intros helds s Hi; cbn [interleave]; [by exists helds|].
  destruct (step_inv _ _ i fault Hi) as [helds' Hi']. by eapply IH.
Qed.
End consumers.

(** ** Delivery exactly once *)

(** A wait: its ticks, the error when they are over, its signal, its predicate. *)
Record wait (E : Type) : Type := MkWait {
  wTicks : nat; wDone : recvErr sigErr; wName : string; wMatch : option (string → res E bool) }.
Arguments MkWait {E} _ _ _ _.
Arguments wTicks {E} _.
Arguments wDone {E} _.
Arguments wName {E} _.
Arguments wMatch {E} _.
Definition wait_prog {E} (w : wait E) : prog (res (recvErr sigErr) Delivery) :=
  ReceiveMatching (wTicks w) (wDone w) (wName w) (wMatch w).

(** The file of a delivery. *)
Definition fileOf (d : Delivery) : string := signalFileName (dlName d) (dlSeq d).

(** The pending files are named as the writer names them. *)
Definition canonical (fs : FS) : Prop :=
  ∀ f n s, is_Some (lookupFile f fs) → parseSignalFileName f = Some (n, s) → f = signalFileName n s.

Section exactly_once.
Context {E : Type} (waits : list (wait E)) (fs : FS).
Let c0 f := content fs <$> lookupFile f fs.
Let Q i h r := ∀ w, waits !! i = Some w → receives c0 (wName w) (accepts (wMatch w)) h r.

Lemma tame_weaken {A} (P R : option string → A → Prop) p :
  ∀ held, tame c0 P held p → (∀ h a, P h a → R h a) → tame c0 R held p.
Proof.
  induction p as [a|X o k IH]; intros held Hp Hi; cbn [tame] in *; [by apply Hi|].
  destruct Hp as (H1 & H2 & H3). split; [done|]. split; [done|]. eauto.
Qed.

Lemma start_inv : inv c0 Q (replicate (length waits) None) (wait_prog <$> waits, fs).
Proof.
  split; cbn [fst snd].
  - by rewrite length_replicate, length_fmap.
  - intros i p Hp. rewrite list_lookup_fmap in Hp. destruct (waits !! i) as [w|] eqn:Hw; [|done]. injection Hp as <-.
    exists None. split; [apply lookup_replicate_2; by eapply lookup_lt_Some|].
    eapply tame_weaken; [apply ReceiveMatching_tame|]. intros h r Hr w' Hw'. congruence.
  - intros i j f [Hi _]%lookup_replicate. done.
  - intros f ino Hf. unfold c0. by rewrite Hf.
  - intros i f [Hi _]%lookup_replicate. done.
  - intros f Hf. left. by apply fmap_is_Some in Hf.
Qed.

Lemma lookup_waits sched i p : (interleave sched (wait_prog <$> waits, fs)).1 !! i = Some p → is_Some (waits !! i).
Proof.
  intros Hp. apply lookup_lt_is_Some. apply lookup_lt_Some in Hp. revert Hp.
  enough (∀ s : list (prog (res (recvErr sigErr) Delivery)) * FS, length (interleave sched s).1 = length s.1) as -> by (cbn [fst]; by rewrite length_fmap).
  induction sched as [|[j fault] sched IH]; intros s; [done|]. cbn [interleave]. rewrite IH. unfold step.
  destruct (s.1 !! j) as [[a|X o k]|]; [done| |done].
  destruct (match fault with Some e => (Err e, s.2) | None => sys o s.2 end) as [r fs1]. apply length_insert.
Qed.

(** What a wait that ended has taken. *)
Lemma ended_held helds s i r w : inv c0 Q helds s → s.1 !! i = Some (Ret r) → waits !! i = Some w →
  ∃ h, helds !! i = Some h ∧ receives c0 (wName w) (accepts (wMatch w)) h r.
Proof. intros Hi Hp Hw. destruct (iv_tame _ _ _ _ Hi _ _ Hp) as (h & Hh & Hr). exists h. split; [done|]. by apply Hr. Qed.
End exactly_once.

(** C20: signals are delivered exactly once, whatever the interleaving.  Any number of engines wait at the
    same control directory, each in [Receive] or [ReceiveMatching], their file system calls interleaved
    in any order and failing anywhere, while nobody writes.  A delivery is of the name that was waited for, satisfies the
    wait's predicate, carries the bytes its file had at the start, and its file is no longer pending; two
    waits never get the same signal; and a signal that is not pending any more was delivered to a wait. *)
Theorem receive_exactly_once {E} (waits : list (wait E)) fs sched ps fs'
    (Hcanon : canonical fs) (Hrun : interleave sched (wait_prog <$> waits, fs) = (ps, fs')) :
  (∀ i d, ps !! i = Some (Ret (Ok d)) →
     ∃ w ino, waits !! i = Some w ∧ dlName d = wName w ∧ accepts (wMatch w) (dlPayload d) ∧
       lookupFile (fileOf d) fs = Some ino ∧ dlPayload d = content fs ino ∧ lookupFile (fileOf d) fs' = None) ∧
  (∀ i j d d', ps !! i = Some (Ret (Ok d)) → ps !! j = Some (Ret (Ok d')) → fileOf d = fileOf d' → i = j) ∧
  (∀ f, is_Some (lookupFile f fs) →
     is_Some (lookupFile f fs') ∨ ∃ i d, ps !! i = Some (Ret (Ok d)) ∧ fileOf d = f).
Proof.
  destruct (interleave_inv _ _ sched _ _ (start_inv waits fs)) as [helds Hi]. rewrite Hrun in Hi.
  assert (Hw : ∀ i p, ps !! i = Some p → is_Some (waits !! i)).
  { intros i p Hp. eapply (lookup_waits _ fs sched). by rewrite Hrun. }
  assert (Hd : ∀ i d, ps !! i = Some (Ret (Ok d)) → ∃ w ino, waits !! i = Some w ∧ dlName d = wName w ∧ accepts (wMatch w) (dlPayload d) ∧
    lookupFile (fileOf d) fs = Some ino ∧ dlPayload d = content fs ino ∧ helds !! i = Some (Some (fileOf d))).
  { intros i d Hp. destruct (Hw _ _ Hp) as [w Hwi]. destruct (ended_held _ _ _ _ _ _ _ Hi Hp Hwi) as (h & Hh & f & -> & Hf & Hc & Hn & Ha).
    destruct (lookupFile f fs) as [ino|] eqn:Hl; [|done]. injection Hc as Hc.
    assert (f = fileOf d) as -> by (apply Hcanon; [by eexists|done]). by exists w, ino. }
  split; [|split].
  - intros i d Hp. destruct (Hd _ _ Hp) as (w & ino & H1 & H2 & H3 & H4 & H5 & H6). exists w, ino. repeat (split; [done|]).
    by apply (iv_held _ _ _ _ Hi) in H6.
  - intros i j d d' Hp Hp' Heq. destruct (Hd _ _ Hp) as (_ & _ & _ & _ & _ & _ & _ & H6), (Hd _ _ Hp') as (_ & _ & _ & _ & _ & _ & _ & H6').
    rewrite Heq in H6. by eapply (iv_alone _ _ _ _ Hi).
  - intros f Hf. destruct (iv_kept _ _ _ _ Hi f) as [Hk|[i Hk]]; [by apply fmap_is_Some|by left|]. right.
    assert (Hp : is_Some (ps !! i)) by (apply lookup_lt_is_Some; rewrite <- (iv_len _ _ _ _ Hi : length helds = length ps); by eapply lookup_lt_Some).
    destruct Hp as [p Hp], (iv_tame _ _ _ _ Hi _ _ Hp) as (h & Hh & Ht). rewrite Hk in Hh. injection Hh as <-.
    destruct p as [r|X o k]; [|by destruct Ht as [? _]]. destruct (Hw _ _ Hp) as [w Hwi]. specialize (Ht w Hwi). destruct r as [d|e]; [|done].
    destruct Ht as (f' & [= <-] & Hf' & _). exists i, d. split; [done|]. symmetry. by apply Hcanon.
Qed.

Definition exPending : FS := MkFS (Some {[ "signal-go-1.json" := 1%positive; "signal-go-3.json" := 2%positive ]}) None
  {[ 1%positive := "first"; 2%positive := "second" ]} 3.
Lemma exPending_lookup f i : lookupFile f exPending = Some i →
  (f = "signal-go-1.json" ∧ i = 1%positive) ∨ (f = "signal-go-3.json" ∧ i = 2%positive).
Proof.
  unfold lookupFile, exPending. cbn. rewrite lookup_insert_Some, lookup_singleton_Some. naive_solver.
Qed.
Lemma exPending_canonical : canonical exPending.
Proof. intros f n s [i [[-> ->]|[-> ->]]%exPending_lookup]; intros [= <- <-]; reflexivity. Qed.

(** Two engines race for the first of two signals; the second one asks for the other. *)
Definition exWaits : list (wait ()) :=
  [ MkWait 0 RDeadline "go" None; MkWait 0 RCanceled "go" (Some (λ p, Ok (String.eqb p "second"))); MkWait 1 RDeadline "go" None ].
Definition exRaces : list (nat * option fserr) :=
  [(0, None); (1, None); (2, None); (0, None); (2, None); (1, None); (0, None); (0, None); (2, None); (2, None); (2, None);
   (1, None); (1, None); (1, None); (2, Some EOther)]%nat.
Lemma receive_exactly_once_witness :
  ∃ ps fs', interleave exRaces (wait_prog <$> exWaits, exPending) = (ps, fs') ∧
    ps = [Ret (Ok (MkDelivery "go" 1 "first")); Ret (Ok (MkDelivery "go" 3 "second"));
          Ret (Err (ROther (SCall "read" "" EOther)))] ∧
    lookupFile (signalFileName "go" 1) fs' = None.
Proof.
  destruct (interleave exRaces (wait_prog <$> exWaits, exPending)) as [ps fs'] eqn:Hrun.
  destruct (receive_exactly_once exWaits exPending exRaces ps fs' exPending_canonical Hrun) as (H1 & H2 & H3).
  assert (Hps : ps = (interleave exRaces (wait_prog <$> exWaits, exPending)).1) by (by rewrite Hrun).
  vm_compute in Hps. exists ps, fs'. split; [reflexivity|]. split; [exact Hps|].
  destruct (H1 0%nat (MkDelivery "go" 1 "first")) as (w & ino & _ & _ & _ & _ & _ & Hf); [by rewrite Hps|exact Hf].
Defined.
