(* ===== verification/SignalQueue.v ===== *)
(** * The broker as a FIFO queue

    Run one after the other, the broker's operations implement a queue per signal name: [WriteSignal]
    appends, with a sequence number greater than every one that was given before, and [Receive] takes
    the head. *)

From stdpp Require Import sorting.
From S2P Require Import Prelude GoNum GoJson GoStruct EnginePath GoPath Signal SignalBroker.

Lemma exec_bind {A B} (p : prog A) (f : A → prog B) fs : exec (pbind p f) fs = exec (f (exec p fs).1) (exec p fs).2.
Proof. revert fs. induction p as [a|X o k IH]; intros fs; cbn [pbind exec]; [done|]. destruct (sys o fs). apply IH. Qed.

(** ** The abstraction *)

(** The names of the files of a directory, as [os.ReadDir] gives them. *)
Definition names (d : dir) (fs : FS) : list string :=
  match entries d fs with None => [] | Some m => sort_strings (elements (dom m)) end.

(** The signals of [name] that are pending: sequence numbers and payloads, in order. *)
Definition queue (name : string) (fs : FS) : list (Z * string) :=
  (λ c, (caSeq c, default "" (content fs <$> lookupFile (caFileName c) fs))) <$> candidatesOf name (names Control fs).

(** What the broker keeps of its directory: the names are the writer's, and the inodes were handed out. *)
Record Wf (fs : FS) : Prop := {
  wf_canonical : canonical fs;
  wf_inodes f i : lookupFile f fs = Some i → (i < fsNext fs)%positive
}.

(** ** Candidates *)

#[local] Instance cand_le_trans : Transitive cand_le.
Proof. intros a b c. unfold cand_le. lia. Qed.
#[local] Instance cand_le_total : Total cand_le.
Proof. intros a b. unfold cand_le. lia. Qed.

Definition candOf (name f : string) : option candidate :=
  match parseSignalFileName f with
  | Some (n, seq) => if String.eqb n name then Some (MkCandidate seq f) else None
  | None => None
  end.
Lemma candidatesOf_eq name l : candidatesOf name l = merge_sort cand_le (omap (candOf name) l).
Proof. reflexivity. Qed.
Lemma candOf_found name f c : candOf name f = Some c → caFileName c = f ∧ found name c.
Proof.
  unfold candOf, found. destruct (parseSignalFileName f) as [[n seq]|] eqn:E; [|done].
  destruct (String.eqb_spec n name) as [->|]; [|done]. by intros [= <-].
Qed.
Lemma candidatesOf_in name l c : c ∈ candidatesOf name l → caFileName c ∈ l ∧ found name c.
Proof.
  rewrite candidatesOf_eq, merge_sort_Permutation. intros (f & Hf & Hc)%list_elem_of_omap.
  by apply candOf_found in Hc as [-> Hc].
Qed.

(** Names in the writer's form. *)
Definition canonical_names (l : list string) : Prop :=
  ∀ f n s, f ∈ l → parseSignalFileName f = Some (n, s) → f = signalFileName n s.

(** Sorted candidates are determined by their files. *)
Lemma candidatesOf_unique name l cs : canonical_names l → StronglySorted cand_le cs → cs ≡ₚ omap (candOf name) l →
  candidatesOf name l = cs.
Proof.
  intros Hc Hs Hp. apply (StronglySorted_unique_strong cand_le); [|apply StronglySorted_merge_sort; apply _|done|].
  - intros a b Ha Hb Hab Hba. rewrite Hp in Hb. apply candidatesOf_in in Ha as [Hfa Ha].
    apply list_elem_of_omap in Hb as (f & Hf & [Hfb Hb]%candOf_found). subst f.
    assert (caSeq a = caSeq b) by (unfold cand_le in *; lia). apply Hc in Ha, Hb; [|done..].
    destruct a, b. cbn in *. congruence.
  - by rewrite candidatesOf_eq, merge_sort_Permutation.
Qed.
Lemma candidatesOf_perm name l l' : canonical_names l → l ≡ₚ l' → candidatesOf name l = candidatesOf name l'.
Proof.
  intros Hc Hp. apply candidatesOf_unique; [done|apply StronglySorted_merge_sort; apply _|].
  by rewrite candidatesOf_eq, merge_sort_Permutation, Hp.
Qed.

(** A new greatest number goes last. *)
Lemma candidatesOf_snoc name l f seq : canonical_names (f :: l) → parseSignalFileName f = Some (name, seq) →
  (∀ c, c ∈ candidatesOf name l → (caSeq c < seq)%Z) →
  candidatesOf name (f :: l) = candidatesOf name l ++ [MkCandidate seq f].
Proof.
  intros Hc Hf Hmax. apply candidatesOf_unique; [done| |].
  - apply StronglySorted_app_2; [|apply StronglySorted_merge_sort; apply _|repeat constructor].
    intros a b Ha ->%list_elem_of_singleton. unfold cand_le. cbn. specialize (Hmax a Ha). lia.
  - rewrite candidatesOf_eq, merge_sort_Permutation. cbn [omap list_omap]. unfold candOf at 2. rewrite Hf, String.eqb_refl.
    by rewrite Permutation_app_comm.
Qed.
Lemma candidatesOf_other name l f : match candOf name f with None => True | _ => False end →
  candidatesOf name (f :: l) = candidatesOf name l.
Proof. rewrite !candidatesOf_eq. cbn [omap list_omap]. by destruct (candOf name f). Qed.

(** ** Sequence numbers *)

Lemma maxSeq_spec name l : ∀ acc, (acc ≤ maxSeq name l acc)%Z ∧
  (∀ f s, f ∈ l → parseSignalFileName f = Some (name, s) → (s ≤ maxSeq name l acc)%Z) ∧
  (maxSeq name l acc = acc ∨ ∃ f, f ∈ l ∧ parseSignalFileName f = Some (name, maxSeq name l acc)).
Proof.
  unfold maxSeq. induction l as [|g l IH]; intros acc; cbn [foldl].
  { split; [lia|]. split; [|by left]. intros f s []%not_elem_of_nil. }
  set (acc' := match parseSignalFileName g with Some (n, seq) => if String.eqb n name && (acc <? seq)%Z then seq else acc | None => acc end).
  destruct (IH acc') as (H1 & H2 & H3).
  assert (Hacc : (acc ≤ acc')%Z ∧ (∀ s, parseSignalFileName g = Some (name, s) → (s ≤ acc')%Z) ∧
                 (acc' = acc ∨ parseSignalFileName g = Some (name, acc'))).
  { subst acc'. destruct (parseSignalFileName g) as [[n seq]|]; [|split; [lia|]; split; [done|by left]].
    destruct (String.eqb_spec n name) as [->|Hn]; cbn [andb].
    - destruct (Z.ltb_spec acc seq); (split; [lia|]); (split; [intros s [= <-]; lia|]); [by right|by left].
    - split; [lia|]. split; [|by left]. intros s [= H _]. by destruct Hn. }
  destruct Hacc as (H4 & H5 & H6). split; [lia|]. split.
  - intros f s [->|Hf]%elem_of_cons Hp; [specialize (H5 s Hp); lia|by apply (H2 f)].
  - destruct H3 as [H3|(f & Hf & H3)]; [|right; exists f; by split; [right|]].
    rewrite H3. destruct H6 as [->|H6]; [by left|]. right. exists g. by split; [left|].
Qed.

Definition nextSeqOf (name : string) (fs : FS) : Z :=
  (maxSeq name (names Consumed fs) (maxSeq name (names Control fs) 0) + 1)%Z.

Lemma nextSeq_exec name fs : exec (nextSeq name) fs = (Ok (wrap_i64 (nextSeqOf name fs)), fs).
Proof.
  unfold nextSeq, nextSeqIn, nextSeqOf, names. cbn [exec sys]. destruct (entries Control fs); cbn [exec sys];
    destruct (entries Consumed fs); reflexivity.
Qed.

(** ** Files *)

Lemma elem_of_names f fs : f ∈ names Control fs ↔ is_Some (lookupFile f fs).
Proof.
  unfold names, lookupFile. cbn [entries]. destruct (fsControl fs) as [m|]; cbn.
  - by rewrite sort_strings_perm, elem_of_elements, elem_of_dom.
  - split; [by intros []%not_elem_of_nil|by intros [? ?]].
Qed.
Lemma canonical_names_of fs : canonical fs → canonical_names (names Control fs).
Proof. intros Hc f n s Hf. by apply Hc, elem_of_names. Qed.

Lemma names_insert fs fs' f i m : fsControl fs = Some m → fsControl fs' = Some (<[f := i]> m) → m !! f = None →
  names Control fs' ≡ₚ f :: names Control fs.
Proof.
  intros Hm Hm' Hf. unfold names. cbn [entries]. rewrite Hm, Hm', !sort_strings_perm, dom_insert_L.
  apply elements_union_singleton. by apply not_elem_of_dom.
Qed.
Lemma names_delete fs fs' f i m : fsControl fs = Some m → fsControl fs' = Some (delete f m) → m !! f = Some i →
  names Control fs ≡ₚ f :: names Control fs'.
Proof.
  intros Hm Hm' Hf. apply (names_insert _ _ f i (delete f m)); [done| |apply lookup_delete_eq].
  by rewrite insert_delete_id.
Qed.

(** The queue only looks at the files of its name. *)
Lemma queue_ext name fs fs' : candidatesOf name (names Control fs') = candidatesOf name (names Control fs) →
  (∀ c, c ∈ candidatesOf name (names Control fs) → content fs' <$> lookupFile (caFileName c) fs' = content fs <$> lookupFile (caFileName c) fs) →
  queue name fs' = queue name fs.
Proof.
  intros Hc Hl. unfold queue. rewrite Hc. apply list_fmap_ext. intros i c Hi. f_equal. f_equal. apply Hl. by eapply list_elem_of_lookup_2.
Qed.

Lemma nextSeqOf_spec name fs : (1 ≤ nextSeqOf name fs)%Z ∧
  ∀ c, c ∈ candidatesOf name (names Control fs) → (caSeq c < nextSeqOf name fs)%Z.
Proof.
  unfold nextSeqOf. destruct (maxSeq_spec name (names Control fs) 0) as (H1 & H2 & _).
  destruct (maxSeq_spec name (names Consumed fs) (maxSeq name (names Control fs) 0)) as (H3 & _ & _).
  split; [lia|]. intros c [Hf Hc]%candidatesOf_in. specialize (H2 _ _ Hf Hc). lia.
Qed.

(** ** Writing *)

(** The directory with one more signal. *)
Definition withSignal (f payload : string) (m : gmap string positive) (fs : FS) : FS :=
  MkFS (Some (<[f := fsNext fs]> m)) (fsConsumed fs) (<[fsNext fs := payload]> (fsData fs)) (Pos.succ (fsNext fs)).

Section writing.
Context (name payload : string) (fs : FS) (m : gmap string positive).
Hypothesis Hm : fsControl fs = Some m.
Hypothesis Hname : deliverable name = true.
Hypothesis Hroom : (nextSeqOf name fs < two63)%Z.
Let seq := nextSeqOf name fs.
Let f := signalFileName name seq.

Lemma next_parses : parseSignalFileName f = Some (name, seq).
Proof.
  subst f seq. destruct (nextSeqOf_spec name fs) as [H _]. apply parse_file; [done|done|].
  unfold in_i64, two63 in *. rewrite andb_true_iff, Z.leb_le, Z.ltb_lt. lia.
Qed.
Lemma next_free : m !! f = None.
Proof.
  destruct (m !! f) as [i|] eqn:Hf; [|done]. exfalso. destruct (nextSeqOf_spec name fs) as [_ H].
  assert (Hc : MkCandidate seq f ∈ candidatesOf name (names Control fs)).
  { rewrite candidatesOf_eq, merge_sort_Permutation. apply list_elem_of_omap. exists f.
    split; [|unfold candOf; by rewrite next_parses, String.eqb_refl].
    apply elem_of_names. unfold lookupFile. rewrite Hm. exists i. exact Hf. }
  specialize (H _ Hc). cbn in H. subst seq. lia.
Qed.

Lemma writeOnce_exec : exec (writeOnce name payload) fs = (Some (Ok seq), withSignal f payload m fs).
Proof.
  unfold writeOnce. rewrite exec_bind, nextSeq_exec. cbn [fst snd].
  rewrite wrap_i64_id by (destruct (nextSeqOf_spec name fs) as [H _]; unfold two63 in *; lia).
  pose proof next_free as Hf. unfold f, seq in Hf |- *. cbn [exec sys]. rewrite Hm, Hf. cbn [exec sys fsControl fsConsumed fsData fsNext]. unfold withSignal.
  unfold content. cbn [fsData]. by rewrite lookup_insert_eq, insert_insert_eq.
Qed.

Lemma withSignal_lookup g : lookupFile g (withSignal f payload m fs) = if decide (g = f) then Some (fsNext fs) else lookupFile g fs.
Proof.
  unfold lookupFile. rewrite Hm. cbn [withSignal fsControl mbind option_bind].
  destruct (decide (g = f)) as [->|Hg]; [apply lookup_insert_eq|by apply lookup_insert_ne].
Qed.

Hypothesis Hwf : Wf fs.

Lemma withSignal_Wf : Wf (withSignal f payload m fs).
Proof.
  split.
  - intros g n s. rewrite withSignal_lookup. destruct (decide (g = f)) as [->|]; [|apply (wf_canonical _ Hwf)].
    rewrite next_parses. intros _ [= <- <-]. reflexivity.
  - intros g i. rewrite withSignal_lookup. cbn [withSignal fsNext]. destruct (decide (g = f)) as [->|].
    + intros [= <-]. lia.
    + intros H%(wf_inodes _ Hwf). lia.
Qed.

(** The content of another file is not touched. *)
Lemma withSignal_old g : g ∈ names Control fs →
  content (withSignal f payload m fs) <$> lookupFile g (withSignal f payload m fs) = content fs <$> lookupFile g fs.
Proof.
  intros Hg%elem_of_names. rewrite withSignal_lookup. destruct (decide (g = f)) as [->|_].
  - unfold lookupFile in Hg. rewrite Hm in Hg. destruct Hg as [i Hg]. pose proof next_free. change (m !! f = Some i) in Hg. congruence.
  - destruct (lookupFile g fs) as [i|] eqn:Hi; [|done]. apply (wf_inodes _ Hwf) in Hi. cbn. unfold content, withSignal. cbn [fsData].
    rewrite lookup_insert_ne; [done|lia].
Qed.

Lemma withSignal_queue : queue name (withSignal f payload m fs) = queue name fs ++ [(seq, payload)].
Proof.
  pose proof (names_insert fs (withSignal f payload m fs) f _ m Hm eq_refl next_free) as Hn.
  pose proof (canonical_names_of _ (wf_canonical _ withSignal_Wf)) as Hc.
  unfold queue. rewrite (candidatesOf_perm _ _ _ Hc Hn).
  rewrite (candidatesOf_snoc _ _ _ seq); [|intros g n s; rewrite <- Hn; apply Hc|apply next_parses|apply nextSeqOf_spec].
  rewrite fmap_app. f_equal.
  - apply list_fmap_ext. intros i c Hi. f_equal. f_equal. apply withSignal_old.
    apply list_elem_of_lookup_2 in Hi. by apply candidatesOf_in in Hi as [Hi _].
  - cbn [fmap list_fmap caSeq caFileName]. rewrite withSignal_lookup. rewrite decide_True by done. cbn. unfold content, withSignal. cbn [fsData].
    by rewrite lookup_insert_eq.
Qed.
Lemma withSignal_other other : other ≠ name → queue other (withSignal f payload m fs) = queue other fs.
Proof.
  intros Ho. pose proof (names_insert fs (withSignal f payload m fs) f _ m Hm eq_refl next_free) as Hn.
  pose proof (canonical_names_of _ (wf_canonical _ withSignal_Wf)) as Hc. apply queue_ext.
  - rewrite (candidatesOf_perm _ _ _ Hc Hn). apply candidatesOf_other. unfold candOf. rewrite next_parses.
    by destruct (String.eqb_spec name other) as [<-|].
  - intros c [Hi _]%candidatesOf_in. by apply withSignal_old.
Qed.
End writing.

(** ** Taking *)

(** The directory with a signal moved to [consumed/]. *)
Definition withTaken (f : string) (i : positive) (m : gmap string positive) (fs : FS) : FS :=
  MkFS (Some (delete f m)) (Some (<[f := i]> (default ∅ (fsConsumed fs)))) (fsData fs) (fsNext fs).

Section taking.
Context (name : string) (fs : FS) (m : gmap string positive) (c : candidate) (cs : list candidate) (i : positive).
Hypothesis Hm : fsControl fs = Some m.
Hypothesis Hc : candidatesOf name (names Control fs) = c :: cs.
Hypothesis Hi : m !! caFileName c = Some i.
Hypothesis Hwf : Wf fs.
Let fs' := withTaken (caFileName c) i m fs.

Lemma claim_exec payload : exec (claim name c payload) fs = (Ok (Some (MkDelivery name (caSeq c) payload)), fs').
Proof. unfold claim. cbn [exec sys]. unfold lookupFile. rewrite Hm. cbn. by rewrite Hi. Qed.

Lemma tryConsume_exec : exec (tryConsume name) fs = (Ok (Some (MkDelivery name (caSeq c) (content fs i))), fs').
Proof.
  unfold tryConsume, sortedCandidates. cbn [pbind exec sys]. unfold names in Hc. cbn [entries] in Hc |- *. rewrite Hm in Hc |- *.
  cbn [pbind exec sys]. rewrite Hc. cbn [exec sys]. unfold lookupFile. rewrite Hm. cbn [mbind option_bind]. rewrite Hi. apply claim_exec.
Qed.

Lemma withTaken_lookup g : lookupFile g fs' = if decide (g = caFileName c) then None else lookupFile g fs.
Proof.
  unfold lookupFile. rewrite Hm. cbn. destruct (decide (g = caFileName c)) as [->|Hg]; [apply lookup_delete_eq|by apply lookup_delete_ne].
Qed.
Lemma withTaken_Wf : Wf fs'.
Proof.
  split.
  - intros g n s. rewrite withTaken_lookup. destruct (decide _); [by intros [? ?]|apply (wf_canonical _ Hwf)].
  - intros g j. rewrite withTaken_lookup. destruct (decide _); [done|apply (wf_inodes _ Hwf)].
Qed.
Lemma withTaken_old g : g ∈ names Control fs' → content fs' <$> lookupFile g fs' = content fs <$> lookupFile g fs.
Proof. intros [j Hg]%elem_of_names. rewrite withTaken_lookup in Hg |- *. by destruct (decide _). Qed.

Lemma taken_found : found name c.
Proof. assert (Hin : c ∈ candidatesOf name (names Control fs)) by (rewrite Hc; by left). by apply candidatesOf_in in Hin as [_ Hin]. Qed.

Lemma withTaken_candidates : candidatesOf name (names Control fs') = cs.
Proof.
  pose proof (names_delete fs fs' _ i m Hm eq_refl Hi) as Hn.
  pose proof (StronglySorted_merge_sort cand_le (omap (candOf name) (names Control fs))) as Hs.
  rewrite <- candidatesOf_eq, Hc in Hs. apply candidatesOf_unique; [apply canonical_names_of, withTaken_Wf|by inversion Hs|].
  apply (Permutation_cons_inv (a := c)). rewrite <- Hc, candidatesOf_eq, merge_sort_Permutation, Hn. cbn [omap list_omap].
  pose proof taken_found as Hf. unfold found in Hf. unfold candOf at 1. rewrite Hf, String.eqb_refl. by destruct c.
Qed.

Lemma withTaken_queue : queue name fs = (caSeq c, content fs i) :: queue name fs'.
Proof.
  unfold queue. rewrite Hc, withTaken_candidates. cbn [fmap list_fmap]. f_equal.
  - unfold lookupFile. rewrite Hm. cbn [mbind option_bind]. by rewrite Hi.
  - apply list_fmap_ext. intros j d Hd. f_equal. f_equal. symmetry. apply withTaken_old.
    rewrite <- withTaken_candidates in Hd. apply list_elem_of_lookup_2 in Hd. by apply candidatesOf_in in Hd as [Hd _].
Qed.
Lemma withTaken_other other : other ≠ name → queue other fs' = queue other fs.
Proof.
  intros Ho. pose proof (names_delete fs fs' _ i m Hm eq_refl Hi) as Hn. symmetry. apply queue_ext.
  - rewrite (candidatesOf_perm _ _ _ (canonical_names_of _ (wf_canonical _ Hwf)) Hn). apply candidatesOf_other. unfold candOf.
    pose proof taken_found as Hf. unfold found in Hf. rewrite Hf. by destruct (String.eqb_spec name other) as [<-|].
  - intros d [Hd _]%candidatesOf_in. symmetry. by apply withTaken_old.
Qed.
End taking.

Lemma tryConsume_none name fs : candidatesOf name (names Control fs) = [] → exec (tryConsume name) fs = (Ok None, fs).
Proof.
  intros Hc. unfold tryConsume, sortedCandidates. cbn [pbind exec sys]. unfold names in Hc. cbn [entries] in Hc |- *.
  destruct (fsControl fs); cbn [pbind exec]; [rewrite Hc|]; reflexivity.
Qed.
Lemma poll_none n done name fs : candidatesOf name (names Control fs) = [] → exec (poll n done (tryConsume name)) fs = (Err done, fs).
Proof.
  intros Hc. induction n as [|n IH]; cbn [poll]; rewrite exec_bind, tryConsume_none by done; [reflexivity|exact IH].
Qed.

(** ** The refinement *)

(** Making the directory does not change what it holds. *)
Definition made (fs : FS) : FS := MkFS (Some (default ∅ (fsControl fs))) (fsConsumed fs) (fsData fs) (fsNext fs).
Lemma made_lookup f fs : lookupFile f (made fs) = lookupFile f fs.
Proof. unfold lookupFile, made. cbn [fsControl]. destruct (fsControl fs); [done|apply lookup_empty]. Qed.
Lemma made_names d fs : names d (made fs) = names d fs.
Proof. destruct d; [|done]. unfold names. cbn. by destruct (fsControl fs). Qed.
Lemma made_queue name fs : queue name (made fs) = queue name fs.
Proof. apply queue_ext; [by rewrite made_names|]. intros c _. rewrite made_lookup. reflexivity. Qed.
Lemma made_Wf fs : Wf fs → Wf (made fs).
Proof.
  intros [H1 H2]. split; [intros f n s|intros f i]; rewrite made_lookup; [apply H1|apply H2].
Qed.
Lemma made_nextSeq name fs : nextSeqOf name (made fs) = nextSeqOf name fs.
Proof. unfold nextSeqOf. by rewrite !made_names. Qed.

(** C21: alone, the broker is a queue per name, for a valid name that does not end in a hyphen
    ([deliverable]; a signal of another name is written and never delivered) and whose next number fits
    an int64, on a directory in which every file that parses is named as the broker names it: [WriteSignal] gives a number greater than all the pending
    ones, and appends the payload to the queue of its name; [Receive] answers the head of its queue and
    takes it off, or its deadline when the queue is empty; other names' queues do not change. *)
Theorem broker_refines_queues name payload n done fs
    (Hwf : Wf fs) (Hvalid : validateSignalName name = true) (Hname : deliverable name = true)
    (Hroom : (nextSeqOf name fs < two63)%Z) :
  (∃ seq fs1, exec (WriteSignal name payload) fs = (Ok seq, fs1) ∧ Wf fs1 ∧
     Forall (λ e, (e.1 < seq)%Z) (queue name fs) ∧ queue name fs1 = queue name fs ++ [(seq, payload)] ∧
     ∀ other, other ≠ name → queue other fs1 = queue other fs) ∧
  match queue name fs with
  | [] => exec (Receive n done name) fs = (Err done, fs)
  | (seq, p) :: q => ∃ fs1, exec (Receive n done name) fs = (Ok (MkDelivery name seq p), fs1) ∧ Wf fs1 ∧
      queue name fs1 = q ∧ ∀ other, other ≠ name → queue other fs1 = queue other fs
  end.
Proof.
  split.
  - pose proof (made_Wf _ Hwf) as Hwf'. rewrite <- (made_nextSeq name) in Hroom. rewrite <- (made_queue name fs).
    set (seq := nextSeqOf name (made fs)). exists seq.
    exists (withSignal (signalFileName name seq) payload (default ∅ (fsControl fs)) (made fs)).
    split; [|split; [by apply withSignal_Wf|split; [|split; [by apply withSignal_queue|]]]].
    + unfold WriteSignal. rewrite Hvalid. cbn [negb exec sys]. change (MkFS _ _ _ _) with (made fs). unfold maxAttempts. cbn [writeAttempts].
      by rewrite exec_bind, (writeOnce_exec name payload (made fs) (default ∅ (fsControl fs))).
    + apply Forall_forall. intros e (c & -> & Hin)%list_elem_of_fmap. by apply nextSeqOf_spec.
    + intros other Ho. rewrite <- (made_queue other fs). by apply withSignal_other.
  - unfold Receive. rewrite Hvalid. cbn [negb]. destruct (candidatesOf name (names Control fs)) as [|c cs] eqn:Hc.
    + unfold queue. rewrite Hc. by apply poll_none.
    + assert (Hin : c ∈ candidatesOf name (names Control fs)) by (rewrite Hc; by left).
      apply candidatesOf_in in Hin as [Hin _]. apply elem_of_names in Hin as [i Hi]. unfold lookupFile in Hi.
      destruct (fsControl fs) as [m|] eqn:Hm; [|done]. cbn in Hi.
      rewrite (withTaken_queue name fs m c cs i) by done. exists (withTaken (caFileName c) i m fs).
      split; [|split; [by apply withTaken_Wf|split; [done|intros other Ho; by apply (withTaken_other name fs m c cs i)]]].
      destruct n; cbn [poll]; rewrite exec_bind, (tryConsume_exec name fs m c cs i) by done; reflexivity.
Qed.

Lemma exPending_Wf : Wf exPending.
Proof. split; [apply exPending_canonical|]. intros f i [[-> ->]|[-> ->]]%exPending_lookup; reflexivity. Qed.

Lemma broker_refines_queues_witness :
  (∃ fs1, queue "go" fs1 = [(1%Z, "first"); (3%Z, "second"); (4%Z, "third")] ∧ exec (WriteSignal "go" "third") exPending = (Ok 4%Z, fs1)) ∧
  ∃ fs1, exec (Receive 2 RDeadline "go") exPending = (Ok (MkDelivery "go" 1 "first"), fs1) ∧ queue "go" fs1 = [(3%Z, "second")].
Proof.
  destruct (broker_refines_queues "go" "third" 2 RDeadline exPending exPending_Wf eq_refl eq_refl) as [(seq & fs1 & E1 & _ & _ & Q1 & _) H];
    [by vm_compute|].
  assert (Hq : queue "go" exPending = [(1%Z, "first"); (3%Z, "second")]) by (vm_compute; reflexivity).
  rewrite Hq in H, Q1. split.
  - assert (Hs : (exec (WriteSignal "go" "third") exPending).1 = Ok 4%Z) by (vm_compute; reflexivity).
    rewrite E1 in Hs. injection Hs as ->. exists fs1. split; [exact Q1|exact E1].
  - destruct H as (fs2 & E2 & _ & Q2 & _). exists fs2. split; [exact E2|exact Q2].
Defined.
