(* ===== verification/SignalControl.v ===== *)
(** * Pause and cancel requests, and signals that are lost

    What [WritePause] and [WriteCancel] write is what [CheckPauseCancel] reads; and schedules of writers
    and consumers in which a signal's payload or its number is lost. *)

From S2P Require Import Prelude GoNum GoJson GoStruct EnginePath GoPath Signal SignalBroker SignalQueue.

(** ** Requests *)

Lemma PauseRequest_roundtrip r : json_wf (PauseRequest_json r) = true → PauseRequest_of (json_print (PauseRequest_json r)) = r.
Proof.
  intros Hj. unfold PauseRequest_of, unmarshalStrings. rewrite json_parse_print by done.
  unfold PauseRequest_json, obj, omit_str, omit_if. destruct r as [n r]. cbn [prNodePath prReason].
  destruct (String.eqb_spec n "") as [->|_], (String.eqb_spec r "") as [->|_]; reflexivity.
Qed.
Lemma CancelRequest_roundtrip r : json_wf (CancelRequest_json r) = true → CancelRequest_of (json_print (CancelRequest_json r)) = r.
Proof.
  intros Hj. unfold CancelRequest_of, unmarshalStrings. rewrite json_parse_print by done.
  unfold CancelRequest_json, obj, omit_str, omit_if. destruct r as [r]. cbn [crReason].
  destruct (String.eqb_spec r "") as [->|_]; reflexivity.
Qed.

(** What the reader gets of a file. *)
Definition read (f : string) (fs : FS) : option string := content fs <$> lookupFile f fs.

(** No inode has two names in the control directory, and all were handed out. *)
Definition Links (fs : FS) : Prop :=
  (∀ f g i, lookupFile f fs = Some i → lookupFile g fs = Some i → f = g) ∧
  (∀ f i, lookupFile f fs = Some i → (i < fsNext fs)%positive).

(** A write replaces the content of its file, and of no other. *)
Lemma writeControlJSON_exec f j fs : Links fs →
  ∃ fs', exec (writeControlJSON f j) fs = (None, fs') ∧ Links fs' ∧
         ∀ g, read g fs' = if decide (g = f) then Some (json_print j) else read g fs.
Proof.
  intros [H1 H2]. unfold writeControlJSON. cbn [exec sys fsControl fsConsumed fsData fsNext].
  set (m := default ∅ (fsControl fs)).
  assert (Hm : ∀ g, m !! g = lookupFile g fs).
  { intros g. unfold m, lookupFile. destruct (fsControl fs); [done|apply lookup_empty]. }
  destruct (m !! f) as [i|] eqn:Hf; cbn [exec sys fsControl fsConsumed fsData fsNext]; eexists; (split; [reflexivity|]).
  - rewrite Hm in Hf. split.
    + unfold Links, lookupFile. cbn [fsControl fsNext mbind option_bind]. setoid_rewrite Hm. by split.
    + intros g. unfold read, content. unfold lookupFile at 1. cbn [fsControl fsData mbind option_bind]. rewrite Hm, lookup_insert_eq, insert_insert_eq.
      destruct (decide (g = f)) as [->|Hg]; [rewrite Hf; cbn; by rewrite lookup_insert_eq|].
      destruct (lookupFile g fs) as [j'|] eqn:Hj; [|done]. cbn. rewrite lookup_insert_ne; [done|].
      intros ->. destruct Hg. by eapply H1.
  - rewrite Hm in Hf. split.
    + unfold Links, lookupFile. cbn [fsControl fsNext mbind option_bind]. split.
      * intros g h i. destruct (decide (g = f)) as [->|Hg], (decide (h = f)) as [->|Hh]; rewrite ?lookup_insert_eq, ?lookup_insert_ne, ?Hm by done.
        -- done.
        -- intros [= <-] Hi%H2. lia.
        -- intros Hi%H2 [= <-]. lia.
        -- apply H1.
      * intros g i. destruct (decide (g = f)) as [->|Hg]; rewrite ?lookup_insert_eq, ?lookup_insert_ne, ?Hm by done.
        -- intros [= <-]. lia.
        -- intros Hi%H2. lia.
    + intros g. unfold read, content. unfold lookupFile at 1. cbn [fsControl fsData mbind option_bind]. rewrite lookup_insert_eq, insert_insert_eq.
      destruct (decide (g = f)) as [->|Hg]; [rewrite lookup_insert_eq; cbn; by rewrite lookup_insert_eq|].
      rewrite lookup_insert_ne, Hm by done. destruct (lookupFile g fs) as [i|] eqn:Hi; [|done]. cbn.
      rewrite lookup_insert_ne; [done|]. intros <-. apply H2 in Hi. lia.
Qed.

Lemma CheckPauseCancel_exec fs : exec CheckPauseCancel fs =
  (Ok (PauseRequest_of ∘ stake maxControlFileBytes <$> read pauseFileName fs,
       CancelRequest_of ∘ stake maxControlFileBytes <$> read cancelFileName fs), fs).
Proof.
  unfold CheckPauseCancel, readControlFile, read. generalize maxControlFileBytes. intros N. cbn [exec sys].
  destruct (lookupFile pauseFileName fs); cbn [exec sys]; destruct (lookupFile cancelFileName fs); reflexivity.
Qed.

Lemma ClearPauseCancel_exec fs : ∃ fs', exec ClearPauseCancel fs = (None, fs') ∧
  read pauseFileName fs' = None ∧ read cancelFileName fs' = None.
Proof.
  assert (Hd : ∀ f fs, fsControl fs = None ∨ lookupFile f fs = None → read f fs = None).
  { intros f fs0 [H|H]; unfold read; [unfold lookupFile; by rewrite H|by rewrite H]. }
  unfold ClearPauseCancel. cbn [exec sys].
  destruct (fsControl fs) as [m|] eqn:Hm; unfold lookupFile; rewrite Hm; cbn [mbind option_bind exec sys].
  - destruct (m !! pauseFileName) as [i|] eqn:Hp; cbn [exec sys]; unfold lookupFile; cbn [fsControl]; rewrite ?Hm; cbn [fmap option_fmap option_map mbind option_bind].
    + rewrite lookup_delete_ne by done. destruct (m !! cancelFileName) as [k|] eqn:Hc; cbn [exec]; eexists; (split; [reflexivity|]);
        (split; apply Hd; right; unfold lookupFile; cbn).
      * rewrite lookup_delete_ne by done. apply lookup_delete_eq.
      * apply lookup_delete_eq.
      * apply lookup_delete_eq.
      * rewrite lookup_delete_ne by done. done.
    + destruct (m !! cancelFileName) as [k|] eqn:Hc; cbn [exec]; eexists; (split; [reflexivity|]);
        (split; apply Hd; right; unfold lookupFile; cbn; rewrite ?Hm; cbn); [|apply lookup_delete_eq|done..].
      rewrite lookup_delete_ne by done. done.
  - unfold lookupFile. rewrite Hm. cbn. eexists. split; [reflexivity|]. split; apply Hd; by left.
Qed.

(** a pause and a cancel request are read back as they were written, both of them, when their text
    fits the reader's cap; and clearing removes both. *)
Theorem control_roundtrip p c fs (Hl : Links fs)
    (Hp : json_wf (PauseRequest_json p) = true) (Hc : json_wf (CancelRequest_json c) = true)
    (Lp : slen (json_print (PauseRequest_json p)) ≤ maxControlFileBytes)
    (Lc : slen (json_print (CancelRequest_json c)) ≤ maxControlFileBytes) :
  ∃ fs1 fs2 fs3, exec (WritePause p) fs = (None, fs1) ∧ exec (WriteCancel c) fs1 = (None, fs2) ∧
    exec CheckPauseCancel fs2 = (Ok (Some p, Some c), fs2) ∧
    exec ClearPauseCancel fs2 = (None, fs3) ∧ exec CheckPauseCancel fs3 = (Ok (None, None), fs3).
Proof.
  destruct (writeControlJSON_exec pauseFileName (PauseRequest_json p) fs Hl) as (fs1 & E1 & L1 & R1).
  destruct (writeControlJSON_exec cancelFileName (CancelRequest_json c) fs1 L1) as (fs2 & E2 & L2 & R2).
  destruct (ClearPauseCancel_exec fs2) as (fs3 & E3 & P3 & C3).
  exists fs1, fs2, fs3. split; [done|]. split; [done|]. rewrite !CheckPauseCancel_exec, P3, C3. split; [|by split].
  rewrite !R2, R1. rewrite (decide_True (P := cancelFileName = cancelFileName)), decide_False, decide_True by done.
  cbn [fmap option_fmap option_map compose]. by rewrite !stake_all, PauseRequest_roundtrip, CancelRequest_roundtrip.
Qed.

Lemma control_roundtrip_witness :
  ∃ fs2, exec CheckPauseCancel fs2 = (Ok (Some (MkPauseRequest "seq/gate-1" "look at this"), Some (MkCancelRequest "")), fs2).
Proof.
  destruct (control_roundtrip (MkPauseRequest "seq/gate-1" "look at this") (MkCancelRequest "") (MkFS None None ∅ 1))
    as (fs1 & fs2 & fs3 & _ & _ & H & _); [by split|by vm_compute|by vm_compute| | |by exists fs2].
  - apply Nat.leb_le. by vm_compute.
  - apply Nat.leb_le. by vm_compute.
Defined.

(** ** Races of a writer *)

Definition pmap {A B} (f : A → B) (p : prog A) : prog B := pbind p (λ a, Ret (f a)).
Definition writer (name payload : string) : prog (res sigErr Z + res (recvErr sigErr) Delivery) := pmap inl (WriteSignal name payload).
Definition reader (name : string) : prog (res sigErr Z + res (recvErr sigErr) Delivery) := pmap inr (Receive 0 RDeadline name).
Definition noFiles : FS := MkFS None None ∅ 1.
(** [n] calls of program [i], none failing. *)
Definition calls (i n : nat) : list (nat * option fserr) := replicate n (i, None).

(** A consumer between the [OpenFile] and the [Write] of a writer: it is delivered the empty payload, and the
    writer is told that its payload was written. *)
Definition tornSchedule : list (nat * option fserr) := calls 0 4 ++ calls 1 4 ++ calls 0 2.
(** A writer that stops between reading the directories and the [OpenFile], while a second writer takes the
    number and a consumer takes its signal away. *)
Definition reusedSchedule : list (nat * option fserr) := calls 0 3 ++ calls 1 6 ++ calls 2 4 ++ calls 0 3 ++ calls 3 4.

(** a writer does not exclude the consumers.  A signal of any payload can be delivered with an empty
    one, both sides reporting success; and two writers can be given the same sequence number, so that two
    deliveries of the name carry it. *)
Theorem writer_races payload payload' :
  (interleave tornSchedule ([writer "go" payload; reader "go"], noFiles)).1 =
    [Ret (inl (Ok 1%Z)); Ret (inr (Ok (MkDelivery "go" 1 "")))] ∧
  (interleave reusedSchedule ([writer "go" payload; writer "go" payload'; reader "go"; reader "go"], noFiles)).1 =
    [Ret (inl (Ok 1%Z)); Ret (inl (Ok 1%Z));
     Ret (inr (Ok (MkDelivery "go" 1 payload'))); Ret (inr (Ok (MkDelivery "go" 1 payload)))].
Proof. split; vm_compute; reflexivity. Qed.
