(* ===== verification/EngineEvents.v ===== *)
(** * engine/events.go, agent/types.go: event payloads

    The event names and the payload structs with their JSON, written and read.  A [map[string]T] is
    a [gmap]; nil and empty are the same map, as they are on the wire. *)

From S2P Require Import Prelude GoNum GoJson GoStruct.

Definition EventRunStarted : string := "run.started".
Definition EventCallStarted : string := "call.started".
Definition EventNodeStarted : string := "node.started".
Definition EventRunResumed : string := "run.resumed".
Definition EventNodeCompleted : string := "node.completed".
Definition EventBranchTaken : string := "branch.taken".
Definition EventLoopIter : string := "loop.iter".
Definition EventRetryAttempt : string := "retry.attempt".
Definition EventNodeFailed : string := "node.failed".
Definition EventRunFinished : string := "run.finished".
Definition EventNodeSkipped : string := "node.skipped".
Definition EventSkillsSelected : string := "skills.selected".
Definition EventGateAttempt : string := "gate.attempt".
Definition EventMapItem : string := "map.item".
Definition EventMapFrontier : string := "map.frontier".
Definition EventSignalReceived : string := "signal.received".
Definition EventRunPaused : string := "run.paused".
Definition EventRunCancelled : string := "run.cancelled".
Definition EventNodeInvalidated : string := "node.invalidated".
Definition EventReactRound : string := "react.round".
Definition EventAgentEvent : string := "agent.event".

Definition ItemPassed : string := "item_passed".
Definition ItemFailed : string := "item_failed".
Definition ItemPruned : string := "item_pruned".
Definition ReasonImageUnavailable : string := "image_unavailable".
Definition AttemptPassed : string := "attempt_passed".
Definition AttemptRejected : string := "attempt_rejected".

(** [json.Marshal] of a payload: its tree, when every number can be written.  (Strings are UTF-8.) *)
Definition marshal (j : json) : option json := if nums_ok j then Some j else None.

Definition f64_zero : f64 := SpecFloat.S754_zero false.
Definition f64_is_zero (x : f64) : bool := match x with SpecFloat.S754_zero _ => true | _ => false end.
(** A float field: the literal, or a tree [marshal] refuses when it is not finite. *)
Definition float_json (x : f64) : json := JNum (default "" (json_float x)).
Definition omit_float (k : string) (x : f64) : option (string * json) := omit_if (f64_is_zero x) k (float_json x).

(** ** map.item, map.frontier *)

Record MapItemData : Type := MkMapItemData {
  miN : Z; miStatus : string; miImageDigest : string; miReason : string; miOutcome : string; miCause : string
}.

Definition MapItemData_names : list string := ["n"; "status"; "image_digest"; "reason"; "outcome"; "cause"].

Definition MapItemData_json (d : MapItemData) : json :=
  obj [ field "n" (JNum (Itoa (miN d))); field "status" (JStr (miStatus d));
        omit_str "image_digest" (miImageDigest d); omit_str "reason" (miReason d);
        omit_str "outcome" (miOutcome d); omit_str "cause" (miCause d) ].

Definition MapItemData_of (ms : list (string * json)) : option MapItemData :=
  let get k := values MapItemData_names k ms in
  n ← decode_field as_int 0%Z (get "n");
  st ← decode_field as_string "" (get "status");
  im ← decode_field as_string "" (get "image_digest");
  re ← decode_field as_string "" (get "reason");
  oc ← decode_field as_string "" (get "outcome");
  ca ← decode_field as_string "" (get "cause");
  Some (MkMapItemData n st im re oc ca).

Definition zeroMapItem : MapItemData := MkMapItemData 0 "" "" "" "" "".

Record MapFrontierData : Type := MkMapFrontierData { mfItems : list MapItemData }.

Definition MapFrontierData_json (d : MapFrontierData) : json :=
  obj [ field "items" (JArr (map MapItemData_json (mfItems d))) ].

Definition MapFrontierData_of (ms : list (string * json)) : option MapFrontierData :=
  MkMapFrontierData <$>
    decode_field (as_slice (as_struct MapItemData_of) zeroMapItem) [] (values ["items"] "items" ms).

(** ** signal.received, run.paused, run.cancelled *)

Record SignalReceivedData : Type := MkSignalReceivedData { srName : string; srSeq : Z; srPayloadRef : string }.

Definition SignalReceivedData_json (d : SignalReceivedData) : json :=
  obj [ field "name" (JStr (srName d)); field "seq" (JNum (Itoa (srSeq d))); omit_str "payload_ref" (srPayloadRef d) ].

Definition SignalReceivedData_of (ms : list (string * json)) : option SignalReceivedData :=
  let get k := values ["name"; "seq"; "payload_ref"] k ms in
  n ← decode_field as_string "" (get "name");
  s ← decode_field as_int 0%Z (get "seq");
  p ← decode_field as_string "" (get "payload_ref");
  Some (MkSignalReceivedData n s p).

Record RunPausedData : Type := MkRunPausedData { rpNodePath : string; rpReason : string }.
Definition RunPausedData_json (d : RunPausedData) : json :=
  obj [ omit_str "node_path" (rpNodePath d); omit_str "reason" (rpReason d) ].

Record RunCancelledData : Type := MkRunCancelledData { rcReason : string }.
Definition RunCancelledData_json (d : RunCancelledData) : json := obj [ omit_str "reason" (rcReason d) ].

(** ** gate.attempt *)

Record GateAttemptData : Type := MkGateAttemptData { gaN : Z; gaAttemptOutcome : string; gaVerdictRef : string }.

Definition GateAttemptData_json (d : GateAttemptData) : json :=
  obj [ field "n" (JNum (Itoa (gaN d))); field "attempt_outcome" (JStr (gaAttemptOutcome d));
        omit_str "verdict_ref" (gaVerdictRef d) ].

Definition GateAttemptData_of (ms : list (string * json)) : option GateAttemptData :=
  let get k := values ["n"; "attempt_outcome"; "verdict_ref"] k ms in
  n ← decode_field as_int 0%Z (get "n");
  o ← decode_field as_string "" (get "attempt_outcome");
  v ← decode_field as_string "" (get "verdict_ref");
  Some (MkGateAttemptData n o v).

(** ** run.started *)

Record LiveHomePin : Type := MkLiveHomePin { lhPath : string; lhDigest : string }.
Definition LiveHomePin_json (d : LiveHomePin) : json :=
  obj [ field "path" (JStr (lhPath d)); field "digest" (JStr (lhDigest d)) ].
Definition LiveHomePin_of (ms : list (string * json)) : option LiveHomePin :=
  let get k := values ["path"; "digest"] k ms in
  p ← decode_field as_string "" (get "path");
  d ← decode_field as_string "" (get "digest");
  Some (MkLiveHomePin p d).

Record ResolvedRuntime : Type := MkResolvedRuntime { rrRef : string; rrVersion : string; rrContainer : string }.
Definition ResolvedRuntime_json (d : ResolvedRuntime) : json :=
  obj [ field "ref" (JStr (rrRef d)); field "version" (JStr (rrVersion d)); omit_str "container" (rrContainer d) ].
Definition ResolvedRuntime_of (ms : list (string * json)) : option ResolvedRuntime :=
  let get k := values ["ref"; "version"; "container"] k ms in
  r ← decode_field as_string "" (get "ref");
  v ← decode_field as_string "" (get "version");
  c ← decode_field as_string "" (get "container");
  Some (MkResolvedRuntime r v c).

Record RunStartedAssetFile : Type := MkAssetFile { afPath : string; afRef : string; afSize : Z; afSHA256 : string }.
Definition RunStartedAssetFile_json (d : RunStartedAssetFile) : json :=
  obj [ field "path" (JStr (afPath d)); field "ref" (JStr (afRef d)); field "size" (JNum (Itoa (afSize d)));
        field "sha256" (JStr (afSHA256 d)) ].
Definition RunStartedAssetFile_of (ms : list (string * json)) : option RunStartedAssetFile :=
  let get k := values ["path"; "ref"; "size"; "sha256"] k ms in
  p ← decode_field as_string "" (get "path");
  r ← decode_field as_string "" (get "ref");
  s ← decode_field as_int 0%Z (get "size");
  h ← decode_field as_string "" (get "sha256");
  Some (MkAssetFile p r s h).

Record RunStartedAsset : Type := MkAsset { raDeclaredPath : string; raIsDir : bool; raFiles : list RunStartedAssetFile }.
Definition RunStartedAsset_json (d : RunStartedAsset) : json :=
  obj [ field "declared_path" (JStr (raDeclaredPath d)); field "is_dir" (JBool (raIsDir d));
        field "files" (JArr (map RunStartedAssetFile_json (raFiles d))) ].
Definition RunStartedAsset_of (ms : list (string * json)) : option RunStartedAsset :=
  let get k := values ["declared_path"; "is_dir"; "files"] k ms in
  p ← decode_field as_string "" (get "declared_path");
  d ← decode_field as_bool false (get "is_dir");
  f ← decode_field (as_slice (as_struct RunStartedAssetFile_of) (MkAssetFile "" "" 0 "")) [] (get "files");
  Some (MkAsset p d f).

Record RunStartedData : Type := MkRunStartedData {
  rsdRunID : string; rsdWorkflowDigest : string; rsdStructuralDigest : string; rsdWorkflowID : string;
  rsdWorkflowVersion : Z; rsdInputRef : string; rsdBackend : string;
  rsdAssets : gmap string RunStartedAsset; rsdInputFiles : gmap string string;
  rsdLiveHome : option LiveHomePin; rsdRuntimes : list ResolvedRuntime;
  rsdDefinitionRef : string; rsdSandboxMode : string
}.

Definition RunStartedData_names : list string :=
  ["run_id"; "workflow_digest"; "structural_digest"; "workflow_id"; "workflow_version"; "input_ref";
   "backend"; "assets"; "input_files"; "live_home"; "runtimes"; "definition_ref"; "sandbox_mode"].

Definition RunStartedData_json (d : RunStartedData) : json :=
  obj [ field "run_id" (JStr (rsdRunID d)); field "workflow_digest" (JStr (rsdWorkflowDigest d));
        omit_str "structural_digest" (rsdStructuralDigest d); omit_str "workflow_id" (rsdWorkflowID d);
        omit_int "workflow_version" (rsdWorkflowVersion d); omit_str "input_ref" (rsdInputRef d);
        omit_str "backend" (rsdBackend d); omit_map "assets" RunStartedAsset_json (rsdAssets d);
        omit_map "input_files" JStr (rsdInputFiles d); omit_opt "live_home" LiveHomePin_json (rsdLiveHome d);
        omit_list "runtimes" ResolvedRuntime_json (rsdRuntimes d); omit_str "definition_ref" (rsdDefinitionRef d);
        omit_str "sandbox_mode" (rsdSandboxMode d) ].

Definition RunStartedData_of (ms : list (string * json)) : option RunStartedData :=
  let get k := values RunStartedData_names k ms in
  id ← decode_field as_string "" (get "run_id");
  wd ← decode_field as_string "" (get "workflow_digest");
  sd ← decode_field as_string "" (get "structural_digest");
  wi ← decode_field as_string "" (get "workflow_id");
  wv ← decode_field as_int 0%Z (get "workflow_version");
  ir ← decode_field as_string "" (get "input_ref");
  be ← decode_field as_string "" (get "backend");
  at_ ← decode_field (as_map (as_struct RunStartedAsset_of) (MkAsset "" false [])) ∅ (get "assets");
  inf ← decode_field (as_map as_string "") ∅ (get "input_files");
  lh ← decode_field (as_ptr (as_struct LiveHomePin_of) (MkLiveHomePin "" "")) None (get "live_home");
  rt ← decode_field (as_slice (as_struct ResolvedRuntime_of) (MkResolvedRuntime "" "" "")) [] (get "runtimes");
  dr ← decode_field as_string "" (get "definition_ref");
  sm ← decode_field as_string "" (get "sandbox_mode");
  Some (MkRunStartedData id wd sd wi wv ir be at_ inf lh rt dr sm).

(** ** call.started, run.resumed, node.invalidated, node.started *)

Record CallStartedData : Type := MkCallStartedData {
  csdInputRef : string; csdInputFiles : gmap string string; csdRuntimes : list ResolvedRuntime }.
Definition CallStartedData_json (d : CallStartedData) : json :=
  obj [ field "input_ref" (JStr (csdInputRef d)); omit_map "input_files" JStr (csdInputFiles d);
        omit_list "runtimes" ResolvedRuntime_json (csdRuntimes d) ].
Definition CallStartedData_of (ms : list (string * json)) : option CallStartedData :=
  let get k := values ["input_ref"; "input_files"; "runtimes"] k ms in
  r ← decode_field as_string "" (get "input_ref");
  f ← decode_field (as_map as_string "") ∅ (get "input_files");
  t ← decode_field (as_slice (as_struct ResolvedRuntime_of) (MkResolvedRuntime "" "" "")) [] (get "runtimes");
  Some (MkCallStartedData r f t).

Record RunResumedData : Type := MkRunResumedData { rrdEpoch : Z }.
Definition RunResumedData_json (d : RunResumedData) : json := obj [ field "epoch" (JNum (Itoa (rrdEpoch d))) ].
Definition RunResumedData_of (ms : list (string * json)) : option RunResumedData :=
  MkRunResumedData <$> decode_field (as_uint two32) 0%Z (values ["epoch"] "epoch" ms).

Record NodeInvalidatedData : Type := MkNodeInvalidatedData { nidPaths : list string }.
Definition NodeInvalidatedData_json (d : NodeInvalidatedData) : json :=
  obj [ field "paths" (JArr (map JStr (nidPaths d))) ].
Definition NodeInvalidatedData_of (ms : list (string * json)) : option NodeInvalidatedData :=
  MkNodeInvalidatedData <$> decode_field (as_slice as_string "") [] (values ["paths"] "paths" ms).

Record NodeStartedData : Type := MkNodeStartedData { nsKind : string }.
Definition NodeStartedData_json (d : NodeStartedData) : json := obj [ field "kind" (JStr (nsKind d)) ].

(** ** node.completed *)

Record MetricCost : Type := MkMetricCost {
  mcSource : string; mcCurrency : string; mcTotal : f64; mcInput : f64; mcOutput : f64 }.
Record MetricTokens : Type := MkMetricTokens {
  mtInput : Z; mtOutput : Z; mtCacheCreationInput : Z; mtCacheReadInput : Z }.
Record MetricSet : Type := MkMetricSet {
  msCost : MetricCost; msTokens : MetricTokens; msTurns : Z; msModel : string }.

Definition zeroCost : MetricCost := MkMetricCost "" "" f64_zero f64_zero f64_zero.
Definition zeroTokens : MetricTokens := MkMetricTokens 0 0 0 0.
Definition zeroMetrics : MetricSet := MkMetricSet zeroCost zeroTokens 0 "".

Definition MetricCost_json (d : MetricCost) : json :=
  obj [ omit_str "source" (mcSource d); omit_str "currency" (mcCurrency d); omit_float "total" (mcTotal d);
        omit_float "input" (mcInput d); omit_float "output" (mcOutput d) ].
Definition MetricTokens_json (d : MetricTokens) : json :=
  obj [ field "input" (JNum (Itoa (mtInput d))); field "output" (JNum (Itoa (mtOutput d)));
        omit_int "cache_creation_input" (mtCacheCreationInput d); omit_int "cache_read_input" (mtCacheReadInput d) ].
Definition MetricSet_json (d : MetricSet) : json :=
  obj [ field "cost" (MetricCost_json (msCost d)); field "tokens" (MetricTokens_json (msTokens d));
        field "turns" (JNum (Itoa (msTurns d))); omit_str "model" (msModel d) ].

Definition MetricCost_of (ms : list (string * json)) : option MetricCost :=
  let get k := values ["source"; "currency"; "total"; "input"; "output"] k ms in
  s ← decode_field as_string "" (get "source");
  c ← decode_field as_string "" (get "currency");
  t ← decode_field as_float f64_zero (get "total");
  i ← decode_field as_float f64_zero (get "input");
  o ← decode_field as_float f64_zero (get "output");
  Some (MkMetricCost s c t i o).
Definition MetricTokens_of (ms : list (string * json)) : option MetricTokens :=
  let get k := values ["input"; "output"; "cache_creation_input"; "cache_read_input"] k ms in
  i ← decode_field as_int 0%Z (get "input");
  o ← decode_field as_int 0%Z (get "output");
  c ← decode_field as_int 0%Z (get "cache_creation_input");
  r ← decode_field as_int 0%Z (get "cache_read_input");
  Some (MkMetricTokens i o c r).
Definition MetricSet_of (ms : list (string * json)) : option MetricSet :=
  let get k := values ["cost"; "tokens"; "turns"; "model"] k ms in
  c ← decode_field (as_struct MetricCost_of) zeroCost (get "cost");
  t ← decode_field (as_struct MetricTokens_of) zeroTokens (get "tokens");
  n ← decode_field as_int 0%Z (get "turns");
  m ← decode_field as_string "" (get "model");
  Some (MkMetricSet c t n m).

Record NodeCompletedData : Type := MkNodeCompletedData {
  ncOutcome : string; ncExitCode : option Z; ncOutputsRef : string; ncStdoutRef : string;
  ncFiles : gmap string string; ncUsage : option MetricSet; ncSnapshotRef : string; ncContainer : string;
  ncTranscriptRef : string; ncNodeKey : string; ncNodeSubtreeDigest : string; ncSessionRef : string
}.

Definition NodeCompletedData_names : list string :=
  ["outcome"; "exit_code"; "outputs_ref"; "stdout_ref"; "files"; "usage"; "snapshot_ref"; "container";
   "transcript_ref"; "node_key"; "node_subtree_digest"; "session_ref"].

Definition NodeCompletedData_json (d : NodeCompletedData) : json :=
  obj [ field "outcome" (JStr (ncOutcome d)); omit_opt "exit_code" (λ z, JNum (Itoa z)) (ncExitCode d);
        omit_str "outputs_ref" (ncOutputsRef d); omit_str "stdout_ref" (ncStdoutRef d);
        omit_map "files" JStr (ncFiles d);
        field "usage" (match ncUsage d with Some m => MetricSet_json m | None => JNull end);
        omit_str "snapshot_ref" (ncSnapshotRef d); omit_str "container" (ncContainer d);
        omit_str "transcript_ref" (ncTranscriptRef d); omit_str "node_key" (ncNodeKey d);
        omit_str "node_subtree_digest" (ncNodeSubtreeDigest d); omit_str "session_ref" (ncSessionRef d) ].

Definition NodeCompletedData_of (ms : list (string * json)) : option NodeCompletedData :=
  let get k := values NodeCompletedData_names k ms in
  oc ← decode_field as_string "" (get "outcome");
  ec ← decode_field (as_ptr as_int 0%Z) None (get "exit_code");
  ou ← decode_field as_string "" (get "outputs_ref");
  so ← decode_field as_string "" (get "stdout_ref");
  fi ← decode_field (as_map as_string "") ∅ (get "files");
  us ← decode_field (as_ptr (as_struct MetricSet_of) zeroMetrics) None (get "usage");
  sn ← decode_field as_string "" (get "snapshot_ref");
  co ← decode_field as_string "" (get "container");
  tr ← decode_field as_string "" (get "transcript_ref");
  nk ← decode_field as_string "" (get "node_key");
  nd ← decode_field as_string "" (get "node_subtree_digest");
  se ← decode_field as_string "" (get "session_ref");
  Some (MkNodeCompletedData oc ec ou so fi us sn co tr nk nd se).

(** ** branch.taken, loop.iter, react.round, retry.attempt, node.failed, run.finished, node.skipped *)

Record BranchTakenData : Type := MkBranchTakenData { btWhich : string }.
Definition BranchTakenData_json (d : BranchTakenData) : json := obj [ field "which" (JStr (btWhich d)) ].
Definition BranchTakenData_of (ms : list (string * json)) : option BranchTakenData :=
  MkBranchTakenData <$> decode_field as_string "" (values ["which"] "which" ms).

Record LoopIterData : Type := MkLoopIterData { liN : Z }.
Definition LoopIterData_json (d : LoopIterData) : json := obj [ field "n" (JNum (Itoa (liN d))) ].
Definition LoopIterData_of (ms : list (string * json)) : option LoopIterData :=
  MkLoopIterData <$> decode_field as_int 0%Z (values ["n"] "n" ms).

Record ReactRoundData : Type := MkReactRoundData { rrN : Z }.
Definition ReactRoundData_json (d : ReactRoundData) : json := obj [ field "n" (JNum (Itoa (rrN d))) ].
Definition ReactRoundData_of (ms : list (string * json)) : option ReactRoundData :=
  MkReactRoundData <$> decode_field as_int 0%Z (values ["n"] "n" ms).

Record RetryAttemptData : Type := MkRetryAttemptData { raN : Z; raOutcome : string; raError : string }.
Definition RetryAttemptData_json (d : RetryAttemptData) : json :=
  obj [ field "n" (JNum (Itoa (raN d))); field "outcome" (JStr (raOutcome d)); omit_str "error" (raError d) ].

Record NodeFailedData : Type := MkNodeFailedData { nfOutcome : string; nfError : string }.
Definition NodeFailedData_json (d : NodeFailedData) : json :=
  obj [ field "outcome" (JStr (nfOutcome d)); omit_str "error" (nfError d) ].
Definition NodeFailedData_of (ms : list (string * json)) : option NodeFailedData :=
  let get k := values ["outcome"; "error"] k ms in
  o ← decode_field as_string "" (get "outcome");
  e ← decode_field as_string "" (get "error");
  Some (MkNodeFailedData o e).

Record RunFinishedData : Type := MkRunFinishedData { rfOutcome : string }.
Definition RunFinishedData_json (d : RunFinishedData) : json := obj [ field "outcome" (JStr (rfOutcome d)) ].
Definition RunFinishedData_of (ms : list (string * json)) : option RunFinishedData :=
  MkRunFinishedData <$> decode_field as_string "" (values ["outcome"] "outcome" ms).

Record NodeSkippedData : Type := MkNodeSkippedData { nskPath : string; nskReason : string }.
Definition NodeSkippedData_json (d : NodeSkippedData) : json :=
  obj [ omit_str "path" (nskPath d); omit_str "reason" (nskReason d) ].

(** ** skills.selected *)

Record SelectedSkill : Type := MkSelectedSkill { skID : string; skScore : f64 }.
Definition SelectedSkill_json (d : SelectedSkill) : json :=
  obj [ field "id" (JStr (skID d)); field "score" (float_json (skScore d)) ].
Definition SelectedSkill_of (ms : list (string * json)) : option SelectedSkill :=
  let get k := values ["id"; "score"] k ms in
  i ← decode_field as_string "" (get "id");
  s ← decode_field as_float f64_zero (get "score");
  Some (MkSelectedSkill i s).

Record SkillsSelectedData : Type := MkSkillsSelectedData {
  ssLibrary : string; ssLibraryDigest : string; ssRouter : string; ssRouterVersion : string;
  ssRouterParams : gmap string f64; ssSelected : list SelectedSkill }.
Definition SkillsSelectedData_json (d : SkillsSelectedData) : json :=
  obj [ field "library" (JStr (ssLibrary d)); field "library_digest" (JStr (ssLibraryDigest d));
        field "router" (JStr (ssRouter d)); field "router_version" (JStr (ssRouterVersion d));
        field "router_params" (map_json float_json (ssRouterParams d));
        field "selected" (JArr (map SelectedSkill_json (ssSelected d))) ].
Definition SkillsSelectedData_of (ms : list (string * json)) : option SkillsSelectedData :=
  let get k := values ["library"; "library_digest"; "router"; "router_version"; "router_params"; "selected"] k ms in
  l ← decode_field as_string "" (get "library");
  d ← decode_field as_string "" (get "library_digest");
  r ← decode_field as_string "" (get "router");
  v ← decode_field as_string "" (get "router_version");
  p ← decode_field (as_map as_float f64_zero) ∅ (get "router_params");
  s ← decode_field (as_slice (as_struct SelectedSkill_of) (MkSelectedSkill "" f64_zero)) [] (get "selected");
  Some (MkSkillsSelectedData l d r v p s).

(** ** agent.ThreadTurn *)

Record ThreadTurn : Type := MkThreadTurn { ttUser : string; ttAssistant : string }.
Definition ThreadTurn_json (d : ThreadTurn) : json :=
  obj [ field "user" (JStr (ttUser d)); field "assistant" (JStr (ttAssistant d)) ].
Definition ThreadTurn_of (ms : list (string * json)) : option ThreadTurn :=
  let get k := values ["user"; "assistant"] k ms in
  u ← decode_field as_string "" (get "user");
  a ← decode_field as_string "" (get "assistant");
  Some (MkThreadTurn u a).

(** ** What is written is read back *)

(** A float that survives its trip: finite, read back exactly, not a negative zero (which an
    omitempty field loses). *)
Definition float_ok (x : f64) : Prop :=
  (f64_is_zero x = true → x = f64_zero) ∧ as_float (float_json x) f64_zero = Some x.

Lemma decode_float1 x : float_ok x → decode_field as_float f64_zero [float_json x] = Some x.
Proof. intros [_ H]. unfold decode_field. by rewrite H. Qed.
Lemma decode_float x : float_ok x → decode_field as_float f64_zero (if_vals (f64_is_zero x) (float_json x)) = Some x.
Proof.
  intros H. unfold if_vals. destruct (f64_is_zero x) eqn:E; [|by apply decode_float1].
  destruct H as [H _]. by rewrite H.
Qed.

(** [payload] reads a written struct field by field. *)
Ltac read_fields :=
  repeat first
    [ rewrite decode_str | rewrite decode_str1 | rewrite decode_int1 by done | rewrite decode_int by done
    | rewrite decode_uint1 by done | rewrite decode_float1 by done | rewrite decode_float by done
    | rewrite decode_bool1 | progress cbn [mbind option_bind fmap option_fmap option_map] ].
Ltac payload := struct_fields; read_fields.

Section roundtrip.
Lemma MapItemData_rt d : in_i64 (miN d) = true → MapItemData_of (omap id
    [ field "n" (JNum (Itoa (miN d))); field "status" (JStr (miStatus d));
      omit_str "image_digest" (miImageDigest d); omit_str "reason" (miReason d);
      omit_str "outcome" (miOutcome d); omit_str "cause" (miCause d) ]) = Some d.
Proof. intros H. unfold MapItemData_of, omit_str. payload. by destruct d. Qed.

Lemma MapItemData_read d a : in_i64 (miN d) = true → as_struct MapItemData_of (MapItemData_json d) a = Some d.
Proof. intros H. cbn [as_struct MapItemData_json obj]. by apply MapItemData_rt. Qed.

Lemma MapFrontierData_read d : Forall (λ it, in_i64 (miN it) = true) (mfItems d) →
  decode_struct MapFrontierData_of (MapFrontierData_json d) = Some d.
Proof.
  intros H. rewrite Forall_forall in H. unfold MapFrontierData_json, MapFrontierData_of. struct_fields.
  rewrite decode_list1; [by destruct d|]. intros. by apply MapItemData_read, H.
Qed.

Lemma SignalReceivedData_read d : in_i64 (srSeq d) = true →
  decode_struct SignalReceivedData_of (SignalReceivedData_json d) = Some d.
Proof. intros H. unfold SignalReceivedData_json, SignalReceivedData_of, omit_str. payload. by destruct d. Qed.

Lemma GateAttemptData_read d : in_i64 (gaN d) = true →
  decode_struct GateAttemptData_of (GateAttemptData_json d) = Some d.
Proof. intros H. unfold GateAttemptData_json, GateAttemptData_of, omit_str. payload. by destruct d. Qed.

Lemma ResolvedRuntime_read d a : as_struct ResolvedRuntime_of (ResolvedRuntime_json d) a = Some d.
Proof. unfold ResolvedRuntime_json, ResolvedRuntime_of, omit_str. payload. by destruct d. Qed.

Lemma LiveHomePin_read d a : as_struct LiveHomePin_of (LiveHomePin_json d) a = Some d.
Proof. unfold LiveHomePin_json, LiveHomePin_of. payload. by destruct d. Qed.

Lemma RunStartedAssetFile_read d a : in_i64 (afSize d) = true →
  as_struct RunStartedAssetFile_of (RunStartedAssetFile_json d) a = Some d.
Proof. intros H. unfold RunStartedAssetFile_json, RunStartedAssetFile_of. payload. by destruct d. Qed.

Definition asset_ok (d : RunStartedAsset) : Prop := Forall (λ f, in_i64 (afSize f) = true) (raFiles d).

Lemma RunStartedAsset_read d a : asset_ok d → as_struct RunStartedAsset_of (RunStartedAsset_json d) a = Some d.
Proof.
  intros H. unfold asset_ok in H. rewrite Forall_forall in H. unfold RunStartedAsset_json, RunStartedAsset_of. payload.
  rewrite decode_list1; [by destruct d|]. intros. by apply RunStartedAssetFile_read, H.
Qed.

Definition run_started_ok (d : RunStartedData) : Prop :=
  in_i64 (rsdWorkflowVersion d) = true ∧ map_Forall (λ _, asset_ok) (rsdAssets d).

Lemma RunStartedData_read d : run_started_ok d →
  decode_struct RunStartedData_of (RunStartedData_json d) = Some d.
Proof.
  intros [H Ha]. unfold RunStartedData_json, RunStartedData_of, RunStartedData_names, omit_str, omit_int. payload.
  rewrite (decode_map _ _ RunStartedAsset_json) by (intros; eapply RunStartedAsset_read, Ha; done). cbn [mbind option_bind].
  rewrite (decode_map _ _ JStr) by done. cbn [mbind option_bind].
  rewrite decode_opt by (intros; split; [apply LiveHomePin_read|done]). cbn [mbind option_bind].
  rewrite decode_list by (intros; apply ResolvedRuntime_read). cbn [mbind option_bind].
  by destruct d.
Qed.

Lemma CallStartedData_read d : decode_struct CallStartedData_of (CallStartedData_json d) = Some d.
Proof.
  unfold CallStartedData_json, CallStartedData_of. payload.
  rewrite decode_map by done. cbn [mbind option_bind].
  rewrite decode_list by (intros; apply ResolvedRuntime_read). by destruct d.
Qed.

Lemma RunResumedData_read d : (0 ≤ rrdEpoch d < two32)%Z →
  decode_struct RunResumedData_of (RunResumedData_json d) = Some d.
Proof. intros H. unfold RunResumedData_json, RunResumedData_of. payload. by destruct d. Qed.

Lemma NodeInvalidatedData_read d : decode_struct NodeInvalidatedData_of (NodeInvalidatedData_json d) = Some d.
Proof.
  unfold NodeInvalidatedData_json, NodeInvalidatedData_of. struct_fields.
  rewrite decode_list1 by done. by destruct d.
Qed.

Definition metrics_ok (m : MetricSet) : Prop :=
  float_ok (mcTotal (msCost m)) ∧ float_ok (mcInput (msCost m)) ∧ float_ok (mcOutput (msCost m)) ∧
  in_i64 (mtInput (msTokens m)) = true ∧ in_i64 (mtOutput (msTokens m)) = true ∧
  in_i64 (mtCacheCreationInput (msTokens m)) = true ∧ in_i64 (mtCacheReadInput (msTokens m)) = true ∧
  in_i64 (msTurns m) = true.

Lemma MetricSet_read m a : metrics_ok m → as_struct MetricSet_of (MetricSet_json m) a = Some m.
Proof.
  intros (H1 & H2 & H3 & H4 & H5 & H6 & H7 & H8).
  assert (Hc : ∀ a, as_struct MetricCost_of (MetricCost_json (msCost m)) a = Some (msCost m)).
  { intros. unfold MetricCost_json, MetricCost_of, omit_str, omit_float. payload. by destruct (msCost m). }
  assert (Ht : ∀ a, as_struct MetricTokens_of (MetricTokens_json (msTokens m)) a = Some (msTokens m)).
  { intros. unfold MetricTokens_json, MetricTokens_of, omit_int. payload. by destruct (msTokens m). }
  unfold MetricSet_json, MetricSet_of, omit_str. struct_fields.
  rewrite (decode_one _ _ _ _ (Hc _)), (decode_one _ _ _ _ (Ht _)). cbn [mbind option_bind].
  read_fields. by destruct m.
Qed.

Definition completed_ok (d : NodeCompletedData) : Prop :=
  (∀ z, ncExitCode d = Some z → in_i64 z = true) ∧ (∀ m, ncUsage d = Some m → metrics_ok m).

Lemma NodeCompletedData_read d : completed_ok d →
  decode_struct NodeCompletedData_of (NodeCompletedData_json d) = Some d.
Proof.
  intros [He Hu]. unfold NodeCompletedData_json, NodeCompletedData_of, NodeCompletedData_names, omit_str.
  payload. rewrite decode_opt.
  2:{ intros z Hz. split; [|done]. cbn. by rewrite ParseInt_Itoa by auto. }
  read_fields. rewrite decode_map by done. cbn [mbind option_bind].
  assert (E : decode_field (as_ptr (as_struct MetricSet_of) zeroMetrics) None
            [match ncUsage d with Some m => MetricSet_json m | None => JNull end] = Some (ncUsage d)).
  { destruct (ncUsage d) as [m|]; [|done]. unfold decode_field, as_ptr.
    change (MetricSet_json m) with (JObj (match MetricSet_json m with JObj l => l | _ => [] end)) at 1.
    cbn [default from_option id]. pose proof (MetricSet_read m zeroMetrics (Hu m eq_refl)) as Hm.
    cbn [MetricSet_json obj] in *. by rewrite Hm. }
  rewrite E. read_fields. by destruct d.
Qed.

Lemma BranchTakenData_read d : decode_struct BranchTakenData_of (BranchTakenData_json d) = Some d.
Proof. unfold BranchTakenData_json, BranchTakenData_of. payload. by destruct d. Qed.
Lemma LoopIterData_read d : in_i64 (liN d) = true → decode_struct LoopIterData_of (LoopIterData_json d) = Some d.
Proof. intros H. unfold LoopIterData_json, LoopIterData_of. payload. by destruct d. Qed.
Lemma ReactRoundData_read d : in_i64 (rrN d) = true → decode_struct ReactRoundData_of (ReactRoundData_json d) = Some d.
Proof. intros H. unfold ReactRoundData_json, ReactRoundData_of. payload. by destruct d. Qed.
Lemma NodeFailedData_read d : decode_struct NodeFailedData_of (NodeFailedData_json d) = Some d.
Proof. unfold NodeFailedData_json, NodeFailedData_of, omit_str. payload. by destruct d. Qed.
Lemma RunFinishedData_read d : decode_struct RunFinishedData_of (RunFinishedData_json d) = Some d.
Proof. unfold RunFinishedData_json, RunFinishedData_of. payload. by destruct d. Qed.

Definition skills_ok (d : SkillsSelectedData) : Prop :=
  map_Forall (λ _, float_ok) (ssRouterParams d) ∧ Forall (λ s, float_ok (skScore s)) (ssSelected d).

Lemma SkillsSelectedData_read d : skills_ok d →
  decode_struct SkillsSelectedData_of (SkillsSelectedData_json d) = Some d.
Proof.
  intros [Hp Hs]. rewrite Forall_forall in Hs. unfold SkillsSelectedData_json, SkillsSelectedData_of. payload.
  rewrite decode_map1 by (intros k x Hx; exact (proj2 (Hp k x Hx))). cbn [mbind option_bind].
  rewrite decode_list1; [by destruct d|]. intros s Hin. specialize (Hs s Hin).
  unfold SelectedSkill_json, SelectedSkill_of. payload. by destruct s.
Qed.

Lemma ThreadTurn_read d : decode_struct ThreadTurn_of (ThreadTurn_json d) = Some d.
Proof. unfold ThreadTurn_json, ThreadTurn_of. payload. by destruct d. Qed.
End roundtrip.

(** ** Payloads that can always be written *)

Lemma nums_Itoa z : nums_ok (JNum (Itoa z)) = true.
Proof. pose proof (json_wf_Itoa z) as H. cbn [json_wf nums_ok] in *. by apply andb_prop in H as [H _]. Qed.

Lemma marshal_obj fs :
  forallb (λ o : option (string * json), match o with Some kx => nums_ok kx.2 | None => true end) fs = true →
  marshal (obj fs) = Some (obj fs).
Proof.
  intros H. unfold marshal, obj. cbn [nums_ok].
  assert (E : forallb (λ kx : string * json, nums_ok kx.2) (omap id fs) = true); [|by rewrite E].
  revert H. induction fs as [|[kx|] fs IH]; [done|..]; cbn [forallb omap list_omap id]; [|done].
  rewrite !andb_true_iff. intros [-> H]. split; [done|by apply IH].
Qed.

(** [marshals] proves that a payload of strings and integers is written as it is. *)
Ltac marshals :=
  apply marshal_obj; unfold field, omit_str, omit_if; cbn [forallb snd];
  repeat match goal with |- context [String.eqb ?s ""] => destruct (String.eqb s "") end;
  cbn [snd]; rewrite ?nums_Itoa; reflexivity.

Lemma marshal_BranchTaken d : marshal (BranchTakenData_json d) = Some (BranchTakenData_json d).
Proof. marshals. Qed.
Lemma marshal_LoopIter d : marshal (LoopIterData_json d) = Some (LoopIterData_json d).
Proof. marshals. Qed.
Lemma marshal_ReactRound d : marshal (ReactRoundData_json d) = Some (ReactRoundData_json d).
Proof. marshals. Qed.
Lemma marshal_RetryAttempt d : marshal (RetryAttemptData_json d) = Some (RetryAttemptData_json d).
Proof. marshals. Qed.
Lemma marshal_NodeFailed d : marshal (NodeFailedData_json d) = Some (NodeFailedData_json d).
Proof. marshals. Qed.
Lemma marshal_GateAttempt d : marshal (GateAttemptData_json d) = Some (GateAttemptData_json d).
Proof. marshals. Qed.
Lemma marshal_NodeStarted d : marshal (NodeStartedData_json d) = Some (NodeStartedData_json d).
Proof. marshals. Qed.
Lemma marshal_NodeSkipped d : marshal (NodeSkippedData_json d) = Some (NodeSkippedData_json d).
Proof. marshals. Qed.
Lemma marshal_ResolvedRuntime d : marshal (ResolvedRuntime_json d) = Some (ResolvedRuntime_json d).
Proof. marshals. Qed.
Lemma nums_strings (m : gmap string string) : nums_ok (map_json JStr m) = true.
Proof.
  unfold map_json. cbn [nums_ok]. rewrite forallb_forall. intros kx Hin%list_elem_of_In. rewrite key_sort_perm in Hin.
  by apply list_elem_of_fmap in Hin as ([k x] & -> & _).
Qed.
Lemma marshal_CallStarted d : marshal (CallStartedData_json d) = Some (CallStartedData_json d).
Proof.
  apply marshal_obj. unfold field, omit_map, omit_list. cbn [forallb snd nums_ok andb]. rewrite andb_true_r, andb_true_iff. split.
  - destruct (bool_decide (csdInputFiles d = ∅)); [done|]. apply nums_strings.
  - destruct (csdRuntimes d) as [|x l]; [done|]. cbn [nums_ok snd]. rewrite forallb_forall. intros j Hin%list_elem_of_In.
    apply list_elem_of_fmap in Hin as (r & -> & _). pose proof (marshal_ResolvedRuntime r) as Hm. unfold marshal in Hm. by destruct (nums_ok _).
Qed.
Lemma marshal_SignalReceived d : marshal (SignalReceivedData_json d) = Some (SignalReceivedData_json d).
Proof. marshals. Qed.
