(* ===== verification/Ir.v ===== *)
(** * ir: the workflow definition

    The definition types of ir/types.go, node.go, output_files.go, prune.go, reduce.go, tool.go and
    loaded.go, their canonical JSON (node_marshal.go and the struct tags), the one traversal of the
    graph (walk.go) and the content digests (digest.go).  Writing JSON fails on a float that is not
    finite and on a malformed number literal; RFC 8785 canonicalisation is third-party code and a
    parameter.  A nil slice is written null and is told apart from an empty one where the field has
    no omitempty. *)

From S2P Require Import Prelude GoNum GoJson GoStruct Sha256 RetryPolicy EnginePath.

(** ** Types *)

Definition Duration : Type := Z.
Definition JSONSchema : Type := list (string * value).
Definition RawConfig : Type := gomap.
(** [json.Number]. *)
Definition Ratio : Type := string.

Record Timeout : Type := MkTimeout { toWall : option Duration; toIdle : option Duration }.

Record OutputFile : Type := MkOutputFile {
  ofName : string; ofPath : string; ofFormat : string; ofSchema : option JSONSchema; ofSchemaRef : string }.
Definition OutputFiles : Type := list OutputFile.

Record ArtifactContract : Type := MkContract {
  acFormat : string; acSchema : option JSONSchema; acSchemaRef : string }.
Definition WorkflowInputFiles : Type := gmap string ArtifactContract.

Record CodeStep : Type := MkCodeStep {
  csID : string; csContainer : string; csRun : string; csTimeout : option Timeout;
  csOutputSchema : option JSONSchema; csOutputFiles : OutputFiles; csInputFiles : gmap string string;
  csIdempotencyKey : option string; csRetry : option RetryPolicy }.

Record StepSkillRouting : Type := MkSkillRouting {
  srtFrom : string; srtQuery : string; srtLimit : Z; srtInto : string }.

Record Jury : Type := MkJury { juOver : option (list gomap); juQuorum : option Ratio; juField : string }.

Record AgentStep : Type := MkAgentStep {
  asID : string; asContainer : string; asUses : string; asWith : RawConfig; asContinues : string;
  asOutputSchema : option JSONSchema; asOutputFiles : OutputFiles; asOutputArtifact : string;
  asSkills : option StepSkillRouting; asInputFiles : gmap string string; asTimeout : option Timeout;
  asIdempotencyKey : option string; asRetry : option RetryPolicy; asJury : option Jury }.

Record SignalStep : Type := MkSignalStep {
  ssID : string; ssAwait : string; ssWhere : string; ssTimeout : option Duration;
  ssOutputSchema : option JSONSchema }.

Record CallStep : Type := MkCallStep {
  caID : string; caCall : string; caInput : gmap string json; caInputFiles : gmap string string }.

Record Reduce : Type := MkReduce {
  rdQuorum : option Ratio; rdField : string; rdRun : string; rdContainer : string;
  rdOutputSchema : option JSONSchema; rdOutputFiles : OutputFiles }.
Definition IsQuorum (r : option Reduce) : bool :=
  match r with Some r => match rdQuorum r with Some _ => true | None => false end | None => false end.
Definition IsRun (r : option Reduce) : bool :=
  match r with Some r => negb (String.eqb (rdRun r) "") | None => false end.

Record Prune : Type := MkPrune { pnScore : string; pnKeep : option Z; pnStopWhen : string }.

(** The fields of a map other than its body. *)
Record MapHead : Type := MkMapHead {
  mpID : string; mpOver : string; mpOverItems : option (list value); mpAs : string; mpContainer : string;
  mpImage : string; mpConcurrency : option Z; mpMinSuccess : option Ratio; mpReduce : option Reduce;
  mpPrune : option Prune }.

Record React : Type := MkReact {
  reID : string; reWith : RawConfig; rePrompt : string; reTools : option (list string); reMaxTurns : Z;
  reOutputSchema : option JSONSchema }.

(** The thirteen kinds.  [option (list Node)] is a [NodeList], nil or not. *)
Inductive Node : Type :=
  | NCode (s : CodeStep)
  | NAgent (s : AgentStep)
  | NSignal (s : SignalStep)
  | NCall (s : CallStep)
  | NIf (cond : string) (then_ else_ : option (list Node))
  | NLoop (until : option string) (maxIters : option Z) (body : option (list Node))
  | NTry (do_ catch finally : option (list Node))
  | NParallel (children : option (list Node))
  | NGate (generate evaluate : option (list Node)) (until : string) (maxAttempts : Z)
  | NSkip (reason : string)
  | NMap (head : MapHead) (body : option (list Node))
  | NCompose (as_ from service : string) (body : option (list Node))
  | NReact (r : React).
Definition NodeList : Type := option (list Node).

Record Resources : Type := MkResources { rsCPU : string; rsMem : string }.
Record Container : Type := MkContainer {
  coImage : string; coCompose : string; coService : string; coSnapshot : string; coCmd : list string;
  coKeepalive : option bool; coResources : option Resources }.
Record SkillCorpus : Type := MkSkillCorpus { skcFrom : string; skcLayout : string; skcRouter : string }.
Record AgentRole : Type := MkAgentRole {
  arUses : string; arModel : string; arSystemPrompt : string; arWith : RawConfig }.
Record ToolImpl : Type := MkToolImpl {
  tiRun : string; tiContainer : string; tiTimeout : option Duration; tiOutputFiles : OutputFiles;
  tiInputFiles : gmap string string; tiRetry : option RetryPolicy }.
Record Tool : Type := MkTool { tlDescription : string; tlInputSchema : option JSONSchema; tlImpl : ToolImpl }.

Record Workflow : Type := MkWorkflow {
  wfID : string; wfVersion : Z; wfInputSchema : option JSONSchema; wfInputFiles : WorkflowInputFiles;
  wfEnv : list string; wfAssets : gmap string string; wfSkills : gmap string SkillCorpus;
  wfImports : gmap string string; wfAgents : gmap string AgentRole;
  wfContainers : option (gmap string Container); wfOutputSchema : option JSONSchema;
  wfOutputs : gmap string json; wfArtifactExports : gmap string string; wfTools : gmap string Tool;
  wfGraph : NodeList; wfDigest : string }.

Definition RoleByName (w : Workflow) (name : string) : option AgentRole := wfAgents w !! name.

(** ** Canonical JSON *)

(** A map over an option or a list whose function can fail. *)
Definition opt_json {A} (f : A → option json) (o : option A) : option (option json) :=
  match o with None => Some None | Some a => Some <$> f a end.
Definition list_json {A} (f : A → option json) : list A → option (list json) :=
  fix go l := match l with [] => Some [] | a :: l => j ← f a; js ← go l; Some (j :: js) end.
Definition gmap_json {A} (f : A → option json) (m : gmap string A) : option (gmap string json) :=
  list_to_map <$> (fix go (l : list (string * A)) := match l with
                   | [] => Some []
                   | (k, a) :: l => j ← f a; r ← go l; Some ((k, j) :: r)
                   end) (map_to_list m).
Definition omit_json (k : string) (o : option json) : option (string * json) := omit_opt k id o.

Definition Duration_json (d : Duration) : json := JNum (Itoa d).
Definition JSONSchema_json (s : JSONSchema) : option json := to_json (VMap s).
Definition anymap_json (m : gomap) : option json :=
  match m with None => Some JNull | Some l => to_json (VMap l) end.
(** An omitempty map field. *)
Definition anymap_omit (m : gomap) : option (option json) :=
  match m with None | Some [] => Some None | Some l => Some <$> to_json (VMap l) end.
Definition Ratio_json (r : Ratio) : option json := to_json (VNumber r).

Definition Timeout_json (t : Timeout) : json :=
  match toIdle t with
  | None => match toWall t with None => JNull | Some d => Duration_json d end
  | Some idle =>
      JObj (("idle", Duration_json idle)
            :: match toWall t with Some w => [("wall", Duration_json w)] | None => [] end)
  end.

Definition RetryPolicy_json (r : RetryPolicy) : json :=
  obj [ omit_int "attempts" (rpAttempts r); omit_str "backoff" (rpBackoff r);
        omit_opt "initial" Duration_json (rpInitial r); omit_opt "max" Duration_json (rpMax r);
        omit_list "non_retryable_exit_codes" (λ z, JNum (Itoa z)) (default [] (rpNonRetryableExitCodes r));
        omit_str "recovery" (rpRecovery r) ].

Definition ContractFromOutputFile (f : OutputFile) : ArtifactContract :=
  MkContract (ofFormat f) (ofSchema f) (ofSchemaRef f).

Definition contract_fields (c : ArtifactContract) : option (list (option (string * json))) :=
  s ← opt_json JSONSchema_json (acSchema c);
  Some [omit_str "format" (acFormat c); omit_json "schema" s; omit_str "schema_ref" (acSchemaRef c)].
Definition contract_json (c : ArtifactContract) : option json := obj <$> contract_fields c.

(** One entry of the named form: a path, or a contract object. *)
Definition OutputFile_json (f : OutputFile) : option json :=
  if String.eqb (ofFormat f) "" && String.eqb (ofSchemaRef f) ""
     && match ofSchema f with None => true | Some _ => false end
  then Some (JStr (ofPath f))
  else fs ← contract_fields (ContractFromOutputFile f); Some (obj (field "path" (JStr (ofPath f)) :: fs)).

(** A list of paths, or a map by name (the last entry of a name wins). *)
Definition OutputFiles_json (o : OutputFiles) : option json :=
  if forallb (λ f, String.eqb (ofName f) "") o then Some (JArr (map (JStr ∘ ofPath) o))
  else
    ms ← (fix go l acc := match l with
                          | [] => Some acc
                          | f :: l => j ← OutputFile_json f; go l (<[ofName f := j]> acc)
                          end) o (∅ : gmap string json);
    Some (map_json id ms).
Definition OutputFiles_omit (o : OutputFiles) : option (option json) :=
  match o with [] => Some None | _ => Some <$> OutputFiles_json o end.

Definition CodeStep_json (s : CodeStep) : option json :=
  sc ← opt_json JSONSchema_json (csOutputSchema s);
  fs ← OutputFiles_omit (csOutputFiles s);
  Some (obj [ field "id" (JStr (csID s)); omit_str "container" (csContainer s); field "run" (JStr (csRun s));
              omit_opt "timeout" Timeout_json (csTimeout s); omit_json "output_schema" sc;
              omit_json "output_files" fs; omit_map "input_files" JStr (csInputFiles s);
              omit_opt "idempotency_key" JStr (csIdempotencyKey s); omit_opt "retry" RetryPolicy_json (csRetry s) ]).

Definition StepSkillRouting_json (s : StepSkillRouting) : json :=
  obj [ field "from" (JStr (srtFrom s)); field "query" (JStr (srtQuery s));
        field "limit" (JNum (Itoa (srtLimit s))); field "into" (JStr (srtInto s)) ].

Definition Jury_json (j : Jury) : option json :=
  ov ← match juOver j with None => Some JNull | Some l => JArr <$> list_json anymap_json l end;
  q ← match juQuorum j with None => Some JNull | Some r => Ratio_json r end;
  Some (obj [ field "over" ov; field "quorum" q; omit_str "field" (juField j) ]).

Definition AgentStep_json (s : AgentStep) : option json :=
  wi ← anymap_omit (asWith s);
  sc ← opt_json JSONSchema_json (asOutputSchema s);
  fs ← OutputFiles_omit (asOutputFiles s);
  ju ← opt_json Jury_json (asJury s);
  Some (obj [ field "id" (JStr (asID s)); omit_str "container" (asContainer s); field "uses" (JStr (asUses s));
              omit_json "with" wi; omit_str "continues" (asContinues s); omit_json "output_schema" sc;
              omit_json "output_files" fs; omit_str "output_artifact" (asOutputArtifact s);
              omit_opt "skills" StepSkillRouting_json (asSkills s); omit_map "input_files" JStr (asInputFiles s);
              omit_opt "timeout" Timeout_json (asTimeout s); omit_opt "idempotency_key" JStr (asIdempotencyKey s);
              omit_opt "retry" RetryPolicy_json (asRetry s); omit_json "jury" ju ]).

Definition SignalStep_json (s : SignalStep) : option json :=
  sc ← opt_json JSONSchema_json (ssOutputSchema s);
  Some (obj [ field "id" (JStr (ssID s)); field "await" (JStr (ssAwait s)); omit_str "where" (ssWhere s);
              omit_opt "timeout" Duration_json (ssTimeout s); omit_json "output_schema" sc ]).

Definition CallStep_json (s : CallStep) : json :=
  obj [ field "id" (JStr (caID s)); field "call" (JStr (caCall s)); omit_map "input" id (caInput s);
        omit_map "input_files" JStr (caInputFiles s) ].

Definition Reduce_json (r : Reduce) : option json :=
  q ← opt_json Ratio_json (rdQuorum r);
  sc ← opt_json JSONSchema_json (rdOutputSchema r);
  fs ← OutputFiles_omit (rdOutputFiles r);
  Some (obj [ omit_json "quorum" q; omit_str "field" (rdField r); omit_str "run" (rdRun r);
              omit_str "container" (rdContainer r); omit_json "output_schema" sc; omit_json "output_files" fs ]).

Definition Prune_json (p : Prune) : json :=
  obj [ field "score" (JStr (pnScore p)); omit_opt "keep" (λ k, JNum (Itoa k)) (pnKeep p);
        omit_str "stop_when" (pnStopWhen p) ].

Definition React_json (r : React) : option json :=
  wi ← anymap_omit (reWith r);
  sc ← opt_json JSONSchema_json (reOutputSchema r);
  Some (obj [ omit_str "id" (reID r); omit_json "with" wi; field "prompt" (JStr (rePrompt r));
              field "tools" (match reTools r with None => JNull | Some l => JArr (map JStr l) end);
              omit_int "max_turns" (reMaxTurns r); omit_json "output_schema" sc ]).

(** [wrap]: a control node under its keyword. *)
Definition wrap (key : string) (inner : json) : json := JObj [(key, inner)].

(** A node list: null when nil. *)
Definition nodes_json (f : Node → option json) (o : option (list Node)) : option json :=
  match o with None => Some JNull | Some l => JArr <$> list_json f l end.
(** An omitempty node list. *)
Definition nodes_omit (f : Node → option json) (o : option (list Node)) : option (option json) :=
  match o with None => Some None | Some l => match l with [] => Some None | _ => Some ∘ JArr <$> list_json f l end end.

(** The members of a map: "over" first, as its own arm writes it. *)
Definition Map_fields (m : MapHead) (body : json) : option (list (option (string * json))) :=
  over ← match mpOverItems m with Some l => to_json (VSlice l) | None => Some (JStr (mpOver m)) end;
  ms ← opt_json Ratio_json (mpMinSuccess m);
  rd ← opt_json Reduce_json (mpReduce m);
  Some [ field "over" over; omit_str "id" (mpID m); field "as" (JStr (mpAs m));
         field "container" (JStr (mpContainer m)); omit_str "image" (mpImage m);
         omit_opt "concurrency" (λ z, JNum (Itoa z)) (mpConcurrency m); omit_json "min_success" ms;
         field "body" body; omit_json "reduce" rd; omit_opt "prune" Prune_json (mpPrune m) ].

Fixpoint Node_json (n : Node) : option json :=
  match n with
  | NCode s => CodeStep_json s
  | NAgent s => AgentStep_json s
  | NSignal s => SignalStep_json s
  | NCall s => Some (CallStep_json s)
  | NIf cond then_ else_ =>
      t ← nodes_json Node_json then_; e ← nodes_omit Node_json else_;
      Some (wrap "if" (obj [field "cond" (JStr cond); field "then" t; omit_json "else" e]))
  | NLoop until maxIters body =>
      b ← nodes_json Node_json body;
      Some (wrap "loop" (obj [omit_opt "until" JStr until; omit_opt "max_iters" (λ z, JNum (Itoa z)) maxIters;
                              field "body" b]))
  | NTry do_ catch finally =>
      d ← nodes_json Node_json do_; c ← nodes_omit Node_json catch; f ← nodes_omit Node_json finally;
      Some (wrap "try" (obj [field "do" d; omit_json "catch" c; omit_json "finally" f]))
  | NParallel children => c ← nodes_json Node_json children; Some (wrap "parallel" c)
  | NGate generate evaluate until maxAttempts =>
      g ← nodes_json Node_json generate; e ← nodes_json Node_json evaluate;
      Some (wrap "gate" (obj [field "generate" g; field "evaluate" e; field "until" (JStr until);
                              field "max_attempts" (JNum (Itoa maxAttempts))]))
  | NSkip reason => Some (wrap "skip" (JStr reason))
  | NMap head body => b ← nodes_json Node_json body; fs ← Map_fields head b; Some (wrap "map" (obj fs))
  | NCompose as_ from service body =>
      b ← nodes_json Node_json body;
      Some (wrap "compose" (obj [field "as" (JStr as_); field "from" (JStr from); field "service" (JStr service);
                                 field "body" b]))
  | NReact r => j ← React_json r; Some (wrap "react" j)
  end.

Definition Container_json (c : Container) : json :=
  obj [ omit_str "image" (coImage c); omit_str "compose" (coCompose c); omit_str "service" (coService c);
        omit_str "snapshot" (coSnapshot c); omit_list "cmd" JStr (coCmd c); omit_opt "keepalive" JBool (coKeepalive c);
        omit_opt "resources" (λ r, obj [omit_str "cpu" (rsCPU r); omit_str "mem" (rsMem r)]) (coResources c) ].
Definition SkillCorpus_json (s : SkillCorpus) : json :=
  obj [field "from" (JStr (skcFrom s)); field "layout" (JStr (skcLayout s)); field "router" (JStr (skcRouter s))].
Definition AgentRole_json (a : AgentRole) : option json :=
  wi ← anymap_omit (arWith a);
  Some (obj [ field "uses" (JStr (arUses a)); omit_str "model" (arModel a);
              omit_str "system_prompt" (arSystemPrompt a); omit_json "with" wi ]).
Definition ToolImpl_json (t : ToolImpl) : option json :=
  fs ← OutputFiles_omit (tiOutputFiles t);
  Some (obj [ omit_str "run" (tiRun t); omit_str "container" (tiContainer t);
              omit_opt "timeout" Duration_json (tiTimeout t); omit_json "output_files" fs;
              omit_map "input_files" JStr (tiInputFiles t); omit_opt "retry" RetryPolicy_json (tiRetry t) ]).
Definition Tool_json (t : Tool) : option json :=
  sc ← opt_json JSONSchema_json (tlInputSchema t);
  im ← ToolImpl_json (tlImpl t);
  Some (obj [field "description" (JStr (tlDescription t)); omit_json "input_schema" sc; field "impl" im]).

(** [json.Marshal(w)]; the digest is not written. *)
Definition Workflow_json (w : Workflow) : option json :=
  is_ ← opt_json JSONSchema_json (wfInputSchema w);
  if_ ← gmap_json contract_json (wfInputFiles w);
  ag ← gmap_json AgentRole_json (wfAgents w);
  os ← opt_json JSONSchema_json (wfOutputSchema w);
  tl ← gmap_json Tool_json (wfTools w);
  gr ← nodes_json Node_json (wfGraph w);
  Some (obj [ field "workflow" (JStr (wfID w)); field "version" (JNum (Itoa (wfVersion w)));
              omit_json "input_schema" is_; omit_map "input_files" id if_; omit_list "env" JStr (wfEnv w);
              omit_map "assets" JStr (wfAssets w); omit_map "skills" SkillCorpus_json (wfSkills w);
              omit_map "imports" JStr (wfImports w); omit_map "agents" id ag;
              field "containers" (match wfContainers w with None => JNull | Some m => map_json Container_json m end);
              omit_json "output_schema" os; omit_map "outputs" id (wfOutputs w);
              omit_map "output_files" JStr (wfArtifactExports w); omit_map "tools" id tl; field "graph" gr ]).

(** ** WalkNodes *)

(** A visit of each node of a list in order, with its index. *)
Definition walk_list {X} (f : Node → Z → list X) : list Node → Z → list X :=
  fix go l i := match l with [] => [] | n :: l => f n i ++ go l (i + 1)%Z end.
Definition walk_nodes {X} (f : Node → Z → list X) (o : option (list Node)) : list X :=
  match o with None => [] | Some l => walk_list f l 0%Z end.

(** The visits of one node of index [i] under [parent], in order. *)
Fixpoint walkNode (parent : string) (n : Node) (i : Z) : list (Node * string) :=
  match n with
  | NCode s => [(n, PathFor parent "" (csID s) i)]
  | NAgent s => [(n, PathFor parent "" (asID s) i)]
  | NSignal s => [(n, PathFor parent "" (ssID s) i)]
  | NCall s => [(n, PathFor parent "" (caID s) i)]
  | NSkip _ => []
  | NIf _ then_ else_ =>
      (n, PathFor parent "if" "" i)
      :: walk_nodes (walkNode (ChildPath parent "if" i "then")) then_
      ++ walk_nodes (walkNode (ChildPath parent "if" i "else")) else_
  | NLoop _ _ body =>
      (n, PathFor parent "loop" "" i) :: walk_nodes (walkNode (ChildPath parent "loop" i "body")) body
  | NTry do_ catch finally =>
      (n, PathFor parent "try" "" i)
      :: walk_nodes (walkNode (ChildPath parent "try" i "do")) do_
      ++ walk_nodes (walkNode (ChildPath parent "try" i "catch")) catch
      ++ walk_nodes (walkNode (ChildPath parent "try" i "finally")) finally
  | NParallel children =>
      let path := PathFor parent "parallel" "" i in
      (n, path) :: walk_nodes (walkNode path) children
  | NGate generate evaluate _ _ =>
      (n, PathFor parent "gate" "" i)
      :: walk_nodes (walkNode (ChildPath parent "gate" i "generate")) generate
      ++ walk_nodes (walkNode (ChildPath parent "gate" i "evaluate")) evaluate
  | NMap _ body =>
      (n, PathFor parent "map" "" i) :: walk_nodes (walkNode (ChildPath parent "map" i "body")) body
  | NCompose _ _ _ body =>
      (n, PathFor parent "compose" "" i) :: walk_nodes (walkNode (ChildPath parent "compose" i "body")) body
  | NReact _ => [(n, PathFor parent "react" "" i)]
  end.

Definition WalkNodes (list : NodeList) (parent : string) : Datatypes.list (Node * string) :=
  walk_nodes (walkNode parent) list.

(** engine/step_path_index.go: the last step of an id wins. *)
Definition step_id (n : Node) : option string :=
  match n with
  | NCode s => Some (csID s) | NAgent s => Some (asID s) | NSignal s => Some (ssID s) | NCall s => Some (caID s)
  | _ => None
  end.

Definition StepPathIndex (wf : Workflow) : gmap string string :=
  foldl (λ m (np : Node * string), match step_id np.1 with Some id => <[id := np.2]> m | None => m end) ∅
    (WalkNodes (wfGraph wf) "").

(** ir/runtime_compose.go *)
Definition FirstRuntimeComposePath (wf : Workflow) : option string :=
  (λ np : Node * string, np.2) <$>
    List.find (λ np : Node * string, match np.1 with NCompose _ _ _ _ => true | _ => false end)
      (WalkNodes (wfGraph wf) "").

(** ir/prune.go, ir/map_products.go *)
Definition LastStepID (body : NodeList) : option string :=
  match last (default [] body) with
  | Some (NCode s) => Some (csID s)
  | Some (NAgent s) => Some (asID s)
  | _ => None
  end.

Definition MapCompactProducer (body : NodeList) : option (string * JSONSchema) :=
  match last (default [] body) with
  | Some (NCode s) => (λ j, (csID s, j)) <$> csOutputSchema s
  | Some (NAgent s) => (λ j, (asID s, j)) <$> asOutputSchema s
  | Some (NSignal s) => (λ j, (ssID s, j)) <$> ssOutputSchema s
  | _ => None
  end.

(** ir/output_files.go *)
Definition Paths (o : OutputFiles) : list string := ofPath <$> o.
Definition PathForName (o : OutputFiles) (name : string) : option string :=
  ofPath <$> List.find (λ f, String.eqb (ofName f) name) o.

(** The files a node publishes, under which id. *)
Definition node_output_files (n : Node) : option (string * OutputFiles) :=
  match n with
  | NCode s => Some (csID s, csOutputFiles s)
  | NAgent s =>
      Some (asID s, if negb (String.eqb (asOutputArtifact s) "")
                    then [MkOutputFile (asOutputArtifact s) (asOutputArtifact s) "" None ""]
                    else asOutputFiles s)
  | NMap h _ =>
      match mpReduce h with
      | Some r => if negb (String.eqb (mpID h) "") then Some (mpID h, rdOutputFiles r) else None
      | None => None
      end
  | _ => None
  end.
(** Later nodes of an id win. *)
Definition OutputFilesByStepID (wf : Workflow) : gmap string OutputFiles :=
  foldl (λ m (np : Node * string), match node_output_files np.1 with
                                   | Some (id, fs) => <[id := fs]> m
                                   | None => m
                                   end) ∅ (WalkNodes (wfGraph wf) "").

(** ** Digests *)

Definition DigestScheme : string := "awf-d1:sha256:".

Record LoadedAssetFile : Type := MkAssetBytes { lfPath : string; lfBytes : string }.
Definition Size (f : LoadedAssetFile) : Z := Z.of_nat (slen (lfBytes f)).
Definition SHA256 (f : LoadedAssetFile) : string := EncodeToString (Sum256 (lfBytes f)).
Record LoadedAsset : Type := MkLoadedAsset {
  laID : string; laDeclaredPath : string; laIsDir : bool; laFiles : list LoadedAssetFile }.
Record LoadedModule : Type := MkModule {
  lmID : string; lmWorkflow : option Workflow; lmComposeFiles : gmap string string; lmAssets : gmap string LoadedAsset }.
Record LoadedImportEdge : Type := MkEdge {
  leParentID : string; leImportID : string; leDeclaredPath : string; leChildID : string }.
Record LoadedDefinition : Type := MkLoaded {
  ldWorkflow : option Workflow; ldComposeFiles : gmap string string; ldAssets : gmap string LoadedAsset;
  ldModules : option (gmap string LoadedModule); ldImportEdges : list LoadedImportEdge }.

Definition nul : string := String (ascii_of_nat 0) "".
(** [writeDigestFrame]: what it adds to the hashed stream. *)
Definition writeDigestFrame (s : string) : string :=
  nul +:+ Itoa (Z.of_nat (slen s)) +:+ ":" +:+ s +:+ nul.
Fixpoint digestFrames (l : list string) : string :=
  match l with [] => "" | s :: l => writeDigestFrame s +:+ digestFrames l end.
Definition byte_string (bs : list Z) : string := string_of_list_ascii (map (λ z, ascii_of_nat (Z.to_nat z)) bs).

(** The digest of a hashed stream. *)
Definition digest_of (stream : string) : string := DigestScheme +:+ EncodeToString (Sum256 stream).

(** Sorted by key; [sort.Slice] by a string field, keeping the order of equal ones is not specified, so
    equal paths are left to the caller. *)
Definition sorted_entries {A} (m : gmap string A) : list (string * A) := key_sort (map_to_list m).
Definition sort_files (l : list LoadedAssetFile) : list (string * string) :=
  key_sort (map (λ f, (lfPath f, lfBytes f)) l).

Definition concat_str (l : list string) : string := foldr String.append "" l.

Definition compose_stream (composeFiles : gmap string string) : string :=
  concat_str (map (λ kv : string * string, writeDigestFrame kv.1 +:+ byte_string (Sum256 kv.2)) (sorted_entries composeFiles)).

Definition asset_stream (a : LoadedAsset) : string :=
  digestFrames ["asset"; laID a; laDeclaredPath a; if laIsDir a then "dir" else "file"] +:+
  concat_str (map (λ pb : string * string, digestFrames ["asset-file"; pb.1] +:+ byte_string (Sum256 pb.2))
                  (sort_files (laFiles a))).

(** Fails on an asset stored under another id. *)
Definition assets_stream (assets : gmap string LoadedAsset) : option string :=
  (fix go l := match l with
               | [] => Some ""
               | (id, a) :: l =>
                   if negb (String.eqb (laID a) id) then None
                   else r ← go l; Some (asset_stream a +:+ r)
               end) (sorted_entries assets).

(** The name of a node's Go type. *)
Definition node_type (n : Node) : string :=
  match n with
  | NCode _ => "*ir.CodeStep" | NAgent _ => "*ir.AgentStep" | NSignal _ => "*ir.SignalStep" | NCall _ => "*ir.CallStep"
  | NIf _ _ _ => "*ir.If" | NLoop _ _ _ => "*ir.Loop" | NTry _ _ _ => "*ir.Try" | NParallel _ => "*ir.Parallel"
  | NGate _ _ _ _ => "*ir.Gate" | NSkip _ => "*ir.Skip" | NMap _ _ => "*ir.Map" | NCompose _ _ _ _ => "*ir.Compose"
  | NReact _ => "*ir.React"
  end.

Definition skeleton (graph : NodeList) : list string :=
  flat_map (λ np : Node * string, ["node"; np.2; node_type np.1]) (WalkNodes graph "").

Definition with_graph (w : Workflow) (g : NodeList) : Workflow :=
  MkWorkflow (wfID w) (wfVersion w) (wfInputSchema w) (wfInputFiles w) (wfEnv w) (wfAssets w) (wfSkills w)
    (wfImports w) (wfAgents w) (wfContainers w) (wfOutputSchema w) (wfOutputs w) (wfArtifactExports w)
    (wfTools w) g (wfDigest w).
Definition with_imports (w : Workflow) (i : gmap string string) : Workflow :=
  MkWorkflow (wfID w) (wfVersion w) (wfInputSchema w) (wfInputFiles w) (wfEnv w) (wfAssets w) (wfSkills w)
    i (wfAgents w) (wfContainers w) (wfOutputSchema w) (wfOutputs w) (wfArtifactExports w)
    (wfTools w) (wfGraph w) (wfDigest w).

(** The frames a loaded definition with imports is hashed from. *)
Definition edge_frames (e : LoadedImportEdge) : list string :=
  ["import-edge"; leParentID e; leImportID e; leDeclaredPath e; leChildID e].
Definition definition_frames (rootDigest : string) (modules : list (string * string)) (edges : list LoadedImportEdge)
    : list string :=
  ["loaded-definition-v1"; "root"; rootDigest]
  ++ flat_map (λ m : string * string, ["module"; m.1; m.2]) modules ++ flat_map edge_frames edges.

Section digest.
(** [jcs.Transform]. *)
Variable jcs : string → option string.

Definition canonical_json (j : option json) : option string :=
  t ← j; jcs (json_print t).

Definition ComputeDigest (w : Workflow) (composeFiles : gmap string string) (assets : gmap string LoadedAsset)
    : option string :=
  canon ← canonical_json (Workflow_json w);
  a ← assets_stream assets;
  Some (digest_of (canon +:+ compose_stream composeFiles +:+ a)).

Definition StructuralDigest (w : Workflow) (composeFiles : gmap string string) (assets : gmap string LoadedAsset)
    : option string :=
  canon ← canonical_json (Workflow_json (with_graph w None));
  a ← assets_stream assets;
  Some (digest_of (canon +:+ compose_stream composeFiles +:+ a +:+ digestFrames (skeleton (wfGraph w)))).

Definition NodeSubtreeDigest (n : Node) : option string :=
  canon ← canonical_json (Node_json n); Some (digest_of canon).

Definition Root (ld : LoadedDefinition) : option LoadedModule :=
  match ldModules ld with
  | Some ms => match ms !! "" with
               | Some r => Some r
               | None => Some (MkModule "" (ldWorkflow ld) (ldComposeFiles ld) (ldAssets ld))
               end
  | None => Some (MkModule "" (ldWorkflow ld) (ldComposeFiles ld) (ldAssets ld))
  end.
Definition Module_ (ld : LoadedDefinition) (id : string) : option LoadedModule :=
  match ldModules ld with
  | Some ms => ms !! id
  | None => if String.eqb id "" then Root ld else None
  end.

Definition hasImportedModules (ld : LoadedDefinition) : bool :=
  match ldModules ld with
  | None => false
  | Some ms => existsb (λ kv : string * LoadedModule, negb (String.eqb kv.1 "")) (map_to_list ms)
  end.

(** The declared path of the module's edges replaces what the workflow wrote. *)
Definition normalizedImportsFor (ld : LoadedDefinition) (moduleID : string) (imports : gmap string string)
    : gmap string string :=
  foldl (λ m e, if String.eqb (leParentID e) moduleID then <[leImportID e := leDeclaredPath e]> m else m)
        imports (ldImportEdges ld).

Definition computeModuleWorkflowDigest (ld : LoadedDefinition) (md : LoadedModule) : option string :=
  wf ← lmWorkflow md;
  if bool_decide (wfImports wf = ∅) then ComputeDigest wf (lmComposeFiles md) (lmAssets md)
  else ComputeDigest (with_imports wf (normalizedImportsFor ld (lmID md) (wfImports wf)))
         (lmComposeFiles md) (lmAssets md).

(** The order of [WalkImportEdges]: the root's edges first, then by parent, import, child, path. *)
Definition edge_leb (a b : LoadedImportEdge) : bool :=
  if negb (String.eqb (leParentID a) (leParentID b)) then
    if String.eqb (leParentID a) "" then true
    else if String.eqb (leParentID b) "" then false
    else String.leb (leParentID a) (leParentID b)
  else if negb (String.eqb (leImportID a) (leImportID b)) then String.leb (leImportID a) (leImportID b)
  else if negb (String.eqb (leChildID a) (leChildID b)) then String.leb (leChildID a) (leChildID b)
  else String.leb (leDeclaredPath a) (leDeclaredPath b).
Fixpoint edge_insert (e : LoadedImportEdge) (l : list LoadedImportEdge) : list LoadedImportEdge :=
  match l with [] => [e] | e' :: l' => if edge_leb e e' then e :: l else e' :: edge_insert e l' end.
Definition WalkImportEdges (ld : LoadedDefinition) : list LoadedImportEdge := foldr edge_insert [] (ldImportEdges ld).

(** The digests of the imported modules, in the order given. *)
Fixpoint module_digests (ld : LoadedDefinition) (l : list (string * LoadedModule)) : option (list (string * string)) :=
  match l with
  | [] => Some []
  | (id, md) :: l =>
      if String.eqb id "" then module_digests ld l
      else d ← computeModuleWorkflowDigest ld md;
           r ← module_digests ld l;
           Some ((id, d) :: r)
  end.

Definition LoadedDefinition_ComputeDigest (ld : LoadedDefinition) : option string :=
  if negb (hasImportedModules ld) && bool_decide (length (ldImportEdges ld) = 0%nat) then
    wf ← ldWorkflow ld; ComputeDigest wf (ldComposeFiles ld) (ldAssets ld)
  else
    root ← Root ld;
    rootDigest ← computeModuleWorkflowDigest ld root;
    ms ← module_digests ld (sorted_entries (default ∅ (ldModules ld)));
    Some (digest_of (digestFrames (definition_frames rootDigest ms (WalkImportEdges ld)))).
End digest.

(** ** The paths of a graph *)

(** A path extended by one segment, and by several. *)
Definition join1 (p seg : string) : string := if String.eqb p "" then seg else p +:+ "." +:+ seg.
Definition path_of (p : string) (segs : list string) : string := foldl join1 p segs.

(** A node's own segment. *)
Definition self_seg (n : Node) (i : Z) : string :=
  let step id := if String.eqb id "" then "?[" +:+ Itoa i +:+ "]" else id in
  let control kw := kw +:+ "[" +:+ Itoa i +:+ "]" in
  match n with
  | NCode s => step (csID s) | NAgent s => step (asID s) | NSignal s => step (ssID s) | NCall s => step (caID s)
  | NIf _ _ _ => control "if" | NLoop _ _ _ => control "loop" | NTry _ _ _ => control "try"
  | NParallel _ => control "parallel" | NGate _ _ _ _ => control "gate" | NSkip _ => control "skip"
  | NMap _ _ => control "map" | NCompose _ _ _ _ => control "compose" | NReact _ => control "react"
  end.

(** The child lists of a node and the segments they are addressed under. *)
Definition branches (n : Node) : list (list string * option (list Node)) :=
  match n with
  | NIf _ t e => [(["then"], t); (["else"], e)]
  | NLoop _ _ b => [(["body"], b)]
  | NTry d c f => [(["do"], d); (["catch"], c); (["finally"], f)]
  | NParallel c => [([], c)]
  | NGate g e _ _ => [(["generate"], g); (["evaluate"], e)]
  | NMap _ b | NCompose _ _ _ b => [(["body"], b)]
  | _ => []
  end.

Definition is_skip (n : Node) : bool := match n with NSkip _ => true | _ => false end.

Section Node_ind.
Variable P : Node → Prop.
Hypothesis HP : ∀ n, (∀ b l, (b, l) ∈ branches n → Forall P (default [] l)) → P n.

Fixpoint Node_ind' (n : Node) : P n.
Proof.
  apply HP. intros b l Hb.
  assert (IH : ∀ o : option (list Node), o ∈ (branches n).*2 → Forall P (default [] o)).
  { clear b l Hb.
    destruct n; cbn [branches fmap list_fmap snd]; intros o Ho;
      repeat (apply elem_of_cons in Ho as [->|Ho]); try (by apply not_elem_of_nil in Ho);
      repeat match goal with o : option (list Node) |- _ => clear Ho; revert o end.
    all: intros; lazymatch goal with |- Forall P (default [] ?o) => destruct o as [l|]; [|constructor] end;
      cbn [default from_option id];
      induction l; constructor; [apply Node_ind'|assumption]. }
  apply IH. apply list_elem_of_fmap. by exists (b, l).
Qed.
End Node_ind.

Section walk.
Lemma seg_nonempty n i : self_seg n i ≠ "".
Proof.
  destruct n as [s|s|s|s|??|? |? ?|?|? ?|?|? ?|? ?|?]; cbn; try done;
    match goal with |- (if String.eqb ?x "" then _ else _) ≠ _ => destruct (String.eqb_spec x "") end; done.
Qed.

Lemma join1_nonempty p seg : seg ≠ "" → join1 p seg ≠ "".
Proof. unfold join1. destruct (String.eqb p ""); [done|]. by destruct p. Qed.

Lemma walkNode_eq parent n i :
  walkNode parent n i =
  if is_skip n then []
  else (n, join1 parent (self_seg n i))
       :: flat_map (λ bl, walk_nodes (walkNode (path_of (join1 parent (self_seg n i)) bl.1)) bl.2) (branches n).
Proof.
  assert (Hc : ∀ kw b, kw ≠ "" →
    ChildPath parent kw i b = path_of (join1 parent (kw +:+ "[" +:+ Itoa i +:+ "]")) [b]).
  { intros kw b Hk. cbn [path_of foldl]. unfold ChildPath, PathFor.
    destruct (String.eqb_spec kw ""); [done|]. cbn [negb]. unfold join1 at 1.
    destruct (String.eqb_spec (join1 parent (kw +:+ "[" +:+ Itoa i +:+ "]")) "") as [E|_].
    - exfalso. revert E. apply join1_nonempty. by destruct kw.
    - by unfold join1; destruct (String.eqb parent ""). }
  assert (Hs : ∀ id, PathFor parent "" id i = join1 parent (if String.eqb id "" then "?[" +:+ Itoa i +:+ "]" else id)).
  { intros id. unfold PathFor, join1. by destruct (String.eqb_spec id ""). }
  destruct n; cbn [walkNode is_skip self_seg branches flat_map fst snd app];
    rewrite ?app_nil_r, ?Hs, ?Hc by done; try done.
  all: unfold PathFor, join1; cbn [String.eqb negb]; reflexivity.
Qed.

(** *** Segment lists *)

Definition good_seg (s : string) : Prop := s ≠ "" ∧ lacks "." s = true.

Lemma path_of_snoc p ss s : path_of p (ss ++ [s]) = join1 (path_of p ss) s.
Proof. unfold path_of. by rewrite foldl_app. Qed.
Lemma path_of_app p ss ss' : path_of p (ss ++ ss') = path_of (path_of p ss) ss'.
Proof. unfold path_of. by rewrite foldl_app. Qed.

Lemma path_of_nonempty ss s : Forall good_seg (ss ++ [s]) → path_of "" (ss ++ [s]) ≠ "".
Proof. intros [_ [Hs _]%Forall_inv]%Forall_app. rewrite path_of_snoc. by apply join1_nonempty. Qed.

Lemma join1_inj p q a b : good_seg a → good_seg b → join1 p a = join1 q b → p = q ∧ a = b.
Proof.
  intros [Ha Hla] [Hb Hlb]. unfold join1.
  destruct (String.eqb_spec p "") as [->|Hp], (String.eqb_spec q "") as [->|Hq]; intros H.
  - done.
  - subst a. cbn [String.append] in Hla. by rewrite lacks_absent in Hla.
  - subst b. cbn [String.append] in Hlb. by rewrite lacks_absent in Hlb.
  - by apply join_inj.
Qed.

Lemma path_of_inj ss ss' :
  Forall good_seg ss → Forall good_seg ss' → path_of "" ss = path_of "" ss' → ss = ss'.
Proof.
  revert ss'. induction ss as [|s ss IH] using rev_ind; intros ss'; induction ss' as [|s' ss' _] using rev_ind;
    intros H H' E; [done|..].
  - symmetry in E. by apply path_of_nonempty in E.
  - by apply path_of_nonempty in E.
  - rewrite !path_of_snoc in E. apply Forall_app in H as [H Hs%Forall_inv], H' as [H' Hs'%Forall_inv].
    apply join1_inj in E as [E ->]; [|done..]. by rewrite (IH ss').
Qed.
End walk.

(** *** Well-addressed graphs *)

(** An id that can be a path segment. *)
Definition id_ok (id : string) : bool := negb (String.eqb id "") && lacks "." id && lacks "[" id.
Definition own_ok (n : Node) : bool := match step_id n with Some id => id_ok id | None => true end.
Definition siblings_ok (l : list Node) : bool := bool_decide (NoDup (omap step_id l)).

(** Every step id can be a segment and is unique among its siblings, at every depth. *)
Fixpoint addressable (n : Node) : bool :=
  let nodes (o : option (list Node)) :=
    match o with None => true | Some l => forallb addressable l && siblings_ok l end in
  own_ok n &&
  match n with
  | NIf _ t e => nodes t && nodes e
  | NLoop _ _ b | NMap _ b | NCompose _ _ _ b | NParallel b => nodes b
  | NTry d c f => nodes d && nodes c && nodes f
  | NGate g e _ _ => nodes g && nodes e
  | _ => true
  end.
Definition addressable_list (o : NodeList) : bool :=
  match o with None => true | Some l => forallb addressable l && siblings_ok l end.

Section walk_NoDup.
Lemma addressable_eq n :
  addressable n = true → own_ok n = true ∧ ∀ b l, (b, l) ∈ branches n → addressable_list l = true.
Proof.
  destruct n; cbn [addressable branches]; rewrite ?andb_true_iff; intros H; (split; [by destruct_and?|]);
    intros b0 l0 Hin; repeat (apply elem_of_cons in Hin as [[= -> ->]|Hin]); try (by apply not_elem_of_nil in Hin);
    unfold addressable_list; destruct_and?; assumption.
Qed.

Lemma branch_good n b l : (b, l) ∈ branches n → Forall good_seg b ∧ (length b ≤ 1)%nat.
Proof.
  destruct n; cbn [branches]; intros Hin; repeat (apply elem_of_cons in Hin as [[= -> ->]|Hin]);
    try (by apply not_elem_of_nil in Hin); (split; [|cbn; lia]); repeat constructor; done.
Qed.

Lemma branches_NoDup n : NoDup (branches n).*1.
Proof. destruct n; cbn; repeat constructor; set_solver. Qed.

Lemma lacks_Itoa_brackets i : lacks "." ("[" +:+ Itoa i +:+ "]") = true.
Proof. rewrite !lacks_app, lacks_Itoa by done. done. Qed.

Lemma self_good n i : own_ok n = true → good_seg (self_seg n i).
Proof.
  intros H. split; [apply seg_nonempty|]. unfold own_ok in H.
  destruct n as [s|s|s|s|??|? |? ?|?|? ?|?|? ?|? ?|?]; cbn [step_id self_seg] in *;
    try (rewrite lacks_app, lacks_Itoa_brackets; done);
    unfold id_ok in H; rewrite !andb_true_iff, negb_true_iff in H; destruct H as [[-> H] _]; done.
Qed.

Definition keyword_of (n : Node) : string :=
  match n with
  | NIf _ _ _ => "if" | NLoop _ _ _ => "loop" | NTry _ _ _ => "try" | NParallel _ => "parallel"
  | NGate _ _ _ _ => "gate" | NSkip _ => "skip" | NMap _ _ => "map" | NCompose _ _ _ _ => "compose"
  | NReact _ => "react" | _ => ""
  end.

(** Distinct places in a list give distinct segments. *)
Lemma self_inj n n' i i' :
  own_ok n = true → own_ok n' = true → self_seg n i = self_seg n' i' →
  (∃ id, step_id n = Some id ∧ step_id n' = Some id) ∨ (step_id n = None ∧ step_id n' = None ∧ i = i').
Proof.
  intros H H' E.
  assert (Hk : ∀ m j, own_ok m = true →
    (∃ id, step_id m = Some id ∧ self_seg m j = node_self (NStep id) ∧ node_key_ok (NStep id) = true) ∨
    (∃ kw, step_id m = None ∧ self_seg m j = node_self (NControl kw j) ∧ node_key_ok (NControl kw j) = true)).
  { clear. intros m j H. unfold own_ok in H.
    destruct m as [s|s|s|s|??|? |? ?|?|? ?|?|? ?|? ?|?]; cbn [step_id] in *;
      try (right; match goal with |- context [self_seg ?m _] => exists (keyword_of m) end; split; [done|split; [reflexivity|done]]);
      left; eexists; (split; [reflexivity|]); unfold id_ok in H; (split; [|exact H]); cbn [self_seg];
      rewrite !andb_true_iff, negb_true_iff in H; destruct H as [[-> _] _]; done. }
  destruct (Hk n i H) as [(id & -> & E1 & K1)|(kw & -> & E1 & K1)],
           (Hk n' i' H') as [(id' & -> & E2 & K2)|(kw' & -> & E2 & K2)];
    rewrite E1, E2 in E; apply node_self_inj in E; try done; try (injection E as -> ->); try injection E as ->.
  - left; eauto.
  - by right.
Qed.

(** The visited paths are distinct, and all start with the node's segment. *)
Definition walk_good (n : Node) : Prop :=
  ∀ pre i, addressable n = true → Forall good_seg pre →
    NoDup (walkNode (path_of "" pre) n i).*2 ∧
    ∀ p, p ∈ (walkNode (path_of "" pre) n i).*2 →
      ∃ ss, Forall good_seg ss ∧ p = path_of "" (pre ++ self_seg n i :: ss).

Lemma omap_elem {A B} (f : A → option B) (l : list A) (k : nat) a b : l !! k = Some a → f a = Some b → b ∈ omap f l.
Proof. intros Hl Hf. apply list_elem_of_omap. exists a. split; [by eapply list_elem_of_lookup_2|done]. Qed.

Lemma walk_list_good pre l : ∀ i0,
  Forall walk_good l → Forall good_seg pre → forallb addressable l = true → siblings_ok l = true →
  NoDup (walk_list (walkNode (path_of "" pre)) l i0).*2 ∧
  ∀ p, p ∈ (walk_list (walkNode (path_of "" pre)) l i0).*2 →
    ∃ k m ss, l !! k = Some m ∧ own_ok m = true ∧ Forall good_seg ss ∧
              p = path_of "" (pre ++ self_seg m (i0 + Z.of_nat k) :: ss).
Proof.
  induction l as [|n l IH]; intros i0 HF Hpre Ha Hs; [by split; [constructor|intros ? ?%not_elem_of_nil]|].
  apply Forall_cons in HF as [Hn HF]. cbn [forallb] in Ha. apply andb_prop in Ha as [Han Hal].
  assert (Hown : own_ok n = true) by (by apply addressable_eq in Han as [? _]).
  apply bool_decide_eq_true in Hs.
  assert (Hs' : siblings_ok l = true).
  { apply bool_decide_eq_true. cbn in Hs. destruct (step_id n); [by apply NoDup_cons in Hs as [_ Hs]|done]. }
  destruct (Hn pre i0 Han Hpre) as [Hn1 Hn2].
  destruct (IH (i0 + 1)%Z HF Hpre Hal Hs') as [Hl1 Hl2]. cbn [walk_list]. rewrite fmap_app.
  fold (@walk_list (Node * string) (walkNode (path_of "" pre))).
  split.
  - apply NoDup_app. split; [done|]. split; [|done]. intros p Hp1 Hp2.
    destruct (Hn2 p Hp1) as (ss & Hss & ->).
    destruct (Hl2 _ Hp2) as (k & m & ss' & Hk & Hm & Hss' & E).
    apply path_of_inj in E.
    + apply (inj (pre ++.)) in E. injection E as E _. apply self_inj in E; [|done..].
      destruct E as [(id & E1 & E2)|(_ & _ & E)]; [|lia].
      cbn in Hs. rewrite E1 in Hs. apply NoDup_cons in Hs as [Hs _]. destruct Hs. by eapply omap_elem.
    + apply Forall_app; split; [done|]. constructor; [by apply self_good|done].
    + apply Forall_app; split; [done|]. constructor; [by apply self_good|done].
  - intros p [Hp|Hp]%elem_of_app.
    + destruct (Hn2 p Hp) as (ss & Hss & ->). exists 0%nat, n, ss. rewrite Z.add_0_r. done.
    + destruct (Hl2 p Hp) as (k & m & ss & Hk & Hm & Hss & ->). exists (S k), m, ss.
      split; [done|]. split; [done|]. split; [done|]. do 4 f_equal. lia.
Qed.

Lemma walk_nodes_good pre o : ∀ p,
  Forall walk_good (default [] o) → Forall good_seg pre → addressable_list o = true →
  NoDup (walk_nodes (walkNode (path_of "" pre)) o).*2 ∧
  (p ∈ (walk_nodes (walkNode (path_of "" pre)) o).*2 →
    ∃ s ss, Forall good_seg (s :: ss) ∧ p = path_of "" (pre ++ s :: ss)).
Proof.
  intros p HF Hpre Ha. destruct o as [l|]; [|by split; [constructor|intros ?%not_elem_of_nil]].
  cbn [addressable_list] in Ha. apply andb_prop in Ha as [Ha Hs].
  destruct (walk_list_good pre l 0 HF Hpre Ha Hs) as [H1 H2]. split; [done|]. intros Hp.
  destruct (H2 p Hp) as (k & m & ss & _ & Hm & Hss & ->). eexists _, ss. split; [|reflexivity].
  constructor; [by apply self_good|done].
Qed.

(** The blocks of distinct branches are disjoint. *)
Lemma flat_branches pre (bs : list (list string * option (list Node))) :
  Forall good_seg pre → NoDup bs.*1 →
  (∀ b l, (b, l) ∈ bs → Forall good_seg b ∧ (length b ≤ 1)%nat ∧ (b = [] → bs = [(b, l)]) ∧
     Forall walk_good (default [] l) ∧ addressable_list l = true) →
  NoDup (flat_map (λ bl, walk_nodes (walkNode (path_of (path_of "" pre) bl.1)) bl.2) bs).*2 ∧
  ∀ p, p ∈ (flat_map (λ bl, walk_nodes (walkNode (path_of (path_of "" pre) bl.1)) bl.2) bs).*2 →
    ∃ b l s ss, (b, l) ∈ bs ∧ Forall good_seg (s :: ss) ∧ p = path_of "" (pre ++ b ++ s :: ss).
Proof.
  intros Hpre. induction bs as [|[b l] bs IH]; intros Hn Hb; [by split; [constructor|intros ? ?%not_elem_of_nil]|].
  destruct (Hb b l (list_elem_of_here _ _)) as (Hbg & Hbl & Hb0 & HF & Ha).
  cbn [fmap list_fmap fst] in Hn. apply NoDup_cons in Hn as [Hnb Hn].
  assert (Hblk : ∀ p, NoDup (walk_nodes (walkNode (path_of (path_of "" pre) b)) l).*2 ∧
    (p ∈ (walk_nodes (walkNode (path_of (path_of "" pre) b)) l).*2 →
      ∃ s ss, Forall good_seg (s :: ss) ∧ p = path_of "" (pre ++ b ++ s :: ss))).
  { intros p. rewrite <- path_of_app.
    destruct (walk_nodes_good (pre ++ b) l p HF) as [H1 H2]; [by apply Forall_app|done|].
    split; [done|]. intros Hp. destruct (H2 Hp) as (s & ss & Hs & ->). exists s, ss.
    by rewrite <- app_assoc. }
  destruct IH as [IH1 IH2]; [done| |].
  { intros b' l' Hin. destruct (Hb b' l' (list_elem_of_further _ _ _ Hin)) as (H1 & H2 & H3 & H4 & H5).
    repeat split; try done. intros ->. specialize (H3 eq_refl). injection H3 as -> -> ->.
    by apply not_elem_of_nil in Hin. }
  cbn [flat_map fst snd]. rewrite fmap_app. split.
  - apply NoDup_app. split; [apply (Hblk "")|]. split; [|done]. intros p Hp1 Hp2.
    apply Hblk in Hp1 as (s & ss & Hs & ->). apply IH2 in Hp2 as (b' & l' & s' & ss' & Hin & Hs' & E).
    destruct (Hb b' l' (list_elem_of_further _ _ _ Hin)) as (Hbg' & Hbl' & Hb0' & _).
    apply path_of_inj in E; [|rewrite ?Forall_app; tauto..]. apply (inj (pre ++.)) in E.
    destruct b as [|x [|? ?]]; cbn in Hbl; [|..|lia].
    { specialize (Hb0 eq_refl). injection Hb0 as ->. by apply not_elem_of_nil in Hin. }
    destruct b' as [|x' [|? ?]]; cbn in Hbl'; [|..|lia].
    { specialize (Hb0' eq_refl). injection Hb0' as _ _ ->. by apply not_elem_of_nil in Hin. }
    injection E as -> _ _. destruct Hnb. apply list_elem_of_fmap. by exists ([x'], l').
  - intros p [Hp|Hp]%elem_of_app.
    + apply Hblk in Hp as (s & ss & Hs & ->). exists b, l, s, ss. split; [left|done].
    + apply IH2 in Hp as (b' & l' & s & ss & Hin & Hs & ->). exists b', l', s, ss. split; [by right|done].
Qed.

Lemma walk_all_good n : walk_good n.
Proof.
  induction n as [n IH] using Node_ind'. intros pre i Ha Hpre. rewrite walkNode_eq.
  destruct (is_skip n); [by split; [constructor|intros ? ?%not_elem_of_nil]|].
  apply addressable_eq in Ha as [Hown Hbr]. pose proof (self_good n i Hown) as Hself.
  rewrite <- path_of_snoc.
  destruct (flat_branches (pre ++ [self_seg n i]) (branches n)) as [H1 H2].
  - apply Forall_app. split; [done|]. by constructor.
  - apply branches_NoDup.
  - intros b l Hin. destruct (branch_good n b l Hin) as [Hg Hl]. split; [done|]. split; [done|].
    split; [|split; [by eapply IH|by eapply Hbr]].
    intros ->. destruct n; cbn [branches] in *; try (by apply not_elem_of_nil in Hin);
      repeat (apply elem_of_cons in Hin as [Hin|Hin]); try discriminate Hin; try (by apply not_elem_of_nil in Hin).
    by injection Hin as ->.
  - cbn [fmap list_fmap snd]. split.
    + apply NoDup_cons. split; [|done]. intros Hp. apply H2 in Hp as (b & l & s & ss & Hin & Hs & E).
      destruct (branch_good n b l Hin) as [Hg _].
      apply path_of_inj in E; [|rewrite ?Forall_app; repeat split; try done; by constructor..].
      apply (f_equal length) in E. repeat (rewrite ?length_app in E; cbn [length] in E). lia.
    + intros p [->|Hp]%elem_of_cons; [by exists []|]. apply H2 in Hp as (b & l & s & ss & Hin & Hs & ->).
      destruct (branch_good n b l Hin) as [Hg _]. exists (b ++ s :: ss). split; [by apply Forall_app|].
      by rewrite <- app_assoc.
Qed.
End walk_NoDup.

(** ** Hashed streams *)

Section streams.
Lemma writeDigestFrame_inj s t r r' :
  writeDigestFrame s +:+ r = writeDigestFrame t +:+ r' → s = t ∧ r = r'.
Proof.
  unfold writeDigestFrame. intros H. rewrite <- !sapp_assoc in H. apply sapp_inj_l in H.
  cbn [String.append] in H.
  apply (lacks_split ":") in H as [HI H]; [|by apply lacks_Itoa..]. apply Itoa_inj in HI.
  apply sapp_inj_len in H as [-> H]; [|lia]. split; [done|]. by apply sapp_inj_l in H.
Qed.

Lemma digestFrames_app l l' : digestFrames (l ++ l') = digestFrames l +:+ digestFrames l'.
Proof. induction l as [|s l IH]; [done|]. cbn [app digestFrames]. by rewrite IH, sapp_assoc. Qed.

Lemma digestFrames_inj l l' : digestFrames l = digestFrames l' → l = l'.
Proof.
  revert l'. induction l as [|s l IH]; intros [|t l']; cbn [digestFrames]; intros H; try done.
  apply writeDigestFrame_inj in H as [-> H]. by rewrite (IH l').
Qed.

Lemma skeleton_inj g g' :
  skeleton g = skeleton g' →
  map (λ np : Node * string, (np.2, node_type np.1)) (WalkNodes g "") =
  map (λ np : Node * string, (np.2, node_type np.1)) (WalkNodes g' "").
Proof.
  unfold skeleton. generalize (WalkNodes g "") (WalkNodes g' ""). intros w.
  induction w as [|[n p] w IH]; intros [|[n' p'] w']; cbn; intros H; try done.
  injection H as -> -> H. by rewrite (IH w').
Qed.

Lemma definition_frames_inj r ms es r' ms' es' :
  definition_frames r ms es = definition_frames r' ms' es' → r = r' ∧ ms = ms' ∧ es = es'.
Proof.
  unfold definition_frames. cbn [app]. intros H. injection H as -> H. split; [done|].
  assert (He : ∀ es es', flat_map edge_frames es = flat_map edge_frames es' → es = es').
  { clear. induction es as [|[a b c d] es IH]; intros [|[a' b' c' d'] es']; cbn; intros H; try done.
    injection H as -> -> -> -> H. by rewrite (IH es'). }
  revert ms' H. induction ms as [|[i d] ms IH]; intros [|[i' d'] ms'] H; cbn [flat_map app fst snd] in H.
  - by apply He in H as ->.
  - by destruct es.
  - by destruct es'.
  - injection H as -> -> H. by destruct (IH ms' H) as [-> ->].
Qed.
End streams.

(** ** Properties *)

(** node addresses are unique.  In a graph whose step ids are non-empty, free of dots and brackets,
    and distinct among siblings at every level, the traversal of the graph visits pairwise different
    paths, whatever the nesting of control nodes. *)
Theorem WalkNodes_distinct graph :
  addressable_list graph = true → NoDup (WalkNodes graph "").*2.
Proof.
  intros H. apply (walk_nodes_good [] graph ""); [|done|done].
  apply Forall_forall. intros n _. apply walk_all_good.
Qed.

Definition ex_step (id : string) : Node := NCode (MkCodeStep id "" "true" None None [] ∅ None None).
Definition ex_graph : NodeList :=
  Some [ex_step "a"; NIf "{{ true }}" (Some [ex_step "a"; NSkip "done"]) None;
        NParallel (Some [ex_step "a"; NLoop None (Some 3%Z) (Some [ex_step "b"])])].

Lemma WalkNodes_distinct_witness :
  NoDup (WalkNodes ex_graph "").*2 ∧
  (WalkNodes ex_graph "").*2 =
    ["a"; "if[1]"; "if[1].then.a"; "parallel[2]"; "parallel[2].a"; "parallel[2].loop[1]";
     "parallel[2].loop[1].body.b"].
Proof. split; [|vm_compute; reflexivity]. apply (WalkNodes_distinct ex_graph). vm_compute. reflexivity. Defined.

(** what is hashed determines the definition.  The framed stream of a definition with imports
    determines the root digest, the imported modules with their digests and the import edges, in order;
    the skeleton stream of a graph determines the path and kind of every node it visits. *)
Theorem digest_streams_injective :
  (∀ r ms es r' ms' es',
     digestFrames (definition_frames r ms es) = digestFrames (definition_frames r' ms' es') ↔
     r = r' ∧ ms = ms' ∧ es = es') ∧
  (∀ g g',
     digestFrames (skeleton g) = digestFrames (skeleton g') ↔
     map (λ np : Node * string, (np.2, node_type np.1)) (WalkNodes g "") =
     map (λ np : Node * string, (np.2, node_type np.1)) (WalkNodes g' "")).
Proof.
  split.
  - intros. split; [|by intros (-> & -> & ->)]. intros H. by apply definition_frames_inj, digestFrames_inj.
  - intros g g'. split; [intros H; by apply skeleton_inj, digestFrames_inj|].
    intros H. unfold skeleton. revert H. generalize (WalkNodes g "") (WalkNodes g' ""). intros w.
    induction w as [|[n p] w IH]; intros [|[n' p'] w']; cbn [map flat_map fst snd app]; intros H; try done.
    injection H as -> -> H. cbn [digestFrames]. by rewrite (IH w' H).
Qed.
