(* ===== verification/RunState.v ===== *)
(** * engine/runstate.go: the in-memory state of a run

    [RunState] with every accessor.  The accessors run under one mutex, so each is one step on the
    state.  A map is a [gmap] (a nil map and an empty one read alike; [Fold] of the empty log is the
    only producer of nil maps and its result is never written).  The thread indexes at the end of
    the Go struct are caches derived from the workflow and are not part of the state. *)

From S2P Require Import Prelude GoNum GoJson GoStruct EngineEvents EnginePath Ir.

(** ** Outcomes *)

Definition Outcome : Type := string.
Definition OutcomeOK : Outcome := "ok".
Definition OutcomeRetryableFailure : Outcome := "retryable_failure".
Definition OutcomePermanentFailure : Outcome := "permanent_failure".
Definition OutcomeRejected : Outcome := "rejected".

Definition isTypedFailureOutcome (o : Outcome) : bool :=
  String.eqb o OutcomeRetryableFailure || String.eqb o OutcomePermanentFailure || String.eqb o OutcomeRejected.

Definition ParseOutcome (s : string) : option Outcome :=
  if String.eqb s OutcomeOK || String.eqb s OutcomeRetryableFailure
     || String.eqb s OutcomePermanentFailure || String.eqb s OutcomeRejected
  then Some s else None.

(** ** Records *)

Record AttemptResult : Type := MkAttempt { arN : Z; arAttemptOutcome : string; arVerdict : gomap }.
Record ReactRoundRecord : Type := MkRound { rndN : Z }.
Record MapItemRecord : Type := MkMapItem {
  mrN : Z; mrItemValue : value; mrStatus : string; mrOutcome : string; mrImageDigest : string;
  mrReason : string; mrCause : string
}.
Record SignalEntry : Type := MkSignal { seSeq : Z; sePayloadRef : string }.
Record PauseMarker : Type := MkPause { pmNodePath : string; pmReason : string }.
Record SignalReceivedEntry : Type := MkReceived { sreSeq : Z; srePayloadRef : string }.
Record CallStartedRecord : Type := MkCallStarted {
  crInput : gomap; crInputRef : string; crInputFiles : gmap string string; crRuntimes : list ResolvedRuntime
}.
Record NodeResult : Type := MkNodeResult {
  nrOutcome : Outcome; nrExitCode : option Z; nrOutputs : gomap; nrOutputsRef : string;
  nrStdout : string; nrStdoutRef : string; nrFiles : gmap string string; nrTranscript : ThreadTurn;
  nrNodeKey : string; nrNodeSubtreeDigest : string
}.

Definition zeroTurn : ThreadTurn := MkThreadTurn "" "".

(** ** The thread indexes *)

(** [initThreadIndexes] of the workflow [wf]. *)
Record ThreadIndexes : Type := MkThreadIndexes {
  stepPathIdx : gmap string string; agentStepIdx : gmap string AgentStep; threadTargetSet : gset string }.
Definition agentStepByID (wf : Workflow) : gmap string AgentStep :=
  foldl (λ m (np : Node * string), match np.1 with NAgent s => <[asID s := s]> m | _ => m end) ∅ (WalkNodes (wfGraph wf) "").
Definition threadTargets (wf : Workflow) : gset string :=
  foldl (λ m (np : Node * string),
           match np.1 with NAgent s => if String.eqb (asContinues s) "" then m else {[ asContinues s ]} ∪ m | _ => m end)
    ∅ (WalkNodes (wfGraph wf) "").
Definition initThreadIndexes (wf : Workflow) : ThreadIndexes :=
  MkThreadIndexes (StepPathIndex wf) (agentStepByID wf) (threadTargets wf).

(** ** The state *)

Record RunState : Type := MkRunState {
  rsRunID : string;
  rsWorkflowDigest : string;
  rsStructuralDigest : string;
  rsInput : gomap;
  rsAssets : gmap string RunStartedAsset;
  rsInputFiles : gmap string string;
  rsEpoch : Z;
  rsCompleted : gmap string NodeResult;
  rsBranches : gmap string string;
  rsLoopIters : gmap string Z;
  rsGateAttempts : gmap string (list AttemptResult);
  rsReactRounds : gmap string (list ReactRoundRecord);
  rsMapItems : gmap string (list MapItemRecord);
  rsSignals : gmap string (list SignalEntry);
  rsCallStarted : gmap string CallStartedRecord;
  rsPaused : option PauseMarker;
  rsCancelled : bool;
  rsCancelReason : string;
  rsSignalReceivedAt : gmap string SignalReceivedEntry;
  rsSnapshotRefs : gmap string string;
  rsSessionRefs : gmap string string;
  rsSelectedSkills : gmap string SkillsSelectedData;
  rsThreadIdx : option ThreadIndexes    (* threadOnce: built once, by the first that asks *)
}.

(** Assignments to a field. *)
Definition setEpoch (x : Z) (rs : RunState) : RunState :=
  MkRunState (rsRunID rs) (rsWorkflowDigest rs) (rsStructuralDigest rs) (rsInput rs) (rsAssets rs)
    (rsInputFiles rs) x (rsCompleted rs) (rsBranches rs) (rsLoopIters rs) (rsGateAttempts rs)
    (rsReactRounds rs) (rsMapItems rs) (rsSignals rs) (rsCallStarted rs) (rsPaused rs) (rsCancelled
    rs) (rsCancelReason rs) (rsSignalReceivedAt rs) (rsSnapshotRefs rs) (rsSessionRefs rs)
    (rsSelectedSkills rs) (rsThreadIdx rs).
Definition setCompleted (x : gmap string NodeResult) (rs : RunState) : RunState :=
  MkRunState (rsRunID rs) (rsWorkflowDigest rs) (rsStructuralDigest rs) (rsInput rs) (rsAssets rs)
    (rsInputFiles rs) (rsEpoch rs) x (rsBranches rs) (rsLoopIters rs) (rsGateAttempts rs)
    (rsReactRounds rs) (rsMapItems rs) (rsSignals rs) (rsCallStarted rs) (rsPaused rs) (rsCancelled
    rs) (rsCancelReason rs) (rsSignalReceivedAt rs) (rsSnapshotRefs rs) (rsSessionRefs rs)
    (rsSelectedSkills rs) (rsThreadIdx rs).
Definition setBranches (x : gmap string string) (rs : RunState) : RunState :=
  MkRunState (rsRunID rs) (rsWorkflowDigest rs) (rsStructuralDigest rs) (rsInput rs) (rsAssets rs)
    (rsInputFiles rs) (rsEpoch rs) (rsCompleted rs) x (rsLoopIters rs) (rsGateAttempts rs)
    (rsReactRounds rs) (rsMapItems rs) (rsSignals rs) (rsCallStarted rs) (rsPaused rs) (rsCancelled
    rs) (rsCancelReason rs) (rsSignalReceivedAt rs) (rsSnapshotRefs rs) (rsSessionRefs rs)
    (rsSelectedSkills rs) (rsThreadIdx rs).
Definition setLoopIters (x : gmap string Z) (rs : RunState) : RunState :=
  MkRunState (rsRunID rs) (rsWorkflowDigest rs) (rsStructuralDigest rs) (rsInput rs) (rsAssets rs)
    (rsInputFiles rs) (rsEpoch rs) (rsCompleted rs) (rsBranches rs) x (rsGateAttempts rs)
    (rsReactRounds rs) (rsMapItems rs) (rsSignals rs) (rsCallStarted rs) (rsPaused rs) (rsCancelled
    rs) (rsCancelReason rs) (rsSignalReceivedAt rs) (rsSnapshotRefs rs) (rsSessionRefs rs)
    (rsSelectedSkills rs) (rsThreadIdx rs).
Definition setGateAttempts (x : gmap string (list AttemptResult)) (rs : RunState) : RunState :=
  MkRunState (rsRunID rs) (rsWorkflowDigest rs) (rsStructuralDigest rs) (rsInput rs) (rsAssets rs)
    (rsInputFiles rs) (rsEpoch rs) (rsCompleted rs) (rsBranches rs) (rsLoopIters rs) x
    (rsReactRounds rs) (rsMapItems rs) (rsSignals rs) (rsCallStarted rs) (rsPaused rs) (rsCancelled
    rs) (rsCancelReason rs) (rsSignalReceivedAt rs) (rsSnapshotRefs rs) (rsSessionRefs rs)
    (rsSelectedSkills rs) (rsThreadIdx rs).
Definition setReactRounds (x : gmap string (list ReactRoundRecord)) (rs : RunState) : RunState :=
  MkRunState (rsRunID rs) (rsWorkflowDigest rs) (rsStructuralDigest rs) (rsInput rs) (rsAssets rs)
    (rsInputFiles rs) (rsEpoch rs) (rsCompleted rs) (rsBranches rs) (rsLoopIters rs) (rsGateAttempts
    rs) x (rsMapItems rs) (rsSignals rs) (rsCallStarted rs) (rsPaused rs) (rsCancelled rs)
    (rsCancelReason rs) (rsSignalReceivedAt rs) (rsSnapshotRefs rs) (rsSessionRefs rs)
    (rsSelectedSkills rs) (rsThreadIdx rs).
Definition setMapItems (x : gmap string (list MapItemRecord)) (rs : RunState) : RunState :=
  MkRunState (rsRunID rs) (rsWorkflowDigest rs) (rsStructuralDigest rs) (rsInput rs) (rsAssets rs)
    (rsInputFiles rs) (rsEpoch rs) (rsCompleted rs) (rsBranches rs) (rsLoopIters rs) (rsGateAttempts
    rs) (rsReactRounds rs) x (rsSignals rs) (rsCallStarted rs) (rsPaused rs) (rsCancelled rs)
    (rsCancelReason rs) (rsSignalReceivedAt rs) (rsSnapshotRefs rs) (rsSessionRefs rs)
    (rsSelectedSkills rs) (rsThreadIdx rs).
Definition setSignals (x : gmap string (list SignalEntry)) (rs : RunState) : RunState :=
  MkRunState (rsRunID rs) (rsWorkflowDigest rs) (rsStructuralDigest rs) (rsInput rs) (rsAssets rs)
    (rsInputFiles rs) (rsEpoch rs) (rsCompleted rs) (rsBranches rs) (rsLoopIters rs) (rsGateAttempts
    rs) (rsReactRounds rs) (rsMapItems rs) x (rsCallStarted rs) (rsPaused rs) (rsCancelled rs)
    (rsCancelReason rs) (rsSignalReceivedAt rs) (rsSnapshotRefs rs) (rsSessionRefs rs)
    (rsSelectedSkills rs) (rsThreadIdx rs).
Definition setCallStarted (x : gmap string CallStartedRecord) (rs : RunState) : RunState :=
  MkRunState (rsRunID rs) (rsWorkflowDigest rs) (rsStructuralDigest rs) (rsInput rs) (rsAssets rs)
    (rsInputFiles rs) (rsEpoch rs) (rsCompleted rs) (rsBranches rs) (rsLoopIters rs) (rsGateAttempts
    rs) (rsReactRounds rs) (rsMapItems rs) (rsSignals rs) x (rsPaused rs) (rsCancelled rs)
    (rsCancelReason rs) (rsSignalReceivedAt rs) (rsSnapshotRefs rs) (rsSessionRefs rs)
    (rsSelectedSkills rs) (rsThreadIdx rs).
Definition setPaused (x : option PauseMarker) (rs : RunState) : RunState :=
  MkRunState (rsRunID rs) (rsWorkflowDigest rs) (rsStructuralDigest rs) (rsInput rs) (rsAssets rs)
    (rsInputFiles rs) (rsEpoch rs) (rsCompleted rs) (rsBranches rs) (rsLoopIters rs) (rsGateAttempts
    rs) (rsReactRounds rs) (rsMapItems rs) (rsSignals rs) (rsCallStarted rs) x (rsCancelled rs)
    (rsCancelReason rs) (rsSignalReceivedAt rs) (rsSnapshotRefs rs) (rsSessionRefs rs)
    (rsSelectedSkills rs) (rsThreadIdx rs).
Definition setCancelled (x : bool) (rs : RunState) : RunState :=
  MkRunState (rsRunID rs) (rsWorkflowDigest rs) (rsStructuralDigest rs) (rsInput rs) (rsAssets rs)
    (rsInputFiles rs) (rsEpoch rs) (rsCompleted rs) (rsBranches rs) (rsLoopIters rs) (rsGateAttempts
    rs) (rsReactRounds rs) (rsMapItems rs) (rsSignals rs) (rsCallStarted rs) (rsPaused rs) x
    (rsCancelReason rs) (rsSignalReceivedAt rs) (rsSnapshotRefs rs) (rsSessionRefs rs)
    (rsSelectedSkills rs) (rsThreadIdx rs).
Definition setCancelReason (x : string) (rs : RunState) : RunState :=
  MkRunState (rsRunID rs) (rsWorkflowDigest rs) (rsStructuralDigest rs) (rsInput rs) (rsAssets rs)
    (rsInputFiles rs) (rsEpoch rs) (rsCompleted rs) (rsBranches rs) (rsLoopIters rs) (rsGateAttempts
    rs) (rsReactRounds rs) (rsMapItems rs) (rsSignals rs) (rsCallStarted rs) (rsPaused rs)
    (rsCancelled rs) x (rsSignalReceivedAt rs) (rsSnapshotRefs rs) (rsSessionRefs rs)
    (rsSelectedSkills rs) (rsThreadIdx rs).
Definition setSignalReceivedAt (x : gmap string SignalReceivedEntry) (rs : RunState) : RunState :=
  MkRunState (rsRunID rs) (rsWorkflowDigest rs) (rsStructuralDigest rs) (rsInput rs) (rsAssets rs)
    (rsInputFiles rs) (rsEpoch rs) (rsCompleted rs) (rsBranches rs) (rsLoopIters rs) (rsGateAttempts
    rs) (rsReactRounds rs) (rsMapItems rs) (rsSignals rs) (rsCallStarted rs) (rsPaused rs)
    (rsCancelled rs) (rsCancelReason rs) x (rsSnapshotRefs rs) (rsSessionRefs rs) (rsSelectedSkills
    rs) (rsThreadIdx rs).
Definition setSnapshotRefs (x : gmap string string) (rs : RunState) : RunState :=
  MkRunState (rsRunID rs) (rsWorkflowDigest rs) (rsStructuralDigest rs) (rsInput rs) (rsAssets rs)
    (rsInputFiles rs) (rsEpoch rs) (rsCompleted rs) (rsBranches rs) (rsLoopIters rs) (rsGateAttempts
    rs) (rsReactRounds rs) (rsMapItems rs) (rsSignals rs) (rsCallStarted rs) (rsPaused rs)
    (rsCancelled rs) (rsCancelReason rs) (rsSignalReceivedAt rs) x (rsSessionRefs rs)
    (rsSelectedSkills rs) (rsThreadIdx rs).
Definition setSessionRefs (x : gmap string string) (rs : RunState) : RunState :=
  MkRunState (rsRunID rs) (rsWorkflowDigest rs) (rsStructuralDigest rs) (rsInput rs) (rsAssets rs)
    (rsInputFiles rs) (rsEpoch rs) (rsCompleted rs) (rsBranches rs) (rsLoopIters rs) (rsGateAttempts
    rs) (rsReactRounds rs) (rsMapItems rs) (rsSignals rs) (rsCallStarted rs) (rsPaused rs)
    (rsCancelled rs) (rsCancelReason rs) (rsSignalReceivedAt rs) (rsSnapshotRefs rs) x
    (rsSelectedSkills rs) (rsThreadIdx rs).
Definition setSelectedSkills (x : gmap string SkillsSelectedData) (rs : RunState) : RunState :=
  MkRunState (rsRunID rs) (rsWorkflowDigest rs) (rsStructuralDigest rs) (rsInput rs) (rsAssets rs)
    (rsInputFiles rs) (rsEpoch rs) (rsCompleted rs) (rsBranches rs) (rsLoopIters rs) (rsGateAttempts
    rs) (rsReactRounds rs) (rsMapItems rs) (rsSignals rs) (rsCallStarted rs) (rsPaused rs)
    (rsCancelled rs) (rsCancelReason rs) (rsSignalReceivedAt rs) (rsSnapshotRefs rs) (rsSessionRefs
    rs) x (rsThreadIdx rs).

Definition setThreadIdx (x : option ThreadIndexes) (rs : RunState) : RunState :=
  MkRunState (rsRunID rs) (rsWorkflowDigest rs) (rsStructuralDigest rs) (rsInput rs) (rsAssets rs)
    (rsInputFiles rs) (rsEpoch rs) (rsCompleted rs) (rsBranches rs) (rsLoopIters rs) (rsGateAttempts
    rs) (rsReactRounds rs) (rsMapItems rs) (rsSignals rs) (rsCallStarted rs) (rsPaused rs)
    (rsCancelled rs) (rsCancelReason rs) (rsSignalReceivedAt rs) (rsSnapshotRefs rs) (rsSessionRefs
    rs) (rsSelectedSkills rs) x.

Definition NewRunState (runID workflowDigest : string) (input : gomap) : RunState :=
  MkRunState runID workflowDigest "" input ∅ ∅ 1 ∅ ∅ ∅ ∅ ∅ ∅ ∅ ∅ None false "" ∅ ∅ ∅ ∅ None.

(** [&RunState{}]. *)
Definition zeroRunState : RunState :=
  MkRunState "" "" "" None ∅ ∅ 0 ∅ ∅ ∅ ∅ ∅ ∅ ∅ ∅ None false "" ∅ ∅ ∅ ∅ None.

(** ** Accessors *)

Section accessors.
Implicit Types rs : RunState.

(** [m[k]] for a map of slices: nil when absent. *)
Definition at_path {A} (m : gmap string (list A)) (k : string) : list A := default [] (m !! k).

Definition LookupCompleted rs (path : string) : option NodeResult := rsCompleted rs !! path.
Definition RecordCompleted (path : string) (nr : NodeResult) rs : RunState :=
  setCompleted (<[path := nr]> (rsCompleted rs)) rs.

Definition LookupBranch rs (path : string) : option string := rsBranches rs !! path.
Definition RecordBranch (path which : string) rs : RunState :=
  setBranches (<[path := which]> (rsBranches rs)) rs.

Definition LookupLoopIters rs (path : string) : Z := default 0%Z (rsLoopIters rs !! path).
Definition RecordLoopIter (path : string) (k : Z) rs : RunState :=
  setLoopIters (<[path := k]> (rsLoopIters rs)) rs.

Definition LookupGateAttempts rs (gatePath : string) : list AttemptResult := at_path (rsGateAttempts rs) gatePath.
Definition RecordGateAttempt (gatePath : string) (ar : AttemptResult) rs : RunState :=
  setGateAttempts (<[gatePath := LookupGateAttempts rs gatePath ++ [ar]]> (rsGateAttempts rs)) rs.

Definition LookupReactRounds rs (r : string) : list ReactRoundRecord := at_path (rsReactRounds rs) r.
Definition RecordReactRound (r : string) (rr : ReactRoundRecord) rs : RunState :=
  setReactRounds (<[r := LookupReactRounds rs r ++ [rr]]> (rsReactRounds rs)) rs.

Definition LookupMapItems rs (mapPath : string) : list MapItemRecord := at_path (rsMapItems rs) mapPath.

(** The first record of number [mrN mr] is replaced in place; without one, [mr] goes at the end. *)
Fixpoint upsert (mr : MapItemRecord) (items : list MapItemRecord) : list MapItemRecord :=
  match items with
  | [] => [mr]
  | it :: items => if (mrN it =? mrN mr)%Z then mr :: items else it :: upsert mr items
  end.
Definition RecordMapItem (mapPath : string) (mr : MapItemRecord) rs : RunState :=
  setMapItems (<[mapPath := upsert mr (LookupMapItems rs mapPath)]> (rsMapItems rs)) rs.

Definition withItemValue (v : value) (mr : MapItemRecord) : MapItemRecord :=
  MkMapItem (mrN mr) v (mrStatus mr) (mrOutcome mr) (mrImageDigest mr) (mrReason mr) (mrCause mr).
(** The first record numbered [n] gets the value; nothing happens when there is none. *)
Fixpoint setItemValue (n : Z) (v : value) (items : list MapItemRecord) : list MapItemRecord :=
  match items with
  | [] => []
  | it :: items => if (mrN it =? n)%Z then withItemValue v it :: items else it :: setItemValue n v items
  end.
Definition UpdateMapItemValue (mapPath : string) (n : Z) (v : value) rs : RunState :=
  setMapItems (alter (setItemValue n v) mapPath (rsMapItems rs)) rs.

Definition LookupSignals rs (name : string) : list SignalEntry := at_path (rsSignals rs) name.
Definition AppendSignal (name : string) (e : SignalEntry) rs : RunState :=
  setSignals (<[name := LookupSignals rs name ++ [e]]> (rsSignals rs)) rs.

Definition LookupCallStarted rs (path : string) : option CallStartedRecord := rsCallStarted rs !! path.
(** The keys in byte order. *)
Definition CallStartedPaths rs : list string :=
  (key_sort (map (λ kv : string * CallStartedRecord, (kv.1, ())) (map_to_list (rsCallStarted rs)))).*1.

(** A copy; nil for an empty map. *)
Definition cloneStringMap (src : gmap string string) : gmap string string := src.
Definition RecordCallStarted (path : string) (r : CallStartedRecord) rs : RunState :=
  let r := MkCallStarted (crInput r) (crInputRef r) (cloneStringMap (crInputFiles r)) (crRuntimes r) in
  setCallStarted (<[path := r]> (rsCallStarted rs)) rs.

Definition LookupSignalReceivedAt rs (path : string) : option SignalReceivedEntry := rsSignalReceivedAt rs !! path.
Definition RecordSignalReceivedAt (path : string) (e : SignalReceivedEntry) rs : RunState :=
  setSignalReceivedAt (<[path := e]> (rsSignalReceivedAt rs)) rs.

(** engine/skills.go: a copy. *)
Definition cloneSkillsSelectedData (d : SkillsSelectedData) : SkillsSelectedData := d.
Definition LookupSelectedSkills rs (path : string) : option SkillsSelectedData :=
  cloneSkillsSelectedData <$> rsSelectedSkills rs !! path.
Definition RecordSelectedSkills (path : string) (d : SkillsSelectedData) rs : RunState :=
  setSelectedSkills (<[path := cloneSkillsSelectedData d]> (rsSelectedSkills rs)) rs.

Definition SetPaused (pm : option PauseMarker) rs : RunState := setPaused pm rs.
Definition LookupPaused rs : option PauseMarker := rsPaused rs.
Definition SetCancelled (v : bool) rs : RunState := setCancelled v rs.
Definition IsCancelled rs : bool := rsCancelled rs.
Definition SetCancelReason (reason : string) rs : RunState := setCancelReason reason rs.
Definition LookupCancelReason rs : string := rsCancelReason rs.

(** [threadOnce.Do(rs.initThreadIndexes(wf))]: the indexes of the first workflow that asks. *)
Definition threadIndexes (wf : Workflow) rs : ThreadIndexes * RunState :=
  match rsThreadIdx rs with
  | Some ti => (ti, rs)
  | None => (initThreadIndexes wf, setThreadIdx (Some (initThreadIndexes wf)) rs)
  end.

(** engine/rerun.go: one path leaves the path-keyed indices. *)
Definition clearPath (rs : RunState) (p : string) : RunState :=
  MkRunState (rsRunID rs) (rsWorkflowDigest rs) (rsStructuralDigest rs) (rsInput rs) (rsAssets rs)
    (rsInputFiles rs) (rsEpoch rs)
    (delete p (rsCompleted rs)) (delete p (rsBranches rs)) (delete p (rsLoopIters rs))
    (delete p (rsGateAttempts rs)) (delete p (rsReactRounds rs)) (delete p (rsMapItems rs))
    (rsSignals rs) (delete p (rsCallStarted rs)) (rsPaused rs) (rsCancelled rs) (rsCancelReason rs)
    (delete p (rsSignalReceivedAt rs)) (rsSnapshotRefs rs) (delete p (rsSessionRefs rs))
    (delete p (rsSelectedSkills rs)) (rsThreadIdx rs).
Definition clearInvalidatedPaths (rs : RunState) (paths : list string) : RunState :=
  foldl clearPath rs paths.
End accessors.

(** ** skills.selected events (engine/skills.go) *)

Inductive skillsErr : Type :=
  | EmptyLibrary | EmptyLibraryDigest | EmptyRouter | EmptyRouterVersion
  | EmptySelected | EmptySkillID | DuplicateSkill (id : string)
  | NonFiniteScore (id : string) | NonPositiveScore (id : string).

Definition f64_not_finite (x : f64) : bool :=
  match x with SpecFloat.S754_nan | SpecFloat.S754_infinity _ => true | _ => false end.
Definition f64_le_zero (x : f64) : bool :=
  match x with SpecFloat.S754_zero _ => true | SpecFloat.S754_finite s _ _ => s
             | SpecFloat.S754_infinity s => s | SpecFloat.S754_nan => false end.

Fixpoint validateSelected (seen : list string) (l : list SelectedSkill) : res skillsErr () :=
  match l with
  | [] => Ok ()
  | sel :: l =>
      if String.eqb (skID sel) "" then Err EmptySkillID
      else if mem (skID sel) seen then Err (DuplicateSkill (skID sel))
      else if f64_not_finite (skScore sel) then Err (NonFiniteScore (skID sel))
      else if f64_le_zero (skScore sel) then Err (NonPositiveScore (skID sel))
      else validateSelected (skID sel :: seen) l
  end.

Definition validateSelectedSkillsEventLocal (l : list SelectedSkill) : res skillsErr () :=
  match l with [] => Err EmptySelected | _ => validateSelected [] l end.

Definition validateSkillsSelectedEventLocal (d : SkillsSelectedData) : res skillsErr () :=
  if String.eqb (ssLibrary d) "" then Err EmptyLibrary
  else if String.eqb (ssLibraryDigest d) "" then Err EmptyLibraryDigest
  else if String.eqb (ssRouter d) "" then Err EmptyRouter
  else if String.eqb (ssRouterVersion d) "" then Err EmptyRouterVersion
  else validateSelectedSkillsEventLocal (ssSelected d).

(** ** Lemmas *)

(** The record numbered [n], as the map executor looks it up. *)
Definition itemByN (n : Z) (items : list MapItemRecord) : option MapItemRecord :=
  List.find (λ it, (mrN it =? n)%Z) items.

Lemma itemByN_None n items : itemByN n items = None ↔ n ∉ mrN <$> items.
Proof.
  unfold itemByN. induction items as [|it items IH]; cbn; [set_solver|].
  destruct (Z.eqb_spec (mrN it) n) as [<-|Hne]; [set_solver|]. rewrite IH. set_solver.
Qed.

Lemma upsert_numbers mr items :
  mrN <$> upsert mr items =
    if bool_decide (mrN mr ∈ mrN <$> items) then mrN <$> items else (mrN <$> items) ++ [mrN mr].
Proof.
  induction items as [|it items IH]; [done|]. cbn [upsert fmap list_fmap].
  destruct (Z.eqb_spec (mrN it) (mrN mr)) as [E|E].
  - rewrite bool_decide_true by (rewrite E; left). cbn. by rewrite E.
  - cbn [fmap list_fmap]. rewrite IH.
    destruct (bool_decide_reflect (mrN mr ∈ mrN <$> items)) as [Hin|Hin].
    + rewrite bool_decide_true by by right. done.
    + rewrite bool_decide_false by (rewrite elem_of_cons; naive_solver). done.
Qed.

Lemma upsert_NoDup mr items : NoDup (mrN <$> items) → NoDup (mrN <$> upsert mr items).
Proof.
  intros H. rewrite upsert_numbers. case_bool_decide as E; [done|]. apply NoDup_app.
  split; [done|]. split; [set_solver|]. apply NoDup_singleton.
Qed.

Lemma upsert_itemByN mr items n :
  itemByN n (upsert mr items) = if (n =? mrN mr)%Z then Some mr else itemByN n items.
Proof.
  unfold itemByN. induction items as [|it items IH]; cbn.
  - rewrite (Z.eqb_sym n). by destruct (mrN mr =? n)%Z.
  - destruct (Z.eqb_spec (mrN it) (mrN mr)) as [E|E]; cbn.
    + rewrite E, (Z.eqb_sym n). by destruct (mrN mr =? n)%Z.
    + rewrite IH. destruct (Z.eqb_spec (mrN it) n) as [<-|]; [|done].
      by destruct (Z.eqb_spec (mrN it) (mrN mr)).
Qed.

Lemma at_path_insert {A} (m : gmap string (list A)) k k' l :
  at_path (<[k := l]> m) k' = if String.eqb k k' then l else at_path m k'.
Proof.
  unfold at_path. destruct (String.eqb_spec k k') as [<-|Hne]; [by rewrite lookup_insert_eq|].
  by rewrite lookup_insert_ne.
Qed.

Lemma clear_lookup {A} (get : RunState → gmap string A) paths :
  (∀ rs p, get (clearPath rs p) = delete p (get rs)) →
  ∀ rs q, get (clearInvalidatedPaths rs paths) !! q = if bool_decide (q ∈ paths) then None else get rs !! q.
Proof.
  intros Hg. unfold clearInvalidatedPaths. induction paths as [|p paths IH]; intros rs q; [done|].
  cbn [foldl]. rewrite IH, Hg. destruct (bool_decide_reflect (q ∈ paths)) as [Hin|Hin].
  - by rewrite bool_decide_true by by right.
  - destruct (decide (p = q)) as [<-|Hne].
    + rewrite lookup_delete_eq, bool_decide_true by left. done.
    + rewrite lookup_delete_ne by done. rewrite bool_decide_false by set_solver. done.
Qed.

Lemma clear_keeps {A} (get : RunState → A) paths :
  (∀ rs p, get (clearPath rs p) = get rs) → ∀ rs, get (clearInvalidatedPaths rs paths) = get rs.
Proof.
  intros Hg. unfold clearInvalidatedPaths. induction paths as [|p paths IH]; intros rs; [done|].
  cbn [foldl]. by rewrite IH, Hg.
Qed.

(** A skill that can be replayed. *)
Definition skill_ok (sel : SelectedSkill) : Prop :=
  skID sel ≠ "" ∧ f64_not_finite (skScore sel) = false ∧ f64_le_zero (skScore sel) = false.

Lemma mem_elem k names : mem k names = true ↔ k ∈ names.
Proof.
  induction names as [|k' names IH]; cbn; [set_solver|]. rewrite orb_true_iff, String.eqb_eq, IH. set_solver.
Qed.

Lemma validateSelected_ok seen l :
  validateSelected seen l = Ok () ↔
  Forall skill_ok l ∧ NoDup (skID <$> l) ∧ (∀ x, x ∈ skID <$> l → x ∉ seen).
Proof.
  revert seen; induction l as [|sel l IH]; intros seen; cbn.
  - split; [|done]. intros _. split; [constructor|]. split; [constructor|set_solver].
  - destruct (String.eqb_spec (skID sel) "") as [E1|E1].
    { split; [done|]. intros (Hf & _). by inversion Hf as [|?? (H & _)]. }
    destruct (mem (skID sel) seen) eqn:E2.
    { apply mem_elem in E2. split; [done|]. intros (_ & _ & H). exfalso. apply (H (skID sel)); [left|done]. }
    destruct (f64_not_finite (skScore sel)) eqn:E3.
    { split; [done|]. intros (Hf & _). inversion Hf as [|?? (_ & H & _)]. congruence. }
    destruct (f64_le_zero (skScore sel)) eqn:E4.
    { split; [done|]. intros (Hf & _). inversion Hf as [|?? (_ & _ & H)]. congruence. }
    rewrite IH, Forall_cons, NoDup_cons. rewrite <- not_true_iff_false, mem_elem in E2. unfold skill_ok.
    split.
    + intros (Hf & Hn & Hs). repeat split; try done; [intros Hx; eapply Hs; [done|left]|].
      intros x [->|Hx]%elem_of_cons; [done|]. intros Hx'. eapply Hs; [done|by right].
    + intros ((_ & Hf) & (Hni & Hn) & Hs). repeat split; try done.
      intros x Hx [->|Hx']%elem_of_cons; [done|]. eapply Hs; [by right|done].
Qed.

(** ** Properties *)

(** [RecordMapItem] is an upsert keyed by the item number.  Afterwards the number has exactly the
    new record, every other number of the map has the record it had, a re-recorded item keeps its place
    and a new one goes to the end, distinct numbers stay distinct, and other maps are untouched. *)
Theorem RecordMapItem_spec rs path mr :
  let old := LookupMapItems rs path in
  let new := LookupMapItems (RecordMapItem path mr rs) path in
  (∀ n, itemByN n new = if (n =? mrN mr)%Z then Some mr else itemByN n old) ∧
  mrN <$> new = (if bool_decide (mrN mr ∈ mrN <$> old) then mrN <$> old else (mrN <$> old) ++ [mrN mr]) ∧
  (NoDup (mrN <$> old) → NoDup (mrN <$> new)) ∧
  (∀ path', path' ≠ path → LookupMapItems (RecordMapItem path mr rs) path' = LookupMapItems rs path').
Proof.
  cbn zeta. unfold LookupMapItems, RecordMapItem. cbn [rsMapItems setMapItems].
  rewrite at_path_insert, String.eqb_refl. fold (LookupMapItems rs path). split; [intros; apply upsert_itemByN|].
  split; [apply upsert_numbers|]. split; [apply upsert_NoDup|].
  intros path' Hne. rewrite at_path_insert. destruct (String.eqb_spec path path') as [->|]; [done|done].
Qed.

(** invalidating paths removes each of them from the ten path-keyed indices and changes nothing
    else: other paths keep their entries, and the indices keyed by container or signal name, the run's
    identity, its input, epoch and cancellation are kept. *)
Theorem clearInvalidatedPaths_spec rs paths :
  let rs' := clearInvalidatedPaths rs paths in
  let cleared {A} (m m' : gmap string A) := ∀ q, m' !! q = if bool_decide (q ∈ paths) then None else m !! q in
  cleared (rsCompleted rs) (rsCompleted rs') ∧ cleared (rsBranches rs) (rsBranches rs') ∧
  cleared (rsLoopIters rs) (rsLoopIters rs') ∧ cleared (rsGateAttempts rs) (rsGateAttempts rs') ∧
  cleared (rsReactRounds rs) (rsReactRounds rs') ∧ cleared (rsMapItems rs) (rsMapItems rs') ∧
  cleared (rsCallStarted rs) (rsCallStarted rs') ∧ cleared (rsSignalReceivedAt rs) (rsSignalReceivedAt rs') ∧
  cleared (rsSelectedSkills rs) (rsSelectedSkills rs') ∧ cleared (rsSessionRefs rs) (rsSessionRefs rs') ∧
  rsSnapshotRefs rs' = rsSnapshotRefs rs ∧ rsSignals rs' = rsSignals rs ∧
  (rsRunID rs', rsWorkflowDigest rs', rsStructuralDigest rs', rsInput rs', rsAssets rs', rsInputFiles rs',
   rsEpoch rs', rsPaused rs', rsCancelled rs', rsCancelReason rs') =
  (rsRunID rs, rsWorkflowDigest rs, rsStructuralDigest rs, rsInput rs, rsAssets rs, rsInputFiles rs,
   rsEpoch rs, rsPaused rs, rsCancelled rs, rsCancelReason rs).
Proof.
  cbn zeta. repeat match goal with |- _ ∧ _ => split end;
    try (intros q; exact (clear_lookup _ _ (λ _ _, eq_refl) rs q)); try by apply clear_keeps.
  by rewrite (clear_keeps (λ rs, (rsRunID rs, rsWorkflowDigest rs, rsStructuralDigest rs, rsInput rs, rsAssets rs,
    rsInputFiles rs, rsEpoch rs, rsPaused rs, rsCancelled rs, rsCancelReason rs))).
Qed.

(** a skills.selected event is accepted exactly when its four identity fields are set and it
    selects at least one skill, every skill named, no name twice, every score finite and positive. *)
Theorem validateSkillsSelected_spec d :
  validateSkillsSelectedEventLocal d = Ok () ↔
  ssLibrary d ≠ "" ∧ ssLibraryDigest d ≠ "" ∧ ssRouter d ≠ "" ∧ ssRouterVersion d ≠ "" ∧
  ssSelected d ≠ [] ∧ Forall skill_ok (ssSelected d) ∧ NoDup (skID <$> ssSelected d).
Proof.
  unfold validateSkillsSelectedEventLocal.
  destruct (String.eqb_spec (ssLibrary d) ""); [naive_solver|].
  destruct (String.eqb_spec (ssLibraryDigest d) ""); [naive_solver|].
  destruct (String.eqb_spec (ssRouter d) ""); [naive_solver|].
  destruct (String.eqb_spec (ssRouterVersion d) ""); [naive_solver|].
  unfold validateSelectedSkillsEventLocal. destruct (ssSelected d) as [|s l]; [naive_solver|].
  rewrite validateSelected_ok. split; [naive_solver|]. intros (_ & _ & _ & _ & _ & Hf & Hn).
  split; [done|]. split; [done|]. intros x _. apply not_elem_of_nil.
Qed.
