(* ===== verification/EngineFold.v ===== *)
(** * engine/fold.go: replaying the log into a run state

    [Fold] and its arms, one definition per event type, over the events of the log and the [Get] of
    the blob store.  Every error return of the code is a constructor of [foldErr]. *)

From S2P Require Import Prelude GoNum GoJson GoStruct StateBlobs StateLog EngineEvents RunState.

Inductive foldErr : Type :=
  | FirstNotRunStarted (ty : string) (seq : Z)
  | DuplicateRunStarted (seq : Z)
  | ParseData (ty path : string) (seq : Z)
  | ReadRef (ref path : string) (cause : blobErr)
  | ParseBlob (ref path : string)
  | DuplicateCallStarted (path : string) (seq : Z)
  | CallInputNotObject (ref path : string)
  | UnknownOutcome (o path : string) (seq : Z)
  | OutcomeDoesNotCommit (o path : string) (seq : Z)
  | SkillsEmptyPath (seq : Z)
  | SkillsRecorded (path : string) (seq : Z)
  | SkillsInvalid (path : string) (seq : Z) (cause : skillsErr).

(** [json.Unmarshal(raw, &m)] into a nil [map[string]any]. *)
Definition unmarshalMap (raw : string) : option gomap :=
  j ← json_parse raw;
  v ← Unmarshal_any j;
  match v with VNil => Some None | VMap l => Some (Some l) | _ => None end.

Section fold.
Context `{TimeCodec}.
(** [blobs.Get]. *)
Variable get : string → res blobErr string.

#[local] Notation step_result := (res foldErr RunState).

Definition parseData {D} (dec : list (string * json) → option D) (e : Event) : res foldErr D :=
  match d ← Data e; decode_struct dec d with
  | Some d => Ok d
  | None => Err (ParseData (EvType e) (Path e) (Seq e))
  end.

Definition readRef (ref path : string) : res foldErr string :=
  res_map_err (ReadRef ref path) (get ref).

Definition readMap (ref path : string) : res foldErr gomap :=
  let? raw := readRef ref path in
  match unmarshalMap raw with Some m => Ok m | None => Err (ParseBlob ref path) end.

(** A reference that may be empty. *)
Definition readMapIf (ref path : string) : res foldErr gomap :=
  if String.eqb ref "" then Ok None else readMap ref path.

Definition foldRunStarted (e : Event) (rs : RunState) : step_result :=
  let? d := parseData RunStartedData_of e in
  let? input := (if String.eqb (rsdInputRef d) "" then Ok (rsInput rs) else readMap (rsdInputRef d) (Path e)) in
  Ok (MkRunState (rsdRunID d) (rsdWorkflowDigest d) (rsdStructuralDigest d) input (rsdAssets d)
        (cloneStringMap (rsdInputFiles d)) 1 (rsCompleted rs) (rsBranches rs) (rsLoopIters rs)
        (rsGateAttempts rs) (rsReactRounds rs) (rsMapItems rs) (rsSignals rs) (rsCallStarted rs)
        (rsPaused rs) (rsCancelled rs) (rsCancelReason rs) (rsSignalReceivedAt rs) (rsSnapshotRefs rs)
        (rsSessionRefs rs) (rsSelectedSkills rs) (rsThreadIdx rs)).

Definition foldRunResumed (e : Event) (rs : RunState) : step_result :=
  let? d := parseData RunResumedData_of e in
  Ok (setEpoch (rrdEpoch d) rs).

Definition foldCallStarted (e : Event) (rs : RunState) : step_result :=
  match rsCallStarted rs !! Path e with
  | Some _ => Err (DuplicateCallStarted (Path e) (Seq e))
  | None =>
      let? d := parseData CallStartedData_of e in
      let? input := readMap (csdInputRef d) (Path e) in
      match input with
      | None => Err (CallInputNotObject (csdInputRef d) (Path e))
      | Some _ =>
          let rec := MkCallStarted input (csdInputRef d) (cloneStringMap (csdInputFiles d)) (csdRuntimes d) in
          Ok (setCallStarted (<[Path e := rec]> (rsCallStarted rs)) rs)
      end
  end.

(** The thread turn of a transcript blob. *)
Definition readTranscript (ref path : string) : res foldErr ThreadTurn :=
  if String.eqb ref "" then Ok zeroTurn else
  let? raw := readRef ref path in
  match j ← json_parse raw; decode_struct ThreadTurn_of j with
  | Some t => Ok t
  | None => Err (ParseBlob ref path)
  end.

(** The payload of a node.completed event and the result it stands for. *)
Definition nodeResult (e : Event) : res foldErr (NodeCompletedData * NodeResult) :=
  let? d := parseData NodeCompletedData_of e in
  match ParseOutcome (ncOutcome d) with
  | None => Err (UnknownOutcome (ncOutcome d) (Path e) (Seq e))
  | Some oc =>
      if negb (String.eqb oc OutcomeOK) then Err (OutcomeDoesNotCommit oc (Path e) (Seq e)) else
      let? outputs := readMapIf (ncOutputsRef d) (Path e) in
      let? stdout := (if String.eqb (ncStdoutRef d) "" then Ok "" else readRef (ncStdoutRef d) (Path e)) in
      let? transcript := readTranscript (ncTranscriptRef d) (Path e) in
      Ok (d, MkNodeResult oc (ncExitCode d) outputs (ncOutputsRef d) stdout (ncStdoutRef d) (ncFiles d)
               transcript (ncNodeKey d) (ncNodeSubtreeDigest d))
  end.

(** The state with the node recorded; the last snapshot of a container and the last session win. *)
Definition applyCompleted (path : string) (d : NodeCompletedData) (nr : NodeResult) (rs : RunState) : RunState :=
  let rs := setCompleted (<[path := nr]> (rsCompleted rs)) rs in
  let rs := if negb (String.eqb (ncSnapshotRef d) "") && negb (String.eqb (ncContainer d) "")
            then setSnapshotRefs (<[ncContainer d := ncSnapshotRef d]> (rsSnapshotRefs rs)) rs else rs in
  if negb (String.eqb (ncSessionRef d) "")
  then setSessionRefs (<[path := ncSessionRef d]> (rsSessionRefs rs)) rs else rs.

Definition foldNodeCompleted (e : Event) (rs : RunState) : step_result :=
  let? (d, nr) := nodeResult e in
  Ok (applyCompleted (Path e) d nr rs).

Definition foldBranchTaken (e : Event) (rs : RunState) : step_result :=
  let? d := parseData BranchTakenData_of e in
  Ok (setBranches (<[Path e := btWhich d]> (rsBranches rs)) rs).

Definition foldLoopIter (e : Event) (rs : RunState) : step_result :=
  let? d := parseData LoopIterData_of e in
  Ok (setLoopIters (<[Path e := liN d]> (rsLoopIters rs)) rs).

Definition foldGateAttempt (e : Event) (rs : RunState) : step_result :=
  let? d := parseData GateAttemptData_of e in
  let? verdict := readMapIf (gaVerdictRef d) (Path e) in
  let ar := MkAttempt (gaN d) (gaAttemptOutcome d) verdict in
  Ok (setGateAttempts (<[Path e := at_path (rsGateAttempts rs) (Path e) ++ [ar]]> (rsGateAttempts rs)) rs).

Definition foldReactRound (e : Event) (rs : RunState) : step_result :=
  let? d := parseData ReactRoundData_of e in
  Ok (setReactRounds (<[Path e := at_path (rsReactRounds rs) (Path e) ++ [MkRound (rrN d)]]> (rsReactRounds rs)) rs).

Definition foldMapItem (e : Event) (rs : RunState) : step_result :=
  let? d := parseData MapItemData_of e in
  Ok (RecordMapItem (Path e)
        (MkMapItem (miN d) VNil (miStatus d) (miOutcome d) (miImageDigest d) (miReason d) (miCause d)) rs).

(** One item of a frontier, appended; its outcome is not copied. *)
Definition frontierItem (path : string) (rs : RunState) (it : MapItemData) : RunState :=
  setMapItems (<[path := at_path (rsMapItems rs) path ++
                   [MkMapItem (miN it) VNil (miStatus it) "" (miImageDigest it) (miReason it) (miCause it)]]>
                 (rsMapItems rs)) rs.
Definition foldMapFrontier (e : Event) (rs : RunState) : step_result :=
  let? d := parseData MapFrontierData_of e in
  Ok (foldl (frontierItem (Path e)) rs (mfItems d)).

Definition foldSignalReceived (e : Event) (rs : RunState) : step_result :=
  let? d := parseData SignalReceivedData_of e in
  let rs := setSignals (<[srName d := at_path (rsSignals rs) (srName d) ++ [MkSignal (srSeq d) (srPayloadRef d)]]>
                          (rsSignals rs)) rs in
  Ok (if String.eqb (Path e) "" then rs
      else setSignalReceivedAt (<[Path e := MkReceived (srSeq d) (srPayloadRef d)]> (rsSignalReceivedAt rs)) rs).

Definition foldSkillsSelected (e : Event) (rs : RunState) : step_result :=
  let? d := parseData SkillsSelectedData_of e in
  if String.eqb (Path e) "" then Err (SkillsEmptyPath (Seq e))
  else match rsSelectedSkills rs !! Path e with
       | Some _ => Err (SkillsRecorded (Path e) (Seq e))
       | None =>
           let? _ := res_map_err (SkillsInvalid (Path e) (Seq e)) (validateSkillsSelectedEventLocal d) in
           Ok (setSelectedSkills (<[Path e := cloneSkillsSelectedData d]> (rsSelectedSkills rs)) rs)
       end.

Definition foldNodeInvalidated (e : Event) (rs : RunState) : step_result :=
  let? d := parseData NodeInvalidatedData_of e in
  Ok (clearInvalidatedPaths rs (nidPaths d)).

(** The switch on the event type, run.started aside. *)
Definition foldArm (e : Event) (rs : RunState) : step_result :=
  let isType t := String.eqb (EvType e) t in
  if isType EventRunResumed then foldRunResumed e rs
  else if isType EventCallStarted then foldCallStarted e rs
  else if isType EventNodeCompleted then foldNodeCompleted e rs
  else if isType EventBranchTaken then foldBranchTaken e rs
  else if isType EventLoopIter then foldLoopIter e rs
  else if isType EventGateAttempt then foldGateAttempt e rs
  else if isType EventReactRound then foldReactRound e rs
  else if isType EventMapItem then foldMapItem e rs
  else if isType EventMapFrontier then foldMapFrontier e rs
  else if isType EventSignalReceived then foldSignalReceived e rs
  else if isType EventSkillsSelected then foldSkillsSelected e rs
  else if isType EventRunCancelled then Ok (setCancelled true rs)
  else if isType EventNodeInvalidated then foldNodeInvalidated e rs
  else Ok rs.

(** The loop; [seen] is [seenRunStarted]. *)
Fixpoint foldEvents (seen : bool) (rs : RunState) (es : list Event) {struct es} : step_result :=
  match es with
  | [] => Ok rs
  | e :: es =>
      if String.eqb (EvType e) EventRunStarted then
        if seen then Err (DuplicateRunStarted (Seq e))
        else let? rs := foldRunStarted e rs in foldEvents true rs es
      else let? rs := foldArm e rs in foldEvents seen rs es
  end.

Definition Fold (events : list Event) : step_result :=
  match events with
  | [] => Ok zeroRunState
  | e :: _ =>
      if negb (String.eqb (EvType e) EventRunStarted) then Err (FirstNotRunStarted (EvType e) (Seq e))
      else foldEvents false zeroRunState events
  end.
End fold.

(** ** Lemmas *)

Section lemmas.
Context `{TimeCodec}.
Variable get : string → res blobErr string.

Definition isStart (e : Event) : bool := String.eqb (EvType e) EventRunStarted.

Lemma foldEvents_app es1 es2 : ∀ seen rs,
  foldEvents get seen rs (es1 ++ es2) =
    let? rs1 := foldEvents get seen rs es1 in foldEvents get (seen || existsb isStart es1) rs1 es2.
Proof.
  induction es1 as [|e es1 IH]; intros seen rs; [by cbn; rewrite orb_false_r|].
  cbn [app foldEvents existsb]. unfold isStart at 1. destruct (String.eqb (EvType e) EventRunStarted).
  - destruct seen; [done|]. destruct (foldRunStarted get e rs); [|done]. cbn [res_bind orb]. by rewrite IH.
  - destruct (foldArm get e rs); [|done]. cbn [res_bind orb]. by rewrite IH.
Qed.

Lemma Fold_app es1 es2 :
  es1 ≠ [] → Fold get (es1 ++ es2) = let? rs := Fold get es1 in foldEvents get true rs es2.
Proof.
  destruct es1 as [|e es1]; [done|]. intros _. unfold Fold. cbn [app].
  destruct (String.eqb (EvType e) EventRunStarted) eqn:E; [|done]. cbn [negb].
  change (e :: es1 ++ es2) with ((e :: es1) ++ es2). rewrite foldEvents_app. cbn [existsb].
  unfold isStart at 1. by rewrite E.
Qed.

(** After the start, an event is an arm. *)
Lemma foldEvents_snoc rs es e rs' :
  foldEvents get true rs (es ++ [e]) = Ok rs' ↔
  ∃ rs1, foldEvents get true rs es = Ok rs1 ∧ EvType e ≠ EventRunStarted ∧ foldArm get e rs1 = Ok rs'.
Proof.
  rewrite foldEvents_app, res_bind_ok. cbn [orb foldEvents]. split; intros (rs1 & H1 & H2); exists rs1; split; try done.
  - destruct (String.eqb_spec (EvType e) EventRunStarted) as [|Hne]; [done|].
    apply res_bind_ok in H2 as (a & Ha & H2). injection H2 as <-. done.
  - destruct H2 as [Hne Ha]. destruct (String.eqb_spec (EvType e) EventRunStarted); [done|]. by rewrite Ha.
Qed.

(** A property of states that holds after run.started and that every arm keeps, given the events
    seen so far. *)
Lemma Fold_ind (P : list Event → RunState → Prop) :
  (∀ e rs, EvType e = EventRunStarted → foldRunStarted get e zeroRunState = Ok rs → P [e] rs) →
  (∀ es e rs rs', es ≠ [] → P es rs → EvType e ≠ EventRunStarted → foldArm get e rs = Ok rs' → P (es ++ [e]) rs') →
  ∀ es rs, es ≠ [] → Fold get es = Ok rs → P es rs.
Proof.
  intros H0 HS es rs Hne HF. destruct es as [|e0 es]; [done|]. clear Hne. revert rs HF.
  induction es as [|e es IH] using rev_ind; intros rs HF.
  - unfold Fold in HF. destruct (String.eqb_spec (EvType e0) EventRunStarted) as [E|]; [|done]. cbn [negb] in HF.
    cbn [foldEvents] in HF. rewrite E in HF. apply res_bind_ok in HF as (rs1 & HF & [= <-]). by apply H0.
  - change (e0 :: es ++ [e]) with ((e0 :: es) ++ [e]) in *. rewrite Fold_app in HF by done.
    apply res_bind_ok in HF as (rs1 & HF & Ha). apply (foldEvents_snoc rs1 [] e rs) in Ha as (rs2 & [= <-] & Hs & Ha).
    by eapply HS; [|apply IH| |].
Qed.
End lemmas.

(** ** What an arm does *)

Ltac arm_inv H :=
  repeat match type of H with
  | res_bind _ _ = Ok _ => let a := fresh "a" in let Ha := fresh "Ha" in apply res_bind_ok in H as (a & Ha & H)
  | (if _ then Err _ else _) = Ok _ => case_match; [discriminate H|]
  | match ?x with _ => _ end = Ok _ => destruct x eqn:?; try discriminate H
  end;
  try (injection H as <-).

(** The arms, by event type. *)
Ltac split_arm H :=
  unfold foldArm in H; cbv beta zeta in H;
  repeat match type of H with
  | (if String.eqb ?a ?b then _ else _) = _ =>
      let E := fresh "E" in destruct (String.eqb_spec a b) as [E|E]
  end.

Ltac other_type :=
  first [ done | match goal with E : EvType _ = _ |- EvType _ ≠ _ => rewrite E; discriminate end ].

Lemma frontier_keeps {A} (f : RunState → A) path :
  (∀ rs it, f (frontierItem path rs it) = f rs) → ∀ l rs, f (foldl (frontierItem path) rs l) = f rs.
Proof. intros Hf l. induction l as [|it l IH]; intros rs; [done|]. cbn. by rewrite IH. Qed.

(** An arm that leaves a field alone. *)
Ltac arm_same HA :=
  match type of HA with
  | foldMapFrontier _ _ = _ => unfold foldMapFrontier in HA; arm_inv HA; by apply frontier_keeps
  | foldNodeInvalidated _ _ = _ => unfold foldNodeInvalidated in HA; arm_inv HA; by apply clear_keeps
  | foldNodeCompleted _ _ _ = _ =>
      unfold foldNodeCompleted in HA; apply res_bind_ok in HA as ([] & _ & HA); injection HA as <-; unfold applyCompleted; by repeat case_match
  | ?f _ _ _ _ = _ => unfold f in HA; arm_inv HA; done
  | ?f _ _ _ = _ => unfold f in HA; arm_inv HA; try done; by case_match
  | Ok _ = _ => by injection HA as <-
  end.

Section arms.
Context `{TimeCodec}.
Variable get : string → res blobErr string.

Lemma foldArm_completed e rs rs' :
  foldArm get e rs = Ok rs' →
  (EvType e = EventNodeCompleted ∧
     ∃ d nr, nodeResult get e = Ok (d, nr) ∧ rsCompleted rs' = <[Path e := nr]> (rsCompleted rs)) ∨
  (EvType e = EventNodeInvalidated ∧
     ∃ d, parseData NodeInvalidatedData_of e = Ok d ∧ rs' = clearInvalidatedPaths rs (nidPaths d)) ∨
  (EvType e ≠ EventNodeCompleted ∧ EvType e ≠ EventNodeInvalidated ∧ rsCompleted rs' = rsCompleted rs).
Proof.
  intros HA. split_arm HA;
    try (right; right; split; [other_type|split; [other_type|]];
         arm_same HA).
  - left. split; [done|]. unfold foldNodeCompleted in HA. apply res_bind_ok in HA as ([d nr] & Hn & HA).
    exists d, nr. split; [done|]. injection HA as <-. unfold applyCompleted. by repeat case_match.
  - right; left. split; [done|]. unfold foldNodeInvalidated in HA. arm_inv HA. eauto.
Qed.

Definition identity_of (rs : RunState) :=
  (rsRunID rs, rsWorkflowDigest rs, rsStructuralDigest rs, rsInput rs, rsAssets rs, rsInputFiles rs).

Lemma foldArm_identity e rs rs' : foldArm get e rs = Ok rs' → identity_of rs' = identity_of rs.
Proof. intros HA. split_arm HA; arm_same HA. Qed.

Lemma foldArm_mapitems e rs rs' :
  foldArm get e rs = Ok rs' → EvType e ≠ EventMapFrontier →
  (∃ mr, rs' = RecordMapItem (Path e) mr rs) ∨
  (∃ ps, rs' = clearInvalidatedPaths rs ps) ∨
  rsMapItems rs' = rsMapItems rs.
Proof.
  intros HA Hf. split_arm HA; try (right; right; arm_same HA); try done.
  - left. unfold foldMapItem in HA. arm_inv HA. by eexists.
  - right; left. unfold foldNodeInvalidated in HA. arm_inv HA. by eexists.
Qed.
End arms.

(** ** Commit records *)

Section committed.
Context `{TimeCodec}.
Variable get : string → res blobErr string.

(** The event decides whether [p] is committed. *)
Definition touches (p : string) (e : Event) : Prop :=
  (EvType e = EventNodeCompleted ∧ Path e = p) ∨
  (EvType e = EventNodeInvalidated ∧ ∃ d, parseData NodeInvalidatedData_of e = Ok d ∧ p ∈ nidPaths d).

(** [nr] is what the last node.completed event at [p] records, and no invalidation follows it. *)
Definition lastCommit (es : list Event) (p : string) (nr : NodeResult) : Prop :=
  ∃ i e d, es !! i = Some e ∧ EvType e = EventNodeCompleted ∧ Path e = p ∧ nodeResult get e = Ok (d, nr) ∧
           ∀ j e', (i < j)%nat → es !! j = Some e' → ¬ touches p e'.

Lemma lastCommit_snoc es e p nr :
  lastCommit (es ++ [e]) p nr ↔
  (EvType e = EventNodeCompleted ∧ Path e = p ∧ ∃ d, nodeResult get e = Ok (d, nr)) ∨
  (¬ touches p e ∧ lastCommit es p nr).
Proof.
  split.
  - intros (i & e1 & d & Hi & Ht & Hp & Hn & Hl). apply lookup_snoc_Some in Hi as [[Hi Hi']|[Hi <-]].
    + right. split; [apply (Hl (length es)); [done|by rewrite lookup_app_r, Nat.sub_diag]|].
      exists i, e1, d. repeat split; try done. intros j e' Hj Hj'. apply (Hl j); [done|].
      by apply lookup_app_l_Some.
    + left. eauto.
  - intros [(Ht & Hp & d & Hn)|[Ht (i & e1 & d & Hi & Ht1 & Hp & Hn & Hl)]].
    + exists (length es), e, d. repeat split; try done; [by rewrite lookup_app_r, Nat.sub_diag|].
      intros j e' Hj Hj'. apply lookup_lt_Some in Hj'. rewrite length_app in Hj'. cbn in Hj'. lia.
    + exists i, e1, d. repeat split; try done; [by apply lookup_app_l_Some|].
      intros j e' Hj Hj'. apply lookup_snoc_Some in Hj' as [[_ Hj']|[_ <-]]; [by apply (Hl j)|done].
Qed.

Lemma lastCommit_nil p nr : ¬ lastCommit [] p nr.
Proof. by intros (i & e & d & Hi & _). Qed.

Lemma Fold_lastCommit es rs :
  es ≠ [] → Fold get es = Ok rs → ∀ p nr, rsCompleted rs !! p = Some nr ↔ lastCommit es p nr.
Proof.
  revert es rs. apply (Fold_ind get (λ es rs, ∀ p nr, rsCompleted rs !! p = Some nr ↔ lastCommit es p nr)).
  - intros e rs Ht Hs p nr. unfold foldRunStarted in Hs. arm_inv Hs. cbn [rsCompleted zeroRunState].
    rewrite lookup_empty. split; [done|]. intros Hc. apply (lastCommit_snoc [] e) in Hc as [(Ht' & _)|[_ Hc]].
    + by rewrite Ht in Ht'.
    + by apply lastCommit_nil in Hc.
  - intros es e rs rs' _ IH _ Ha p nr. rewrite lastCommit_snoc, <- IH.
    apply foldArm_completed in Ha as [(Ht & d & nr' & Hn & ->)|[(Ht & d & Hd & ->)|(Ht1 & Ht2 & ->)]].
    + destruct (decide (Path e = p)) as [<-|Hne].
      * rewrite lookup_insert_eq. split; [intros [= ->]; left; eauto|].
        intros [(_ & _ & d' & Hn')|[Hnt _]]; [congruence|]. destruct Hnt. by left.
      * rewrite lookup_insert_ne by done. split; [|naive_solver].
        intros Hl. right. split; [|done]. intros [[_ Hp]|[Ht' _]]; [done|by rewrite Ht in Ht'].
    + rewrite (clear_lookup _ _ (λ _ _, eq_refl)). destruct (bool_decide_reflect (p ∈ nidPaths d)) as [Hin|Hin].
      * split; [done|]. intros [(Ht' & _)|[Hnt _]]; [by rewrite Ht in Ht'|]. destruct Hnt. right. eauto.
      * split; [|intros [(Ht' & _)|[_ Hl]]; [by rewrite Ht in Ht'|done]]. intros Hl. right. split; [|done].
        intros [[Ht' _]|(_ & d' & Hd' & Hp)]; [by rewrite Ht in Ht'|]. by rewrite Hd in Hd'; injection Hd' as <-.
    + split; [|naive_solver]. intros Hl. right. split; [|done]. by intros [[]|[]].
Qed.

(** A result that was read: it is ok and every reference of the record resolves. *)
Lemma nodeResult_refs e d nr :
  nodeResult get e = Ok (d, nr) →
  nrOutcome nr = OutcomeOK ∧ ncOutcome d = OutcomeOK ∧
  (ncOutputsRef d ≠ "" → ∃ raw, get (ncOutputsRef d) = Ok raw ∧ unmarshalMap raw = Some (nrOutputs nr)) ∧
  (ncStdoutRef d ≠ "" → get (ncStdoutRef d) = Ok (nrStdout nr)) ∧
  (ncTranscriptRef d ≠ "" → ∃ raw j, get (ncTranscriptRef d) = Ok raw ∧ json_parse raw = Some j ∧
                                   decode_struct ThreadTurn_of j = Some (nrTranscript nr)).
Proof.
  intros Hn. unfold nodeResult in Hn. apply res_bind_ok in Hn as (d' & Hd & Hn).
  destruct (ParseOutcome (ncOutcome d')) as [oc|] eqn:Ho; [|done].
  destruct (String.eqb_spec oc OutcomeOK) as [->|]; [|done]. cbn [negb] in Hn.
  apply res_bind_ok in Hn as (out & Hout & Hn). apply res_bind_ok in Hn as (std & Hstd & Hn).
  apply res_bind_ok in Hn as (tr & Htr & Hn). injection Hn as -> <-. cbn [nrOutcome nrOutputs nrStdout nrTranscript].
  split; [done|]. split.
  { unfold ParseOutcome in Ho. by destruct (_ || _); [injection Ho|]. }
  split; [|split].
  - intros Hr. unfold readMapIf in Hout. destruct (String.eqb_spec (ncOutputsRef d) ""); [done|].
    unfold readMap, readRef in Hout. destruct (get (ncOutputsRef d)) as [raw|]; [|done]. cbn [res_map_err res_bind] in Hout.
    exists raw. split; [done|]. destruct (unmarshalMap raw); [by injection Hout as ->|done].
  - intros Hr. destruct (String.eqb_spec (ncStdoutRef d) ""); [done|]. unfold readRef in Hstd.
    destruct (get (ncStdoutRef d)); [by injection Hstd as ->|done].
  - intros Hr. unfold readTranscript in Htr. destruct (String.eqb_spec (ncTranscriptRef d) ""); [done|].
    unfold readRef in Htr. destruct (get (ncTranscriptRef d)) as [raw|]; [|done]. cbn [res_map_err res_bind] in Htr.
    destruct (json_parse raw) as [j|] eqn:Hj; [|done]. cbn [mbind option_bind] in Htr. exists raw, j. split; [done|]. split; [done|].
    destruct (decode_struct ThreadTurn_of j); [by injection Htr as ->|done].
Qed.
End committed.

(** The events the fold reads. *)
Definition foldedTypes : list string :=
  [EventRunStarted; EventRunResumed; EventCallStarted; EventNodeCompleted; EventBranchTaken; EventLoopIter;
   EventGateAttempt; EventReactRound; EventMapItem; EventMapFrontier; EventSignalReceived; EventSkillsSelected;
   EventRunCancelled; EventNodeInvalidated].

Section observational.
Context `{TimeCodec}.
Variable get : string → res blobErr string.

Definition folded (e : Event) : bool := mem (EvType e) foldedTypes.

Lemma foldArm_ignored e rs : folded e = false → foldArm get e rs = Ok rs.
Proof.
  intros Hf. unfold folded, foldedTypes in Hf. cbn [mem] in Hf. rewrite !orb_false_iff in Hf.
  destruct Hf as (_ & H1 & H2 & H3 & H4 & H5 & H6 & H7 & H8 & H9 & H10 & H11 & H12 & H13 & _).
  unfold foldArm. cbv beta zeta. by rewrite H1, H2, H3, H4, H5, H6, H7, H8, H9, H10, H11, H12, H13.
Qed.

Lemma foldEvents_filter es : ∀ seen rs,
  foldEvents get seen rs (List.filter folded es) = foldEvents get seen rs es.
Proof.
  induction es as [|e es IH]; intros seen rs; [done|]. cbn [List.filter foldEvents].
  destruct (folded e) eqn:Hf.
  - cbn [foldEvents]. destruct (String.eqb (EvType e) EventRunStarted).
    + destruct seen; [done|]. destruct (foldRunStarted get e rs); [|done]. cbn [res_bind]. apply IH.
    + destruct (foldArm get e rs); [|done]. cbn [res_bind]. apply IH.
  - rewrite foldArm_ignored by done. unfold folded in Hf. cbn in Hf.
    apply orb_false_iff in Hf as [-> _]. cbn [res_bind]. apply IH.
Qed.
End observational.

(** ** A store that has grown *)

Section grows.
Context `{TimeCodec}.
Variables get get' : string → res blobErr string.
Hypothesis Hg : ∀ x y, get x = Ok y → get' x = Ok y.

Lemma readRef_grows r p x : readRef get r p = Ok x → readRef get' r p = Ok x.
Proof. unfold readRef. destruct (get r) eqn:E; [|done]. by rewrite (Hg _ _ E). Qed.
Lemma readMap_grows r p x : readMap get r p = Ok x → readMap get' r p = Ok x.
Proof. unfold readMap. intros (raw & Hr & Hx)%res_bind_ok. by rewrite (readRef_grows _ _ _ Hr). Qed.
Lemma readMapIf_grows r p x : readMapIf get r p = Ok x → readMapIf get' r p = Ok x.
Proof. unfold readMapIf. destruct (String.eqb r ""); [done|]. apply readMap_grows. Qed.
Lemma readTranscript_grows r p x : readTranscript get r p = Ok x → readTranscript get' r p = Ok x.
Proof.
  unfold readTranscript. destruct (String.eqb r ""); [done|].
  intros (raw & Hr & Hx)%res_bind_ok. by rewrite (readRef_grows _ _ _ Hr).
Qed.

Lemma nodeResult_grows e x : nodeResult get e = Ok x → nodeResult get' e = Ok x.
Proof.
  unfold nodeResult. intros (d & Hd & Hx)%res_bind_ok. rewrite Hd. cbn [res_bind].
  destruct (ParseOutcome (ncOutcome d)) as [oc|]; [|done]. destruct (negb (String.eqb oc OutcomeOK)); [done|].
  apply res_bind_ok in Hx as (o & Ho & Hx). rewrite (readMapIf_grows _ _ _ Ho). cbn [res_bind].
  apply res_bind_ok in Hx as (so & Hso & Hx).
  assert (E : (if String.eqb (ncStdoutRef d) "" then Ok "" else readRef get' (ncStdoutRef d) (Path e)) = Ok so).
  { destruct (String.eqb (ncStdoutRef d) ""); [done|]. by apply readRef_grows. }
  rewrite E. cbn [res_bind]. apply res_bind_ok in Hx as (t & Ht & Hx).
  by rewrite (readTranscript_grows _ _ _ Ht).
Qed.

Lemma foldRunStarted_grows e rs rs' : foldRunStarted get e rs = Ok rs' → foldRunStarted get' e rs = Ok rs'.
Proof.
  unfold foldRunStarted. intros (d & Hd & Hx)%res_bind_ok. rewrite Hd. cbn [res_bind].
  apply res_bind_ok in Hx as (i & Hi & Hx).
  assert (E : (if String.eqb (rsdInputRef d) "" then Ok (rsInput rs) else readMap get' (rsdInputRef d) (Path e)) = Ok i).
  { destruct (String.eqb (rsdInputRef d) ""); [done|]. by apply readMap_grows. }
  by rewrite E.
Qed.

Lemma foldArm_grows e rs rs' : foldArm get e rs = Ok rs' → foldArm get' e rs = Ok rs'.
Proof.
  unfold foldArm. cbv beta zeta.
  repeat match goal with |- (if ?b then _ else _) = _ → _ => destruct b end; try done.
  - unfold foldCallStarted. destruct (rsCallStarted rs !! Path e); [done|].
    intros (d & Hd & Hx)%res_bind_ok. rewrite Hd. cbn [res_bind].
    apply res_bind_ok in Hx as (i & Hi & Hx). by rewrite (readMap_grows _ _ _ Hi).
  - unfold foldNodeCompleted. intros ([d nr] & Hd & Hx)%res_bind_ok. by rewrite (nodeResult_grows _ _ Hd).
  - unfold foldGateAttempt. intros (d & Hd & Hx)%res_bind_ok. rewrite Hd. cbn [res_bind].
    apply res_bind_ok in Hx as (v & Hv & Hx). by rewrite (readMapIf_grows _ _ _ Hv).
Qed.

Lemma foldEvents_grows es : ∀ seen rs rs',
  foldEvents get seen rs es = Ok rs' → foldEvents get' seen rs es = Ok rs'.
Proof.
  induction es as [|e es IH]; intros seen rs rs'; [done|]. cbn [foldEvents].
  destruct (String.eqb (EvType e) EventRunStarted).
  - destruct seen; [done|]. intros (rs1 & H1 & H2)%res_bind_ok.
    rewrite (foldRunStarted_grows _ _ _ H1). cbn [res_bind]. by apply IH.
  - intros (rs1 & H1 & H2)%res_bind_ok. rewrite (foldArm_grows _ _ _ H1). cbn [res_bind]. by apply IH.
Qed.

Lemma Fold_grows es rs : Fold get es = Ok rs → Fold get' es = Ok rs.
Proof.
  unfold Fold. destruct es as [|e es]; [done|]. destruct (negb _); [done|]. apply foldEvents_grows.
Qed.
End grows.

(** ** A log to evaluate on *)

#[local] Existing Instance two_times.

Definition exOutputs : string := json_print (JObj [("ok", JBool true)]).
Definition exGet (ref : string) : res blobErr string :=
  if String.eqb ref "r1" then Ok exOutputs else Err ErrNotExist.
Definition exEv (ty path : string) (d : json) : Event := MkEvent 0 0 false path ty "" (Some d).
Definition exStart : Event :=
  exEv EventRunStarted "" (RunStartedData_json (MkRunStartedData "run-1" "d1" "" "" 0 "" "" ∅ ∅ None [] "" "")).
Definition exDone (path : string) : Event :=
  exEv EventNodeCompleted path
    (NodeCompletedData_json (MkNodeCompletedData OutcomeOK (Some 0%Z) "r1" "" ∅ (Some zeroMetrics) "" "" "" "" "" "")).
Definition exItem (n : Z) : Event := exEv EventMapItem "map[0]" (MapItemData_json (MkMapItemData n ItemPassed "" "" "" "")).
Definition exLog : list Event :=
  [exStart; exDone "a"; exEv EventNodeFailed "b" (NodeFailedData_json (MkNodeFailedData "permanent_failure" "x"));
   exItem 1; exItem 0; exItem 1; exDone "b";
   exEv EventNodeInvalidated "" (NodeInvalidatedData_json (MkNodeInvalidatedData ["a"]))].
Definition exState : RunState :=
  match Fold exGet exLog with Ok rs => rs | Err _ => zeroRunState end.
Definition exResult : NodeResult :=
  MkNodeResult OutcomeOK (Some 0%Z) (Some [("ok", VBool true)]) "r1" "" "" ∅ zeroTurn "" "".

Example exFold : Fold exGet exLog = Ok exState ∧ rsCompleted exState !! "a" = None ∧
  rsCompleted exState !! "b" = Some exResult.
Proof. vm_compute. done. Qed.

(** ** Properties *)

(** C2: a node is committed exactly when the log holds a node.completed event for its path with no
    later node.completed or node.invalidated event for that path, and then the state holds what that
    event records. *)
Theorem Fold_committed `{TimeCodec} get es rs p nr :
  es ≠ [] → Fold get es = Ok rs →
  (LookupCompleted rs p = Some nr ↔
   ∃ i e d, es !! i = Some e ∧ EvType e = EventNodeCompleted ∧ Path e = p ∧ nodeResult get e = Ok (d, nr) ∧
            ∀ j e', (i < j)%nat → es !! j = Some e' → ¬ touches p e').
Proof. intros Hne HF. by apply (Fold_lastCommit get es rs). Qed.

Lemma Fold_committed_witness :
  LookupCompleted exState "b" = Some exResult ↔
  ∃ i e d, exLog !! i = Some e ∧ EvType e = EventNodeCompleted ∧ Path e = "b" ∧ nodeResult exGet e = Ok (d, exResult) ∧
           ∀ j e', (i < j)%nat → exLog !! j = Some e' → ¬ touches "b" e'.
Proof. apply Fold_committed; [done|]. vm_compute. reflexivity. Defined.


(** only ok steps commit, and a commit never points at a missing artifact.  In a log that folds,
    every node.completed event has outcome ok, and each of its non-empty references is readable in the
    store, the outputs and the transcript as the JSON they must be. *)
Theorem Fold_refs_resolve `{TimeCodec} get es rs e :
  Fold get es = Ok rs → e ∈ es → EvType e = EventNodeCompleted →
  ∃ d nr, nodeResult get e = Ok (d, nr) ∧ ncOutcome d = OutcomeOK ∧
    (ncOutputsRef d ≠ "" → ∃ raw, get (ncOutputsRef d) = Ok raw ∧ unmarshalMap raw = Some (nrOutputs nr)) ∧
    (ncStdoutRef d ≠ "" → get (ncStdoutRef d) = Ok (nrStdout nr)) ∧
    (ncTranscriptRef d ≠ "" → ∃ raw j, get (ncTranscriptRef d) = Ok raw ∧ json_parse raw = Some j ∧
                                     decode_struct ThreadTurn_of j = Some (nrTranscript nr)).
Proof.
  intros HF He Ht.
  assert (Hc : ∀ e, e ∈ es → EvType e = EventNodeCompleted → ∃ d nr, nodeResult get e = Ok (d, nr)).
  { assert (es ≠ []) as Hne by (intros ->; by apply not_elem_of_nil in He). clear e He Ht.
    revert es rs Hne HF.
    apply (Fold_ind get (λ es _, ∀ e, e ∈ es → EvType e = EventNodeCompleted → ∃ d nr, nodeResult get e = Ok (d, nr))).
    - intros e rs Hs _ e' ->%list_elem_of_singleton Ht. by rewrite Hs in Ht.
    - intros es e rs rs' _ IH _ Ha e' [He'| ->%list_elem_of_singleton]%elem_of_app Ht; [by apply IH|].
      apply foldArm_completed in Ha as [(_ & d & nr & Hn & _)|[(Ht' & _)|(Ht' & _)]]; [by eauto| |done].
      by rewrite Ht in Ht'. }
  destruct (Hc e He Ht) as (d & nr & Hn). exists d, nr. split; [done|].
  by apply nodeResult_refs in Hn as (_ & Hrest).
Qed.

Lemma Fold_refs_resolve_witness :
  ∃ d nr, nodeResult exGet (exDone "a") = Ok (d, nr) ∧ ncOutcome d = OutcomeOK ∧
    (ncOutputsRef d ≠ "" → ∃ raw, exGet (ncOutputsRef d) = Ok raw ∧ unmarshalMap raw = Some (nrOutputs nr)) ∧
    (ncStdoutRef d ≠ "" → exGet (ncStdoutRef d) = Ok (nrStdout nr)) ∧
    (ncTranscriptRef d ≠ "" → ∃ raw j, exGet (ncTranscriptRef d) = Ok raw ∧ json_parse raw = Some j ∧
                                     decode_struct ThreadTurn_of j = Some (nrTranscript nr)).
Proof.
  apply (Fold_refs_resolve exGet exLog exState); [vm_compute; reflexivity| |reflexivity].
  apply list_elem_of_further, list_elem_of_here.
Defined.


(** A log can be cut anywhere.  When a log folds, so does every non-empty prefix of it, and
    folding the rest from the prefix's state gives the state of the whole log. *)
Theorem Fold_prefix `{TimeCodec} get es rs n :
  Fold get es = Ok rs → (0 < n)%nat →
  ∃ rsn, Fold get (take n es) = Ok rsn ∧
         (es ≠ [] → foldEvents get true rsn (drop n es) = Ok rs).
Proof.
  intros HF Hn. destruct es as [|e es]; [by exists zeroRunState; destruct n|].
  rewrite <- (take_drop n (e :: es)), Fold_app in HF by (destruct n; [lia|done]).
  apply res_bind_ok in HF as (rsn & H1 & H2). by exists rsn.
Qed.

Lemma Fold_prefix_witness :
  ∃ rsn, Fold exGet (take 2 exLog) = Ok rsn ∧
         (exLog ≠ [] → foldEvents exGet true rsn (drop 2 exLog) = Ok exState).
Proof. apply Fold_prefix; [vm_compute; reflexivity|lia]. Defined.


(** the identity of a run is that of its first event.  In a log that folds, the first event is the
    only run.started, and the run id, digests, input files and assets of the state are its payload's. *)
Theorem Fold_identity `{TimeCodec} get es rs :
  es ≠ [] → Fold get es = Ok rs →
  ∃ e0 tail d, es = e0 :: tail ∧ EvType e0 = EventRunStarted ∧
    Forall (λ e, EvType e ≠ EventRunStarted) tail ∧
    parseData RunStartedData_of e0 = Ok d ∧
    rsRunID rs = rsdRunID d ∧ rsWorkflowDigest rs = rsdWorkflowDigest d ∧
    rsStructuralDigest rs = rsdStructuralDigest d ∧ rsAssets rs = rsdAssets d ∧ rsInputFiles rs = rsdInputFiles d.
Proof.
  revert es rs. apply (Fold_ind get (λ es rs, ∃ e0 tail d, es = e0 :: tail ∧ EvType e0 = EventRunStarted ∧
    Forall (λ e, EvType e ≠ EventRunStarted) tail ∧ parseData RunStartedData_of e0 = Ok d ∧
    rsRunID rs = rsdRunID d ∧ rsWorkflowDigest rs = rsdWorkflowDigest d ∧
    rsStructuralDigest rs = rsdStructuralDigest d ∧ rsAssets rs = rsdAssets d ∧ rsInputFiles rs = rsdInputFiles d)).
  - intros e rs Ht Hs. unfold foldRunStarted in Hs. arm_inv Hs. by exists e, [], a.
  - intros es e rs rs' _ (e0 & tail & d & -> & Ht & Hf & Hd & H1 & H2 & H3 & H4 & H5) Hne Ha.
    apply foldArm_identity in Ha. injection Ha as E1 E2 E3 _ E5 E6. exists e0, (tail ++ [e]), d.
    split; [done|]. split; [done|]. split; [apply Forall_app; split; [done|by apply Forall_singleton]|].
    split; [done|]. repeat split; congruence.
Qed.

Lemma Fold_identity_witness :
  ∃ e0 tail d, exLog = e0 :: tail ∧ EvType e0 = EventRunStarted ∧
    Forall (λ e, EvType e ≠ EventRunStarted) tail ∧
    parseData RunStartedData_of e0 = Ok d ∧
    rsRunID exState = rsdRunID d ∧ rsWorkflowDigest exState = rsdWorkflowDigest d ∧
    rsStructuralDigest exState = rsdStructuralDigest d ∧ rsAssets exState = rsdAssets d ∧
    rsInputFiles exState = rsdInputFiles d.
Proof. apply (Fold_identity exGet); [done|]. vm_compute. reflexivity. Defined.


(** events the fold does not read (retries, failures, skips, agent telemetry, node starts, pauses,
    the end of a run, unknown types) change nothing: dropping them gives the same result, errors
    included. *)
Theorem Fold_observational `{TimeCodec} get e es :
  Fold get (e :: List.filter folded es) = Fold get (e :: es).
Proof.
  unfold Fold. destruct (String.eqb (EvType e) EventRunStarted) eqn:E; [|done]. cbn [negb foldEvents].
  rewrite E. destruct (foldRunStarted get e zeroRunState) as [rs|]; [|done]. cbn [res_bind]. apply foldEvents_filter.
Qed.

(** in a log without map frontiers, the folded state has at most one record per item number of
    every map, however often an item was re-run. *)
Theorem Fold_map_items `{TimeCodec} get es rs path :
  es ≠ [] → Forall (λ e, EvType e ≠ EventMapFrontier) es → Fold get es = Ok rs →
  NoDup (mrN <$> LookupMapItems rs path).
Proof.
  intros Hne Hf HF. revert es rs Hne HF Hf path.
  apply (Fold_ind get (λ es rs, Forall (λ e, EvType e ≠ EventMapFrontier) es → ∀ path, NoDup (mrN <$> LookupMapItems rs path))).
  - intros e rs _ Hs _ path. unfold foldRunStarted in Hs. arm_inv Hs. unfold LookupMapItems, at_path. cbn.
    rewrite lookup_empty. constructor.
  - intros es e rs rs' _ IH _ Ha [Hf Hfe]%Forall_app path. rewrite Forall_singleton in Hfe.
    specialize (IH Hf). destruct (foldArm_mapitems get e rs rs' Ha Hfe) as [[mr ->]|[[ps ->]|Hsame]].
    + unfold LookupMapItems, RecordMapItem. cbn [rsMapItems setMapItems]. rewrite at_path_insert.
      destruct (String.eqb_spec (Path e) path) as [->|]; [|apply IH]. apply upsert_NoDup, IH.
    + unfold LookupMapItems, at_path. rewrite (clear_lookup _ _ (λ _ _, eq_refl)).
      destruct (bool_decide _); [constructor|]. apply IH.
    + unfold LookupMapItems. rewrite Hsame. apply IH.
Qed.

Lemma Fold_map_items_witness :
  NoDup (mrN <$> LookupMapItems exState "map[0]") ∧ mrN <$> LookupMapItems exState "map[0]" = [1; 0]%Z.
Proof.
  split; [|vm_compute; reflexivity].
  apply (Fold_map_items exGet exLog); [done| |vm_compute; reflexivity].
  repeat (apply Forall_cons_2; [discriminate|]). apply Forall_nil_2.
Defined.

