(* ===== verification/Journal.v ===== *)
(** * state.Log and state.Blobs as the engine sees them

    The two interfaces of state/log.go and state/blobs.go as type classes: their operations, and the
    laws the engine relies on.  [InMemoryLog] and [InMemoryBlobs] (state/fake.go) are instances here;
    the laws of the file log hold as long as no write was cut short (StateLog).  [engine] is the state
    and error monad in which the engine's handlers run. *)

From S2P Require Import Prelude GoJson Sha256 StateBlobs StateLog.

(** ** The log *)

Class Log `{TimeCodec} (L : Type) : Type := {
  logAppend : Event → L → option logErr * L;
  logSync : L → option logErr * L;
  logEvents : L → list Event;      (* what Fold returns *)
  logOK : L → Prop                 (* the log accepts appends *)
}.

(** An event as the log numbers it. *)
Definition same_event `{TimeCodec} (e e' : Event) : Prop :=
  Path e' = Path e ∧ EvType e' = EvType e ∧ PayloadRef e' = PayloadRef e ∧ Data e' = Data e.

Class LogLaws `{Log L} : Prop := {
  append_ok e l l' : logOK l → logAppend e l = (None, l') →
    logOK l' ∧ ∃ e', same_event e e' ∧ logEvents l' = logEvents l ++ [e'];
  append_err e l x l' : logOK l → logAppend e l = (Some x, l') → logEvents l' = logEvents l;
  sync_ok l r l' : logSync l = (r, l') → logEvents l' = logEvents l ∧ (r = None → logOK l → logOK l')
}.

(** A log that stays usable when a call on it fails: no write is cut short. *)
Class LogRobust `{Log L} : Prop := {
  append_keeps e l r l' : logOK l → logAppend e l = (r, l') → logOK l';
  sync_keeps l r l' : logOK l → logSync l = (r, l') → logOK l'
}.

(** ** The blob store *)

Class Blobs (B : Type) : Type := {
  blobsPut : string → B → res blobErr string * B;
  blobsGet : B → string → res blobErr string
}.

(** No other content has the address of [c]. *)
Definition no_collision `{Blobs B} (b : B) (c : string) : Prop :=
  ∀ x, blobsGet b (RefFor c) = Ok x → x = c.

Class BlobsLaws `{Blobs B} : Prop := {
  put_ref c b ref b' : blobsPut c b = (Ok ref, b') → ref = RefFor c;
  put_get c b ref b' : no_collision b c → blobsPut c b = (Ok ref, b') → blobsGet b' ref = Ok c;
  put_frame c b r b' x : blobsPut c b = (r, b') → x ≠ RefFor c → blobsGet b' x = blobsGet b x;
  put_keeps c b r b' x y : blobsPut c b = (r, b') → blobsGet b x = Ok y → blobsGet b' x = Ok y;
  put_fail c b x b' : blobsPut c b = (Err x, b') → ∀ r, blobsGet b' r = blobsGet b r
}.

(** ** The fakes *)

Section mem_log.
Context `{TimeCodec}.
(** What the clock reads. *)
Variable now : time.

#[global] Instance InMemoryLog_log : Log InMemoryLog := {
  logAppend e l := let '(ok, l') := memAppend e now l in (if ok then None else Some LeWrite, l');
  logSync l := (None, l);
  logEvents := memFold;
  logOK _ := True
}.

#[global] Instance InMemoryLog_laws : @LogLaws _ _ InMemoryLog_log.
Proof.
  split; cbn [logAppend logSync logEvents logOK InMemoryLog_log].
  - intros e l l' _. unfold memAppend. case_bool_decide; [done|]. intros [= <-]. split; [done|].
    eexists. split; [|reflexivity]. done.
  - intros e l x l' _. unfold memAppend. case_bool_decide; [|done]. by intros [= _ <-].
  - by intros l r l' [= <- <-].
Qed.

#[global] Instance InMemoryLog_robust : @LogRobust _ _ InMemoryLog_log.
Proof. by split. Qed.
End mem_log.

#[global] Instance InMemoryBlobs_blobs : Blobs InMemoryBlobs := {
  blobsPut := memPut;
  blobsGet b ref := memGet ref b
}.

Lemma memPut_lookup c b r b' :
  memPut c b = (r, b') →
  store b' = store b ∧ (is_ok r = false ∨ is_Some (store b !! EncodeToString (Sum256 c))) ∨
  store b !! EncodeToString (Sum256 c) = None ∧ store b' = <[EncodeToString (Sum256 c) := c]> (store b).
Proof.
  unfold memPut. change (hashAndRef c) with (EncodeToString (Sum256 c), RefFor c).
  case_bool_decide; [intros [= <- <-]; left; split; [done|by left]|].
  destruct (store b !! EncodeToString (Sum256 c)) eqn:E; intros Hr; injection Hr as <- <-; cbn [store].
  - left. split; [done|]. right. by eexists.
  - by right.
Qed.

#[global] Instance InMemoryBlobs_laws : BlobsLaws (B:=InMemoryBlobs).
Proof.
  assert (Href : ∀ c b ref b', memPut c b = (Ok ref, b') → ref = RefFor c).
  { intros c b ref b'. unfold memPut. case_bool_decide; [done|]. by intros [= <- _]. }
  split; cbn [blobsPut blobsGet InMemoryBlobs_blobs]; [done|..].
  - intros c b ref b' Hn Hp. pose proof (Href _ _ _ _ Hp) as ->. unfold no_collision in Hn. cbn [blobsGet InMemoryBlobs_blobs] in Hn.
    unfold memGet in *. rewrite parseRef_RefFor in *. cbn [res_bind] in *.
    apply memPut_lookup in Hp as [[-> [Hf|[x Hx]]]|[_ ->]]; [done| |by rewrite lookup_insert_eq].
    rewrite Hx in *. by rewrite (Hn x).
  - intros c b r b' x Hp Hx. unfold memGet. destruct (parseRef x) as [h|] eqn:Eh; [|done]. cbn [res_bind].
    apply memPut_lookup in Hp as [[-> _]|[_ ->]]; [done|]. rewrite lookup_insert_ne; [done|].
    intros <-. apply Hx. by apply parseRef_ok in Eh as [-> _].
  - intros c b r b' x y Hp. unfold memGet. destruct (parseRef x) as [h|]; [|done]. cbn [res_bind].
    apply memPut_lookup in Hp as [[-> _]|[Hn ->]]; [done|].
    destruct (decide (EncodeToString (Sum256 c) = h)) as [<-|]; [by rewrite Hn|by rewrite lookup_insert_ne].
  - intros c b x b' Hp r. unfold memPut in Hp. case_bool_decide; [|done]. by injection Hp as _ <-.
Qed.
