(* ===== verification/IrShape.v ===== *)
(** * ir/validate_refs.go: where a producer can be seen from

    Predicates on static addresses: the single-map shape, and the scopes between a producer and a
    reference.  The validator and the engine's scope share them. *)

From S2P Require Import Prelude GoNum GoStruct EnginePath GoPath Ir.

(** ** The single-map shape *)

(** Walks the segments from position [i]: where the map segment is, or [None] on a gate, a loop or a
    second map. *)
Fixpoint mapPosition (segs : list string) (i : nat) (found : option nat) : option nat :=
  match segs with
  | [] => found
  | seg :: segs =>
      if HasPrefix seg "map[" then
        match found with None => mapPosition segs (S i) (Some i) | Some _ => None end
      else if HasPrefix seg "gate[" || HasPrefix seg "loop[" then None
      else mapPosition segs (S i) found
  end.

Definition SingleMapBodyShape (staticPath : string) : option (string * string) :=
  let segs := SplitDot staticPath in
  match mapPosition segs 0 None with
  | Some i => if String.eqb (nth (S i) segs "") "body"
              then Some (JoinDot (take (S i) segs), JoinDot (drop (S (S i)) segs)) else None
  | None => None
  end.

Definition MapProductShape (mapPath : string) : bool :=
  match SingleMapBodyShape (mapPath +:+ ".body.__product__") with Some _ => true | None => false end.

(** [mapsByPath]. *)
Definition mapsByPath (nodes : NodeList) : gmap string MapHead :=
  foldl (λ m (np : Node * string), match np.1 with NMap h _ => <[np.2 := h]> m | _ => m end) ∅ (WalkNodes nodes "").

(** ** Opaque scopes *)

Definition pathWithinScope (refSite scopePrefix : string) : bool :=
  String.eqb refSite scopePrefix || HasPrefix refSite (scopePrefix +:+ ".").

Definition isGateScope (scope : string) : bool :=
  match last (SplitDot scope) with Some seg => HasPrefix seg "gate[" | None => false end.

(** Segment [i] ends an opaque scope: the body of a map, or a gate. *)
Definition opaqueAt (segs : list string) (i : nat) : bool :=
  (String.eqb (nth i segs "") "body" && (1 <=? i)%nat && HasPrefix (nth (i - 1) segs "") "map[")
  || HasPrefix (nth i segs "") "gate[".
(** From segment [n - 1] down to the first one. *)
Fixpoint opaqueFrom (segs : list string) (n : nat) : option string :=
  match n with
  | O => None
  | S i => if opaqueAt segs i then Some (JoinDot (take (S i) segs)) else opaqueFrom segs i
  end.
Definition opaqueScopePrefix (staticPath : string) : option string :=
  let segs := SplitDot staticPath in opaqueFrom segs (length segs).

(** [strings.LastIndexByte(s, '.')]: what is before it. *)
Fixpoint beforeLastDot (s : string) : option string :=
  match s with
  | "" => None
  | String c r => match beforeLastDot r with
                  | Some a => Some (String c a)
                  | None => if Ascii.eqb c "." then Some "" else None
                  end
  end.

(** The scope that blocks, and whether a gate was peeled before it.  Each round drops a segment, so the
    fuel is the number of segments. *)
Fixpoint blockingFrom (fuel : nat) (producerPath refSite rest : string) (peeled : bool) : option (string * bool) :=
  match fuel with
  | O => None
  | S fuel =>
      match opaqueScopePrefix rest with
      | None => None
      | Some sc =>
          if pathWithinScope refSite sc then None
          else if negb (isGateScope sc) then Some (sc, peeled)
          else if negb (HasPrefix (TrimPrefix producerPath (sc +:+ ".")) "generate.") then Some (sc, peeled)
          else match beforeLastDot sc with
               | None => None
               | Some rest => blockingFrom fuel producerPath refSite rest true
               end
      end
  end.
Definition blockingScope (producerPath refSite : string) : option (string * bool) :=
  blockingFrom (S (length (SplitDot producerPath))) producerPath refSite producerPath false.

Example blocked_map : blockingScope "map[0].body.gate[0].generate.x" "out.run" = Some ("map[0].body", true).
Proof. reflexivity. Qed.
Example peeled_gate : blockingScope "if[2].then.gate[0].generate.x" "out.run" = None.
Proof. reflexivity. Qed.
