(* ===== verification/IrDiag.v ===== *)
(** * ir/diagnostic.go: the findings of the validator

    A message is kept as its format and arguments ([EvalMsg]); the text that orders the findings is a
    function of the model's caller.  The passes of the validator return the findings they append, in
    order; [Validate] sets the source. *)

From S2P Require Import Prelude GoNum GoJson GoStruct EnginePath GoPath TmplLexer TmplEval.

(** ** Severity and Diagnostic *)

Inductive Severity : Type := SevError | SevWarning.
#[global] Instance Severity_eq : EqDecision Severity.
Proof. solve_decision. Defined.

Definition Severity_String (s : Severity) : string := match s with SevError => "error" | SevWarning => "warning" end.
(** [UnmarshalJSON] of the text of a JSON value. *)
Definition Severity_of (b : string) : option Severity :=
  if String.eqb b (dq +:+ "error" +:+ dq) then Some SevError
  else if String.eqb b (dq +:+ "warning" +:+ dq) then Some SevWarning else None.

Record Diagnostic : Type := MkDiagnostic {
  dgSeverity : Severity; dgSource : string; dgPath : string; dgCode : string; dgMessage : EvalMsg }.

(** [errf] and [warnf]. *)
Definition errf (path code : string) (msg : EvalMsg) : list Diagnostic := [MkDiagnostic SevError "" path code msg].
Definition warnf (path code : string) (msg : EvalMsg) : list Diagnostic := [MkDiagnostic SevWarning "" path code msg].
Definition withSource (source : string) (d : Diagnostic) : Diagnostic :=
  MkDiagnostic (dgSeverity d) source (dgPath d) (dgCode d) (dgMessage d).

Definition HasErrors (ds : list Diagnostic) : bool :=
  existsb (λ d, match dgSeverity d with SevError => true | SevWarning => false end) ds.

(** ** The order of the findings *)

Section order.
Variable text : EvalMsg → string.

Definition String_ (d : Diagnostic) : string :=
  let sev := Severity_String (dgSeverity d) in let m := text (dgMessage d) in
  if negb (String.eqb (dgSource d) "") && negb (String.eqb (dgPath d) "")
  then sev +:+ " " +:+ dgCode d +:+ " at " +:+ dgSource d +:+ ":" +:+ dgPath d +:+ ": " +:+ m
  else if negb (String.eqb (dgSource d) "") then sev +:+ " " +:+ dgCode d +:+ " at " +:+ dgSource d +:+ ": " +:+ m
  else if String.eqb (dgPath d) "" then sev +:+ " " +:+ dgCode d +:+ ": " +:+ m
  else sev +:+ " " +:+ dgCode d +:+ " at " +:+ dgPath d +:+ ": " +:+ m.

Definition less (a b : Diagnostic) : bool :=
  if negb (String.eqb (dgCode a) (dgCode b)) then String.ltb (dgCode a) (dgCode b)
  else if negb (String.eqb (dgSource a) (dgSource b)) then String.ltb (dgSource a) (dgSource b)
  else if negb (String.eqb (dgPath a) (dgPath b)) then String.ltb (dgPath a) (dgPath b)
  else String.ltb (text (dgMessage a)) (text (dgMessage b)).

(** One round of the insertion sort: the sorted part is given from its end. *)
Fixpoint siftDown (d : Diagnostic) (sorted : list Diagnostic) : list Diagnostic :=
  match sorted with
  | [] => [d]
  | e :: sorted => if less d e then e :: siftDown d sorted else d :: e :: sorted
  end.
Definition sortDiagnostics (ds : list Diagnostic) : list Diagnostic := rev (foldl (λ s d, siftDown d s) [] ds).
End order.

(** ** The catalog *)

Definition catalogEntries : list (string * string) := [
  ("AWF1003", "nil or empty LoadedDefinition");
  ("AWF1004", "step id is not unique");
  ("AWF1005", "container declares both image and compose (pick one)");
  ("AWF1006", "container declares neither image nor compose");
  ("AWF1007", "image must be content-addressed (tag forbidden, use @sha256:...)");
  ("AWF1008", "compose-backed container missing required `service` field");
  ("AWF1009", "container reference is missing or does not resolve to a declared container");
  ("AWF1010", "parallel branches use overlapping containers (§5.4 forbids)");
  ("AWF1011", "loop declares neither until nor max_iters");
  ("AWF1012", "map missing a required field");
  ("AWF1013", "gate.generate must be non-empty");
  ("AWF1014", "gate.evaluate final node must declare output_schema");
  ("AWF1015", "gate missing until");
  ("AWF1016", "expression or template exceeds size limit");
  ("AWF1017", "workflow `version` is not the supported value (only 1 is defined by AWF §2)");
  ("AWF1019", "container or service reference uses template syntax (`{{ }}`); these fields must be static names");
  ("AWF1020", "step id has invalid characters or collides with a reserved addressing token");
  ("AWF1021", "container snapshot value is not supported (only " +:+ dq +:+ "workspace" +:+ dq +:+ " or empty)");
  ("AWF1022", "snapshot: workspace is only supported on image-mode containers, not compose");
  ("AWF1023", "snapshot: workspace inside a map body is not yet supported (per-item snapshots land with the map slice); remove snapshot from this container or move it out of the map");
  ("AWF1024", "env entry is not a valid environment-variable name");
  ("AWF1025", "container is a map `image:` target and also declares a static image/compose; the static pin is silently overwritten per-element at dispatch — remove the static image/compose, or do not target it with a map `image:`");
  ("AWF1026", "continues target is not an agent step (must be the id of another agent step, not code/signal/control)");
  ("AWF1027", "continues target does not dominate this turn (must precede it in document order and every gate/map/loop/if-branch scope enclosing the target must also enclose this turn — forward/self refs, sibling branches, and gate/map/loop-internal targets are rejected)");
  ("AWF1028", "continues links form a cycle");
  ("AWF1029", "continues target must use the same agent runtime (uses) as this step");
  ("AWF1030", "evaluator `continues:` may only target non-evaluator source context; evaluator transcript turns cannot be continued or included");
  ("AWF1031", "continues target is unaddressable: it lies inside nested loops (a target's path may cross at most one loop)");
  ("AWF1032", "continues target is a concurrent parallel sibling (not guaranteed to have run before this turn); continue a step outside the parallel instead");
  ("AWF1033", "agents: role definition is invalid (missing uses:, or the role name collides with the <vendor>/<name> adapter-ref form)");
  ("AWF1034", "uses references a name that is neither a declared agents: role nor a valid <vendor>/<name> adapter ref");
  ("AWF1040", "skills: corpus declaration is invalid");
  ("AWF1041", "skills: corpus references an unknown or non-directory asset");
  ("AWF1042", "skills: corpus uses an unsupported layout or router");
  ("AWF1043", "agent step skills: block is invalid");
  ("AWF1044", "agent step skills.from references an unknown corpus");
  ("AWF1045", "agent step skills: requires a container and non-overlapping staging destination");
  ("AWF2001", "JSON Schema does not compile per the JSON Schema 2020-12 metaschema");
  ("AWF2002", "agent output_schema violates §7 conservative cross-backend floor");
  ("AWF2003", "containerless agent input_files per-file format/provider compatibility is checked at run time, not statically");
  ("AWF3001", "reference to a step field that is not declared in the producer's output_schema");
  ("AWF3002", "agent output_schema declared but no reference into it");
  ("AWF3003", "compose file contains a non-digest image (§3: every image in a referenced compose file must be @sha256:-pinned)");
  ("AWF3004", "compose file failed to parse");
  ("AWF3005", "compose file uses `extends:` or `include:` directives; the validator refuses these (they would follow arbitrary disk paths and bypass loader confinement)");
  ("AWF3006", "code step declares output_schema but its run script never writes $AWF_OUTPUT");
  ("AWF3007", "input_files reference is not a prior in-scope step output_files artifact or declared workflow asset");
  ("AWF3008", "runtime compose service does not exist in the generated compose project");
  ("AWF3009", "output_files contract metadata is invalid");
  ("AWF3010", "loaded skill corpus has invalid skill directory layout");
  ("AWF3011", "loaded skill corpus contains an unsafe skill id or unsafe skill file path");
  ("AWF3012", "top-level output binds a step inside a conditional scope; if that branch is not taken the output key is omitted (and validation fails if output_schema marks the field required)");
  ("AWF3013", "string-typed reference substituted unquoted into a run:/idempotency_key shell host; an attacker-controlled value can inject shell commands (CWE-78) — wrap the slot in double quotes");
  ("AWF3014", "output_artifact requires output_schema, is mutually exclusive with output_files, and its name must be a valid identifier (valid on any output_schema agent step, container-backed or containerless)");
  ("AWF3015", "run:/reduce.run hardcodes the docker-only staging path /work/.awf; use $AWF_STAGING_ROOT (native's staging root is workdir-relative)");
  ("AWF5001", "reference to `evaluate.<field>` outside a gate's generate or until");
  ("AWF5002", "map output aggregation across nested or loop-multiplied maps is not yet defined");
  ("AWF5003", "gate-internal step is not referenceable from this scope — only a passed gate's generate: producers forward (to the accepted attempt); the evaluator's verdict stays gate-internal, and a gate inside a map body binds only through reduce:");
  ("AWF5004", "map output aggregation reference is only usable as another map's `over:` (an aggregate is an array; templating renders scalars only)");
  ("AWF5005", "exit_code/stdout are not defined on map aggregates (a map-internal step aggregates to []outputs or []field only)");
  ("AWF1035", "reduce: must declare exactly one of run: or quorum: (quorum requires field:; a run: reducer requires container:)");
  ("AWF1036", "where: use the `{{ signal.field == ... }}` envelope form (bare-identifier where: was removed)");
  ("AWF1037", "prune must declare a `score` field name and exactly one of `keep`/`stop_when` (`keep` must be a positive integer, `stop_when` must be a non-empty bounded boolean expression)");
  ("AWF1038", "compose block is invalid (requires static as/from/service/body, non-empty body, and a scoped handle that does not collide)");
  ("AWF1039", "runtime map image target container may only be referenced by its owning map and that map's body");
  ("AWF1046", "unknown or invalid call target");
  ("AWF1047", "call input contract invalid");
  ("AWF1048", "workflow outputs/export contract invalid");
  ("AWF1049", "workflow artifact export invalid");
  ("AWF1050", "workflow input_files contract invalid");
  ("AWF1051", "call input_files binding invalid");
  ("AWF1052", "react: tools list is empty (at least one tool name is required)");
  ("AWF1053", "react: tool name is not declared in the top-level tools: map");
  ("AWF1054", "react: max_turns must be a positive integer (0 means use the default of 8; negative values are rejected)");
  ("AWF1055", "react: output_schema may not declare a property named stop_reason (engine-reserved field)");
  ("AWF1056", "tool impl must name a containers:-declared container (container field is missing or undeclared)");
  ("AWF1057", "react: requires uses: awf/llm (the only Containerless+Threaded adapter; CLI adapters cannot drive a tool loop)");
  ("AWF1058", "react: structured_output: ollama_format is incompatible with the OpenAI tool-call protocol");
  ("AWF1059", "container name uses an unsupported charset (must be a path-safe identifier)");
  ("AWF1060", "cmd:/keepalive: is image-mode only; it has no meaning on a compose: container (a service's command lives in the Compose file)");
  ("AWF1061", "a reserved step-level key is nested inside with: (it will be ignored by the engine); move it to the step level (sibling of with:)");
  ("AWF1062", "unknown key (not part of the workflow or step schema; typo'd keys silently do nothing — remove or correct it)");
  ("AWF1063", "duration must be a quoted string (e.g. " +:+ dq +:+ "300s" +:+ dq +:+ ", " +:+ dq +:+ "5m" +:+ dq +:+ "); a bare integer is not accepted (it would be read as nanoseconds)");
  ("AWF1064", "retry.recovery must be one of " +:+ dq +:+ "continue" +:+ dq +:+ ", " +:+ dq +:+ "restart" +:+ dq +:+ ", or unset; an unrecognized value would silently fall back to the per-adapter default");
  ("AWF1065", "a container-less `run:` step requires native execution; it is incompatible with `--backend docker` — declare a `container:` or run native");
  ("AWF1066", "wire key renamed; see the diagnostic message for the old and new spelling");
  ("AWF1067", "role config may reference {{ input.* }} only in model, system_prompt, and top-level string with: values; templates in nested positions or map keys are never substituted");
  ("AWF1068", "quorum field: may not be a reserved verdict key (votes, agree, votes_detail) — the reduced output already carries those keys; rename the counted field");
  ("AWF1069", "jury: requires output_schema on the step");
  ("AWF1070", "jury: over items must declare the same set of keys (each juror overrides the same with: fields)");
  ("AWF1071", "jury: field: is required — output_schema has no single boolean field to default to");
  ("AWF1072", "jury: must be the last node of a gate's evaluate: (the panel verdict is the gate verdict)");
  ("AWF_IMPORT_CYCLE", "workflow import graph contains a cycle");
  ("AWF_IMPORT_DECODE", "workflow failed to decode");
  ("AWF_IMPORT_DEPTH", "workflow import graph exceeds maximum depth");
  ("AWF_IMPORT_ID_INVALID", "workflow import id is invalid");
  ("AWF_IMPORT_PATH_ABSOLUTE", "workflow import path must be relative");
  ("AWF_IMPORT_PATH_BACKSLASH", "workflow import path uses backslash separators");
  ("AWF_IMPORT_PATH_ESCAPE", "workflow import path escapes the workflow directory");
  ("AWF_IMPORT_PATH_INVALID", "workflow import path is invalid");
  ("AWF_IMPORT_READ", "workflow import failed to read");
  ("AWF_IMPORT_SYMLINK", "workflow import path resolves through a symlink");
  ("AWF5006", "reduce quorum/over names a body output field that no branch declares, or min_success and reduce:{quorum} are both declared on the same node");
  ("AWF5007", "reduce: a fan-in producer is nested under a loop or more than one gate; reduce collects only a single gate's accepted attempt, so this output would be silently dropped — flatten the body or remove the reduce:");
  ("AWF5008", "prune.score must name a numeric field declared in the output_schema of the map body's last step");
  ("AWF5009", "map id without reduce requires a final body code/agent/signal step with output_schema");
  ("AWF5010", "map aggregate product may only be referenced outside its producing map");
  ("AWF5011", "map aggregate product id is only supported for a single non-gate non-loop map")
].
Definition catalog (code : string) : string :=
  default "" (snd <$> List.find (λ kv : string * string, String.eqb kv.1 code) catalogEntries).
Definition CatalogText (code : string) : string := catalog code.
(** The catalog's text alone, and followed by more. *)
Definition cat (code : string) : EvalMsg := EmText (catalog code).
Definition catf (fmt code : string) (args : list string) : EvalMsg := EmFmt fmt (catalog code :: args).

(** ** Passes

    A pass appends findings and may thread a state: the ids seen so far, the producers referenced so
    far. *)

Definition pass (S : Type) : Type := S → list Diagnostic * S.
Definition emit {S} (ds : list Diagnostic) : pass S := λ s, (ds, s).
Definition andThen {S} (a b : pass S) : pass S :=
  λ s, let '(d1, s) := a s in let '(d2, s) := b s in (d1 ++ d2, s).
Definition when (c : bool) (ds : list Diagnostic) : list Diagnostic := if c then ds else [].
Fixpoint passAll {S A} (f : A → pass S) (l : list A) : pass S :=
  match l with [] => emit [] | a :: l => andThen (f a) (passAll f l) end.

Declare Scope pass_scope.
Delimit Scope pass_scope with pass.
Notation "a ;;; b" := (andThen a b) (at level 100, right associativity) : pass_scope.

(** Names: a letter or an underscore, then letters, digits, underscores and, with [hyphen], hyphens. *)
Fixpoint all_bytes (p : ascii → bool) (s : string) : bool :=
  match s with "" => true | String c s => p c && all_bytes p s end.
Definition nameStart (c : ascii) : bool :=
  let n := nat_of_ascii c in
  (((65 <=? n) && (n <=? 90)) || ((97 <=? n) && (n <=? 122)) || (n =? 95))%nat.
Definition nameByte (hyphen : bool) (c : ascii) : bool :=
  let n := nat_of_ascii c in nameStart c || ((48 <=? n) && (n <=? 57))%nat || (hyphen && (n =? 45)%nat).
Definition matchesName (hyphen : bool) (s : string) : bool :=
  match s with "" => false | String c s => nameStart c && all_bytes (nameByte hyphen) s end.

(** The [%d] and [%v] of integers and lists of them. *)
Definition fmtInts (l : list Z) : string := "[" +:+ Join " " (map Itoa l) +:+ "]".
