(* ===== verification/ValStructural.v ===== *)
(** * ir/validate_structural.go: the shape of the definition

    The AWF1xxx pass: versions, containers, names, the fields of control nodes, unique ids, container
    references.  The iteration of a Go map follows the map's own order of keys here; the validator sorts
    its findings at the end. *)

From S2P Require Import Prelude GoNum GoStruct RetryPolicy EnginePath GoPath TmplLexer TmplParser TmplSlots TmplEval Ir IrShape IrDiag.

Open Scope pass_scope.

Definition maxExpressionBytes : nat := (64 * 1024)%nat.

Definition envNamePattern : string := "^[A-Za-z_][A-Za-z0-9_]*$".
Definition containerNamePattern : string := "^[A-Za-z_][A-Za-z0-9_-]*$".
Definition stepIDPattern : string := "^[A-Za-z_][A-Za-z0-9_-]*$".

(** step/map-product id → first path where it was seen. *)
Definition Seen : Type := gmap string string.
(** The scoped handles of the enclosing compose blocks. *)
Definition Scoped : Type := gset string.
(** Container name → the maps whose [image:] names it. *)
Definition Owners : Type := gmap string (list string).

Definition containersOf (wf : Workflow) : gmap string Container := default ∅ (wfContainers wf).

(** ** Map image targets *)

Definition bareContainerName (name : string) : string :=
  match strIndex name ":" with Some i => stake i name | None => name end.

(** One node's entries, in the order of the walk. *)
Fixpoint collectMapImageTargetOwners (parent : string) (n : Node) (i : Z) : list (string * string) :=
  match n with
  | NMap h body =>
      (if negb (String.eqb (mpImage h) "") && negb (String.eqb (mpContainer h) "")
       then [(bareContainerName (mpContainer h), PathFor parent "map" "" i)] else [])
      ++ walk_nodes (collectMapImageTargetOwners (ChildPath parent "map" i "body")) body
  | NCompose _ _ _ body => walk_nodes (collectMapImageTargetOwners (ChildPath parent "compose" i "body")) body
  | NIf _ then_ else_ =>
      walk_nodes (collectMapImageTargetOwners (ChildPath parent "if" i "then")) then_
      ++ walk_nodes (collectMapImageTargetOwners (ChildPath parent "if" i "else")) else_
  | NLoop _ _ body => walk_nodes (collectMapImageTargetOwners (ChildPath parent "loop" i "body")) body
  | NTry do_ catch finally =>
      walk_nodes (collectMapImageTargetOwners (ChildPath parent "try" i "do")) do_
      ++ walk_nodes (collectMapImageTargetOwners (ChildPath parent "try" i "catch")) catch
      ++ walk_nodes (collectMapImageTargetOwners (ChildPath parent "try" i "finally")) finally
  | NParallel children => walk_nodes (collectMapImageTargetOwners (PathFor parent "parallel" "" i)) children
  | NGate generate evaluate _ _ =>
      walk_nodes (collectMapImageTargetOwners (ChildPath parent "gate" i "generate")) generate
      ++ walk_nodes (collectMapImageTargetOwners (ChildPath parent "gate" i "evaluate")) evaluate
  | _ => []
  end.
Definition MapImageTargetOwners (wf : Workflow) : Owners :=
  foldl (λ m (kp : string * string), <[kp.1 := default [] (m !! kp.1) ++ [kp.2]]> m) ∅
    (walk_nodes (collectMapImageTargetOwners "") (wfGraph wf)).
Definition MapImageTargets (wf : Workflow) : gset string := dom (MapImageTargetOwners wf).

(** ** Checks of one field *)

Definition checkFieldSize (src path : string) : list Diagnostic :=
  when (maxExpressionBytes <? slen src)%nat
    (errf path "AWF1016" (catf "%s (limit %d bytes, got %d bytes)" "AWF1016"
       [Itoa (Z.of_nat maxExpressionBytes); Itoa (Z.of_nat (slen src))])).

Definition reservedStepIDTokens : list string :=
  ["generate"; "evaluate"; "until"; "then"; "else"; "body"; "do"; "catch"; "finally"].

Definition checkAssetID (id : string) : list Diagnostic :=
  let path := "assets." +:+ id in
  when (negb (matchesName true id)) (errf path "AWF1020" (catf "%s: id=%q (must match %s)" "AWF1020" [id; stepIDPattern]))
  ++ when (mem id reservedStepIDTokens) (errf path "AWF1020" (catf "%s: id=%q collides with reserved control keyword" "AWF1020" [id])).

Definition checkAddressableID (id path kind : string) : pass Seen := λ seen,
  if String.eqb id "" then ([], seen)
  else
    let shape :=
      when (negb (matchesName true id)) (errf path "AWF1020" (catf "%s: id=%q (must match %s)" "AWF1020" [id; stepIDPattern]))
      ++ when (mem id reservedStepIDTokens) (errf path "AWF1020" (catf "%s: id=%q collides with reserved control keyword" "AWF1020" [id])) in
    match seen !! id with
    | Some prev =>
        (shape ++ errf path "AWF1004"
                    (if String.eqb kind "step" then catf "%s (first seen at %s)" "AWF1004" [prev]
                     else catf "%s (%s id %q first seen at %s)" "AWF1004" [kind; id; prev]), seen)
    | None => (shape, <[id := path]> seen)
    end.
Definition checkStepID (id path : string) : pass Seen := checkAddressableID id path "step".

Definition checkMapID (h : MapHead) (body : NodeList) (path : string) : pass Seen :=
  if String.eqb (mpID h) "" then emit []
  else checkAddressableID (mpID h) path "map aggregate" ;;;
       emit (when (negb (MapProductShape path)) (errf path "AWF5011" (cat "AWF5011"))
             ++ match mpReduce h, MapCompactProducer body with
                | None, None => errf path "AWF5009" (cat "AWF5009")
                | _, _ => []
                end).

Definition checkMapImageTargetRef (path bare : string) (owners : Owners) : list Diagnostic :=
  let l := default [] (owners !! bare) in
  if existsb (λ owner, String.eqb path owner || pathWithinScope path (owner +:+ ".body")) l then []
  else when (negb (bool_decide (l = []))) (errf path "AWF1039" (catf "%s: container %q" "AWF1039" [bare])).

Definition checkContainerRefInScope (name path : string) (wf : Workflow) (scoped : Scoped) (owners : Owners)
    (required : bool) : list Diagnostic :=
  if String.eqb name "" then when required (errf path "AWF1009" (catf "%s (container reference is empty)" "AWF1009" []))
  else if strContains name "{{" then []
  else
    let bare := bareContainerName name in
    if bool_decide (bare ∈ scoped) then []
    else match containersOf wf !! bare with
         | None => errf path "AWF1009" (catf "%s (container %q)" "AWF1009" [name])
         | Some _ => checkMapImageTargetRef path bare owners
         end.

(** [where:] must be one envelope around a bounded expression. *)
Definition checkWhereExpr (src path : string) : list Diagnostic :=
  if String.eqb src "" then []
  else
    checkFieldSize src path
    ++ (let trimmed := TrimSpace src in
        if negb (HasPrefix trimmed "{{") || negb (HasSuffix trimmed "}}") then errf path "AWF1036" (cat "AWF1036")
        else match ParseExpr (UnwrapEnvelope src) with
             | Ok _ => []
             | Err e => errf path "AWF1036" (EmWrap "%s: %s" [catalog "AWF1036"] (EmSyntax e))
             end).

(** ** Parallel branches *)

Fixpoint firstContainerRef (n : Node) : string :=
  let first (l : NodeList) := match l with Some (n :: _) => firstContainerRef n | _ => "" end in
  match n with
  | NCode s => csContainer s
  | NAgent s => asContainer s
  | NIf _ then_ _ => first then_
  | NLoop _ _ body => first body
  | NTry do_ _ _ => first do_
  | NGate generate _ _ _ => first generate
  | NMap h _ => mpContainer h
  | NParallel children => first children
  | _ => ""
  end.

(** Bare container name → the branches using it. *)
Fixpoint branchContainers (l : list Node) (i : Z) (used : gmap string (list Z)) : gmap string (list Z) :=
  match l with
  | [] => used
  | n :: l =>
      let ctr := firstContainerRef n in
      branchContainers l (i + 1)%Z
        (if String.eqb ctr "" then used
         else let bare := bareContainerName ctr in <[bare := default [] (used !! bare) ++ [i]]> used)
  end.
Definition checkParallelDistinctContainers (children : NodeList) (path : string) : list Diagnostic :=
  flat_map (λ kv : string * list Z,
              when (1 <? length kv.2)%nat
                (errf path "AWF1010" (catf "%s: container %q used by branches %v" "AWF1010" [kv.1; fmtInts kv.2])))
    (map_to_list (branchContainers (default [] children) 0 ∅)).

Definition nodeHasOutputSchema (n : Node) : bool :=
  match n with
  | NCode s => bool_decide (is_Some (csOutputSchema s))
  | NAgent s => bool_decide (is_Some (asOutputSchema s))
  | NSignal s => bool_decide (is_Some (ssOutputSchema s))
  | NMap h _ =>
      match mpReduce h with
      | Some r => IsQuorum (Some r) || bool_decide (is_Some (rdOutputSchema r))
      | None => false
      end
  | _ => false
  end.

(** ** The walk *)

(** A pass over the nodes of a list, with their indices. *)
Definition passList {S} (f : Node → Z → pass S) : list Node → Z → pass S :=
  fix go l i := match l with [] => emit [] | n :: l => f n i ;;; go l (i + 1)%Z end.
Definition passNodes {S} (f : Node → Z → pass S) (o : option (list Node)) : pass S :=
  match o with None => emit [] | Some l => passList f l 0%Z end.

Definition noNodes (l : NodeList) : bool := match l with None | Some [] => true | _ => false end.

Definition checkGate (generate evaluate : NodeList) (until path : string) : list Diagnostic :=
  when (noNodes generate) (errf path "AWF1013" (cat "AWF1013"))
  ++ (if String.eqb until "" then errf path "AWF1015" (cat "AWF1015") else checkFieldSize until path)
  ++ match last (default [] evaluate) with
     | Some final => when (negb (nodeHasOutputSchema final)) (errf path "AWF1014" (cat "AWF1014"))
     | None => []
     end.

Definition checkMapFields (h : MapHead) (path : string) (wf : Workflow) (scoped : Scoped) (owners : Owners) : list Diagnostic :=
  let missing (field : string) := errf path "AWF1012" (catf ("%s: `" +:+ field +:+ "`") "AWF1012" []) in
  when (String.eqb (mpOver h) "" && match mpOverItems h with None => true | Some _ => false end) (missing "over:")
  ++ when (String.eqb (mpAs h) "") (missing "as:")
  ++ when (String.eqb (mpContainer h) "") (missing "container:")
  ++ match mpConcurrency h with
     | Some k => when (k <=? 0)%Z (errf path "AWF1012" (EmText "map `concurrency:` must be a positive integer"))
     | None => []
     end
  ++ when (negb (String.eqb (mpOver h) "")) (checkFieldSize (mpOver h) path)
  ++ when (negb (String.eqb (mpImage h) "")) (checkFieldSize (mpImage h) path)
  ++ when (negb (String.eqb (mpContainer h) ""))
       (if strContains (mpContainer h) "{{" then errf path "AWF1019" (cat "AWF1019")
        else checkContainerRefInScope (mpContainer h) path wf scoped owners true
             ++ match containersOf wf !! bareContainerName (mpContainer h) with
                | Some ctr => when (String.eqb (coSnapshot ctr) "workspace") (errf path "AWF1023" (cat "AWF1023"))
                | None => []
                end).

Definition checkComposeAs (as_ path : string) (wf : Workflow) (scoped : Scoped) : list Diagnostic :=
  if String.eqb as_ "" then []
  else if strContains as_ "{{" then errf path "AWF1019" (cat "AWF1019")
  else if negb (matchesName true as_) then errf path "AWF1038" (catf "%s: as=%q must match %s" "AWF1038" [as_; stepIDPattern])
  else if bool_decide (is_Some (containersOf wf !! as_))
  then errf path "AWF1038" (catf "%s: as=%q collides with top-level container" "AWF1038" [as_])
  else when (bool_decide (as_ ∈ scoped)) (errf path "AWF1038" (catf "%s: as=%q collides with an outer scoped handle" "AWF1038" [as_])).
Definition nextScoped (as_ : string) (scoped : Scoped) : Scoped :=
  if String.eqb as_ "" then scoped else {[ as_ ]} ∪ scoped.

Section walk.
Variable (wf : Workflow) (owners : Owners).

Fixpoint walkStructural (scoped : Scoped) (parent : string) (n : Node) (i : Z) {struct n} : pass Seen :=
  let sub scoped parent l := passNodes (walkStructural scoped parent) l in
  match n with
  | NCode s =>
      let path := PathFor parent "" (csID s) i in
      checkStepID (csID s) path ;;;
      emit (checkContainerRefInScope (csContainer s) path wf scoped owners false ++ checkFieldSize (csRun s) path)
  | NAgent s =>
      let path := PathFor parent "" (asID s) i in
      checkStepID (asID s) path ;;; emit (checkContainerRefInScope (asContainer s) path wf scoped owners false)
  | NSignal s =>
      let path := PathFor parent "" (ssID s) i in
      checkStepID (ssID s) path ;;;
      emit (when (negb (String.eqb (ssAwait s) "") && negb (matchesName true (ssAwait s)))
              (errf path "AWF1020" (catf "%s: await=%q (must match %s)" "AWF1020" [ssAwait s; stepIDPattern]))
            ++ checkWhereExpr (ssWhere s) (path +:+ ".where"))
  | NCall s => checkStepID (caID s) (PathFor parent "" (caID s) i)
  | NIf cond then_ else_ =>
      emit (checkFieldSize cond (PathFor parent "if" "" i)) ;;;
      sub scoped (ChildPath parent "if" i "then") then_ ;;; sub scoped (ChildPath parent "if" i "else") else_
  | NLoop until maxIters body =>
      let path := PathFor parent "loop" "" i in
      emit (match until, maxIters with None, None => errf path "AWF1011" (cat "AWF1011") | _, _ => [] end
            ++ match until with Some u => checkFieldSize u path | None => [] end) ;;;
      sub scoped (ChildPath parent "loop" i "body") body
  | NTry do_ catch finally =>
      sub scoped (ChildPath parent "try" i "do") do_ ;;; sub scoped (ChildPath parent "try" i "catch") catch ;;;
      sub scoped (ChildPath parent "try" i "finally") finally
  | NParallel children =>
      let path := PathFor parent "parallel" "" i in
      emit (checkParallelDistinctContainers children path) ;;; sub scoped path children
  | NGate generate evaluate until _ =>
      emit (checkGate generate evaluate until (PathFor parent "gate" "" i)) ;;;
      sub scoped (ChildPath parent "gate" i "generate") generate ;;;
      sub scoped (ChildPath parent "gate" i "evaluate") evaluate
  | NSkip _ => emit []
  | NReact r => checkAddressableID (reID r) (PathFor parent "react" "" i) "react node"
  | NMap h body =>
      let path := PathFor parent "map" "" i in
      checkMapID h body path ;;; emit (checkMapFields h path wf scoped owners) ;;;
      sub scoped (ChildPath parent "map" i "body") body
  | NCompose as_ from service body =>
      let path := PathFor parent "compose" "" i in
      emit (when (String.eqb as_ "" || String.eqb from "" || String.eqb service "" || noNodes body)
              (errf path "AWF1038" (cat "AWF1038"))
            ++ checkComposeAs as_ path wf scoped
            ++ when (negb (String.eqb service "")) (checkFieldSize service (path +:+ ".service"))) ;;;
      sub (nextScoped as_ scoped) (ChildPath parent "compose" i "body") body
  end.
End walk.

(** ** validateStructural *)

Definition checkContainer (targets : gset string) (kv : string * Container) : list Diagnostic :=
  let '(name, ctr) := kv in
  let has s := negb (String.eqb s "") in
  let at_ := ContainerPath name in
  when (negb (matchesName true name))
    (errf (at_ "") "AWF1059" (catf "%s: %q (must match %s)" "AWF1059" [name; containerNamePattern]))
  ++ (if has (coImage ctr) && has (coCompose ctr) then errf (at_ "") "AWF1005" (cat "AWF1005")
      else when (negb (has (coImage ctr)) && negb (has (coCompose ctr)) && negb (bool_decide (name ∈ targets)))
             (errf (at_ "") "AWF1006" (cat "AWF1006")))
  ++ when (has (coImage ctr) && negb (strContains (coImage ctr) "@sha256:")) (errf (at_ "image") "AWF1007" (cat "AWF1007"))
  ++ when (has (coImage ctr) && strContains (coImage ctr) "{{") (errf (at_ "image") "AWF1019" (cat "AWF1019"))
  ++ when (has (coCompose ctr) && negb (has (coService ctr))) (errf (at_ "") "AWF1008" (cat "AWF1008"))
  ++ when (has (coService ctr) && strContains (coService ctr) "{{") (errf (at_ "service") "AWF1019" (cat "AWF1019"))
  ++ when (has (coSnapshot ctr) && negb (String.eqb (coSnapshot ctr) "workspace")) (errf (at_ "snapshot") "AWF1021" (cat "AWF1021"))
  ++ when (String.eqb (coSnapshot ctr) "workspace" && has (coCompose ctr)) (errf (at_ "snapshot") "AWF1022" (cat "AWF1022"))
  ++ when (bool_decide (name ∈ targets) && (has (coImage ctr) || has (coCompose ctr))) (errf (at_ "") "AWF1025" (cat "AWF1025"))
  ++ when (has (coCompose ctr) && (negb (bool_decide (coCmd ctr = [])) || match coKeepalive ctr with Some _ => true | None => false end))
       (errf (at_ "") "AWF1060" (cat "AWF1060")).

Fixpoint checkEnv (l : list string) (i : Z) : list Diagnostic :=
  match l with
  | [] => []
  | name :: l =>
      when (negb (matchesName false name))
        (errf ("env[" +:+ Itoa i +:+ "]") "AWF1024" (catf "%s: %q (must match %s)" "AWF1024" [name; envNamePattern]))
      ++ checkEnv l (i + 1)%Z
  end.

Definition validateStructural (wf : Workflow) : list Diagnostic :=
  let owners := MapImageTargetOwners wf in
  when (negb (wfVersion wf =? 1)%Z) (errf "" "AWF1017" (catf "%s (got %d)" "AWF1017" [Itoa (wfVersion wf)]))
  ++ flat_map (checkContainer (dom owners)) (map_to_list (containersOf wf))
  ++ checkEnv (wfEnv wf) 0
  ++ flat_map (λ kv : string * string, checkAssetID kv.1) (map_to_list (wfAssets wf))
  ++ (passNodes (walkStructural wf owners ∅ "") (wfGraph wf) ∅).1.
