(* ===== verification/ValRefs.v ===== *)
(** * ir/validate_refs.go: references

    The AWF3001/3002/500x pass: every template and expression field is scanned for references, and each
    reference is checked against the producers of the graph.  The state of the pass is the set of
    producers that were referenced. *)

From S2P Require Import Prelude GoNum GoJson GoStruct RetryPolicy EnginePath GoPath TmplLexer TmplParser TmplSlots TmplEval.
From S2P Require Import Ir IrShape IrDiag ValStructural.

Open Scope pass_scope.

(** ** Producers *)

Record producer : Type := MkProducer {
  pdPath : string; pdOrd : Z; pdKind : string; pdSchema : option JSONSchema; pdReduce : option Reduce }.

(** The [properties] of a schema, when it is an object; a missing one reads as empty. *)
Definition properties (schema : JSONSchema) : option (list (string * value)) :=
  match entry_get "properties" schema with Some (VMap l) => Some l | _ => None end.
Definition propertyOf (schema : JSONSchema) (field : string) : option value :=
  entry_get field (default [] (properties schema)).

(** The import edges of a module: import id → module id, the last edge winning. *)
Definition callTargets (ld : LoadedDefinition) (parentID : string) : gmap string string :=
  foldl (λ m e, if String.eqb (leParentID e) parentID then <[leImportID e := leChildID e]> m else m) ∅ (WalkImportEdges ld).
Definition callTargetModule (ld : LoadedDefinition) (parentID importID : string) : option LoadedModule :=
  childID ← callTargets ld parentID !! importID; Module_ ld childID.

(** The part of a child workflow's output schema that its outputs bind. *)
Definition callProducerSchema (wf : Workflow) : option JSONSchema :=
  schema ← wfOutputSchema wf;
  if bool_decide (wfOutputs wf = ∅) then None
  else
    let bound := omap (λ kv : string * json, (λ prop, (kv.1, prop)) <$> propertyOf schema kv.1) (sorted_entries (wfOutputs wf)) in
    if bool_decide (default [] (properties schema) = []) || bool_decide (bound = []) then None
    else Some [("type", VString "object"); ("properties", VMap bound); ("additionalProperties", VBool false)].

(** What a node produces, and under which id. *)
Definition producerOf (ld : LoadedDefinition) (moduleID : string) (n : Node) (path : string) (ord : Z)
    : option (string * producer) :=
  match n with
  | NCode s => Some (csID s, MkProducer path ord "code" (csOutputSchema s) None)
  | NAgent s => Some (asID s, MkProducer path ord "agent" (asOutputSchema s) None)
  | NSignal s => Some (ssID s, MkProducer path ord "signal" (ssOutputSchema s) None)
  | NCall s =>
      Some (caID s, MkProducer path ord "call"
        (child ← callTargetModule ld moduleID (caCall s); wf ← lmWorkflow child; callProducerSchema wf) None)
  | NMap h body =>
      if String.eqb (mpID h) "" then None
      else match mpReduce h with
           | Some r => Some (mpID h, MkProducer path ord "map_reduce" (rdOutputSchema r) (Some r))
           | None => Some (mpID h, MkProducer path ord "map_compact" (snd <$> MapCompactProducer body) None)
           end
  | NReact r =>
      if String.eqb (reID r) "" || strContains path "." then None
      else Some (reID r, MkProducer path ord "react" (reOutputSchema r) None)
  | _ => None
  end.

Fixpoint indexProducers (ld : LoadedDefinition) (moduleID : string) (l : list (Node * string)) (ord : Z)
    (acc : gmap string producer) : gmap string producer :=
  match l with
  | [] => acc
  | (n, path) :: l =>
      indexProducers ld moduleID l (ord + 1)%Z
        (match producerOf ld moduleID n path ord with Some (id, p) => <[id := p]> acc | None => acc end)
  end.
Definition indexModuleProducers (ld : LoadedDefinition) (moduleID : string) (nodes : NodeList) : gmap string producer :=
  indexProducers ld moduleID (WalkNodes nodes "") 0 ∅.

(** With the synthetic producer of the workflow's input. *)
Definition moduleProducers (ld : LoadedDefinition) (moduleID : string) (wf : Workflow) : gmap string producer :=
  let producers := indexModuleProducers ld moduleID (wfGraph wf) in
  match wfInputSchema wf with
  | Some schema => <["input" := MkProducer "input" 0 "input" (Some schema) None]> producers
  | None => producers
  end.

Definition lastEvaluatorProducerID (nodes : NodeList) : string :=
  match last (default [] nodes) with
  | Some (NCode s) => csID s
  | Some (NAgent s) => asID s
  | Some (NSignal s) => ssID s
  | Some (NMap h _) => mpID h
  | _ => ""
  end.

(** ** References *)

Definition renderRef (r : Ref) : string :=
  JoinDot (map (λ s, if IsIndex s then Itoa (Index s) else Ident s) (Segments r)).

Definition QuorumVerdictFields : list string := ["votes"; "agree"; "votes_detail"].
Definition reservedReactOutputFields : list string := ["stop_reason"].
Definition reactReservedField (field : string) : bool := mem field reservedReactOutputFields.

(** [[]] when the schema declares the field. *)
Definition checkSchemaField (path id field : string) (schema : option JSONSchema) : list Diagnostic :=
  match schema with
  | None => errf path "AWF3001" (EmFmt "reference to step %q field %q but no output_schema declared" [id; field])
  | Some s =>
      match propertyOf s field with
      | None => errf path "AWF3001" (EmFmt "step %q output_schema does not declare field %q" [id; field])
      | Some _ => []
      end
  end.

(** The producers referenced so far. *)
Definition Referenced : Type := gset string.
Definition mark (id : string) : pass Referenced := λ r, ([], {[ id ]} ∪ r).

Section refs.
Variable producers : gmap string producer.
Variable maps : gmap string MapHead.

Definition malformedStep (path : string) (ref : Ref) : list Diagnostic :=
  errf path "AWF3001" (EmFmt "malformed step reference (need step.<id>.<field>): %s" [renderRef ref]).

(** The fields that follow [step.<id>] in a reference to an array of outputs. *)
Definition checkAggregateFields (path id : string) (ref : Ref) (fields : list Segment) (schema : option JSONSchema)
    : list Diagnostic :=
  match fields with
  | [] => []
  | f :: _ =>
      if IsIndex f then malformedStep path ref
      else if String.eqb (Ident f) "exit_code" || String.eqb (Ident f) "stdout"
      then errf path "AWF5005" (catf "%s: %s" "AWF5005" [renderRef ref])
      else checkSchemaField path id (Ident f) schema
  end.

Definition checkReducedMapRef (path id : string) (ref : Ref) (fields : list Segment) (r : Reduce) : pass Referenced :=
  mark id ;;;
  emit match fields with
       | [] => []
       | f :: _ =>
           if IsIndex f then malformedStep path ref
           else if IsQuorum (Some r) then
             when (negb (String.eqb (Ident f) (rdField r)) && negb (mem (Ident f) QuorumVerdictFields))
               (errf path "AWF3001" (EmFmt "step %q is a quorum-reduced map; the reduced verdict declares only {%s, votes, agree, votes_detail}, not field %q" [id; rdField r; Ident f]))
           else checkSchemaField path id (Ident f) (rdOutputSchema r)
       end.

(** A producer that is not read as an aggregate: [step.<id>.<field>]. *)
Definition checkPlainStepRef (path id : string) (ref : Ref) (fields : list Segment) (p : producer) : pass Referenced :=
  match fields with
  | [] => emit (malformedStep path ref)
  | f :: _ =>
      if IsIndex f then emit (malformedStep path ref)
      else
        let field := Ident f in
        match blockingScope (pdPath p) path with
        | Some (scope, peeledGate) =>
            let code := if isGateScope scope || peeledGate then "AWF5003" else "AWF5002" in
            emit (errf path code (catf "%s: %s" code [renderRef ref]))
        | None =>
            if String.eqb field "exit_code" || String.eqb field "stdout" then
              if negb (String.eqb (pdKind p) "code")
              then emit (errf path "AWF3001" (EmFmt "step %q is a %s step, not a code step — %s is only defined for code steps (§4.1)" [id; pdKind p; field]))
              else mark id
            else if String.eqb (pdKind p) "react" && reactReservedField field then mark id
            else match checkSchemaField path id field (pdSchema p) with
                 | [] => mark id
                 | ds => emit ds
                 end
        end
  end.

(** The map product of [p], read as an array: only by the [over:] of another map. *)
Definition checkCompactRef (path id : string) (ref : Ref) (fields : list Segment) (p : producer) (overSinkMapPath : string)
    : pass Referenced :=
  if String.eqb overSinkMapPath "" || String.eqb overSinkMapPath (pdPath p)
  then emit (errf path "AWF5004" (catf "%s: %s" "AWF5004" [renderRef ref]))
  else mark id ;;; emit (checkAggregateFields path id ref fields (pdSchema p)).

(** A step in the body of the map at [mapPath], read from outside the map. *)
Definition checkAggregateRef (path id : string) (ref : Ref) (fields : list Segment) (p : producer)
    (mapPath overSinkMapPath : string) : pass Referenced :=
  match (m ← maps !! mapPath; mpReduce m) with
  | Some r => checkReducedMapRef path id ref fields r
  | None =>
      if String.eqb overSinkMapPath "" then emit (errf path "AWF5004" (catf "%s: %s" "AWF5004" [renderRef ref]))
      else mark id ;;; emit (checkAggregateFields path id ref fields (pdSchema p))
  end.

Definition isMapProduct (p : producer) : bool :=
  String.eqb (pdKind p) "map_reduce" || String.eqb (pdKind p) "map_compact".

Definition checkStepRef (path : string) (ref : Ref) (rest : list Segment) (overSinkMapPath : string) : pass Referenced :=
  match rest with
  | [] => emit (malformedStep path ref)
  | idSeg :: fields =>
      if IsIndex idSeg then emit (malformedStep path ref)
      else
        let id := Ident idSeg in
        match producers !! id with
        | None => emit (errf path "AWF3001" (EmFmt "reference to undeclared step %q" [id]))
        | Some p =>
            if isMapProduct p && pathWithinScope path (pdPath p)
            then emit (errf path "AWF5010" (catf "%s: %s" "AWF5010" [renderRef ref]))
            else if String.eqb (pdKind p) "map_reduce" then
              match pdReduce p with
              | Some r => checkReducedMapRef path id ref fields r
              | None => emit []    (* not built: a map_reduce producer carries its reduce *)
              end
            else if String.eqb (pdKind p) "map_compact" then checkCompactRef path id ref fields p overSinkMapPath
            else match SingleMapBodyShape (pdPath p) with
                 | Some (mapPath, _) =>
                     if pathWithinScope path mapPath && negb (pathWithinScope path (mapPath +:+ ".body"))
                     then emit (errf path "AWF5002" (catf "%s: %s" "AWF5002" [renderRef ref]))
                     else if negb (pathWithinScope path mapPath)
                     then checkAggregateRef path id ref fields p mapPath overSinkMapPath
                     else checkPlainStepRef path id ref fields p
                 | None => checkPlainStepRef path id ref fields p
                 end
        end
  end.

Definition checkInputRef (path : string) (ref : Ref) (rest : list Segment) : list Diagnostic :=
  match rest with
  | [] => errf path "AWF3001" (EmFmt "malformed input reference (need input.<field>): %s" [renderRef ref])
  | f :: _ =>
      if IsIndex f then errf path "AWF3001" (EmFmt "malformed input reference (need input.<field>): %s" [renderRef ref])
      else match (p ← producers !! "input"; pdSchema p) with
           | None => errf path "AWF3001" (EmFmt "reference to input.%s but workflow declares no `input:` schema" [Ident f])
           | Some schema =>
               match propertyOf schema (Ident f) with
               | None => errf path "AWF3001" (EmFmt "workflow input schema does not declare field %q" [Ident f])
               | Some _ => []
               end
           end
  end.

Definition checkRunRef (path : string) (ref : Ref) (rest : list Segment) : list Diagnostic :=
  match rest with
  | [f] => when (IsIndex f || negb (String.eqb (Ident f) "id"))
             (errf path "AWF3001" (EmFmt "only `run.id` is defined under the `run` root: %s" [renderRef ref]))
  | _ => errf path "AWF3001" (EmFmt "only `run.id` is defined under the `run` root: %s" [renderRef ref])
  end.

(** Any other root: the output of a top-level react node, or a name that is left to the evaluator. *)
Definition checkReactRef (path root : string) (ref : Ref) (rest : list Segment) : pass Referenced :=
  match producers !! root with
  | None => emit []
  | Some p =>
      if negb (String.eqb (pdKind p) "react") then emit []
      else
        let malformed := errf path "AWF3001" (EmFmt "malformed react reference (need %s.<field>): %s" [root; renderRef ref]) in
        match rest with
        | [] => emit malformed
        | f :: _ =>
            if IsIndex f then emit malformed
            else if reactReservedField (Ident f) then mark root
            else match checkSchemaField path root (Ident f) (pdSchema p) with
                 | [] => mark root
                 | ds => emit ds
                 end
        end
  end.

Definition checkRef (ref : Ref) (path : string) (evaluateAllowed : bool) (overSinkMapPath : string) : pass Referenced :=
  match Segments ref with
  | [] => emit []
  | seg :: rest =>
      let root := Ident seg in
      if String.eqb root "step" then checkStepRef path ref rest overSinkMapPath
      else if String.eqb root "input" then emit (checkInputRef path ref rest)
      else if String.eqb root "run" then emit (checkRunRef path ref rest)
      else if String.eqb root "evaluate" then
        emit (when (negb evaluateAllowed) (errf path "AWF5001" (catf "%s: %s" "AWF5001" [renderRef ref])))
      else checkReactRef path root ref rest
  end.

(** ** Fields with references *)

Definition emptySlot (path : string) : list Diagnostic := errf path "AWF3001" (EmText "empty {{ }} slot").

(** One slot of a template. *)
Definition visitSlot {S} (path : string) (visit : Ref → pass S) (sl : Slot) : pass S :=
  let inner := TrimSpace (slInner sl) in
  if String.eqb inner "" then emit (emptySlot path)
  else match ParseRef inner with
       | Err e => emit (errf path "AWF3001" (EmWrap "invalid reference %q: %s" [inner] (EmSyntax e)))
       | Ok ref => visit ref
       end.
Definition walkTemplateRefs {S} (src path : string) (visit : Ref → pass S) : pass S :=
  if String.eqb src "" then emit []
  else match Slots src with
       | Err e => emit (errf path "AWF3001" (EmWrap "malformed template: %s" [] (EmSyntax e)))
       | Ok slots => passAll (visitSlot path visit) slots
       end.

Definition checkTemplateRefs (src path : string) (evaluateAllowed : bool) (overSinkMapPath : string) : pass Referenced :=
  walkTemplateRefs src path (λ ref, checkRef ref path evaluateAllowed overSinkMapPath).

Definition checkExprRefs (src path : string) (evaluateAllowed : bool) (overSinkMapPath : string) : pass Referenced :=
  if String.eqb src "" then emit []
  else match ParseExpr (UnwrapEnvelope src) with
       | Err e => emit (errf path "AWF3001" (EmWrap "invalid expression: %s" [] (EmSyntax e)))
       | Ok e => passAll (λ ref, checkRef ref path evaluateAllowed overSinkMapPath) (References e)
       end.

(** *** Reducers *)

(** A reducer may read the steps of its own map's body, as aggregates. *)
Definition checkReduceRef (ref : Ref) (path : string) (evaluateAllowed : bool) : pass Referenced :=
  let plain := checkRef ref path evaluateAllowed "" in
  match Segments ref with
  | root :: idSeg :: fields =>
      if String.eqb (Ident root) "step" && negb (IsIndex idSeg) then
        match producers !! Ident idSeg with
        | Some p =>
            match SingleMapBodyShape (pdPath p) with
            | Some (mapPath, _) =>
                if pathWithinScope path (mapPath +:+ ".reduce")
                then mark (Ident idSeg) ;;; emit (checkAggregateFields path (Ident idSeg) ref fields (pdSchema p))
                else plain
            | None => plain
            end
        | None => plain
        end
      else plain
  | _ => plain
  end.
Definition checkReduceTemplateRefs (src path : string) (evaluateAllowed : bool) : pass Referenced :=
  walkTemplateRefs src path (λ ref, checkReduceRef ref path evaluateAllowed).
Definition checkReduceRefs (r : option Reduce) (mapPath : string) (evaluateAllowed : bool) : pass Referenced :=
  match r with
  | None => emit []
  | Some r =>
      (if String.eqb (rdRun r) "" then emit [] else checkReduceTemplateRefs (rdRun r) (mapPath +:+ ".reduce.run") evaluateAllowed) ;;;
      passAll (λ f, checkReduceTemplateRefs (ofPath f)
                      (mapPath +:+ ".reduce.output_files" +:+ (if String.eqb (ofName f) "" then "" else "." +:+ ofName f))
                      evaluateAllowed) (rdOutputFiles r)
  end.

(** The steps of the body that declare the field a quorum counts. *)
Definition declaresField (schema : option JSONSchema) (field : string) : bool :=
  match schema with
  | None => false
  | Some s => match properties s with
              | None => true
              | Some props => match entry_get field props with Some _ => true | None => false end
              end
  end.
Definition markQuorumFieldReferenced (h : MapHead) (body : NodeList) : pass Referenced :=
  match mpReduce h with
  | Some r =>
      let field := TrimSpace (rdField r) in
      if negb (IsQuorum (Some r)) || String.eqb field "" then emit []
      else passAll (λ np : Node * string,
                      match np.1 with
                      | NCode s => if declaresField (csOutputSchema s) field then mark (csID s) else emit []
                      | NAgent s => if declaresField (asOutputSchema s) field then mark (asID s) else emit []
                      | _ => emit []
                      end) (WalkNodes body "")
  | None => emit []
  end.

(** *** Shell hosts *)

Definition isStringProperty (schema : option JSONSchema) (field : string) : bool :=
  match (s ← schema; propertyOf s field) with
  | Some (VMap spec) => match entry_get "type" spec with Some (VString t) => String.eqb t "string" | _ => false end
  | _ => false
  end.
Definition refIsStringTyped (ref : Ref) : bool :=
  match Segments ref with
  | root :: rest =>
      if String.eqb (Ident root) "step" then
        match rest with
        | idSeg :: f :: _ =>
            if IsIndex idSeg || IsIndex f then false
            else if String.eqb (Ident f) "exit_code" then false
            else if String.eqb (Ident f) "stdout" then true
            else isStringProperty (p ← producers !! Ident idSeg; pdSchema p) (Ident f)
        | _ => false
        end
      else if String.eqb (Ident root) "input" then
        match rest with
        | f :: _ => if IsIndex f then false else isStringProperty (p ← producers !! "input"; pdSchema p) (Ident f)
        | [] => false
        end
      else false
  | [] => false
  end.
Definition quoteByte (c : ascii) : bool := (Nat.eqb (nat_of_ascii c) 34 || Nat.eqb (nat_of_ascii c) 39)%nat.
Definition slotIsShellQuoted (host : string) (sl : Slot) : bool :=
  if Nat.eqb (slStart sl) 0 then false
  else match sget host (slStart sl - 1), sget host (slEnd sl) with
       | Some before, Some after => quoteByte before && Ascii.eqb before after
       | _, _ => false
       end.
Definition checkShellHostInjection (src path : string) : list Diagnostic :=
  match Slots src with
  | Err _ => []
  | Ok slots =>
      flat_map (λ sl, match ParseRef (TrimSpace (slInner sl)) with
                      | Err _ => []
                      | Ok ref => when (refIsStringTyped ref && negb (slotIsShellQuoted src sl))
                                    (warnf path "AWF3013" (cat "AWF3013"))
                      end) slots
  end.

(** *** The walk *)

(** [idempotency_key]. *)
Definition checkKeyRefs (key : option string) (path : string) (evaluateAllowed : bool) : pass Referenced :=
  match key with
  | None => emit []
  | Some k =>
      checkTemplateRefs k (path +:+ ".idempotency_key") evaluateAllowed "" ;;;
      emit (checkShellHostInjection k (path +:+ ".idempotency_key"))
  end.

(** The top-level strings of a step's [with:]. *)
Definition checkWithRefs (with_ : RawConfig) (path : string) (evaluateAllowed : bool) : pass Referenced :=
  passAll (λ kv : string * value,
             match kv.2 with
             | VString sv => checkTemplateRefs sv (path +:+ ".with." +:+ kv.1) evaluateAllowed ""
             | _ => emit []
             end) (key_sort (default [] with_)).

Fixpoint walkRefs (evaluateAllowed : bool) (parent : string) (n : Node) (i : Z) {struct n} : pass Referenced :=
  let sub ev parent l := passNodes (walkRefs ev parent) l in
  match n with
  | NCode s =>
      let path := PathFor parent "" (csID s) i in
      checkTemplateRefs (csRun s) (path +:+ ".run") evaluateAllowed "" ;;;
      emit (checkShellHostInjection (csRun s) (path +:+ ".run")) ;;;
      checkKeyRefs (csIdempotencyKey s) path evaluateAllowed
  | NAgent s =>
      let path := PathFor parent "" (asID s) i in
      checkKeyRefs (asIdempotencyKey s) path evaluateAllowed ;;;
      match asSkills s with
      | Some sk => emit (checkFieldSize (srtQuery sk) (path +:+ ".skills.query")) ;;;
                   checkTemplateRefs (srtQuery sk) (path +:+ ".skills.query") evaluateAllowed ""
      | None => emit []
      end ;;;
      checkWithRefs (asWith s) path evaluateAllowed
  | NIf cond then_ else_ =>
      checkExprRefs cond (PathFor parent "if" "" i +:+ ".cond") evaluateAllowed "" ;;;
      sub evaluateAllowed (ChildPath parent "if" i "then") then_ ;;;
      sub evaluateAllowed (ChildPath parent "if" i "else") else_
  | NLoop until _ body =>
      match until with
      | Some u => checkExprRefs u (PathFor parent "loop" "" i +:+ ".until") evaluateAllowed ""
      | None => emit []
      end ;;;
      sub evaluateAllowed (ChildPath parent "loop" i "body") body
  | NTry do_ catch finally =>
      sub evaluateAllowed (ChildPath parent "try" i "do") do_ ;;;
      sub evaluateAllowed (ChildPath parent "try" i "catch") catch ;;;
      sub evaluateAllowed (ChildPath parent "try" i "finally") finally
  | NParallel children => sub evaluateAllowed (PathFor parent "parallel" "" i) children
  | NGate generate evaluate until _ =>
      checkExprRefs until (PathFor parent "gate" "" i +:+ ".until") true "" ;;;
      sub true (ChildPath parent "gate" i "generate") generate ;;;
      sub false (ChildPath parent "gate" i "evaluate") evaluate ;;;
      (let id := lastEvaluatorProducerID evaluate in if String.eqb id "" then emit [] else mark id)
  | NMap h body =>
      let path := PathFor parent "map" "" i in
      checkExprRefs (mpOver h) (path +:+ ".over") evaluateAllowed path ;;;
      sub evaluateAllowed (ChildPath parent "map" i "body") body ;;;
      checkReduceRefs (mpReduce h) path evaluateAllowed ;;;
      markQuorumFieldReferenced h body
  | NCompose _ _ service body =>
      checkTemplateRefs service (PathFor parent "compose" "" i +:+ ".service") evaluateAllowed "" ;;;
      sub evaluateAllowed (ChildPath parent "compose" i "body") body
  | NSignal _ | NCall _ | NSkip _ | NReact _ => emit []
  end.

(** ** Values with templates *)

Definition reemitDiagnosticsAs (ds : list Diagnostic) (code : string) : list Diagnostic :=
  flat_map (λ d, match dgSeverity d with
                 | SevError => errf (dgPath d) code (EmWrap "%s: %s" [catalog code] (dgMessage d))
                 | SevWarning => []
                 end) ds.

(** Every string inside a value, with its path. *)
Fixpoint walkTemplateValueStrings (code path : string) (v : value) {struct v} : pass Referenced :=
  match v with
  | VString s => λ r, let '(ds, r) := checkTemplateRefs s path false "" r in (reemitDiagnosticsAs ds code, r)
  | VSlice l =>
      (fix go l i := match l with
                     | [] => emit []
                     | e :: l => walkTemplateValueStrings code (path +:+ "[" +:+ Itoa i +:+ "]") e ;;; go l (i + 1)%Z
                     end) l 0%Z
  | VMap m =>
      passAll (λ kp : string * pass Referenced, kp.2)
        (key_sort (map (λ kv : string * value, (kv.1, walkTemplateValueStrings code (path +:+ "." +:+ kv.1) kv.2)) m))
  | _ => emit []
  end.

Definition validateTemplateValueRefs (code basePath : string) (values : gmap string json) : pass Referenced :=
  passAll (λ kj : string * json,
             let path := if String.eqb kj.1 "" then basePath else basePath +:+ "." +:+ kj.1 in
             match Unmarshal_any kj.2 with
             | None => emit (errf path code (EmWrap "%s: invalid JSON value: %s" [catalog code] EmDecodeJSON))
             | Some v => walkTemplateValueStrings code path v
             end) (sorted_entries values).

(** The inputs of calls and the outputs of the workflow refer to producers too; their findings are
    another pass's. *)
Definition markTemplateValueRefsReferenced (wf : Workflow) : pass Referenced := λ r,
  ([], ((passAll (λ np : Node * string,
                   match np.1 with
                   | NCall s => validateTemplateValueRefs "AWF3001" (np.2 +:+ ".input") (caInput s)
                   | _ => emit []
                   end) (WalkNodes (wfGraph wf) "") ;;;
        passAll (λ kj : string * json, validateTemplateValueRefs "AWF3001" ("outputs." +:+ kj.1) {[ "" := kj.2 ]})
          (sorted_entries (wfOutputs wf))) r).2).
End refs.

(** ** validateRefsModule *)

Definition validateRefsModule (ld : LoadedDefinition) (moduleID : string) (wf : Workflow) : list Diagnostic :=
  let producers := moduleProducers ld moduleID wf in
  let maps := mapsByPath (wfGraph wf) in
  let '(ds, referenced) :=
    (passNodes (walkRefs producers maps false "") (wfGraph wf) ;;; markTemplateValueRefsReferenced producers maps wf) ∅ in
  ds ++ flat_map (λ kp : string * producer,
                    when (String.eqb (pdKind kp.2) "agent" && bool_decide (is_Some (pdSchema kp.2)) && negb (bool_decide (kp.1 ∈ referenced)))
                      (warnf (pdPath kp.2) "AWF3002" (catf "%s (step %q)" "AWF3002" [kp.1])))
          (map_to_list producers).

Definition validateAwfOutputWrites (nodes : NodeList) : list Diagnostic :=
  flat_map (λ np : Node * string,
              match np.1 with
              | NCode s => when (bool_decide (is_Some (csOutputSchema s)) && negb (strContains (csRun s) "AWF_OUTPUT"))
                             (warnf np.2 "AWF3006" (cat "AWF3006"))
              | _ => []
              end) (WalkNodes nodes "").
