(* ===== verification/ValFiles.v ===== *)
(** * ir/validate_input_files.go, validate_output_files.go, and the calls and exports of validate_refs.go

    The files and the values that cross a step or a workflow: the AWF3007 pass over [input_files], the
    contracts of [output_files], the inputs of [call:] and the exports of a workflow.  The JSON Schema
    compiler is a parameter: its error for a decoded schema, if any. *)

From S2P Require Import Prelude GoNum GoJson GoStruct EnginePath GoPath TmplLexer TmplParser TmplSlots TmplEval.
From S2P Require Import Ir IrShape IrDiag ValStructural ValRefs.

Open Scope pass_scope.

(** ** Producers, files and positions of a module *)

(** Position of each visited path in the walk; the last visit of a path wins. *)
Fixpoint orderFrom (l : list (Node * string)) (ord : Z) (acc : gmap string Z) : gmap string Z :=
  match l with [] => acc | (_, path) :: l => orderFrom l (ord + 1)%Z (<[path := ord]> acc) end.
Definition nodeOrder (nodes : NodeList) : gmap string Z := orderFrom (WalkNodes nodes "") 0 ∅.

(** What a call publishes: the exports of its target. *)
Definition callExports (ld : LoadedDefinition) (moduleID : string) (s : CallStep) : option OutputFiles :=
  child ← callTargetModule ld moduleID (caCall s);
  wf ← lmWorkflow child;
  if bool_decide (wfArtifactExports wf = ∅) then None
  else Some (map (λ kv : string * string, MkOutputFile kv.1 kv.2 "" None "") (sorted_entries (wfArtifactExports wf))).
Definition outputFilesByStepIDForModule (ld : LoadedDefinition) (moduleID : string) (wf : Workflow) : gmap string OutputFiles :=
  foldl (λ m (np : Node * string),
           match np.1 with
           | NCall s => match callExports ld moduleID s with Some ofs => <[caID s := ofs]> m | None => m end
           | _ => m
           end) (OutputFilesByStepID wf) (WalkNodes (wfGraph wf) "").

Definition inputFileDestinationAncestor (parent child : string) : bool :=
  if String.eqb parent "/" then negb (String.eqb child "/") else HasPrefix child (parent +:+ "/").

(** Neighbours of the sorted destinations. *)
Fixpoint overlaps (nodePath : string) (dsts : list string) : list Diagnostic :=
  match dsts with
  | prev :: ((cur :: _) as rest) =>
      when (String.eqb prev cur || inputFileDestinationAncestor prev cur)
        (errf nodePath "AWF3007" (EmText ("input_files destinations " +:+ prev +:+ " and " +:+ cur +:+ " overlap")))
      ++ overlaps nodePath rest
  | _ => []
  end.
Definition validateInputFileDestinationOverlap (nodePath : string) (dsts : list string) : list Diagnostic :=
  overlaps nodePath (sort_strings dsts).

(** Only neighbours of the sorted list are compared: with [/a-b] between [/a] and [/a/c] the overlap is missed. *)
Example overlap_missed :
  validateInputFileDestinationOverlap "s" ["/a"; "/a-b"; "/a/c"] = [] ∧ inputFileDestinationAncestor "/a" "/a/c" = true.
Proof. by vm_compute. Qed.

Definition absClean (dst : string) : bool := IsAbs dst && String.eqb dst (Clean dst).

(** ** References to files *)

Section files.
Variable producers : gmap string producer.
Variable order : gmap string Z.
Variable outFiles : gmap string OutputFiles.
Variable maps : gmap string MapHead.

Definition text (label msg : string) : EvalMsg := EmText (label +:+ msg).

Definition validateParsedNamedArtifactRef (diagnosticPath consumerPath label id name : string) : list Diagnostic :=
  let err msg := errf diagnosticPath "AWF3007" (text label msg) in
  match producers !! id with
  | None => err (": step " +:+ id +:+ " is not a declared step")
  | Some p =>
      if String.eqb (pdKind p) "map_reduce" && pathWithinScope consumerPath (pdPath p)
      then err (": reduced map product " +:+ id +:+ " may only be referenced outside its producing map")
      else if match order !! consumerPath with Some consumerOrd => (consumerOrd <=? pdOrd p)%Z | None => false end
      then err (": producer " +:+ id +:+ " must appear before this consumer")
      else
        let reduced := match SingleMapBodyShape (pdPath p) with
                       | Some (mapPath, _) =>
                           if negb (pathWithinScope consumerPath mapPath) then (m ← maps !! mapPath; mpReduce m) else None
                       | None => None
                       end in
        match reduced with
        | Some r =>
            match PathForName (rdOutputFiles r) name with
            | Some _ => []
            | None => err (": reduced map (producer " +:+ id +:+ ") reducer has no named output_files artifact " +:+ name)
            end
        | None =>
            match PathForName (default [] (outFiles !! id)) name with
            | None => err (": step " +:+ id +:+ " has no named output_files artifact " +:+ name)
            | Some _ =>
                when (bool_decide (is_Some (blockingScope (pdPath p) consumerPath)))
                  (err (": producer " +:+ id +:+ " is inside a gate/map scope not reachable from here"))
            end
        end
  end.

Definition isTemplate (raw : string) : bool := strContains raw "{{" || strContains raw "}}".

Definition validateInputFileRef (diagnosticPath consumerPath label raw : string)
    (workflowInputFiles : WorkflowInputFiles) (assets : gmap string string) : list Diagnostic :=
  let err msg := errf diagnosticPath "AWF3007" (text label msg) in
  if isTemplate raw then err ": must be a static step.<id>.files.<name> or asset.<id> reference, not a template"
  else match ParseWorkflowInputFileRef raw with
  | Some name => when (negb (bool_decide (is_Some (workflowInputFiles !! name))))
                   (err (": workflow input file " +:+ name +:+ " is not declared"))
  | None =>
  match ParseAssetRef raw with
  | Some id => when (negb (bool_decide (is_Some (assets !! id)))) (err (": asset " +:+ id +:+ " is not a declared asset"))
  | None =>
  match ParseArtifactRef raw with
  | None => err ("=" +:+ raw +:+ ": expected step.<id>.files.<name> or asset.<id>")
  | Some (id, name) => validateParsedNamedArtifactRef diagnosticPath consumerPath label id name
  end end end.

Definition validateNamedArtifactRef (nodePath label raw : string) : list Diagnostic :=
  let err msg := errf nodePath "AWF3007" (text label msg) in
  if isTemplate raw then err ": must be a static step.<id>.files.<name> reference, not a template"
  else match ParseArtifactRef raw with
       | None => err ("=" +:+ raw +:+ ": expected step.<id>.files.<name>")
       | Some (id, name) => validateParsedNamedArtifactRef nodePath nodePath label id name
       end.

Section inputs.
Variable wf : Workflow.

(** The entries of one step: each reference, then the overlap of the destinations that are well formed. *)
Definition checkInputEntries (nodePath : string) (containerless : bool) (inputs : gmap string string) : list Diagnostic :=
  let valid dst := if containerless then matchesName true dst else absClean dst in
  flat_map (λ kv : string * string,
              let '(dst, raw) := kv in
              if valid dst
              then validateInputFileRef nodePath nodePath ("input_files[" +:+ dst +:+ "]") raw (wfInputFiles wf) (wfAssets wf)
              else errf nodePath "AWF3007"
                     (EmText (if containerless
                              then "containerless input_files label " +:+ dst +:+ " must match " +:+ stepIDPattern
                              else "input_files destination " +:+ dst +:+ " must be an absolute, clean path (no '..' segment)")))
    (map_to_list inputs)
  ++ if containerless then when (negb (bool_decide (inputs = ∅))) (warnf nodePath "AWF2003" (cat "AWF2003"))
     else validateInputFileDestinationOverlap nodePath (List.filter valid (map_to_list inputs).*1).

(** One tool that a react node offers. *)
Definition checkToolInputs (reactPath toolName : string) (inputs : gmap string string) : list Diagnostic :=
  flat_map (λ kv : string * string,
              let '(dst, raw) := kv in
              let label := "tool " +:+ toolName +:+ " input_files[" +:+ dst +:+ "]" in
              if absClean dst
              then validateInputFileRef reactPath reactPath label raw (wfInputFiles wf) (wfAssets wf)
              else errf reactPath "AWF3007" (text label " destination must be an absolute, clean path (no '..' segment)"))
    (map_to_list inputs)
  ++ validateInputFileDestinationOverlap reactPath (List.filter absClean (map_to_list inputs).*1).
Definition validateReactToolInputFiles (reactPath : string) (rn : React) : list Diagnostic :=
  flat_map (λ toolName, match wfTools wf !! toolName with
                        | None => []
                        | Some tool => checkToolInputs reactPath toolName (tiInputFiles (tlImpl tool))
                        end) (default [] (reTools rn)).

Definition checkNodeInputFiles (np : Node * string) : list Diagnostic :=
  let '(n, nodePath) := np in
  match n with
  | NCompose _ from _ _ => validateNamedArtifactRef nodePath "compose.from" from
  | NReact rn => validateReactToolInputFiles nodePath rn
  | NCode s => checkInputEntries nodePath false (csInputFiles s)
  | NAgent s => checkInputEntries nodePath (String.eqb (asContainer s) "") (asInputFiles s)
  | _ => []
  end.
End inputs.
End files.

Definition validateInputFilesModule (ld : LoadedDefinition) (moduleID : string) (wf : Workflow) : list Diagnostic :=
  flat_map (checkNodeInputFiles (indexModuleProducers ld moduleID (wfGraph wf)) (nodeOrder (wfGraph wf))
              (outputFilesByStepIDForModule ld moduleID wf) (mapsByPath (wfGraph wf)) wf)
    (WalkNodes (wfGraph wf) "").

(** ** Contracts of files *)

Section contracts.
(** [AddResource] and [Compile] of the JSON Schema compiler: the text of the error, if any. *)
Variable compile : value → option string.
Variable ld : LoadedDefinition.
Variable wf : Workflow.

(** [checkSchemaWellFormed] of validate_schema.go, of a map or of nil. *)
Definition checkSchemaValue (schema : value) (path : string) : list Diagnostic :=
  match to_json schema with
  | None => errf path "AWF2001" (EmWrap "re-marshal: %s" [] EmNotEncodable)
  | Some j =>
      match Unmarshal_any j with
      | None => errf path "AWF2001" (EmWrap "re-unmarshal: %s" [] EmDecodeJSON)
      | Some decoded => match compile decoded with Some m => errf path "AWF2001" (EmText m) | None => [] end
      end
  end.
Definition checkSchemaWellFormed (schema : JSONSchema) (path : string) : list Diagnostic := checkSchemaValue (VMap schema) path.

Definition validateSchemaRefAsset (nodePath code label schemaRef schemaPath : string) : list Diagnostic :=
  let err msg := errf nodePath code (text label msg) in
  match ParseAssetRef schemaRef with
  | None => err ": schema_ref must be asset.<id>"
  | Some id =>
      match wfAssets wf !! id with
      | None => err (": schema_ref asset " +:+ id +:+ " is not declared")
      | Some _ =>
          match ldAssets ld !! id with
          | None => []
          | Some asset =>
              match laIsDir asset, laFiles asset with
              | false, [f] =>
                  if negb (String.eqb (lfPath f) ".")
                  then err (": schema_ref asset " +:+ id +:+ " must be a single file")
                  else match (j ← json_parse (lfBytes f); Unmarshal_any j) with
                       | Some VNil => checkSchemaValue VNil schemaPath
                       | Some (VMap schema) => checkSchemaWellFormed schema schemaPath
                       | _ => err (": schema_ref asset " +:+ id +:+ " is not JSON")
                       end
              | _, _ => err (": schema_ref asset " +:+ id +:+ " must be a single file")
              end
          end
      end
  end.

Definition validateArtifactContractMetadata (nodePath code label schemaPath : string) (c : ArtifactContract) : list Diagnostic :=
  let err msg := errf nodePath code (text label msg) in
  let has s := negb (String.eqb s "") in
  let hasSchema := bool_decide (is_Some (acSchema c)) in
  when (has (acFormat c) && negb (String.eqb (acFormat c) "json") && negb (String.eqb (acFormat c) "jsonl"))
    (err ": format must be json or jsonl")
  ++ when ((hasSchema || has (acSchemaRef c)) && negb (has (acFormat c))) (err ": schema requires format json or jsonl")
  ++ when (hasSchema && has (acSchemaRef c)) (err ": schema and schema_ref are mutually exclusive")
  ++ match acSchema c with Some s => checkSchemaWellFormed s (schemaPath +:+ ".schema") | None => [] end
  ++ when (has (acSchemaRef c))
       (validateSchemaRefAsset nodePath code label (acSchemaRef c) (schemaPath +:+ ".schema_ref")).

(** [paths]: each path with the first name that declared it. *)
Fixpoint checkOutputFiles (nodePath : string) (ofs : OutputFiles) (paths : gmap string string) : list Diagnostic :=
  match ofs with
  | [] => []
  | of_ :: ofs =>
      let err msg := errf nodePath "AWF3009" (EmText msg) in
      let has s := negb (String.eqb s "") in
      let label := "output_files." +:+ ofName of_ in
      let prev := if has (ofPath of_) then paths !! ofPath of_ else None in
      when (has (ofName of_) && negb (matchesName true (ofName of_))) (err (label +:+ ": name must match " +:+ stepIDPattern))
      ++ match prev with
         | Some p => err (label +:+ ": duplicate path " +:+ ofPath of_ +:+ " already declared by " +:+ p)
         | None => []
         end
      ++ when (has (ofFormat of_) || bool_decide (is_Some (ofSchema of_)) || has (ofSchemaRef of_))
           (when (negb (has (ofName of_))) (err "output_files contract metadata is only valid on named output_files entries")
            ++ when (negb (has (ofPath of_))) (err (label +:+ ": contract object requires path"))
            ++ validateArtifactContractMetadata nodePath "AWF3009" label (nodePath +:+ ".output_files." +:+ ofName of_)
                 (ContractFromOutputFile of_))
      ++ checkOutputFiles nodePath ofs
           (match prev with
            | None => if has (ofPath of_) then <[ofPath of_ := ofName of_]> paths else paths
            | Some _ => paths
            end)
  end.
Definition validateOutputFileContracts (nodePath : string) (ofs : OutputFiles) : list Diagnostic :=
  checkOutputFiles nodePath ofs ∅.

Definition validateWorkflowInputFiles : list Diagnostic :=
  flat_map (λ kc : string * ArtifactContract,
              let path := "input_files." +:+ kc.1 in
              if negb (matchesName true kc.1)
              then errf path "AWF1050" (EmText ("workflow input_files." +:+ kc.1 +:+ ": name must match " +:+ stepIDPattern))
              else validateArtifactContractMetadata path "AWF1050" path path kc.2)
    (sorted_entries (wfInputFiles wf)).

Definition validateOutputArtifact (nodePath : string) (s : AgentStep) : list Diagnostic :=
  if String.eqb (asOutputArtifact s) "" then []
  else
    when (negb (matchesName true (asOutputArtifact s)))
      (errf nodePath "AWF3014" (EmText ("output_artifact: name must match " +:+ stepIDPattern)))
    ++ when (negb (bool_decide (asOutputFiles s = [])))
         (errf nodePath "AWF3014" (EmText "output_artifact and output_files are mutually exclusive on the same step"))
    ++ when (negb (bool_decide (is_Some (asOutputSchema s))))
         (errf nodePath "AWF3014" (EmText "output_artifact requires output_schema (the artifact is the serialized typed output)")).

Definition validateOutputFiles : list Diagnostic :=
  validateWorkflowInputFiles
  ++ flat_map (λ np : Node * string,
                 match np.1 with
                 | NCode s => validateOutputFileContracts np.2 (csOutputFiles s)
                 | NAgent s => validateOutputFileContracts np.2 (asOutputFiles s) ++ validateOutputArtifact np.2 s
                 | NMap h _ => match mpReduce h with
                               | Some r => validateOutputFileContracts (np.2 +:+ ".reduce") (rdOutputFiles r)
                               | None => []
                               end
                 | _ => []
                 end) (WalkNodes (wfGraph wf) "").
End contracts.

(** ** Calls *)

Definition schemaType (schema : option JSONSchema) : string :=
  match (s ← schema; entry_get "type" s) with Some (VString t) => t | _ => "" end.
Definition schemaRequired (schema : option JSONSchema) : list string :=
  match (s ← schema; entry_get "required" s) with
  | Some (VSlice raw) => sort_strings (omap (λ v, match v with VString s => Some s | _ => None end) raw)
  | _ => []
  end.

(** The decoder keeps numbers as text; a template value is a JSON text, so it always decodes. *)
Definition decodeStaticTemplateValue (raw : json) : value := useNumber raw.
Definition isTemplatedString (v : value) : bool :=
  match v with VString s => strContains s "{{" || strContains s "}}" | _ => false end.
Definition staticValueMatchesSchemaType (v prop : value) : bool :=
  match prop with
  | VMap spec =>
      let t := match entry_get "type" spec with Some (VString t) => t | _ => "" end in
      if String.eqb t "string" then match v with VString _ => true | _ => false end
      else if String.eqb t "number" then match v with VNumber _ => true | _ => false end
      else if String.eqb t "integer" then match v with VNumber n => bool_decide (is_Some (ParseInt n)) | _ => false end
      else if String.eqb t "boolean" then match v with VBool _ => true | _ => false end
      else if String.eqb t "array" then match v with VSlice _ => true | _ => false end
      else if String.eqb t "object" then match v with VMap _ => true | _ => false end
      else if String.eqb t "null" then match v with VNil => true | _ => false end
      else true
  | _ => true
  end.

(** One input of a call against the child's input schema. *)
Definition checkCallInput (inputPath : string) (schema : JSONSchema) (kj : string * json) : list Diagnostic :=
  let path := inputPath +:+ "." +:+ kj.1 in
  match propertyOf schema kj.1 with
  | None => match entry_get "additionalProperties" schema with
            | Some (VBool false) =>
                errf path "AWF1047" (catf "%s: child workflow input schema does not declare %q" "AWF1047" [kj.1])
            | _ => []
            end
  | Some prop =>
      let v := decodeStaticTemplateValue kj.2 in
      when (negb (isTemplatedString v) && negb (staticValueMatchesSchemaType v prop))
        (errf path "AWF1047" (catf "%s: input %q has incompatible static JSON type" "AWF1047" [kj.1]))
  end.
Definition validateCallInputContract (nodePath : string) (input : gmap string json) (schema : option JSONSchema)
    : list Diagnostic :=
  let inputPath := nodePath +:+ ".input" in
  match schema with
  | None => when (negb (bool_decide (input = ∅)))
              (errf inputPath "AWF1047" (EmText (catalog "AWF1047" +:+ ": child workflow declares no input schema")))
  | Some s =>
      if negb (String.eqb (schemaType schema) "") && negb (String.eqb (schemaType schema) "object")
      then errf inputPath "AWF1047" (EmText (catalog "AWF1047" +:+ ": child workflow input schema must describe an object"))
      else flat_map (λ name, when (negb (bool_decide (is_Some (input !! name))))
                               (errf inputPath "AWF1047" (catf "%s: missing required input %q" "AWF1047" [name])))
             (schemaRequired schema)
           ++ flat_map (checkCallInput inputPath s) (sorted_entries input)
  end.

Section calls.
Variable ld : LoadedDefinition.
Variable moduleID : string.
Variable wf : Workflow.
Let producers := moduleProducers ld moduleID wf.
Let order := nodeOrder (wfGraph wf).
Let outFiles := outputFilesByStepIDForModule ld moduleID wf.
Let maps := mapsByPath (wfGraph wf).

Definition validateCallInputFiles (nodePath : string) (inputFiles : gmap string string) (childInputFiles : WorkflowInputFiles)
    : list Diagnostic :=
  let at_ name := nodePath +:+ ".input_files." +:+ name in
  let parent := Module_ ld moduleID in
  let parentWf := m ← parent; lmWorkflow m in
  flat_map (λ kc : string * ArtifactContract,
              when (negb (bool_decide (is_Some (inputFiles !! kc.1))))
                (errf (at_ kc.1) "AWF1051" (catf "%s: missing required input file %q" "AWF1051" [kc.1])))
    (sorted_entries childInputFiles)
  ++ flat_map (λ kv : string * string,
                 let '(name, raw) := kv in
                 when (negb (bool_decide (is_Some (childInputFiles !! name))))
                   (errf (at_ name) "AWF1051" (catf "%s: child workflow input_files does not declare %q" "AWF1051" [name]))
                 ++ validateInputFileRef producers order outFiles maps (at_ name) nodePath ("input_files." +:+ name) raw
                      (default ∅ (wfInputFiles <$> parentWf)) (default ∅ (wfAssets <$> parentWf))
                 ++ match (id ← ParseAssetRef raw; m ← parent; a ← lmAssets m !! id; if laIsDir a then Some id else None) with
                    | Some id => errf (at_ name) "AWF1051"
                                   (catf "%s: asset %s is a directory; call input_files require a file artifact" "AWF1051" [id])
                    | None => []
                    end)
       (sorted_entries inputFiles).

(** The findings of a pass over fresh references. *)
Definition findings (p : pass Referenced) : list Diagnostic := (p ∅).1.

Definition checkCall (np : Node * string) : list Diagnostic :=
  match np.1 with
  | NCall s =>
      (if String.eqb (caCall s) "" then errf np.2 "AWF1046" (EmText (catalog "AWF1046" +:+ ": empty call target"))
       else match callTargets ld moduleID !! caCall s with
            | None => errf np.2 "AWF1046" (catf "%s: %q" "AWF1046" [caCall s])
            | Some _ =>
                match (child ← callTargetModule ld moduleID (caCall s); lmWorkflow child) with
                | Some child =>
                    validateCallInputContract np.2 (caInput s) (wfInputSchema child)
                    ++ validateCallInputFiles np.2 (caInputFiles s) (wfInputFiles child)
                | None => []
                end
            end)
      ++ findings (validateTemplateValueRefs producers maps "AWF1047" (np.2 +:+ ".input") (caInput s))
  | _ => []
  end.
Definition validateCalls : list Diagnostic := flat_map checkCall (WalkNodes (wfGraph wf) "").

(** ** Exports *)

(** The strings inside a value. *)
Fixpoint valueStrings (v : value) : list string :=
  match v with
  | VString s => [s]
  | VSlice l => flat_map valueStrings l
  | VMap m => flat_map (λ kv : string * value, valueStrings kv.2) m
  | _ => []
  end.
(** The references in the slots of a template that are well formed. *)
Definition slotRefs (src : string) : list Ref :=
  match Slots src with
  | Err _ => []
  | Ok slots => omap (λ sl, let inner := TrimSpace (slInner sl) in
                            if String.eqb inner "" then None
                            else match ParseRef inner with Ok r => Some r | Err _ => None end) slots
  end.
Definition stepRefID (r : Ref) : option string :=
  match Segments r with
  | root :: idSeg :: _ => if String.eqb (Ident root) "step" && negb (IsIndex idSeg) then Some (Ident idSeg) else None
  | _ => None
  end.
Definition outputStepRefs (tv : json) : list string :=
  match Unmarshal_any tv with
  | None => []
  | Some v =>
      foldl (λ ids id, if mem id ids then ids else ids ++ [id]) []
        (omap stepRefID (flat_map slotRefs (valueStrings v)))
  end.

Definition conditionallyScoped (staticPath : string) : bool :=
  existsb (λ seg, HasPrefix seg "if[" || HasPrefix seg "loop[") (SplitDot staticPath).

Definition conditionalFmt : string :=
  "%s: output %q binds step %q in conditional scope %s; if that branch is not taken the output key is omitted, and if the field is required by output_schema, validation fails".
Definition checkOutput (kj : string * json) : list Diagnostic :=
  let '(key, tv) := kj in
  let path := "outputs." +:+ key in
  match wfOutputSchema wf with
  | Some s => when (negb (bool_decide (is_Some (propertyOf s key))))
                (errf path "AWF1048" (catf "%s: output %q is not declared in output_schema" "AWF1048" [key]))
  | None => []
  end
  ++ findings (validateTemplateValueRefs producers maps "AWF1048" path {[ "" := tv ]})
  ++ flat_map (λ refID, match producers !! refID with
                        | Some p => when (conditionallyScoped (pdPath p))
                                      (warnf path "AWF3012" (catf conditionalFmt "AWF3012" [key; refID; pdPath p]))
                        | None => []
                        end) (outputStepRefs tv).

Definition checkExport (kv : string * string) : list Diagnostic :=
  let path := "output_files." +:+ kv.1 in
  if negb (matchesName true kv.1)
  then errf path "AWF1049" (EmText ("workflow output_files." +:+ kv.1 +:+ ": name must match " +:+ stepIDPattern))
  else reemitDiagnosticsAs (validateNamedArtifactRef producers order outFiles maps path path kv.2) "AWF1049".

Definition validateWorkflowExports : list Diagnostic :=
  when (negb (bool_decide (wfOutputs wf = ∅)) && negb (bool_decide (is_Some (wfOutputSchema wf))))
    (errf "outputs" "AWF1048" (EmText (catalog "AWF1048" +:+ ": outputs require output_schema")))
  ++ flat_map (λ key, when (negb (bool_decide (is_Some (wfOutputs wf !! key))))
                        (errf ("outputs." +:+ key) "AWF1048" (catf "%s: required output %q has no binding" "AWF1048" [key])))
       (schemaRequired (wfOutputSchema wf))
  ++ flat_map checkOutput (sorted_entries (wfOutputs wf))
  ++ flat_map checkExport (sorted_entries (wfArtifactExports wf)).
End calls.
