(* ===== verification/SkillRoute.v ===== *)
(** * skillroute: routing a query to the skills of a corpus

    corpus.go and bm25.go.  A corpus is built from the files of a directory asset, checked, digested and
    indexed; a query selects the best skills.  The tables of package unicode and [math.Log] are
    parameters: no property depends on them. *)

From Stdlib Require Import SpecFloat.
From stdpp Require Import sorting.
From S2P Require Import Prelude GoNum Sort GoJson GoStruct EnginePath GoPath Sha256 Ir IrDiag ValStructural.

(** ** Files *)

Record File : Type := MkFile { flPath : string; flContent : string }.
#[global] Instance File_eq : EqDecision File.
Proof. solve_decision. Defined.

(** The order of [sortedFiles]: by path, then by content. *)
Definition file_leb (a b : File) : bool :=
  if String.eqb (flPath a) (flPath b) then String.leb (flContent a) (flContent b) else String.leb (flPath a) (flPath b).
Definition file_le (a b : File) : Prop := file_leb a b = true.
#[global] Instance file_le_dec a b : Decision (file_le a b).
Proof. unfold file_le. apply _. Defined.

Definition sortedFiles (files : list File) : list File := merge_sort file_le files.

Definition MaxSelectionLimit : Z := 64.
Definition LayoutSkillDirs : string := "skill_dirs".
Definition RouterName : string := "bm25".
Definition RouterVersion : string := "bm25-weighted-v1".
Definition SkillMDWeight : Z := 4.
Definition PathWeight : Z := 2.
Definition TextFileWeight : Z := 1.
Definition TextLikePercent : Z := 85.
(** [bm25K1] and [bm25B], and the constants computed from them, each rounded once to a float64. *)
Definition bm25K1 : f64 := f64_of_dec false 12 (-1).
Definition bm25B : f64 := f64_of_dec false 75 (-2).
Definition one_minus_B : f64 := f64_of_dec false 25 (-2).
Definition K1_plus_1 : f64 := f64_of_dec false 22 (-1).
Definition RouterParams : gmap string f64 := list_to_map
  [("k1", bm25K1); ("b", bm25B); ("skill_md_weight", f64_of_Z SkillMDWeight); ("path_weight", f64_of_Z PathWeight);
   ("text_file_weight", f64_of_Z TextFileWeight); ("text_like_percent", f64_of_Z TextLikePercent)].

(** ** ValidateFiles *)

Inductive IssueKind : Type := IssueInvalidPath | IssueRootFile | IssueInvalidSkillID | IssueMissingSkillMD.
Record Issue : Type := MkIssue { isKind : IssueKind; isPath : string; isSkillID : string; isMessage : string }.

(** [strings.Cut] at a slash. *)
Definition cutSlash (p : string) : option (string * string) :=
  match strIndex p "/" with Some i => Some (stake i p, sdrop (S i) p) | None => None end.
Definition skillOf (p : string) : string := default p (fst <$> cutSlash p).

Definition validManifestPath (p : string) : bool :=
  negb (String.eqb p "" || String.eqb p "." || strContains p "\" || strContains p nul || IsAbs p)
  && String.eqb (Clean p) p
  && forallb (λ part, negb (String.eqb part "" || String.eqb part "." || String.eqb part "..")) (Split "/" p).

Definition reservedSkillIDs : list string :=
  ["generate"; "evaluate"; "until"; "then"; "else"; "body"; "do"; "catch"; "finally"].
(** A byte above 127 is part of a rune above 127, which is refused. *)
Definition ValidID (id : string) : bool := negb (mem id reservedSkillIDs) && matchesName true id.

(** What is wrong with one file, if anything. *)
Definition fileIssue (f : File) : option Issue :=
  let p := flPath f in
  if negb (validManifestPath p)
  then Some (MkIssue IssueInvalidPath p "" ("path " +:+ quote p +:+ " must be a clean relative forward-slash path"))
  else match cutSlash p with
       | None => Some (MkIssue IssueRootFile p ""
                         ("path " +:+ quote p +:+ " is at corpus root; files must live under a skill directory"))
       | Some (skillID, _) =>
           if ValidID skillID then None
           else Some (MkIssue IssueInvalidSkillID p skillID ("skill id " +:+ quote skillID +:+ " is not a valid AWF-style identifier"))
       end.

Definition isSkillMD (p : string) : bool := match cutSlash p with Some (_, rest) => String.eqb rest "SKILL.md" | None => false end.

(** The skills of the files that have no issue, each once, in order. *)
Definition skillIDsOf (files : list File) : list string := sort_strings (remove_dups (map (skillOf ∘ flPath) files)).
Definition goodFiles (files : list File) : list File :=
  List.filter (λ f, match fileIssue f with None => true | Some _ => false end) files.

Definition ValidateFiles (files : list File) : list Issue :=
  let sorted := sortedFiles files in
  let good := goodFiles sorted in
  omap fileIssue sorted
  ++ omap (λ id, if existsb (λ f, String.eqb (skillOf (flPath f)) id && isSkillMD (flPath f)) good then None
                 else Some (MkIssue IssueMissingSkillMD id id ("skill " +:+ quote id +:+ " is missing SKILL.md")))
       (skillIDsOf good).

(** ** The digest of a corpus *)

Definition nl : string := String (ascii_of_nat 10) "".
Definition hashLine (s : string) : string := s +:+ nl.
Definition hashFile (f : File) : string :=
  hashLine "file" +:+ hashLine (Itoa (Z.of_nat (slen (flPath f)))) +:+ hashLine (flPath f)
  +:+ hashLine (Itoa (Z.of_nat (slen (flContent f)))) +:+ hashLine (flContent f).
Definition hashSkill (s : string * list File) : string :=
  hashLine "skill" +:+ hashLine (Itoa (Z.of_nat (slen s.1))) +:+ hashLine s.1 +:+ concat_str (map hashFile s.2).
Definition skills_stream (skills : list (string * list File)) : string :=
  hashLine "skillroute-corpus-v1" +:+ concat_str (map hashSkill skills).
Definition digestSkills (skills : list (string * list File)) : string :=
  "sha256:" +:+ EncodeToString (Sum256 (skills_stream skills)).

(** ** Tokens *)

(** The tables of package unicode. *)
Class Unicode : Type := {
  IsLetter : Z → bool; IsDigit : Z → bool; IsPrint : Z → bool; IsSpace : Z → bool; ToLower : Z → Z }.

(** The rune of a valid sequence of [n] bytes at the start of [s]. *)
Definition runeAt (n : nat) (s : string) : Z :=
  let b i := match sget s i with Some c => Z.of_nat (nat_of_ascii c) | None => 0%Z end in
  match n with
  | 1%nat => b 0%nat
  | 2%nat => ((b 0%nat - 192) * 64 + (b 1%nat - 128))%Z
  | 3%nat => ((b 0%nat - 224) * 4096 + (b 1%nat - 128) * 64 + (b 2%nat - 128))%Z
  | _ => ((b 0%nat - 240) * 262144 + (b 1%nat - 128) * 4096 + (b 2%nat - 128) * 64 + (b 3%nat - 128))%Z
  end.
(** The runes a [range] over [s] visits: every step takes a byte at least. *)
Fixpoint runesFrom (fuel : nat) (s : string) : list Z :=
  match fuel, s with
  | O, _ | _, "" => []
  | S fuel, String _ rest =>
      match utf8_span s with
      | Some n => runeAt n s :: runesFrom fuel (sdrop n s)
      | None => replacement :: runesFrom fuel rest
      end
  end.
Definition runes (s : string) : list Z := runesFrom (slen s) s.

Section tokens.
Context `{Unicode}.

(** [cur] is the builder's content. *)
Fixpoint tokensFrom (rs : list Z) (cur : string) : list string :=
  match rs with
  | [] => if String.eqb cur "" then [] else [cur]
  | r :: rs =>
      if IsLetter r || IsDigit r then tokensFrom rs (cur +:+ utf8_encode (ToLower r))
      else (if String.eqb cur "" then [] else [cur]) ++ tokensFrom rs ""
  end.
Definition tokenize (s : string) : list string := tokensFrom (runes s) "".

Definition uniqueTokens (tokens : list string) : list string :=
  foldl (λ out t, if mem t out then out else out ++ [t]) [] tokens.

Definition textLike (content : string) : bool :=
  if negb (utf8_valid content) || strContains content nul then false
  else if String.eqb content "" then true
  else
    let rs := runes content in
    let good := Z.of_nat (length (List.filter (λ r, IsPrint r || IsSpace r) rs)) in
    (Z.of_nat (length rs) * TextLikePercent <=? good * 100)%Z.

(** *** Weighted terms *)

Definition addWeightedTokens (acc : gmap string Z * Z) (tokens : list string) (weight : Z) : gmap string Z * Z :=
  if (weight <=? 0)%Z then acc
  else foldl (λ '(terms, len) tok, (<[tok := (default 0 (terms !! tok) + weight)%Z]> terms, (len + weight)%Z)) acc tokens.
Definition weightedTerms (files : list File) : gmap string Z * Z :=
  foldl (λ acc f,
           let acc := addWeightedTokens acc (tokenize (flPath f)) PathWeight in
           if isSkillMD (flPath f) then addWeightedTokens acc (tokenize (flContent f)) SkillMDWeight
           else if textLike (flContent f) then addWeightedTokens acc (tokenize (flContent f)) TextFileWeight
           else acc) (∅, 0%Z) files.
End tokens.

(** ** The corpus *)

Record Skill : Type := MkSkill { skillID : string; skillFiles : list File; tokenFreq : gmap string Z; tokenLength : Z }.
Record Corpus : Type := MkCorpus { cpSkills : list Skill; cpDigest : string; documentFreq : gmap string Z; avgDocLen : f64 }.

Definition f64_add : f64 → f64 → f64 := SFadd 53 1024.
Definition f64_sub : f64 → f64 → f64 := SFsub 53 1024.

Section corpus.
Context `{Unicode}.

(** The code sorts the files of a skill by path once more: they come sorted, and the sort can only
    exchange files of one path. *)
Definition NewCorpus (files : list File) : list Issue + Corpus :=
  match ValidateFiles files with
  | _ :: _ as issues => inl issues
  | [] =>
      let sorted := sortedFiles files in
      let skills := map (λ id, let fs := List.filter (λ f, String.eqb (skillOf (flPath f)) id) sorted in
                               let '(tf, len) := weightedTerms fs in MkSkill id fs tf len) (skillIDsOf sorted) in
      let df := foldl (λ m s, foldl (λ m tok, <[tok := (default 0 (m !! tok) + 1)%Z]> m) m (map_to_list (tokenFreq s)).*1) ∅ skills in
      let total := foldl (λ n s, (n + tokenLength s)%Z) 0%Z skills in
      inr (MkCorpus skills (digestSkills (map (λ s, (skillID s, skillFiles s)) skills)) df
             (if bool_decide (skills = []) then f64_of_Z 0 else f64_div (f64_of_Z total) (f64_of_Z (Z.of_nat (length skills)))))
  end.

Definition SkillIDs (c : Corpus) : list string := map skillID (cpSkills c).

(** *** Scores

    Each operation is rounded, as on amd64; the language lets other ports fuse a product and a sum. *)

(** [math.Log]. *)
Variable log : f64 → f64.

Definition f64_half : f64 := f64_of_dec false 5 (-1).
Definition termScore (c : Corpus) (s : Skill) (tok : string) (score : f64) : f64 :=
  let tf := default 0%Z (tokenFreq s !! tok) in
  if (tf =? 0)%Z then score
  else
    let df := f64_of_Z (default 0%Z (documentFreq c !! tok)) in
    let n := f64_of_Z (Z.of_nat (length (cpSkills c))) in
    let idf := log (f64_add (f64_of_Z 1) (f64_div (f64_add (f64_sub n df) f64_half) (f64_add df f64_half))) in
    let freq := f64_of_Z tf in
    let denom := f64_add freq (f64_mul bm25K1 (f64_add one_minus_B
                   (f64_div (f64_mul bm25B (f64_of_Z (tokenLength s))) (avgDocLen c)))) in
    if f64_eqb denom (f64_of_Z 0) then score
    else f64_add score (f64_mul idf (f64_div (f64_mul freq K1_plus_1) denom)).
Definition score (c : Corpus) (s : Skill) (queryTokens : list string) : f64 :=
  if (tokenLength s =? 0)%Z || f64_eqb (avgDocLen c) (f64_of_Z 0) then f64_of_Z 0
  else foldl (λ sc tok, termScore c s tok sc) (f64_of_Z 0) queryTokens.

(** ** Routing *)

Record Selection : Type := MkSelection { selID : string; selScore : f64 }.

(** [score > 0], not NaN, not infinite. *)
Definition positiveFinite (x : f64) : bool := match x with S754_finite false _ _ => true | _ => false end.

(** The order of [Route]: the higher score, then the smaller id. *)
Definition selection_leb (a b : Selection) : bool :=
  if f64_eqb (selScore a) (selScore b) then String.leb (selID a) (selID b) else f64_ltb (selScore b) (selScore a).

(** The skills that match at all. *)
Definition candidates (c : Corpus) (query : string) : list Selection :=
  List.filter (λ s, positiveFinite (selScore s))
    (map (λ s, MkSelection (skillID s) (score c s (uniqueTokens (tokenize query)))) (cpSkills c)).
Definition Route (c : Corpus) (query : string) (limit : Z) : list Selection :=
  if (limit <=? 0)%Z then []
  else if bool_decide (uniqueTokens (tokenize query) = []) then []
  else take (Z.to_nat limit) (sort_by selection_leb (candidates c query)).
End corpus.

(** [path.Join] of several elements. *)
Definition joinPaths (l : list string) : string :=
  match List.filter (λ s, negb (String.eqb s "")) l with [] => "" | l => Clean (Join "/" l) end.

Definition path_le (a b : File) : Prop := string_le (flPath a) (flPath b).
#[global] Instance path_le_dec a b : Decision (path_le a b).
Proof. unfold path_le, string_le. apply _. Defined.

(** [StageFiles]: the files of a skill under [into]. *)
Definition StageFiles (c : Corpus) (id into : string) : option (list File) :=
  s ← List.find (λ s, String.eqb (skillID s) id) (cpSkills c);
  Some (merge_sort path_le
          (map (λ f, MkFile (joinPaths [into; id; TrimPrefix (flPath f) (id +:+ "/")]) (flContent f)) (skillFiles s))).

(** ** Lemmas *)

(** *** The order of files *)

#[global] Instance file_le_trans : Transitive file_le.
Proof.
  intros a b c. unfold file_le, file_leb. intros H1 H2.
  destruct (String.eqb_spec (flPath a) (flPath b)) as [E1|N1], (String.eqb_spec (flPath b) (flPath c)) as [E2|N2].
  - rewrite E1, E2, String.eqb_refl. exact (string_le_trans _ _ _ H1 H2).
  - rewrite E1. by apply String.eqb_neq in N2 as ->.
  - rewrite <- E2. by apply String.eqb_neq in N1 as ->.
  - pose proof (string_le_trans _ _ _ H1 H2) as H. destruct (String.eqb_spec (flPath a) (flPath c)) as [E|N]; [|done].
    rewrite <- E in H2. destruct N1. by apply (anti_symm string_le).
Qed.
#[global] Instance file_le_antisym : AntiSymm eq file_le.
Proof.
  intros [p x] [q y]. unfold file_le, file_leb. cbn. rewrite (String.eqb_sym q p). intros H1 H2.
  destruct (String.eqb_spec p q) as [->|N]; [f_equal; by apply (anti_symm string_le)|].
  destruct N. by apply (anti_symm string_le).
Qed.
#[global] Instance file_le_total : Total file_le.
Proof.
  intros a b. unfold file_le, file_leb. rewrite (String.eqb_sym (flPath b)).
  destruct (String.eqb_spec (flPath a) (flPath b)); apply String.leb_total.
Qed.

Lemma sortedFiles_perm files files' : files ≡ₚ files' → sortedFiles files = sortedFiles files'.
Proof.
  intros H. apply (StronglySorted_unique file_le); [by apply StronglySorted_merge_sort; apply _..|].
  unfold sortedFiles. by rewrite !merge_sort_Permutation.
Qed.

(** *** The order of selections *)

Lemma pos_compare m e m' e' :
  SFcompare (S754_finite false m e) (S754_finite false m' e') =
  Some (match (e ?= e')%Z with Eq => (m ?= m')%positive | c => c end).
Proof. cbn. by destruct (e ?= e')%Z. Qed.

Lemma selection_trans a b c :
  positiveFinite (selScore a) = true → positiveFinite (selScore b) = true → positiveFinite (selScore c) = true →
  selection_leb a b = true → selection_leb b c = true → selection_leb a c = true.
Proof.
  unfold selection_leb, f64_eqb, f64_ltb, SFeqb, SFltb. destruct a as [i [| | |[] m e]], b as [j [| | |[] m' e']], c as [k [| | |[] m'' e'']];
    try done; cbn [selScore selID]; intros _ _ _. rewrite !pos_compare.
  destruct (Z.compare_spec e e'), (Z.compare_spec e' e''), (Z.compare_spec e e''), (Z.compare_spec e' e), (Z.compare_spec e'' e'),
    (Z.compare_spec e'' e); try lia; try done;
  destruct (Pos.compare_spec m m'), (Pos.compare_spec m' m''), (Pos.compare_spec m m''), (Pos.compare_spec m' m), (Pos.compare_spec m'' m'),
    (Pos.compare_spec m'' m); try lia; try done. apply string_le_trans.
Qed.

Lemma selection_total a b :
  positiveFinite (selScore a) = true → positiveFinite (selScore b) = true → selection_leb a b = true ∨ selection_leb b a = true.
Proof.
  unfold selection_leb, f64_eqb, f64_ltb, SFeqb, SFltb. destruct a as [i [| | |[] m e]], b as [j [| | |[] m' e']];
    try done; cbn [selScore selID]; intros _ _. rewrite !pos_compare.
  destruct (Z.compare_spec e e'), (Z.compare_spec e' e); try lia; auto.
  destruct (Pos.compare_spec m m'), (Pos.compare_spec m' m); try lia; auto. apply String.leb_total.
Qed.

(** *** The hashed stream *)

Lemma hashLine_inj s t r r' : lacks (ascii_of_nat 10) s = true → lacks (ascii_of_nat 10) t = true →
  hashLine s +:+ r = hashLine t +:+ r' → s = t ∧ r = r'.
Proof.
  intros Hs Ht. unfold hashLine, nl. rewrite <- !sapp_assoc. cbn [String.append].
  apply (lacks_split (ascii_of_nat 10)); done.
Qed.
Lemma lacks_nl_Itoa n : lacks (ascii_of_nat 10) (Itoa n) = true.
Proof. by apply lacks_Itoa. Qed.

(** A length line and the bytes it counts. *)
Lemma hashCounted_inj s t r r' :
  hashLine (Itoa (Z.of_nat (slen s))) +:+ hashLine s +:+ r = hashLine (Itoa (Z.of_nat (slen t))) +:+ hashLine t +:+ r' →
  s = t ∧ r = r'.
Proof.
  intros H. apply hashLine_inj in H as [HI H]; [|apply lacks_nl_Itoa..]. apply Itoa_inj in HI.
  unfold hashLine in H. rewrite <- !sapp_assoc in H. apply sapp_inj_len in H as [-> H]; [|lia].
  split; [done|]. by apply sapp_inj_l in H.
Qed.
Lemma hashFile_inj f g r r' : hashFile f +:+ r = hashFile g +:+ r' → f = g ∧ r = r'.
Proof.
  unfold hashFile. rewrite <- !sapp_assoc. intros H. apply sapp_inj_l in H.
  apply hashCounted_inj in H as [Hp H]. apply hashCounted_inj in H as [Hc H].
  destruct f, g; cbn in *. by subst.
Qed.

(** What may follow the files of a skill. *)
Definition afterFiles (r : string) : Prop := r = "" ∨ ∃ r', r = hashLine "skill" +:+ r'.
Lemma hashFiles_inj fs gs r r' : afterFiles r → afterFiles r' →
  concat_str (map hashFile fs) +:+ r = concat_str (map hashFile gs) +:+ r' → fs = gs ∧ r = r'.
Proof.
  intros Hr Hr'. revert gs. induction fs as [|f fs IH]; intros [|g gs]; cbn [map concat_str foldr]; intros H.
  - done.
  - exfalso. cbn [String.append] in H. rewrite <- sapp_assoc in H. by destruct Hr as [->|[? ->]].
  - exfalso. cbn [String.append] in H. rewrite <- sapp_assoc in H. by destruct Hr' as [->|[? ->]].
  - fold (concat_str (map hashFile fs)) in H. fold (concat_str (map hashFile gs)) in H.
    rewrite <- !sapp_assoc in H. apply hashFile_inj in H as [-> H]. apply IH in H as [-> ->]. done.
Qed.

Lemma hashSkills_after l : afterFiles (concat_str (map hashSkill l)).
Proof.
  destruct l as [|s l]; [by left|]. right. cbn [map concat_str foldr]. unfold hashSkill at 1.
  rewrite <- !sapp_assoc. eauto.
Qed.
Lemma hashSkills_inj l l' : concat_str (map hashSkill l) = concat_str (map hashSkill l') → l = l'.
Proof.
  revert l'. induction l as [|[i fs] l IH]; intros [|[j gs] l']; cbn [map concat_str foldr]; intros H; try done.
  fold (concat_str (map hashSkill l)) in H. fold (concat_str (map hashSkill l')) in H.
  unfold hashSkill in H at 1. unfold hashSkill in H at 2. cbn [fst snd] in H. rewrite <- !sapp_assoc in H.
  apply sapp_inj_l in H. apply hashCounted_inj in H as [-> H].
  apply hashFiles_inj in H as [-> H]; [|apply hashSkills_after..]. by apply IH in H as ->.
Qed.

(** *** Corpora *)

Lemma skillIDsOf_NoDup files : NoDup (skillIDsOf files).
Proof. unfold skillIDsOf. rewrite sort_strings_perm. apply NoDup_remove_dups. Qed.

Section laws.
Context `{Unicode} (log : f64 → f64).

Lemma NewCorpus_skills files c : NewCorpus files = inr c →
  ValidateFiles files = [] ∧
  cpSkills c = map (λ id, let fs := List.filter (λ f, String.eqb (skillOf (flPath f)) id) (sortedFiles files) in
                          MkSkill id fs (weightedTerms fs).1 (weightedTerms fs).2) (skillIDsOf (sortedFiles files)).
Proof.
  unfold NewCorpus. destruct (ValidateFiles files); [|done]. intros [= <-]. cbn [cpSkills]. split; [done|].
  apply map_ext. intros id. by destruct (weightedTerms _).
Qed.

Lemma NewCorpus_ids files c : NewCorpus files = inr c → SkillIDs c = skillIDsOf (sortedFiles files).
Proof. intros [_ E]%NewCorpus_skills. unfold SkillIDs. by rewrite E, map_map, map_id. Qed.

Lemma candidates_ids c q : map selID (candidates log c q) `sublist_of` SkillIDs c.
Proof.
  unfold candidates, SkillIDs. generalize (cpSkills c) as l. intros l.
  induction l as [|s l IH]; cbn [map List.filter]; [constructor|].
  destruct (positiveFinite _); cbn [map selID]; by constructor.
Qed.

Lemma candidates_positive c q : Forall (λ s, positiveFinite (selScore s) = true) (candidates log c q).
Proof. apply Forall_forall. intros s Hs%list_elem_of_In. by apply filter_In in Hs as [_ Hs]. Qed.

End laws.

(** C25: a corpus does not depend on the order of its files, and its digest determines it: equal hashed
    streams are those of the same skills with the same files and contents. *)
Theorem corpus_canonical :
  (∀ `{Unicode} files files', files ≡ₚ files' → NewCorpus files = NewCorpus files') ∧
  (∀ s s', skills_stream s = skills_stream s' → s = s').
Proof.
  split.
  - intros U files files' Hp. unfold NewCorpus, ValidateFiles. by rewrite (sortedFiles_perm _ _ Hp).
  - intros s s' E. unfold skills_stream in E. apply sapp_inj_l in E. by apply hashSkills_inj.
Qed.

(** A concrete instance: ASCII. *)
Definition asciiUnicode : Unicode := {|
  IsLetter r := ((65 <=? r) && (r <=? 90) || (97 <=? r) && (r <=? 122))%Z;
  IsDigit r := ((48 <=? r) && (r <=? 57))%Z; IsPrint r := ((32 <=? r) && (r <? 127))%Z;
  IsSpace r := ((r =? 32) || (9 <=? r) && (r <=? 13))%Z;
  ToLower r := if ((65 <=? r) && (r <=? 90))%Z then (r + 32)%Z else r |}.
Definition ex_files : list File :=
  [MkFile "go/SKILL.md" "write Go tests"; MkFile "db/SKILL.md" "tune SQL"; MkFile "db/notes.txt" "tests of SQL"].
Definition ex_corpus : Corpus :=
  match @NewCorpus asciiUnicode ex_files with inr c => c | inl _ => MkCorpus [] "" ∅ (f64_of_Z 0) end.

