(* ===== verification/ValRest.v ===== *)
(** * ir: the smaller passes of the validator

    validate_recovery.go, validate_agents.go, validate_skills.go, validate_reduce.go, validate_prune.go,
    validate_tools.go, validate_misplaced_with.go, validate_staging_literal.go, validate_jury.go and the
    output floor of validate_schema.go. *)

From S2P Require Import Prelude GoNum GoJson GoStruct RetryPolicy EnginePath GoPath TmplLexer TmplParser TmplSlots TmplEval.
From S2P Require Import Ir IrShape IrDiag ValStructural ValRefs ValFiles SkillRoute.

(** A pass over every node of the graph. *)
Definition overNodes (wf : Workflow) (f : Node → string → list Diagnostic) : list Diagnostic :=
  flat_map (λ np : Node * string, f np.1 np.2) (WalkNodes (wfGraph wf) "").

(** ** validate_recovery.go *)

Definition checkRecovery (rp : option RetryPolicy) (path : string) : list Diagnostic :=
  match rp with
  | None => []
  | Some rp =>
      when (negb (mem (rpRecovery rp) [""; "continue"; "restart"]))
        (errf path "AWF1064" (EmFmt ("recovery: %q is not a supported strategy (want " +:+ dq +:+ "continue" +:+ dq +:+ ", " +:+
                                     dq +:+ "restart" +:+ dq +:+ ", or unset)") [rpRecovery rp]))
  end.
Definition validateRecovery (wf : Workflow) : list Diagnostic :=
  overNodes wf (λ n nodePath, match n with
                              | NCode s => checkRecovery (csRetry s) (nodePath +:+ ".retry")
                              | NAgent s => checkRecovery (asRetry s) (nodePath +:+ ".retry")
                              | _ => []
                              end)
  ++ flat_map (λ kt : string * Tool, checkRecovery (tiRetry (tlImpl kt.2)) ("tools." +:+ kt.1 +:+ ".impl.retry"))
       (map_to_list (wfTools wf)).

(** ** validate_agents.go *)

Definition checkRoleInputOnly (path src : string) : list Diagnostic :=
  if String.eqb src "" then []
  else match Slots src with
       | Err _ => errf path "AWF1067" (EmText ("role config has a malformed template: " +:+ src))
       | Ok slots =>
           flat_map (λ sl,
             let inner := TrimSpace (slInner sl) in
             let invalid := errf path "AWF1067" (EmText ("role config has an invalid reference {{ " +:+ inner +:+ " }}")) in
             match ParseRef inner with
             | Err _ => invalid
             | Ok ref =>
                 match Segments ref with
                 | [] => invalid
                 | seg :: _ => when (negb (String.eqb (Ident seg) "input"))
                                 (errf path "AWF1067" (EmText ("role config may reference {{ input.* }} only; found {{ " +:+ inner +:+ " }}")))
                 end
             end) slots
       end.
Definition rejectTemplateInString (path s : string) : list Diagnostic :=
  when (match Slots s with Err _ => true | Ok slots => negb (Nat.eqb (length slots) 0) end)
    (errf path "AWF1067" (EmText "role config has a template in a nested position or map key (never substituted); allowed only in model, system_prompt, and top-level string with: values")).
Fixpoint rejectAnyRoleTemplate (path : string) (v : value) : list Diagnostic :=
  match v with
  | VString s => rejectTemplateInString path s
  | VMap m =>
      flat_map (λ kd : string * list Diagnostic, kd.2)
        (key_sort (map (λ kv : string * value,
                          let p := path +:+ "." +:+ kv.1 in
                          (kv.1, rejectTemplateInString p kv.1 ++ rejectAnyRoleTemplate p kv.2)) m))
  | VSlice l =>
      (fix go l i := match l with
                     | [] => []
                     | e :: l => rejectAnyRoleTemplate (path +:+ "[" +:+ Itoa i +:+ "]") e ++ go l (i + 1)%Z
                     end) l 0%Z
  | _ => []
  end.
Definition checkRoleTemplates (rolePath : string) (role : AgentRole) : list Diagnostic :=
  checkRoleInputOnly (rolePath +:+ ".model") (arModel role)
  ++ checkRoleInputOnly (rolePath +:+ ".system_prompt") (arSystemPrompt role)
  ++ flat_map (λ kv : string * value,
                 let p := rolePath +:+ ".with." +:+ kv.1 in
                 rejectTemplateInString p kv.1
                 ++ match kv.2 with VString s => checkRoleInputOnly p s | v => rejectAnyRoleTemplate p v end)
       (key_sort (default [] (arWith role))).

Definition checkRole (kr : string * AgentRole) : list Diagnostic :=
  let '(name, role) := kr in
  let rolePath := "agents." +:+ name in
  let uses := TrimSpace (arUses role) in
  let err msg := errf rolePath "AWF1033" (EmText msg) in
  (if String.eqb uses "" then err ("agents: role " +:+ name +:+ " has empty uses: (must name an existing adapter)")
   else when (negb (strContains uses "/"))
          (err ("agents: role " +:+ name +:+ " uses " +:+ uses +:+ "; role uses: must name a <vendor>/<name> adapter ref")))
  ++ when (strContains name "/")
       (err ("agents: role name " +:+ name +:+ " must not contain '/' (the <vendor>/<name> form is reserved for adapter refs)"))
  ++ checkRoleTemplates rolePath role.
Definition validateAgents (wf : Workflow) : list Diagnostic :=
  flat_map checkRole (map_to_list (wfAgents wf))
  ++ overNodes wf (λ n nodePath, match n with
                                 | NAgent s =>
                                     when (negb (bool_decide (is_Some (RoleByName wf (asUses s)))) && negb (strContains (asUses s) "/"))
                                       (errf nodePath "AWF1034" (EmText ("uses: " +:+ asUses s +:+ " is neither a declared agents: role nor a <vendor>/<name> adapter ref")))
                                 | _ => []
                                 end).

(** ** validate_skills.go *)

Definition checkSkillCorpusID (id corpusPath : string) : list Diagnostic :=
  when (negb (matchesName true id)) (errf corpusPath "AWF1040" (catf "%s: id=%q (must match %s)" "AWF1040" [id; stepIDPattern]))
  ++ when (mem id reservedStepIDTokens) (errf corpusPath "AWF1040" (catf "%s: id=%q collides with reserved control keyword" "AWF1040" [id])).
Definition issueCode (k : IssueKind) : string :=
  match k with IssueRootFile | IssueMissingSkillMD => "AWF3010" | IssueInvalidPath | IssueInvalidSkillID => "AWF3011" end.
Definition validateLoadedSkillCorpus (corpusPath : string) (asset : LoadedAsset) : list Diagnostic :=
  flat_map (λ issue, errf corpusPath (issueCode (isKind issue)) (catf "%s: %s" (issueCode (isKind issue)) [isMessage issue]))
    (ValidateFiles (map (λ f, MkFile (lfPath f) (lfBytes f)) (laFiles asset))).

Definition checkSkillCorpus (assets : gmap string LoadedAsset) (kc : string * SkillCorpus) : list Diagnostic :=
  let '(id, corpus) := kc in
  let corpusPath := "skills." +:+ id in
  let asset := ParseAssetRef (skcFrom corpus) in
  checkSkillCorpusID id corpusPath
  ++ when (negb (bool_decide (is_Some asset)))
       (errf corpusPath "AWF1040" (catf "%s: from=%q must be a static asset.<id> reference" "AWF1040" [skcFrom corpus]))
  ++ when (negb (String.eqb (skcLayout corpus) LayoutSkillDirs) || negb (String.eqb (skcRouter corpus) RouterName))
       (errf corpusPath "AWF1042" (catf "%s: layout=%q router=%q" "AWF1042" [skcLayout corpus; skcRouter corpus]))
  ++ match asset with
     | None => []
     | Some assetID =>
         match assets !! assetID with
         | Some a => if laIsDir a then validateLoadedSkillCorpus corpusPath a
                     else errf corpusPath "AWF1041" (catf "%s: %s" "AWF1041" [skcFrom corpus])
         | None => errf corpusPath "AWF1041" (catf "%s: %s" "AWF1041" [skcFrom corpus])
         end
     end.

Definition intoOK (into : string) : bool := absClean into && negb (String.eqb into "/").
Definition validateSkillRoutingInputFileOverlap (nodePath into : string) (inputFiles : gmap string string) : list Diagnostic :=
  flat_map (λ kv : string * string,
              let dst := kv.1 in
              when (absClean dst && (String.eqb dst into || inputFileDestinationAncestor dst into || inputFileDestinationAncestor into dst))
                (errf nodePath "AWF1045" (catf "%s: skills.into %s overlaps input_files destination %s" "AWF1045" [into; dst])))
    (map_to_list inputFiles).
Definition checkSkillRouting (wf : Workflow) (nodePath : string) (step : AgentStep) (routing : StepSkillRouting) : list Diagnostic :=
  when (negb (bool_decide (is_Some (wfSkills wf !! srtFrom routing)))) (errf nodePath "AWF1044" (catf "%s: %q" "AWF1044" [srtFrom routing]))
  ++ when (String.eqb (TrimSpace (srtQuery routing)) "") (errf nodePath "AWF1043" (catf "%s: query must be non-empty" "AWF1043" []))
  ++ when ((srtLimit routing <=? 0)%Z || (MaxSelectionLimit <? srtLimit routing)%Z)
       (errf nodePath "AWF1043" (catf "%s: limit must be between 1 and %d" "AWF1043" [Itoa MaxSelectionLimit]))
  ++ when (negb (intoOK (srtInto routing)))
       (errf nodePath "AWF1043" (catf "%s: into=%q must be an absolute, clean, non-root path" "AWF1043" [srtInto routing]))
  ++ when (String.eqb (TrimSpace (asContainer step)) "")
       (errf nodePath "AWF1045" (catf "%s: container is required when skills are staged" "AWF1045" []))
  ++ when (intoOK (srtInto routing)) (validateSkillRoutingInputFileOverlap nodePath (srtInto routing) (asInputFiles step)).
Definition validateSkills (ld : LoadedDefinition) (wf : Workflow) : list Diagnostic :=
  flat_map (checkSkillCorpus (ldAssets ld)) (map_to_list (wfSkills wf))
  ++ overNodes wf (λ n nodePath, match n with
                                 | NAgent s => match asSkills s with Some r => checkSkillRouting wf nodePath s r | None => [] end
                                 | _ => []
                                 end).

(** ** validate_reduce.go *)

(** Segments of a path that start with a keyword. *)
Definition countSegs (prefix path : string) : nat := length (List.filter (λ seg, HasPrefix seg prefix) (SplitDot path)).
Definition checkReduceProducerNesting (path : string) (schema : option JSONSchema) (files : OutputFiles) (rp : string)
    : list Diagnostic :=
  if negb (bool_decide (is_Some schema)) && bool_decide (files = []) then []
  else
    let gates := countSegs "gate[" path in
    let loops := countSegs "loop[" path in
    when ((0 <? loops)%nat || (1 <? gates)%nat)
      (errf rp "AWF5007" (EmText ("producer " +:+ path +:+ " is under " +:+ Itoa (Z.of_nat loops) +:+ " loop / "
                                  +:+ Itoa (Z.of_nat gates) +:+ " gate ancestors"))).
Definition bodyDeclaresField (body : NodeList) (field : string) : bool :=
  existsb (λ np : Node * string, match np.1 with
                                 | NCode s => declaresField (csOutputSchema s) field
                                 | NAgent s => declaresField (asOutputSchema s) field
                                 | _ => false
                                 end) (WalkNodes body "").

Definition validateMapReduce (wf : Workflow) (owners : Owners) (scoped : Scoped) (h : MapHead) (body : NodeList) (nodePath : string)
    : list Diagnostic :=
  match mpReduce h with
  | None => []
  | Some r =>
      let rp := nodePath +:+ ".reduce" in
      let hasQuorum := IsQuorum (Some r) in
      let hasRun := negb (String.eqb (TrimSpace (rdRun r)) "") in
      let nesting :=
        flat_map (λ np : Node * string, match np.1 with
                                        | NCode s => checkReduceProducerNesting np.2 (csOutputSchema s) (csOutputFiles s) rp
                                        | NAgent s => checkReduceProducerNesting np.2 (asOutputSchema s) (asOutputFiles s) rp
                                        | _ => []
                                        end) (WalkNodes body "") in
      if Bool.eqb hasQuorum hasRun then errf rp "AWF1035" (EmText "reduce: must declare exactly one of run: or quorum:")
      else if hasQuorum then
        if String.eqb (TrimSpace (rdField r)) ""
        then errf rp "AWF1035" (EmText "reduce: quorum requires field: (the per-branch boolean field)")
        else
          when (bool_decide (is_Some (mpMinSuccess h)))
            (errf rp "AWF5006" (EmText "reduce:{quorum} and min_success are mutually exclusive (quorum generalizes min_success)"))
          ++ when (mem (rdField r) QuorumVerdictFields)
               (errf rp "AWF1068" (EmText ("quorum field: " +:+ rdField r +:+ " is a reserved verdict key (votes, agree, votes_detail); rename the counted field")))
          ++ when (negb (bodyDeclaresField body (rdField r)))
               (errf rp "AWF5006" (EmText ("reduce: quorum field: " +:+ rdField r +:+ " is not declared in any body step's output_schema")))
          ++ nesting
      else if String.eqb (TrimSpace (rdContainer r)) ""
      then errf rp "AWF1035" (EmText "reduce: run: reducer requires container:")
      else checkContainerRefInScope (rdContainer r) rp wf scoped owners true ++ nesting
  end.

Section walk.
Variables (wf : Workflow) (owners : Owners).
Fixpoint walkReduce (scoped : Scoped) (parent : string) (n : Node) (i : Z) {struct n} : list Diagnostic :=
  let sub scoped parent l := walk_nodes (walkReduce scoped parent) l in
  match n with
  | NIf _ then_ else_ =>
      sub scoped (ChildPath parent "if" i "then") then_ ++ sub scoped (ChildPath parent "if" i "else") else_
  | NLoop _ _ body => sub scoped (ChildPath parent "loop" i "body") body
  | NTry do_ catch finally =>
      sub scoped (ChildPath parent "try" i "do") do_ ++ sub scoped (ChildPath parent "try" i "catch") catch
      ++ sub scoped (ChildPath parent "try" i "finally") finally
  | NParallel children => sub scoped (PathFor parent "parallel" "" i) children
  | NGate generate evaluate _ _ =>
      sub scoped (ChildPath parent "gate" i "generate") generate ++ sub scoped (ChildPath parent "gate" i "evaluate") evaluate
  | NMap h body =>
      validateMapReduce wf owners scoped h body (PathFor parent "map" "" i)
      ++ sub scoped (ChildPath parent "map" i "body") body
  | NCompose as_ _ _ body => sub (nextScoped as_ scoped) (ChildPath parent "compose" i "body") body
  | NCode _ | NAgent _ | NSignal _ | NCall _ | NSkip _ | NReact _ => []
  end.
End walk.
Definition validateReduce (wf : Workflow) : list Diagnostic :=
  walk_nodes (walkReduce wf (MapImageTargetOwners wf) ∅ "") (wfGraph wf).

(** ** validate_prune.go *)

Definition lastStepSchema (body : NodeList) : option JSONSchema :=
  match last (default [] body) with
  | Some (NCode s) => csOutputSchema s
  | Some (NAgent s) => asOutputSchema s
  | _ => None
  end.
Definition schemaHasNumericField (schema : option JSONSchema) (field : string) : bool :=
  match (s ← schema; propertyOf s field) with
  | Some (VMap spec) =>
      match entry_get "type" spec with Some (VString t) => String.eqb t "number" || String.eqb t "integer" | _ => false end
  | _ => false
  end.
Definition validatePrune (wf : Workflow) : list Diagnostic :=
  overNodes wf (λ n nodePath,
    match n with
    | NMap h body =>
        match mpPrune h with
        | None => []
        | Some pr =>
            let hasStop := negb (String.eqb (TrimSpace (pnStopWhen pr)) "") in
            let hasKeep := bool_decide (is_Some (pnKeep pr)) in
            if String.eqb (pnScore pr) "" || Bool.eqb hasKeep hasStop then errf nodePath "AWF1037" (cat "AWF1037")
            else if match pnKeep pr with Some k => (k <=? 0)%Z | None => false end then errf nodePath "AWF1037" (cat "AWF1037")
            else when (negb (schemaHasNumericField (lastStepSchema body) (pnScore pr))) (errf nodePath "AWF5008" (cat "AWF5008"))
        end
    | _ => []
    end).

(** ** validate_tools.go *)

Definition withString (w : RawConfig) (key : string) : string :=
  match entry_get key (default [] w) with Some (VString s) => s | _ => "" end.
Definition checkReact (wf : Workflow) (path : string) (r : React) : list Diagnostic :=
  let tools := default [] (reTools r) in
  when (bool_decide (tools = [])) (errf path "AWF1052" (cat "AWF1052"))
  ++ flat_map (λ tn, when (negb (bool_decide (is_Some (wfTools wf !! tn)))) (errf path "AWF1053" (cat "AWF1053"))) tools
  ++ when (reMaxTurns r <? 0)%Z (errf path "AWF1054" (cat "AWF1054"))
  ++ match (s ← reOutputSchema r; properties s) with
     | Some props => flat_map (λ reserved, when (bool_decide (is_Some (entry_get reserved props))) (errf path "AWF1055" (cat "AWF1055")))
                       reservedReactOutputFields
     | None => []
     end
  ++ when (negb (String.eqb (withString (reWith r) "uses") "awf/llm")) (errf path "AWF1057" (cat "AWF1057"))
  ++ when (String.eqb (withString (reWith r) "structured_output") "ollama_format") (errf path "AWF1058" (cat "AWF1058")).
Definition validateTools (wf : Workflow) : list Diagnostic :=
  flat_map (λ kt : string * Tool,
              let ctr := tiContainer (tlImpl kt.2) in
              when (String.eqb ctr "" || negb (bool_decide (is_Some (containersOf wf !! ctr))))
                (errf ("tools." +:+ kt.1) "AWF1056" (cat "AWF1056"))) (map_to_list (wfTools wf))
  ++ overNodes wf (λ n path, match n with NReact r => checkReact wf path r | _ => [] end).

(** ** validate_misplaced_with.go, validate_staging_literal.go *)

Definition reservedAgentStepKeys : list string :=
  ["id"; "container"; "uses"; "continues"; "output_schema"; "output_files"; "skills"; "input_files"; "timeout";
   "idempotency_key"; "retry"].
Definition validateMisplacedWithKeys (wf : Workflow) : list Diagnostic :=
  overNodes wf (λ n path, match n with
                          | NAgent s => flat_map (λ kv : string * value, when (mem kv.1 reservedAgentStepKeys) (warnf path "AWF1061" (cat "AWF1061")))
                                          (default [] (asWith s))
                          | _ => []
                          end).

Definition validateStagingLiteral (wf : Workflow) : list Diagnostic :=
  overNodes wf (λ n nodePath,
    match n with
    | NCode s => when (strContains (csRun s) "/work/.awf") (warnf (nodePath +:+ ".run") "AWF3015" (cat "AWF3015"))
    | NMap h _ => match mpReduce h with
                  | Some r => when (strContains (rdRun r) "/work/.awf") (warnf (nodePath +:+ ".reduce.run") "AWF3015" (cat "AWF3015"))
                  | None => []
                  end
    | _ => []
    end).

(** ** validate_jury.go *)

Definition sameKeys (a b : list (string * value)) : bool :=
  Nat.eqb (length a) (length b) && forallb (λ kv : string * value, bool_decide (is_Some (entry_get kv.1 b))) a.
Definition uniformKeys (over : list gomap) : bool :=
  match over with
  | first :: ((_ :: _) as rest) => forallb (λ item, sameKeys (default [] first) (default [] item)) rest
  | _ => true
  end.
(** The first boolean property, when no second one follows; an empty name counts as none found. *)
Fixpoint booleanField (l : list (string * value)) (found : string) : option string :=
  match l with
  | [] => if String.eqb found "" then None else Some found
  | (name, VMap m) :: l =>
      match entry_get "type" m with
      | Some (VString t) =>
          if String.eqb t "boolean" then if String.eqb found "" then booleanField l name else None
          else booleanField l found
      | _ => booleanField l found
      end
  | _ :: l => booleanField l found
  end.
(** The author's field, or the only boolean property. *)
Definition JuryField (j : Jury) (schema : option JSONSchema) : option string :=
  if negb (String.eqb (juField j) "") then Some (juField j)
  else booleanField (default [] (s ← schema; properties s)) "".

(** [exempt]: the index that may hold a jury, -1 for none. *)
Fixpoint juryPlacement (exempt : Z) (parent : string) (n : Node) (i : Z) {struct n} : list Diagnostic :=
  let sub exempt parent l := walk_nodes (juryPlacement exempt parent) l in
  match n with
  | NAgent s => when (bool_decide (is_Some (asJury s)) && negb (i =? exempt)%Z)
                  (errf (PathFor parent "" (asID s) i) "AWF1072" (cat "AWF1072"))
  | NIf _ then_ else_ => sub (-1)%Z (ChildPath parent "if" i "then") then_ ++ sub (-1)%Z (ChildPath parent "if" i "else") else_
  | NLoop _ _ body => sub (-1)%Z (ChildPath parent "loop" i "body") body
  | NTry do_ catch finally =>
      sub (-1)%Z (ChildPath parent "try" i "do") do_ ++ sub (-1)%Z (ChildPath parent "try" i "catch") catch
      ++ sub (-1)%Z (ChildPath parent "try" i "finally") finally
  | NParallel children => sub (-1)%Z (PathFor parent "parallel" "" i) children
  | NGate generate evaluate _ _ =>
      sub (-1)%Z (ChildPath parent "gate" i "generate") generate
      ++ sub (Z.of_nat (length (default [] evaluate)) - 1)%Z (ChildPath parent "gate" i "evaluate") evaluate
  | NMap _ body => sub (-1)%Z (ChildPath parent "map" i "body") body
  | NCompose _ _ _ body => sub (-1)%Z (ChildPath parent "compose" i "body") body
  | NCode _ | NSignal _ | NCall _ | NSkip _ | NReact _ => []
  end.
Definition checkJuryPlacement (wf : Workflow) : list Diagnostic := walk_nodes (juryPlacement (-1)%Z "") (wfGraph wf).

Definition ValidateJury (wf : Workflow) : list Diagnostic :=
  overNodes wf (λ n path,
    match n with
    | NAgent s =>
        match asJury s with
        | None => []
        | Some j =>
            if negb (bool_decide (is_Some (asOutputSchema s))) then errf path "AWF1069" (cat "AWF1069")
            else when (negb (uniformKeys (default [] (juOver j)))) (errf path "AWF1070" (cat "AWF1070"))
                 ++ when (negb (bool_decide (is_Some (JuryField j (asOutputSchema s))))) (errf path "AWF1071" (cat "AWF1071"))
        end
    | _ => []
    end)
  ++ checkJuryPlacement wf.

(** ** validate_schema.go: the floor of agent outputs *)

Definition floorForbiddenComposition : list string := ["oneOf"; "anyOf"; "allOf"; "not"].
Definition floorForbiddenRange : list string :=
  ["minimum"; "maximum"; "exclusiveMinimum"; "exclusiveMaximum"; "minLength"; "maxLength"; "minItems"; "maxItems"; "pattern"; "format"].
Definition floorAllowedTypes : list string := ["object"; "array"; "string"; "integer"; "number"; "boolean"].
Definition floorMaxDepth : Z := 10.

Section floor.
Variable m : list (string * value).
Definition hasKey (k : string) : bool := bool_decide (is_Some (entry_get k m)).
Definition typeName : string := match entry_get "type" m with Some (VString t) => t | _ => "" end.

(** What one level of a schema breaks. *)
Definition floorLevel (path : string) (depth : Z) : list Diagnostic :=
  let warn msg := warnf path "AWF2002" msg in
  flat_map (λ k, when (hasKey k) (warn (EmFmt "%s not allowed (forbidden by §7 floor)" [k])))
    (floorForbiddenComposition ++ floorForbiddenRange)
  ++ match entry_get "type" m with
     | Some (VString t) => when (negb (String.eqb t "") && negb (mem t floorAllowedTypes) && negb (hasKey "enum"))
                             (warn (EmFmt "type %q not allowed by §7 floor" [t]))
     | Some (VSlice _) => warn (EmText "type as an array is not allowed by §7 floor (use a single scalar type)")
     | _ => []
     end
  ++ (if String.eqb typeName "object" then
        match entry_get "additionalProperties" m with
        | Some (VBool false) => []
        | Some _ => warn (EmText "additionalProperties must be the literal `false` (at every object level)")
        | None => warn (EmText "additionalProperties must be explicitly false")
        end
        ++ (let req := match entry_get "required" m with
                       | Some (VSlice l) => omap (λ v, match v with VString s => Some s | _ => None end) l
                       | _ => [] end in
            flat_map (λ kv : string * value, when (negb (mem kv.1 req))
                        (warn (EmFmt "property %q must be in required (at every object level)" [kv.1])))
              (default [] (properties m)))
      else [])
  ++ when ((depth =? 0)%Z && negb (String.eqb typeName "object"))
       (warn (EmFmt ("top-level type must be " +:+ dq +:+ "object" +:+ dq +:+ ", got %q") [typeName])).
End floor.

(** [walkFloor], on a schema that is a value; what is not an object is not visited. *)
Fixpoint walkFloor (path : string) (depth : Z) (v : value) {struct v} : list Diagnostic :=
  match v with
  | VMap m =>
      if (floorMaxDepth <? depth)%Z then warnf path "AWF2002" (EmFmt "nesting depth exceeds %d" [Itoa floorMaxDepth])
      else
        floorLevel m path depth
        ++ (fix at_ (l : list (string * value)) : list Diagnostic :=
              match l with
              | [] => []
              | (k, x) :: l' =>
                  if String.eqb k "properties" then
                    match x with
                    | VMap props => flat_map (λ kv : string * value, walkFloor (path +:+ ".properties." +:+ kv.1) (depth + 1)%Z kv.2) props
                    | _ => []
                    end
                  else at_ l'
              end) m
        ++ (fix at_ (l : list (string * value)) : list Diagnostic :=
              match l with
              | [] => []
              | (k, x) :: l' => if String.eqb k "items" then walkFloor (path +:+ ".items") (depth + 1)%Z x else at_ l'
              end) m
  | _ => []
  end.
Definition checkAgentFloor (schema : JSONSchema) (path : string) : list Diagnostic := walkFloor path 0 (VMap schema).

Section schema.
Variable compile : value → option string.
Definition checkSchemaAt (floor : bool) (schema : option JSONSchema) (path : string) : list Diagnostic :=
  match schema with
  | None => []
  | Some s => checkSchemaWellFormed compile s path ++ (if floor then checkAgentFloor s path else [])
  end.
Definition walkSchemas (wf : Workflow) : list Diagnostic :=
  overNodes wf (λ n path,
    let p := path +:+ ".output_schema" in
    match n with
    | NCode s => checkSchemaAt false (csOutputSchema s) p
    | NAgent s => checkSchemaAt true (asOutputSchema s) p
    | NSignal s => checkSchemaAt false (ssOutputSchema s) p
    | NReact r => checkSchemaAt true (reOutputSchema r) p
    | _ => []
    end).
Definition validateSchema (wf : Workflow) : list Diagnostic :=
  checkSchemaAt false (wfInputSchema wf) "input"
  ++ checkSchemaAt false (wfOutputSchema wf) "output_schema"
  ++ flat_map (λ kt : string * Tool, checkSchemaAt true (tlInputSchema kt.2) ("tools." +:+ kt.1 +:+ ".input_schema"))
       (map_to_list (wfTools wf))
  ++ walkSchemas wf.
End schema.
