(* ===== verification/ValContinues.v ===== *)
(** * ir/validate_continues.go: conversations

    The AWF1026–AWF1032 pass over the agent steps that continue another one.  The chain of a step is
    walked over the agent steps of the graph, by id; the fuel of both walks is the number of agent
    steps, which the code has as a bound or as the set of visited ids. *)

From S2P Require Import Prelude GoNum GoJson GoStruct EnginePath GoPath TmplEval Ir IrShape IrDiag ValStructural ValRest.

(** An agent step with its static path and its position in the walk. *)
Record agentEntry : Type := MkAgentEntry { aeStep : AgentStep; aePath : string; aeOrd : Z }.
Fixpoint indexAgents (l : list (Node * string)) (ord : Z) (acc : gmap string agentEntry) : gmap string agentEntry :=
  match l with
  | [] => acc
  | (n, path) :: l =>
      indexAgents l (ord + 1)%Z (match n with NAgent s => <[asID s := MkAgentEntry s path ord]> acc | _ => acc end)
  end.
Definition agentsOf (wf : Workflow) : gmap string agentEntry := indexAgents (WalkNodes (wfGraph wf) "") 0 ∅.

(** ** Paths *)

Definition scopePrefixOf (path : string) : string := default "" (beforeLastDot path).
Definition hasPathPrefix (path prefix : string) : bool :=
  String.eqb prefix "" || String.eqb path prefix || HasPrefix path (prefix +:+ ".").
Definition dominates (tgtPath srcPath : string) (tgtOrd srcOrd : Z) : bool :=
  (tgtOrd <? srcOrd)%Z && hasPathPrefix srcPath (scopePrefixOf tgtPath).

(** The first segments that differ follow a [parallel] segment. *)
Fixpoint divergeUnderParallel (prev : string) (tgt src : list string) : bool :=
  match tgt, src with
  | t :: tgt, s :: src => if String.eqb t s then divergeUnderParallel t tgt src else HasPrefix prev "parallel["
  | _, _ => false
  end.
Definition parallelSiblings (tgtPath srcPath : string) : bool :=
  divergeUnderParallel "" (SplitDot tgtPath) (SplitDot srcPath).

Fixpoint evaluateAfterGate (prev : string) (segs : list string) : bool :=
  match segs with
  | [] => false
  | seg :: segs => (String.eqb seg "evaluate" && HasPrefix prev "gate[") || evaluateAfterGate seg segs
  end.
Definition inEvaluateBlock (path : string) : bool := evaluateAfterGate "" (SplitDot path).

(** [strings.Count] of a substring that cannot overlap itself. *)
Fixpoint countSub (sub s : string) : nat :=
  match s with
  | "" => 0
  | String _ r => ((if HasPrefix s sub then 1 else 0) + countSub sub r)%nat
  end.

(** ** Chains *)

Section chains.
Variable agents : gmap string agentEntry.

(** The ids visited when the chain comes back to one of them. *)
Fixpoint chase (fuel : nat) (cur : string) (visited : gset string) : option (gset string) :=
  match fuel with
  | O => None
  | S fuel =>
      if String.eqb cur "" then None
      else match agents !! cur with
           | None => None
           | Some next =>
               let id := asID (aeStep next) in
               if bool_decide (id ∈ visited) then Some visited
               else chase fuel (asContinues (aeStep next)) ({[ id ]} ∪ visited)
           end
  end.

(** The first walk: AWF1028, once per cycle. *)
Fixpoint checkCycles (l : list (Node * string)) (reported : gset string) : list Diagnostic :=
  match l with
  | [] => []
  | (NAgent s, srcPath) :: l =>
      if String.eqb (asContinues s) "" || bool_decide (asID s ∈ reported) then checkCycles l reported
      else match chase (size agents) (asContinues s) {[ asID s ]} with
           | Some visited => errf srcPath "AWF1028" (cat "AWF1028") ++ checkCycles l (visited ∪ reported)
           | None => checkCycles l reported
           end
  | _ :: l => checkCycles l reported
  end.

Fixpoint chainTouches (fuel : nat) (cur : string) (seen : gset string) : bool :=
  match fuel with
  | O => false
  | S fuel =>
      if String.eqb cur "" then false
      else if bool_decide (cur ∈ seen) then false
      else if inEvaluateBlock (default "" (aePath <$> agents !! cur)) then true
      else match agents !! cur with
           | None => false
           | Some step => chainTouches fuel (asContinues (aeStep step)) ({[ cur ]} ∪ seen)
           end
  end.
(** Each round sees a new id, and an id without a step ends the walk. *)
Definition continuesChainTouchesEvaluate (id : string) : bool := chainTouches (S (S (size agents))) id ∅.

(** ** One link *)

Definition resolvedBaseUses (wf : Workflow) (uses : string) : string :=
  match RoleByName wf uses with
  | Some role => if String.eqb (arUses role) "" then uses else arUses role
  | None => uses
  end.
Definition continuesUsesCompatible (wf : Workflow) (src tgt : AgentStep) (evaluatorSource : bool) : bool :=
  if evaluatorSource then String.eqb (resolvedBaseUses wf (asUses src)) (resolvedBaseUses wf (asUses tgt))
  else String.eqb (asUses src) (asUses tgt).

(** [order] of the source is looked up by its id. *)
Definition checkContinues (wf : Workflow) (as_ : AgentStep) (srcPath : string) : list Diagnostic :=
  if String.eqb (asContinues as_) "" then []
  else
    let evaluatorSource := inEvaluateBlock srcPath in
    let named code := errf srcPath code (catf "%s (continues: %q)" code [asContinues as_]) in
    match agents !! asContinues as_ with
    | None => named "AWF1026"
    | Some tgt =>
        if evaluatorSource && continuesChainTouchesEvaluate (asContinues as_) then named "AWF1030"
        else if parallelSiblings (aePath tgt) srcPath then named "AWF1032"
        else if negb (dominates (aePath tgt) srcPath (aeOrd tgt) (default 0%Z (aeOrd <$> agents !! asID as_))) then named "AWF1027"
        else
          when (1 <? countSub "loop[" (aePath tgt))%nat
            (errf srcPath "AWF1031" (catf "%s (target %q)" "AWF1031" [asContinues as_]))
          ++ when (negb (continuesUsesCompatible wf as_ (aeStep tgt) evaluatorSource))
               (errf srcPath "AWF1029" (catf "%s (this step uses %q, target uses %q)" "AWF1029" [asUses as_; asUses (aeStep tgt)]))
    end.
End chains.

Definition validateContinues (wf : Workflow) : list Diagnostic :=
  let agents := agentsOf wf in
  checkCycles agents (WalkNodes (wfGraph wf) "") ∅
  ++ overNodes wf (λ n srcPath, match n with NAgent s => checkContinues agents wf s srcPath | _ => [] end).
