(* ===== verification/ValLaws.v ===== *)
(** * What the structural pass guarantees

    A graph in which the structural pass finds no error has well shaped ids, each used once in the whole
    graph; so its addresses are pairwise different and its steps are found by id. *)

From S2P Require Import Prelude GoNum GoJson GoStruct EnginePath GoPath TmplEval Ir IrShape IrDiag ValStructural.

Open Scope pass_scope.

(** ** Errors of a pass *)

Lemma HasErrors_app ds ds' : HasErrors (ds ++ ds') = HasErrors ds || HasErrors ds'.
Proof. unfold HasErrors. by rewrite existsb_app. Qed.
Lemma HasErrors_errf path code m : HasErrors (errf path code m) = true.
Proof. done. Qed.
Lemma HasErrors_when c ds : HasErrors (when c ds) = c && HasErrors ds.
Proof. by destruct c. Qed.
Lemma HasErrors_flat_map {A} (f : A → list Diagnostic) l a :
  HasErrors (flat_map f l) = false → a ∈ l → HasErrors (f a) = false.
Proof.
  induction l as [|b l IH]; cbn; intros H Ha; [by apply not_elem_of_nil in Ha|].
  rewrite HasErrors_app in H. apply orb_false_elim in H as [H1 H2]. apply elem_of_cons in Ha as [->|Ha]; auto.
Qed.

(** ** The ids a pass claims *)

(** An id the structural pass accepts. *)
Definition good_id (id : string) : Prop := matchesName true id = true ∧ mem id reservedStepIDTokens = false.

(** Without an error, [p] claims exactly [l]: each id well shaped, claimed once and by nobody before. *)
Definition claims (p : pass Seen) (l : list string) : Prop :=
  ∀ seen ds seen', p seen = (ds, seen') → HasErrors ds = false →
    NoDup l ∧ Forall good_id l ∧ (∀ id, id ∈ l → id ∉ dom seen) ∧ dom seen' ≡ dom seen ∪ list_to_set (C := gset string) l.

Lemma claims_emit ds : claims (emit ds) [].
Proof. intros seen ds' seen' [= <- <-] _. split; [constructor|]. split; [constructor|]. set_solver. Qed.

Lemma claims_andThen a b l l' : claims a l → claims b l' → claims (a ;;; b) (l ++ l').
Proof.
  intros Ha Hb seen ds seen' E He. unfold andThen in E. destruct (a seen) as [d1 s1] eqn:E1, (b s1) as [d2 s2] eqn:E2.
  injection E as <- <-. rewrite HasErrors_app in He. apply orb_false_elim in He as [H1 H2].
  destruct (Ha _ _ _ E1 H1) as (N1 & F1 & D1 & U1), (Hb _ _ _ E2 H2) as (N2 & F2 & D2 & U2).
  split; [|split; [by apply Forall_app|split; set_solver]].
  apply NoDup_app. split; [done|]. split; [|done]. set_solver.
Qed.

Lemma claims_emit_then ds b l : claims b l → claims (emit ds ;;; b) l.
Proof. exact (claims_andThen _ _ [] l (claims_emit ds)). Qed.

Lemma claims_id id path kind : claims (checkAddressableID id path kind) (if String.eqb id "" then [] else [id]).
Proof.
  intros seen ds seen' E He. unfold checkAddressableID in E. destruct (String.eqb id ""); [by apply (claims_emit [] seen ds seen')|].
  destruct (seen !! id) as [prev|] eqn:El; injection E as <- <-.
  - rewrite HasErrors_app in He. apply orb_false_elim in He as [_ He]. by destruct (String.eqb kind "step").
  - rewrite HasErrors_app, !HasErrors_when, !HasErrors_errf, !andb_true_r in He.
    apply orb_false_elim in He as [H1%negb_false_iff H2].
    split; [apply NoDup_singleton|]. split; [by repeat constructor|]. split.
    + intros x ->%list_elem_of_singleton. by apply not_elem_of_dom.
    + unfold Seen in *. rewrite dom_insert. set_solver.
Qed.

Lemma claims_passList f g l : (∀ n, n ∈ l → ∀ i, claims (f n i) (g n)) → ∀ i, claims (passList f l i) (flat_map g l).
Proof.
  induction l as [|n l IH]; intros Hf i; cbn [passList flat_map]; [apply claims_emit|].
  apply claims_andThen; [apply Hf; left|apply IH]. intros m Hm. apply Hf. by right.
Qed.
Lemma claims_passNodes f g o : (∀ n, n ∈ default [] o → ∀ i, claims (f n i) (g n)) → claims (passNodes f o) (flat_map g (default [] o)).
Proof. destruct o as [l|]; intros H; [by apply claims_passList|apply claims_emit]. Qed.

Lemma claims_step id path kind ds : claims (checkAddressableID id path kind ;;; emit ds) (if String.eqb id "" then [] else [id]).
Proof. rewrite <- (app_nil_r (if String.eqb id "" then [] else [id])). apply claims_andThen; [apply claims_id|apply claims_emit]. Qed.

(** ** The ids of a graph *)

(** The id a node is addressed by, if it has one. *)
Definition own_id (n : Node) : list string :=
  let id := match n with NMap h _ => mpID h | NReact r => reID r | _ => default "" (step_id n) end in
  if String.eqb id "" then [] else [id].
Fixpoint graph_ids (n : Node) : list string :=
  let sub (o : option (list Node)) := match o with None => [] | Some l => flat_map graph_ids l end in
  own_id n ++
  match n with
  | NIf _ t e => sub t ++ sub e
  | NLoop _ _ b | NMap _ b | NCompose _ _ _ b => sub b
  | NTry d c f => sub d ++ sub c ++ sub f
  | NParallel c => sub c
  | NGate g e _ _ => sub g ++ sub e
  | _ => []
  end.
Definition graph_idsL (o : NodeList) : list string := flat_map graph_ids (default [] o).

Lemma graph_ids_eq n : graph_ids n = own_id n ++ flat_map (λ bl, graph_idsL bl.2) (branches n).
Proof.
  unfold graph_idsL. destruct n; cbn [graph_ids branches flat_map snd]; rewrite ?app_nil_r; try done;
    repeat match goal with o : option (list Node) |- _ => destruct o; cbn [default from_option id flat_map] end; by rewrite ?app_nil_r.
Qed.

Section walk.
Variables (wf : Workflow) (owners : Owners).

(** The pass claims the ids of what it walks. *)
Lemma walkStructural_claims n : ∀ scoped parent i, claims (walkStructural wf owners scoped parent n i) (graph_ids n).
Proof.
  induction n as [n IH] using Node_ind'. intros scoped parent i.
  assert (Hsub : ∀ sc p b l, (b, l) ∈ branches n → claims (passNodes (walkStructural wf owners sc p) l) (graph_idsL l)).
  { intros sc p b l Hin. apply claims_passNodes. intros m Hm j. specialize (IH b l Hin). rewrite Forall_forall in IH. by apply IH. }
  rewrite graph_ids_eq. unfold own_id.
  destruct n; cbn [walkStructural step_id default from_option id branches flat_map snd] in *; rewrite ?app_nil_r;
    change (if ("" =? "")%string then [] else [""]) with (@nil string); rewrite ?app_nil_l;
    try exact (claims_id _ _ _); try exact (claims_step _ _ _ _); try exact (claims_emit _);
    repeat match goal with
      | |- claims (emit _ ;;; _) _ => apply claims_emit_then
      | |- claims (_ ;;; _) (_ ++ _) => apply claims_andThen
      | |- claims (passNodes _ _) _ => eapply Hsub; rewrite ?elem_of_cons; by auto
      end.
  unfold checkMapID. destruct (String.eqb (mpID head) "") eqn:E; [apply claims_emit|].
  pose proof (claims_step (mpID head) (PathFor parent "map" "" i) "map aggregate") as H. rewrite E in H. apply H.
Qed.

Lemma walkStructural_claimsL scoped parent o : claims (passNodes (walkStructural wf owners scoped parent) o) (graph_idsL o).
Proof. apply claims_passNodes. intros. apply walkStructural_claims. Qed.
End walk.

(** ** Well-addressed graphs *)

(** Every step has an id. *)
Fixpoint named (n : Node) : bool :=
  let nodes (o : option (list Node)) := match o with None => true | Some l => forallb named l end in
  match step_id n with Some id => negb (String.eqb id "") | None => true end &&
  match n with
  | NIf _ t e => nodes t && nodes e
  | NLoop _ _ b | NMap _ b | NCompose _ _ _ b | NParallel b => nodes b
  | NTry d c f => nodes d && nodes c && nodes f
  | NGate g e _ _ => nodes g && nodes e
  | _ => true
  end.
Definition namedL (o : NodeList) : bool := match o with None => true | Some l => forallb named l end.

Lemma named_eq n : named n = true → (∀ id, step_id n = Some id → id ≠ "") ∧ ∀ b l, (b, l) ∈ branches n → namedL l = true.
Proof.
  intros H. assert (H' : match step_id n with Some id => negb (String.eqb id "") | None => true end = true)
    by (destruct n; cbn [named] in H; rewrite ?andb_true_iff in H; tauto).
  split.
  - intros id E. rewrite E in H'. by apply negb_true_iff, String.eqb_neq in H'.
  - intros b0 l0 Hin. clear H'. destruct n; cbn [named branches] in *; rewrite ?andb_true_iff in H;
      repeat (apply elem_of_cons in Hin as [[= -> ->]|Hin]); try (by apply not_elem_of_nil in Hin); unfold namedL; tauto.
Qed.

Lemma nameByte_safe h c : nameByte h c = true → Ascii.eqb c "." = false ∧ Ascii.eqb c "[" = false.
Proof. destruct c as [[] [] [] [] [] [] [] []], h; by vm_compute. Qed.
Lemma all_bytes_lacks h s : all_bytes (nameByte h) s = true → lacks "." s = true ∧ lacks "[" s = true.
Proof.
  induction s as [|c s IH]; [done|]. cbn [all_bytes lacks]. intros [Hc Hs]%andb_prop. destruct (IH Hs) as [-> ->].
  apply nameByte_safe in Hc as [-> ->]. done.
Qed.
Lemma good_id_ok id : good_id id → id_ok id = true.
Proof.
  intros [Hm _]. destruct id as [|c id]; [done|]. cbn [matchesName] in Hm. apply andb_prop in Hm as [Hc Hs].
  assert (Hb : all_bytes (nameByte true) (String c id) = true) by (cbn [all_bytes]; unfold nameByte at 1; by rewrite Hc, Hs).
  unfold id_ok. destruct (all_bytes_lacks _ _ Hb) as [-> ->]. done.
Qed.

(** What the pass claims of a graph. *)
Definition ids_good (o : NodeList) : Prop := NoDup (graph_idsL o) ∧ Forall good_id (graph_idsL o).

Lemma own_step n id : step_id n = Some id → id ≠ "" → own_id n = [id].
Proof. intros E Hn. unfold own_id. apply String.eqb_neq in Hn. destruct n; cbn in E; try done; injection E as <-; cbn; by rewrite Hn. Qed.

Lemma Forall_sublist {A} (P : A → Prop) l l' : Forall P l' → l `sublist_of` l' → Forall P l.
Proof. rewrite !Forall_forall. intros H Hs x Hx. apply H. eapply elem_of_submseteq; [exact Hx|by apply sublist_submseteq]. Qed.

Lemma graph_ids_sublist n b l : (b, l) ∈ branches n → graph_idsL l `sublist_of` graph_ids n.
Proof.
  intros Hin. rewrite graph_ids_eq. apply sublist_inserts_l. generalize dependent (branches n). intros bs Hin.
  induction bs as [|bl bs IH]; [by apply not_elem_of_nil in Hin|]. cbn [flat_map]. apply elem_of_cons in Hin as [<-|Hin].
  - by apply sublist_inserts_r.
  - by apply sublist_inserts_l, IH.
Qed.
Lemma graph_ids_member n o : n ∈ default [] o → graph_ids n `sublist_of` graph_idsL o.
Proof.
  unfold graph_idsL. generalize (default [] o) as l. induction l as [|m l IH]; intros Hin; [by apply not_elem_of_nil in Hin|].
  cbn [flat_map]. apply elem_of_cons in Hin as [<-|Hin]; [by apply sublist_inserts_r|by apply sublist_inserts_l, IH].
Qed.
Lemma step_ids_sublist l : forallb named l = true → omap step_id l `sublist_of` flat_map graph_ids l.
Proof.
  induction l as [|n l IH]; cbn [forallb omap list_omap flat_map]; intros H; [constructor|]. apply andb_prop in H as [Hn Hl].
  apply named_eq in Hn as [Hn _]. destruct (step_id n) as [id|] eqn:E; cbn [omap list_omap]; rewrite ?E; [|by apply sublist_inserts_l, IH].
  rewrite graph_ids_eq, (own_step n id) by auto. cbn [app]. apply sublist_skip, sublist_inserts_l, IH, Hl.
Qed.

Lemma ids_addressable n : NoDup (graph_ids n) → Forall good_id (graph_ids n) → named n = true → addressable n = true.
Proof.
  induction n as [n IH] using Node_ind'. intros HN HF Hnm. pose proof (named_eq n Hnm) as [Hid Hbr].
  assert (Hown : own_ok n = true).
  { unfold own_ok. destruct (step_id n) as [id|] eqn:E; [|done]. apply good_id_ok. rewrite graph_ids_eq, (own_step n id) in HF by auto.
    by apply Forall_cons in HF as [? _]. }
  assert (Hnodes : ∀ b l, (b, l) ∈ branches n → addressable_list l = true).
  { intros b l Hin. destruct l as [l|]; [|done]. cbn [addressable_list]. specialize (Hbr _ _ Hin). cbn [namedL] in Hbr.
    pose proof (graph_ids_sublist _ _ _ Hin) as Hs. apply andb_true_intro. split.
    - apply forallb_forall. intros m Hm%list_elem_of_In. specialize (IH _ _ Hin). rewrite Forall_forall in IH.
      assert (Hsm : graph_ids m `sublist_of` graph_ids n) by (etransitivity; [by apply (graph_ids_member m (Some l))|done]).
      apply IH; [done|by eapply sublist_NoDup|by eapply Forall_sublist|].
      rewrite forallb_forall in Hbr. by apply Hbr, list_elem_of_In.
    - apply bool_decide_eq_true. eapply sublist_NoDup; [|exact (step_ids_sublist l Hbr)]. by eapply sublist_NoDup. }
  clear IH. destruct n; cbn [addressable branches] in *; rewrite ?andb_true_iff; unfold addressable_list in Hnodes;
    repeat split; try done; eapply Hnodes; rewrite ?elem_of_cons; by auto.
Qed.

(** ** The steps of the walk *)

Lemma walk_list_ids (p : string) l : ∀ i, Forall (λ n, ∀ q j, omap step_id (walkNode q n j).*1 `sublist_of` graph_ids n) l →
  omap step_id (walk_list (walkNode p) l i).*1 `sublist_of` flat_map graph_ids l.
Proof.
  induction l as [|n l IH]; intros i HF; [constructor|]. apply Forall_cons in HF as [Hn HF].
  cbn [walk_list flat_map]. fold (@walk_list (Node * string) (walkNode p)). rewrite fmap_app, omap_app.
  apply sublist_app; [apply Hn|by apply IH].
Qed.

Lemma walk_ids n : named n = true → ∀ p i, omap step_id (walkNode p n i).*1 `sublist_of` graph_ids n.
Proof.
  induction n as [n IH] using Node_ind'. intros Hn p i. apply named_eq in Hn as [Hid Hbr].
  rewrite walkNode_eq, graph_ids_eq. destruct (is_skip n); [apply sublist_nil_l|]. cbn [fmap list_fmap fst].
  assert (Hown : omap step_id [n] `sublist_of` own_id n).
  { cbn. destruct (step_id n) as [id|] eqn:E; [|apply sublist_nil_l]. by rewrite (own_step n id) by auto. }
  change (n :: ?l) with ([n] ++ l). rewrite omap_app. apply sublist_app; [done|]. clear Hown Hid.
  assert (Hall : ∀ b l, (b, l) ∈ branches n → Forall (λ m, ∀ q j, omap step_id (walkNode q m j).*1 `sublist_of` graph_ids m) (default [] l)).
  { intros b l Hin. specialize (IH b l Hin). specialize (Hbr b l Hin). destruct l as [l|]; [|constructor]. cbn [default from_option id namedL] in *.
    rewrite Forall_forall in *. rewrite forallb_forall in Hbr. intros m Hm. apply IH; [done|]. by apply Hbr, list_elem_of_In. }
  clear IH Hbr. induction (branches n) as [|[b l] bs IHb]; [constructor|]. cbn [flat_map fst snd]. rewrite fmap_app, omap_app.
  apply sublist_app; [|by apply IHb; intros b' l' H; eapply Hall; right; exact H].
  specialize (Hall b l (list_elem_of_here _ _)). destruct l as [l|]; [|constructor]. by apply walk_list_ids.
Qed.

Lemma WalkNodes_ids o : namedL o = true → omap step_id (WalkNodes o "").*1 `sublist_of` graph_idsL o.
Proof.
  destruct o as [l|]; [|constructor]. intros H. apply walk_list_ids. apply Forall_forall. intros n Hn p i.
  apply walk_ids. cbn [namedL] in H. rewrite forallb_forall in H. by apply H, list_elem_of_In.
Qed.

Lemma foldl_cong {A B} (f g : B → A → B) l : (∀ b a, f b a = g b a) → ∀ b, foldl f b l = foldl g b l.
Proof. intros H. induction l as [|a l IH]; intros b; [done|]. cbn. by rewrite H. Qed.
(** Inserting a list whose keys are distinct. *)
Lemma foldl_insert_miss {A V} (f : A → option (string * V)) l : ∀ (m : gmap string V) k,
  k ∉ omap (λ a, fst <$> f a) l → foldl (λ m a, match f a with Some (k, v) => <[k := v]> m | None => m end) m l !! k = m !! k.
Proof.
  induction l as [|a l IH]; intros m k Hk; [done|]. cbn [foldl]. cbn in Hk. destruct (f a) as [[k' v]|]; cbn in Hk.
  - rewrite IH by set_solver. apply lookup_insert_ne. set_solver.
  - by apply IH.
Qed.
Lemma foldl_insert_hit {A V} (f : A → option (string * V)) l : ∀ (m : gmap string V) a k v,
  NoDup (omap (λ a, fst <$> f a) l) → a ∈ l → f a = Some (k, v) →
  foldl (λ m a, match f a with Some (k, v) => <[k := v]> m | None => m end) m l !! k = Some v.
Proof.
  induction l as [|b l IH]; intros m a k v HN Ha Hf; [by apply not_elem_of_nil in Ha|].
  cbn in HN. cbn [foldl]. apply elem_of_cons in Ha as [->|Ha].
  - rewrite Hf in HN |- *. cbn in HN. apply NoDup_cons in HN as [HN _]. rewrite foldl_insert_miss by done. apply lookup_insert_eq.
  - destruct (f b) as [[k' v']|]; cbn in HN; [apply NoDup_cons in HN as [_ HN]|]; by eapply IH.
Qed.

Lemma validateStructural_ids wf : HasErrors (validateStructural wf) = false → ids_good (wfGraph wf).
Proof.
  unfold validateStructural. rewrite !HasErrors_app. intros H. repeat apply orb_false_elim in H as [_ H].
  destruct (passNodes _ _ _) as [ds seen'] eqn:E. cbn [fst] in H.
  destruct (walkStructural_claimsL wf (MapImageTargetOwners wf) ∅ "" (wfGraph wf) _ _ _ E H) as (HN & HF & _). done.
Qed.

Lemma StepPathIndex_lookup wf n p id :
  ids_good (wfGraph wf) → namedL (wfGraph wf) = true → (n, p) ∈ WalkNodes (wfGraph wf) "" → step_id n = Some id →
  StepPathIndex wf !! id = Some p.
Proof.
  intros [HN _] Hnm Hin Hid. unfold StepPathIndex.
  pose proof (foldl_insert_hit (λ np : Node * string, (λ id, (id, np.2)) <$> step_id np.1) (WalkNodes (wfGraph wf) "") ∅ (n, p) id p) as H.
  cbn [fst snd] in H. rewrite Hid in H. cbn [fmap option_fmap option_map] in H.
  rewrite (foldl_cong _ (λ m np, match (λ id, (id, np.2)) <$> step_id np.1 with Some (k, v) => <[k := v]> m | None => m end))
    by (intros m np; by destruct (step_id np.1)).
  apply H; [|done|done].
  eapply sublist_NoDup; [exact HN|]. etransitivity; [|exact (WalkNodes_ids _ Hnm)].
  apply reflexive_eq. clear. generalize (WalkNodes (wfGraph wf) "") as l. induction l as [|[n p] l IH]; [done|].
  cbn. destruct (step_id n); cbn; by rewrite IH.
Qed.

(** Good ids make a well-addressed graph. *)
Lemma ids_good_addressable wf : ids_good (wfGraph wf) → namedL (wfGraph wf) = true → addressable_list (wfGraph wf) = true.
Proof.
  intros [HN HF] Hn.
  destruct (wfGraph wf) as [l|] eqn:E; [|done]. cbn [addressable_list namedL] in *. apply andb_true_intro.
    rewrite forallb_forall in Hn. split.
    - apply forallb_forall. intros m Hm. pose proof (graph_ids_member m (Some l)) as Hs. cbn [default from_option id] in Hs.
      rewrite list_elem_of_In in Hs. apply ids_addressable; [by eapply sublist_NoDup; [exact HN|apply Hs]|by eapply Forall_sublist; [exact HF|apply Hs]|by apply Hn].
    - apply bool_decide_eq_true. eapply sublist_NoDup; [exact HN|]. apply step_ids_sublist. by apply forallb_forall.
Qed.

(** C24: a graph that the structural pass accepts is well addressed.  When every step has an id and the
    pass reports no error, the walk visits pairwise different addresses, and every step is found by its
    id in the index that references are resolved with. *)
Theorem structural_addresses wf :
  HasErrors (validateStructural wf) = false → namedL (wfGraph wf) = true →
  NoDup (WalkNodes (wfGraph wf) "").*2 ∧ addressable_list (wfGraph wf) = true ∧
  ∀ n p id, (n, p) ∈ WalkNodes (wfGraph wf) "" → step_id n = Some id → StepPathIndex wf !! id = Some p.
Proof.
  intros He Hn. pose proof (validateStructural_ids wf He) as Hids.
  pose proof (ids_good_addressable wf Hids Hn) as Ha.
  split; [|split; [done|]].
  - destruct (wfGraph wf) as [l|]; [|constructor]. apply (walk_nodes_good [] (Some l) ""); [|done|done].
    apply Forall_forall. intros n _. apply walk_all_good.
  - intros n p id. by apply StepPathIndex_lookup.
Qed.

(** A conversation in a loop: the writer, the reviser that continues it, and a gate whose answer continues
    the reviser and whose judge is shown what the reviser did. *)
Definition ex_agent (id continues : string) : Node :=
  NAgent (MkAgentStep id "" "awf/llm" None continues None [] "" None ∅ None None None None).
Definition ex_verdict : Node :=
  NAgent (MkAgentStep "judge" "" "awf/llm" None "revise" (Some [("type", VString "object"); ("properties", VMap [("pass", VMap [("type", VString "boolean")])])])
            [] "" None ∅ None None None None).
Definition ex_talk : Workflow :=
  MkWorkflow "talk" 1 None ∅ [] ∅ ∅ ∅ ∅ None None ∅ ∅ ∅
    (Some [NLoop None (Some 3%Z)
             (Some [ex_agent "write" ""; ex_agent "revise" "write";
                    NGate (Some [ex_agent "answer" "revise"]) (Some [ex_verdict]) "evaluate.pass" 2])]) "".

Lemma structural_addresses_witness :
  HasErrors (validateStructural ex_talk) = false ∧ namedL (wfGraph ex_talk) = true ∧
  StepPathIndex ex_talk !! "judge" = Some "loop[0].body.gate[2].evaluate.judge".
Proof.
  split; [by vm_compute|]. split; [by vm_compute|].
  destruct (structural_addresses ex_talk eq_refl eq_refl) as (_ & _ & H).
  apply (H ex_verdict); [|done]. by vm_compute; repeat (apply list_elem_of_here || apply list_elem_of_further).
Defined.
