(* ===== verification/Agent.v ===== *)
(** * agent/types.go, display.go, toolloop.go, errors.go, inputfile.go: what an adapter is given and gives back

    The data of an invocation, of its events and of its result, what the engine tells apart in an adapter's
    errors, and the content sniffing of inline files. *)

From S2P Require Import Prelude GoNum GoJson GoStruct TmplEval EngineEvents Ir.

(** ** display.go *)

Inductive DisplayClass : Type :=
  | DisplayOther | DisplayInit | DisplayAssistant | DisplayAssistantDelta | DisplayReasoning | DisplayToolCall
  | DisplayToolResult | DisplayFinal | DisplayError | DisplayNotice.
#[export] Instance DisplayClass_eq_dec : EqDecision DisplayClass.
Proof. solve_decision. Defined.

Definition DisplayClass_String (c : DisplayClass) : string :=
  match c with
  | DisplayInit => "init" | DisplayAssistant => "assistant" | DisplayAssistantDelta => "assistant_delta"
  | DisplayReasoning => "reasoning" | DisplayToolCall => "tool_call" | DisplayToolResult => "tool_result"
  | DisplayFinal => "final" | DisplayError => "error" | DisplayNotice => "notice" | DisplayOther => "other"
  end.

Record EventDisplay : Type := MkDisplay {
  edClass : DisplayClass; edTool : string; edText : string; edLines : Z; edBytes : Z; edIsError : bool }.
Definition zeroDisplay : EventDisplay := MkDisplay DisplayOther "" "" 0 0 false.

(** ** types.go *)

Record AgentEvent : Type := MkAgentEvent {
  evKind : string; evPayload : string; evStream : string; evLive : bool; evDisplay : EventDisplay }.

Inductive Liveness : Type := LivenessNone | LivenessCoarse | LivenessFine.

Record Caps : Type := MkCaps {
  cpNativeSchema : bool; cpContainerless : bool; cpThreaded : bool; cpContextEvidence : bool; cpPersistentSession : bool;
  cpInlineInputFiles : bool; cpIsolatedConfigDir : bool; cpSurfacesLiveness : Liveness }.

Record RunContext : Type := MkRunContext { rcRunID : string; rcCurrentEpoch : Z; rcNextEpoch : Z }.

(** An inline file: a label, its content, its type. *)
Record AgentInputFile : Type := MkAgentInputFile { aiName : string; aiContent : string; aiMIME : string }.

Record AgentInvocation : Type := MkInvocation {
  ivNodePath : string; ivUses : string; ivRunContext : RunContext; ivWith : RawConfig; ivRoleWith : RawConfig;
  ivOutputSchema : option JSONSchema; ivIdempotencyKey : string; ivFeedback : RawConfig; ivThread : list ThreadTurn;
  ivContextEvidence : list ThreadTurn; ivInputFiles : list AgentInputFile; ivAttempt : Z; ivRecoveryContinue : bool;
  ivResumeSession : bool; ivSessionConfigDir : string; ivWorkflowDir : string }.

Record LiveDispatch : Type := MkLiveDispatch {
  lvAdapterRef : string; lvSessionKey : string; lvSessionKeyHash : string; lvLeaseID : string; lvActiveTurnID : string;
  lvProviderTurnID : string; lvRunID : string; lvNodePath : string; lvEpoch : Z; lvCommittedUnix : Z }.

(** [arFiles]: a Go map, in the order in which it is ranged over. *)
Record AgentResult : Type := MkAgentResult {
  agOutput : gomap; agExitCode : Z; agMetrics : MetricSet; agFiles : list (string * string); agLive : option LiveDispatch;
  agTranscript : ThreadTurn }.

(** What a live adapter is asked before a run is resumed. *)
Record LiveResumePreflightRequest : Type := MkPreflight {
  lpNodePath : string; lpAdapterRef : string; lpWith : RawConfig; lpRunID : string; lpCurrentEpoch : Z; lpNextEpoch : Z }.

(** ** toolloop.go: one model call of a react step *)

Record ToolCall : Type := MkToolCall { tcIndex : Z; tcID : string; tcName : string; tcArguments : string }.
Record ReactTurn : Type := MkReactTurn { rtRole : string; rtContent : string; rtToolCalls : list ToolCall; rtToolCallID : string }.
Record ToolDef : Type := MkToolDef { tdName : string; tdDescription : string; tdInputSchema : option JSONSchema }.
Record ToolLoopInvocation : Type := MkToolLoop {
  liNodePath : string; liUses : string; liWith : RawConfig; liMessages : list ReactTurn; liTools : list ToolDef;
  liOutputSchema : option JSONSchema }.
Record ToolLoopResult : Type := MkToolResult {
  trText : string; trOutput : gomap; trToolCalls : list ToolCall; trFinishReason : string; trMetrics : option MetricSet }.

(** ** errors.go *)

(** An error of an adapter: what errors.As and errors.Is find in it, the hint of *ErrAgentLaunch, and its message. *)
Record agentErr : Type := MkAgentErr {
  aeNotFound : bool; aeInvalidConfig : bool; aePermissionDenied : bool; aeUnparseable : bool; aeDeadline : bool;
  aeLiveReplay : bool; aeRetryAfter : option Z; aeMsg : EvalMsg }.

Definition plainErr (m : EvalMsg) : agentErr := MkAgentErr false false false false false false None m.
Definition ErrAdapterNotFound (ref : string) : agentErr :=
  MkAgentErr true false false false false false None (EmFmt "agent: no adapter registered for %q" [ref]).
Definition ErrInvalidConfig (ref : string) (reason : EvalMsg) : agentErr :=
  MkAgentErr false true false false false false None (EmWrap "agent: adapter %q rejected config: %s" [ref] reason).
Definition ErrUnparseableOutput (nodePath : string) : agentErr :=
  MkAgentErr false false false true false false None (EmFmt "agent: unparseable output at node %q" [nodePath]).
Definition ErrLiveReplayRequired : agentErr := MkAgentErr false false false false false true None (EmFmt "agent: live replay required" []).
(** [*ErrAgentLaunch] around ctx.Err(). *)
Definition ErrAgentLaunch (deadline : bool) : agentErr :=
  MkAgentErr false false false false deadline false None
    (EmFmt "agent: launch failed: %v" [if deadline then "context deadline exceeded" else "context canceled"]).

(** ** inputfile.go *)

(** The signatures of http.DetectContentType for the types an adapter can forward. *)
Definition bytesOf (l : list Z) : string := foldr (λ n s, String (ascii_of_N (Z.to_N n)) s) "" l.
Definition sniff (content : string) : option string :=
  if String.prefix "%PDF-" content then Some "application/pdf"
  else if String.prefix "GIF87a" content || String.prefix "GIF89a" content then Some "image/gif"
  else if String.prefix (bytesOf [137; 80; 78; 71; 13; 10; 26; 10]%Z) content then Some "image/png"
  else if String.prefix (bytesOf [255; 216; 255]%Z) content then Some "image/jpeg"
  else if String.prefix "RIFF" content && String.prefix "WEBPVP" (sdrop 8 content) then Some "image/webp"
  else None.

(** The error names the type that was found, which is left out. *)
Definition DetectMIME (name content : string) : res EvalMsg string :=
  match sniff content with
  | Some m => Ok m
  | None => Err (EmFmt "unsupported input_file content for %q: detected %q (supported: pdf, png, jpeg, webp, gif)" [name])
  end.
