(* ===== verification/DisplaySanitize.v ===== *)
(** * agent/display_sanitize.go: terminal control sequences

    What is shown of an agent's bytes: [SanitizeDisplayBytes] of one text, and the sanitizer that carries an
    unfinished sequence from chunk to chunk.  A position in the input is the rest of the input. *)

From S2P Require Import Prelude GoJson GoStruct.

(** ** Runes *)

(** The rune of a UTF-8 sequence of [n] bytes at the start of [s]. *)
Definition contAt (s : string) (i : nat) : nat := match String.get i s with Some c => (code c mod 64)%nat | None => 0%nat end.
Definition runeAt (n : nat) (s : string) : nat :=
  match s with
  | "" => 0
  | String c _ =>
      match n with
      | 2 => code c mod 32 * 64 + contAt s 1
      | 3 => (code c mod 16 * 64 + contAt s 1) * 64 + contAt s 2
      | 4 => ((code c mod 8 * 64 + contAt s 1) * 64 + contAt s 2) * 64 + contAt s 3
      | _ => code c
      end
  end%nat.

(** unicode.IsControl. *)
Definition isControl (r : nat) : bool := (r <? 32) || ((127 <=? r) && (r <? 160)).
Definition isDisplayControl (r : nat) : bool := isControl r && negb (r =? 10) && negb (r =? 9).
Definition isC1StringControl (r : nat) : bool := (r =? 144) || (r =? 152) || (r =? 157) || (r =? 158) || (r =? 159).

(** ** One text *)

Fixpoint skipControlSequence (s : string) : string :=
  match s with
  | "" => ""
  | String c r => if (64 <=? code c) && (code c <=? 126) then r else skipControlSequence r
  end.

Definition startsWith (n : nat) (s : string) : bool := match s with "" => false | String c _ => code c =? n end.
Fixpoint skipStringControl (s : string) : string :=
  match s with
  | "" => ""
  | String c r =>
      if (code c =? 7) || (code c =? 156) then r
      else if (code c =? 27) && startsWith 92 r then sdrop 1 r
      else if (code c =? 194) && startsWith 156 r then sdrop 1 r
      else skipStringControl r
  end.

Definition startsString (c : ascii) : bool := mem (String c "") ["]"; "P"; "^"; "_"; "X"].
Definition skipEscapeSequence (s : string) : string :=
  match s with
  | "" => ""
  | String c r => if Ascii.eqb c "[" then skipControlSequence r else if startsString c then skipStringControl r else r
  end.

(** What is written for the start of the input, and what is left. *)
Definition sanitizeRune (s : string) : string * string :=
  match utf8_span s with
  | None => ("", sdrop 1 s)
  | Some n =>
      let r := runeAt n s in
      if r =? 155 then ("", skipControlSequence (sdrop n s))
      else if isC1StringControl r then ("", skipStringControl (sdrop n s))
      else (if isDisplayControl r then "" else stake n s, sdrop n s)
  end.
Definition sanitizeStep (c : ascii) (rest : string) : string * string :=
  let b := code c in
  if b =? 27 then ("", skipEscapeSequence rest)
  else if b =? 155 then ("", skipControlSequence rest)
  else if isC1StringControl b then ("", skipStringControl rest)
  else if (b <? 32) || (b =? 127) then (if (b =? 10) || (b =? 9) then String c "" else "", rest)
  else if b <? 128 then (String c "", rest)
  else sanitizeRune (String c rest).
Fixpoint sanitizeLoop (fuel : nat) (s : string) : string :=
  match fuel, s with
  | O, _ | _, "" => ""
  | S fuel, String c rest => let '(out, next) := sanitizeStep c rest in out +:+ sanitizeLoop fuel next
  end.
Definition SanitizeDisplayBytes (s : string) : string := sanitizeLoop (slen s) s.
Definition SanitizeDisplayText (s : string) : string := SanitizeDisplayBytes s.

(** ** A stream of chunks *)

Inductive displayStreamMode : Type :=
  | displayStreamNormal | displayStreamEsc | displayStreamCSI | displayStreamString | displayStreamStringEsc.

Fixpoint scanControlSequence (s : string) : string * bool :=
  match s with
  | "" => ("", false)
  | String c r => if (64 <=? code c) && (code c <=? 126) then (r, true) else scanControlSequence r
  end.
Fixpoint scanStringControl (s : string) : string * bool * displayStreamMode :=
  match s with
  | "" => ("", false, displayStreamString)
  | String c r =>
      if (code c =? 7) || (code c =? 156) then (r, true, displayStreamNormal)
      else if (code c =? 27) && startsWith 92 r then (sdrop 1 r, true, displayStreamNormal)
      else if (code c =? 27) && String.eqb r "" then ("", false, displayStreamStringEsc)
      else if (code c =? 194) && startsWith 156 r then (sdrop 1 r, true, displayStreamNormal)
      else scanStringControl r
  end.
Definition scanCSI (s : string) : string * bool * displayStreamMode := (scanControlSequence s, displayStreamCSI).
Definition scanEscContinuation (s : string) : string * bool * displayStreamMode :=
  match s with
  | "" => ("", false, displayStreamEsc)
  | String c r => if Ascii.eqb c "[" then scanCSI r else if startsString c then scanStringControl r else (r, true, displayStreamNormal)
  end.

(** utf8.FullRune, for an input that is not empty: a sequence that is only cut short is not one. *)
Definition runeLen (c : ascii) : nat :=
  let b := code c in
  if (b <? 194) || (244 <? b) then 1 else if b <? 224 then 2 else if b <? 240 then 3 else 4.
Definition secondOk (c d : ascii) : bool :=
  let b := code c in let x := code d in
  ((if b =? 224 then 160 else if b =? 240 then 144 else 128) <=? x) && (x <=? (if b =? 237 then 159 else if b =? 244 then 143 else 191)).
Definition FullRune (s : string) : bool :=
  match s with
  | "" => false
  | String c r =>
      (runeLen c <=? slen s)
      || match r with
         | "" => false
         | String d r => negb (secondOk c d)
                         || match r with "" => false | String e _ => negb ((128 <=? code e) && (code e <=? 191)) end
         end
  end.

(** One turn of the loop: what is written, what is left, the mode; [None]: the chunk is done. *)
Definition afterScan (x : string * bool * displayStreamMode) : string * option string * displayStreamMode :=
  if x.1.2 then ("", Some x.1.1, displayStreamNormal) else ("", None, x.2).
Definition streamRune (s : string) : string * option string * displayStreamMode :=
  if negb (FullRune s) then ("", None, displayStreamNormal)
  else match utf8_span s with
  | None => ("", Some (sdrop 1 s), displayStreamNormal)
  | Some n =>
      let r := runeAt n s in
      if r =? 155 then afterScan (scanCSI (sdrop n s))
      else if isC1StringControl r then afterScan (scanStringControl (sdrop n s))
      else (if isDisplayControl r then "" else stake n s, Some (sdrop n s), displayStreamNormal)
  end.
Definition streamStep (m : displayStreamMode) (c : ascii) (rest : string) : string * option string * displayStreamMode :=
  match m with
  | displayStreamEsc => afterScan (scanEscContinuation (String c rest))
  | displayStreamCSI => afterScan (scanCSI (String c rest))
  | displayStreamString => afterScan (scanStringControl (String c rest))
  | displayStreamStringEsc =>
      if code c =? 92 then ("", Some rest, displayStreamNormal) else ("", Some (String c rest), displayStreamString)
  | displayStreamNormal =>
      let b := code c in
      if b =? 27 then afterScan (scanEscContinuation rest)
      else if b =? 155 then afterScan (scanCSI rest)
      else if isC1StringControl b then afterScan (scanStringControl rest)
      else if (b <? 32) || (b =? 127) then (if (b =? 10) || (b =? 9) then String c "" else "", Some rest, displayStreamNormal)
      else if b <? 128 then (String c "", Some rest, displayStreamNormal)
      else streamRune (String c rest)
  end.
Fixpoint streamLoop (fuel : nat) (m : displayStreamMode) (s : string) : string * displayStreamMode :=
  match fuel, s with
  | O, _ | _, "" => ("", m)
  | S fuel, String c rest =>
      match streamStep m c rest with
      | (out, None, m) => (out, m)
      | (out, Some next, m) => let '(o, m) := streamLoop fuel m next in (out +:+ o, m)
      end
  end.
(** [SanitizeBytes]: what is shown of the chunk, and the mode for the next one. *)
Definition SanitizeBytes (m : displayStreamMode) (s : string) : string * displayStreamMode := streamLoop (2 * slen s + 1) m s.

(** ** What is shown *)

(** Text without control characters but newline and tab, nor bytes that are not UTF-8. *)
Inductive shown : string → Prop :=
  | shown_nil : shown ""
  | shown_rune n s : utf8_span s = Some n → isDisplayControl (runeAt n s) = false → shown (sdrop n s) → shown s.

(** A sequence is read off its own bytes. *)
Lemma utf8_span_stake n s t : utf8_span s = Some n →
  utf8_span (stake n s +:+ t) = Some n ∧ runeAt n (stake n s +:+ t) = runeAt n s ∧ slen (stake n s) = n ∧ 0 < n.
Proof.
  destruct s as [|c r]; [done|]. intros Hs.
  destruct (utf8_span_cases c r n Hs) as [[-> _]|[_ [[-> (c1 & r1 & ->)]|[[-> (c1 & c2 & r2 & ->)]|[-> (c1 & c2 & c3 & r3 & ->)]]]]]; cbn [stake append].
  - split; [by eapply utf8_span_1|]. cbn. auto with lia.
  - split; [by eapply utf8_span_2|]. cbn. auto with lia.
  - split; [by eapply utf8_span_3|]. cbn. auto with lia.
  - split; [by eapply utf8_span_4|]. cbn. auto with lia.
Qed.

Lemma shown_app n s t : utf8_span s = Some n → isDisplayControl (runeAt n s) = false → shown t → shown (stake n s +:+ t).
Proof.
  intros Hs Hc Ht. destruct (utf8_span_stake n s t Hs) as (H1 & H2 & H3 & _).
  apply (shown_rune n); [done|by rewrite H2|]. by rewrite <- H3 at 1; rewrite sdrop_app.
Qed.
Lemma shown_ascii c t : (code c <? 128) = true → isDisplayControl (code c) = false → shown t → shown (String c t).
Proof. intros Hc Hd Ht. apply (shown_rune 1); [|done|done]. unfold utf8_span. unfold code in Hc. by rewrite Hc. Qed.

(** One turn writes nothing, or one character that can be shown. *)
Lemma sanitizeStep_out c rest t : shown t → shown ((sanitizeStep c rest).1 +:+ t).
Proof.
  intros Ht. unfold sanitizeStep. destruct (_ =? 27); [done|]. destruct (_ =? 155); [done|]. destruct (isC1StringControl _); [done|].
  destruct ((code c <? 32) || (code c =? 127)) eqn:Hc.
  - destruct ((code c =? 10) || (code c =? 9)) eqn:Hn; [|done]. apply shown_ascii; [| |done].
    + apply Nat.ltb_lt. apply orb_prop in Hn as [H%Nat.eqb_eq|H%Nat.eqb_eq]; lia.
    + unfold isDisplayControl. apply orb_prop in Hn as [->| ->]; by rewrite !andb_false_r.
  - destruct (code c <? 128) eqn:Ha.
    + apply shown_ascii; [done| |done]. apply orb_false_iff in Hc as [H32 H127]. apply Nat.eqb_neq in H127. apply Nat.ltb_lt in Ha. unfold isDisplayControl, isControl.
      rewrite H32, (proj2 (Nat.leb_gt 127 (code c))) by lia. done.
    + unfold sanitizeRune. destruct (utf8_span _) as [n|] eqn:Hs; [|done]. destruct (_ =? 155); [done|]. destruct (isC1StringControl _); [done|].
      destruct (isDisplayControl (runeAt n (String c rest))) eqn:Hd; [done|]. by apply shown_app.
Qed.
Lemma sanitizeLoop_shown fuel s : shown (sanitizeLoop fuel s).
Proof.
  revert s. induction fuel as [|fuel IH]; intros [|c rest]; try constructor. cbn [sanitizeLoop].
  pose proof (sanitizeStep_out c rest _ (IH (sanitizeStep c rest).2)). by destruct (sanitizeStep c rest).
Qed.

(** One turn on a character that can be shown writes it. *)
Lemma utf8_span_first c r n : utf8_span (String c r) = Some n → n = 1 ∧ code c < 128 ∨ 194 ≤ code c.
Proof.
  intros Hs. destruct (Nat.lt_ge_cases (code c) 194) as [Hc|Hc]; [|by right]. left. destruct (utf8_span_cases c r n Hs) as [?|[H _]]; [done|].
  exfalso. revert Hs. unfold utf8_span, in_range. fold (code c). clear -Hc H. rewrite (proj2 (Nat.ltb_ge (code c) 128)) by lia.
  rewrite (proj2 (Nat.leb_gt 194 (code c))) by lia. rewrite (proj2 (Nat.leb_gt 225 (code c))) by lia. rewrite (proj2 (Nat.leb_gt 241 (code c))) by lia.
  rewrite (proj2 (Nat.eqb_neq (code c) 224)), (proj2 (Nat.eqb_neq (code c) 237)), (proj2 (Nat.eqb_neq (code c) 240)), (proj2 (Nat.eqb_neq (code c) 244)) by lia.
  cbn. by destruct r as [|? [|? [|? ?]]].
Qed.
Lemma displayed_plain r : isDisplayControl r = false → r ≠ 27 ∧ r ≠ 155 ∧ isC1StringControl r = false.
Proof.
  unfold isDisplayControl, isControl, isC1StringControl. intros H. split_and!; [intros ->; done..|].
  repeat (apply orb_false_iff; split); apply Nat.eqb_neq; intros ->; done.
Qed.
Lemma sanitizeStep_shown n c rest : utf8_span (String c rest) = Some n → isDisplayControl (runeAt n (String c rest)) = false →
  sanitizeStep c rest = (stake n (String c rest), sdrop n (String c rest)).
Proof.
  intros Hs Hd. destruct (displayed_plain _ Hd) as (H27 & H155 & Hstr). unfold sanitizeStep.
  destruct (utf8_span_first c rest n Hs) as [[-> Hc]|Hc].
  - cbn in H27, H155, Hstr. rewrite (proj2 (Nat.eqb_neq _ _) H27), (proj2 (Nat.eqb_neq _ _) H155), Hstr, (proj2 (Nat.ltb_lt _ _) Hc).
    cbn in Hd. destruct ((code c <? 32) || (code c =? 127)) eqn:E; [|done]. destruct ((code c =? 10) || (code c =? 9)) eqn:En; [done|].
    exfalso. revert Hd. unfold isDisplayControl, isControl. destruct (code c =? 10), (code c =? 9); try done. rewrite !andb_true_r.
    destruct (code c <? 32) eqn:?; [done|]. simpl in E. apply Nat.eqb_eq in E as ->. done.
  - rewrite (proj2 (Nat.eqb_neq (code c) 27)), (proj2 (Nat.eqb_neq (code c) 155)), (proj2 (Nat.ltb_ge (code c) 128)), (proj2 (Nat.ltb_ge (code c) 32)),
      (proj2 (Nat.eqb_neq (code c) 127)) by lia.
    replace (isC1StringControl (code c)) with false
      by (symmetry; unfold isC1StringControl; repeat (apply orb_false_iff; split); apply Nat.eqb_neq; lia).
    unfold sanitizeRune. rewrite Hs. cbv zeta. by rewrite (proj2 (Nat.eqb_neq _ _) H155), Hstr, Hd.
Qed.
Lemma sanitizeLoop_id fuel s : shown s → slen s ≤ fuel → sanitizeLoop fuel s = s.
Proof.
  intros H. revert fuel. induction H as [|n [|c rest] Hs Hd H IH]; intros [|fuel] Hf; try done; [cbn in Hf; lia|].
  cbn [sanitizeLoop]. rewrite (sanitizeStep_shown n) by done. destruct (utf8_span_stake n (String c rest) "" Hs) as (_ & _ & Hl & Hn).
  rewrite IH, stake_sdrop; [done|]. rewrite slen_sdrop. lia.
Qed.

(** C39: What SanitizeDisplayBytes shows is valid UTF-8 without any control character but newline and tab,
    whatever the bytes are, so no terminal sequence gets through; sanitising twice changes nothing; and the
    texts it leaves as they are are exactly those. *)
Theorem SanitizeDisplayBytes_shown s : shown (SanitizeDisplayBytes s) ∧ SanitizeDisplayBytes (SanitizeDisplayBytes s) = SanitizeDisplayBytes s
  ∧ (SanitizeDisplayBytes s = s ↔ shown s).
Proof.
  assert (∀ t, shown t → SanitizeDisplayBytes t = t) as Hid by (intros t Ht; by apply sanitizeLoop_id).
  assert (shown (SanitizeDisplayBytes s)) as Hs by apply sanitizeLoop_shown.
  split_and!; [done|by apply Hid|]. split; [intros He; by rewrite <- He|apply Hid].
Qed.

(** ** A stream and its text *)

(** A text whose last byte is ASCII, or an empty one. *)
Fixpoint endsAscii (s : string) : bool :=
  match s with "" => true | String c "" => code c <? 128 | String _ r => endsAscii r end.
Lemma endsAscii_tail c r : endsAscii (String c r) = true → endsAscii r = true.
Proof. by destruct r. Qed.
Lemma endsAscii_one c : endsAscii (String c "") = true → code c < 128.
Proof. apply Nat.ltb_lt. Qed.
Lemma endsAscii_sdrop n s : endsAscii s = true → endsAscii (sdrop n s) = true.
Proof. revert s. induction n as [|n IH]; intros [|c r] H; try done. apply IH. by eapply endsAscii_tail. Qed.

(** *** The loop, without its fuel *)

Definition measure (m : displayStreamMode) (s : string) : nat :=
  2 * slen s + match m with displayStreamStringEsc => 1 | _ => 0 end.

Lemma scanControlSequence_len s : slen (scanControlSequence s).1 ≤ slen s - 1.
Proof. induction s as [|c r IH]; [done|]. cbn. case_match; cbn; lia. Qed.
Lemma scanStringControl_len s : slen (scanStringControl s).1.1 ≤ slen s - 1.
Proof. induction s as [|c r IH]; [done|]. cbn. repeat case_match; cbn; rewrite ?slen_sdrop; lia. Qed.
Lemma scanCSI_len s : slen (scanCSI s).1.1 ≤ slen s - 1.
Proof. apply scanControlSequence_len. Qed.
Lemma scanEscContinuation_len s : slen (scanEscContinuation s).1.1 ≤ slen s - 1.
Proof.
  destruct s as [|c r]; [done|]. pose proof (scanCSI_len r). pose proof (scanStringControl_len r).
  unfold scanEscContinuation. repeat case_match; cbn in *; lia.
Qed.
(** A scan that is complete goes on from what it left. *)
Lemma afterScan_measure x out next m s : slen x.1.1 ≤ slen s → afterScan x = (out, Some next, m) → measure m next ≤ 2 * slen s.
Proof. unfold afterScan. destruct (x.1.2); [|done]. intros H [= _ <- <-]. cbn. lia. Qed.

(** A turn that goes on is a step down. *)
Lemma streamRune_next s out next m : streamRune s = (out, Some next, m) → s ≠ "" → measure m next < 2 * slen s.
Proof.
  intros H Hne. destruct s as [|c r]; [done|]. revert H. unfold streamRune. destruct (negb _); [done|].
  destruct (utf8_span _) as [n|] eqn:Hs; [|intros [= _ <- <-]; cbn; lia].
  destruct (utf8_span_stake n _ "" Hs) as (_ & _ & Hl & Hn). rewrite slen_stake in Hl.
  set (k := sdrop n (String c r)). assert (slen k < slen (String c r)) as Hk by (unfold k; rewrite slen_sdrop; cbn in *; lia).
  pose proof (scanCSI_len k). pose proof (scanStringControl_len k).
  destruct (_ =? 155); [intros Ha; apply (afterScan_measure _ _ _ _ k) in Ha; cbn in *; lia|].
  destruct (isC1StringControl _); [intros Ha; apply (afterScan_measure _ _ _ _ k) in Ha; cbn in *; lia|].
  intros [= _ <- <-]. cbn in *. lia.
Qed.
Lemma streamStep_next m c rest out next m' : streamStep m c rest = (out, Some next, m') → measure m' next < measure m (String c rest).
Proof.
  pose proof (scanCSI_len rest). pose proof (scanStringControl_len rest). pose proof (scanEscContinuation_len rest).
  pose proof (scanCSI_len (String c rest)). pose proof (scanStringControl_len (String c rest)). pose proof (scanEscContinuation_len (String c rest)).
  unfold streamStep. intros H'. destruct (match m with displayStreamStringEsc => true | _ => false end) eqn:Hmode.
  { destruct m; try done. revert H'. destruct (_ =? 92); intros [= _ <- <-]; cbn; lia. }
  enough (measure m' next ≤ 2 * slen rest + 1) as Hm by (unfold measure in Hm |- *; cbn [slen String.length] in *; destruct m; idtac; lia). revert H'.
  destruct m; [|intros Ha; apply (afterScan_measure _ _ _ _ rest) in Ha; cbn in *; lia..|done].
  destruct (_ =? 27); [intros Ha; apply (afterScan_measure _ _ _ _ rest) in Ha; cbn in *; lia|].
  destruct (_ =? 155); [intros Ha; apply (afterScan_measure _ _ _ _ rest) in Ha; cbn in *; lia|].
  destruct (isC1StringControl _); [intros Ha; apply (afterScan_measure _ _ _ _ rest) in Ha; cbn in *; lia|].
  destruct (_ || _); [intros [= _ <- <-]; cbn; lia|]. destruct (_ <? 128); [intros [= _ <- <-]; cbn; lia|].
  intros Ha%streamRune_next; [|done]. cbn in *. lia.
Qed.

Lemma streamLoop_fuel n1 n2 m s : measure m s ≤ n1 → measure m s ≤ n2 → streamLoop n1 m s = streamLoop n2 m s.
Proof.
  revert n2 m s. induction n1 as [|n1 IH]; intros [|n2] m [|c rest] H1 H2; try done; try (unfold measure in *; cbn in *; lia).
  cbn [streamLoop]. destruct (streamStep m c rest) as [[out [next|]] m'] eqn:Hs; [|done]. apply streamStep_next in Hs. rewrite (IH n2 m' next); [done|lia..].
Qed.

(** The rest of a chunk after a turn. *)
Definition goOn (x : string * option string * displayStreamMode) : string * displayStreamMode :=
  match x with
  | (out, None, m) => (out, m)
  | (out, Some next, m) => let '(o, m) := SanitizeBytes m next in (out +:+ o, m)
  end.
Lemma SanitizeBytes_step m c rest : SanitizeBytes m (String c rest) = goOn (streamStep m c rest).
Proof.
  unfold SanitizeBytes at 1. rewrite (streamLoop_fuel _ (S (measure m (String c rest)))) by (unfold measure; cbn; destruct m; lia).
  cbn [streamLoop]. destruct (streamStep m c rest) as [[out [next|]] m'] eqn:Hs; [|done]. apply streamStep_next in Hs. unfold goOn, SanitizeBytes.
  rewrite (streamLoop_fuel _ (2 * slen next + 1)); [done|lia|unfold measure; destruct m'; lia].
Qed.

(** *** Splitting after an ASCII byte *)

(** A turn on [a] and the turn on [a] and [b]: the same, or what is left to the next chunk. *)
Definition extends (b : string) (x y : string * option string * displayStreamMode) : Prop :=
  match x with
  | (out, Some next, m) => y = (out, Some (next +:+ b), m) ∧ endsAscii next = true
  | (out, None, m) => out = "" ∧ goOn y = SanitizeBytes m b
  end.
Definition splits (X : string → string * bool * displayStreamMode) (a b : string) : Prop := extends b (afterScan (X a)) (afterScan (X (a +:+ b))).

Lemma startsWith_app n c r b : startsWith n (String c r +:+ b) = startsWith n (String c r).
Proof. done. Qed.
Lemma scanControlSequence_app a b :
  scanControlSequence (a +:+ b) = if (scanControlSequence a).2 then ((scanControlSequence a).1 +:+ b, true) else scanControlSequence b.
Proof. induction a as [|c r IH]; [done|]. cbn. by destruct (_ && _). Qed.
Lemma scanControlSequence_ends a : endsAscii a = true → endsAscii (scanControlSequence a).1 = true.
Proof. induction a as [|c r IH]; [done|]. intros Ha%endsAscii_tail. cbn. case_match; [done|by apply IH]. Qed.
Lemma scanStringControl_ends a : endsAscii a = true → endsAscii (scanStringControl a).1.1 = true.
Proof. induction a as [|c r IH]; [done|]. intros Ha%endsAscii_tail. cbn. repeat (case_match; [by try apply (endsAscii_sdrop 1)|]). by apply IH. Qed.
Lemma scanCSI_splits a b : endsAscii a = true → b ≠ "" → splits scanCSI a b.
Proof.
  intros Ha Hb. destruct b as [|d b]; [done|]. unfold splits, scanCSI. rewrite scanControlSequence_app.
  pose proof (scanControlSequence_ends a Ha). destruct (scanControlSequence a) as [r []]; cbn [snd fst]; [done|]. split; [done|]. by rewrite SanitizeBytes_step.
Qed.

Lemma scanStringControl_app a b : endsAscii a = true → b ≠ "" →
  scanStringControl (a +:+ b) =
    match scanStringControl a with
    | (r, true, m) => (r +:+ b, true, m)
    | (_, false, displayStreamStringEsc) => if startsWith 92 b then (sdrop 1 b, true, displayStreamNormal) else scanStringControl b
    | (_, false, _) => scanStringControl b
    end.
Proof.
  intros Ha Hb. induction a as [|c r IH]; [done|]. specialize (IH (endsAscii_tail c r Ha)). cbn [append scanStringControl].
  destruct ((code c =? 7) || (code c =? 156)); [done|]. destruct r as [|d r].
  - cbn [append startsWith]. rewrite !andb_false_r. apply endsAscii_one in Ha. rewrite (proj2 (Nat.eqb_neq (code c) 194)) by lia. cbn [andb].
    destruct (code c =? 27); cbn [andb String.eqb]; [|done]. destruct b; [done|]. by destruct (startsWith 92 _).
  - rewrite !startsWith_app. replace (String.eqb (String d r +:+ b) "") with false by done. replace (String.eqb (String d r) "") with false by done.
    rewrite !andb_false_r. destruct (_ && startsWith 92 _); [done|]. destruct (_ && startsWith 156 _); [done|]. apply IH.
Qed.
Lemma scanStringControl_splits a b : endsAscii a = true → b ≠ "" → splits scanStringControl a b.
Proof.
  intros Ha Hb. unfold splits. rewrite scanStringControl_app by done. pose proof (scanStringControl_ends a Ha).
  destruct (scanStringControl a) as [[r []] m] eqn:Hs; [done|]. split; [done|].
  assert (m = displayStreamString ∨ m = displayStreamStringEsc) as Hm.
  { clear -Hs. revert r m Hs. induction a as [|c a IH]; cbn; intros r m; [intros [= _ <-]; by left|]. repeat (case_match; [intros [=]; auto|]). apply IH. }
  destruct b as [|d b]; [done|]. rewrite SanitizeBytes_step. destruct Hm as [-> | ->]; [done|]. cbn [startsWith streamStep snd].
  destruct (code d =? 92).
  - cbn. by destruct (SanitizeBytes displayStreamNormal b).
  - cbn [goOn]. rewrite SanitizeBytes_step. cbn [streamStep]. by destruct (goOn _).
Qed.
Lemma scanEscContinuation_splits a b : endsAscii a = true → b ≠ "" → splits scanEscContinuation a b.
Proof.
  intros Ha Hb. destruct a as [|c a]; unfold splits.
  - destruct b as [|d b]; [done|]. split; [done|]. by rewrite SanitizeBytes_step.
  - cbn [append scanEscContinuation]. apply endsAscii_tail in Ha. destruct (Ascii.eqb c "["); [by apply scanCSI_splits|].
    destruct (startsString c); [by apply scanStringControl_splits|done].
Qed.

(** A sequence does not reach over an ASCII byte. *)
Lemma rune_app c r b : endsAscii (String c r) = true → 128 ≤ code c →
  FullRune (String c r) = true ∧ FullRune (String c (r +:+ b)) = true ∧ utf8_span (String c (r +:+ b)) = utf8_span (String c r).
Proof.
  intros Ha Hc. assert (∀ d lo hi, code d < 128 → 128 ≤ lo → in_range lo hi d = false) as Hr.
  { intros d lo hi Hd Hlo. unfold in_range. fold (code d). by rewrite (proj2 (Nat.leb_gt lo (code d))) by lia. }
  assert (∀ d, code d < 128 → secondOk c d = false) as H2.
  { intros d Hd. unfold secondOk. cbv zeta. rewrite (proj2 (Nat.leb_gt _ (code d))); [done|]. repeat case_match; lia. }
  assert (∀ e, code e < 128 → (128 <=? code e) = false) as H3 by (intros e He; apply Nat.leb_gt; lia).
  assert (∀ t, 4 ≤ slen t → (runeLen c <=? slen t) = true) as H4.
  { intros t Ht. apply Nat.leb_le. unfold runeLen. cbv zeta. repeat case_match; lia. }
  destruct r as [|d r]; [apply endsAscii_one in Ha; lia|]. apply endsAscii_tail in Ha. destruct r as [|e r].
  { apply endsAscii_one in Ha. cbn [append]. unfold FullRune. rewrite !H2, !orb_true_r by done. split_and!; [done..|].
    unfold utf8_span, cont. fold (code c). rewrite (proj2 (Nat.ltb_ge (code c) 128)) by done. cbv zeta.
    destruct b as [|b1 [|b2 b]]; rewrite !(Hr d) by lia; rewrite ?andb_false_r; try done; repeat (case_match; try done). }
  apply endsAscii_tail in Ha. destruct r as [|f r].
  { apply endsAscii_one in Ha. cbn [append]. unfold FullRune. rewrite !H3, !orb_true_r by done. split_and!; [done..|].
    unfold utf8_span, cont. rewrite !(Hr e) by (done || lia). destruct b as [|b1 b]; cbv zeta; rewrite ?andb_false_r; try done; repeat (case_match; try done). }
  cbn [append]. unfold FullRune. rewrite !H4 by (cbn; lia). done.
Qed.

Lemma streamRune_app c r b : endsAscii (String c r) = true → 128 ≤ code c → b ≠ "" →
  extends b (streamRune (String c r)) (streamRune (String c (r +:+ b))).
Proof.
  intros Ha Hc Hb. destruct (rune_app c r b Ha Hc) as (F1 & F2 & Hs). unfold streamRune. rewrite F1, F2, Hs. cbn [negb].
  destruct (utf8_span (String c r)) as [n|] eqn:Hn; [|split; [done|by eapply endsAscii_tail]].
  destruct (utf8_span_stake n _ (sdrop n (String c r)) Hn) as (_ & R1 & Hl & _). destruct (utf8_span_stake n _ (sdrop n (String c r) +:+ b) Hn) as (_ & R2 & _ & _).
  rewrite slen_stake in Hl. replace (stake n (String c r) +:+ sdrop n (String c r) +:+ b) with (String c (r +:+ b)) in R2
    by (by rewrite sapp_assoc, stake_sdrop).
  rewrite R2. replace (sdrop n (String c (r +:+ b))) with (sdrop n (String c r) +:+ b) by (symmetry; apply (sdrop_app_le n (String c r) b); lia).
  replace (stake n (String c (r +:+ b))) with (stake n (String c r)) by (symmetry; apply (stake_app_le n (String c r) b); lia).
  pose proof (endsAscii_sdrop n _ Ha) as Hd. cbv zeta.
  destruct (_ =? 155); [by apply scanCSI_splits|]. destruct (isC1StringControl _); [by apply scanStringControl_splits|done].
Qed.
Lemma streamStep_app m c r b : endsAscii (String c r) = true → b ≠ "" → extends b (streamStep m c r) (streamStep m c (r +:+ b)).
Proof.
  intros Ha Hb. pose proof (endsAscii_tail c r Ha) as Hr. unfold streamStep. destruct m.
  - destruct (_ =? 27); [by apply scanEscContinuation_splits|]. destruct (_ =? 155); [by apply scanCSI_splits|].
    destruct (isC1StringControl _); [by apply scanStringControl_splits|]. destruct (_ || _); [done|].
    destruct (code c <? 128) eqn:Hc; [done|]. apply Nat.ltb_ge in Hc. by apply streamRune_app.
  - by apply (scanEscContinuation_splits (String c r)).
  - by apply (scanCSI_splits (String c r)).
  - by apply (scanStringControl_splits (String c r)).
  - by destruct (_ =? 92).
Qed.

Lemma SanitizeBytes_app m a b : endsAscii a = true →
  SanitizeBytes m (a +:+ b) = let '(o1, m1) := SanitizeBytes m a in let '(o2, m2) := SanitizeBytes m1 b in (o1 +:+ o2, m2).
Proof.
  intros Ha. destruct (decide (b = "")) as [-> | Hb]; [rewrite sapp_nil_r; destruct (SanitizeBytes m a) as [o1 []]; cbn; by rewrite sapp_nil_r|].
  remember (measure m a) as k eqn:Hk. revert m a Hk Ha. induction (lt_wf k) as [k _ IH]. intros m [|c r] Hk Ha; [change (SanitizeBytes m "") with ("", m); cbn [append]; by destruct (SanitizeBytes m b)|].
  cbn [append]. rewrite !SanitizeBytes_step. pose proof (streamStep_app m c r b Ha Hb) as Hx. unfold extends in Hx.
  destruct (streamStep m c r) as [[out [next|]] m'] eqn:Hs.
  - destruct Hx as [-> Hn]. apply streamStep_next in Hs. cbn [goOn]. rewrite (IH (measure m' next)) by (done || lia).
    destruct (SanitizeBytes m' next) as [o1 m1]. destruct (SanitizeBytes m1 b) as [o2 m2]. by rewrite sapp_assoc.
  - destruct Hx as [-> ->]. cbn [goOn]. by destruct (SanitizeBytes m' b).
Qed.

(** *** A chunk on its own is sanitised as a text *)

Lemma skipControlSequence_scan s : skipControlSequence s = (scanControlSequence s).1 ∧ ((scanControlSequence s).2 = false → (scanControlSequence s).1 = "").
Proof. induction s as [|c r IH]; [done|]. cbn. by destruct (_ && _). Qed.
Lemma skipStringControl_scan s : skipStringControl s = (scanStringControl s).1.1 ∧ ((scanStringControl s).1.2 = false → (scanStringControl s).1.1 = "").
Proof.
  induction s as [|c r IH]; [done|]. cbn. destruct (_ || _); [done|]. destruct (_ && startsWith 92 _); [done|].
  destruct (code c =? 27) eqn:Hc; cbn [andb].
  - apply Nat.eqb_eq in Hc. rewrite Hc. destruct r; cbn; [done|]. apply IH.
  - destruct (_ && _); [done|apply IH].
Qed.
Lemma skipEscapeSequence_scan s : skipEscapeSequence s = (scanEscContinuation s).1.1 ∧ ((scanEscContinuation s).1.2 = false → (scanEscContinuation s).1.1 = "").
Proof.
  destruct s as [|c r]; [done|]. cbn [skipEscapeSequence scanEscContinuation]. destruct (Ascii.eqb c "["); [apply skipControlSequence_scan|].
  destruct (startsString c); [apply skipStringControl_scan|done].
Qed.

Lemma sanitizeStep_len c rest : slen (sanitizeStep c rest).2 ≤ slen rest.
Proof.
  assert (∀ s, slen (skipControlSequence s) ≤ slen s) as HC by (intros s; rewrite (proj1 (skipControlSequence_scan s)); pose proof (scanControlSequence_len s); lia).
  assert (∀ s, slen (skipStringControl s) ≤ slen s) as HS by (intros s; rewrite (proj1 (skipStringControl_scan s)); pose proof (scanStringControl_len s); lia).
  pose proof (scanEscContinuation_len rest). pose proof (HC rest). pose proof (HS rest). unfold sanitizeStep. rewrite (proj1 (skipEscapeSequence_scan rest)).
  repeat (case_match; [cbn; lia|]). unfold sanitizeRune. destruct (utf8_span _) as [n|] eqn:Hs; [|cbn; lia].
  destruct (utf8_span_stake n _ "" Hs) as (_ & _ & Hl & Hn). rewrite slen_stake in Hl.
  assert (slen (sdrop n (String c rest)) ≤ slen rest) by (rewrite slen_sdrop; cbn in *; lia).
  pose proof (HC (sdrop n (String c rest))). pose proof (HS (sdrop n (String c rest))). cbv zeta. repeat case_match; cbn [snd]; lia.
Qed.
Lemma sanitizeLoop_fuel n1 n2 s : slen s ≤ n1 → slen s ≤ n2 → sanitizeLoop n1 s = sanitizeLoop n2 s.
Proof.
  revert n2 s. induction n1 as [|n1 IH]; intros [|n2] [|c rest] H1 H2; try done; try (cbn in *; lia).
  cbn [sanitizeLoop]. pose proof (sanitizeStep_len c rest). destruct (sanitizeStep c rest) as [out next]. cbn in *. by rewrite (IH n2 next) by lia.
Qed.
Lemma SanitizeDisplayBytes_step c rest :
  SanitizeDisplayBytes (String c rest) = (sanitizeStep c rest).1 +:+ SanitizeDisplayBytes (sanitizeStep c rest).2.
Proof.
  unfold SanitizeDisplayBytes at 1. cbn [String.length sanitizeLoop]. pose proof (sanitizeStep_len c rest). destruct (sanitizeStep c rest) as [out next].
  cbn in *. unfold SanitizeDisplayBytes. by rewrite (sanitizeLoop_fuel (slen rest) (slen next)) by lia.
Qed.

(** The bytes that continue a sequence are not shown on their own. *)
Lemma continuation_hidden d rest : 128 ≤ code d < 194 →
  sanitizeStep d rest = ("", rest) ∨ sanitizeStep d rest = ("", skipControlSequence rest) ∨ sanitizeStep d rest = ("", skipStringControl rest).
Proof.
  intros Hd. unfold sanitizeStep. rewrite (proj2 (Nat.eqb_neq (code d) 27)), (proj2 (Nat.ltb_ge (code d) 128)), (proj2 (Nat.ltb_ge (code d) 32)),
    (proj2 (Nat.eqb_neq (code d) 127)) by lia. cbn [orb]. destruct (_ =? 155); [auto|]. destruct (isC1StringControl _); [auto|]. left. unfold sanitizeRune.
  destruct (utf8_span _) eqn:Hs; [|done]. apply utf8_span_first in Hs. lia.
Qed.
Lemma continuations_hidden s : slen s ≤ 2 → (∀ d, d ∈ list_ascii_of_string s → 128 ≤ code d < 194) → SanitizeDisplayBytes s = "".
Proof.
  intros Hl Hs. destruct s as [|d [|e [|? ?]]]; [done| |..|cbn in Hl; lia].
  - rewrite SanitizeDisplayBytes_step. destruct (continuation_hidden d "") as [->|[->| ->]]; [apply Hs; cbn; left|done..].
  - assert (SanitizeDisplayBytes (String e "") = "") as He.
    { rewrite SanitizeDisplayBytes_step. destruct (continuation_hidden e "") as [->|[->| ->]]; [apply Hs; cbn; right; left|done..]. }
    rewrite SanitizeDisplayBytes_step. destruct (continuation_hidden d (String e "")) as [->|[->| ->]]; [apply Hs; cbn; left|exact He|..]; cbn; by repeat case_match.
Qed.
Lemma secondOk_range c d : secondOk c d = true → 128 ≤ code d < 194.
Proof. unfold secondOk. cbv zeta. intros [H1%Nat.leb_le H2%Nat.leb_le]%andb_prop. revert H1 H2. repeat case_match; lia. Qed.
Lemma FullRune_cut c r : FullRune (String c r) = false → 128 ≤ code c →
  utf8_span (String c r) = None ∧ slen r ≤ 2 ∧ ∀ d, d ∈ list_ascii_of_string r → 128 ≤ code d < 194.
Proof.
  unfold FullRune. intros [Hn Hr]%orb_false_iff Hc. apply Nat.leb_gt in Hn.
  assert (Hk : runeLen c ≤ 4) by (unfold runeLen; cbv zeta; repeat case_match; lia).
  assert (Hlo : ∀ k, k < runeLen c → (2 ≤ k → 224 ≤ code c) ∧ (3 ≤ k → 240 ≤ code c)).
  { intros k. unfold runeLen. cbv zeta. destruct (_ || _); [lia|]. destruct (code c <? 224) eqn:H1; [lia|]. apply Nat.ltb_ge in H1.
    destruct (code c <? 240) eqn:H2; [lia|]. apply Nat.ltb_ge in H2. lia. }
  unfold utf8_span, in_range. fold (code c). rewrite (proj2 (Nat.ltb_ge (code c) 128)) by done. cbv zeta.
  destruct r as [|d r]; [split_and!; [done|cbn; lia|]; intros d Hd; inversion Hd|].
  apply orb_false_iff in Hr as [Hd Hr]. apply negb_false_iff in Hd. apply secondOk_range in Hd.
  destruct (Hlo (slen (String c (String d r))) Hn) as [H2 H3]. cbn [String.length] in *. rewrite (proj2 (Nat.leb_gt (code c) 223)), andb_false_r by lia.
  destruct r as [|e r]; [split_and!; [done|cbn; lia|]; intros x Hx; cbn in Hx; apply list_elem_of_singleton in Hx as ->; done|].
  apply negb_false_iff, andb_prop in Hr as [He1%Nat.leb_le He2%Nat.leb_le]. cbn [String.length] in *.
  rewrite (proj2 (Nat.eqb_neq (code c) 224)), (proj2 (Nat.eqb_neq (code c) 237)), (proj2 (Nat.leb_gt (code c) 239)), andb_false_r by lia.
  destruct r as [|f r]; [|cbn [String.length] in *; lia]. split_and!; [done|cbn; lia|].
  intros x Hx. cbn in Hx. apply elem_of_cons in Hx as [->|Hx]; [done|]. apply list_elem_of_singleton in Hx as ->. lia.
Qed.

(** A turn of the stream, next to the turn of the text. *)
Definition agrees (x : string * option string * displayStreamMode) (y : string * string) : Prop :=
  match x with
  | (out, Some next, m) => m = displayStreamNormal ∧ y = (out, next)
  | (out, None, _) => out = "" ∧ y.1 = "" ∧ SanitizeDisplayBytes y.2 = ""
  end.
Lemma afterScan_agrees x q : q = x.1.1 ∧ (x.1.2 = false → x.1.1 = "") → agrees (afterScan x) ("", q).
Proof. intros [-> H]. unfold afterScan. destruct (x.1.2); [done|]. cbn. by rewrite H. Qed.
Lemma streamStep_agrees c rest : agrees (streamStep displayStreamNormal c rest) (sanitizeStep c rest).
Proof.
  assert (∀ s, agrees (afterScan (scanCSI s)) ("", skipControlSequence s)) as HC by (intros s; apply afterScan_agrees, skipControlSequence_scan).
  assert (∀ s, agrees (afterScan (scanStringControl s)) ("", skipStringControl s)) as HS by (intros s; apply afterScan_agrees, skipStringControl_scan).
  unfold streamStep, sanitizeStep. cbv zeta. destruct (_ =? 27); [apply afterScan_agrees, skipEscapeSequence_scan|]. destruct (_ =? 155); [apply HC|].
  destruct (isC1StringControl _); [apply HS|]. destruct (_ || _); [done|]. destruct (code c <? 128) eqn:Hc; [done|]. apply Nat.ltb_ge in Hc.
  unfold streamRune, sanitizeRune. destruct (FullRune (String c rest)) eqn:Hf; cbn [negb].
  - destruct (utf8_span _); [|done]. cbv zeta. destruct (_ =? 155); [apply HC|]. by destruct (isC1StringControl _); [apply HS|].
  - destruct (FullRune_cut c rest Hf Hc) as (-> & Hl & Hd). split_and!; [done..|]. by apply continuations_hidden.
Qed.
Lemma SanitizeBytes_text s : (SanitizeBytes displayStreamNormal s).1 = SanitizeDisplayBytes s.
Proof.
  remember (slen s) as k eqn:Hk. revert s Hk. induction (lt_wf k) as [k _ IH]. intros [|c rest] Hk; [done|].
  rewrite SanitizeBytes_step, SanitizeDisplayBytes_step. pose proof (streamStep_agrees c rest) as Ha. pose proof (sanitizeStep_len c rest) as Hl.
  destruct (streamStep _ c rest) as [[out [next|]] m]; cbn [goOn agrees] in *.
  - destruct Ha as [-> Ha]. rewrite Ha in Hl |- *. cbn [fst snd String.length] in Hl, Hk |- *. rewrite <- (IH (slen next)) by (done || lia). by destruct (SanitizeBytes _ next).
  - by destruct Ha as (-> & -> & ->).
Qed.

(** What is shown of the chunks of a stream. *)
Fixpoint SanitizeChunks (m : displayStreamMode) (chunks : list string) : list string :=
  match chunks with
  | [] => []
  | c :: chunks => let '(o, m) := SanitizeBytes m c in o :: SanitizeChunks m chunks
  end.
Definition joined (l : list string) : string := foldr (λ a s, a +:+ s) "" l.

Lemma SanitizeChunks_joined m chunks : Forall (λ c, endsAscii c = true) chunks → joined (SanitizeChunks m chunks) = (SanitizeBytes m (joined chunks)).1.
Proof.
  intros H. revert m. induction H as [|c chunks Hc _ IH]; intros m; [done|]. cbn [SanitizeChunks joined foldr]. rewrite SanitizeBytes_app by done.
  destruct (SanitizeBytes m c) as [o m']. change (o +:+ joined (SanitizeChunks m' chunks) = (let '(o2, m2) := SanitizeBytes m' (joined chunks) in (o +:+ o2, m2)).1).
  rewrite IH. by destruct (SanitizeBytes m' (joined chunks)).
Qed.

(** C40: A stream is sanitised as its text is: when every chunk ends in an ASCII byte, what is shown of
    the chunks is, put together, what is shown of the whole, wherever a terminal sequence has been cut. *)
Theorem stream_as_text chunks : Forall (λ c, endsAscii c = true) chunks →
  joined (SanitizeChunks displayStreamNormal chunks) = SanitizeDisplayBytes (joined chunks).
Proof. intros H. by rewrite SanitizeChunks_joined, SanitizeBytes_text. Qed.
(** An OSC sequence cut in the middle, and a colour cut before its end. *)
Definition cutChunks : list string :=
  ["ok " +:+ String (chr 27) "]0;tit"; "le" +:+ String (chr 27) ""; "\ red " +:+ String (chr 27) "[3"; "1mfoo"].
Lemma stream_as_text_witness :
  Forall (λ c, endsAscii c = true) cutChunks ∧ joined (SanitizeChunks displayStreamNormal cutChunks) = "ok  red foo".
Proof.
  assert (Forall (λ c, endsAscii c = true) cutChunks) as H by (repeat constructor).
  split; [exact H|]. rewrite (stream_as_text cutChunks H). vm_compute. reflexivity.
Defined.

(** A chunk that ends in a character: what is left of it is read on its own, here as the start of a
    sequence that hides the text after it. *)
Definition cutRune : list string := [String (chr 195) ""; String (chr 155) " shown"].
Lemma cut_rune_hides : joined (SanitizeChunks displayStreamNormal cutRune) = "hown" ∧ SanitizeDisplayBytes (joined cutRune) = joined cutRune.
Proof. split; vm_compute; reflexivity. Qed.
