(* ===== verification/Commit.v ===== *)
(** * engine/nodekey.go, engine/commit.go: committing a node

    The cache key of a deterministic node, and [Commit]: put every artifact, then append
    node.completed, then sync.  The handlers run in the state of the log and the blob store, against
    the interfaces of Journal. *)

From S2P Require Import Prelude GoNum GoJson GoStruct Sha256 StateBlobs StateLog EngineEvents Ir Agent RunState EngineFold Journal.

(** ** nodekey.go *)

Definition isDeterministicNode (n : option Node) : bool :=
  match n with Some (NCode _) => true | _ => false end.

(** [binary.LittleEndian.PutUint64]. *)
Fixpoint le_bytes (k : nat) (z : Z) : string :=
  match k with
  | O => ""
  | S k => String (ascii_of_nat (Z.to_nat (z mod 256))) (le_bytes k (z / 256))
  end.
Definition putUint64 (z : Z) : string := le_bytes 8 (wrap_u64 z).

(** What [frameString] and [frameList] write. *)
Definition frameString (s : string) : string := putUint64 (Z.of_nat (slen s)) +:+ s.
Definition frameList (ss : list string) : string :=
  putUint64 (Z.of_nat (length ss)) +:+ concat_str (map frameString ss).

Definition node_key_stream (subtreeDigest : string) (inputRefs runtimePins : list string) : string :=
  frameString subtreeDigest +:+ frameList (sort_strings inputRefs) +:+ frameList (sort_strings runtimePins).
Definition computeNodeKey (subtreeDigest : string) (inputRefs runtimePins : list string) : string :=
  digest_of (node_key_stream subtreeDigest inputRefs runtimePins).
Definition ComputeNodeKey := computeNodeKey.

(** ** dispatcher.go: the result of a dispatch *)

Record CapturedFile : Type := MkCaptured { cfPath : string; cfContent : string }.

Record LiveDispatchRecord : Type := MkLive {
  ldrAdapterRef : string; ldrSessionKey : string; ldrSessionKeyHash : string; ldrLeaseID : string;
  ldrActiveTurnID : string; ldrProviderTurnID : string; ldrRunID : string; ldrNodePath : string;
  ldrEpoch : Z; ldrCommittedUnix : Z }.

(** An error of a dispatch: its text, and whether it is [agent.ErrLiveReplayRequired]. *)
Record dispErr : Type := MkDispErr { deText : string; deLiveReplay : bool }.

Record DispatchResult : Type := MkDispatch {
  drOutcome : Outcome; drExitCode : option Z; drOutputs : gomap; drStdout : string;
  drFiles : list CapturedFile; drErr : option dispErr; drRetryAfter : Z; drMetrics : option MetricSet;
  drTranscript : ThreadTurn; drLive : option LiveDispatchRecord; drSnapshotRef : string;
  drContainer : string; drSessionTranscript : string; drSessionRef : string; drNode : option Node;
  drInputRefs : list string;
  drAgentEvents : list AgentEvent }.

Definition zeroDispatch : DispatchResult :=
  MkDispatch "" None None "" [] None 0 None zeroTurn None "" "" "" "" None [] [].

(** ** Handlers *)

Inductive engErr : Type :=
  | RefuseOutcome (o path : string)
  | MarshalFailed (what path : string)
  | PutFailed (what path : string) (cause : blobErr)
  | GetFailed (what path : string) (cause : blobErr)
  | SubtreeDigestFailed (path : string)
  | AppendFailed (what path : string) (cause : logErr)
  | SyncFailed (what path : string) (cause : logErr).

Section handlers.
Context `{Log L} `{Blobs B}.

(** A handler: its result, and the log and the store afterwards. *)
Definition handler (A : Type) : Type := L * B → res engErr A * (L * B).
Definition hret {A} (a : A) : handler A := λ s, (Ok a, s).
Definition hfail {A} (e : engErr) : handler A := λ s, (Err e, s).
Definition hbind {A C} (m : handler A) (k : A → handler C) : handler C :=
  λ s, match m s with (Ok a, s') => k a s' | (Err e, s') => (Err e, s') end.

Definition hput (what path content : string) : handler string := λ s,
  match blobsPut content s.2 with
  | (Ok ref, b) => (Ok ref, (s.1, b))
  | (Err e, b) => (Err (PutFailed what path e), (s.1, b))
  end.
Definition happend (what path : string) (e : Event) : handler () := λ s,
  match logAppend e s.1 with
  | (None, l) => (Ok (), (l, s.2))
  | (Some x, l) => (Err (AppendFailed what path x), (l, s.2))
  end.
Definition hsync (what path : string) : handler () := λ s,
  match logSync s.1 with
  | (None, l) => (Ok (), (l, s.2))
  | (Some x, l) => (Err (SyncFailed what path x), (l, s.2))
  end.
(** [json.Marshal] of a payload. *)
Definition hmarshal (what path : string) (j : json) : handler json :=
  match marshal j with Some d => hret d | None => hfail (MarshalFailed what path) end.
End handlers.
#[global] Arguments handler : clear implicits.

Notation "'let!' x := m 'in' k" := (hbind m (λ x, k))
  (at level 10, x pattern, m at level 100, k at level 200) : awf_scope.

Section commit.
Context `{Log L} `{Blobs B}.
(** [jcs.Transform]. *)
Variable jcs : string → option string.

(** A fresh event of the engine: the log numbers it. *)
Definition newEvent (ty path : string) (d : json) : Event := MkEvent 0 0 time_zero path ty "" (Some d).

Definition withUsage (d : NodeCompletedData) : NodeCompletedData :=
  match ncUsage d with
  | Some _ => d
  | None => MkNodeCompletedData (ncOutcome d) (ncExitCode d) (ncOutputsRef d) (ncStdoutRef d) (ncFiles d)
              (Some zeroMetrics) (ncSnapshotRef d) (ncContainer d) (ncTranscriptRef d) (ncNodeKey d)
              (ncNodeSubtreeDigest d) (ncSessionRef d)
  end.

Definition appendNodeCompleted (path : string) (data : NodeCompletedData) : handler L B () :=
  let! d := hmarshal EventNodeCompleted path (NodeCompletedData_json (withUsage data)) in
  let! _ := happend EventNodeCompleted path (newEvent EventNodeCompleted path d) in
  hsync EventNodeCompleted path.

Definition marshalCanonicalJSON (v : value) : option string := Marshal v.

(** The typed outputs: nothing to put when nil. *)
Definition putOutputs (path : string) (outputs : gomap) : handler L B string :=
  match outputs with
  | None => hret ""
  | Some l => match marshalCanonicalJSON (VMap l) with
              | None => hfail (MarshalFailed "outputs" path)
              | Some bytes => hput "outputs" path bytes
              end
  end.
Definition putNonEmpty (what path content : string) : handler L B string :=
  if String.eqb content "" then hret "" else hput what path content.

(** The files, each under its path; a repeated path keeps its last reference. *)
Fixpoint putFiles (path : string) (fs : list CapturedFile) (acc : gmap string string)
    : handler L B (gmap string string) :=
  match fs with
  | [] => hret acc
  | f :: fs => let! ref := hput "file" path (cfContent f) in putFiles path fs (<[cfPath f := ref]> acc)
  end.

(** The key and the subtree digest of a deterministic node. *)
Definition nodeKeyOf (path : string) (dr : DispatchResult) : handler L B (string * string) :=
  match drNode dr with
  | Some n =>
      if isDeterministicNode (Some n) then
        match NodeSubtreeDigest jcs n with
        | None => hfail (SubtreeDigestFailed path)
        | Some d => hret (computeNodeKey d (drInputRefs dr) [], d)
        end
      else hret ("", "")
  | None => hret ("", "")
  end.

(** The artifacts are put and the record is built. *)
Definition prepareCommit (path : string) (dr : DispatchResult) (participates : bool)
    : handler L B (NodeResult * NodeCompletedData) :=
  let! outputsRef := putOutputs path (drOutputs dr) in
  let! stdoutRef := putNonEmpty "stdout" path (drStdout dr) in
  let! files := putFiles path (drFiles dr) ∅ in
  let! transcriptRef := (if participates then hput "transcript" path (json_print (ThreadTurn_json (drTranscript dr)))
                         else hret "") in
  let! sessionRef := (if String.eqb (drSessionRef dr) ""
                      then putNonEmpty "session transcript" path (drSessionTranscript dr)
                      else hret (drSessionRef dr)) in
  let! key := nodeKeyOf path dr in
  hret (MkNodeResult (drOutcome dr) (drExitCode dr) (drOutputs dr) outputsRef (drStdout dr) stdoutRef files
          (if participates then drTranscript dr else zeroTurn) key.1 key.2,
        MkNodeCompletedData (drOutcome dr) (drExitCode dr) outputsRef stdoutRef files (drMetrics dr)
          (drSnapshotRef dr) (drContainer dr) transcriptRef key.1 key.2 sessionRef).

Definition Commit (path : string) (dr : DispatchResult) (participates : bool) : handler L B NodeResult :=
  if negb (String.eqb (drOutcome dr) OutcomeOK) then hfail (RefuseOutcome (drOutcome dr) path) else
  let! (nr, data) := prepareCommit path dr participates in
  let! _ := appendNodeCompleted path data in
  hret nr.
End commit.

(** ** What the handlers do *)

Lemma hbind_inv {L B A C} (m : handler L B A) (k : A → handler L B C) s r s' :
  hbind m k s = (r, s') →
  (∃ a s1, m s = (Ok a, s1) ∧ k a s1 = (r, s')) ∨ (∃ e, m s = (Err e, s') ∧ r = Err e).
Proof. unfold hbind. destruct (m s) as [[a|e] s1]; [intros H; left; eauto|intros [= <- <-]; right; eauto]. Qed.

Lemma hbind_ok {L B A C} (m : handler L B A) (k : A → handler L B C) s c s' :
  hbind m k s = (Ok c, s') → ∃ a s1, m s = (Ok a, s1) ∧ k a s1 = (Ok c, s').
Proof. by intros [H|(e & _ & H)]%hbind_inv. Qed.
Lemma Commit_outputs `{Log L} `{Blobs B} jcs path dr p (s : L * B) nr s' : Commit jcs path dr p s = (Ok nr, s') → nrOutputs nr = drOutputs dr.
Proof.
  unfold Commit. destruct (negb _); [done|]. intros ([nr' d] & s1 & Hp & Hc)%hbind_ok. apply hbind_ok in Hc as (u & s2 & _ & Hc). injection Hc as <- _.
  unfold prepareCommit in Hp. do 6 (apply hbind_ok in Hp as (? & ? & _ & Hp)). by injection Hp as <- _.
Qed.

Section commit_lemmas.
Context `{HL : TimeCodec} {L B : Type} {HLog : Log L} {HLaws : LogLaws} {HB : Blobs B} {HBL : BlobsLaws}.
Variable jcs : string → option string.

Definition grows (b b' : B) : Prop := ∀ x y, blobsGet b x = Ok y → blobsGet b' x = Ok y.

#[local] Instance grows_preorder : PreOrder grows.
Proof. split; [intros b x y H; exact H|]. intros a b c H1 H2 x y H. by apply H2, H1. Qed.

(** The contents [cs] have addresses of their own. *)
Definition clean (b : B) (cs : list string) : Prop :=
  (∀ c, c ∈ cs → no_collision b c) ∧ (∀ c c', c ∈ cs → c' ∈ cs → RefFor c = RefFor c' → c = c').

Lemma clean_put cs c b r b' : clean b cs → c ∈ cs → blobsPut c b = (r, b') → clean b' cs.
Proof.
  intros [H1 H2] Hc Hp. split; [|done]. intros c' Hc' x Hx.
  destruct r as [ref|e].
  - pose proof (put_ref _ _ _ _ Hp) as ->. destruct (decide (RefFor c' = RefFor c)) as [E|E].
    + rewrite E, (put_get _ _ _ _ (H1 c Hc) Hp) in Hx. injection Hx as <-. symmetry. by apply H2.
    + rewrite (put_frame _ _ _ _ _ Hp E) in Hx. by apply (H1 c').
  - rewrite (put_fail _ _ _ _ Hp) in Hx. by apply (H1 c').
Qed.

(** Only the store has changed, and it has grown. *)
Definition puts (cs : list string) (s s' : L * B) : Prop :=
  s'.1 = s.1 ∧ grows s.2 s'.2 ∧ (clean s.2 cs → clean s'.2 cs).

#[local] Instance puts_preorder cs : PreOrder (puts cs).
Proof.
  split; [by intros s; split; [|split; [reflexivity|]]|].
  intros a b c (H1 & H2 & H3) (H4 & H5 & H6). split; [congruence|]. split; [by transitivity b.2|auto].
Qed.

(** From [s], [m] only puts, and its result satisfies [Q] in the store it leaves. *)
Definition runsAt {A} (cs : list string) (s : L * B) (m : handler L B A) (Q : A → B → Prop) : Prop :=
  ∀ r s', m s = (r, s') → puts cs s s' ∧ ∀ a, r = Ok a → Q a s'.2.

Lemma runs_ret {A} cs s (a : A) Q : Q a s.2 → runsAt cs s (hret a) Q.
Proof. intros HQ r s' [= <- <-]. split; [reflexivity|]. by intros a' [= <-]. Qed.

Lemma runs_bind {A C} cs s (m : handler L B A) (k : A → handler L B C) Q R :
  clean s.2 cs → runsAt cs s m Q →
  (∀ a s1, puts cs s s1 → clean s1.2 cs → Q a s1.2 → runsAt cs s1 (k a) R) → runsAt cs s (hbind m k) R.
Proof.
  intros Hcl Hm Hk r s' Hb. apply hbind_inv in Hb as [(a & s1 & H1 & H2)|(e & H1 & ->)].
  - apply Hm in H1 as [P1 HQ]. destruct (Hk a s1 P1) with (r := r) (s' := s') as [P2 HR];
      [by apply P1|by apply HQ|done|]. split; [by transitivity s1|done].
  - apply Hm in H1 as [P1 _]. by split.
Qed.

(** What a reference stands for: nothing, or a readable content. *)
Definition refers (b : B) (ref : string) (content : option string) : Prop :=
  match content with None => ref = "" | Some c => ref ≠ "" ∧ blobsGet b ref = Ok c end.
Lemma refers_grows b b' ref c : grows b b' → refers b ref c → refers b' ref c.
Proof. intros Hg. destruct c; [|done]. intros [H1 H2]. split; [done|]. by apply Hg. Qed.

Lemma hput_spec cs what path c s :
  c ∈ cs → clean s.2 cs → runsAt cs s (hput what path c) (λ ref b, refers b ref (Some c)).
Proof.
  intros Hc Hcl r s'. unfold hput. destruct (blobsPut c s.2) as [[ref|e] b] eqn:Hp; intros [= <- <-].
  - split; [split; [done|split; [intros x y; by eapply put_keeps|intros _; by eapply clean_put]]|].
    intros ref' [= <-]. pose proof (put_ref _ _ _ _ Hp) as ->. split; [done|].
    eapply put_get; [|done]. by apply Hcl.
  - split; [|done]. split; [done|]. split; [intros x y; by eapply put_keeps|intros _; by eapply clean_put].
Qed.

Definition outputs_bytes (o : gomap) : option string :=
  match o with None => None | Some l => marshalCanonicalJSON (VMap l) end.
Definition nonempty (s : string) : option string := if String.eqb s "" then None else Some s.

Lemma putOutputs_spec cs path o s :
  (∀ c, outputs_bytes o = Some c → c ∈ cs) → clean s.2 cs →
  runsAt cs s (putOutputs path o) (λ ref b, refers b ref (outputs_bytes o) ∧ (o = None ∨ is_Some (outputs_bytes o))).
Proof.
  intros Hc Hcl. unfold putOutputs. destruct o as [l|]; [|by apply runs_ret; split; [|left]].
  cbn [outputs_bytes] in *. destruct (marshalCanonicalJSON (VMap l)) as [c|]; [|by intros r s' [= <- <-]; split].
  intros r s' Hp. apply (hput_spec cs) in Hp as [H1 H2]; [|by apply Hc|done]. split; [done|].
  intros ref Hr. split; [by apply H2|by right].
Qed.

Lemma putNonEmpty_spec cs what path c s :
  (∀ x, nonempty c = Some x → x ∈ cs) → clean s.2 cs →
  runsAt cs s (putNonEmpty what path c) (λ ref b, refers b ref (nonempty c)).
Proof.
  unfold putNonEmpty, nonempty. destruct (String.eqb c ""); intros Hc Hcl; [by apply runs_ret|].
  apply hput_spec; [by apply Hc|done].
Qed.

(** The files of a result by path: the last one captured under a path counts. *)
Definition captured (fs : list CapturedFile) (m : gmap string string) : gmap string string :=
  fold_left (λ m f, <[cfPath f := cfContent f]> m) fs m.

(** The references [refs] are of exactly the contents [m], path by path, and readable. *)
Definition refersAll (b : B) (refs m : gmap string string) : Prop :=
  ∀ x, option_Forall2 (λ ref c, ref ≠ "" ∧ blobsGet b ref = Ok c) (refs !! x) (m !! x).

Lemma refersAll_grows b b' refs m : grows b b' → refersAll b refs m → refersAll b' refs m.
Proof.
  intros Hg H x. specialize (H x). destruct H as [ref c [H1 H2]|]; constructor. split; [done|]. by apply Hg.
Qed.

Lemma refersAll_insert b refs m x ref c :
  refersAll b refs m → refers b ref (Some c) → refersAll b (<[x := ref]> refs) (<[x := c]> m).
Proof.
  intros H Hr y. destruct (decide (y = x)) as [->|]; [rewrite !lookup_insert_eq; by constructor|].
  by rewrite !lookup_insert_ne.
Qed.

Lemma putFiles_spec cs path fs : ∀ acc m s,
  (∀ f, f ∈ fs → cfContent f ∈ cs) → clean s.2 cs → refersAll s.2 acc m →
  runsAt cs s (putFiles path fs acc) (λ refs b, refersAll b refs (captured fs m)).
Proof.
  induction fs as [|f fs IH]; intros acc m s Hc Hcl Hm; cbn [putFiles]; [by apply runs_ret|].
  eapply runs_bind; [done|apply hput_spec; [apply Hc; by left|done]|].
  intros ref s1 (_ & P1 & _) C1 F1. apply IH; [|done|].
  - intros f' Hf'. apply Hc. by right.
  - apply refersAll_insert; [by apply (refersAll_grows s.2)|done].
Qed.

Lemma nodeKeyOf_spec cs path dr s : runsAt cs s (nodeKeyOf jcs path dr) (λ _ _, True).
Proof. intros r s'. unfold nodeKeyOf. repeat case_match; intros [= _ <-]; by split. Qed.

(** *** The record *)

(** Every artifact a commit may put. *)
Definition artifacts (dr : DispatchResult) (participates : bool) : list string :=
  option_list (outputs_bytes (drOutputs dr)) ++ option_list (nonempty (drStdout dr))
  ++ map cfContent (drFiles dr)
  ++ (if participates then [json_print (ThreadTurn_json (drTranscript dr))] else [])
  ++ option_list (nonempty (drSessionTranscript dr)).

(** [Outputs] as the fold reads them back: the JSON they were stored as. *)
Definition reread (o : gomap) : option gomap :=
  match o with
  | None => Some None
  | Some l => bytes ← marshalCanonicalJSON (VMap l); unmarshalMap bytes
  end.

(** The result the log gives back for a committed node. *)
Definition with_outputs (nr : NodeResult) (o : gomap) : NodeResult :=
  MkNodeResult (nrOutcome nr) (nrExitCode nr) o (nrOutputsRef nr) (nrStdout nr) (nrStdoutRef nr) (nrFiles nr)
    (nrTranscript nr) (nrNodeKey nr) (nrNodeSubtreeDigest nr).

(** What a result must be for its record to be readable: numbers in range, text in UTF-8, outputs that
    survive JSON. *)
Record commit_ok (dr : DispatchResult) (participates : bool) (o' : gomap) : Prop := {
  co_exit z : drExitCode dr = Some z → in_i64 z = true;
  co_metrics m : drMetrics dr = Some m → metrics_ok m;
  co_outputs : reread (drOutputs dr) = Some o';
  co_turn : participates = true →
    utf8_valid (ttUser (drTranscript dr)) && utf8_valid (ttAssistant (drTranscript dr)) = true
}.

Definition recordOf (b : B) (path : string) (d : NodeCompletedData) (nr : NodeResult) (o' : gomap) (e : Event) : Prop :=
  same_event (newEvent EventNodeCompleted path (NodeCompletedData_json d)) e ∧
  nodeResult (blobsGet b) e = Ok (d, with_outputs nr o').
Definition isRecord (b : B) (path : string) (nr : NodeResult) (o' : gomap) (e : Event) : Prop :=
  ∃ d, recordOf b path d nr o' e.

(** The result [nr] is that of the dispatch, and every artifact of it is in the store [b], under the
    reference that [nr] or the payload [d] of the record holds for it. *)
Record kept (b : B) (dr : DispatchResult) (participates : bool) (d : NodeCompletedData) (nr : NodeResult) : Prop := {
  kp_result : (nrOutcome nr, nrExitCode nr, nrOutputs nr, nrStdout nr)
              = (drOutcome dr, drExitCode dr, drOutputs dr, drStdout dr);
  kp_outputs : refers b (nrOutputsRef nr) (outputs_bytes (drOutputs dr))
               ∧ (drOutputs dr = None ∨ is_Some (outputs_bytes (drOutputs dr)));
  kp_stdout : refers b (nrStdoutRef nr) (nonempty (drStdout dr));
  kp_files : refersAll b (nrFiles nr) (captured (drFiles dr) ∅);
  kp_transcript : refers b (ncTranscriptRef d)
    (if participates then Some (json_print (ThreadTurn_json (drTranscript dr))) else None);
  kp_session : if String.eqb (drSessionRef dr) "" then refers b (ncSessionRef d) (nonempty (drSessionTranscript dr))
               else ncSessionRef d = drSessionRef dr
}.

Lemma zero_metrics_ok : metrics_ok zeroMetrics.
Proof. repeat split; vm_compute; done. Qed.

Lemma withUsage_ok d :
  (∀ z, ncExitCode d = Some z → in_i64 z = true) → (∀ m, ncUsage d = Some m → metrics_ok m) →
  completed_ok (withUsage d).
Proof.
  intros H1 H2. unfold withUsage, completed_ok. destruct (ncUsage d) as [m|] eqn:E; [split; [done|]|split; [done|]].
  - intros m' [= <-]%(eq_trans (eq_sym E)). by apply H2.
  - cbn. intros m [= <-]. apply zero_metrics_ok.
Qed.

(** The payload and the result [Commit] builds. *)
Definition payload (dr : DispatchResult) (outputsRef stdoutRef : string) (files : gmap string string)
    (transcriptRef sessionRef : string) (key : string * string) : NodeCompletedData :=
  MkNodeCompletedData (drOutcome dr) (drExitCode dr) outputsRef stdoutRef files (drMetrics dr)
    (drSnapshotRef dr) (drContainer dr) transcriptRef key.1 key.2 sessionRef.
Definition result (dr : DispatchResult) (p : bool) (outputsRef stdoutRef : string) (files : gmap string string)
    (key : string * string) : NodeResult :=
  MkNodeResult (drOutcome dr) (drExitCode dr) (drOutputs dr) outputsRef (drStdout dr) stdoutRef files
    (if p then drTranscript dr else zeroTurn) key.1 key.2.

Lemma json_wf_turn t : utf8_valid (ttUser t) && utf8_valid (ttAssistant t) = true → json_wf (ThreadTurn_json t) = true.
Proof. cbn. intros [H1 H2]%andb_prop. by rewrite H1, H2. Qed.

Lemma transcript_readable b path ref dr (p : bool) :
  (p = true → utf8_valid (ttUser (drTranscript dr)) && utf8_valid (ttAssistant (drTranscript dr)) = true) →
  refers b ref (if p then Some (json_print (ThreadTurn_json (drTranscript dr))) else None) →
  readTranscript (blobsGet b) ref path = Ok (if p then drTranscript dr else zeroTurn).
Proof.
  intros Hu Hr. unfold readTranscript. destruct p; cbn [refers] in Hr; [|by subst ref].
  destruct Hr as [Hne Hg]. destruct (String.eqb_spec ref ""); [done|]. unfold readRef. rewrite Hg.
  cbn [res_map_err res_bind]. rewrite json_parse_print by (apply json_wf_turn; auto).
  cbn [mbind option_bind]. by rewrite ThreadTurn_read.
Qed.

Lemma record_readable b path dr p o' or sr files tr se key e :
  commit_ok dr p o' → drOutcome dr = OutcomeOK →
  refers b or (outputs_bytes (drOutputs dr)) → (drOutputs dr = None ∨ is_Some (outputs_bytes (drOutputs dr))) →
  refers b sr (nonempty (drStdout dr)) →
  refers b tr (if p then Some (json_print (ThreadTurn_json (drTranscript dr))) else None) →
  same_event (newEvent EventNodeCompleted path (NodeCompletedData_json (withUsage (payload dr or sr files tr se key)))) e →
  nodeResult (blobsGet b) e =
    Ok (withUsage (payload dr or sr files tr se key), with_outputs (result dr p or sr files key) o').
Proof.
  intros [He Hm Ho Ht] Hoc Hor Hsome Hsr Htr (Hp & _ & _ & Hd). cbn [Path Data newEvent] in *.
  unfold nodeResult, parseData. rewrite Hd. cbn [mbind option_bind].
  rewrite NodeCompletedData_read by (apply withUsage_ok; [exact He|exact Hm]). cbn [res_bind].
  set (d := withUsage _).
  assert (E : (ncOutcome d, ncExitCode d, ncOutputsRef d, ncStdoutRef d, ncFiles d)
              = (drOutcome dr, drExitCode dr, or, sr, files)
            ∧ (ncTranscriptRef d, ncNodeKey d, ncNodeSubtreeDigest d) = (tr, key.1, key.2)).
  { unfold d, withUsage, payload. cbn [ncUsage]. by destruct (drMetrics dr). }
  destruct E as [E1 E2]. injection E1 as -> -> -> -> ->. injection E2 as -> -> ->. rewrite Hoc.
  change (ParseOutcome OutcomeOK) with (Some OutcomeOK). cbv beta iota. rewrite String.eqb_refl. cbn [negb].
  assert (Eo : readMapIf (blobsGet b) or (Path e) = Ok o').
  { unfold readMapIf, reread in *. destruct (drOutputs dr) as [l|]; cbn [outputs_bytes refers] in *.
    - destruct Hsome as [|[bytes Hb]]; [done|]. rewrite Hb in *. destruct Hor as [Hne Hg].
      destruct (String.eqb_spec or ""); [done|]. unfold readMap, readRef. rewrite Hg.
      cbn [res_map_err res_bind mbind option_bind] in *. by rewrite Ho.
    - subst or. by injection Ho as <-. }
  rewrite Eo. cbn [res_bind].
  assert (Es : (if String.eqb sr "" then Ok "" else readRef (blobsGet b) sr (Path e)) = Ok (drStdout dr)).
  { unfold nonempty in Hsr. destruct (String.eqb_spec (drStdout dr) "") as [->|Hne]; cbn [refers] in Hsr; [by subst sr|].
    destruct Hsr as [Hne' Hg]. destruct (String.eqb_spec sr ""); [done|]. unfold readRef. by rewrite Hg. }
  rewrite Es. cbn [res_bind]. rewrite (transcript_readable _ _ _ dr p) by (done || auto).
  cbn [res_bind]. unfold with_outputs, result. cbn [nrOutcome]. by rewrite Hoc.
Qed.

(** The end of a commit: nothing is logged, or the whole record is, synced or not. *)
Lemma append_spec path d (s : L * B) r s' :
  logOK s.1 → appendNodeCompleted path d s = (r, s') →
  s'.2 = s.2 ∧
  ((is_ok r = false ∧ logEvents s'.1 = logEvents s.1) ∨
   (∃ e, same_event (newEvent EventNodeCompleted path (NodeCompletedData_json (withUsage d))) e ∧
         logEvents s'.1 = logEvents s.1 ++ [e] ∧
         ((r = Ok () ∧ logOK s'.1) ∨ ∃ x, r = Err (SyncFailed EventNodeCompleted path x) ∧ ∃ l, logSync l = (Some x, s'.1)))).
Proof.
  intros Hok Hb. unfold appendNodeCompleted in Hb.
  apply hbind_inv in Hb as [(j & s1 & H1 & Hb)|(x & H1 & ->)]; unfold hmarshal, marshal in H1;
    destruct (nums_ok _); try discriminate H1.
  - injection H1 as <- <-. apply hbind_inv in Hb as [(u & s1 & H1 & Hb)|(x & H1 & ->)]; unfold happend in H1;
      destruct (logAppend _ s.1) as [[y|] l] eqn:Ha; try discriminate H1.
    + injection H1 as _ <-. apply append_ok in Ha as (Hok' & e & He & Hl); [|done].
      unfold hsync in Hb. cbn [fst snd] in Hb. destruct (logSync l) as [x l'] eqn:Hs.
      pose proof Hs as Hs'. apply sync_ok in Hs as [Hsl Hsk]. destruct x as [x|]; injection Hb as <- <-; (split; [done|right]);
        exists e; cbn [fst]; rewrite Hsl; repeat split; try apply He; try done; [right; exists x; split; [done|by exists l]|left; auto].
    + injection H1 as <- <-. split; [done|]. left. split; [done|]. by apply append_err in Ha.
  - injection H1 as <- <-. split; [done|]. by left.
Qed.

(** What is true of a prepared record. *)
Definition prepared (dr : DispatchResult) (p : bool) (x : NodeResult * NodeCompletedData) (b : B) : Prop :=
  ∃ or sr files tr se key,
    x = (result dr p or sr files key, payload dr or sr files tr se key) ∧
    kept b dr p (withUsage (payload dr or sr files tr se key)) (result dr p or sr files key).

Lemma option_list_elem {A} (o : option A) x : o = Some x → x ∈ option_list o.
Proof. intros ->. by left. Qed.

Lemma putSession_spec cs path dr p (s : L * B) :
  (∀ c, c ∈ artifacts dr p → c ∈ cs) → clean s.2 cs →
  runsAt cs s (if String.eqb (drSessionRef dr) ""
               then putNonEmpty "session transcript" path (drSessionTranscript dr) else hret (drSessionRef dr))
    (λ ref b, if String.eqb (drSessionRef dr) "" then refers b ref (nonempty (drSessionTranscript dr))
              else ref = drSessionRef dr).
Proof.
  intros Hcs Hcl. destruct (String.eqb (drSessionRef dr) ""); [|by apply runs_ret].
  apply putNonEmpty_spec; [|done]. intros c Hc%option_list_elem. apply Hcs. unfold artifacts. rewrite !elem_of_app. auto.
Qed.

Lemma prepare_spec cs path dr p (s : L * B) :
  (∀ c, c ∈ artifacts dr p → c ∈ cs) → clean s.2 cs →
  runsAt cs s (prepareCommit jcs path dr p) (prepared dr p).
Proof.
  intros Hcs Hcl. unfold prepareCommit.
  eapply runs_bind; [done|apply putOutputs_spec; [|done]|]; cbv beta.
  { intros c Hc%option_list_elem. apply Hcs, elem_of_app. by left. }
  intros or s1 P1 C1 [F1 G1]. eapply runs_bind; [done|apply putNonEmpty_spec; [|done]|]; cbv beta.
  { intros c Hc%option_list_elem. apply Hcs. unfold artifacts. rewrite !elem_of_app. auto. }
  intros sr s2 P2 C2 F2. eapply runs_bind; [done|apply (putFiles_spec cs path _ _ ∅); [|done|by constructor]|]; cbv beta.
  { intros f Hf. apply Hcs. unfold artifacts. rewrite !elem_of_app. right; right; left. by apply list_elem_of_fmap_2. }
  intros files s3 P3 C3 F3.
  eapply (runs_bind _ _ _ _ (λ tr b, refers b tr (if p then Some (json_print (ThreadTurn_json (drTranscript dr))) else None)));
    [done| |].
  { destruct p; [|by apply runs_ret]. apply hput_spec; [|done]. apply Hcs. unfold artifacts. rewrite !elem_of_app.
    right; right; right; left. by left. }
  intros tr s4 P4 C4 F4. eapply runs_bind; [done|by apply (putSession_spec cs path dr p)|]; cbv beta.
  intros se s5 P5 C5 F5. eapply runs_bind; [done|apply nodeKeyOf_spec|]; cbv beta.
  intros key s6 P6 C6 _. apply runs_ret. exists or, sr, files, tr, se, key. split; [reflexivity|].
  destruct P2 as (_ & P2 & _), P3 as (_ & P3 & _), P4 as (_ & P4 & _), P5 as (_ & P5 & _), P6 as (_ & P6 & _).
  pose proof (grows_preorder.(PreOrder_Transitive)) as T.
  assert (P56 : grows s4.2 s6.2) by (by eapply T). assert (P46 : grows s3.2 s6.2) by (by eapply T).
  assert (P36 : grows s2.2 s6.2) by (by eapply T). assert (P26 : grows s1.2 s6.2) by (by eapply T).
  assert (E : (ncTranscriptRef (withUsage (payload dr or sr files tr se key)),
               ncSessionRef (withUsage (payload dr or sr files tr se key))) = (tr, se)).
  { unfold withUsage, payload. cbn [ncUsage]. by destruct (drMetrics dr). }
  injection E as E1 E2. split; rewrite ?E1, ?E2; [done|split; [by apply (refers_grows s1.2)|done]
    |by apply (refers_grows s2.2)|by apply (refersAll_grows s3.2)|by apply (refers_grows s4.2)|].
  destruct (String.eqb _ _); [by apply (refers_grows s5.2)|done].
Qed.

(** Every run of [Commit] ends in one of three ways. *)
Lemma Commit_cases cs path dr p o' (s : L * B) r s' :
  logOK s.1 → (∀ c, c ∈ artifacts dr p → c ∈ cs) → clean s.2 cs → commit_ok dr p o' →
  Commit jcs path dr p s = (r, s') →
  (grows s.2 s'.2 ∧ clean s'.2 cs) ∧
  ((is_ok r = false ∧ logEvents s'.1 = logEvents s.1) ∨
   ∃ nr d e, logEvents s'.1 = logEvents s.1 ++ [e] ∧ recordOf s'.2 path d nr o' e ∧ kept s'.2 dr p d nr ∧
           (r = Ok nr ∨ ∃ x, r = Err (SyncFailed EventNodeCompleted path x) ∧ ∃ l, logSync l = (Some x, s'.1))).
Proof.
  intros Hok Hcs Hcl Hco Hc. unfold Commit in Hc.
  destruct (String.eqb_spec (drOutcome dr) OutcomeOK) as [Hoc|]; cbn [negb] in Hc;
    [|injection Hc as <- <-; split; [by split|by left]].
  apply hbind_inv in Hc as [([nr d] & s1 & H1 & Hc)|(e & H1 & ->)];
    (apply (prepare_spec cs path dr p s Hcs Hcl) in H1 as [(Hl & Hg & Hcl1) HQ]; specialize (Hcl1 Hcl));
    [|split; [done|left; by rewrite Hl]].
  destruct (HQ _ eq_refl) as (or & sr & files & tr & se & key & E & HK).
  injection E as -> ->. set (d := payload dr or sr files tr se key) in *. set (nr := result dr p or sr files key) in *.
  assert (HR : ∀ e, same_event (newEvent EventNodeCompleted path (NodeCompletedData_json (withUsage d))) e →
                    recordOf s1.2 path (withUsage d) nr o' e).
  { intros e He. split; [done|]. pose proof HK as [_ [K1 K2] K3 _ K4 _].
    assert (Et : ncTranscriptRef (withUsage d) = tr) by (unfold d, withUsage, payload; cbn [ncUsage]; by destruct (drMetrics dr)).
    rewrite Et in K4. by apply (record_readable s1.2 path) with (e := e). }
  assert (Hok1 : logOK s1.1) by (by rewrite Hl).
  apply hbind_inv in Hc as [(u & s2 & H2 & Hc)|(e & H2 & ->)];
    apply append_spec in H2 as [Hb [[Hf Hev]|(e0 & He & Hev & Hr)]]; try done; rewrite Hl in Hev.
  - injection Hc as <- <-. rewrite Hb. split; [done|]. right. exists nr, (withUsage d), e0. auto.
  - rewrite Hb. split; [done|]. left. by split.
  - rewrite Hb. split; [done|]. right. exists nr, (withUsage d), e0. split; [done|]. split; [auto|]. split; [done|right].
    destruct Hr as [[[=] _]|(x & [= ->] & Hs)]. by exists x.
Qed.
End commit_lemmas.

(** ** The framed key stream *)

Section node_key.
Lemma le_bytes_length k : ∀ z, slen (le_bytes k z) = k.
Proof. induction k as [|k IH]; intros z; cbn; [done|]. by rewrite IH. Qed.

Lemma le_bytes_inj k : ∀ z z' s s', (0 ≤ z < 256 ^ Z.of_nat k)%Z → (0 ≤ z' < 256 ^ Z.of_nat k)%Z →
  le_bytes k z +:+ s = le_bytes k z' +:+ s' → z = z' ∧ s = s'.
Proof.
  induction k as [|k IH]; intros z z' s s' Hz Hz' H; [cbn in *; split; [lia|done]|].
  rewrite Nat2Z.inj_succ, Z.pow_succ_r in Hz, Hz' by lia. cbn [le_bytes String.append] in H.
  injection H as Hc H.
  assert (Hm : (z mod 256 = z' mod 256)%Z).
  { pose proof (Z.mod_pos_bound z 256 eq_refl). pose proof (Z.mod_pos_bound z' 256 eq_refl).
    apply (f_equal nat_of_ascii) in Hc. rewrite !nat_ascii_embedding in Hc by lia. lia. }
  apply IH in H as [Hd ->].
  - split; [|done]. rewrite (Z.div_mod z 256), (Z.div_mod z' 256) by lia. congruence.
  - split; [apply Z.div_pos; lia|apply Z.div_lt_upper_bound; lia].
  - split; [apply Z.div_pos; lia|apply Z.div_lt_upper_bound; lia].
Qed.

Lemma putUint64_inj n m s s' :
  (Z.of_nat n < two64)%Z → (Z.of_nat m < two64)%Z →
  putUint64 (Z.of_nat n) +:+ s = putUint64 (Z.of_nat m) +:+ s' → n = m ∧ s = s'.
Proof.
  intros Hn Hm. unfold putUint64. rewrite !wrap_u64_id by lia. change two64 with (256 ^ Z.of_nat 8)%Z in *.
  intros H. apply le_bytes_inj in H as [H ->]; [|lia..]. split; [lia|done].
Qed.

Definition fits (s : string) : Prop := (Z.of_nat (slen s) < two64)%Z.
Definition fits_list (l : list string) : Prop := Forall fits l ∧ (Z.of_nat (length l) < two64)%Z.

Lemma frameString_inj s t r r' :
  fits s → fits t → frameString s +:+ r = frameString t +:+ r' → s = t ∧ r = r'.
Proof.
  intros Hs Ht H. unfold frameString in H. rewrite <- !sapp_assoc in H.
  apply putUint64_inj in H as [Hl H]; [|done..]. by apply sapp_inj_len.
Qed.

Lemma frames_inj l l' r r' :
  Forall fits l → Forall fits l' → length l = length l' →
  concat_str (map frameString l) +:+ r = concat_str (map frameString l') +:+ r' → l = l' ∧ r = r'.
Proof.
  intros Hl. revert l'. induction Hl as [|s l Hs _ IH]; intros [|s' l'] Hl' Hlen; try done.
  cbn [map concat_str foldr]. rewrite <- !sapp_assoc. intros H. inversion Hl' as [|?? Hs' Hl'']; subst.
  apply frameString_inj in H as [-> H]; [|done..]. apply IH in H as [-> ->]; [done|done|]. by injection Hlen.
Qed.

Lemma frameList_inj l l' r r' :
  fits_list l → fits_list l' → frameList l +:+ r = frameList l' +:+ r' → l = l' ∧ r = r'.
Proof.
  intros [Hl Hn] [Hl' Hn'] H. unfold frameList in H. rewrite <- !sapp_assoc in H.
  apply putUint64_inj in H as [Hlen H]; [|done..]. by apply frames_inj.
Qed.

Lemma fits_sort l : fits_list l → fits_list (sort_strings l).
Proof. intros [H1 H2]. split; [by rewrite sort_strings_perm|]. by rewrite sort_strings_perm. Qed.
End node_key.

(** ** Properties *)

(** a cache key determines what it was computed from.  The hashed stream of a node key is the same
    for two nodes exactly when their subtree digests are equal and their input references, and their
    runtime pins, are the same up to order; so keys differ unless SHA-256 collides. *)
Theorem node_key_stream_injective d refs pins d' refs' pins' :
  fits d → fits d' → fits_list refs → fits_list refs' → fits_list pins → fits_list pins' →
  (node_key_stream d refs pins = node_key_stream d' refs' pins' ↔ d = d' ∧ refs ≡ₚ refs' ∧ pins ≡ₚ pins').
Proof.
  intros Hd Hd' Hr Hr' Hp Hp'. unfold node_key_stream. split.
  - intros H. apply frameString_inj in H as [-> H]; [|done..]. split; [done|].
    apply frameList_inj in H as [Er H]; [|by apply fits_sort..]. split; [by apply sort_strings_eq|].
    rewrite <- (sapp_nil_r (frameList (sort_strings pins))), <- (sapp_nil_r (frameList (sort_strings pins'))) in H.
    apply frameList_inj in H as [Ep _]; [|by apply fits_sort..]. by apply sort_strings_eq.
  - intros (-> & Er & Ep). apply sort_strings_eq in Er as ->. by apply sort_strings_eq in Ep as ->.
Qed.

Lemma node_key_stream_injective_witness :
  (node_key_stream "d" ["a"; "bc"] ["x"] = node_key_stream "d" ["ab"; "c"] ["x"] ↔
   "d" = "d" ∧ ["a"; "bc"] ≡ₚ ["ab"; "c"] ∧ ["x"] ≡ₚ ["x"]).
Proof.
  apply (node_key_stream_injective "d" ["a"; "bc"] ["x"] "d" ["ab"; "c"] ["x"]);
    repeat first [reflexivity | constructor].
Defined.

(** C1: a commit is atomic.  Whatever call of it fails, the log can be folded afterwards: either to the
    state before (and the commit reports an error), or to that state with exactly this node recorded
    as committed.  In the second case the commit succeeded, or its last sync failed; what the fold
    records is what the commit returned, its outputs as their JSON reads; and every artifact of the
    dispatch is in the store under the reference the record holds for it: the outputs as JSON, the
    stdout, for exactly the captured paths the last file captured there, the turn of a node in a
    conversation and the transcript of its session.  (The result holds numbers in range and UTF-8
    text, and SHA-256 does not collide on the artifacts.) *)
Theorem Commit_atomic `{HL : TimeCodec} {L B : Type} {HLog : Log L} {HLaws : LogLaws} {HB : Blobs B} {HBL : BlobsLaws}
    (jcs : string → option string) path dr p o' (s : L * B) rs r s' :
  logOK s.1 → clean s.2 (artifacts dr p) → commit_ok dr p o' →
  logEvents s.1 ≠ [] → Fold (blobsGet s.2) (logEvents s.1) = Ok rs →
  Commit jcs path dr p s = (r, s') →
  (is_ok r = false ∧ Fold (blobsGet s'.2) (logEvents s'.1) = Ok rs) ∨
  (∃ nr d, Fold (blobsGet s'.2) (logEvents s'.1) = Ok (applyCompleted path d (with_outputs nr o') rs) ∧
           kept s'.2 dr p d nr ∧
           (r = Ok nr ∨ ∃ x, r = Err (SyncFailed EventNodeCompleted path x))).
Proof.
  intros Hok Hcl Hco Hne HF Hc.
  apply (Commit_cases jcs (artifacts dr p) path dr p o') in Hc
    as [[Hg _] [[Hr Hl]|(nr & d & e & Hl & [He Hn] & HK & Hr)]]; [| |done..].
  - left. split; [done|]. rewrite Hl. by apply (Fold_grows (blobsGet s.2)).
  - right. exists nr, d. split; [|split; [done|]]; [|by destruct Hr as [?|(x & ? & _)]; [left|right; exists x]].
    rewrite Hl, Fold_app by done.
    rewrite (Fold_grows (blobsGet s.2) _ Hg _ _ HF). cbn [res_bind].
    destruct He as (Hp & Ht & _). cbn [Path EvType newEvent] in Hp, Ht.
    cbn [foldEvents]. unfold foldArm. rewrite Ht. cbn [String.eqb]. cbv beta zeta.
    unfold foldNodeCompleted. rewrite Hn. cbn [res_bind]. by rewrite Hp.
Qed.

(** A run with one started event, and the result of a step to commit in it. *)
Section example.
#[local] Existing Instance two_times.
#[local] Existing Instance InMemoryLog_laws.
#[local] Instance exLog_log : Log InMemoryLog := InMemoryLog_log false.

Definition exDispatch : DispatchResult :=
  MkDispatch OutcomeOK (Some 0%Z) (Some [("n", VString "x")]) "out" [MkCaptured "f" "body"] None 0 None
    zeroTurn None "" "" "" "" None [] [].
Definition exBefore : InMemoryLog * InMemoryBlobs := ((memAppend exStart false NewInMemoryLog).2, MkBlobs ∅ 0 None).
Definition exCommit : res engErr NodeResult * (InMemoryLog * InMemoryBlobs) :=
  Commit (λ s, Some s) "a" exDispatch false exBefore.
Definition exFold (s : InMemoryLog * InMemoryBlobs) : RunState :=
  match Fold (blobsGet s.2) (logEvents s.1) with Ok rs => rs | Err _ => zeroRunState end.

Definition exOut : string := Eval vm_compute in json_print (JObj [("n", JStr "x")]).
Lemma exDispatch_clean : clean exBefore.2 (artifacts exDispatch false).
Proof.
  split.
  - intros c _ x. unfold exBefore. cbn [snd blobsGet InMemoryBlobs_blobs]. unfold memGet.
    rewrite parseRef_RefFor. cbn [res_bind store]. by rewrite lookup_empty.
  - intros c c'. assert (E : artifacts exDispatch false = [exOut; "out"; "body"]) by (vm_compute; reflexivity).
    rewrite E. clear E.
    rewrite !elem_of_cons, !elem_of_nil. intros Hc Hc'. destruct_or!; try contradiction; subst; first [intros _; reflexivity | vm_compute; discriminate].
Qed.

Lemma Commit_atomic_witness :
  is_ok exCommit.1 = true ∧
  ((is_ok exCommit.1 = false ∧ Fold (blobsGet exCommit.2.2) (logEvents exCommit.2.1) = Ok (exFold exBefore)) ∨
   (∃ nr d, Fold (blobsGet exCommit.2.2) (logEvents exCommit.2.1)
              = Ok (applyCompleted "a" d (with_outputs nr (drOutputs exDispatch)) (exFold exBefore)) ∧
            kept exCommit.2.2 exDispatch false d nr ∧
            (exCommit.1 = Ok nr ∨ ∃ x, exCommit.1 = Err (SyncFailed EventNodeCompleted "a" x)))).
Proof.
  split; [vm_compute; reflexivity|].
  apply (Commit_atomic (λ s, Some s) "a" exDispatch false (drOutputs exDispatch) exBefore).
  - exact I.
  - apply exDispatch_clean.
  - split; [by intros z [= <-]|done|vm_compute; reflexivity|done].
  - discriminate.
  - vm_compute. reflexivity.
  - apply surjective_pairing.
Defined.
End example.
