(* ===== verification/Scope.v ===== *)
(** * engine/scope.go and its companions: what a template reference means in a run

    The scope of an expression is a run state, a workflow and the runtime address of the node being
    evaluated ([ctxPath]).  This file models Scope.Resolve (scope.go), map products and aggregates
    (map_product_scope.go), the gate walkers (gate_path.go), the call frame of a sub-workflow
    (interpreter_context.go, workflow_exports.go) and the artifact references (artifact_scope.go).
    Error text is kept as its format and its string arguments.  A nil [map[string]any] held in an
    [any] is read as an empty map. *)

From S2P Require Import Prelude GoNum GoJson GoStruct TmplLexer TmplParser TmplSlots TmplEval.
From stdpp Require Import sorting.
From S2P Require Import EnginePath GoPath EngineEvents RunState Ir IrShape.

(** ** Errors *)

Definition unresolved {A} (m : EvalMsg) : res goerr A := EvalErrf EvalCodeRefUnresolved m.
Definition absent {A} (m : EvalMsg) : res goerr A := EvalErrf EvalCodeRefAbsent m.
(** [&template.EvalError{Code: AWF4002, Msg: err.Error()}] *)
Definition asUnresolved {A} (r : res EvalMsg A) : res goerr A :=
  match r with Ok a => Ok a | Err m => unresolved m end.

Definition map_value (m : gomap) : value := VMap (default [] m).

(** ** Indices of the workflow *)

Record mapProduct : Type := MkMapProduct { mpdPath : string; mpdReduce : bool; mpdFinalBody : string }.

Definition appendSeg (cur seg : string) : string :=
  if String.eqb cur "" then seg else cur +:+ "." +:+ seg.

Definition mapProductOf (h : MapHead) (body : NodeList) (path : string) : option mapProduct :=
  if String.eqb (mpID h) "" then None
  else if negb (MapProductShape path) then None
  else match mpReduce h with
       | Some _ => Some (MkMapProduct path true "")
       | None => match MapCompactProducer body with
                 | Some (suffix, _) => Some (MkMapProduct path false (appendSeg (appendSeg path "body") suffix))
                 | None => None
                 end
       end.

Definition mapProductIndex (wf : Workflow) : gmap string mapProduct :=
  foldl (λ m (np : Node * string),
           match np.1 with
           | NMap h body => match mapProductOf h body np.2 with Some p => <[mpID h := p]> m | None => m end
           | _ => m
           end) ∅ (WalkNodes (wfGraph wf) "").

Definition mapPathIndex (wf : Workflow) : gmap string MapHead :=
  foldl (λ m (np : Node * string), match np.1 with NMap h _ => <[np.2 := h]> m | _ => m end) ∅
    (WalkNodes (wfGraph wf) "").

Definition callStepPathIndex (wf : Workflow) : gmap string string :=
  foldl (λ m (np : Node * string), match np.1 with NCall c => <[caID c := np.2]> m | _ => m end) ∅
    (WalkNodes (wfGraph wf) "").

(** ** The scope *)

Record Scope : Type := MkScope {
  scRs : RunState; scCtxPath : string; scStepIndex : gmap string string; scMapProducts : gmap string mapProduct;
  scVerdictOverride : gomap; scInputOverride : gomap; scHasInputOverride : bool;
  scInputFiles : gmap string string; scWf : Workflow; scCallChildSchemas : gmap string (option JSONSchema) }.

Definition NewScope (rs : RunState) (wf : Workflow) (ctxPath : string) : Scope :=
  MkScope rs ctxPath (StepPathIndex wf) (mapProductIndex wf) None None false ∅ wf ∅.
Definition NewScopeWithVerdict (rs : RunState) (wf : Workflow) (ctxPath : string) (verdict : gomap) : Scope :=
  MkScope rs ctxPath (StepPathIndex wf) (mapProductIndex wf) verdict None false ∅ wf ∅.
Definition NewScopeWithInputAndFiles (rs : RunState) (wf : Workflow) (ctxPath : string) (input : gomap)
    (inputFiles : gmap string string) : Scope :=
  MkScope rs ctxPath (StepPathIndex wf) (mapProductIndex wf) None input
    (match input with Some _ => true | None => false end) inputFiles wf ∅.
Definition NewScopeWithInput (rs : RunState) (wf : Workflow) (ctxPath : string) (input : gomap) : Scope :=
  NewScopeWithInputAndFiles rs wf ctxPath input ∅.

(** ** Values *)

Definition segText (s : Segment) : string := if IsIndex s then Itoa (Index s) else Ident s.
Definition segPath (segs : list Segment) : string := JoinDot (map segText segs).

(** An index segment is a literal without a sign. *)
Definition descend (cur : value) (seg : Segment) : res EvalMsg value :=
  if IsIndex seg then
    match cur with
    | VSlice arr =>
        match (if (Index seg <? Z.of_nat (length arr))%Z then arr !! Z.to_nat (Index seg) else None) with
        | Some v => Ok v
        | None => Err (EmFmt "index %d out of range [0, %d)" [Itoa (Index seg); Itoa (Z.of_nat (length arr))])
        end
    | _ => Err (EmFmt "index %d into non-array (%T)" [Itoa (Index seg); goType cur])
    end
  else
    match cur with
    | VMap m => match entry_get (Ident seg) m with
                | Some v => Ok v
                | None => Err (EmFmt "field %q not present" [Ident seg])
                end
    | _ => Err (EmFmt "field %q in non-object (%T)" [Ident seg; goType cur])
    end.

(** [done]: the segments already walked, for the error text. *)
Fixpoint descendFrom (done : list Segment) (cur : value) (segs : list Segment) (prefix : string)
    : res goerr value :=
  match segs with
  | [] => Ok cur
  | seg :: segs =>
      match descend cur seg with
      | Ok next => descendFrom (done ++ [seg]) next segs prefix
      | Err m => unresolved (EmWrap "%s: %s" [prefix +:+ segPath (done ++ [seg])] m)
      end
  end.
Definition descendPath (start : value) (segs : list Segment) (prefix : string) : res goerr value :=
  descendFrom [] start segs prefix.

Definition mustIdent (seg : Segment) (role : string) : res goerr () :=
  if IsIndex seg then unresolved (EmFmt "%s must be an identifier (not an index)" [role]) else Ok ().

(** ** gate_path.go *)

(** Segment [i] is one of [kinds], under an attempt of a gate. *)
Definition gateBranchAt (kinds segs : list string) (i : nat) : bool :=
  mem (nth i segs "") kinds && HasPrefix (nth (i - 1) segs "") "attempt-" && HasPrefix (nth (i - 2) segs "") "gate[".

(** The largest [i] below [n], at least 2, with [P i]. *)
Fixpoint lastIndex (P : nat → bool) (n : nat) : option nat :=
  match n with
  | O => None
  | S i => if (2 <=? i)%nat && P i then Some i else lastIndex P i
  end.

Definition enclosingGateForEvaluate (ctxPath : string) : option string :=
  if String.eqb ctxPath "" then None else
  let segs := SplitDot ctxPath in
  (λ i, JoinDot (take (i - 1) segs)) <$> lastIndex (gateBranchAt ["generate"; "until"] segs) (length segs).

Definition isGateEvaluateContext (ctxPath : string) : bool :=
  if String.eqb ctxPath "" then false else
  let segs := SplitDot ctxPath in
  match lastIndex (gateBranchAt ["evaluate"] segs) (length segs) with Some _ => true | None => false end.

(** ** Runtime and static addresses *)

(** [p2], [p1]: the two segments before. *)
Fixpoint staticSegs (p2 p1 : string) (segs : list string) : list string :=
  match segs with
  | [] => []
  | seg :: rest =>
      (if HasPrefix seg "item-" && HasPrefix p1 "map[" then ["body"]
       else if HasPrefix seg "attempt-" && HasPrefix p1 "gate[" then []
       else if HasPrefix seg "iter-" && String.eqb p1 "body" && HasPrefix p2 "loop[" then []
       else [seg]) ++ staticSegs p1 seg rest
  end.
Definition runtimeMapPathToStatic (runtimePath : string) : string :=
  if String.eqb runtimePath "" then "" else JoinDot (staticSegs "" "" (SplitDot runtimePath)).

(** The index [ctxPath] gives the instance of the scope at [scopePrefix]: [None] outside it. *)
Definition instanceFromCtx (ctxPath scopePrefix sep : string) : res EvalMsg (option Z) :=
  let full := scopePrefix +:+ sep in
  if negb (HasPrefix ctxPath full) then Ok None
  else match Atoi (hd "" (SplitDot (sdrop (slen full) ctxPath))) with
       | Some n => Ok (Some n)
       | None => Err (EmFmt "malformed instance segment in ctxPath %q (after prefix %q)" [ctxPath; full])
       end.

Definition iterForLoop (s : Scope) (loopBodyPath : string) : res EvalMsg Z :=
  if negb (HasSuffix loopBodyPath ".body")
  then Err (EmFmt "internal: iterForLoop called with non-body path %q" [loopBodyPath])
  else
    let? n := instanceFromCtx (scCtxPath s) loopBodyPath iterSep in
    match n with
    | Some n => Ok n
    | None =>
        let loopPath := TrimSuffix loopBodyPath ".body" in
        let iter := LookupLoopIters (scRs s) loopPath in
        if (iter =? 0)%Z then Err (EmFmt "loop %q has no completed iterations" [loopPath]) else Ok iter
    end.

Definition passedAttempt (attempts : list AttemptResult) : option AttemptResult :=
  last (List.filter (λ a, String.eqb (arAttemptOutcome a) AttemptPassed) attempts).

(** "" when no attempt passed. *)
Definition attemptPath (fullPath gatePrefix : string) (attempts : list AttemptResult) : string :=
  match passedAttempt attempts with
  | Some a => Replace1 fullPath gatePrefix (AttemptPath gatePrefix (arN a))
  | None => ""
  end.

(** A gate segment: the attempt the context is in, or the accepted one for the generate subtree. *)
Definition gateInstance (s : Scope) (cur : string) (next : option string) : res EvalMsg string :=
  let? m := instanceFromCtx (scCtxPath s) cur attemptSep in
  match m with
  | Some m => Ok (AttemptPath cur m)
  | None =>
      if negb (bool_decide (next = Some "generate"))
      then Err (EmFmt "step inside gate %q is not referenceable from outside: only the gate's generate: producers forward; the evaluator's verdict stays gate-internal" [cur])
      else
        let accepted := attemptPath cur cur (LookupGateAttempts (scRs s) cur) in
        if String.eqb accepted ""
        then Err (EmFmt "step inside gate %q is not referenceable from outside: the gate has no accepted attempt (it did not run, or every attempt was rejected)" [cur])
        else Ok accepted
  end.

(** [prev]: the segment before; [cur]: the runtime path so far. *)
Fixpoint runtimeSegs (s : Scope) (prev cur : string) (segs : list string) : res EvalMsg string :=
  match segs with
  | [] => Ok cur
  | seg :: rest =>
      if String.eqb seg "body" && HasPrefix prev "loop[" then
        let cur := appendSeg cur seg in
        let? iter := iterForLoop s cur in
        runtimeSegs s seg (IterPath cur iter) rest
      else if String.eqb seg "body" && HasPrefix prev "map[" then
        let? k := instanceFromCtx (scCtxPath s) cur itemSep in
        match k with
        | Some k => runtimeSegs s seg (ItemPath cur k) rest
        | None => Err (EmFmt "step inside map %q is only referenceable from within the same item; cross-item or aggregate access is not defined (spec §11)" [cur])
        end
      else
        let cur := appendSeg cur seg in
        if HasPrefix seg "gate[" then
          let? cur := gateInstance s cur (head rest) in runtimeSegs s seg cur rest
        else runtimeSegs s seg cur rest
  end.

Definition stepRuntimePath (s : Scope) (staticPath : string) : res EvalMsg string :=
  let segs := SplitDot staticPath in
  let loopCount := length (List.filter (λ seg, HasPrefix seg "loop[") segs) in
  if (1 <? loopCount)%nat
  then Err (EmFmt "nested loops not supported (LoopIters wire format for nested loops is unspecified); static path %q has %d loop segments" [staticPath; Itoa (Z.of_nat loopCount)])
  else runtimeSegs s "" "" segs.

(** ** Resolution *)

Section resolve.
Variable s : Scope.

Definition resolveRun (segs : list Segment) : res goerr value :=
  match segs with
  | [_; f] =>
      let? _ := mustIdent f "run.<field>" in
      if String.eqb (Ident f) "id" then Ok (VString (rsRunID (scRs s)))
      else unresolved (EmText "only `run.id` is defined")
  | _ => unresolved (EmText "only `run.id` is defined")
  end.

Definition resolveInput (segs : list Segment) : res goerr value :=
  match segs with
  | _ :: f :: fs =>
      descendPath (map_value (if scHasInputOverride s then scInputOverride s else rsInput (scRs s))) (f :: fs) "input."
  | _ => unresolved (EmText "`input` requires a field selector")
  end.

(** The [then] and [else] segments of the path, outermost first; [i] is the position of [seg]. *)
Fixpoint untakenFrom (all : list string) (prev : string) (i : nat) (segs : list string) : bool :=
  match segs with
  | [] => false
  | seg :: rest =>
      if mem seg ["then"; "else"] && HasPrefix prev "if[" then
        match LookupBranch (scRs s) (JoinDot (take i all)) with
        | None => false
        | Some taken => if String.eqb taken seg then untakenFrom all seg (S i) rest else true
        end
      else untakenFrom all seg (S i) rest
  end.
Definition absentDueToUntakenIf (runtimePath : string) : bool :=
  let segs := SplitDot runtimePath in
  untakenFrom segs (hd "" segs) 1 (tl segs).

Definition callFieldDeclaredButAbsent (callID field : string) (outputs : list (string * value)) : bool :=
  match scCallChildSchemas s !! callID with
  | Some (Some schema) =>
      match entry_get field outputs with
      | Some _ => false
      | None => match entry_get "properties" schema with
                | Some (VMap props) => match entry_get field props with Some _ => true | None => false end
                | _ => false
                end
      end
  | _ => false
  end.

(** map_product_scope.go.  [descend_item] is the rest of the reference into one item's outputs. *)
Definition descend_outputs (id : string) (segs : list Segment) (outputs : gomap) : res goerr value :=
  match segs with
  | [] => Ok (map_value outputs)
  | _ => descendPath (map_value outputs) segs ("step." +:+ id +:+ ".")
  end.

Definition item_leb (a b : MapItemRecord) : Prop := (mrN a ≤ mrN b)%Z.
#[global] Instance item_leb_dec a b : Decision (item_leb a b) := decide (mrN a ≤ mrN b)%Z.
(** [sort.Slice] by item number. *)
Definition itemsByN (l : list MapItemRecord) : list MapItemRecord := merge_sort item_leb l.

(** The outputs of the items that count, in the order given. *)
Fixpoint itemOutputs (keep : MapItemRecord → bool) (mapStatic suffix id : string) (segs : list Segment)
    (items : list MapItemRecord) : res goerr (list value) :=
  match items with
  | [] => Ok []
  | mr :: items =>
      match (if keep mr then LookupCompleted (scRs s) (ItemStepPath mapStatic (mrN mr) suffix) else None) with
      | Some nr =>
          match nrOutputs nr with
          | None => itemOutputs keep mapStatic suffix id segs items
          | Some o =>
              let? v := descend_outputs id segs (Some o) in
              let? vs := itemOutputs keep mapStatic suffix id segs items in
              Ok (v :: vs)
          end
      | None => itemOutputs keep mapStatic suffix id segs items
      end
  end.

Definition notPruned (mr : MapItemRecord) : bool := negb (String.eqb (mrStatus mr) ItemPruned).
Definition passedItem (mr : MapItemRecord) : bool := String.eqb (mrStatus mr) ItemPassed.

(** [None]: not an aggregate.  [fields]: the segments after the step id. *)
Definition aggregateMapOutputs (staticPath id : string) (fields : list Segment) : res goerr (option value) :=
  match SingleMapBodyShape staticPath with
  | None => Ok None
  | Some (mapStatic, suffix) =>
      match instanceFromCtx (scCtxPath s) mapStatic itemSep with
      | Err m => Err (GOther m)
      | Ok (Some _) => Ok None
      | Ok None =>
          match LookupCompleted (scRs s) mapStatic with
          | Some nr => res_map Some (descend_outputs id fields (nrOutputs nr))
          | None =>
              res_map (Some ∘ VSlice)
                (itemOutputs notPruned mapStatic suffix id fields (itemsByN (LookupMapItems (scRs s) mapStatic)))
          end
      end
  end.

Definition resolveMapProduct (id : string) (mp : mapProduct) (fields : list Segment) : res goerr value :=
  if mpdReduce mp then
    match LookupCompleted (scRs s) (mpdPath mp) with
    | None => unresolved (EmFmt "map product %q not yet committed (map path %q)" [id; mpdPath mp])
    | Some nr =>
        match fields with
        | [] => Ok (map_value (nrOutputs nr))
        | f :: _ =>
            let? _ := mustIdent f "map product field" in
            match nrOutputs nr with
            | None => unresolved (EmFmt "field %q: map product has no typed outputs" [Ident f])
            | Some o => descendPath (VMap o) fields ("step." +:+ id +:+ ".")
            end
        end
    end
  else
    let? agg := aggregateMapOutputs (mpdFinalBody mp) id fields in
    match agg with
    | Some v => Ok v
    | None => unresolved (EmFmt "map product %q is only referenceable outside its producing map" [id])
    end.

(** One field of a committed step; [fields] starts with that field. *)
Definition stepField (id : string) (nr : NodeResult) (f : Segment) (rest : list Segment) : res goerr value :=
  if String.eqb (Ident f) "exit_code" then
    match nrExitCode nr with
    | Some z => Ok (VInt z)
    | None => unresolved (EmText "step has no exit_code (agent or signal step?)")
    end
  else if String.eqb (Ident f) "stdout" then
    match rest with
    | [] => Ok (VString (nrStdout nr))
    | _ => unresolved (EmText "step.<id>.stdout takes no further segments")
    end
  else
    match nrOutputs nr with
    | None => unresolved (EmFmt "field %q: step has no typed outputs" [Ident f])
    | Some o =>
        match descendPath (VMap o) (f :: rest) ("step." +:+ id +:+ ".") with
        | Ok v => Ok v
        | Err e =>
            if callFieldDeclaredButAbsent id (Ident f) o
            then absent (EmFmt "field %q: child workflow call %q declared this output optional but omitted it" [Ident f; id])
            else Err e
        end
    end.

Definition resolveStep (segs : list Segment) : res goerr value :=
  match segs with
  | _ :: idSeg :: fields =>
      let? _ := mustIdent idSeg "step id" in
      let id := Ident idSeg in
      match scStepIndex s !! id with
      | None =>
          match scMapProducts s !! id with
          | Some mp => resolveMapProduct id mp fields
          | None => unresolved (EmFmt "step %q not declared in workflow (referenced at %s)" [id; scCtxPath s])
          end
      | Some staticPath =>
          let? agg := aggregateMapOutputs staticPath id fields in
          match agg with
          | Some v => Ok v
          | None =>
              match fields with
              | [] => unresolved (EmText "`step` requires id + field (e.g. step.foo.exit_code)")
              | f :: rest =>
                  let? _ := mustIdent f "step field" in
                  let? runtimePath := asUnresolved (stepRuntimePath s staticPath) in
                  match LookupCompleted (scRs s) runtimePath with
                  | None =>
                      if absentDueToUntakenIf runtimePath
                      then absent (EmFmt "step %q is under a non-taken if branch (runtime path %q)" [id; runtimePath])
                      else unresolved (EmFmt "step %q not yet committed (runtime path %q)" [id; runtimePath])
                  | Some nr => stepField id nr f rest
                  end
              end
          end
      end
  | _ => unresolved (EmText "`step` requires id + field (e.g. step.foo.exit_code)")
  end.

Definition resolveEvaluate (segs : list Segment) : res goerr value :=
  match segs with
  | _ :: f :: fs =>
      match scVerdictOverride s with
      | Some v => descendPath (VMap v) (f :: fs) "evaluate."
      | None =>
          match enclosingGateForEvaluate (scCtxPath s) with
          | None => unresolved (EmFmt "`evaluate.<field>` is only meaningful inside a gate's generate or until (ctxPath=%q)" [scCtxPath s])
          | Some gatePath =>
              match last (LookupGateAttempts (scRs s) gatePath) with
              | None => Ok (VString "")
              | Some latest =>
                  match arVerdict latest with
                  | None => Ok (VString "")
                  | Some v => descendPath (VMap v) (f :: fs) "evaluate."
                  end
              end
          end
      end
  | _ => unresolved (EmText "`evaluate` requires a field selector (e.g. evaluate.feedback)")
  end.

(** Segments [i - 1], [i] are a map and an item of a map bound to [asName]: its runtime path and the
    item number.  The innermost one wins. *)
Fixpoint enclosingMapFrom (idx : gmap string MapHead) (asName : string) (segs : list string) (i : nat)
    : option (string * Z) :=
  match i with
  | O => None
  | S j =>
      let seg := nth i segs "" in
      let mapPath := JoinDot (take i segs) in
      if HasPrefix seg "item-" && HasPrefix (nth j segs "") "map[" then
        match idx !! runtimeMapPathToStatic mapPath, Atoi (TrimPrefix seg "item-") with
        | Some m, Some n =>
            if String.eqb (mpAs m) asName then Some (mapPath, n) else enclosingMapFrom idx asName segs j
        | _, _ => enclosingMapFrom idx asName segs j
        end
      else enclosingMapFrom idx asName segs j
  end.
Definition enclosingMapForBinding (ctxPath : string) (idx : gmap string MapHead) (asName : string)
    : option (string * Z) :=
  if String.eqb ctxPath "" then None
  else let segs := SplitDot ctxPath in enclosingMapFrom idx asName segs (length segs - 1).

Definition bindingField (asName : string) (n : Z) (v : value) (fields : list Segment) : res goerr value :=
  match fields with
  | [] =>
      match v with
      | VMap m => unresolved (EmFmt "`{{ %s }}` resolves to a composite (object) — use field access like `{{ %s.<field> }}` or `{{ %s.index }}`; available fields: %v"
                                (asName :: asName :: asName :: sort_strings m.*1))
      | VSlice l => unresolved (EmFmt "`{{ %s }}` resolves to an array (len=%d) — use index access like `{{ %s.0 }}` or `{{ %s.index }}`"
                                 [asName; Itoa (Z.of_nat (length l)); asName; asName])
      | _ => Ok v
      end
  | [f] => if isIdent "index" f then Ok (VInt n) else descendPath v fields (asName +:+ ".")
  | _ => descendPath v fields (asName +:+ ".")
  end.

Definition resolveAsBinding (head : Segment) (fields : list Segment) : res goerr value :=
  match enclosingMapForBinding (scCtxPath s) (mapPathIndex (scWf s)) (Ident head) with
  | None => unresolved (EmFmt "unknown ref root %q (Phase 3 supports run / input / step / evaluate / <as> inside a map body)" [Ident head])
  | Some (mapPath, n) =>
      match List.find (λ mr, mrN mr =? n)%Z (LookupMapItems (scRs s) mapPath) with
      | None => unresolved (EmFmt "map %q item N=%d not recorded in RunState — runtime invariant violation (map executor must RecordMapItem before body templates resolve)" [mapPath; Itoa n])
      | Some mr =>
          match mrItemValue mr with
          | VNil => unresolved (EmFmt "map %q item N=%d value not bound — runtime invariant violation (executor must UpdateMapItemValue before body templates resolve)" [mapPath; Itoa n])
          | v => bindingField (Ident head) n v fields
          end
      end
  end.

Definition Resolve (ref : Ref) : res goerr value :=
  match Segments ref with
  | [] => unresolved (EmText "empty ref")
  | head :: fields =>
      let? _ := mustIdent head "ref root" in
      if String.eqb (Ident head) "run" then resolveRun (Segments ref)
      else if String.eqb (Ident head) "input" then resolveInput (Segments ref)
      else if String.eqb (Ident head) "step" then resolveStep (Segments ref)
      else if String.eqb (Ident head) "evaluate" then resolveEvaluate (Segments ref)
      else resolveAsBinding head fields
  end.

Definition ResolveWorkflowInputFile (name : string) : res goerr string :=
  match scInputFiles s !! name with
  | Some ref => if String.eqb ref ""
                then unresolved (EmFmt "input.files.%s: no caller supplied workflow input file %q" [name; name]) else Ok ref
  | None => unresolved (EmFmt "input.files.%s: no caller supplied workflow input file %q" [name; name])
  end.
End resolve.

(** ** The call frame of a sub-workflow: interpreter_context.go, workflow_exports.go *)

Definition stripChildPrefix (path prefix : string) : option string :=
  if String.eqb path prefix then Some ""
  else if HasPrefix path (prefix +:+ ".") then Some (TrimPrefix path (prefix +:+ ".")) else None.

(** The six [copyPrefixed] functions. *)
Definition copyPrefixed {A} (prefix : string) (src : gmap string A) : gmap string A :=
  list_to_map (omap (λ kv : string * A, (λ k, (k, kv.2)) <$> stripChildPrefix kv.1 prefix) (map_to_list src)).

Definition childRunStateForRuntimeParent (parent : RunState) (runtimeParent : string) (input : gomap) : RunState :=
  setMapItems (copyPrefixed runtimeParent (rsMapItems parent))
  (setReactRounds (copyPrefixed runtimeParent (rsReactRounds parent))
  (setGateAttempts (copyPrefixed runtimeParent (rsGateAttempts parent))
  (setLoopIters (copyPrefixed runtimeParent (rsLoopIters parent))
  (setBranches (copyPrefixed runtimeParent (rsBranches parent))
  (setCompleted (copyPrefixed runtimeParent (rsCompleted parent))
     (NewRunState (rsRunID parent) (rsWorkflowDigest parent) input)))))).

Definition childRunStateForCall (parent : RunState) (callPath : string) (input : gomap) : RunState :=
  childRunStateForRuntimeParent parent (CallWorkflowParentPath callPath) input.

Definition stripRuntimeParent (path runtimeParent : string) : string :=
  if String.eqb path runtimeParent then "" else TrimPrefix path (runtimeParent +:+ ".").

(** The frame of a call: the runtime address of the child workflow ("" at the top), and its inputs. *)
Record CallFrame : Type := MkFrame {
  cfRuntimeParent : string; cfInput : gomap; cfInputFiles : option (gmap string string) }.
Definition topFrame : CallFrame := MkFrame "" None None.

Definition frameScope (rs : RunState) (wf : Workflow) (path : string) (f : CallFrame) : Scope :=
  match cfInput f, cfInputFiles f with
  | None, None => NewScope rs wf path
  | input, files => NewScopeWithInputAndFiles rs wf path input (default ∅ files)
  end.

Definition callContextScope (parentRS : RunState) (wf : Workflow) (path : string) (f : CallFrame) : Scope :=
  if negb (String.eqb (cfRuntimeParent f) "")
  then frameScope (childRunStateForRuntimeParent parentRS (cfRuntimeParent f) (cfInput f)) wf
         (stripRuntimeParent path (cfRuntimeParent f)) f
  else frameScope parentRS wf path f.

Definition withVerdict (s : Scope) (verdict : gomap) : Scope :=
  MkScope (scRs s) (scCtxPath s) (scStepIndex s) (scMapProducts s) verdict (scInputOverride s)
    (scHasInputOverride s) (scInputFiles s) (scWf s) (scCallChildSchemas s).
(** [interpreterContext.scopeWithVerdict]. *)
Definition scopeWithVerdict (rs : RunState) (wf : Workflow) (path : string) (f : CallFrame) (verdict : gomap)
    : Scope := withVerdict (callContextScope rs wf path f) verdict.

(** ** The other scopes *)

(** react_scope.go. *)
Definition isScalar (v : value) : bool :=
  match v with VString _ | VBool _ | VFloat _ | VInt _ | VInt64 _ | VNumber _ => true | _ => false end.
Definition toolImplResolve (base : Scope) (argsFile : string) (args : gomap) (ref : Ref) : res goerr value :=
  match Segments ref with
  | [f] => if isIdent "args_file" f then Ok (VString argsFile) else Resolve base ref
  | [a; f] =>
      if isIdent "args" a && negb (IsIndex f) then
        match entry_get (Ident f) (default [] args) with
        | Some v => if isScalar v then Ok v
                    else unresolved (EmFmt "args.%s is not a bound scalar (use {{ args_file }})" [Ident f])
        | None => unresolved (EmFmt "args.%s is not a bound scalar (use {{ args_file }})" [Ident f])
        end
      else Resolve base ref
  | _ => Resolve base ref
  end.

(** signal_payload_scope.go. *)
Definition payloadResolve (payload : gomap) (ref : Ref) : res goerr value :=
  match Segments ref with
  | [] => unresolved (EmText "empty ref")
  | f :: _ =>
      let? _ := mustIdent f "where: payload field" in
      match payload with
      | None => unresolved (EmFmt "where: signal payload is not a JSON object (cannot resolve %q)" [Ident f])
      | Some m => descendPath (VMap m) (Segments ref) "payload."
      end
  end.
Definition isSignalRootRef (ref : Ref) : bool :=
  match Segments ref with f :: _ => isIdent "signal" f | [] => false end.
Definition signalResolve (payload : gomap) (outer : Ref → res goerr value) (ref : Ref) : res goerr value :=
  if isSignalRootRef ref then payloadResolve payload (MkRef (tl (Segments ref))) else outer ref.

(** reduce_scope.go.  [jcs] is jcs.Transform, RFC 8785. *)
Section reduce.
Variable jcs : string → option string.

Definition renderReduceTemplateJSON (v : value) : res goerr string :=
  match Marshal v with
  | None => Err (GOther (EmText "marshal reducer aggregate ref"))
  | Some raw => match jcs raw with
                | Some canon => Ok canon
                | None => Err (GOther (EmText "canonicalize reducer aggregate ref"))
                end
  end.

(** The body step an aggregate reference names, in the reducer's own map. *)
Definition bodyStepPath (base : Scope) (mapPath : string) (segs : list Segment) : option (string * string) :=
  match segs with
  | a :: b :: _ =>
      if String.eqb (Ident a) "step" && negb (IsIndex b) then
        staticPath ← scStepIndex base !! Ident b;
        '(m, suffix) ← SingleMapBodyShape staticPath;
        if String.eqb m mapPath then Some (m, suffix) else None
      else None
  | _ => None
  end.

Definition reduceResolve (base : Scope) (mapPath : string) (ref : Ref) : res goerr value :=
  match bodyStepPath base mapPath (Segments ref), Segments ref with
  | Some (m, suffix), _ :: idSeg :: fields =>
      let? vs := itemOutputs base passedItem m suffix (Ident idSeg) fields
                   (itemsByN (LookupMapItems (scRs base) m)) in
      res_map VString (renderReduceTemplateJSON (VSlice vs))
  | _, _ => Resolve base ref
  end.

Definition newReduceTemplateScope (rs : RunState) (wf : Workflow) (mapPath : string) : Ref → res goerr value :=
  reduceResolve (NewScope rs wf mapPath) mapPath.
Definition newReduceTemplateScopeForExec (rs : RunState) (wf : Workflow) (mapPath : string) (f : CallFrame)
    : Ref → res goerr value :=
  reduceResolve (callContextScope rs wf mapPath f) (stripRuntimeParent mapPath (cfRuntimeParent f)).
End reduce.
