(* ===== verification/ScopeLaws.v ===== *)
(** * Laws of reference resolution

    A resolved step address is an instance of the step's static address; a reference, once it
    resolves, keeps its value while the run commits more nodes; inside a gate [evaluate] is the
    innermost enclosing gate's verdict; the frame of a call sees exactly the child's part of the
    parent's state. *)

From S2P Require Import Prelude GoNum GoJson GoStruct TmplLexer TmplParser TmplSlots TmplEval.
From S2P Require Import EnginePath GoPath EngineEvents RunState Ir IrShape Scope.

(** ** Segments *)

Lemma appendSeg_join1 cur seg : appendSeg cur seg = join1 cur seg.
Proof. done. Qed.

Lemma address_join1 cur seg : cur ≠ "" → cur +:+ "." +:+ seg = join1 cur seg.
Proof. intros H. unfold join1. by destruct (String.eqb_spec cur ""). Qed.

Lemma Forall_good_lacks l : Forall good_seg l → Forall (λ x, lacks "." x = true) l.
Proof. intros H. eapply Forall_impl; [exact H|]. by intros x [_ ?]. Qed.

Lemma path_of_Join ss : Forall good_seg ss → path_of "" ss = JoinDot ss.
Proof.
  intros HF. induction ss as [|s ss IH] using rev_ind; [done|]. apply Forall_app in HF as [HF Hs].
  rewrite path_of_snoc, IH by done. unfold JoinDot in *.
  destruct ss as [|x ss _] using rev_ind; [done|]. rewrite (Join_snoc _ (ss ++ [x])) by by destruct ss.
  unfold join1. destruct (String.eqb_spec (Join "." (ss ++ [x])) "") as [E|_]; [|done].
  exfalso. rewrite <- (IH HF) in E. by apply path_of_nonempty in E.
Qed.

Lemma SplitDot_path_of ss : ss ≠ [] → Forall good_seg ss → SplitDot (path_of "" ss) = ss.
Proof.
  intros Hne HF. rewrite path_of_Join by done. apply Split_Join; [done|]. by apply Forall_good_lacks.
Qed.

Lemma path_of_cons p s ss : path_of p (s :: ss) = path_of (join1 p s) ss.
Proof. done. Qed.

#[global] Instance good_seg_dec x : Decision (good_seg x).
Proof. unfold good_seg. apply _. Defined.

(** ** Instances of a static address *)

Lemma prefix_false p s : String.prefix p s = false ↔ ∀ t, s ≠ p +:+ t.
Proof.
  split.
  - intros H t ->. by rewrite prefix_app in H.
  - intros H. destruct (String.prefix p s) eqn:E; [|done]. apply prefix_spec in E as [t ->]. by destruct (H t).
Qed.

Lemma Replace1_all s new : Replace1 s s new = new.
Proof.
  unfold Replace1. assert (E : strIndex s s = Some 0).
  { destruct s; cbn [strIndex]; [done|]. by rewrite <- (sapp_nil_r (String a s)) at 2; rewrite prefix_app. }
  rewrite E. cbn [stake Nat.add]. rewrite sdrop_all by lia. by rewrite sapp_nil_r.
Qed.

Definition isInstance (x : string) : bool :=
  HasPrefix x "item-" || HasPrefix x "attempt-" || HasPrefix x "iter-".

Lemma instance_plain x :
  isInstance x = true → HasPrefix x "map[" = false ∧ HasPrefix x "gate[" = false ∧ HasPrefix x "loop[" = false ∧ x ≠ "body".
Proof.
  unfold isInstance, HasPrefix. rewrite !orb_true_iff, !prefix_spec. intros [[[t ->]|[t ->]]|[t ->]]; done.
Qed.

(** No static segment looks like an item of the map before it. *)
Fixpoint noItems (prev : string) (segs : list string) : Prop :=
  match segs with
  | [] => True
  | x :: segs => (HasPrefix prev "map[" && HasPrefix x "item-" = false) ∧ noItems x segs
  end.

(** The static segment before, and the two runtime segments before, when a walk stands between nodes. *)
Definition aligned (prev p2 p1 : string) : Prop :=
  (p1 = prev ∧ HasPrefix prev "gate[" = false ∧ (prev = "body" → HasPrefix p2 "loop[" = false)) ∨
  (isInstance p1 = true ∧ HasPrefix prev "loop[" = false ∧ HasPrefix prev "map[" = false).

Lemma staticSegs_kept p2 p1 x out :
  HasPrefix x "item-" && HasPrefix p1 "map[" = false → HasPrefix x "attempt-" && HasPrefix p1 "gate[" = false →
  HasPrefix x "iter-" && String.eqb p1 "body" && HasPrefix p2 "loop[" = false →
  staticSegs p2 p1 (x :: out) = x :: staticSegs p1 x out.
Proof. cbn [staticSegs]. by intros -> -> ->. Qed.

(** A static segment is kept by the walk back. *)
Lemma aligned_kept prev p2 p1 x out :
  aligned prev p2 p1 → HasPrefix prev "map[" && HasPrefix x "item-" = false →
  staticSegs p2 p1 (x :: out) = x :: staticSegs p1 x out.
Proof.
  intros [(-> & Hg & Hb)|(Hi & _ & _)] Hm.
  - apply staticSegs_kept; [by rewrite andb_comm|by rewrite Hg, andb_false_r|].
    destruct (String.eqb_spec prev "body") as [E|_]; [|by rewrite andb_false_r].
    by rewrite Hb, andb_false_r by done.
  - apply instance_plain in Hi as (Hm' & Hg & _ & Hb). apply String.eqb_neq in Hb.
    apply staticSegs_kept; rewrite ?Hm', ?Hg, ?Hb, ?andb_false_r; done.
Qed.

Lemma good_instance p n : p ∈ ["iter-"; "attempt-"; "item-"] → good_seg (p +:+ Itoa n) ∧ isInstance (p +:+ Itoa n) = true.
Proof.
  intros Hp. unfold good_seg. rewrite lacks_app, lacks_Itoa by done.
  rewrite !elem_of_cons, elem_of_nil in Hp.
  destruct_or! Hp; subst; try contradiction; (split; [done|]);
    unfold isInstance, HasPrefix; rewrite prefix_app, ?orb_true_r; done.
Qed.

Lemma path_of_snoc_address pre x :
  pre ≠ [] → Forall good_seg pre → path_of "" pre +:+ "." +:+ x = path_of "" (pre ++ [x]).
Proof.
  intros Hne HF. destruct pre as [|y pre _] using rev_ind; [done|].
  rewrite (path_of_snoc _ (pre ++ [y])). apply address_join1. by apply path_of_nonempty.
Qed.

Lemma instance_address pre p n :
  p ∈ ["iter-"; "attempt-"; "item-"] → pre ≠ [] → Forall good_seg pre →
  path_of "" pre +:+ String "." p +:+ Itoa n = path_of "" (pre ++ [p +:+ Itoa n]) ∧
  Forall good_seg (pre ++ [p +:+ Itoa n]) ∧ good_seg (p +:+ Itoa n) ∧ isInstance (p +:+ Itoa n) = true.
Proof.
  intros Hp Hne HF. destruct (good_instance p n Hp) as [Hg Hi].
  split; [by apply path_of_snoc_address|]. split; [|done]. by apply Forall_app_2, Forall_singleton.
Qed.

Lemma gateInstance_ok s cur next p :
  gateInstance s cur next = Ok p → ∃ m, p = AttemptPath cur m.
Proof.
  unfold gateInstance. destruct (instanceFromCtx _ _ _) as [[m|]|]; cbn [res_bind]; try done; [by intros [= <-]; eexists|].
  case_bool_decide; [|done]. cbn [negb]. unfold attemptPath. destruct (passedAttempt _) as [a|]; [|done].
  rewrite Replace1_all. destruct (String.eqb _ ""); [done|]. intros [= <-]. by eexists.
Qed.

Lemma staticSegs_item p2 p1 k out :
  HasPrefix p1 "map[" = true → staticSegs p2 p1 (("item-" +:+ Itoa k) :: out) = "body" :: staticSegs p1 ("item-" +:+ Itoa k) out.
Proof. intros H. cbn [staticSegs]. unfold HasPrefix in *. by rewrite prefix_app, H. Qed.

Lemma staticSegs_attempt p2 p1 m out :
  HasPrefix p1 "gate[" = true → staticSegs p2 p1 (("attempt-" +:+ Itoa m) :: out) = staticSegs p1 ("attempt-" +:+ Itoa m) out.
Proof. intros H. cbn [staticSegs]. unfold HasPrefix in *. by rewrite prefix_app, H. Qed.

Lemma staticSegs_iter p2 k out :
  HasPrefix p2 "loop[" = true → staticSegs p2 "body" (("iter-" +:+ Itoa k) :: out) = staticSegs "body" ("iter-" +:+ Itoa k) out.
Proof. intros H. cbn [staticSegs]. unfold HasPrefix in *. by rewrite prefix_app, H. Qed.

Lemma keyword_excl x :
  (HasPrefix x "gate[" = true → HasPrefix x "loop[" = false ∧ HasPrefix x "map[" = false) ∧
  (HasPrefix x "loop[" = true → HasPrefix x "map[" = false).
Proof. unfold HasPrefix. split; rewrite prefix_spec; by intros [t ->]. Qed.

Lemma aligned_prev prev p2 p1 :
  aligned prev p2 p1 → HasPrefix prev "loop[" = true ∨ HasPrefix prev "map[" = true → p1 = prev.
Proof. intros [(-> & _)|(_ & -> & ->)]; [done|]. by intros []. Qed.

Lemma aligned_next prev p2 p1 x :
  aligned prev p2 p1 → HasPrefix x "gate[" = false → String.eqb x "body" && HasPrefix prev "loop[" = false →
  aligned x p1 x.
Proof.
  intros Ha Hg Hb. left. split; [done|]. split; [done|]. intros ->. cbn [String.eqb andb] in Hb.
  destruct Ha as [(-> & _)|(Hi & _)]; [done|]. by apply instance_plain in Hi as (_ & _ & ? & _).
Qed.

Lemma runtimeSegs_instance s rest : ∀ prev pre p2 p1 p,
  runtimeSegs s prev (path_of "" pre) rest = Ok p →
  Forall good_seg pre → Forall good_seg rest → (prev = "" ∨ pre ≠ []) → noItems prev rest → aligned prev p2 p1 →
  ∃ out, Forall good_seg out ∧ p = path_of "" (pre ++ out) ∧ staticSegs p2 p1 out = rest.
Proof.
  induction rest as [|x rest IH]; intros prev pre p2 p1 p Hr Hpre Hrest Hne Hni Ha.
  { injection Hr as <-. exists []. by rewrite app_nil_r. }
  destruct Hni as [Hi Hni]. apply Forall_cons in Hrest as [Hx Hrest]. cbn [runtimeSegs] in Hr.
  rewrite appendSeg_join1, <- path_of_snoc in Hr.
  assert (Hpx : Forall good_seg (pre ++ [x])) by by apply Forall_app_2, Forall_singleton.
  assert (Hpn : pre ++ [x] ≠ []) by by destruct pre.
  pose proof (λ out, aligned_kept prev p2 p1 x out Ha Hi) as Hkeep.
  destruct (String.eqb x "body" && HasPrefix prev "loop[") eqn:El.
  { apply andb_prop in El as [->%String.eqb_eq El]. destruct (iterForLoop _ _) as [k|]; [|done]. cbn [res_bind] in Hr.
    destruct (instance_address (pre ++ ["body"]) "iter-" k) as (E & Hg & Hgi & Hin); [set_solver|done..|].
    unfold IterPath, iterSep in Hr. rewrite E in Hr.
    apply (IH "body" _ "body" ("iter-" +:+ Itoa k)) in Hr as (out & Ho & -> & Hs);
      [|done|done|right; by destruct pre|done|by right].
    exists ("body" :: ("iter-" +:+ Itoa k) :: out). rewrite <- !app_assoc.
    split; [by repeat apply Forall_cons_2|]. split; [done|].
    rewrite Hkeep, staticSegs_iter, Hs; [done|]. by rewrite (aligned_prev _ _ _ Ha) by auto. }
  destruct (String.eqb x "body" && HasPrefix prev "map[") eqn:Em.
  { apply andb_prop in Em as [->%String.eqb_eq Em].
    destruct (instanceFromCtx _ _ _) as [[k|]|]; cbn [res_bind] in Hr; [|done..].
    assert (Hne' : pre ≠ []) by by destruct Hne as [->|?].
    destruct (instance_address pre "item-" k) as (E & Hg & Hgi & Hin); [set_solver|done..|].
    unfold ItemPath, itemSep in Hr. rewrite E in Hr.
    apply (IH "body" _ p1 ("item-" +:+ Itoa k)) in Hr as (out & Ho & -> & Hs);
      [|done|done|right; by destruct pre|done|by right].
    exists (("item-" +:+ Itoa k) :: out). rewrite <- app_assoc.
    split; [by apply Forall_cons_2|]. split; [done|].
    rewrite staticSegs_item, Hs; [done|]. by rewrite (aligned_prev _ _ _ Ha) by auto. }
  destruct (HasPrefix x "gate[") eqn:Eg.
  { destruct (gateInstance _ _ _) as [c|] eqn:Egi; [|done]. cbn [res_bind] in Hr.
    apply gateInstance_ok in Egi as [m ->].
    destruct (instance_address (pre ++ [x]) "attempt-" m) as (E & Hg & Hgi & Hin); [set_solver|done..|].
    unfold AttemptPath, attemptSep in Hr. rewrite E in Hr. destruct (keyword_excl x) as [Hk _]. destruct (Hk Eg) as [K1 K2].
    apply (IH x _ x ("attempt-" +:+ Itoa m)) in Hr as (out & Ho & -> & Hs);
      [|done|done|right; by destruct pre|done|by right].
    exists (x :: ("attempt-" +:+ Itoa m) :: out). rewrite <- !app_assoc.
    split; [by repeat apply Forall_cons_2|]. split; [done|]. by rewrite Hkeep, staticSegs_attempt, Hs. }
  apply (IH x _ p1 x) in Hr as (out & Ho & -> & Hs); [|done|done|right; by destruct pre|done|].
  - exists (x :: out). rewrite <- app_assoc. split; [by apply Forall_cons_2|]. split; [done|]. by rewrite Hkeep, Hs.
  - by apply (aligned_next prev p2).
Qed.

(** ** More commits *)

(** [rs'] is [rs] with more nodes committed. *)
Record committed_more (rs rs' : RunState) : Prop := {
  cm_run : rsRunID rs' = rsRunID rs;
  cm_input : rsInput rs' = rsInput rs;
  cm_loops : rsLoopIters rs' = rsLoopIters rs;
  cm_gates : rsGateAttempts rs' = rsGateAttempts rs;
  cm_items : rsMapItems rs' = rsMapItems rs;
  cm_completed : rsCompleted rs ⊆ rsCompleted rs'
}.

Lemma RecordCompleted_more p nr rs : LookupCompleted rs p = None → committed_more rs (RecordCompleted p nr rs).
Proof. intros H. split; try done. cbn. by apply insert_subseteq. Qed.

Definition withRs (s : Scope) (rs : RunState) : Scope :=
  MkScope rs (scCtxPath s) (scStepIndex s) (scMapProducts s) (scVerdictOverride s) (scInputOverride s)
    (scHasInputOverride s) (scInputFiles s) (scWf s) (scCallChildSchemas s).

(** A reference to the outputs of all the items of a map, which grow as items commit. *)
Definition isAggregateRef (s : Scope) (ref : Ref) : Prop :=
  match Segments ref with
  | h :: idSeg :: fields =>
      Ident h = "step" ∧
      match scStepIndex s !! Ident idSeg with
      | Some p => aggregateMapOutputs s p (Ident idSeg) fields ≠ Ok None
      | None => is_Some (scMapProducts s !! Ident idSeg)
      end
  | _ => False
  end.

Section more.
Variables (s : Scope) (rs' : RunState).
Hypothesis Hm : committed_more (scRs s) rs'.

Lemma iterForLoop_more p : iterForLoop (withRs s rs') p = iterForLoop s p.
Proof. unfold iterForLoop, LookupLoopIters. cbn [scRs scCtxPath withRs]. by rewrite (cm_loops _ _ Hm). Qed.

Lemma gateInstance_more cur next : gateInstance (withRs s rs') cur next = gateInstance s cur next.
Proof. unfold gateInstance, LookupGateAttempts. cbn [scRs scCtxPath withRs]. by rewrite (cm_gates _ _ Hm). Qed.

Lemma runtimeSegs_more segs : ∀ prev cur, runtimeSegs (withRs s rs') prev cur segs = runtimeSegs s prev cur segs.
Proof.
  induction segs as [|x segs IH]; intros prev cur; [done|]. cbn [runtimeSegs].
  rewrite iterForLoop_more, gateInstance_more. cbn [scCtxPath withRs].
  destruct (_ && _); [destruct (iterForLoop s _); cbn [res_bind]; auto|].
  destruct (_ && _); [destruct (instanceFromCtx _ _ _) as [[]|]; cbn [res_bind]; auto|].
  destruct (HasPrefix x "gate["); [destruct (gateInstance s _ _); cbn [res_bind]; auto|auto].
Qed.

Lemma stepRuntimePath_more p : stepRuntimePath (withRs s rs') p = stepRuntimePath s p.
Proof. unfold stepRuntimePath. by rewrite runtimeSegs_more. Qed.

Lemma completed_stays p nr : LookupCompleted (scRs s) p = Some nr → LookupCompleted rs' p = Some nr.
Proof. intros H. eapply lookup_weaken; [exact H|]. apply (cm_completed _ _ Hm). Qed.

(** Outside the single-map shape, and inside the map, no aggregate is read. *)
Lemma aggregate_none p id fields :
  aggregateMapOutputs s p id fields = Ok None → aggregateMapOutputs (withRs s rs') p id fields = Ok None.
Proof.
  unfold aggregateMapOutputs. cbn [scCtxPath withRs]. destruct (SingleMapBodyShape p) as [[m sfx]|]; [|done].
  destruct (instanceFromCtx _ _ _) as [[]|]; try done.
  destruct (LookupCompleted (scRs s) m); [by destruct (descend_outputs _ _ _)|by destruct (itemOutputs _ _ _ _ _ _ _)].
Qed.

Lemma stepField_more id nr f rest : stepField (withRs s rs') id nr f rest = stepField s id nr f rest.
Proof. done. Qed.

Lemma resolveStep_more h idSeg fields v :
  match scStepIndex s !! Ident idSeg with
  | Some p => aggregateMapOutputs s p (Ident idSeg) fields = Ok None
  | None => scMapProducts s !! Ident idSeg = None
  end →
  resolveStep s (h :: idSeg :: fields) = Ok v → resolveStep (withRs s rs') (h :: idSeg :: fields) = Ok v.
Proof.
  intros Ha. unfold resolveStep. cbn [scStepIndex scMapProducts withRs].
  destruct (mustIdent idSeg "step id"); [|done]. cbn [res_bind].
  destruct (scStepIndex s !! Ident idSeg) as [p|]; [|by rewrite Ha].
  rewrite (aggregate_none _ _ _ Ha), Ha. cbn [res_bind]. destruct fields as [|f rest]; [done|].
  destruct (mustIdent f "step field"); [|done]. cbn [res_bind]. rewrite stepRuntimePath_more.
  destruct (asUnresolved (stepRuntimePath s p)) as [rp|]; [|done]. cbn [res_bind scRs withRs].
  destruct (LookupCompleted (scRs s) rp) as [nr|] eqn:E; [by rewrite (completed_stays _ _ E)|].
  by destruct (absentDueToUntakenIf s rp).
Qed.
End more.

(** ** The enclosing gate *)

Lemma lastIndex_Some P n i :
  (2 ≤ i < n)%nat → P i = true → (∀ j, (i < j < n)%nat → P j = false) → lastIndex P n = Some i.
Proof.
  intros Hi HP Hj. induction n as [|n IH]; [lia|]. cbn [lastIndex]. destruct (decide (i = n)) as [->|Hne].
  - rewrite HP. destruct (Nat.leb_spec 2 n); [done|lia].
  - rewrite (Hj n) by lia. rewrite andb_false_r. apply IH; [lia|]. intros j H. apply Hj. lia.
Qed.

(** No attempt of another gate between here and the context. *)
Definition noAttempts (segs : list string) : bool := forallb (λ x, negb (HasPrefix x "attempt-")) segs.

Lemma noAttempts_nth l k : noAttempts l = true → HasPrefix (nth k l "") "attempt-" = false.
Proof.
  unfold noAttempts. rewrite forallb_forall. intros H. destruct (nth_in_or_default k l "") as [Hin| ->]; [|done].
  apply H, negb_true_iff in Hin. done.
Qed.

Lemma enclosingGate_split gs g n rest :
  Forall good_seg (gs ++ [g]) → HasPrefix g "gate[" = true → Forall good_seg rest → noAttempts rest = true →
  enclosingGateForEvaluate (path_of "" (gs ++ [g; "attempt-" +:+ Itoa n; "generate"] ++ rest)) = Some (JoinDot (gs ++ [g])).
Proof.
  intros Hgs Hg Hr Hn. unfold enclosingGateForEvaluate.
  set (segs := gs ++ [g; "attempt-" +:+ Itoa n; "generate"] ++ rest).
  destruct (good_instance "attempt-" n) as [Ha _]; [set_solver|].
  assert (HF : Forall good_seg segs).
  { apply Forall_app in Hgs as [H1 H2]. apply Forall_inv in H2. apply Forall_app_2; [done|].
    repeat (apply Forall_cons_2; [done|]). done. }
  assert (Hne : segs ≠ []) by by unfold segs; destruct gs.
  destruct (String.eqb_spec (path_of "" segs) "") as [E|_].
  { destruct segs as [|x l _] using rev_ind; [done|]. by apply path_of_nonempty in E. }
  rewrite SplitDot_path_of by done.
  assert (HL : length segs = (length gs + 3 + length rest)%nat) by (unfold segs; rewrite length_app; cbn; lia).
  assert (Hnth : ∀ k, nth (length gs + k) segs "" = nth k ([g; "attempt-" +:+ Itoa n; "generate"] ++ rest) "").
  { intros k. unfold segs. rewrite app_nth2 by lia. f_equal. lia. }
  rewrite (lastIndex_Some _ _ (length gs + 2)).
  - cbn [fmap option_fmap option_map]. f_equal. f_equal. unfold segs.
    replace (length gs + 2 - 1)%nat with (length gs + 1)%nat by lia. by rewrite take_app_add.
  - lia.
  - unfold gateBranchAt. rewrite Hnth. replace (length gs + 2 - 1)%nat with (length gs + 1)%nat by lia.
    replace (length gs + 2 - 2)%nat with (length gs + 0)%nat by lia. rewrite !Hnth. cbn [nth app mem].
    unfold HasPrefix in *. by rewrite prefix_app, Hg.
  - intros j Hj. unfold gateBranchAt. replace (j - 1)%nat with (length gs + (j - 1 - length gs))%nat by lia.
    rewrite Hnth. destruct (j - 1 - length gs)%nat as [|[|[|k]]] eqn:Ek; [lia|lia|cbn [nth app]; by rewrite andb_false_r|].
    cbn [nth app]. by rewrite (noAttempts_nth _ _ Hn), andb_false_r.
Qed.

(** ** The frame of a call *)

Lemma stripChildPrefix_Some k prefix c :
  c ≠ "" → stripChildPrefix k prefix = Some c ↔ k = prefix +:+ "." +:+ c.
Proof.
  intros Hc. unfold stripChildPrefix. destruct (String.eqb_spec k prefix) as [->|Hk].
  - split; [by intros [= <-]|]. intros E. exfalso. apply (f_equal slen) in E. rewrite !slen_app in E. cbn in E. lia.
  - unfold TrimPrefix, HasPrefix. destruct (String.prefix _ k) eqn:E.
    + apply prefix_spec in E as [t ->]. rewrite sdrop_app. rewrite <- sapp_assoc. cbn [String.append]. split; [by intros [= ->]|].
      intros E. apply sapp_inj_l in E. by injection E as ->.
    + split; [done|]. intros ->. rewrite sapp_assoc, prefix_app in E. done.
Qed.
(** The child's map: the parent's entries under the prefix. *)
Lemma copyPrefixed_lookup {A} prefix (m : gmap string A) c :
  c ≠ "" → copyPrefixed prefix m !! c = m !! (prefix +:+ "." +:+ c).
Proof.
  intros Hc. apply option_eq. intros a. unfold copyPrefixed.
  set (l := omap _ (map_to_list m)).
  assert (Hl : ∀ b, (c, b) ∈ l ↔ m !! (prefix +:+ "." +:+ c) = Some b).
  { intros b. unfold l. rewrite list_elem_of_omap. split.
    - intros ([k b'] & Hk & E). cbn in E. destruct (stripChildPrefix k prefix) as [c'|] eqn:Es; [|done].
      injection E as -> ->. apply stripChildPrefix_Some in Es as ->; [|done]. by apply elem_of_map_to_list in Hk.
    - intros H. exists (prefix +:+ "." +:+ c, b). split; [by apply elem_of_map_to_list|].
      cbn [fst snd]. by rewrite (proj2 (stripChildPrefix_Some (prefix +:+ "." +:+ c) prefix c Hc) eq_refl). }
  split.
  - intros H. apply elem_of_list_to_map_2 in H. by apply Hl.
  - intros H. apply Hl in H. apply elem_of_list_to_map_1'; [|done].
    intros b Hb. apply Hl in Hb, H. congruence.
Qed.

(** Two parents with the same entries under the prefix. *)
Definition same_under {A} (prefix : string) (m m' : gmap string A) : Prop :=
  m !! prefix = m' !! prefix ∧ m !! (prefix +:+ ".") = None ∧ m' !! (prefix +:+ ".") = None ∧
  ∀ c, m !! (prefix +:+ "." +:+ c) = m' !! (prefix +:+ "." +:+ c).

Lemma copyPrefixed_root {A} prefix (m : gmap string A) :
  m !! (prefix +:+ ".") = None → copyPrefixed prefix m !! "" = m !! prefix.
Proof.
  intros Hn. apply option_eq. intros a. unfold copyPrefixed.
  set (l := omap _ (map_to_list m)).
  assert (Hl : ∀ b, ("", b) ∈ l ↔ m !! prefix = Some b).
  { intros b. unfold l. rewrite list_elem_of_omap. split.
    - intros ([k b'] & Hk & E). apply elem_of_map_to_list in Hk. cbn in E. unfold stripChildPrefix in E.
      destruct (String.eqb_spec k prefix) as [->|_]; [by injection E as ->|].
      unfold HasPrefix, TrimPrefix in E. destruct (String.prefix _ k) eqn:Ep; [|done]. apply prefix_spec in Ep as [t ->].
      unfold HasPrefix in E. rewrite prefix_app, sdrop_app in E. injection E as -> ->. rewrite sapp_nil_r in Hk. congruence.
    - intros H. exists (prefix, b). split; [by apply elem_of_map_to_list|]. cbn. unfold stripChildPrefix.
      by rewrite String.eqb_refl. }
  split.
  - intros H. apply elem_of_list_to_map_2 in H. by apply Hl.
  - intros H. apply Hl in H. apply elem_of_list_to_map_1'; [|done].
    intros b Hb. apply Hl in Hb, H. congruence.
Qed.

Lemma copyPrefixed_same {A} prefix (m m' : gmap string A) :
  same_under prefix m m' → copyPrefixed prefix m = copyPrefixed prefix m'.
Proof.
  intros (Hp & Hn & Hn' & Hc). apply map_eq. intros c. destruct (decide (c = "")) as [->|Hne].
  - by rewrite !copyPrefixed_root.
  - by rewrite !copyPrefixed_lookup.
Qed.

(** ** Properties *)

(** A resolved reference points at an instance of the step it names.  When the runtime address of
    a step resolves, dropping the iteration and attempt segments from it, and reading an item segment
    as the body of its map, gives back the static address; so a reference can only read what the named
    step committed, in some iteration, attempt or item. *)
Theorem stepRuntimePath_static s staticPath p :
  Forall good_seg (SplitDot staticPath) → noItems "" (SplitDot staticPath) →
  stepRuntimePath s staticPath = Ok p → runtimeMapPathToStatic p = staticPath.
Proof.
  intros Hg Hn. unfold stepRuntimePath. destruct (Nat.ltb _ _); [done|]. intros Hr.
  apply (runtimeSegs_instance s _ "" [] "" "") in Hr as (out & Ho & -> & Hs); [|done|done|by left|done|by left].
  cbn [app]. unfold runtimeMapPathToStatic.
  assert (Hne : out ≠ []). { intros ->. destruct (Split_cons "." staticPath) as (h & t & E). unfold SplitDot in Hs. by rewrite E in Hs. }
  destruct (String.eqb_spec (path_of "" out) "") as [E|_].
  - destruct out as [|o out _] using rev_ind; [done|]. by apply path_of_nonempty in E.
  - rewrite SplitDot_path_of, Hs by done. apply Join_Split.
Qed.

Definition ex_code (id : string) : Node := NCode (MkCodeStep id "" "true" None None [] ∅ None None).
(** A workflow with a gate in a loop, seen from its third attempt in the second iteration. *)
Definition ex_wf : Workflow :=
  MkWorkflow "wf" 1 None ∅ [] ∅ ∅ ∅ ∅ None None ∅ ∅ ∅
    (Some [NLoop None (Some 5%Z) (Some [ex_code "prep"; NGate (Some [ex_code "build"]) (Some [ex_code "check"]) "true" 3])]) "".
Definition ex_scope_loop : Scope := NewScope zeroRunState ex_wf "loop[0].body.iter-2.gate[1].attempt-3.generate.pack".

Lemma stepRuntimePath_static_witness :
  stepRuntimePath ex_scope_loop "loop[0].body.gate[1].generate.build" = Ok "loop[0].body.iter-2.gate[1].attempt-3.generate.build" ∧
  runtimeMapPathToStatic "loop[0].body.iter-2.gate[1].attempt-3.generate.build" = "loop[0].body.gate[1].generate.build".
Proof.
  split; [by vm_compute|]. apply (stepRuntimePath_static ex_scope_loop); [|by vm_compute|by vm_compute].
  apply (bool_decide_unpack _). by vm_compute.
Defined.

(** C29: what a reference means does not change under the node that evaluates it.  Once a reference
    resolves, it resolves to the same value after more nodes commit (on a concurrent branch, or after a
    crash and resume), as long as it is not the collected output of a map. *)
Theorem Resolve_stable s rs' ref v :
  committed_more (scRs s) rs' → ¬ isAggregateRef s ref →
  Resolve s ref = Ok v → Resolve (withRs s rs') ref = Ok v.
Proof.
  intros Hm Ha. unfold Resolve. destruct (Segments ref) as [|h segs] eqn:Es; [done|].
  destruct (mustIdent h "ref root"); [|done]. cbn [res_bind].
  destruct (String.eqb (Ident h) "run"); [by unfold resolveRun; cbn [scRs withRs]; rewrite (cm_run _ _ Hm)|].
  destruct (String.eqb (Ident h) "input"); [by unfold resolveInput; cbn [scRs scHasInputOverride scInputOverride withRs]; rewrite (cm_input _ _ Hm)|].
  destruct (String.eqb_spec (Ident h) "step") as [Eh|_].
  { destruct segs as [|idSeg fields]; [done|]. apply resolveStep_more; [done|].
    unfold isAggregateRef in Ha. rewrite Es in Ha.
    destruct (scStepIndex s !! Ident idSeg) as [p|]; [|by apply eq_None_not_Some; tauto].
    destruct (aggregateMapOutputs s p (Ident idSeg) fields) as [[w|]|] eqn:E; [..|done|]; exfalso; by apply Ha. }
  destruct (String.eqb (Ident h) "evaluate").
  - unfold resolveEvaluate, LookupGateAttempts. cbn [scRs scVerdictOverride scCtxPath withRs]. by rewrite (cm_gates _ _ Hm).
  - unfold resolveAsBinding, LookupMapItems. cbn [scRs scWf scCtxPath withRs]. by rewrite (cm_items _ _ Hm).
Qed.

Definition ex_result (o : gomap) : NodeResult := MkNodeResult OutcomeOK (Some 0%Z) o "" "" "" ∅ zeroTurn "" "".
Definition ex_build : string := "loop[0].body.iter-2.gate[1].attempt-3.generate.build".
Definition ex_rs : RunState := RecordCompleted ex_build (ex_result (Some [("n", VString "x")])) zeroRunState.
Definition ex_rs' : RunState := RecordCompleted "later" (ex_result None) ex_rs.
Definition ex_ref_n : Ref := MkRef [identSegment "step" 0; identSegment "build" 5; identSegment "n" 11].

Lemma Resolve_stable_witness :
  Resolve (withRs ex_scope_loop ex_rs) ex_ref_n = Ok (VString "x") ∧
  Resolve (withRs (withRs ex_scope_loop ex_rs) ex_rs') ex_ref_n = Ok (VString "x").
Proof.
  split; [by vm_compute|]. apply (Resolve_stable (withRs ex_scope_loop ex_rs) ex_rs' ex_ref_n (VString "x")).
  - by apply RecordCompleted_more.
  - intros [_ H]. revert H. by vm_compute.
  - by vm_compute.
Defined.

(** inside a gate's generate subtree, [evaluate.<field>] is the verdict of that gate's latest attempt:
    the empty string on the first attempt, else the field of the last recorded verdict; and the gate is
    the innermost one around the node, whatever gates enclose it. *)
Theorem evaluate_latest s gs g n rest h f fs :
  Forall good_seg (gs ++ [g]) → HasPrefix g "gate[" = true → Forall good_seg rest → noAttempts rest = true →
  scCtxPath s = path_of "" (gs ++ [g; "attempt-" +:+ Itoa n; "generate"] ++ rest) →
  scVerdictOverride s = None → IsIndex h = false → Ident h = "evaluate" →
  Resolve s (MkRef (h :: f :: fs)) =
    match last (LookupGateAttempts (scRs s) (JoinDot (gs ++ [g]))) with
    | Some (MkAttempt _ _ (Some v)) => descendPath (VMap v) (f :: fs) "evaluate."
    | _ => Ok (VString "")
    end.
Proof.
  intros Hgs Hg Hr Hn Hp Hv Hi He. unfold Resolve. cbn [Segments]. unfold mustIdent. rewrite Hi. cbn [res_bind].
  rewrite He. cbn [String.eqb Ascii.eqb Bool.eqb]. cbv beta. unfold resolveEvaluate. rewrite Hv, Hp, (enclosingGate_split gs g n rest) by done.
  by destruct (last _) as [[? ? []]|].
Qed.

Definition ex_ref_ev : Ref := MkRef [identSegment "evaluate" 0; identSegment "why" 9].
Definition ex_rs_ev : RunState :=
  RecordGateAttempt "loop[0].body.iter-2.gate[1]" (MkAttempt 2 AttemptRejected (Some [("why", VString "slow")])) zeroRunState.

Lemma evaluate_latest_witness :
  Resolve (withRs ex_scope_loop ex_rs_ev) ex_ref_ev = Ok (VString "slow") ∧
  Resolve (withRs ex_scope_loop ex_rs_ev) ex_ref_ev =
    match last (LookupGateAttempts ex_rs_ev (JoinDot ["loop[0]"; "body"; "iter-2"; "gate[1]"])) with
    | Some (MkAttempt _ _ (Some v)) => descendPath (VMap v) [identSegment "why" 9] "evaluate."
    | _ => Ok (VString "")
    end.
Proof.
  split; [by vm_compute|].
  apply (evaluate_latest (withRs ex_scope_loop ex_rs_ev) ["loop[0]"; "body"; "iter-2"] "gate[1]" 3 ["pack"]);
    try (apply (bool_decide_unpack _); by vm_compute); by vm_compute.
Defined.

(** C30: a called workflow sees its own part of the run and nothing else.  Two runs that agree on what is
    recorded at the call's address and below it, with the same run id and digest, give the child the same scope at
    every node, whatever else they hold; and the child's entry at a path is the parent's entry at the
    call's address followed by that path. *)
Theorem call_frame_isolated parent parent' wf path f :
  cfRuntimeParent f ≠ "" →
  rsRunID parent = rsRunID parent' → rsWorkflowDigest parent = rsWorkflowDigest parent' →
  same_under (cfRuntimeParent f) (rsCompleted parent) (rsCompleted parent') →
  same_under (cfRuntimeParent f) (rsBranches parent) (rsBranches parent') →
  same_under (cfRuntimeParent f) (rsLoopIters parent) (rsLoopIters parent') →
  same_under (cfRuntimeParent f) (rsGateAttempts parent) (rsGateAttempts parent') →
  same_under (cfRuntimeParent f) (rsReactRounds parent) (rsReactRounds parent') →
  same_under (cfRuntimeParent f) (rsMapItems parent) (rsMapItems parent') →
  callContextScope parent wf path f = callContextScope parent' wf path f ∧
  ∀ c, c ≠ "" → LookupCompleted (scRs (callContextScope parent wf path f)) c =
                LookupCompleted parent (cfRuntimeParent f +:+ "." +:+ c).
Proof.
  intros Hne Hid Hd H1 H2 H3 H4 H5 H6. unfold callContextScope. apply String.eqb_neq in Hne. rewrite Hne. cbn [negb].
  assert (E : childRunStateForRuntimeParent parent (cfRuntimeParent f) (cfInput f)
            = childRunStateForRuntimeParent parent' (cfRuntimeParent f) (cfInput f)).
  { unfold childRunStateForRuntimeParent. by rewrite Hid, Hd, !(copyPrefixed_same _ _ _ H1), !(copyPrefixed_same _ _ _ H2),
      !(copyPrefixed_same _ _ _ H3), !(copyPrefixed_same _ _ _ H4), !(copyPrefixed_same _ _ _ H5), !(copyPrefixed_same _ _ _ H6). }
  split; [by rewrite E|]. intros c Hc. unfold frameScope.
  by destruct (cfInput f), (cfInputFiles f); cbn; apply copyPrefixed_lookup.
Qed.

Definition ex_frame : CallFrame := MkFrame "sub.workflow" None None.
Definition ex_parent : RunState := RecordCompleted "sub.workflow.a" (ex_result None) zeroRunState.
Definition ex_parent' : RunState := RecordCompleted "other" (ex_result None) ex_parent.

Lemma same_under_empty {A} prefix : same_under prefix (∅ : gmap string A) ∅.
Proof. by split. Qed.

Lemma call_frame_isolated_witness :
  callContextScope ex_parent ex_wf "sub.workflow.b" ex_frame = callContextScope ex_parent' ex_wf "sub.workflow.b" ex_frame ∧
  ∀ c, c ≠ "" → LookupCompleted (scRs (callContextScope ex_parent ex_wf "sub.workflow.b" ex_frame)) c =
                LookupCompleted ex_parent ("sub.workflow" +:+ "." +:+ c).
Proof.
  apply (call_frame_isolated ex_parent ex_parent' ex_wf "sub.workflow.b" ex_frame);
    [done|done|done| |apply same_under_empty..].
  split; [by vm_compute|]. split; [by vm_compute|]. split; [by vm_compute|]. intros c.
  unfold ex_parent', RecordCompleted. cbn [rsCompleted setCompleted]. by rewrite lookup_insert_ne.
Defined.
