(* ===== verification/ReachLaws.v ===== *)
(** * What the validator calls reachable is what the engine resolves

    [blockingScope] decides on static addresses whether a reference sees a producer; the engine's
    [stepRuntimePath] looks for the instance of the producer from the reference's runtime address.  The
    two agree but in nested loops: the walk of the engine over the segments of the producer follows the
    instances of the reference as long as both addresses are the same, and decides the rest as the
    validator does.  [expectedSegs] says which instance a reference means; it is what the engine finds. *)

From S2P Require Import Prelude GoNum GoJson GoStruct TmplLexer TmplParser TmplSlots TmplEval.
From S2P Require Import EnginePath GoPath EngineEvents RunState Ir IrShape Scope ScopeLaws.

(** ** Instances *)

(** The runtime segments of a static address, [ch] choosing the iteration, attempt or item at each
    repeated scope. *)
Fixpoint instSegs (ch : list string → Z) (prev : string) (pre segs : list string) : list string :=
  match segs with
  | [] => pre
  | seg :: rest =>
      if String.eqb seg "body" && HasPrefix prev "loop["
      then instSegs ch seg (pre ++ ["body"; "iter-" +:+ Itoa (ch (pre ++ ["body"]))]) rest
      else if String.eqb seg "body" && HasPrefix prev "map["
      then instSegs ch seg (pre ++ ["item-" +:+ Itoa (ch pre)]) rest
      else if HasPrefix seg "gate["
      then instSegs ch seg (pre ++ [seg; "attempt-" +:+ Itoa (ch (pre ++ [seg]))]) rest
      else instSegs ch seg (pre ++ [seg]) rest
  end.
Definition instantiate (ch : list string → Z) (segs : list string) : string := JoinDot (instSegs ch "" [] segs).

Example instantiate_ex : instantiate (λ _, 3%Z) ["map[0]"; "body"; "gate[1]"; "generate"; "x"] = "map[0].item-3.gate[1].attempt-3.generate.x".
Proof. reflexivity. Qed.

Lemma instSegs_extends ch l : ∀ prev pre, ∃ D, instSegs ch prev pre l = pre ++ D.
Proof.
  induction l as [|x l IH]; intros prev pre; cbn [instSegs]; [exists []; by rewrite app_nil_r|].
  repeat case_match; match goal with |- ∃ D, instSegs _ ?p ?q _ = _ => destruct (IH p q) as [D ->] end;
    rewrite <- app_assoc; by eexists.
Qed.

Lemma instSegs_nonempty ch l prev pre : l ≠ [] → instSegs ch prev pre l ≠ [].
Proof.
  destruct l as [|x l]; [done|]. intros _ E. cbn [instSegs] in E.
  repeat case_match; match type of E with instSegs _ ?p ?q ?l = _ => destruct (instSegs_extends ch l p q) as [D HD]; rewrite HD in E end;
    by destruct pre.
Qed.

(** The last segment of [l], or the one before it. *)
Definition lastOf (prev : string) (l : list string) : string := default prev (last l).
Lemma lastOf_cons prev x l : lastOf prev (x :: l) = lastOf x l.
Proof. unfold lastOf. rewrite last_cons. by destruct (last l). Qed.

Lemma instSegs_app ch C R : ∀ prev pre, instSegs ch prev pre (C ++ R) = instSegs ch (lastOf prev C) (instSegs ch prev pre C) R.
Proof.
  induction C as [|x C IH]; intros prev pre; cbn [app instSegs]; [done|]. rewrite lastOf_cons.
  repeat case_match; by rewrite IH.
Qed.

Lemma instSegs_good ch l : ∀ prev pre, Forall good_seg pre → Forall good_seg l → Forall good_seg (instSegs ch prev pre l).
Proof.
  induction l as [|x l IH]; intros prev pre Hp Hl; cbn [instSegs]; [done|]. apply Forall_cons in Hl as [Hx Hl].
  assert (Hb : good_seg "body") by (by split).
  assert (Hi : ∀ p n, p ∈ ["iter-"; "attempt-"; "item-"] → good_seg (p +:+ Itoa n)) by (intros p n Hpi; by apply good_instance).
  repeat case_match; apply IH; try done; apply Forall_app_2; try done; repeat (apply Forall_cons_2 || apply Forall_nil_2); try done;
    apply Hi; set_solver.
Qed.

(** ** Instances in the context *)

Lemma JoinDot_cons_tail x D : ∃ t, JoinDot (x :: D) = x +:+ t ∧ SplitDot (JoinDot (x :: D)) = SplitDot (x +:+ t) ∧
  (t = "" ∨ ∃ u, t = String "." u).
Proof.
  destruct D as [|y D].
  - exists "". cbn. rewrite sapp_nil_r. split; [done|]. split; [done|by left].
  - exists (String "." (JoinDot (y :: D))). split; [done|]. split; [done|]. right. by eexists.
Qed.

Section context.
Variable (ctx : list string).
Hypothesis Hctx : Forall good_seg ctx.

(** [pre] is followed by an instance of the kind. *)
Lemma instance_found pre kind n D : Forall good_seg pre → pre ≠ [] → lacks "." kind = true → in_i64 n = true →
  ctx = pre ++ (kind +:+ Itoa n) :: D →
  instanceFromCtx (JoinDot ctx) (path_of "" pre) (String "." kind) = Ok (Some n).
Proof.
  intros Hpre Hne Hk Hn Hc. unfold instanceFromCtx. rewrite path_of_Join by done.
  assert (E : JoinDot ctx = (JoinDot pre +:+ String "." kind) +:+ JoinDot (Itoa n :: D)).
  { rewrite Hc. unfold JoinDot. rewrite Join_app by done. rewrite <- !sapp_assoc. cbn [String.append]. f_equal. f_equal.
    destruct D as [|y D]; cbn [Join]; [done|]. by rewrite <- sapp_assoc. }
  rewrite E, HasPrefix_app. cbn [negb]. rewrite sdrop_app.
  destruct (JoinDot_cons_tail (Itoa n) D) as (t & -> & _ & Ht).
  assert (Hh : hd "" (SplitDot (Itoa n +:+ t)) = Itoa n).
  { destruct Ht as [->|[u ->]]; unfold SplitDot.
    - rewrite sapp_nil_r, Split_one; [done|]. by apply lacks_Itoa.
    - rewrite Split_app; [done|]. by apply lacks_Itoa. }
  rewrite Hh. unfold Atoi. by rewrite ParseInt_Itoa.
Qed.

(** It is not. *)
Lemma instance_absent pre kind : Forall good_seg pre → pre ≠ [] → lacks "." kind = true →
  (∀ x D, ctx = pre ++ x :: D → HasPrefix x kind = false) → ctx ≠ [] →
  instanceFromCtx (JoinDot ctx) (path_of "" pre) (String "." kind) = Ok None.
Proof.
  intros Hpre Hne Hk Hno Hcn. unfold instanceFromCtx. rewrite path_of_Join by done.
  destruct (HasPrefix (JoinDot ctx) (JoinDot pre +:+ String "." kind)) eqn:E; [|done]. exfalso.
  unfold HasPrefix in E. apply prefix_spec in E as [t E].
  assert (Hs : SplitDot (JoinDot ctx) = ctx) by (apply Split_Join; [done|by apply Forall_good_lacks]).
  rewrite E, <- sapp_assoc in Hs. cbn [String.append] in Hs.
  assert (Hd : ∀ l, l ≠ [] → Forall good_seg l → SplitDot (JoinDot l +:+ String "." (kind +:+ t)) = l ++ SplitDot (kind +:+ t)).
  { clear. intros l Hl Hg. induction Hg as [|x l Hx Hg IH]; [done|]. destruct l as [|y l].
    - cbn [JoinDot Join app]. unfold SplitDot. rewrite Split_app; [done|]. by destruct Hx.
    - change (JoinDot (x :: y :: l)) with (x +:+ String "." (JoinDot (y :: l))). rewrite <- sapp_assoc. cbn [String.append].
      unfold SplitDot in *. rewrite Split_app by (by destruct Hx). rewrite IH by done. done. }
  rewrite Hd in Hs by done. destruct (Split_cons "." (kind +:+ t)) as (h & tl & Hh). unfold SplitDot in Hs. rewrite Hh in Hs.
  specialize (Hno h tl (eq_sym Hs)).
  assert (Hp : HasPrefix h kind = true); [|congruence].
  assert (Hx : ∀ k u h' tl', lacks "." k = true → Split "." (k +:+ u) = h' :: tl' → String.prefix k h' = true).
  { clear. intros k. induction k as [|c k IH]; intros u h' tl' Hk Hs; [by destruct h'|]. cbn [lacks] in Hk. apply andb_prop in Hk as [Hc Hk].
    apply negb_true_iff in Hc. cbn [String.append Split] in Hs. rewrite Hc in Hs. destruct (Split "." (k +:+ u)) as [|a b] eqn:E; [by destruct (Split_cons "." (k +:+ u)) as (? & ? & ?); congruence|].
    injection Hs as <- <-. cbn. destruct (ascii_dec c c); [|done]. by eapply IH. }
  by eapply Hx.
Qed.
End context.

(** ** The engine's walk *)

(** Errors that say what the run has not done yet. *)
Definition transient (m : EvalMsg) : Prop :=
  (∃ p, m = EmFmt "loop %q has no completed iterations" [p]) ∨
  (∃ p, m = EmFmt "step inside gate %q is not referenceable from outside: the gate has no accepted attempt (it did not run, or every attempt was rejected)" [p]).

(** Nothing of the scopes in [rest] hides a producer from outside: no map body, and of a gate the
    generate subtree. *)
Fixpoint seeThrough (prev : string) (rest : list string) : bool :=
  match rest with
  | [] => true
  | x :: rest =>
      negb (String.eqb x "body" && HasPrefix prev "map[") &&
      (negb (HasPrefix x "gate[") || bool_decide (head rest = Some "generate")) && seeThrough x rest
  end.

(** *** Which instance is meant

    A reference inside a repeated scope means the instance it is in itself; one from outside means the
    last completed iteration of a loop, the newest attempt of a gate that was accepted, and nothing of a
    map. *)
Definition lastIteration (rs : RunState) (loop : list string) : option Z :=
  let n := LookupLoopIters rs (JoinDot loop) in if (n =? 0)%Z then None else Some n.
Definition acceptedAttempt (rs : RunState) (gate : list string) : option Z :=
  arN <$> List.find (λ a, String.eqb (arAttemptOutcome a) "attempt_passed") (rev (LookupGateAttempts rs (JoinDot gate))).

(** The runtime segments of the producer [P] for a reference at the instance [ch] of [R]; [R] is [None]
    once the two addresses have parted. *)
Fixpoint expectedSegs (ch : list string → Z) (rs : RunState) (prev : string) (pre : list string)
    (P : list string) (R : option (list string)) : option (list string) :=
  match P with
  | [] => Some pre
  | x :: P =>
      let R := match R with Some (y :: R) => if String.eqb x y then Some R else None | _ => None end in
      let among (own : Z) (other : option Z) := match R with Some _ => Some own | None => other end in
      if String.eqb x "body" && HasPrefix prev "loop[" then
        n ← among (ch (pre ++ ["body"])) (lastIteration rs pre);
        expectedSegs ch rs x (pre ++ ["body"; "iter-" +:+ Itoa n]) P R
      else if String.eqb x "body" && HasPrefix prev "map[" then
        n ← among (ch pre) None; expectedSegs ch rs x (pre ++ ["item-" +:+ Itoa n]) P R
      else if HasPrefix x "gate[" then
        n ← among (ch (pre ++ [x])) (acceptedAttempt rs (pre ++ [x]));
        expectedSegs ch rs x (pre ++ [x; "attempt-" +:+ Itoa n]) P R
      else expectedSegs ch rs x (pre ++ [x]) P R
  end.

Lemma expected_follow ch rs C P R : ∀ prev pre,
  expectedSegs ch rs prev pre (C ++ P) (Some (C ++ R)) = expectedSegs ch rs (lastOf prev C) (instSegs ch prev pre C) P (Some R).
Proof.
  induction C as [|x C IH]; intros prev pre; [done|]. rewrite lastOf_cons. cbn [app expectedSegs instSegs]. rewrite String.eqb_refl.
  repeat case_match; apply IH.
Qed.
Lemma expected_parted ch rs prev pre P R : (∀ x p y r, P = x :: p → R = y :: r → x ≠ y) →
  expectedSegs ch rs prev pre P (Some R) = expectedSegs ch rs prev pre P None.
Proof.
  destruct P as [|x P], R as [|y R]; intros H; try done. cbn [expectedSegs]. specialize (H x P y R eq_refl eq_refl).
  by apply String.eqb_neq in H as ->.
Qed.

Lemma expected_good ch rs P : ∀ prev pre R l, expectedSegs ch rs prev pre P R = Some l →
  Forall good_seg pre → Forall good_seg P → Forall good_seg l.
Proof.
  induction P as [|x P IH]; intros prev pre R l; cbn [expectedSegs]; [by intros [= <-]|]. intros H Hp [Hx HP]%Forall_cons.
  assert (Hi : ∀ p n, p ∈ ["iter-"; "attempt-"; "item-"] → good_seg (p +:+ Itoa n)) by (intros p n Hpi; by apply good_instance).
  destruct (_ && _); [|destruct (_ && _); [|destruct (HasPrefix x "gate[")]];
    try (apply bind_Some in H as (n & _ & H)); apply IH in H; try done; apply Forall_app_2; try done;
    repeat (apply Forall_cons_2 || apply Forall_nil_2); try done; try (apply Hi; set_solver); by split.
Qed.

Lemma cons_middle2 {A} (pre : list A) x y : pre ++ [x; y] = (pre ++ [x]) ++ [y].
Proof. by rewrite <- app_assoc. Qed.
Lemma find_app {A} (f : A → bool) l l' : List.find f (l ++ l') = match List.find f l with Some x => Some x | None => List.find f l' end.
Proof. induction l as [|x l IH]; cbn; [done|]. by destruct (f x). Qed.
Lemma find_rev_filter {A} (f : A → bool) l : List.find f (rev l) = last (List.filter f l).
Proof.
  induction l as [|x l IH]; [done|]. cbn [rev List.filter]. rewrite find_app, IH. cbn. destruct (f x).
  - rewrite last_cons. by destruct (last (List.filter f l)).
  - by destruct (last (List.filter f l)).
Qed.
Lemma passedAttempt_accepted rs gate : arN <$> passedAttempt (LookupGateAttempts rs (JoinDot gate)) = acceptedAttempt rs gate.
Proof. unfold acceptedAttempt. by rewrite find_rev_filter. Qed.

(** The engine's answer: the expected address, or that there is none yet; an error when it is hidden. *)
Definition outcome (ok : bool) (e : option (list string)) (r : res EvalMsg string) : Prop :=
  if ok then match e with Some l => r = Ok (path_of "" l) | None => ∃ m, r = Err m ∧ transient m end else ∃ m, r = Err m.

Section walk.
Variables (s : Scope) (ch : list string → Z) (ctx : list string).
Hypothesis Hctx : Forall good_seg ctx.
Hypothesis Hcn : ctx ≠ [].
Hypothesis Hs : scCtxPath s = JoinDot ctx.
Hypothesis Hch : ∀ l, in_i64 (ch l) = true.

Lemma iterForLoop_body pre : Forall good_seg pre → pre ≠ [] →
  iterForLoop s (path_of "" (pre ++ ["body"])) =
    (let? n := instanceFromCtx (JoinDot ctx) (path_of "" (pre ++ ["body"])) ".iter-" in
     match n with
     | Some n => Ok n
     | None => let iter := LookupLoopIters (scRs s) (path_of "" pre) in
               if (iter =? 0)%Z then Err (EmFmt "loop %q has no completed iterations" [path_of "" pre]) else Ok iter
     end).
Proof.
  intros Hp Hne. unfold iterForLoop. rewrite <- (path_of_snoc_address pre "body") by done.
  change (path_of "" pre +:+ "." +:+ "body") with (path_of "" pre +:+ ".body"). rewrite HasSuffix_app, TrimSuffix_app, Hs. done.
Qed.

(** One step along the instances of the reference. *)
Lemma runtimeSegs_follow C R : ∀ prev pre, ctx = instSegs ch prev pre (C ++ R) →
  Forall good_seg pre → Forall good_seg C → (prev = "" ∨ pre ≠ []) →
  ∀ P, runtimeSegs s prev (path_of "" pre) (C ++ P) =
       runtimeSegs s (lastOf prev C) (path_of "" (instSegs ch prev pre C)) P.
Proof.
  induction C as [|x C IH]; intros prev pre Hc Hpre HC Hne P; [done|].
  apply Forall_cons in HC as [Hx HC]. rewrite lastOf_cons. cbn [app instSegs runtimeSegs] in *.
  rewrite appendSeg_join1, <- path_of_snoc.
  assert (Hpx : Forall good_seg (pre ++ [x])) by by apply Forall_app_2, Forall_singleton.
  assert (Hpn : pre ++ [x] ≠ []) by by destruct pre.
  destruct (String.eqb x "body" && HasPrefix prev "loop[") eqn:El.
  { apply andb_prop in El as [->%String.eqb_eq El]. assert (pre ≠ []) by (by destruct Hne as [->|?]).
    destruct (instance_address (pre ++ ["body"]) "iter-" (ch (pre ++ ["body"]))) as (E & Hg & _ & _); [set_solver|done..|].
    rewrite <- app_assoc in E, Hg. cbn [app] in E, Hg.
    destruct (instSegs_extends ch (C ++ R) "body" (pre ++ ["body"; "iter-" +:+ Itoa (ch (pre ++ ["body"]))])) as [D HD].
    rewrite iterForLoop_body, (instance_found ctx (pre ++ ["body"]) "iter-" (ch (pre ++ ["body"])) D) by
      (done || (rewrite Hc, HD, <- !app_assoc; done)).
    cbn [res_bind]. unfold IterPath, iterSep. rewrite E. apply IH; [done..|right; by destruct pre]. }
  destruct (String.eqb x "body" && HasPrefix prev "map[") eqn:Em.
  { apply andb_prop in Em as [->%String.eqb_eq Em]. assert (pre ≠ []) by (by destruct Hne as [->|?]).
    destruct (instance_address pre "item-" (ch pre)) as (E & Hg & _ & _); [set_solver|done..|].
    destruct (instSegs_extends ch (C ++ R) "body" (pre ++ ["item-" +:+ Itoa (ch pre)])) as [D HD].
    unfold itemSep. rewrite Hs, (instance_found ctx pre "item-" (ch pre) D) by (done || (rewrite Hc, HD, <- !app_assoc; done)).
    cbn [res_bind]. unfold ItemPath, itemSep. rewrite E. apply IH; [done..|right; by destruct pre]. }
  destruct (HasPrefix x "gate[") eqn:Eg.
  { destruct (instance_address (pre ++ [x]) "attempt-" (ch (pre ++ [x]))) as (E & Hg & _ & _); [set_solver|done..|].
    rewrite <- app_assoc in E, Hg. cbn [app] in E, Hg.
    destruct (instSegs_extends ch (C ++ R) x (pre ++ [x; "attempt-" +:+ Itoa (ch (pre ++ [x]))])) as [D HD].
    unfold gateInstance, attemptSep. rewrite Hs, (instance_found ctx (pre ++ [x]) "attempt-" (ch (pre ++ [x])) D) by
      (done || (rewrite Hc, HD, <- !app_assoc; done)).
    cbn [res_bind]. unfold AttemptPath, attemptSep. rewrite E. apply IH; [done..|right; by destruct pre]. }
  apply IH; [done..|by right].
Qed.

(** The context does not go on from [pre]. *)
Definition far (pre : list string) : Prop := ∀ D, ctx ≠ pre ++ D.
Lemma far_snoc pre x : far pre → far (pre ++ [x]).
Proof. intros H D. rewrite <- app_assoc. apply H. Qed.

(** Away from the reference. *)
Lemma runtimeSegs_away rest : ∀ prev pre,
  Forall good_seg pre → Forall good_seg rest → (prev = "" ∨ pre ≠ []) →
  (∀ x r, rest = x :: r → far (pre ++ [x]) ∧
     (x = "body" → HasPrefix prev "map[" = true → ∀ d D, ctx = pre ++ d :: D → HasPrefix d "item-" = false)) →
  outcome (seeThrough prev rest) (expectedSegs ch (scRs s) prev pre rest None) (runtimeSegs s prev (path_of "" pre) rest).
Proof.
  induction rest as [|x rest IH]; intros prev pre Hpre Hrest Hne Hfar; [done|].
  apply Forall_cons in Hrest as [Hx Hrest]. destruct (Hfar _ _ eq_refl) as [Hf Hm]. cbn [seeThrough runtimeSegs expectedSegs].
  rewrite appendSeg_join1, <- path_of_snoc.
  assert (Hpx : Forall good_seg (pre ++ [x])) by by apply Forall_app_2, Forall_singleton.
  assert (Hpn : pre ++ [x] ≠ []) by by destruct pre.
  assert (Hnext : ∀ pre', far pre' → ∀ y r, rest = y :: r → far (pre' ++ [y]) ∧
     (y = "body" → HasPrefix x "map[" = true → ∀ d D, ctx = pre' ++ d :: D → HasPrefix d "item-" = false)).
  { intros pre' Hp y r _. split; [by apply far_snoc|]. intros _ _ d D Hd. by destruct (Hp (d :: D)). }
  assert (Hno : ∀ kind z D, ctx = (pre ++ [x]) ++ z :: D → HasPrefix z kind = false) by (intros kind z D Hd; by destruct (Hf (z :: D))).
  destruct (String.eqb x "body" && HasPrefix prev "loop[") eqn:El.
  { apply andb_prop in El as [->%String.eqb_eq El]. assert (pre ≠ []) by (by destruct Hne as [->|?]).
    destruct (keyword_excl prev) as [_ Hk]. rewrite (Hk El). cbn [String.eqb andb negb orb].
    rewrite iterForLoop_body, (instance_absent ctx Hctx (pre ++ ["body"]) "iter-") by (done || apply (Hno "iter-")).
    cbn [res_bind]. unfold lastIteration. rewrite path_of_Join by done. destruct (_ =? 0)%Z.
    - cbn [res_bind mbind option_bind]. destruct (seeThrough _ _); eexists; [|done]. split; [done|]. left. by eexists.
    - cbn [res_bind mbind option_bind]. set (n := LookupLoopIters _ _).
      destruct (instance_address (pre ++ ["body"]) "iter-" n) as (E & Hg & _ & _); [set_solver|done..|].
      unfold IterPath, iterSep. rewrite E, (cons_middle2 pre "body"). apply IH; [done..|right; by destruct pre|]. apply Hnext. by apply far_snoc. }
  destruct (String.eqb x "body" && HasPrefix prev "map[") eqn:Em.
  { apply andb_prop in Em as [->%String.eqb_eq Em]. assert (pre ≠ []) by (by destruct Hne as [->|?]).
    unfold itemSep. rewrite Hs, (instance_absent ctx Hctx pre "item-") by (done || (intros; by eapply Hm)). cbn. by eexists. }
  destruct (HasPrefix x "gate[") eqn:Eg; cbn [negb andb orb].
  { unfold gateInstance, attemptSep. rewrite Hs, (instance_absent ctx Hctx (pre ++ [x]) "attempt-") by (done || apply (Hno "attempt-")).
    cbn [res_bind]. case_bool_decide as Hg; cbn [negb andb res_bind]; [|by eexists].
    unfold attemptPath. rewrite path_of_Join, <- passedAttempt_accepted, <- path_of_Join by done. destruct (passedAttempt _) as [a|]; cbn [fmap option_fmap option_map mbind option_bind].
    - rewrite Replace1_all. destruct (instance_address (pre ++ [x]) "attempt-" (arN a)) as (E & Hg' & _ & _); [set_solver|done..|].
      unfold AttemptPath, attemptSep. rewrite E. destruct (String.eqb_spec (path_of "" ((pre ++ [x]) ++ ["attempt-" +:+ Itoa (arN a)])) "") as [En|_].
      + by apply path_of_nonempty in En.
      + cbn [res_bind]. rewrite (cons_middle2 pre x). apply IH; [done..|right; by destruct pre|]. apply Hnext. by apply far_snoc.
    - cbn. destruct (seeThrough _ _); eexists; [|done]. split; [done|]. right. by eexists. }
  apply IH; [done..|by right|]. by apply Hnext.
Qed.
End walk.

(** ** The validator's walk *)

Lemma beforeLastDot_snoc p x : lacks "." x = true → beforeLastDot (p +:+ String "." x) = Some p.
Proof.
  intros Hx. assert (Hn : ∀ y, lacks "." y = true → beforeLastDot y = None).
  { clear. induction y as [|c y IH]; [done|]. cbn [lacks beforeLastDot]. intros [Hc Hy]%andb_prop. rewrite IH by done.
    apply negb_true_iff in Hc. by rewrite Hc. }
  induction p as [|c p IH]; cbn [String.append beforeLastDot]; [by rewrite Hn by done|]. by rewrite IH.
Qed.
Lemma beforeLastDot_lacks x : lacks "." x = true → beforeLastDot x = None.
Proof.
  induction x as [|c x IH]; [done|]. cbn [lacks beforeLastDot]. intros [Hc Hy]%andb_prop. rewrite IH by done.
  apply negb_true_iff in Hc. by rewrite Hc.
Qed.

Section blocking.
Variable P : list string.
Hypothesis HP : Forall good_seg P.

Lemma take_good k : Forall good_seg (take k P).
Proof. by apply Forall_take. Qed.
Lemma SplitDot_take k : (0 < k)%nat → P ≠ [] → SplitDot (JoinDot (take k P)) = take k P.
Proof. intros Hk Hne. apply Split_Join; [destruct P, k; done || lia|]. apply Forall_good_lacks, take_good. Qed.

Lemma opaqueFrom_take k : ∀ i, (i ≤ k)%nat → opaqueFrom (take k P) i = opaqueFrom P i.
Proof.
  induction i as [|i IH]; intros Hi; [done|]. cbn [opaqueFrom]. rewrite IH by lia. unfold opaqueAt.
  assert (Hn : ∀ j, (j < k)%nat → nth j (take k P) "" = nth j P "").
  { intros j Hj. rewrite !nth_lookup. by rewrite lookup_take_lt. }
  rewrite !Hn by lia. rewrite take_take. by replace (S i `min` k)%nat with (S i) by lia.
Qed.

Lemma isGateScope_take i x : P !! i = Some x → isGateScope (JoinDot (take (S i) P)) = HasPrefix x "gate[".
Proof.
  intros Hi. unfold isGateScope. rewrite SplitDot_take by (lia || by destruct P).
  by rewrite (take_S_r _ _ _ Hi), last_snoc.
Qed.

(** The scopes of [P] from segment [k - 1] down. *)
Fixpoint blockedAt (refSite : string) (k : nat) (peeled : bool) : option (string * bool) :=
  match k with
  | O => None
  | S i =>
      if opaqueAt P i then
        let sc := JoinDot (take (S i) P) in
        if pathWithinScope refSite sc then None
        else if negb (isGateScope sc) then Some (sc, peeled)
        else if negb (HasPrefix (TrimPrefix (JoinDot P) (sc +:+ ".")) "generate.") then Some (sc, peeled)
        else blockedAt refSite i true
      else blockedAt refSite i peeled
  end.

Lemma opaqueFrom_spec k : match opaqueFrom P k with
  | None => ∀ refSite peeled, blockedAt refSite k peeled = None
  | Some sc => ∃ i, (i < k)%nat ∧ opaqueAt P i = true ∧ sc = JoinDot (take (S i) P) ∧
                 ∀ refSite peeled, blockedAt refSite k peeled = blockedAt refSite (S i) peeled
  end.
Proof.
  induction k as [|i IH]; [done|]. cbn [opaqueFrom]. destruct (opaqueAt P i) eqn:E.
  - exists i. split; [lia|]. by repeat split.
  - destruct (opaqueFrom P i) as [sc|].
    + destruct IH as (j & Hj & Ho & -> & Hb). exists j. split; [lia|]. split; [done|]. split; [done|].
      intros r p. cbn [blockedAt]. rewrite E. by rewrite Hb.
    + intros r p. cbn [blockedAt]. by rewrite E, IH.
Qed.

(** The loop of [blockingScope], and its fuel. *)
Lemma blockingFrom_eq refSite : ∀ fuel k peeled, (k < fuel)%nat → (0 < k ≤ length P)%nat →
  blockingFrom fuel (JoinDot P) refSite (JoinDot (take k P)) peeled = blockedAt refSite k peeled.
Proof.
  induction fuel as [|fuel IH]; intros k peeled Hf Hk; [lia|]. assert (Hne : P ≠ []) by (destruct P; cbn in *; [lia|done]).
  cbn [blockingFrom]. unfold opaqueScopePrefix. rewrite SplitDot_take by (done || lia).
  rewrite length_take. replace (k `min` length P)%nat with k by lia. rewrite opaqueFrom_take by lia.
  pose proof (opaqueFrom_spec k) as Hs. destruct (opaqueFrom P k) as [sc|]; [|by rewrite Hs].
  destruct Hs as (i & Hi & Ho & -> & ->). cbn [blockedAt]. rewrite Ho.
  destruct (pathWithinScope _ _); [done|]. destruct (negb (isGateScope _)); [done|]. destruct (negb _); [done|].
  destruct (lookup_lt_is_Some_2 P i ltac:(lia)) as [x Hx]. assert (Hl : lacks "." x = true).
  { eapply Forall_lookup in Hx; [|exact HP]. by destruct Hx. }
  destruct i as [|i].
  - rewrite (take_S_r _ _ _ Hx). cbn [take app]. change (JoinDot [x]) with x. by rewrite beforeLastDot_lacks.
  - rewrite (take_S_r _ _ _ Hx). unfold JoinDot. rewrite Join_snoc by (by destruct P).
    rewrite beforeLastDot_snoc by done. apply IH; lia.
Qed.
End blocking.

(** ** Agreement *)

Lemma SplitDot_JoinDot_app l b : l ≠ [] → Forall good_seg l → SplitDot (JoinDot l +:+ String "." b) = l ++ SplitDot b.
Proof.
  intros Hl Hg. rewrite <- (Join_Split "." b) at 1. destruct (Split_cons "." b) as (h & t & Hb).
  unfold SplitDot, JoinDot. rewrite <- Join_app by (done || by rewrite Hb). apply Split_Join; [by destruct l|].
  apply Forall_app_2; [by apply Forall_good_lacks|apply Split_lacks].
Qed.

Lemma within_iff R T : R ≠ [] → T ≠ [] → Forall good_seg R → Forall good_seg T →
  pathWithinScope (JoinDot R) (JoinDot T) = true ↔ ∃ D, R = T ++ D.
Proof.
  intros HR HT GR GT. unfold pathWithinScope, HasPrefix. rewrite orb_true_iff, String.eqb_eq, prefix_spec. split.
  - intros [E|[t E]].
    + apply Join_inj in E; try done; try by apply Forall_good_lacks. exists []. by rewrite app_nil_r.
    + exists (SplitDot t). rewrite <- (SplitDot_JoinDot_app T t) by done.
      rewrite <- sapp_assoc in E. cbn [String.append] in E. rewrite <- E. symmetry. apply Split_Join; [done|by apply Forall_good_lacks].
  - intros [D ->]. destruct D as [|d D]; [left; by rewrite app_nil_r|right]. exists (JoinDot (d :: D)).
    unfold JoinDot. rewrite Join_app by done. by rewrite <- sapp_assoc.
Qed.

(** The longest common prefix. *)
Lemma common_prefix (P R : list string) : ∃ C P' R', P = C ++ P' ∧ R = C ++ R' ∧ ∀ x p y r, P' = x :: p → R' = y :: r → x ≠ y.
Proof.
  revert R. induction P as [|x P IH]; intros [|y R]; [by exists [], [], []|by exists [], [], (y :: R)|by exists [], (x :: P), []|].
  destruct (decide (x = y)) as [->|Hne].
  - destruct (IH R) as (C & P' & R' & -> & -> & H). by exists (y :: C), P', R'.
  - exists [], (x :: P), (y :: R). split; [done|]. split; [done|]. congruence.
Qed.

(** Segment [i] hides what is below it from outside. *)
Definition hides (P : list string) (i : nat) : bool :=
  opaqueAt P i && negb (HasPrefix (nth i P "") "gate[" && String.eqb (nth (S i) P "") "generate").

Lemma lastOf_app_cons prev C x : lastOf prev (C ++ [x]) = x.
Proof. unfold lastOf. by rewrite last_snoc. Qed.

Lemma seeThrough_iff P' : ∀ C, Forall good_seg (C ++ P') →
  seeThrough (lastOf "" C) P' = true ↔ ∀ i, (length C ≤ i < length (C ++ P'))%nat → hides (C ++ P') i = false.
Proof.
  induction P' as [|x P' IH]; intros C HF; cbn [seeThrough].
  { split; [|done]. intros _ i Hi. rewrite app_nil_r in Hi. lia. }
  assert (Happ : C ++ x :: P' = (C ++ [x]) ++ P') by by rewrite <- app_assoc.
  rewrite andb_true_iff. rewrite Happ in HF. specialize (IH (C ++ [x]) HF). rewrite lastOf_app_cons in IH. rewrite IH, Happ.
  
  assert (Hx : nth (length C) ((C ++ [x]) ++ P') "" = x) by (rewrite <- app_assoc; apply nth_middle).
  assert (Hnx : nth (S (length C)) ((C ++ [x]) ++ P') "" = default "" (head P')).
  { rewrite nth_lookup, lookup_app_r by (rewrite length_app; cbn; lia). rewrite length_app. cbn [length].
    replace (S (length C) - (length C + 1))%nat with 0%nat by lia. by destruct P'. }
  assert (Hpv : (String.eqb x "body" && (1 <=? length C)%nat && HasPrefix (nth (length C - 1) ((C ++ [x]) ++ P') "") "map[")
                = (String.eqb x "body" && HasPrefix (lastOf "" C) "map[")).
  { destruct C as [|c C _] using rev_ind; [cbn; by rewrite andb_false_r|]. rewrite lastOf_app_cons, length_app. cbn [length].
    replace (length C + 1 - 1)%nat with (length C) by lia. rewrite <- !app_assoc. cbn [app]. rewrite nth_middle.
    replace (1 <=? length C + 1)%nat with true by (symmetry; apply Nat.leb_le; lia). by rewrite andb_true_r. }
  assert (Hh : hides ((C ++ [x]) ++ P') (length C) = false ↔
    negb (String.eqb x "body" && HasPrefix (lastOf "" C) "map[") && (negb (HasPrefix x "gate[") || bool_decide (head P' = Some "generate")) = true).
  { unfold hides, opaqueAt. rewrite Hx, Hnx, Hpv.
    assert (Hg : String.eqb (default "" (head P')) "generate" = bool_decide (head P' = Some "generate")).
    { destruct P' as [|y P']; [done|]. cbn. case_bool_decide as Hd; [injection Hd as ->; done|]. apply String.eqb_neq. congruence. }
    rewrite Hg. destruct (String.eqb_spec x "body") as [->|]; [cbn; destruct (HasPrefix (lastOf "" C) "map["); done|].
    cbn [andb orb]. by destruct (HasPrefix x "gate["), (bool_decide _). }
  rewrite <- Hh. split.
  - intros [H1 H2] i Hi. destruct (decide (i = length C)) as [->|]; [done|]. apply H2. rewrite !length_app in *. cbn in *. lia.
  - intros H. split; [apply H; rewrite !length_app; cbn; lia|]. intros i Hi. apply H. rewrite !length_app in *. cbn in *. lia.
Qed.

Section agreement.
Variables (C P' R' : list string).
Let P := C ++ P'.
Let R := C ++ R'.
Hypothesis HP : Forall good_seg P.
Hypothesis HR : Forall good_seg R.
Hypothesis HRn : R ≠ [].
Hypothesis Hlast : ∀ x, last P = Some x → ¬ (x = "generate" ∨ HasPrefix x "gate[" = true).
Hypothesis Hdiff : ∀ x p y r, P' = x :: p → R' = y :: r → x ≠ y.

Lemma within_common i : (i < length P)%nat → pathWithinScope (JoinDot R) (JoinDot (take (S i) P)) = bool_decide (i < length C)%nat.
Proof.
  intros Hi. assert (HPn : P ≠ []) by (intros E; rewrite E in Hi; cbn in Hi; lia).
  assert (Hw := within_iff R (take (S i) P) HRn ltac:(by destruct P) HR ltac:(by apply Forall_take)).
  case_bool_decide as Hc.
  - apply Hw. unfold P, R. rewrite take_app_le by lia. exists (drop (S i) C ++ R'). by rewrite app_assoc, take_drop.
  - destruct (pathWithinScope _ _); [|done]. destruct Hw as [Hw _]. destruct (Hw eq_refl) as [D HD]. exfalso. unfold P, R in HD.
    rewrite take_app_ge, <- app_assoc in HD by lia. apply app_inv_head in HD.
    unfold P in Hi. rewrite length_app in Hi. destruct P' as [|x p]; [cbn in Hi; lia|].
    destruct (S i - length C)%nat as [|j] eqn:Ej; [lia|]. cbn in HD. by apply (Hdiff x p x _ eq_refl HD).
Qed.

Lemma JoinDot_at i x D : drop (S i) P = x :: D → JoinDot P = (JoinDot (take (S i) P) +:+ ".") +:+ JoinDot (x :: D).
Proof.
  intros Ed. replace (JoinDot P) with (JoinDot (take (S i) P ++ drop (S i) P)) by (by rewrite take_drop).
  rewrite Ed. unfold JoinDot. rewrite Join_app; [by rewrite <- sapp_assoc| |done]. intros E. apply (f_equal length) in E, Ed.
  rewrite length_take in E. rewrite length_drop in Ed. cbn [length] in *. lia.
Qed.

(** What the validator reads after a gate that is not the producer itself. *)
Lemma generate_next i : (S i < length P)%nat →
  HasPrefix (TrimPrefix (JoinDot P) (JoinDot (take (S i) P) +:+ ".")) "generate." = String.eqb (nth (S i) P "") "generate".
Proof.
  intros Hi. destruct (drop (S i) P) as [|x D] eqn:Ed.
  { apply (f_equal length) in Ed. rewrite length_drop in Ed. cbn in Ed. lia. }
  rewrite (JoinDot_at _ _ _ Ed), TrimPrefix_app.
  assert (Hx : nth (S i) P "" = x).
  { rewrite nth_lookup. apply (f_equal head) in Ed. rewrite head_lookup, lookup_drop, Nat.add_0_r in Ed. by rewrite Ed. }
  assert (Hg : good_seg x).
  { pose proof (Forall_drop _ (S i) _ HP) as HF. rewrite Ed in HF. by inversion HF. }
  rewrite Hx. destruct (String.eqb_spec x "generate") as [->|Hne].
  - destruct D as [|y D].
    + exfalso. apply (Hlast "generate"); [|by left]. rewrite <- (take_drop (S i) P), Ed. by rewrite last_snoc.
    + unfold JoinDot. rewrite Join_cons by done. change ("generate" +:+ String "." (Join "." (y :: D))) with ("generate." +:+ Join "." (y :: D)).
      apply HasPrefix_app.
  - destruct (HasPrefix _ _) eqn:E; [|done]. exfalso. apply Hne. unfold HasPrefix in E. apply prefix_spec in E as [t E].
    assert (HD : Forall good_seg (x :: D)) by (rewrite <- Ed; by apply Forall_drop).
    assert (Hs : SplitDot (JoinDot (x :: D)) = x :: D) by (apply Split_Join; [done|by apply Forall_good_lacks]).
    rewrite E in Hs. change ("generate." +:+ t) with (JoinDot ["generate"] +:+ String "." t) in Hs.
    rewrite SplitDot_JoinDot_app in Hs by (done || by repeat constructor). by injection Hs.
Qed.

Lemma blockedAt_iff k peeled : (k ≤ length P)%nat →
  blockedAt P (JoinDot R) k peeled = None ↔ ∀ i, (length C ≤ i < k)%nat → hides P i = false.
Proof.
  revert peeled. induction k as [|i IH]; intros peeled Hk; [split; [intros _ i Hi; lia|done]|].
  assert (Hstep : (∀ j, (length C ≤ j < S i)%nat → hides P j = false) ↔
    ((length C ≤ i)%nat → hides P i = false) ∧ ∀ j, (length C ≤ j < i)%nat → hides P j = false).
  { split; [intros H; split; [intros; apply H|intros; apply H]; lia|]. intros [H1 H2] j Hj. destruct (decide (j = i)) as [->|]; [apply H1|apply H2]; lia. }
  rewrite Hstep. clear Hstep. cbn [blockedAt]. unfold hides at 1. destruct (opaqueAt P i) eqn:Ho; cbn [andb]; [|rewrite IH by lia; tauto].
  rewrite within_common by lia. case_bool_decide as Hc.
  { split; [|done]. intros _. split; intros; lia. }
  destruct (lookup_lt_is_Some_2 P i ltac:(lia)) as [x Hx]. rewrite (isGateScope_take P HP i x Hx). rewrite (nth_lookup P i), Hx. cbn [default from_option id].
  destruct (HasPrefix x "gate[") eqn:Eg; cbn [negb andb].
  - assert (S i < length P)%nat.
    { destruct (decide (S i = length P)) as [E|]; [|lia]. exfalso. apply (Hlast x); [|by right].
      rewrite last_lookup. rewrite <- E. cbn. done. }
    rewrite generate_next by done. destruct (String.eqb _ "generate"); cbn [negb].
    + rewrite IH by lia. tauto.
    + split; [done|]. intros [H' _]. by specialize (H' ltac:(lia)).
  - split; [done|]. intros [H' _]. by specialize (H' ltac:(lia)).
Qed.

Lemma blockingScope_iff : P ≠ [] → blockingScope (JoinDot P) (JoinDot R) = None ↔ seeThrough (lastOf "" C) P' = true.
Proof.
  intros HPn. assert (Hs : SplitDot (JoinDot P) = P) by (apply Split_Join; [done|by apply Forall_good_lacks]).
  unfold blockingScope. rewrite Hs. assert (Hl : (0 < length P)%nat) by (destruct (nil_or_length_pos P); [done|lia]).
  pose proof (blockingFrom_eq P HP (JoinDot R) (S (length P)) (length P) false ltac:(lia) ltac:(lia)) as Hb.
  rewrite firstn_all in Hb. rewrite Hb.
  rewrite blockedAt_iff by done. by rewrite (seeThrough_iff P' C HP).
Qed.
End agreement.

(** ** The theorem *)

(** A reference site and a producer, on static addresses. *)
Definition site_ok (R : list string) : Prop := R ≠ [] ∧ Forall good_seg R ∧ noItems "" R.
Definition producer_ok (P : list string) : Prop :=
  site_ok P ∧ (∀ x, last P = Some x → ¬ (x = "generate" ∨ HasPrefix x "gate[" = true)).
Definition loopsOf (P : list string) : nat := length (List.filter (λ seg, HasPrefix seg "loop[") P).

Lemma noItems_app C : ∀ prev P', noItems prev (C ++ P') → noItems (lastOf prev C) P'.
Proof. induction C as [|x C IH]; intros prev P' H; [done|]. rewrite lastOf_cons. apply IH. by destruct H. Qed.

(** Where the addresses part, the context does not go on along the producer. *)
Lemma parted ch prev pre P' R' :
  noItems prev P' → noItems prev R' → (∀ x p y r, P' = x :: p → R' = y :: r → x ≠ y) →
  ∀ x r, P' = x :: r → far (instSegs ch prev pre R') (pre ++ [x]) ∧
    (x = "body" → HasPrefix prev "map[" = true → ∀ d D, instSegs ch prev pre R' = pre ++ d :: D → HasPrefix d "item-" = false).
Proof.
  intros HnP HnR Hd x r ->. destruct HnP as [HiP _].
  assert (Hhead : ∀ z l, z ≠ x → (∃ D, l = pre ++ z :: D) → far l (pre ++ [x])).
  { intros z l Hz (D & ->) D' E. rewrite <- app_assoc in E. apply app_inv_head in E. by injection E as E _. }
  destruct R' as [|y R']; cbn [instSegs].
  { split; [|intros _ _ d D E; apply (f_equal length) in E; rewrite length_app in E; cbn in E; lia].
    intros D E. apply (f_equal length) in E. rewrite !length_app in E. cbn in E. lia. }
  specialize (Hd x r y R' eq_refl eq_refl). destruct HnR as [HiR _].
  assert (Hext : ∀ z zs l, instSegs ch y (pre ++ z :: zs) R' = l → ∃ D, l = pre ++ z :: D).
  { intros z zs l <-. destruct (instSegs_extends ch R' y (pre ++ z :: zs)) as [D ->]. rewrite <- app_assoc. by eexists. }
  assert (Hitem : ∀ d D l z, (∃ D', l = pre ++ z :: D') → l = pre ++ d :: D → d = z).
  { intros d D l z (D' & ->) E. apply app_inv_head in E. by injection E. }
  destruct (String.eqb y "body" && HasPrefix prev "loop[") eqn:El.
  { apply andb_prop in El as [->%String.eqb_eq El]. split; [eapply Hhead; [|by eapply Hext]; congruence|].
    intros -> . done. }
  destruct (String.eqb y "body" && HasPrefix prev "map[") eqn:Em.
  { apply andb_prop in Em as [->%String.eqb_eq Em]. split; [eapply Hhead; [|by eapply Hext]|intros ->; done].
    rewrite Em in HiP. cbn in HiP. intros <-. unfold HasPrefix in HiP. by rewrite prefix_app in HiP. }
  destruct (HasPrefix y "gate[") eqn:Eg.
  - split; [eapply Hhead; [|by eapply Hext]; congruence|]. intros _ Hm d D E. rewrite Hm in HiR.
    by rewrite (Hitem _ _ _ _ (Hext _ _ _ eq_refl) E).
  - split; [eapply Hhead; [|by eapply Hext]; congruence|]. intros _ Hm d D E. rewrite Hm in HiR.
    by rewrite (Hitem _ _ _ _ (Hext _ _ _ eq_refl) E).
Qed.

(** C38: what the validator calls reachable is what the engine resolves.  Take a producer at static
    address [P] and a reference at a runtime instance of the site [R].  With at most one loop around the
    producer: if no scope blocks, the engine resolves exactly the expected instance, the one the
    reference is in where it is inside a scope, and from outside the last completed iteration of a loop
    and the newest accepted attempt of a gate, or reports that a loop has no iteration or a gate no
    accepted attempt yet; if a scope blocks, it resolves nothing in any run state.  Inside nested loops
    it resolves nothing either, although no scope may block. *)
Theorem blockingScope_runtime ch s P R (HP : producer_ok P) (HR : site_ok R) (Hch : ∀ l, in_i64 (ch l) = true)
    (Hs : scCtxPath s = instantiate ch R) :
  if (1 <? loopsOf P)%nat then ∃ m, stepRuntimePath s (JoinDot P) = Err m else
  match blockingScope (JoinDot P) (JoinDot R) with
  | None => match expectedSegs ch (scRs s) "" [] P (Some R) with
            | Some l => stepRuntimePath s (JoinDot P) = Ok (JoinDot l)
            | None => ∃ m, stepRuntimePath s (JoinDot P) = Err m ∧ transient m
            end
  | Some _ => ∃ m, stepRuntimePath s (JoinDot P) = Err m
  end.
Proof.
  destruct HP as ((HPn & HPg & HPi) & Hlast), HR as (HRn & HRg & HRi).
  assert (Hsp : SplitDot (JoinDot P) = P) by (apply Split_Join; [done|by apply Forall_good_lacks]).
  unfold stepRuntimePath. rewrite Hsp. fold (loopsOf P). destruct (1 <? loopsOf P)%nat; [by eexists|]. clear Hsp.
  destruct (common_prefix P R) as (C & P' & R' & -> & -> & Hdiff).
  pose proof (blockingScope_iff C P' R' HPg HRg HRn Hlast Hdiff HPn) as Hb.
  assert (HCg : Forall good_seg C) by by apply Forall_app in HPg as [? _].
  assert (HPg' : Forall good_seg P') by by apply Forall_app in HPg as [_ ?].
  rewrite expected_follow, expected_parted by done.
  set (ctx := instSegs ch "" [] (C ++ R')) in *.
  assert (Hctx : Forall good_seg ctx) by by apply instSegs_good.
  assert (Hcn : ctx ≠ []) by by apply instSegs_nonempty.
  assert (Ho : outcome (seeThrough (lastOf "" C) P') (expectedSegs ch (scRs s) (lastOf "" C) (instSegs ch "" [] C) P' None)
                       (runtimeSegs s "" "" (C ++ P'))).
  { change (runtimeSegs s "" "") with (runtimeSegs s "" (path_of "" [])).
    rewrite (runtimeSegs_follow s ch ctx Hctx Hcn Hs Hch C R' "" [] eq_refl) by (done || by left).
    apply (runtimeSegs_away s ch ctx Hctx Hcn Hs Hch).
    - by apply instSegs_good.
    - done.
    - destruct C as [|x C]; [by left|right]. by apply instSegs_nonempty.
    - unfold ctx. rewrite instSegs_app. apply parted; [by apply noItems_app|by apply noItems_app|done]. }
  destruct (blockingScope _ _) as [b|].
  { destruct (seeThrough _ _); [by destruct Hb as [_ Hb]; discriminate Hb|exact Ho]. }
  rewrite (proj1 Hb eq_refl) in Ho. unfold outcome in Ho.
  destruct (expectedSegs _ _ _ _ _ _) as [l|] eqn:El; [|done]. rewrite Ho. f_equal. apply path_of_Join.
  apply expected_good in El; [done|by apply instSegs_good|done].
Qed.

Definition exSite : list string := ["map[0]"; "body"; "gate[1]"; "evaluate"; "check"].
Definition exProducer : list string := ["map[0]"; "body"; "gate[0]"; "generate"; "build"].
(** The other gate of the item was passed in its second attempt. *)
Definition exGateRS : RunState :=
  RecordGateAttempt "map[0].item-2.gate[0]" (MkAttempt 2 AttemptPassed None) (RecordGateAttempt "map[0].item-2.gate[0]" (MkAttempt 1 AttemptRejected None) zeroRunState).
Definition exCtx : Scope := NewScope exGateRS ex_wf (instantiate (λ _, 2%Z) exSite).

Lemma exProducer_ok : producer_ok exProducer.
Proof.
  split; [|intros x [= <-] [H|H]; done]. split; [done|]. split; [|by repeat split]. repeat constructor; done.
Qed.
Lemma exSite_ok : site_ok exSite.
Proof. split; [done|]; split; [repeat constructor; done|by repeat split]. Qed.

Lemma blockingScope_runtime_witness :
  stepRuntimePath exCtx (JoinDot exProducer) = Ok "map[0].item-2.gate[0].attempt-2.generate.build".
Proof. exact (blockingScope_runtime (λ _, 2%Z) exCtx exProducer exSite exProducer_ok exSite_ok (λ _, eq_refl) eq_refl). Defined.

(** The validator lets a reference out of nested loops through, the engine does not resolve it. *)
Definition exNested : list string := ["loop[0]"; "body"; "loop[0]"; "body"; "x"].
Example nested_loops_unresolved :
  blockingScope (JoinDot exNested) "after" = None ∧ is_ok (stepRuntimePath (NewScope zeroRunState ex_wf "after") (JoinDot exNested)) = false.
Proof. split; vm_compute; reflexivity. Qed.
