(* ===== verification/Threads.v ===== *)
(** * Conversations: the turns an agent step continues

    engine/agent_step.go: the walk of [continues:] over the thread indexes of the run state.  They are built
    once per run state, from the workflow of the first step that asks for them ([RunState.threadIndexes]);
    a called workflow shares the run state of its caller. *)

From S2P Require Import Prelude GoNum GoJson GoStruct EnginePath GoPath TmplLexer TmplParser TmplSlots TmplEval.
From S2P Require Import EngineEvents RunState Ir Scope.

(** Why a conversation cannot be assembled. *)
Inductive threadErr : Type :=
  | ThreadResolve (target : string) (cause : EvalMsg)
  | ThreadNotCommitted (target runtime : string)
  | ThreadNoTranscript (target runtime : string).

#[export] Instance ThreadTurn_eq_dec : EqDecision ThreadTurn.
Proof. solve_decision. Defined.

Section assemble.
Variables (ti : ThreadIndexes) (s : Scope) (rs : RunState).

(** One turn: the predecessor's own transcript. *)
Definition turnOf (cur : string) : res threadErr ThreadTurn :=
  let? predRuntime := res_map_err (ThreadResolve cur) (stepRuntimePath s (default "" (stepPathIdx ti !! cur))) in
  match LookupCompleted rs predRuntime with
  | None => Err (ThreadNotCommitted cur predRuntime)
  | Some nr =>
      if bool_decide (nrTranscript nr = zeroTurn) then Err (ThreadNoTranscript cur predRuntime)
      else Ok (MkThreadTurn (ttUser (nrTranscript nr)) (ttAssistant (nrTranscript nr)))
  end.

(** The walk from the step's target back to the root of the conversation, prepending; it has no bound
    of its own, so [None] is a walk that is still going on. *)
Fixpoint assembleTurns (fuel : nat) (cur : string) (turns : list ThreadTurn) : option (res threadErr (list ThreadTurn)) :=
  match fuel with
  | O => None
  | S fuel =>
      if String.eqb cur "" then Some (Ok turns)
      else match turnOf cur with
           | Err e => Some (Err e)
           | Ok t => assembleTurns fuel (default "" (asContinues <$> agentStepIdx ti !! cur)) (t :: turns)
           end
  end.
End assemble.
