(* ===== verification/ContLaws.v ===== *)
(** * Conversations the validator accepts are assembled

    [validateContinues] decides on static addresses which step a step may continue; the engine walks the
    same links at run time, from the runtime address of the step that asks.  A workflow without an error
    has no link the walk cannot follow: it ends, every target is found in the same iteration, attempt and
    item as the step itself, and what a judge is shown has no turn of an evaluator in it. *)

From S2P Require Import Prelude GoNum GoJson GoStruct TmplEval EnginePath GoPath EngineEvents RunState.
From S2P Require Import Ir IrShape IrDiag ValStructural ValContinues ValLaws Scope ScopeLaws ReachLaws Threads.

(** ** The agent steps of a graph *)

Lemma indexAgents_spec l : ∀ ord acc id e,
  indexAgents l ord acc !! id = Some e →
  acc !! id = Some e ∨
  ∃ k, l !! k = Some (NAgent (aeStep e), aePath e) ∧ aeOrd e = (ord + Z.of_nat k)%Z ∧ asID (aeStep e) = id.
Proof.
  induction l as [|[n p] l IH]; intros ord acc id e H; [by left|]. cbn [indexAgents] in H.
  apply IH in H as [H|(k & Hk & Ho & Hi)].
  - destruct n; try by left. destruct (decide (asID s = id)) as [<-|Hne].
    + rewrite lookup_insert_eq in H. injection H as <-. right. exists 0%nat. repeat split; cbn; lia.
    + rewrite lookup_insert_ne in H by done. by left.
  - right. exists (S k). repeat split; [done| |done]. rewrite Ho. lia.
Qed.

Lemma indexAgents_some l : ∀ ord acc id,
  is_Some (acc !! id) ∨ (∃ s p, (NAgent s, p) ∈ l ∧ asID s = id) → is_Some (indexAgents l ord acc !! id).
Proof.
  induction l as [|[n p] l IH]; intros ord acc id H; [destruct H as [H|(s & p & []%not_elem_of_nil & _)]; done|].
  cbn [indexAgents]. apply IH. destruct H as [H|(s & q & [E|Hin]%elem_of_cons & Hid)].
  - left. destruct n; try done. destruct (decide (asID s = id)) as [<-|]; [by rewrite lookup_insert_eq; eexists|by rewrite lookup_insert_ne].
  - injection E as <- <-. left. rewrite Hid, lookup_insert_eq. by eexists.
  - right. eauto.
Qed.

Lemma agentStepByID_index l : ∀ ord acc,
  foldl (λ m (np : Node * string), match np.1 with NAgent s => <[asID s := s]> m | _ => m end) (aeStep <$> acc) l =
  aeStep <$> indexAgents l ord acc.
Proof.
  induction l as [|[n p] l IH]; intros ord acc; [done|]. cbn [foldl indexAgents fst]. destruct n; try apply IH.
  by rewrite <- (IH (ord + 1)%Z), fmap_insert.
Qed.

Lemma threadTargets_spec wf a p : (NAgent a, p) ∈ WalkNodes (wfGraph wf) "" → asContinues a ≠ "" → asContinues a ∈ threadTargets wf.
Proof.
  unfold threadTargets. generalize (WalkNodes (wfGraph wf) "") as l. intros l.
  assert (Hm : ∀ l (m : gset string) x, x ∈ m → x ∈ foldl (λ m (np : Node * string),
           match np.1 with NAgent s => if String.eqb (asContinues s) "" then m else {[ asContinues s ]} ∪ m | _ => m end) m l).
  { clear. induction l as [|[n p] l IH]; intros m x Hx; [done|]. cbn [foldl fst]. apply IH. destruct n; try done.
    destruct (String.eqb _ _); set_solver. }
  generalize (∅ : gset string) as m. induction l as [|[n q] l IH]; intros m Hin Hc; [by apply not_elem_of_nil in Hin|].
  cbn [foldl fst]. apply elem_of_cons in Hin as [[= <- <-]|Hin]; [|by apply IH].
  apply Hm. apply String.eqb_neq in Hc. rewrite Hc. set_solver.
Qed.

(** ** The addresses of the steps *)

(** A segment that stands for a scope: a branch keyword or an indexed control node. *)
Definition scope_seg (x : string) : Prop := mem x reservedStepIDTokens = true ∨ lacks "[" x = false.

Lemma branch_scope_seg n i b l : (b, l) ∈ branches n → scope_seg (lastOf (self_seg n i) b).
Proof.
  intros Hin. unfold scope_seg. destruct n; cbn [branches] in Hin; repeat (apply elem_of_cons in Hin as [[= -> ->]|Hin]);
    try (by apply not_elem_of_nil in Hin); cbn; auto.
Qed.

(** A node of the walk: its scope, which ends in a scope segment, and its own segment. *)
Definition placed (pre : list string) (n : Node) (p : string) : Prop :=
  ∃ C j, p = path_of "" (pre ++ C ++ [self_seg n j]) ∧ Forall good_seg (C ++ [self_seg n j]) ∧
         (∀ x, last C = Some x → scope_seg x) ∧ own_ok n = true.

Lemma walk_placed m : addressable m = true → ∀ pre i n p,
  (n, p) ∈ walkNode (path_of "" pre) m i → placed pre n p.
Proof.
  induction m as [m IH] using Node_ind'. intros Ha pre i n p Hin.
  apply addressable_eq in Ha as [Hown Hbr]. rewrite walkNode_eq in Hin. destruct (is_skip m); [by apply not_elem_of_nil in Hin|].
  apply elem_of_cons in Hin as [[= -> ->]|Hin].
  { exists [], i. rewrite <- path_of_snoc. repeat split; [|done|done]. cbn [app]. apply Forall_singleton. by apply self_good. }
  rewrite <- path_of_snoc in Hin. apply list_elem_of_In, in_flat_map in Hin as ([b l] & Hb%list_elem_of_In & Hin%list_elem_of_In).
  specialize (IH b l Hb). pose proof (Hbr b l Hb) as Hal. destruct (branch_good m b l Hb) as [Hbg _].
  pose proof (branch_scope_seg m i b l Hb) as Hsc. cbn [fst snd] in Hin. rewrite <- path_of_app in Hin.
  destruct l as [l|]; [|by apply not_elem_of_nil in Hin]. cbn [default from_option id addressable_list] in *. apply andb_prop in Hal as [Hal _].
  assert (Hex : ∃ m' j, m' ∈ l ∧ (n, p) ∈ walkNode (path_of "" ((pre ++ [self_seg m i]) ++ b)) m' j).
  { revert Hin. cbn [walk_nodes]. generalize 0%Z. clear. induction l as [|x l IH]; intros z Hin; [by apply not_elem_of_nil in Hin|].
    cbn [walk_list] in Hin. apply elem_of_app in Hin as [Hin|Hin]; [exists x, z; split; [left|done]|].
    destruct (IH _ Hin) as (m' & j & Hm & Hj). exists m', j. split; [by right|done]. }
  destruct Hex as (m' & j & Hm & Hj). rewrite Forall_forall in IH. rewrite forallb_forall in Hal.
  destruct (IH m' Hm (Hal m' (proj1 (list_elem_of_In _ _) Hm)) _ _ _ _ Hj) as (C & k & -> & HF & Hl & Hn).
  exists ([self_seg m i] ++ b ++ C), k. rewrite <- !app_assoc. split; [done|]. split; [|split; [|done]].
  - repeat (apply Forall_app; split); [by apply Forall_singleton, self_good|done|by apply Forall_app in HF as [? _]|by apply Forall_app in HF as [_ ?]].
  - intros x Hx. destruct C as [|y C _] using rev_ind.
    + rewrite app_nil_r in Hx. unfold lastOf in Hsc. cbn [app] in Hx. rewrite last_cons in Hx.
      destruct (last b); cbn in Hsc; injection Hx as <-; done.
    + apply Hl. rewrite !app_assoc, last_snoc in Hx. by rewrite last_snoc.
Qed.

Lemma WalkNodes_placed o n p : addressable_list o = true → (n, p) ∈ WalkNodes o "" → placed [] n p.
Proof.
  destruct o as [l|]; [|by intros _ ?%not_elem_of_nil]. cbn [addressable_list]. intros [Ha _]%andb_prop. unfold WalkNodes. cbn [walk_nodes].
  generalize 0%Z. induction l as [|m l IH]; intros i Hin; [by apply not_elem_of_nil in Hin|]. cbn [walk_list] in Hin.
  cbn [forallb] in Ha. apply andb_prop in Ha as [Hm Ha]. apply elem_of_app in Hin as [Hin|Hin]; [|by eapply IH].
  by eapply (walk_placed m Hm []).
Qed.

(** The loops of an address are found by the count of the validator. *)
Lemma countSub_tail sub a b : (countSub sub b ≤ countSub sub (a +:+ b))%nat.
Proof. induction a as [|c a IH]; [done|]. cbn [String.append countSub]. lia. Qed.
Lemma HasPrefix_append x y sub : HasPrefix x sub = true → HasPrefix (x +:+ y) sub = true.
Proof. unfold HasPrefix. rewrite !prefix_spec. intros [t ->]. exists (t +:+ y). by rewrite sapp_assoc. Qed.
Lemma loops_counted l : (length (List.filter (λ seg, HasPrefix seg "loop[") l) ≤ countSub "loop[" (JoinDot l))%nat.
Proof.
  induction l as [|x l IH]; [done|]. cbn [List.filter]. destruct l as [|y l].
  - cbn [List.filter JoinDot Join]. destruct (HasPrefix x "loop[") eqn:E; [|cbn; lia]. destruct x as [|c x]; [done|].
    cbn [countSub length]. rewrite E. lia.
  - change (JoinDot (x :: y :: l)) with (x +:+ "." +:+ JoinDot (y :: l)).
    assert (Ht := countSub_tail "loop[" "." (JoinDot (y :: l))).
    destruct (HasPrefix x "loop[") eqn:E.
    + destruct x as [|c x]; [done|]. cbn [length]. change (String c x +:+ "." +:+ JoinDot (y :: l)) with (String c (x +:+ "." +:+ JoinDot (y :: l))).
      cbn [countSub]. change (String c (x +:+ "." +:+ JoinDot (y :: l))) with (String c x +:+ ("." +:+ JoinDot (y :: l))).
      rewrite (HasPrefix_append _ _ _ E). pose proof (countSub_tail "loop[" x ("." +:+ JoinDot (y :: l))). lia.
    + pose proof (countSub_tail "loop[" x ("." +:+ JoinDot (y :: l))). lia.
Qed.

(** What dominates [P] shares its scope with it. *)
Lemma dominates_scope C id P to so :
  Forall good_seg (C ++ [id]) → Forall good_seg P → P ≠ [] →
  dominates (JoinDot (C ++ [id])) (JoinDot P) to so = true → (to < so)%Z ∧ ∃ D, P = C ++ D.
Proof.
  intros HC HP Hn. unfold dominates. intros [Ho%Z.ltb_lt Hp]%andb_prop. split; [done|].
  apply Forall_app in HC as [HC [Hid _]%Forall_cons]. destruct C as [|c C]; [by exists P|].
  assert (Es : scopePrefixOf (JoinDot ((c :: C) ++ [id])) = JoinDot (c :: C)).
  { unfold scopePrefixOf, JoinDot. rewrite Join_snoc by done. rewrite beforeLastDot_snoc by (by destruct Hid). done. }
  rewrite Es in Hp. unfold hasPathPrefix in Hp.
  assert (Hne : JoinDot (c :: C) ≠ "").
  { destruct (JoinDot_cons_tail c C) as (t & -> & _). apply Forall_cons in HC as [[Hc _] _]. by destruct c. }
  apply String.eqb_neq in Hne. rewrite Hne in Hp. cbn [orb] in Hp.
  by apply within_iff in Hp.
Qed.

(** A scope cannot end in the id of a step. *)
Lemma scope_of_step id : good_id id → ¬ scope_seg id.
Proof.
  intros [Hm Hr] Hs. destruct Hs as [Hs|Hs]; [congruence|].
  assert (H : id_ok id = true) by by apply good_id_ok. unfold id_ok in H. rewrite !andb_true_iff in H. destruct H as [_ H]. congruence.
Qed.

Lemma scope_prefix (C C' D : list string) id : (∀ x, last C = Some x → scope_seg x) → good_id id → C' ++ [id] = C ++ D → ∃ E, C' = C ++ E.
Proof.
  intros Hl Hid E. destruct D as [|d D _] using rev_ind.
  - rewrite app_nil_r in E. subst C. destruct (scope_of_step id Hid). apply Hl. by rewrite last_snoc.
  - rewrite app_assoc in E. apply app_inj_tail in E as [-> _]. by exists D.
Qed.

(** ** The walk of the engine *)

Section resolve.
Variables (s : Scope) (ch : list string → Z) (R : list string).
Hypothesis HR : Forall good_seg R.
Hypothesis HRn : R ≠ [].
Hypothesis Hs : scCtxPath s = instantiate ch R.
Hypothesis Hch : ∀ l, in_i64 (ch l) = true.

(** A step whose scope the reference is in is found in the same instance of it. *)
Lemma resolve_dominating C D id : R = C ++ D → good_id id → Forall good_seg (C ++ [id]) →
  (countSub "loop[" (JoinDot (C ++ [id])) ≤ 1)%nat →
  stepRuntimePath s (JoinDot (C ++ [id])) = Ok (instantiate ch (C ++ [id])).
Proof.
  intros HD Hid HC Hl. assert (Hn : C ++ [id] ≠ []) by by destruct C.
  assert (HCg : Forall good_seg C) by by apply Forall_app in HC as [? _].
  unfold stepRuntimePath. assert (Hsp : SplitDot (JoinDot (C ++ [id])) = C ++ [id]) by (apply Split_Join; [done|by apply Forall_good_lacks]).
  rewrite Hsp. pose proof (loops_counted (C ++ [id])). destruct (Nat.ltb_spec 1 (length (List.filter (λ seg, HasPrefix seg "loop[") (C ++ [id])))) as [|_]; [lia|].
  set (ctx := instSegs ch "" [] R) in *.
  assert (Hctx : Forall good_seg ctx) by by apply instSegs_good.
  assert (Hcn : ctx ≠ []) by by apply instSegs_nonempty.
  change "" with (path_of "" []) at 2.
  rewrite (runtimeSegs_follow s ch ctx Hctx Hcn Hs Hch C D "" []) by (done || (by left) || (unfold ctx; by rewrite HD)).
  assert (Hb : String.eqb id "body" = false) by (destruct Hid as [_ Hr]; destruct (String.eqb_spec id "body") as [->|]; done).
  assert (Hg : HasPrefix id "gate[" = false).
  { destruct (HasPrefix id "gate[") eqn:E; [|done]. apply prefix_spec in E as [t ->]. by destruct Hid as [Hm _]. }
  unfold instantiate. rewrite instSegs_app. cbn [runtimeSegs instSegs]. rewrite Hb, Hg. cbn [andb].
  rewrite appendSeg_join1, <- path_of_snoc, path_of_Join; [done|]. apply Forall_app; split; [by apply instSegs_good|].
  by apply Forall_app in HC as [_ ?].
Qed.
End resolve.

Lemma NoDup_omap_index {A B} (f : A → option B) l : NoDup (omap f l) → ∀ i j a b x,
  l !! i = Some a → l !! j = Some b → f a = Some x → f b = Some x → i = j.
Proof.
  induction l as [|c l IH]; intros HN i j a b x Ha Hb Hfa Hfb; [done|]. cbn in HN.
  assert (HN' : NoDup (omap f l)) by (destruct (f c); [by apply NoDup_cons in HN as [_ ?]|done]).
  assert (Hno : ∀ k d, l !! k = Some d → f d = Some x → f c = Some x → False).
  { intros k d Hk Hd Hc. rewrite Hc in HN. apply NoDup_cons in HN as [HN _]. destruct HN. by eapply omap_elem. }
  destruct i, j; cbn in Ha, Hb; [done|injection Ha as ->; by destruct (Hno j b)|injection Hb as ->; by destruct (Hno i a)|].
  f_equal. by eapply IH.
Qed.

(** ** Links *)

Section links.
Variable wf : Workflow.
Hypothesis Hids : ids_good (wfGraph wf).
Hypothesis Hnamed : namedL (wfGraph wf) = true.
Hypothesis Haddr : addressable_list (wfGraph wf) = true.
Hypothesis Hcont : HasErrors (validateContinues wf) = false.
Let walk := WalkNodes (wfGraph wf) "".

Lemma walk_ids_NoDup : NoDup (omap (λ np : Node * string, step_id np.1) walk).
Proof.
  destruct Hids as [HN _]. eapply sublist_NoDup; [exact HN|]. etransitivity; [|exact (WalkNodes_ids _ Hnamed)].
  apply reflexive_eq. unfold walk. generalize (WalkNodes (wfGraph wf) "") as l. induction l as [|[n p] l IH]; [done|].
  cbn. destruct (step_id n); cbn; by rewrite IH.
Qed.

Lemma agent_index a p k : walk !! k = Some (NAgent a, p) → agentsOf wf !! asID a = Some (MkAgentEntry a p (Z.of_nat k)).
Proof.
  intros Hk. destruct (indexAgents_some walk 0 ∅ (asID a)) as [e He]; [right; eexists _, _; split; [by eapply list_elem_of_lookup_2|done]|].
  unfold agentsOf. fold walk. rewrite He. apply indexAgents_spec in He as [He|(j & Hj & Ho & Hi)]; [done|].
  assert (j = k) as -> by (eapply (NoDup_omap_index _ _ walk_ids_NoDup); [exact Hj|exact Hk|cbn; by rewrite Hi|done]).
  rewrite Hk in Hj. destruct e as [t tp o]. cbn in *. injection Hj as <- <-. by rewrite Ho, Z.add_0_l.
Qed.

Lemma agent_found id e : agentsOf wf !! id = Some e → ∃ k, walk !! k = Some (NAgent (aeStep e), aePath e) ∧ aeOrd e = Z.of_nat k ∧ asID (aeStep e) = id.
Proof. intros He. apply indexAgents_spec in He as [He|(j & Hj & Ho & Hi)]; [done|]. exists j. by rewrite Ho, Z.add_0_l. Qed.

(** A link the pass accepts: the target comes before and dominates. *)
Lemma link a p k : walk !! k = Some (NAgent a, p) → asContinues a ≠ "" →
  ∃ t tp j, walk !! j = Some (NAgent t, tp) ∧ asID t = asContinues a ∧ dominates tp p (Z.of_nat j) (Z.of_nat k) = true ∧
    (countSub "loop[" tp ≤ 1)%nat ∧
    (inEvaluateBlock p = true → continuesChainTouchesEvaluate (agentsOf wf) (asContinues a) = false).
Proof.
  intros Hk Hc. pose proof (agent_index a p k Hk) as Ha.
  assert (Hck : HasErrors (checkContinues (agentsOf wf) wf a p) = false).
  { unfold validateContinues in Hcont. rewrite HasErrors_app in Hcont. apply orb_false_elim in Hcont as [_ H].
    apply (HasErrors_flat_map _ _ (NAgent a, p)) in H; [done|by eapply list_elem_of_lookup_2]. }
  unfold checkContinues in Hck. apply String.eqb_neq in Hc. rewrite Hc, Ha in Hck. cbn [fmap option_fmap option_map aeOrd default from_option id] in Hck.
  destruct (agentsOf wf !! asContinues a) as [e|] eqn:He; [|done].
  destruct (inEvaluateBlock p && continuesChainTouchesEvaluate (agentsOf wf) (asContinues a)) eqn:Ev; [done|].
  destruct (parallelSiblings (aePath e) p); [done|]. destruct (dominates _ _ _ _) eqn:Hd; [|done]. cbn [negb] in Hck.
  rewrite !HasErrors_app, !HasErrors_when, !HasErrors_errf, !andb_true_r in Hck. apply orb_false_elim in Hck as [Hl _].
  apply agent_found in He as (j & Hj & Ho & Hi). exists (aeStep e), (aePath e), j. rewrite <- Ho. repeat split; [done|done|done| |].
  - apply Nat.ltb_ge in Hl. exact Hl.
  - intros Hp. by rewrite Hp in Ev.
Qed.

Lemma agent_placed a p k : walk !! k = Some (NAgent a, p) →
  ∃ C, p = JoinDot (C ++ [asID a]) ∧ Forall good_seg (C ++ [asID a]) ∧ (∀ x, last C = Some x → scope_seg x) ∧ good_id (asID a).
Proof.
  intros Hk. apply list_elem_of_lookup_2 in Hk. destruct (WalkNodes_placed _ _ _ Haddr Hk) as (C & j & -> & HF & Hl & Ho).
  assert (Hg : good_id (asID a)).
  { destruct Hids as [_ HG]. rewrite Forall_forall in HG. apply HG.
    assert (Hin : asID a ∈ omap step_id (WalkNodes (wfGraph wf) "").*1).
    { apply list_elem_of_omap. exists (NAgent a). split; [|done]. apply list_elem_of_fmap. by exists (NAgent a, path_of "" ([] ++ C ++ [self_seg (NAgent a) j])). }
    eapply elem_of_submseteq; [exact Hin|]. by apply sublist_submseteq, WalkNodes_ids. }
  assert (Es : self_seg (NAgent a) j = asID a).
  { apply good_id_ok in Hg. unfold id_ok in Hg. cbn [self_seg]. by destruct (String.eqb (asID a) ""). }
  rewrite Es in *. exists C. cbn [app]. by rewrite path_of_Join.
Qed.
End links.

(** ** Conversations *)

(** The ids from [id] back to the root of the conversation. *)
Inductive chain (ti : ThreadIndexes) : string → list string → Prop :=
  | chain_root : chain ti "" []
  | chain_link id a ids : id ≠ "" → agentStepIdx ti !! id = Some a → chain ti (asContinues a) ids → chain ti id (id :: ids).

(** The committed turns of [ids], each at the instance of its step that [ch] chooses; the root first. *)
Fixpoint committedTurns (ti : ThreadIndexes) (rs : RunState) (ch : list string → Z) (ids : list string) (turns : list ThreadTurn)
    : res threadErr (list ThreadTurn) :=
  match ids with
  | [] => Ok turns
  | id :: ids =>
      let at_ := instantiate ch (SplitDot (default "" (stepPathIdx ti !! id))) in
      match LookupCompleted rs at_ with
      | None => Err (ThreadNotCommitted id at_)
      | Some nr => if bool_decide (nrTranscript nr = zeroTurn) then Err (ThreadNoTranscript id at_)
                   else committedTurns ti rs ch ids (nrTranscript nr :: turns)
      end
  end.

Lemma chainTouches_false wf cur ids : chain (initThreadIndexes wf) cur ids → ∀ fuel seen,
  NoDup ids → (∀ id, id ∈ ids → id ∉ seen) → (length ids < fuel)%nat → chainTouches (agentsOf wf) fuel cur seen = false →
  ∀ id e, id ∈ ids → agentsOf wf !! id = Some e → inEvaluateBlock (aePath e) = false.
Proof.
  induction 1 as [|cur a ids Hne Ha Hc IH]; intros fuel seen HN Hs Hf Ht y e Hid He; [by apply not_elem_of_nil in Hid|].
  destruct fuel as [|fuel]; [lia|]. cbn [chainTouches] in Ht. apply String.eqb_neq in Hne. rewrite Hne in Ht.
  rewrite bool_decide_eq_false_2 in Ht by (apply Hs; left).
  cbn [agentStepIdx initThreadIndexes] in Ha. unfold agentStepByID in Ha.
  rewrite <- (fmap_empty aeStep), (agentStepByID_index _ 0) in Ha. fold (agentsOf wf) in Ha. rewrite lookup_fmap in Ha.
  destruct (agentsOf wf !! cur) as [ec|] eqn:Ec; [|done]. injection Ha as <-. cbn [fmap option_fmap option_map default from_option id] in Ht.
  destruct (inEvaluateBlock (aePath ec)) eqn:Ei; [done|]. apply NoDup_cons in HN as [Hn HN].
  apply elem_of_cons in Hid as [->|Hid]; [congruence|]. eapply (IH fuel); [exact HN| |cbn in Hf; lia|exact Ht|exact Hid|exact He].
  intros x Hx. specialize (Hs x). set_solver.
Qed.

Section conversation.
Variables (wf : Workflow) (s : Scope) (rs : RunState) (ch : list string → Z) (R : list string).
Hypothesis Hids : ids_good (wfGraph wf).
Hypothesis Hnamed : namedL (wfGraph wf) = true.
Hypothesis Haddr : addressable_list (wfGraph wf) = true.
Hypothesis Hcont : HasErrors (validateContinues wf) = false.
Hypothesis HR : Forall good_seg R.
Hypothesis HRn : R ≠ [].
Hypothesis Hs : scCtxPath s = instantiate ch R.
Hypothesis Hch : ∀ l, in_i64 (ch l) = true.
Let walk := WalkNodes (wfGraph wf) "".
Let ti := initThreadIndexes wf.

Definition conversation (a : AgentStep) (k : nat) (ids : list string) : Prop :=
  chain ti (asContinues a) ids ∧ NoDup ids ∧
  (∀ id, id ∈ ids → ∃ j b q, (j < k)%nat ∧ walk !! j = Some (NAgent b, q) ∧ asID b = id) ∧
  ∀ fuel turns, (length ids < fuel)%nat →
    assembleTurns ti s rs fuel (asContinues a) turns = Some (committedTurns ti rs ch ids turns).

Lemma assembled k : ∀ a C p D, walk !! k = Some (NAgent a, p) → p = JoinDot (C ++ [asID a]) →
  R = C ++ D → ∃ ids, conversation a k ids.
Proof.
  induction k as [k IH] using lt_wf_ind. intros a C p D Hk Hp HD.
  destruct (decide (asContinues a = "")) as [E|Hc].
  { exists []. unfold conversation. rewrite E. repeat split; [constructor|constructor|by intros ? ?%not_elem_of_nil|].
    intros [|fuel] turns Hf; [lia|done]. }
  destruct (link wf Hids Hnamed Hcont a p k Hk Hc) as (t & tp & j & Hj & Ht & Hdom & Hloop & _).
  destruct (agent_placed wf Hids Hnamed Haddr a p k Hk) as (C0 & E0 & HF0 & Hl0 & Hg0).
  destruct (agent_placed wf Hids Hnamed Haddr t tp j Hj) as (C1 & E1 & HF1 & Hl1 & Hg1).
  assert (C0 = C) as ->.
  { rewrite Hp in E0. assert (HC : Forall good_seg (C ++ [asID a])).
    { apply Forall_app. split; [|by apply Forall_app in HF0 as [_ ?]]. rewrite HD in HR. by apply Forall_app in HR as [? _]. }
    apply Join_inj in E0; [|by destruct C|by destruct C0|by apply Forall_good_lacks..]. by apply app_inj_tail in E0 as [-> _]. }
  rewrite E0, E1 in Hdom. apply dominates_scope in Hdom as [Hlt [D1 HD1]]; [|done|done|by destruct C].
  apply scope_prefix in HD1 as [D2 ->]; [|done|done].
  assert (HD2 : R = C1 ++ (D2 ++ D)) by by rewrite HD, <- app_assoc.
  destruct (IH j ltac:(lia) t C1 tp _ Hj E1 HD2) as (ids & Hchain & HN & Hbefore & Hrun).
  assert (Hsi : agentStepIdx ti !! asContinues a = Some t).
  { cbn [ti agentStepIdx initThreadIndexes]. unfold agentStepByID. rewrite <- (fmap_empty aeStep), (agentStepByID_index _ 0).
    fold (agentsOf wf). rewrite lookup_fmap, <- Ht, (agent_index wf Hids Hnamed t tp j Hj). done. }
  assert (Hpi : stepPathIdx ti !! asContinues a = Some tp).
  { cbn [ti stepPathIdx initThreadIndexes]. apply (StepPathIndex_lookup wf (NAgent t)); [done|done| |by rewrite <- Ht].
    by eapply list_elem_of_lookup_2. }
  assert (Hnot : asContinues a ∉ ids).
  { intros Hin. destruct (Hbefore _ Hin) as (i & b & q & Hi & Hb & Hbi).
    assert (i = j); [|lia]. eapply (NoDup_omap_index _ _ (walk_ids_NoDup wf Hids Hnamed)); [exact Hb|exact Hj|cbn; by rewrite Hbi|cbn; by rewrite Ht]. }
  exists (asContinues a :: ids). split; [by econstructor|]. split; [by apply NoDup_cons|]. split.
  { intros id [->|Hin]%elem_of_cons; [exists j, t, tp; split; [lia|done]|].
    destruct (Hbefore _ Hin) as (i & b & q & Hi & Hb). exists i, b, q. split; [lia|done]. }
  intros [|fuel] turns Hf; [lia|]. cbn [assembleTurns committedTurns]. assert (Hc' := Hc). apply String.eqb_neq in Hc'. rewrite Hc'.
  unfold turnOf. rewrite Hpi, Hsi. cbn [default from_option id fmap option_fmap option_map].
  rewrite E1 at 1. rewrite (resolve_dominating s ch R HR HRn Hs Hch C1 (D2 ++ D) (asID t)) by (done || by rewrite <- E1).
  cbn [res_map_err res_bind]. assert (Hsp : SplitDot tp = C1 ++ [asID t]).
  { rewrite E1. apply Split_Join; [by destruct C1|by apply Forall_good_lacks]. }
  rewrite Hsp. destruct (LookupCompleted rs _) as [nr|]; [|done]. destruct (bool_decide _); [done|].
  rewrite Hrun by (cbn in Hf; lia). by destruct (nrTranscript nr).
Qed.
End conversation.

Lemma agentStepByID_walk wf id a : agentStepByID wf !! id = Some a → ∃ e, agentsOf wf !! id = Some e ∧ aeStep e = a.
Proof.
  unfold agentStepByID. rewrite <- (fmap_empty aeStep), (agentStepByID_index _ 0). fold (agentsOf wf). rewrite lookup_fmap.
  destruct (agentsOf wf !! id) as [e|]; [|done]. intros [= <-]. eauto.
Qed.

Lemma chain_targets wf cur ids : chain (initThreadIndexes wf) cur ids →
  (cur = "" ∨ cur ∈ threadTargets wf) → ∀ id, id ∈ ids → id ∈ threadTargets wf.
Proof.
  induction 1 as [|cur a ids Hne Ha Hc IH]; intros Ht y Hy; [by apply not_elem_of_nil in Hy|].
  apply elem_of_cons in Hy as [->|Hy]; [by destruct Ht|]. apply IH; [|done].
  destruct (decide (asContinues a = "")) as [|Hn]; [by left|right].
  apply agentStepByID_walk in Ha as (e & He & <-). apply agent_found in He as (k & Hk & _).
  eapply threadTargets_spec; [by eapply list_elem_of_lookup_2|done].
Qed.

Lemma chain_size wf cur ids : chain (initThreadIndexes wf) cur ids → NoDup ids → (length ids ≤ size (agentStepByID wf))%nat.
Proof.
  intros Hc HN. rewrite <- (size_dom (D := gset string)), <- (size_list_to_set (C := gset string)) by done.
  apply subseteq_size. clear HN. induction Hc as [|cur a ids Hne Ha Hc IH]; [set_solver|]. cbn [list_to_set].
  apply union_subseteq. split; [|done]. apply singleton_subseteq_l. by eapply elem_of_dom_2.
Qed.

(** C23: every conversation the validator accepts is assembled.  Take a workflow whose structural and
    continuation passes report no error and whose steps are named, and a step of it at any runtime
    instance in the workflow's own run (any iteration, attempt and item of the scopes around it; an
    address inside a called workflow has the address of the call in front, and its links are not found).
    The walk of [continues:] ends,
    within as many rounds as the workflow has agent steps; it never fails to resolve a link, because each
    target is looked up in the same iteration, attempt and item as the step; its result is the committed
    turns of the chain, the root first, or the first target that is not committed with a transcript; every
    target is one whose transcript [Commit] keeps; and the chain of a step inside [evaluate:] has no step
    inside an [evaluate:]. *)
Theorem conversation_assembled wf a p s rs ch
    (Hv : HasErrors (validateStructural wf) = false) (Hc : HasErrors (validateContinues wf) = false)
    (Hn : namedL (wfGraph wf) = true) (Hp : (NAgent a, p) ∈ WalkNodes (wfGraph wf) "")
    (Hch : ∀ l, in_i64 (ch l) = true) (Hs : scCtxPath s = instantiate ch (SplitDot p)) :
  ∃ ids, chain (initThreadIndexes wf) (asContinues a) ids ∧ NoDup ids ∧
    (∀ fuel, (size (agentStepByID wf) < fuel)%nat →
       assembleTurns (initThreadIndexes wf) s rs fuel (asContinues a) [] =
         Some (committedTurns (initThreadIndexes wf) rs ch ids [])) ∧
    (∀ id, id ∈ ids → id ∈ threadTargets wf) ∧
    (inEvaluateBlock p = true → ∀ id q, id ∈ ids → StepPathIndex wf !! id = Some q → inEvaluateBlock q = false).
Proof.
  pose proof (validateStructural_ids wf Hv) as Hids. pose proof (ids_good_addressable wf Hids Hn) as Haddr.
  apply list_elem_of_lookup_1 in Hp as [k Hk].
  destruct (agent_placed wf Hids Hn Haddr a p k Hk) as (C & E & HF & Hl & Hg).
  assert (Hsp : SplitDot p = C ++ [asID a]) by (rewrite E; apply Split_Join; [by destruct C|by apply Forall_good_lacks]).
  rewrite Hsp in Hs.
  destruct (assembled wf s rs ch (C ++ [asID a]) Hids Hn Haddr Hc HF ltac:(by destruct C) Hs Hch k a C p [asID a] Hk E eq_refl)
    as (ids & Hchain & HN & Hbefore & Hrun).
  exists ids. split; [done|]. split; [done|]. split; [|split].
  - intros fuel Hf. apply Hrun. pose proof (chain_size _ _ _ Hchain HN). lia.
  - apply (chain_targets _ _ _ Hchain). destruct (decide (asContinues a = "")); [by left|right].
    eapply threadTargets_spec; [by eapply list_elem_of_lookup_2|done].
  - intros Hev y q Hy Hq. destruct (Hbefore y Hy) as (j & b & q' & _ & Hj & <-).
    pose proof (agent_index wf Hids Hn b q' j Hj) as Hb.
    assert (q' = q) as <-.
    { rewrite (StepPathIndex_lookup wf (NAgent b) q' (asID b) Hids Hn) in Hq; [by injection Hq|by eapply list_elem_of_lookup_2|done]. }
    destruct (decide (asContinues a = "")) as [Ee|Hne]; [rewrite Ee in Hchain; inversion Hchain; subst; [by apply not_elem_of_nil in Hy|done]|].
    destruct (link wf Hids Hn Hc a p k Hk Hne) as (_ & _ & _ & _ & _ & _ & _ & Ht). specialize (Ht Hev).
    refine (chainTouches_false wf _ ids Hchain _ ∅ HN _ _ Ht _ _ Hy Hb); [set_solver|].
    pose proof (chain_size _ _ _ Hchain HN) as H. unfold agentStepByID in H. rewrite <- (fmap_empty aeStep), (agentStepByID_index _ 0), map_size_fmap in H.
    fold (agentsOf wf) in H. lia.
Qed.

(** The judge of [ex_talk] in the second attempt of the third iteration. *)
Definition ex_judge : AgentStep := match ex_verdict with NAgent a => a | _ => MkAgentStep "" "" "" None "" None [] "" None ∅ None None None None end.
Definition ex_judge_path : string := "loop[0].body.gate[2].evaluate.judge".
Definition ex_choice (pre : list string) : Z := match pre with [_; _] => 3 | _ => 2 end.
Definition ex_turn (id : string) : NodeResult := MkNodeResult OutcomeOK None None "" "" "" ∅ (MkThreadTurn ("ask " +:+ id) id) "" "".
Definition ex_talk_rs : RunState :=
  RecordCompleted "loop[0].body.iter-3.revise" (ex_turn "revise") (RecordCompleted "loop[0].body.iter-3.write" (ex_turn "write") zeroRunState).

Lemma conversation_assembled_witness :
  (∃ ids, chain (initThreadIndexes ex_talk) "revise" ids ∧ NoDup ids) ∧
  assembleTurns (initThreadIndexes ex_talk) (NewScope zeroRunState ex_talk (instantiate ex_choice (SplitDot ex_judge_path))) ex_talk_rs 5 "revise" [] =
    Some (Ok [MkThreadTurn "ask write" "write"; MkThreadTurn "ask revise" "revise"]).
Proof.
  assert (Hp : (NAgent ex_judge, ex_judge_path) ∈ WalkNodes (wfGraph ex_talk) "")
    by (by vm_compute; repeat (apply list_elem_of_here || apply list_elem_of_further)).
  assert (Hch : ∀ l, in_i64 (ex_choice l) = true) by (intros [|? [|? [|]]]; done).
  destruct (conversation_assembled ex_talk ex_judge ex_judge_path
              (NewScope zeroRunState ex_talk (instantiate ex_choice (SplitDot ex_judge_path))) ex_talk_rs ex_choice)
    as (ids & Hc & HN & _); [vm_compute; reflexivity|vm_compute; reflexivity|reflexivity|exact Hp|exact Hch|reflexivity|].
  split; [by exists ids|]. by vm_compute.
Defined.
