(* ===== verification/Artifacts.v ===== *)
(** * Artifacts and files of a step: artifact_scope.go, artifact_refs.go, input_files.go, output_files.go

    How a step's input_files and output_files become bytes, paths and content addresses.  [get] is
    Blobs.Get of the run's store, [jcs] is RFC 8785 and [compile] is the JSON Schema compiler, both
    third-party code.  An error carries what the callers ask of it: whether it is errArtifactFetch
    (errors.Is) and the EvalError inside it (errors.As). *)

From stdpp Require Import sorting.
From S2P Require Import Prelude GoNum GoJson GoStruct Sha256 TmplLexer TmplParser TmplSlots TmplEval.
From S2P Require Import EnginePath GoPath StateBlobs EngineEvents RunState EngineFold Ir IrShape Scope ScopeLaws.

(** ** Errors *)

Record fileErr : Type := MkFileErr { feFetch : bool; feEval : option EvalError; feMsg : EvalMsg }.
Definition fails {A} (m : EvalMsg) : res fileErr A := Err (MkFileErr false None m).
Definition fetchFails {A} (m : EvalMsg) : res fileErr A := Err (MkFileErr true None m).
Definition ofGoerr (e : goerr) : fileErr :=
  MkFileErr false (match e with GEval ee => Some ee | _ => None end) (error_text e).
(** [fmt.Errorf("...: %w", ..., err)]. *)
Definition wrapErr {A} (fmt : string) (args : list string) (r : res fileErr A) : res fileErr A :=
  res_map_err (λ e, MkFileErr (feFetch e) (feEval e) (EmWrap fmt args (feMsg e))) r.
Definition lift {A} (r : res goerr A) : res fileErr A := res_map_err ofGoerr r.

(** ** artifact_scope.go *)

Fixpoint gatePrefixSegs (segs : list string) : option (list string) :=
  match segs with
  | [] => None
  | seg :: rest =>
      match gatePrefixSegs rest with
      | Some p => Some (seg :: p)
      | None => if HasPrefix seg "gate[" then Some [seg] else None
      end
  end.
(** The path up to its last gate. *)
Definition gateScopePrefix (staticPath : string) : option string := JoinDot <$> gatePrefixSegs (SplitDot staticPath).

Definition runtimePathWithinGate (ctxPath gateStatic : string) : bool :=
  String.eqb ctxPath gateStatic || HasPrefix ctxPath (gateStatic +:+ attemptSep).

(** [None]: not handled. *)
Definition passedGateArtifactRuntimePath (s : Scope) (staticPath : string) : option (res goerr string) :=
  match gateScopePrefix staticPath with
  | None => None
  | Some g =>
      if runtimePathWithinGate (scCtxPath s) g then None
      else if negb (HasPrefix (TrimPrefix staticPath (g +:+ ".")) "generate.") then
        Some (unresolved (EmFmt "artifact ref: step inside gate %q is not referenceable from outside: only the gate's generate: producers forward; the evaluator's artifacts stay gate-internal" [g]))
      else
        let p := attemptPath staticPath g (LookupGateAttempts (scRs s) g) in
        if String.eqb p "" then Some (unresolved (EmFmt "artifact ref: step inside gate %q has no passed attempt" [g]))
        else Some (Ok p)
  end.

Definition itemBodyStepPath (rs : RunState) (mapPath : string) (n : Z) (suffix : string) : option string :=
  match gateScopePrefix suffix with
  | None => Some (ItemStepPath mapPath n suffix)
  | Some gateRel =>
      let itemGatePath := ItemStepPath mapPath n gateRel in
      let p := attemptPath (ItemStepPath mapPath n suffix) itemGatePath (LookupGateAttempts rs itemGatePath) in
      if String.eqb p "" then None else Some p
  end.

Definition fileOf (nr : NodeResult) (path : string) (m : EvalMsg) : res goerr string :=
  match nrFiles nr !! path with Some cas => Ok cas | None => unresolved m end.

Definition resolveMapProductArtifactPath (s : Scope) (id : string) (mp : mapProduct) (containerPath : string) : res goerr string :=
  match LookupCompleted (scRs s) (mpdPath mp) with
  | None => unresolved (EmFmt "artifact ref: map product %q not yet committed (%s)" [id; mpdPath mp])
  | Some nr => fileOf nr containerPath (EmFmt "artifact ref: map product %q has no committed artifact at %q" [id; containerPath])
  end.

(** The committed result of the reducer of the map the step is in, seen from outside the map. *)
Definition reducedBody (s : Scope) (staticPath : string) : option NodeResult :=
  '(mapStatic, _) ← SingleMapBodyShape staticPath;
  match instanceFromCtx (scCtxPath s) mapStatic itemSep with
  | Ok None => LookupCompleted (scRs s) mapStatic
  | _ => None
  end.

Definition ResolveArtifactPath (s : Scope) (id containerPath : string) : res goerr string :=
  match scStepIndex s !! id with
  | None =>
      match scMapProducts s !! id with
      | Some mp => if mpdReduce mp then resolveMapProductArtifactPath s id mp containerPath
                   else unresolved (EmFmt "artifact ref: step %q not declared" [id])
      | None => unresolved (EmFmt "artifact ref: step %q not declared" [id])
      end
  | Some staticPath =>
      match reducedBody s staticPath with
      | Some nr => fileOf nr containerPath (EmFmt "artifact ref: reduced map %q has no committed artifact at %q" [id; containerPath])
      | None =>
          match passedGateArtifactRuntimePath s staticPath with
          | Some rp =>
              let? rp := rp in
              match LookupCompleted (scRs s) rp with
              | None => unresolved (EmFmt "artifact ref: passed gate step %q not yet committed (%s)" [id; rp])
              | Some nr => fileOf nr containerPath (EmFmt "artifact ref: passed gate step %q has no committed artifact at %q" [id; containerPath])
              end
          | None =>
              let? rp := asUnresolved (stepRuntimePath s staticPath) in
              match LookupCompleted (scRs s) rp with
              | None => if absentDueToUntakenIf s rp
                        then absent (EmFmt "artifact ref: step %q is under a non-taken if branch (%s)" [id; rp])
                        else unresolved (EmFmt "artifact ref: step %q not yet committed (%s)" [id; rp])
              | Some nr => fileOf nr containerPath (EmFmt "artifact ref: step %q has no committed artifact at %q" [id; containerPath])
              end
          end
      end
  end.

Section artifacts.
Variable jcs : string → option string.

Definition ResolveDeclaredArtifactPath (s : Scope) (id declaredPath : string) : res fileErr string :=
  match scMapProducts s !! id with
  | Some (MkMapProduct p true b) =>
      let? c := wrapErr "substitute map product artifact path %q: %w" [declaredPath]
                  (lift (Substitute (newReduceTemplateScope jcs (scRs s) (scWf s) p) declaredPath)) in
      lift (resolveMapProductArtifactPath s id (MkMapProduct p true b) c)
  | _ =>
      let? c := wrapErr "substitute artifact path %q: %w" [declaredPath] (lift (Substitute (Resolve s) declaredPath)) in
      lift (ResolveArtifactPath s id c)
  end.

(** ** artifact_refs.go.  [None]: not handled. *)

Definition resolveCallArtifactRef (s : Scope) (wf : Workflow) (id name : string) : res fileErr (option string) :=
  match callStepPathIndex wf !! id with
  | None => Ok None
  | Some staticPath =>
      let? rp := lift (asUnresolved (stepRuntimePath s staticPath)) in
      match LookupCompleted (scRs s) rp with
      | None => lift (unresolved (EmFmt "artifact ref: call step %q not yet committed (%s)" [id; rp]))
      | Some nr => res_map Some (lift (fileOf nr name (EmFmt "artifact ref: call step %q has no exported artifact %q" [id; name])))
      end
  end.

Definition resolveReducedBodyArtifactRef (s : Scope) (wf : Workflow) (id name : string) : res fileErr (option string) :=
  match (p ← scStepIndex s !! id; SingleMapBodyShape p) with
  | None => Ok None
  | Some (mapPath, _) =>
      match instanceFromCtx (scCtxPath s) mapPath itemSep with
      | Err m => fails m
      | Ok (Some _) => Ok None
      | Ok None =>
          match h ← mapPathIndex wf !! mapPath; mpReduce h with
          | None => Ok None
          | Some r =>
              match PathForName (rdOutputFiles r) name with
              | None => fails (EmFmt "reduced map (producer %q) reducer has no named output_files artifact %q" [id; name])
              | Some declaredPath =>
                  let? c := wrapErr "substitute reduced map artifact path %q: %w" [declaredPath]
                              (lift (Substitute (newReduceTemplateScope jcs (scRs s) wf mapPath) declaredPath)) in
                  res_map Some (lift (ResolveArtifactPath s id c))
              end
          end
      end
  end.

Definition resolveNamedArtifactRef (s : Scope) (wf : Workflow) (id name : string) : res fileErr string :=
  let? r := resolveReducedBodyArtifactRef s wf id name in
  match r with
  | Some cas => Ok cas
  | None =>
      let? c := resolveCallArtifactRef s wf id name in
      match c with
      | Some cas => Ok cas
      | None =>
          match PathForName (default [] (OutputFilesByStepID wf !! id)) name with
          | None => fails (EmFmt "step %q has no named output_files artifact %q" [id; name])
          | Some declaredPath => ResolveDeclaredArtifactPath s id declaredPath
          end
      end
  end.
End artifacts.

(** ** input_files.go *)

#[global] Instance string_le_dec a b : Decision (string_le a b) := decide (String.leb a b = true).

Definition QualifiedAssetKey (moduleID assetID : string) : string :=
  if String.eqb moduleID "" then assetID else moduleID +:+ "/" +:+ assetID.

Record InputFile : Type := MkInputFile { ifPath : string; ifContent : string }.
Record resolvedInputFile : Type := MkResolved { rifFile : InputFile; rifSource : string; rifRef : string }.

Section input_files.
Variable jcs : string → option string.
Variable get : string → res blobErr string.
Variables (s : Scope) (wf : Workflow) (moduleID : string) (assets : gmap string RunStartedAsset).

Definition fetch (cas : string) : res fileErr string :=
  match get cas with Ok b => Ok b | Err _ => fetchFails (EmFmt "%w (%v)" []) end.

Definition readRunStartedAssetFile (file : RunStartedAssetFile) : res fileErr string :=
  match get (afRef file) with
  | Err _ => fetchFails (EmFmt "%w: asset file %q ref %q: %v" [afPath file; afRef file])
  | Ok b =>
      if negb (Z.of_nat (slen b) =? afSize file)%Z
      then fetchFails (EmFmt "%w: asset file %q ref %q size %d != recorded %d"
                         [afPath file; afRef file; Itoa (Z.of_nat (slen b)); Itoa (afSize file)])
      else
        let got := EncodeToString (Sum256 b) in
        if negb (String.eqb got (afSHA256 file))
        then fetchFails (EmFmt "%w: asset file %q ref %q sha256 %s != recorded %s" [afPath file; afRef file; got; afSHA256 file])
        else Ok b
  end.

(** The one file of a file asset. *)
Definition singleAssetFile (a : RunStartedAsset) : option RunStartedAssetFile :=
  match raFiles a with [f] => if String.eqb (afPath f) "." then Some f else None | _ => None end.

Definition resolveSingleInputFileRef (rawRef : string) : res fileErr (string * string) :=
  match ParseArtifactRef rawRef with
  | Some (id, name) =>
      let? cas := resolveNamedArtifactRef jcs s wf id name in
      let? b := fetch cas in Ok (cas, b)
  | None =>
      match ParseAssetRef rawRef with
      | None => fails (EmFmt "%q: expected step.<id>.files.<name> or asset.<id>" [rawRef])
      | Some id =>
          let key := QualifiedAssetKey moduleID id in
          match assets !! key with
          | None => fetchFails (EmFmt "%w: %s: asset %q was not recorded in run.started" [rawRef; key])
          | Some asset =>
              if raIsDir asset then fails (EmFmt "%s: directory asset %q cannot be used as a single input file" [rawRef; key])
              else match singleAssetFile asset with
                   | None => fetchFails (EmFmt "%w: %s: file asset %q has invalid run-start manifest" [rawRef; key])
                   | Some f => let? b := wrapErr "%s: %w" [rawRef] (readRunStartedAssetFile f) in Ok (afRef f, b)
                   end
          end
      end
  end.

Definition resolveSingleRefBytes (rawRef : string) : res fileErr (string * string) :=
  match ParseWorkflowInputFileRef rawRef with
  | Some name =>
      let? cas := lift (ResolveWorkflowInputFile s name) in
      let? b := fetch cas in Ok (cas, b)
  | None =>
      match (id ← ParseAssetRef rawRef; a ← assets !! QualifiedAssetKey moduleID id; if raIsDir a then Some () else None) with
      | Some _ => fails (EmFmt "%s: a directory asset cannot be a single input; reference one file" [rawRef])
      | None => resolveSingleInputFileRef rawRef
      end
  end.

Definition validAssetManifestPath (p : string) : bool :=
  negb (String.eqb p "") && negb (String.eqb p ".") && negb (IsAbs p) && String.eqb p (Clean p)
  && negb (String.eqb p "..") && negb (HasPrefix p "../").

Definition afile_le (a b : RunStartedAssetFile) : Prop := string_le (afPath a) (afPath b).
#[global] Instance afile_le_dec a b : Decision (afile_le a b) := decide (string_le (afPath a) (afPath b)).

Definition resolveAssetInputFiles (dst rawRef id : string) : res fileErr (list resolvedInputFile) :=
  let key := QualifiedAssetKey moduleID id in
  match assets !! key with
  | None => fetchFails (EmFmt "%w: %s: asset %q was not recorded in run.started" [rawRef; key])
  | Some asset =>
      if negb (raIsDir asset) then
        match singleAssetFile asset with
        | None => fetchFails (EmFmt "%w: %s: file asset %q has invalid run-start manifest" [rawRef; key])
        | Some f => let? b := wrapErr "%s: %w" [rawRef] (readRunStartedAssetFile f) in
                    Ok [MkResolved (MkInputFile dst b) rawRef (afRef f)]
        end
      else
        match raFiles asset with
        | [] => fetchFails (EmFmt "%w: %s: directory asset %q has empty run-start manifest" [rawRef; key])
        | fs =>
            res_mapM (λ f,
              if negb (validAssetManifestPath (afPath f))
              then fetchFails (EmFmt "%w: %s: directory asset %q has unsafe manifest path %q" [rawRef; key; afPath f])
              else let? b := wrapErr "%s: %w" [rawRef] (readRunStartedAssetFile f) in
                   Ok (MkResolved (MkInputFile (pathJoin dst (afPath f)) b) rawRef (afRef f)))
              (merge_sort afile_le fs)
        end
  end.

(** One entry of input_files. *)
Definition resolveEntry (dst rawRef : string) : res fileErr (list resolvedInputFile) :=
  let? d := wrapErr "input_files[%s]: substitute destination: %w" [dst] (lift (Substitute (Resolve s) dst)) in
  if negb (IsAbs d) || negb (String.eqb d (Clean d))
  then fails (EmFmt "input_files[%s]: substituted destination %q must be an absolute, clean path (no '..' segment)" [dst; d])
  else
    match ParseWorkflowInputFileRef rawRef, ParseAssetRef rawRef with
    | Some _, _ =>
        let? cb := wrapErr "input_files[%s]: %w" [dst] (resolveSingleRefBytes rawRef) in
        Ok [MkResolved (MkInputFile d cb.2) rawRef cb.1]
    | None, Some id => wrapErr "input_files[%s]: %w" [dst] (resolveAssetInputFiles d rawRef id)
    | None, None =>
        match ParseArtifactRef rawRef with
        | None =>
            match resolveSingleInputFileRef rawRef with
            | Ok cb => Ok [MkResolved (MkInputFile d cb.2) rawRef cb.1]
            | Err _ => fails (EmFmt "input_files[%s]=%q: expected step.<id>.files.<name>, input.files.<name>, or asset.<id>" [dst; rawRef])
            end
        | Some _ =>
            let? cb := wrapErr "input_files[%s]: %w" [dst] (resolveSingleInputFileRef rawRef) in
            Ok [MkResolved (MkInputFile d cb.2) rawRef cb.1]
        end
    end.

(** In the order of the (unsubstituted) destinations. *)
Definition resolveInputFileEntries (ins : gmap string string) : res fileErr (list resolvedInputFile) :=
  res_map (@List.concat _) (res_mapM (λ kv : string * string, resolveEntry kv.1 kv.2) (sorted_entries ins)).
End input_files.

Definition isInputFileAncestor (parent child : string) : bool :=
  if String.eqb parent "/" then negb (String.eqb child "/") else HasPrefix child (parent +:+ "/").

(** By path, then by source. *)
Definition entry_le (a b : resolvedInputFile) : Prop :=
  if decide (ifPath (rifFile a) = ifPath (rifFile b)) then string_le (rifSource a) (rifSource b)
  else string_le (ifPath (rifFile a)) (ifPath (rifFile b)).
#[global] Instance entry_le_dec a b : Decision (entry_le a b).
Proof. unfold entry_le. case_decide; apply _. Defined.

(** Neighbours in the sorted list are compared. *)
Fixpoint collide (l : list resolvedInputFile) : option EvalMsg :=
  match l with
  | prev :: (cur :: _) as rest =>
      let p := ifPath (rifFile prev) in let c := ifPath (rifFile cur) in
      if String.eqb p c
      then Some (EmFmt "input_files expanded paths collide: %s from %s and %s from %s" [p; rifSource prev; c; rifSource cur])
      else if isInputFileAncestor p c
      then Some (EmFmt "input_files expanded paths collide: %s from %s is an ancestor of %s from %s" [p; rifSource prev; c; rifSource cur])
      else collide rest
  | _ => None
  end.

(** [inputFilesFromResolvedEntries]: the caller's slice is sorted in place, so the entries are returned
    in their new order; the files are their [rifFile]s. *)
Definition inputFilesFromResolvedEntries (expanded : list resolvedInputFile) : res fileErr (list resolvedInputFile) :=
  let sorted := merge_sort entry_le expanded in
  match collide sorted with Some m => fails m | None => Ok sorted end.

Definition inputFileRefsFromResolvedEntries (expanded : list resolvedInputFile) : list string :=
  List.filter (λ r, negb (String.eqb r "")) (map rifRef expanded).

(** ** output_files.go *)

Record OutputFileContract : Type := MkOutputContract { ofcFormat : string; ofcSchema : option JSONSchema }.

Section output_files.
(** The error of compileJSONSchema, if any. *)
Variable compile : JSONSchema → option EvalMsg.
Variable get : string → res blobErr string.
Variables (moduleID : string) (assets : gmap string RunStartedAsset).

(** [json.Unmarshal] into a JSONSchema (null leaves it nil). *)
Definition unmarshalSchema (raw : string) : option JSONSchema := default [] <$> unmarshalMap raw.

Definition schemaFromAsset (label ref : string) : res fileErr JSONSchema :=
  match ParseAssetRef ref with
  | None => fails (EmFmt "%s: schema_ref must be asset.<id>" [label])
  | Some id =>
      let key := QualifiedAssetKey moduleID id in
      match assets !! key with
      | None => fetchFails (EmFmt "%w: %s: schema_ref asset %q was not recorded in run.started" [label; key])
      | Some asset =>
          match (if raIsDir asset then None else singleAssetFile asset) with
          | None => fetchFails (EmFmt "%w: %s: schema_ref asset %q has invalid run-start manifest" [label; key])
          | Some f =>
              let? raw := wrapErr "%s: %w" [label] (readRunStartedAssetFile get f) in
              match unmarshalSchema raw with
              | None => fails (EmFmt "%s: schema_ref asset %q is not JSON: %w" [label; key])
              | Some schema =>
                  match compile schema with
                  | Some m => fails (EmWrap "%s: schema_ref asset %q: %w" [label; key] m)
                  | None => Ok schema
                  end
              end
          end
      end
  end.

(** [None]: no contract. *)
Definition resolveArtifactContract (label : string) (c : ArtifactContract) : res fileErr (option OutputFileContract) :=
  let hasSchema := match acSchema c with Some _ => true | None => false end in
  let hasRef := negb (String.eqb (acSchemaRef c) "") in
  let hasFormat := negb (String.eqb (acFormat c) "") in
  if negb hasFormat && negb hasSchema && negb hasRef then Ok None
  else if hasFormat && negb (mem (acFormat c) ["json"; "jsonl"]) then fails (EmFmt "%s: format must be json or jsonl" [label])
  else if (hasSchema || hasRef) && negb hasFormat then fails (EmFmt "%s: schema requires format json or jsonl" [label])
  else if hasSchema && hasRef then fails (EmFmt "%s: schema and schema_ref are mutually exclusive" [label])
  else
    match (j ← acSchema c; compile j) with
    | Some m => fails (EmWrap "%s: schema: %w" [label] m)
    | None =>
        if hasRef then
          let? schema := schemaFromAsset label (acSchemaRef c) in Ok (Some (MkOutputContract (acFormat c) (Some schema)))
        else Ok (Some (MkOutputContract (acFormat c) (acSchema c)))
    end.

Definition resolveOutputFileContract (f : OutputFile) : res fileErr (option OutputFileContract) :=
  if String.eqb (ofFormat f) "" && match ofSchema f with None => true | Some _ => false end && String.eqb (ofSchemaRef f) ""
  then Ok None
  else if String.eqb (ofPath f) "" then fails (EmFmt "output_files.%s: contract object requires path" [ofName f])
  else resolveArtifactContract ("output_files." +:+ ofName f) (ContractFromOutputFile f).

(** The capture paths in order, and the contracts by capture path.  [seen]: the paths so far. *)
Fixpoint resolveOutputs (R : Ref → res goerr value) (ofs : OutputFiles) (seen : gmap string string)
    : res fileErr (list string * gmap string OutputFileContract) :=
  match ofs with
  | [] => Ok ([], ∅)
  | f :: ofs =>
      let? p := wrapErr "output_files path %q: %w" [ofPath f] (lift (Substitute R (ofPath f))) in
      match seen !! p with
      | Some prev => fails (EmFmt "duplicate output_files path %q (declared by %s and %s after template substitution)" [p; prev; ofName f])
      | None =>
          let? c := resolveOutputFileContract f in
          let? (ps, cs) := resolveOutputs R ofs (<[p := ofName f]> seen) in
          Ok (p :: ps, match c with Some c => <[p := c]> cs | None => cs end)
      end
  end.
Definition resolveOutputFiles (R : Ref → res goerr value) (ofs : OutputFiles)
    : res fileErr (list string * gmap string OutputFileContract) := resolveOutputs R ofs ∅.
End output_files.

(** ** What the checks establish *)

#[global] Instance entry_le_trans : Transitive entry_le.
Proof.
  intros a b c. unfold entry_le.
  destruct (decide (ifPath (rifFile a) = ifPath (rifFile b))) as [E1|N1],
           (decide (ifPath (rifFile b) = ifPath (rifFile c))) as [E2|N2]; intros H1 H2.
  - rewrite decide_True by congruence. by etrans.
  - rewrite E1, decide_False by done. done.
  - rewrite <- E2, decide_False by done. done.
  - case_decide as E3; [|by etrans]. exfalso. apply N1. rewrite E3 in *. by apply (anti_symm string_le).
Qed.

#[global] Instance entry_le_total : Total entry_le.
Proof.
  intros a b. unfold entry_le. destruct (decide (ifPath (rifFile a) = ifPath (rifFile b))) as [E|N].
  - rewrite decide_True by done. apply total, _.
  - rewrite decide_False by done. apply total, _.
Qed.

Lemma entry_le_path a b : entry_le a b → string_le (ifPath (rifFile a)) (ifPath (rifFile b)).
Proof. unfold entry_le. case_decide as E; [rewrite E; intros _; by destruct (total string_le (ifPath (rifFile b)) (ifPath (rifFile b)))|done]. Qed.

Lemma string_le_cons x a y b :
  string_le (String x a) (String y b) ↔ (N_of_ascii x < N_of_ascii y)%N ∨ (x = y ∧ string_le a b).
Proof.
  unfold string_le. rewrite !leb_compare. cbn [String.compare]. unfold Ascii.compare.
  destruct (N.compare_spec (N_of_ascii x) (N_of_ascii y)) as [E|L|G].
  - apply (f_equal ascii_of_N) in E. rewrite !ascii_N_embedding in E. subst. split; [by right|]. by intros [?%N.lt_irrefl|[_ ?]].
  - split; [by left|done].
  - split; [done|]. intros [?|[-> _]]; lia.
Qed.

(** No byte before the slash, so that a directory sorts right before what is in it. *)
Fixpoint plainPath (s : string) : bool :=
  match s with "" => true | String c s => (N_of_ascii "/" <=? N_of_ascii c)%N && plainPath s end.

Lemma prefix_between p t b :
  string_le p b → string_le b (p +:+ String "/" t) → b ≠ p → plainPath b = true → ∃ t', b = p +:+ String "/" t'.
Proof.
  revert b. induction p as [|c p IH]; intros [|x b] H1 H2 Hne Hp; cbn [String.append plainPath] in *; try done.
  - apply andb_prop in Hp as [Hx%N.leb_le Hp]. apply string_le_cons in H2 as [H2|[-> _]]; [lia|by exists b].
  - apply andb_prop in Hp as [_ Hp]. apply string_le_cons in H1, H2.
    destruct H1 as [H1|[-> H1]], H2 as [H2|[? H2]]; subst; try lia.
    destruct (IH b H1 H2) as [t' ->]; [congruence|done|]. by exists t'.
Qed.

Lemma string_le_app p t : string_le p (p +:+ t).
Proof.
  induction p as [|c p IH]; [by destruct t|]. cbn [String.append]. apply string_le_cons. by right.
Qed.

(** *** The neighbour check *)

Definition rpath (e : resolvedInputFile) : string := ifPath (rifFile e).

Lemma collide_None l : collide l = None →
  ∀ i a b, l !! i = Some a → l !! S i = Some b → rpath a ≠ rpath b ∧ isInputFileAncestor (rpath a) (rpath b) = false.
Proof.
  induction l as [|x l IH]; [done|]. destruct l as [|y l]; [by intros _ [|i] a b|].
  cbn [collide]. destruct (String.eqb_spec (ifPath (rifFile x)) (ifPath (rifFile y))) as [|Hne]; [done|].
  destruct (isInputFileAncestor _ _) eqn:E; [done|]. intros Hc [|i] a b Ha Hb; [|by apply (IH Hc i)].
  by injection Ha as <-; injection Hb as <-.
Qed.

Lemma sorted_nth l i j a b :
  StronglySorted entry_le l → l !! i = Some a → l !! j = Some b → (i ≤ j)%nat → string_le (rpath a) (rpath b).
Proof.
  intros Hs. revert i j. induction Hs as [|x l Hs IH HF]; [done|]. intros [|i] [|j] Ha Hb Hij; try lia.
  - injection Ha as <-. injection Hb as <-. by destruct (total string_le (rpath x) (rpath x)).
  - injection Ha as <-. rewrite Forall_lookup in HF. by apply entry_le_path, (HF j).
  - by apply (IH i j); [..|lia].
Qed.

Lemma accepted_distinct l i j a b :
  StronglySorted entry_le l → collide l = None → l !! i = Some a → l !! j = Some b → (i < j)%nat → rpath a ≠ rpath b.
Proof.
  intros Hs Hc Ha Hb Hij E. destruct (lookup_lt_is_Some_2 l (S i)) as [m Hm]; [apply lookup_lt_Some in Hb; lia|].
  pose proof (sorted_nth _ _ _ _ _ Hs Ha Hm ltac:(lia)) as H1. pose proof (sorted_nth _ _ _ _ _ Hs Hm Hb ltac:(lia)) as H2.
  rewrite <- E in H2. destruct (collide_None _ Hc i a m Ha Hm) as [Hne _]. apply Hne. by apply (anti_symm string_le).
Qed.

Lemma isInputFileAncestor_true p c :
  isInputFileAncestor p c = true → p ≠ c ∧ string_le p c ∨ p = "/" ∧ c ≠ "/".
Proof.
  unfold isInputFileAncestor. destruct (String.eqb_spec p "/") as [->|_].
  - intros H. right. split; [done|]. by destruct (String.eqb_spec c "/").
  - unfold HasPrefix. intros [t ->]%prefix_spec. left. rewrite <- sapp_assoc. split; [|apply string_le_app].
    intros E. apply (f_equal slen) in E. rewrite !slen_app in E. cbn in E. lia.
Qed.

Lemma no_ancestor l i j a b :
  StronglySorted entry_le l → collide l = None → l !! i = Some a → l !! j = Some b →
  Forall (λ e, plainPath (rpath e) = true ∧ IsAbs (rpath e) = true) l → isInputFileAncestor (rpath a) (rpath b) = false.
Proof.
  intros Hs Hc Ha Hb HF. destruct (isInputFileAncestor _ _) eqn:E; [exfalso|done].
  assert (Hplain : ∀ k m, l !! k = Some m → plainPath (rpath m) = true ∧ IsAbs (rpath m) = true).
  { intros k m Hm. rewrite Forall_lookup in HF. by apply (HF k). }
  assert (Hle : rpath a ≠ rpath b ∧ string_le (rpath a) (rpath b)).
  { apply isInputFileAncestor_true in E as [?|[Ep Hne]]; [done|]. rewrite Ep. split; [done|].
    destruct (Hplain _ _ Hb) as [_ Habs]. apply prefix_spec in Habs as [t Et]. rewrite Et. apply (string_le_app "/" t). }
  destruct Hle as [Hne Hle].
  assert (Hij : (i < j)%nat).
  { destruct (Nat.lt_ge_cases i j); [done|]. exfalso. apply Hne, (anti_symm string_le); [done|]. by apply (sorted_nth l j i). }
  destruct (lookup_lt_is_Some_2 l (S i)) as [m Hm]; [apply lookup_lt_Some in Hb; lia|].
  destruct (collide_None _ Hc i a m Ha Hm) as [Ham Hanc].
  pose proof (sorted_nth _ _ _ _ _ Hs Ha Hm ltac:(lia)) as H1. pose proof (sorted_nth _ _ _ _ _ Hs Hm Hb ltac:(lia)) as H2.
  unfold isInputFileAncestor in E, Hanc. destruct (String.eqb_spec (rpath a) "/") as [Ep|_].
  - apply negb_false_iff, String.eqb_eq in Hanc. congruence.
  - unfold HasPrefix in E, Hanc. apply prefix_spec in E as [t Et]. rewrite <- sapp_assoc in Et. cbn [String.append] in Et.
    rewrite Et in H2. destruct (prefix_between _ _ _ H1 H2) as [t' Em]; [congruence|by apply (Hplain (S i))|].
    rewrite Em in Hanc. change (String "/" t') with ("/" +:+ t') in Hanc. by rewrite sapp_assoc, prefix_app in Hanc.
Qed.

(** *** Staging stays inside the destination *)

Lemma wrapErr_Ok {A} fmt args (r : res fileErr A) a : wrapErr fmt args r = Ok a → r = Ok a.
Proof. by destruct r; [intros [= <-]|]. Qed.
Lemma lift_Ok {A} (r : res goerr A) a : lift r = Ok a → r = Ok a.
Proof. by destruct r; [intros [= <-]|]. Qed.

Lemma fetch_Ok get ref b : fetch get ref = Ok b → get ref = Ok b.
Proof. unfold fetch. by destruct (get ref); [intros [= <-]|]. Qed.

Lemma readRunStartedAssetFile_Ok get f b :
  readRunStartedAssetFile get f = Ok b →
  get (afRef f) = Ok b ∧ Z.of_nat (slen b) = afSize f ∧ EncodeToString (Sum256 b) = afSHA256 f.
Proof.
  unfold readRunStartedAssetFile. destruct (get (afRef f)) as [x|]; [|done].
  destruct (Z.eqb_spec (Z.of_nat (slen x)) (afSize f)); [|done]. cbn [negb].
  destruct (String.eqb_spec (EncodeToString (Sum256 x)) (afSHA256 f)); [|done]. by intros [= <-].
Qed.

Definition inside (d p : string) : Prop := p = d ∨ isInputFileAncestor d p = true.

Lemma validAssetManifestPath_inside d p :
  IsAbs d = true → d = Clean d → validAssetManifestPath p = true → inside d (pathJoin d p).
Proof.
  unfold validAssetManifestPath. intros Hd Hc. rewrite !andb_true_iff, !negb_true_iff.
  intros [[[[[_ H1%String.eqb_neq] H2] H3%String.eqb_eq] H4%String.eqb_neq] H5].
  destruct (Clean_abs _ Hd Hc) as (es & He & ->), (Clean_rel _ H2 H3 H1 H4 H5) as (fs & Hne & Hf & ->).
  right. rewrite (pathJoin_inside _ _ es fs) by done. pose proof (Join_plain_nonempty _ Hne Hf) as Hj.
  unfold isInputFileAncestor. destruct es as [|e es].
  - cbn [app]. destruct (String.eqb_spec ("/" +:+ Join "/" fs) "/") as [E|]; [|done].
    exfalso. apply Hj. by injection E.
  - pose proof (Join_plain_nonempty (e :: es) ltac:(done) He) as Hj'.
    destruct (String.eqb_spec ("/" +:+ Join "/" (e :: es)) "/") as [E|]; [exfalso; apply Hj'; by injection E|].
    rewrite Join_app by done. unfold HasPrefix. rewrite <- !sapp_assoc.
    change (String "/" (Join "/" fs)) with ("/" +:+ Join "/" fs). rewrite !sapp_assoc. apply prefix_app.
Qed.

Lemma elem_of_sorted_entries {A} (m : gmap string A) k v : (k, v) ∈ sorted_entries m → m !! k = Some v.
Proof. unfold sorted_entries. rewrite key_sort_perm. apply elem_of_map_to_list. Qed.

(** What an entry of input_files may become: the destination [d], or a file inside it. *)
Definition staged (get : string → res blobErr string) (d rawRef : string) (e : resolvedInputFile) : Prop :=
  inside d (rpath e) ∧ rifSource e = rawRef ∧ get (rifRef e) = Ok (ifContent (rifFile e)).

Lemma resolveSingleInputFileRef_get jcs get s wf mid assets rawRef cb :
  resolveSingleInputFileRef jcs get s wf mid assets rawRef = Ok cb → get cb.1 = Ok cb.2.
Proof.
  unfold resolveSingleInputFileRef. destruct (ParseArtifactRef rawRef) as [[id name]|].
  - destruct (resolveNamedArtifactRef _ _ _ _ _) as [cas|]; [|done]. cbn [res_bind].
    destruct (fetch get cas) eqn:E; [|done]. intros [= <-]. by apply fetch_Ok.
  - destruct (ParseAssetRef rawRef) as [id|]; [|done]. destruct (assets !! _) as [a|]; [|done].
    destruct (raIsDir a); [done|]. destruct (singleAssetFile a) as [f|]; [|done].
    destruct (wrapErr _ _ _) eqn:E; [|done]. intros [= <-]. by apply wrapErr_Ok, readRunStartedAssetFile_Ok in E as [? _].
Qed.

Lemma resolveSingleRefBytes_get jcs get s wf mid assets rawRef cb :
  resolveSingleRefBytes jcs get s wf mid assets rawRef = Ok cb → get cb.1 = Ok cb.2.
Proof.
  unfold resolveSingleRefBytes. destruct (ParseWorkflowInputFileRef rawRef) as [name|].
  - destruct (lift _) as [cas|]; [|done]. cbn [res_bind].
    destruct (fetch get cas) eqn:E; [|done]. intros [= <-]. by apply fetch_Ok.
  - destruct (ParseAssetRef rawRef ≫= _); [done|]. apply resolveSingleInputFileRef_get.
Qed.

Lemma resolveAssetInputFiles_staged get mid assets d rawRef id es :
  IsAbs d = true → d = Clean d → resolveAssetInputFiles get mid assets d rawRef id = Ok es → Forall (staged get d rawRef) es.
Proof.
  intros Hd Hc. unfold resolveAssetInputFiles. destruct (assets !! _) as [a|]; [|done].
  destruct (raIsDir a); cbn [negb].
  - destruct (raFiles a) as [|f0 fs0] eqn:Ef; [done|]. rewrite <- Ef. clear Ef. generalize (merge_sort afile_le (raFiles a)) as fs.
    intros fs. revert es. induction fs as [|f fs IH]; intros es; cbn [res_mapM]; [by intros [= <-]|].
    destruct (validAssetManifestPath (afPath f)) eqn:Ev; cbn [negb]; [|done].
    destruct (wrapErr _ _ _) eqn:E; [|done]. cbn [res_bind]. destruct (res_mapM _ fs) as [es'|] eqn:E'; [|done]. intros [= <-].
    constructor; [|by apply IH]. apply wrapErr_Ok, readRunStartedAssetFile_Ok in E as [Hg _].
    split; [by apply validAssetManifestPath_inside|done].
  - destruct (singleAssetFile a) as [f|]; [|done]. destruct (wrapErr _ _ _) eqn:E; [|done]. intros [= <-].
    apply wrapErr_Ok, readRunStartedAssetFile_Ok in E as [Hg _].
    apply Forall_singleton. split; [by left|done].
Qed.

Lemma resolveEntry_staged jcs get s wf mid assets dst rawRef es :
  resolveEntry jcs get s wf mid assets dst rawRef = Ok es →
  ∃ d, Substitute (Resolve s) dst = Ok d ∧ IsAbs d = true ∧ d = Clean d ∧ Forall (staged get d rawRef) es.
Proof.
  unfold resolveEntry. destruct (wrapErr _ _ (lift (Substitute _ dst))) as [d|] eqn:Ed; [|done].
  apply wrapErr_Ok, lift_Ok in Ed. cbn [res_bind]. destruct (IsAbs d) eqn:Ha; [|done].
  destruct (String.eqb_spec d (Clean d)) as [Hc|]; [|done]. cbn [negb orb]. intros H. exists d. repeat split; [done..|].
  assert (H1 : ∀ cb, get cb.1 = Ok cb.2 → Forall (staged get d rawRef) [MkResolved (MkInputFile d cb.2) rawRef cb.1]).
  { intros cb Hg. apply Forall_singleton. split; [by left|done]. }
  destruct (ParseWorkflowInputFileRef rawRef) as [n|]; [|destruct (ParseAssetRef rawRef) as [id|]].
  - destruct (wrapErr _ _ _) as [cb|] eqn:E; [|done]. injection H as <-. apply wrapErr_Ok in E.
    by apply H1, (resolveSingleRefBytes_get jcs get s wf mid assets rawRef).
  - apply wrapErr_Ok in H. by apply resolveAssetInputFiles_staged in H.
  - destruct (ParseArtifactRef rawRef).
    + destruct (wrapErr _ _ _) as [cb|] eqn:E; [|done]. injection H as <-. apply wrapErr_Ok in E.
      by apply H1, (resolveSingleInputFileRef_get jcs get s wf mid assets rawRef).
    + destruct (resolveSingleInputFileRef _ _ _ _ _ _ rawRef) as [cb|] eqn:E; [|done]. injection H as <-.
      by apply H1, (resolveSingleInputFileRef_get jcs get s wf mid assets rawRef).
Qed.

(** ** Properties *)

(** no two staged input files share a path, and none is staged inside another.  When the expanded
    input files of a step are accepted they are the given ones, in path order, with distinct paths; and
    when the paths are absolute and hold no byte below the slash, none of them is an ancestor of another. *)
Theorem inputFiles_no_collision l l' :
  inputFilesFromResolvedEntries l = Ok l' →
  l' ≡ₚ l ∧ NoDup (map rpath l') ∧
  (Forall (λ e, plainPath (rpath e) = true ∧ IsAbs (rpath e) = true) l →
   ∀ a b, a ∈ l' → b ∈ l' → isInputFileAncestor (rpath a) (rpath b) = false).
Proof.
  unfold inputFilesFromResolvedEntries. destruct (collide _) eqn:Hc; [done|]. intros [= <-].
  assert (Hs : StronglySorted entry_le (merge_sort entry_le l)) by (apply StronglySorted_merge_sort; apply _).
  split; [apply merge_sort_Permutation|]. split.
  - apply NoDup_alt. intros i j p. rewrite !list_lookup_fmap.
    intros (a & Ha & ->)%fmap_Some (b & Hb & E)%fmap_Some.
    destruct (Nat.lt_trichotomy i j) as [L|[|L]]; [|done|]; exfalso;
      by eapply accepted_distinct in L; [apply L| | |done|done].
  - intros HF a b [i Ha]%list_elem_of_lookup [j Hb]%list_elem_of_lookup.
    apply (no_ancestor (merge_sort entry_le l) i j); try done. by rewrite merge_sort_Permutation.
Qed.

Definition ex_entry (p src : string) : resolvedInputFile := MkResolved (MkInputFile p "x") src "".

Lemma inputFiles_no_collision_witness :
  inputFilesFromResolvedEntries [ex_entry "/w/b" "s"; ex_entry "/w/a" "t"] = Ok [ex_entry "/w/a" "t"; ex_entry "/w/b" "s"] ∧
  NoDup (map rpath [ex_entry "/w/a" "t"; ex_entry "/w/b" "s"]).
Proof.
  assert (E : inputFilesFromResolvedEntries [ex_entry "/w/b" "s"; ex_entry "/w/a" "t"]
              = Ok [ex_entry "/w/a" "t"; ex_entry "/w/b" "s"]) by (vm_compute; reflexivity).
  split; [exact E|]. apply (inputFiles_no_collision _ _ E).
Defined.

(** The check compares neighbours only: a path with a byte below the slash sorts between a file and what
    is staged inside it, and the collision is missed. *)
Lemma collision_missed :
  inputFilesFromResolvedEntries [ex_entry "/w/data" "a"; ex_entry "/w/data.json" "b"; ex_entry "/w/data/x" "c"]
    = Ok [ex_entry "/w/data" "a"; ex_entry "/w/data.json" "b"; ex_entry "/w/data/x" "c"] ∧
  isInputFileAncestor "/w/data" "/w/data/x" = true.
Proof. by vm_compute. Qed.

(** C28: staging never escapes its destination.  Every file the input_files of a step expand to comes from
    one of its entries, lies at that entry's destination (an absolute clean path) or strictly inside it,
    and holds the bytes the blob store has under its reference; a manifest path recorded at run start
    cannot lead out of the destination. *)
Theorem resolveInputFileEntries_staged jcs get s wf mid assets ins es :
  resolveInputFileEntries jcs get s wf mid assets ins = Ok es →
  ∀ e, e ∈ es → ∃ dst d, ins !! dst = Some (rifSource e) ∧ Substitute (Resolve s) dst = Ok d ∧
    IsAbs d = true ∧ d = Clean d ∧ (rpath e = d ∨ isInputFileAncestor d (rpath e) = true) ∧
    get (rifRef e) = Ok (ifContent (rifFile e)).
Proof.
  unfold resolveInputFileEntries. destruct (res_mapM _ _) as [ess|] eqn:E; [|done]. intros [= <-] e He.
  apply list_elem_of_In, in_concat in He as (l & Hl%list_elem_of_In & He%list_elem_of_In).
  destruct (res_mapM_elem _ _ _ E l Hl) as ((dst & rawRef) & Hin & H). cbn [fst snd] in H.
  apply resolveEntry_staged in H as (d & Hs & Ha & Hc & HF). rewrite Forall_forall in HF.
  destruct (HF e He) as (Hi & <- & Hg). exists dst, d. split; [|done]. by apply elem_of_sorted_entries.
Qed.

Definition ex_asset : RunStartedAsset :=
  {| raDeclaredPath := "d"; raIsDir := true; raFiles := [{| afPath := "x/y"; afRef := "r"; afSHA256 := EncodeToString (Sum256 "hi"); afSize := 2 |}] |}.
Definition ex_get (r : string) : res blobErr string := Ok "hi".

Lemma resolveInputFileEntries_staged_witness :
  let e := MkResolved (MkInputFile "/w/x/y" "hi") "asset.a" "r" in
  resolveInputFileEntries (λ _, None) ex_get ex_scope_loop ex_wf "" {["a" := ex_asset]} {["/w" := "asset.a"]} = Ok [e] ∧
  ∃ dst d, ({["/w" := "asset.a"]} : gmap string string) !! dst = Some (rifSource e) ∧
    Substitute (Resolve ex_scope_loop) dst = Ok d ∧
    IsAbs d = true ∧ d = Clean d ∧ (rpath e = d ∨ isInputFileAncestor d (rpath e) = true) ∧
    ex_get (rifRef e) = Ok (ifContent (rifFile e)).
Proof.
  cbv zeta. set (e := MkResolved (MkInputFile "/w/x/y" "hi") "asset.a" "r").
  assert (E : resolveInputFileEntries (λ _, None) ex_get ex_scope_loop ex_wf "" {["a" := ex_asset]} {["/w" := "asset.a"]} = Ok [e])
    by (vm_compute; reflexivity).
  split; [exact E|]. apply (resolveInputFileEntries_staged _ _ _ _ _ _ _ _ E e). by left.
Defined.
