(* ===== verification/Containers.v ===== *)
(** * engine/local_dispatcher.go, path.go, runtime_handles.go: the dispatcher as data

    What a container backend is asked for ([ContainerSpec]) and gives back ([Handle]), and the table of
    handles a LocalDispatcher carries.  A clone of the dispatcher is a new value: nothing is shared
    between branches, items and called workflows. *)

From S2P Require Import Prelude GoPath EnginePath Ir.

(** ** container/backend.go *)

Record Handle : Type := MkHandle { hName : string; hID : string; hService : string; hResolvedImageDigest : string }.
Definition zeroHandle : Handle := MkHandle "" "" "" "".
Record ContainerSpec : Type := MkSpec {
  spName : string; spImage : string; spResources : option Resources; spCmd : list string; spDisableKeepalive : bool;
  spPullIfAbsent : bool; spCompose : string; spComposePath : string; spService : string }.

Definition withName (name : string) (sp : ContainerSpec) : ContainerSpec :=
  MkSpec name (spImage sp) (spResources sp) (spCmd sp) (spDisableKeepalive sp) (spPullIfAbsent sp) (spCompose sp)
    (spComposePath sp) (spService sp).
Definition withService (svc : string) (h : Handle) : Handle := MkHandle (hName h) (hID h) svc (hResolvedImageDigest h).

(** ** The dispatcher *)

(** The adapter registry, the backend and the live tap are outside; RunState and Blobs are the run's. *)
Record LocalDispatcher : Type := MkDispatcher {
  dpHandles : gmap string Handle; dpRuntimeParent : string; dpComposeFiles : gmap string string }.

Definition noHandles : LocalDispatcher := MkDispatcher ∅ "" ∅.

Definition SplitContainerRef (ref : string) : string * string :=
  match strIndex ref ":" with Some i => (stake i ref, sdrop (S i) ref) | None => (ref, "") end.

Definition handleKey (d : LocalDispatcher) (containerRef : string) : string :=
  QualifiedContainerKey (dpRuntimeParent d) (SplitContainerRef containerRef).1.

Definition WithRawHandle (key : string) (h : Handle) (d : LocalDispatcher) : LocalDispatcher :=
  MkDispatcher (<[key := h]> (dpHandles d)) (dpRuntimeParent d) (dpComposeFiles d).
Definition WithItemHandle (name : string) (h : Handle) (d : LocalDispatcher) : LocalDispatcher :=
  WithRawHandle (QualifiedContainerKey (dpRuntimeParent d) name) h d.

(** The dispatcher of a called workflow: its own files and parent, the caller's handles and its own. *)
Definition cloneDispatcherForRuntime (parent : LocalDispatcher) (runtimeParent : string) (composeFiles : gmap string string)
    (childHandles : gmap string Handle) : LocalDispatcher :=
  MkDispatcher (childHandles ∪ dpHandles parent) runtimeParent composeFiles.

Definition ContainerSpecFor (wf : Workflow) (composeFiles : gmap string string) (name : string) : ContainerSpec :=
  let plain := MkSpec name "" None [] false false "" "" "" in
  match default ∅ (wfContainers wf) !! name with
  | None => plain
  | Some c =>
      if negb (String.eqb (coImage c) "") then
        MkSpec name (coImage c) (coResources c) (coCmd c) (match coKeepalive c with Some k => negb k | None => false end) false "" "" ""
      else if negb (String.eqb (coCompose c) "") then
        MkSpec name "" None [] false false (default "" (composeFiles !! coCompose c)) (coCompose c) (coService c)
      else MkSpec name "" (coResources c) [] false false "" "" ""
  end.

(** A bare step runs in a workspace of its own. *)
Definition hostWorkspaceSpec (nodePath : string) : ContainerSpec := MkSpec ("_run." +:+ nodePath) "" None [] false false "" "" "".

(** Two names of one workflow have two handles, and a call does not see the handles of its caller under
    its own names. *)
Lemma QualifiedContainerKey_injective parent n m : QualifiedContainerKey parent n = QualifiedContainerKey parent m → n = m.
Proof. unfold QualifiedContainerKey. destruct (String.eqb parent ""); [done|]. rewrite !sapp_assoc. apply (sapp_inj_l (parent +:+ "::")). Qed.
