(* ===== verification/Rerun.v ===== *)
(** * engine/rerun.go: resuming from a chosen node

    Which committed paths [awf resume --from] invalidates, and how its argument names a node. *)

From S2P Require Import Prelude GoNum GoJson GoStruct EnginePath GoPath StateBlobs StateLog EngineEvents RunState EngineFold.
From S2P Require Import TmplEval Ir Journal Commit.

Definition rerunFirstSegment (path : string) : string := hd "" (SplitDot path).

Definition hasDot (s : string) : bool := negb (lacks "." s).

(** A counter numbers the paths without a dot, in the order of the walk. *)
Definition rerunRootSlots (wf : Workflow) : gmap string Z :=
  (foldl (λ mi (np : Node * string), if hasDot np.2 then mi else (<[np.2 := mi.2]> mi.1, (mi.2 + 1)%Z))
     ((∅ : gmap string Z), 0%Z) (WalkNodes (wfGraph wf) "")).1.

Definition rerunSupported (target : string) : option EvalMsg :=
  match List.find (λ s, negb (HasPrefix s "parallel[")) (removelast (SplitDot target)) with
  | Some s => Some (EmFmt "--from %q is nested inside a non-parallel container (segment %q); v1 supports a top-level node or a parallel branch only" [target; s])
  | None => None
  end.

Definition committedSet (rs : RunState) : gset string :=
  dom (rsCompleted rs) ∪ dom (rsBranches rs) ∪ dom (rsLoopIters rs) ∪ dom (rsGateAttempts rs)
  ∪ dom (rsReactRounds rs) ∪ dom (rsMapItems rs) ∪ dom (rsCallStarted rs) ∪ dom (rsSignalReceivedAt rs)
  ∪ dom (rsSelectedSkills rs).
(** In no particular order. *)
Definition allCommittedPaths (rs : RunState) : list string := elements (committedSet rs).

Definition lastFailedPath `{TimeCodec} (events : list Event) : string :=
  foldl (λ acc e, if String.eqb (EvType e) EventNodeFailed && negb (String.eqb (Path e) "") then Path e else acc) "" events.

(** [p[strings.LastIndexByte(p, '.')+1:]]. *)
Definition trailingSegment (p : string) : string := default "" (last (SplitDot p)).

Definition ResolveRerunTarget `{TimeCodec} (wf : Workflow) (rs : RunState) (events : list Event) (arg : string)
    : res EvalMsg string :=
  if mem arg (allCommittedPaths rs) then Ok arg
  else match rerunRootSlots wf !! arg with
  | Some _ => Ok arg
  | None =>
      let fp := lastFailedPath events in
      if negb (String.eqb fp "") && (String.eqb arg fp || String.eqb arg (trailingSegment fp)) then Ok fp
      else match sort_strings (List.filter (λ p, String.eqb (trailingSegment p) arg) (allCommittedPaths rs)) with
           | [p] => Ok p
           | [] => Err (EmFmt "--from %q matches no committed node (give a committed runtime path, a top-level node like parallel[0], or a unique step id)" [arg])
           | ps => Err (EmFmt "--from %q is ambiguous (%d committed nodes share that id; name one exactly): %s"
                          [arg; Itoa (Z.of_nat (length ps)); String.concat ", " ps])
           end
  end.

Definition invalidates (slots : gmap string Z) (target : string) (tSlot : Z) (p : string) : bool :=
  String.eqb p target || HasPrefix p (target +:+ ".")
  || (tSlot <? default 0 (slots !! rerunFirstSegment p))%Z.

Definition ComputeRerunInvalidation (wf : Workflow) (rs : RunState) (target : string) : res EvalMsg (list string) :=
  match rerunSupported target with
  | Some m => Err m
  | None =>
      let slots := rerunRootSlots wf in
      match slots !! rerunFirstSegment target with
      | None => Err (EmFmt "--from %q: top-level node %q not found in workflow" [target; rerunFirstSegment target])
      | Some tSlot =>
          let committed := allCommittedPaths rs in
          match List.find (λ p, negb (bool_decide (is_Some (slots !! rerunFirstSegment p)))) committed with
          | Some p => Err (EmFmt "--from: committed node %q has no top-level node %q in the current workflow — its top-level structure changed since the run started; --from cannot map committed steps onto it (revert the structural change, or start a fresh run)" [p; rerunFirstSegment p])
          | None => Ok (sort_strings (List.filter (invalidates slots target tSlot) committed))
          end
      end
  end.

(** ** Laws *)

Lemma elem_of_allCommittedPaths rs p : p ∈ allCommittedPaths rs ↔ p ∈ committedSet rs.
Proof. exact (elem_of_elements (committedSet rs) p). Qed.
Lemma NoDup_allCommittedPaths rs : NoDup (allCommittedPaths rs).
Proof. exact (NoDup_elements (committedSet rs)). Qed.

Lemma committed_clear rs ps p :
  p ∈ committedSet (clearInvalidatedPaths rs ps) ↔ p ∈ committedSet rs ∧ p ∉ ps.
Proof.
  unfold committedSet. rewrite !elem_of_union, !elem_of_dom.
  assert (Hc : ∀ {A} (get : RunState → gmap string A), (∀ rs q, get (clearPath rs q) = delete q (get rs)) →
    is_Some (get (clearInvalidatedPaths rs ps) !! p) ↔ is_Some (get rs !! p) ∧ p ∉ ps).
  { intros A get Hg. rewrite (clear_lookup get ps Hg rs p). case_bool_decide; split; try tauto.
    by intros [??]. }
  rewrite !Hc by done. tauto.
Qed.

Lemma invalidates_false slots target t p : invalidates slots target t p = false →
  p ≠ target ∧ HasPrefix p (target +:+ ".") = false ∧ (default 0 (slots !! rerunFirstSegment p) ≤ t)%Z.
Proof. unfold invalidates. rewrite !orb_false_iff, String.eqb_neq, Z.ltb_ge. tauto. Qed.

Lemma filter_none {A} (f : A → bool) l : Forall (λ x, f x = false) l → List.filter f l = [].
Proof. induction 1 as [|x l Hx _ IH]; [done|]. cbn [List.filter]. by rewrite Hx. Qed.

(** What a successful computation found. *)
Lemma rerun_inv wf rs target ps : ComputeRerunInvalidation wf rs target = Ok ps →
  ∃ t, rerunRootSlots wf !! rerunFirstSegment target = Some t ∧ rerunSupported target = None ∧
    (∀ p, p ∈ committedSet rs → is_Some (rerunRootSlots wf !! rerunFirstSegment p)) ∧
    ps = sort_strings (List.filter (invalidates (rerunRootSlots wf) target t) (allCommittedPaths rs)).
Proof.
  unfold ComputeRerunInvalidation. destruct (rerunSupported target); [done|].
  destruct (_ !! rerunFirstSegment target) as [t|]; [|done]. destruct (List.find _ _) eqn:Hf; [done|]. intros [= <-].
  exists t. split_and!; try done. intros p Hp. pose proof (find_none _ _ Hf p) as H.
  cbv beta in H. rewrite <- list_elem_of_In, negb_false_iff, bool_decide_eq_true in H. apply H.
  by apply elem_of_allCommittedPaths.
Qed.

Lemma rerun_elem slots target t rs p :
  p ∈ sort_strings (List.filter (invalidates slots target t) (allCommittedPaths rs)) ↔
  p ∈ committedSet rs ∧ invalidates slots target t p = true.
Proof.
  rewrite sort_strings_perm, list_elem_of_In, filter_In, <- list_elem_of_In.
  by rewrite elem_of_allCommittedPaths.
Qed.

(** ** Properties *)


Section example.
#[local] Existing Instance two_times.

Definition exCode (id : string) : Node := NCode (MkCodeStep id "" "true" None None [] ∅ None None).
Definition exRerunWf : Workflow :=
  MkWorkflow "w" 1 None ∅ [] ∅ ∅ ∅ ∅ None None ∅ ∅ ∅ (Some [exCode "a"; exCode "b"; exCode "c"]) "".
Definition exRerunLog : list Event := [exStart; exDone "a"; exDone "b"; exDone "c"].
Definition exRerunState : RunState :=
  match Fold exGet exRerunLog with Ok rs => rs | Err _ => zeroRunState end.

End example.
