(* ===== verification/RetryLoop.v ===== *)
(** * engine/retry_loop.go, engine/outcome.go: the attempts of one step

    [RunWithRetry] over a world: the dispatcher, the clock, the context and the observer of retries,
    which are outside the engine.  The chunks an attempt streams are not modelled (they are drained to
    the live tap).  The laws of the loop are stated for every world, by recording what it is asked. *)

From S2P Require Import Prelude GoNum GoJson GoStruct TmplEval RetryPolicy StateBlobs StateLog EngineEvents RunState.
From S2P Require Import Ir Agent EngineFold Journal Commit Artifacts Containers.

(** ** Errors *)

(** The [error] values of the interpreter, as far as errors.As and errors.Is tell them apart. *)
Inductive goError : Type :=
  | ESkip (reason : string)                                (* *SkipUnwind *)
  | ECtx (text : string)                                   (* ctx.Err() *)
  | EPaused | ECancelled                                   (* signal.ErrPaused, signal.ErrCancelled *)
  | EDisp (e : dispErr)                                    (* of the dispatcher, or of an attempt *)
  | ETmpl (e : goerr)                                      (* of the template package *)
  | EFile (e : fileErr)
  | EEng (e : engErr)                                      (* of a log or blob store call *)
  | EMsg (m : EvalMsg)                                     (* fmt.Errorf without %w *)
  | EWrap (fmt : string) (args : list string) (e : goError). (* fmt.Errorf("... %w") *)

Definition EErrf (fmt : string) (args : list string) : goError := EMsg (EmFmt fmt args).

(** [errors.As(err, &su)]. *)
Fixpoint asSkip (e : goError) : option string :=
  match e with ESkip r => Some r | EWrap _ _ e => asSkip e | _ => None end.

(** ** outcome.go *)

Definition ClassifyOutcome (exitCode : Z) (awfParseErr callErr : bool) (nonRetryableExitCodes : list Z) : Outcome :=
  if callErr then OutcomeRetryableFailure
  else if existsb (λ c, (exitCode =? c)%Z) nonRetryableExitCodes then OutcomePermanentFailure
  else if negb (exitCode =? 0)%Z then OutcomeRetryableFailure
  else if awfParseErr then OutcomeRetryableFailure
  else OutcomeOK.

(** ** dispatcher.go: what an attempt is asked to run *)

(** The fields of an agent step, zero for a code step. *)
Record AgentInputs : Type := MkAgentInputs {
  gaUses : string; gaWith : RawConfig; gaRoleWith : RawConfig; gaWorkflowDir : string; gaOutputArtifact : string;
  gaFeedback : RawConfig; gaThread : list ThreadTurn; gaContextEvidence : list ThreadTurn;
  gaContainerlessFiles : list AgentInputFile; gaSessionConfigDirRel : string; gaSessionDir : string }.
Definition noAgent : AgentInputs := MkAgentInputs "" None None "" "" None [] [] [] "" "".

Record ResolvedInputs : Type := MkInputs {
  riCommand : string; riEnv : gmap string string; riOutputFiles : list string;
  riOutputFileContracts : gmap string OutputFileContract; riOutputSchema : option JSONSchema;
  riNonRetryableExitCodes : list Z; riTimeout : Z; riIdleTimeout : Z; riInputFiles : list InputFile;
  riSnapshot : string; riAgent : AgentInputs }.

Record NodeIntent : Type := MkIntent {
  niPath : string; niNode : Node; niInputs : ResolvedInputs; niIdempotencyKey : string;
  niAttempt : Z; niRecoveryContinue : bool; niIsGateEvaluate : bool; niRunContext : RunContext }.
Definition zeroRunContext : RunContext := MkRunContext "" 0 0.

Definition withAttempt (attempt : Z) (cont : bool) (i : NodeIntent) : NodeIntent :=
  MkIntent (niPath i) (niNode i) (niInputs i) (niIdempotencyKey i) attempt cont (niIsGateEvaluate i) (niRunContext i).

Record RetryNotice : Type := MkNotice {
  rnPath : string; rnFailedAttempt : Z; rnNextAttempt : Z; rnAttempts : Z; rnOutcome : Outcome;
  rnCause : option dispErr; rnDelay : Z }.

(** ** The world *)

(** [Detached] is [context.WithoutCancel(ctx)]. *)
Inductive Context_ : Type := Cancellable | Detached.

(** The context of an attempt: the caller's, with the wall-clock and the idle timeout (0: none). *)
Record StepContext : Type := MkStepCtx { scParent : Context_; scTimeout : Z; scIdleTimeout : Z }.

(** [wDispatch]: one attempt by a dispatcher; a result and a direct error.  [wSleep]: clock.Sleep.
    [wNotice]: RunOptions.OnRetry.  [wCtxErr]: ctx.Err().  [wLocal]: the dispatcher is a
    *LocalDispatcher; [wCreate], [wRestore] (a snapshot, under a name) and [wDestroy] its backend's. *)
Class World (W : Type) : Type := {
  wDispatch : Context_ → LocalDispatcher → NodeIntent → W → (DispatchResult * option dispErr) * W;
  wSleep : Context_ → Z → W → option goError * W;
  wNotice : RetryNotice → W → W;
  wCtxErr : Context_ → W → option goError;
  wLocal : bool;
  wCreate : Context_ → ContainerSpec → W → res goError Handle * W;
  wRestore : Context_ → string → string → W → res goError Handle * W;
  wDestroy : Handle → W → option goError * W
}.

(** ** retry_loop.go *)

Definition recoveryContinue : string := "continue".

(** [reflect.DeepEqual(directResult, DispatchResult{})], with the events of the agent left aside. *)
Definition isZeroDispatch (dr : DispatchResult) : bool :=
  String.eqb (drOutcome dr) "" && bool_decide (drExitCode dr = None)
  && match drOutputs dr with None => true | _ => false end && String.eqb (drStdout dr) ""
  && match drFiles dr with [] => true | _ => false end && match drErr dr with None => true | _ => false end
  && (drRetryAfter dr =? 0)%Z && match drMetrics dr with None => true | _ => false end
  && String.eqb (ttUser (drTranscript dr)) "" && String.eqb (ttAssistant (drTranscript dr)) ""
  && match drLive dr with None => true | _ => false end && String.eqb (drSnapshotRef dr) ""
  && String.eqb (drContainer dr) "" && String.eqb (drSessionTranscript dr) "" && String.eqb (drSessionRef dr) ""
  && match drNode dr with None => true | _ => false end && match drInputRefs dr with [] => true | _ => false end.

Definition validateDispatchResult (path : string) (dr : DispatchResult) (dispatchErr : option dispErr) : option goError :=
  match dispatchErr with
  | Some e =>
      if isZeroDispatch dr then None
      else Some (EWrap "engine.RunWithRetry: dispatcher returned outcome %q with direct error at path %q: %w"
                   [drOutcome dr; path] (EDisp e))
  | None =>
      let inconsistent := Some (EErrf "engine.RunWithRetry: inconsistent dispatch result at path %q: outcome=%q cause=%v" [path; drOutcome dr]) in
      match drErr dr with
      | None => if String.eqb (drOutcome dr) OutcomeOK then None else inconsistent
      | Some _ => if String.eqb (drOutcome dr) OutcomeRetryableFailure || String.eqb (drOutcome dr) OutcomePermanentFailure
                  then None else inconsistent
      end
  end.

(** [dr.Outcome], [dr.Err] set. *)
Definition demoted (e : dispErr) (dr : DispatchResult) : DispatchResult :=
  MkDispatch OutcomeRetryableFailure (drExitCode dr) (drOutputs dr) (drStdout dr) (drFiles dr) (Some e)
    (drRetryAfter dr) (drMetrics dr) (drTranscript dr) (drLive dr) (drSnapshotRef dr) (drContainer dr)
    (drSessionTranscript dr) (drSessionRef dr) (drNode dr) (drInputRefs dr) (drAgentEvents dr).

(** [logAppend] with the errors the caller wraps. *)
Definition appendEvent `{Log L} (ty path : string) (j : json) (l : L) : option engErr * L :=
  match marshal j with
  | None => (Some (MarshalFailed ty path), l)
  | Some d => match logAppend (newEvent ty path d) l with
              | (None, l) => (None, l)
              | (Some x, l) => (Some (AppendFailed ty path x), l)
              end
  end.

Section retry.
Context `{Log L} `{World W}.
(** [intent.agentEventSink.flushWait], for an attempt that has a sink. *)
Variable flushWait : option (L * W → option goError * (L * W)).
Variables (cx : Context_) (handle : LocalDispatcher) (intent : NodeIntent) (policy : Policy).

Definition attemptResult : Type := DispatchResult * option goError.

Definition continueRecovery : bool := String.eqb (Recovery policy) recoveryContinue.

(** One dispatch, validated; a demoted direct error is the attempt's. *)
Definition dispatchOnce (attempt : Z) (s : L * W) : (goError + DispatchResult * option dispErr) * (L * W) :=
  let '((dr, lastErr), w) := wDispatch cx handle (withAttempt attempt continueRecovery intent) s.2 in
  let s := (s.1, w) in
  match validateDispatchResult (niPath intent) dr lastErr with
  | Some e => (inl e, s)
  | None =>
      match lastErr with
      | Some e => if continueRecovery && deLiveReplay e then (inr (demoted e dr, None), s) else (inr (dr, Some e), s)
      | None => (inr (dr, None), s)
      end
  end.

Definition retryNotice (attempt : Z) (dr : DispatchResult) : RetryNotice :=
  let next := (attempt + 1)%Z in
  MkNotice (niPath intent) attempt next (Attempts policy) (drOutcome dr) (drErr dr)
    (EffectiveBackoff policy next (drRetryAfter dr) (niPath intent)).

(** Between two attempts: flush, journal, notify, sleep.  [Some] is the early return. *)
Definition betweenAttempts (attempt : Z) (dr : DispatchResult) (s : L * W) : option attemptResult * (L * W) :=
  let '(ferr, s) := match flushWait with None => (None, s) | Some f => f s end in
  match ferr with
  | Some e => (Some (zeroDispatch, Some (EWrap "engine.RunWithRetry: flush live agent.event at path %q: %w" [niPath intent] e)), s)
  | None =>
      let errStr := match drErr dr with Some e => deText e | None => "" end in
      match appendEvent EventRetryAttempt (niPath intent) (RetryAttemptData_json (MkRetryAttemptData attempt (drOutcome dr) errStr)) s.1 with
      | (Some e, l) => (Some (dr, Some (EEng e)), (l, s.2))
      | (None, l) =>
          let n := retryNotice attempt dr in
          let w := wNotice n s.2 in
          let '(serr, w) := wSleep cx (rnDelay n) w in
          (match serr with Some e => Some (dr, Some e) | None => None end, (l, w))
      end
  end.

(** The loop, from [attempt] with [k] attempts to go. *)
Fixpoint retryLoop (k : nat) (attempt : Z) (s : L * W) : attemptResult * (L * W) :=
  match k with
  | O => ((zeroDispatch, None), s)
  | S k =>
      let '(d, s) := dispatchOnce attempt s in
      match d with
      | inl e => ((zeroDispatch, Some e), s)
      | inr (dr, Some e) => ((dr, Some (EDisp e)), s)
      | inr (dr, None) =>
          if String.eqb (drOutcome dr) OutcomeOK then ((dr, None), s)
          else if String.eqb (drOutcome dr) OutcomePermanentFailure then ((dr, EDisp <$> drErr dr), s)
          else if negb (String.eqb (drOutcome dr) OutcomeRetryableFailure)
          then ((dr, Some (EErrf "engine.RunWithRetry: dispatcher returned unknown outcome %q at path %q" [drOutcome dr; niPath intent])), s)
          else if (attempt =? Attempts policy)%Z then ((dr, EDisp <$> drErr dr), s)
          else
            let '(r, s) := betweenAttempts attempt dr s in
            match r with Some r => (r, s) | None => retryLoop k (attempt + 1)%Z s end
      end
  end.

Definition RunWithRetry (s : L * W) : attemptResult * (L * W) :=
  if (Attempts policy <? 1)%Z
  then ((zeroDispatch, Some (EErrf "engine.RunWithRetry: policy.Attempts = %d, want ≥ 1" [Itoa (Attempts policy)])), s)
  else retryLoop (Z.to_nat (Attempts policy)) 1 s.

(** *** What the attempts keep *)

(** A result of the loop: none, or that of a dispatch, demoted or not. *)
Definition answered (dr : DispatchResult) : Prop :=
  dr = zeroDispatch ∨ ∃ j w dr0 e w', wDispatch cx handle j w = ((dr0, e), w') ∧ (dr = dr0 ∨ ∃ x, dr = demoted x dr0).
Lemma answered_ok dr : answered dr → drOutcome dr = OutcomeOK → ∃ j w e w', wDispatch cx handle j w = ((dr, e), w').
Proof. intros [->|(j & w & dr0 & e & w' & Hd & [->|[x ->]])] Ho; [done|by eauto 10|done]. Qed.

(** [I] is kept, and the errors are in [E]. *)
Variables (I : L * W → Prop) (E : goError → Prop).
Hypothesis keep_dispatch : ∀ j l w r w', I (l, w) → wDispatch cx handle j w = (r, w') → I (l, w').
Hypothesis keep_flush : ∀ f s e s', flushWait = Some f → I s → f s = (e, s') → I s' ∧ ∀ x, e = Some x → E x.
Hypothesis keep_log : ∀ j l w e l', I (l, w) → appendEvent EventRetryAttempt (niPath intent) j l = (e, l') → I (l', w).
Hypothesis keep_notice : ∀ n l w, I (l, w) → I (l, wNotice n w).
Hypothesis keep_sleep : ∀ d l w e w', I (l, w) → wSleep cx d w = (e, w') → I (l, w') ∧ ∀ x, e = Some x → E x.
Hypothesis err_disp : ∀ e, E (EDisp e).
Hypothesis err_eng : ∀ e, E (EEng e).
Hypothesis err_errf : ∀ fmt args, E (EErrf fmt args).
Hypothesis err_wrap : ∀ fmt args e, E e → E (EWrap fmt args e).
#[local] Notation errs r := (∀ e : goError, r.2 = Some e → E e).

Lemma betweenAttempts_keeps a dr s r s' : betweenAttempts a dr s = (r, s') → I s → I s' ∧ ∀ x, r = Some x → (x.1 = dr ∨ x.1 = zeroDispatch) ∧ errs x.
Proof.
  unfold betweenAttempts. destruct (match flushWait with None => _ | Some f => f s end) as [fe s1] eqn:Hf. intros Hb Hi.
  assert (Hi1 : I s1 ∧ ∀ x, fe = Some x → E x) by (destruct flushWait as [f|]; [by eapply keep_flush|by injection Hf as <- <-]).
  clear Hf Hi. destruct s1 as [l1 w1], Hi1 as [Hi1 Hfe].
  destruct fe as [fe|]; [injection Hb as <- <-; split; [done|intros x [= <-]; split; [by right|intros e [= <-]; by apply err_wrap, Hfe]]|]. cbn [fst snd] in Hb.
  destruct (appendEvent _ _ _ l1) as [[e|] l2] eqn:Ha; pose proof (keep_log _ _ _ _ _ Hi1 Ha) as Hi2.
  - injection Hb as <- <-. split; [done|intros x [= <-]; split; [by left|by intros y [= <-]]].
  - destruct (wSleep _ _ _) as [se w2] eqn:Hs. apply (keep_sleep _ l2) in Hs as [Hi3 Hse]; [|by apply keep_notice]. injection Hb as <- <-. split; [done|].
    intros x. destruct se as [se|]; [intros [= <-]; split; [by left|intros y [= <-]; by apply Hse]|done].
Qed.
Lemma validate_errs dr0 e0 v : validateDispatchResult (niPath intent) dr0 e0 = Some v → E v.
Proof. unfold validateDispatchResult. destruct e0; repeat case_match; intros [= <-]; auto. Qed.
Lemma retryLoop_keeps k : ∀ a s r s', retryLoop k a s = (r, s') → I s → I s' ∧ answered r.1 ∧ errs r.
Proof.
  induction k as [|k IH]; intros a [l w] r s'; cbn [retryLoop]; [intros [= <- <-] Hi; split; [done|split; [by left|done]]|].
  unfold dispatchOnce. cbn [fst snd]. destruct (wDispatch _ _ _ w) as [[dr0 e0] w0] eqn:Hd. intros Hr Hi.
  assert (Hi0 : I (l, w0)) by (by eapply keep_dispatch). clear Hi.
  destruct (validateDispatchResult _ dr0 e0) as [v|] eqn:Hv; [injection Hr as <- <-; split; [done|split; [by left|intros e [= <-]; by eapply validate_errs]]|].
  assert (Hx : ∀ dr, dr = dr0 ∨ (∃ x, dr = demoted x dr0) → answered dr) by (intros dr Hdr; right; by eauto 10).
  assert (Hgo : ∀ dr, answered dr → (let '(r, s) := betweenAttempts a dr (l, w0) in match r with Some r => (r, s) | None => retryLoop k (a + 1) s end) = (r, s') → I s' ∧ answered r.1 ∧ errs r).
  { intros dr Hdr. destruct (betweenAttempts a dr (l, w0)) as [x s1] eqn:Hb. apply betweenAttempts_keeps in Hb as [Hi1 Hx1]; [|done].
    destruct x as [x|]; [|intros Hl; by eapply IH]. intros [= -> ->]. split; [done|]. destruct (Hx1 r eq_refl) as [[-> | ->] He]; (split; [done || by left|done]). }
  destruct (match e0 with Some e => _ | None => _ end) as [d s1] eqn:Hm.
  assert (Hd' : ∃ dr1 e1, d = inr (dr1, e1) ∧ s1 = (l, w0) ∧ answered dr1).
  { destruct e0 as [e0|]; [destruct (_ && _)|]; injection Hm as <- <-; eexists _, _; (split_and!; [reflexivity..|]); apply Hx; eauto. }
  destruct Hd' as (dr1 & e1 & -> & -> & Ha). destruct e1 as [e1|]; [injection Hr as <- <-; split; [done|split; [done|by intros e [= <-]]]|].
  assert (Hdr : ∀ x, (dr1, EDisp <$> drErr dr1) = x → errs x) by (intros x <- e; cbn; destruct (drErr dr1); [by intros [= <-]|done]).
  repeat (case_match; [injection Hr as <- <-; split; [done|split; [done|first [done | by eapply Hdr | by intros e [= <-]]]]|]). by eapply Hgo.
Qed.
Lemma RunWithRetry_keeps s r s' : RunWithRetry s = (r, s') → I s → I s' ∧ answered r.1 ∧ errs r.
Proof.
  unfold RunWithRetry. destruct (_ <? 1)%Z; [intros [= <- <-] Hi; split; [done|split; [by left|by intros e [= <-]]]|apply retryLoop_keeps].
Qed.
End retry.

(** ** The protocol of the loop *)

(** What a world is asked. *)
Inductive Obs : Type :=
  | ODispatch (i : NodeIntent)
  | ONotice (n : RetryNotice)
  | OSleep (d : Z).

(** A world that records it. *)
#[global] Instance Traced `{World W} : World (W * list Obs) := {
  wDispatch cx h i w := let '(r, w') := wDispatch cx h i w.1 in (r, (w', w.2 ++ [ODispatch i]));
  wSleep cx d w := let '(r, w') := wSleep cx d w.1 in (r, (w', w.2 ++ [OSleep d]));
  wNotice n w := (wNotice n w.1, w.2 ++ [ONotice n]);
  wCtxErr cx w := wCtxErr cx w.1;
  wLocal := @wLocal W _;
  wCreate cx p w := let '(r, w') := wCreate cx p w.1 in (r, (w', w.2));
  wRestore cx r k w := let '(x, w') := wRestore cx r k w.1 in (x, (w', w.2));
  wDestroy h w := let '(e, w') := wDestroy h w.1 in (e, (w', w.2))
}.

(** A failed attempt that may be retried. *)
Definition retryable (dr : DispatchResult) : Prop := drOutcome dr = OutcomeRetryableFailure ∧ is_Some (drErr dr).

(** How the loop may end at [attempt]. *)
Inductive ends (policy : Policy) (attempt : Z) : attemptResult → Prop :=
  | ends_ok dr : drOutcome dr = OutcomeOK → drErr dr = None → ends policy attempt (dr, None)
  | ends_permanent dr e : drOutcome dr = OutcomePermanentFailure → drErr dr = Some e → ends policy attempt (dr, Some (EDisp e))
  | ends_exhausted dr e : drOutcome dr = OutcomeRetryableFailure → drErr dr = Some e → attempt = Attempts policy →
      ends policy attempt (dr, Some (EDisp e))
  | ends_internal dr e : isZeroDispatch dr = true → ends policy attempt (dr, Some e).

(** The retry.attempt record of a failed attempt. *)
Definition retryRecord (attempt : Z) (dr : DispatchResult) : json :=
  RetryAttemptData_json (MkRetryAttemptData attempt (drOutcome dr) (match drErr dr with Some e => deText e | None => "" end)).

Section protocol.
Variables (intent : NodeIntent) (policy : Policy).
#[local] Notation asked a := (ODispatch (withAttempt a (continueRecovery policy) intent)).
#[local] Notation told a dr := (ONotice (retryNotice intent policy a dr)).
#[local] Notation slept a dr := (OSleep (rnDelay (retryNotice intent policy a dr))).

(** The runs of the loop from [attempt]: what it asks, what it journals, and its result. *)
Inductive protocol : Z → list Obs → list json → attemptResult → Prop :=
  | p_end a r : ends policy a r → protocol a [asked a] [] r
  | p_log a dr e : retryable dr → (a < Attempts policy)%Z → protocol a [asked a] [] (dr, Some (EEng e))
  | p_sleep a dr e : retryable dr → (a < Attempts policy)%Z →
      protocol a [asked a; told a dr; slept a dr] [retryRecord a dr] (dr, Some e)
  | p_again a dr tr js r : retryable dr → (a < Attempts policy)%Z → protocol (a + 1) tr js r →
      protocol a (asked a :: told a dr :: slept a dr :: tr) (retryRecord a dr :: js) r.

Definition dispatched (tr : list Obs) : list NodeIntent :=
  omap (λ o, match o with ODispatch i => Some i | _ => None end) tr.

Lemma protocol_dispatched a tr js r : (a ≤ Attempts policy)%Z → protocol a tr js r →
  ∃ k : nat, (a + Z.of_nat k ≤ Attempts policy)%Z ∧
    dispatched tr = map (λ i : nat, withAttempt (a + Z.of_nat i) (continueRecovery policy) intent) (seq 0 (S k)) ∧
    (k ≤ length js ≤ S k)%nat.
Proof.
  intros Ha Hp. induction Hp as [a r He|a dr e Hr Hl|a dr e Hr Hl|a dr tr js r Hr Hl Hp IH].
  1-3: exists 0%nat; cbn; rewrite Z.add_0_r; repeat split; lia.
  destruct IH as (k & Hk & Hd & Hj); [lia|]. exists (S k). split; [lia|]. split; [|cbn; lia].
  change (dispatched (asked a :: _)) with (withAttempt a (continueRecovery policy) intent :: dispatched tr). rewrite Hd.
  change (seq 0 (S (S k))) with (0%nat :: seq 1 (S k)). cbn [map]. rewrite Z.add_0_r. f_equal.
  rewrite <- (seq_shift (S k) 0), map_map. apply map_ext. intros i. f_equal. lia.
Qed.

(** An early end has an outcome only when an attempt has. *)
Lemma protocol_result a tr js dr err : protocol a tr js (dr, err) →
  (drOutcome dr = OutcomeOK ∧ err = None) ∨
  ((drOutcome dr = OutcomeRetryableFailure ∨ drOutcome dr = OutcomePermanentFailure) ∧ is_Some err) ∨
  (isZeroDispatch dr = true ∧ is_Some err).
Proof.
  remember (dr, err) as r eqn:Er. intros Hp. revert dr err Er.
  induction Hp as [a r He|a d e [Hr _] Hl|a d e [Hr _] Hl|a d tr js r Hr Hl Hp IH]; intros dr err Er.
  - destruct He; injection Er as <- <-; eauto 6.
  - injection Er as <- <-. eauto 6.
  - injection Er as <- <-. eauto 6.
  - by apply IH.
Qed.
End protocol.

Section retry_lemmas.
Context `{HL : TimeCodec} {L W : Type} {HLog : Log L} {HLaws : LogLaws} {HW : World W}.
Variables (cx : Context_) (handle : LocalDispatcher) (intent : NodeIntent) (policy : Policy).

(** The events [es] are the records [js] of [ty] at [path]. *)
Definition journaled (ty path : string) (js : list json) (es : list Event) : Prop :=
  Forall2 (λ j e, same_event (newEvent ty path j) e) js es.

Lemma appendEvent_spec ty path j (l : L) r l' :
  marshal j = Some j → logOK l → appendEvent ty path j l = (r, l') →
  (r = None ∧ logOK l' ∧ ∃ e, same_event (newEvent ty path j) e ∧ logEvents l' = logEvents l ++ [e]) ∨
  (is_Some r ∧ logEvents l' = logEvents l).
Proof.
  intros Hm Hok. unfold appendEvent. rewrite Hm. destruct (logAppend _ l) as [[x|] l1] eqn:Ha; intros [= <- <-].
  - right. split; [done|]. by apply append_err in Ha.
  - left. split; [done|]. by apply append_ok in Ha.
Qed.

Lemma validated path dr e : validateDispatchResult path dr e = None →
  match e with
  | Some _ => isZeroDispatch dr = true
  | None => (drOutcome dr = OutcomeOK ∧ drErr dr = None) ∨
            ((drOutcome dr = OutcomeRetryableFailure ∨ drOutcome dr = OutcomePermanentFailure) ∧ is_Some (drErr dr))
  end.
Proof.
  unfold validateDispatchResult. destruct e; [by destruct (isZeroDispatch dr)|]. destruct (drErr dr) as [x|].
  - destruct (String.eqb_spec (drOutcome dr) OutcomeRetryableFailure); [by eauto 6|].
    destruct (String.eqb_spec (drOutcome dr) OutcomePermanentFailure); by eauto 6.
  - destruct (String.eqb_spec (drOutcome dr) OutcomeOK); by eauto.
Qed.

Lemma zeroDispatch_zero : isZeroDispatch zeroDispatch = true.
Proof. reflexivity. Qed.

Lemma dispatchOnce_spec a (s : L * (W * list Obs)) d s' :
  dispatchOnce cx handle intent policy a s = (d, s') →
  s'.1 = s.1 ∧ s'.2.2 = s.2.2 ++ [ODispatch (withAttempt a (continueRecovery policy) intent)] ∧
  match d with
  | inl _ => True
  | inr (dr, Some _) => isZeroDispatch dr = true
  | inr (dr, None) => (drOutcome dr = OutcomeOK ∧ drErr dr = None) ∨
      ((drOutcome dr = OutcomeRetryableFailure ∨ drOutcome dr = OutcomePermanentFailure) ∧ is_Some (drErr dr))
  end.
Proof.
  unfold dispatchOnce. cbn [wDispatch Traced]. destruct (wDispatch _ _ _ s.2.1) as [[dr e] w].
  destruct (validateDispatchResult _ dr e) as [x|] eqn:Hv; [by intros [= <- <-]|]. apply validated in Hv.
  destruct e as [e|]; [|by intros [= <- <-]]. destruct (_ && _); intros [= <- <-]; [|done].
  split; [done|]. split; [done|]. right. split; [by left|by eexists].
Qed.

Lemma betweenAttempts_spec a dr (s : L * (W * list Obs)) r s' :
  logOK s.1 → betweenAttempts None cx intent policy a dr s = (r, s') →
  (∃ e, r = Some (dr, Some (EEng e)) ∧ s'.2.2 = s.2.2 ∧ logEvents s'.1 = logEvents s.1) ∨
  (logOK s'.1 ∧ (∃ e, same_event (newEvent EventRetryAttempt (niPath intent) (retryRecord a dr)) e ∧
                       logEvents s'.1 = logEvents s.1 ++ [e]) ∧
   s'.2.2 = s.2.2 ++ [ONotice (retryNotice intent policy a dr); OSleep (rnDelay (retryNotice intent policy a dr))] ∧
   (r = None ∨ ∃ e, r = Some (dr, Some e))).
Proof.
  intros Hok. unfold betweenAttempts. destruct (appendEvent _ _ _ s.1) as [[e|] l] eqn:Ha;
    apply appendEvent_spec in Ha as [(Hr & Hok' & Hev)|[Hr Hev]]; try done; try apply marshal_RetryAttempt;
    try by destruct Hr.
  - intros [= <- <-]. left. by exists e.
  - cbn [wSleep wNotice Traced fst snd]. destruct (wSleep _ _ _) as [se w].
    intros [= <- <-]. right. cbn [fst snd]. split; [done|]. split; [done|]. split; [by rewrite <- app_assoc|].
    destruct se as [e|]; [right; by exists e|by left].
Qed.

Lemma retryLoop_protocol k : ∀ a (s : L * (W * list Obs)) r s',
  logOK s.1 → Z.of_nat k = (Attempts policy - a + 1)%Z → (a ≤ Attempts policy)%Z →
  retryLoop None cx handle intent policy k a s = (r, s') →
  ∃ tr js es, s'.2.2 = s.2.2 ++ tr ∧ logEvents s'.1 = logEvents s.1 ++ es ∧
    journaled EventRetryAttempt (niPath intent) js es ∧ protocol intent policy a tr js r.
Proof.
  induction k as [|k IH]; intros a s r s' Hok Hk Ha; [lia|]. cbn [retryLoop].
  destruct (dispatchOnce _ _ _ _ _ s) as [d s1] eqn:Hd. apply dispatchOnce_spec in Hd as (Hl & Ht & Hc).
  assert (Hend : ∀ x, ends policy a x → r = x → s1 = s' →
    ∃ tr js es, s'.2.2 = s.2.2 ++ tr ∧ logEvents s'.1 = logEvents s.1 ++ es ∧
      journaled EventRetryAttempt (niPath intent) js es ∧ protocol intent policy a tr js r).
  { intros x He -> <-. exists [ODispatch (withAttempt a (continueRecovery policy) intent)], [], [].
    rewrite Ht, Hl, app_nil_r. repeat split; [constructor|by constructor]. }
  destruct d as [e|[dr [e|]]].
  - intros [= <- <-]. eapply Hend; [|done..]. by constructor.
  - intros [= <- <-]. eapply Hend; [|done..]. by constructor.
  - destruct (String.eqb_spec (drOutcome dr) OutcomeOK) as [Ho|Ho].
    { intros [= <- <-]. eapply Hend; [|done..]. constructor; [done|]. destruct Hc as [[_ ?]|[[H|H] _]]; [done|..]; rewrite H in Ho; discriminate Ho. }
    destruct Hc as [[H _]|[Hc [e He]]]; [by rewrite H in Ho|].
    destruct (String.eqb_spec (drOutcome dr) OutcomePermanentFailure) as [Hp|Hp].
    { intros [= <- <-]. apply (Hend (dr, Some (EDisp e))); [by apply ends_permanent|by rewrite He|done]. }
    destruct Hc as [Hr|]; [|done]. rewrite Hr. cbn [String.eqb negb]. rewrite String.eqb_refl. cbn [negb].
    destruct (Z.eqb_spec a (Attempts policy)) as [Hlast|Hlast].
    { intros [= <- <-]. apply (Hend (dr, Some (EDisp e))); [by apply ends_exhausted|by rewrite He|done]. }
    destruct (betweenAttempts _ _ _ _ _ _ s1) as [b s2] eqn:Hb. apply betweenAttempts_spec in Hb; [|by rewrite Hl].
    assert (Hret : retryable dr) by (split; [done|by exists e]).
    destruct Hb as [(x & -> & Ht2 & Hev)|(Hok2 & (ev & Hev & Hl2) & Ht2 & Hb)].
    + intros [= <- <-]. exists [ODispatch (withAttempt a (continueRecovery policy) intent)], [], [].
      rewrite Ht2, Ht, Hev, Hl, app_nil_r. repeat split; [constructor|]. apply p_log; [done|lia].
    + rewrite Hl in Hl2. rewrite Ht in Ht2. destruct Hb as [->|[x ->]].
      * intros Hrest. destruct (IH (a + 1)%Z _ _ _ Hok2 ltac:(lia) ltac:(lia) Hrest) as (tr & js & es & E1 & E2 & E3 & E4).
        eexists _, (retryRecord a dr :: js), (ev :: es). rewrite E1, Ht2, E2, Hl2, <- !app_assoc. cbn [app].
        repeat split; [by constructor|]. apply p_again; [done|lia|done].
      * intros [= <- <-]. eexists _, [retryRecord a dr], [ev]. rewrite Ht2, Hl2, <- !app_assoc. cbn [app].
        repeat split; [by constructor; [|constructor]|apply p_sleep; [done|lia]].
Qed.
End retry_lemmas.

(** ** Properties *)

(** C8: a step is tried at most as often as its policy allows, and every failed try but the last is
    journaled before the next.  For any dispatcher, clock and context the loop follows the protocol:
    it dispatches the intent with the attempt numbers 1, 2, ... up to at most Attempts; after a
    retryable failure that is not the last it appends retry.attempt, notifies, sleeps the effective
    backoff and tries again; it stops on ok, on a permanent failure, on the last attempt, or on an
    internal error.  The result is ok without error, a typed failure with its cause, or an error
    without a result. *)
Theorem RunWithRetry_protocol `{HL : TimeCodec} {L W : Type} {HLog : Log L} {HLaws : LogLaws} {HW : World W}
    cx handle intent policy (l l' : L) (w w' : W) tr dr err :
  logOK l → (1 ≤ Attempts policy)%Z →
  RunWithRetry None cx handle intent policy (l, (w, [])) = ((dr, err), (l', (w', tr))) →
  (∃ js es, protocol intent policy 1 tr js (dr, err) ∧ logEvents l' = logEvents l ++ es ∧
     journaled EventRetryAttempt (niPath intent) js es ∧
     ∃ k, (1 ≤ k)%nat ∧ (Z.of_nat k ≤ Attempts policy)%Z ∧ (k - 1 ≤ length js ≤ k)%nat ∧
       dispatched tr = map (λ i : nat, withAttempt (Z.of_nat i) (continueRecovery policy) intent) (seq 1 k)) ∧
  ((drOutcome dr = OutcomeOK ∧ err = None) ∨
   ((drOutcome dr = OutcomeRetryableFailure ∨ drOutcome dr = OutcomePermanentFailure) ∧ is_Some err) ∨
   (isZeroDispatch dr = true ∧ is_Some err)).
Proof.
  intros Hok Hn. unfold RunWithRetry. destruct (Z.ltb_spec (Attempts policy) 1); [lia|]. intros Hr.
  apply retryLoop_protocol in Hr as (tr' & js & es & Ht & Hl & Hj & Hp); [|done|lia..]. cbn [fst snd app] in *. subst tr'.
  split; [|by apply protocol_result in Hp]. exists js, es. split; [done|]. split; [done|]. split; [done|].
  destruct (protocol_dispatched _ _ _ _ _ _ Hn Hp) as (k & Hk & Hd & Hj'). exists (S k). split; [lia|]. split; [lia|].
  split; [lia|]. rewrite Hd, <- (seq_shift (S k) 0), map_map. apply map_ext. intros i. f_equal. lia.
Qed.

(** ** A scripted world *)

(** The dispatcher answers from a script; sleeping and the context never fail. *)
Record Script : Type := MkScript { scAnswers : list (DispatchResult * option dispErr); scCancelled : bool }.

#[global] Instance Scripted : World Script := {
  wDispatch _ _ _ w :=
    match scAnswers w with
    | r :: rs => (r, MkScript rs (scCancelled w))
    | [] => ((zeroDispatch, Some (MkDispErr "script is over" false)), w)
    end;
  wSleep _ _ w := (None, w);
  wNotice _ w := w;
  wCtxErr cx w := match cx with Detached => None | Cancellable => if scCancelled w then Some (ECtx "context canceled") else None end;
  wLocal := true;
  wCreate _ p w := (Ok (MkHandle (spName p) "" "" ""), w);
  wRestore _ _ k w := (Ok (MkHandle k "" "" ""), w);
  wDestroy _ w := (None, w)
}.

Definition failedAttempt (text : string) : DispatchResult :=
  demoted (MkDispErr text false) zeroDispatch.

Section example.
#[local] Existing Instance two_times.
#[local] Existing Instance InMemoryLog_laws.
#[local] Instance exRetry_log : Log InMemoryLog := InMemoryLog_log false.

Definition exIntent : NodeIntent :=
  MkIntent "a" (NCode (MkCodeStep "a" "" "true" None None [] ∅ None None))
    (MkInputs "true" ∅ [] ∅ None [] 0 0 [] "" noAgent) "" 0 false false zeroRunContext.
Definition exPolicy : Policy := MkPolicy 3 BackoffExp Second (60 * Second) [78%Z] "".
Definition exAnswers : Script := MkScript [(failedAttempt "x", None); (exDispatch, None)] false.
Definition exRetry : attemptResult * (InMemoryLog * (Script * list Obs)) :=
  RunWithRetry None Cancellable noHandles exIntent exPolicy (exBefore.1, (exAnswers, [])).

Lemma RunWithRetry_protocol_witness :
  length (dispatched exRetry.2.2.2) = 2 ∧
  (∃ js es, protocol exIntent exPolicy 1 exRetry.2.2.2 js (exRetry.1.1, exRetry.1.2) ∧
     logEvents exRetry.2.1 = logEvents exBefore.1 ++ es ∧ journaled EventRetryAttempt "a" js es ∧
     ∃ k, (1 ≤ k)%nat ∧ (Z.of_nat k ≤ 3)%Z ∧ (k - 1 ≤ length js ≤ k)%nat ∧
       dispatched exRetry.2.2.2 = map (λ i : nat, withAttempt (Z.of_nat i) false exIntent) (seq 1 k)).
Proof.
  split; [vm_compute; reflexivity|].
  apply (RunWithRetry_protocol Cancellable noHandles exIntent exPolicy exBefore.1 exRetry.2.1 exAnswers exRetry.2.2.1
           exRetry.2.2.2 exRetry.1.1 exRetry.1.2); [exact I|discriminate|].
  unfold exRetry. by destruct (RunWithRetry _ _ _ _ _ _) as [[? ?] [? [? ?]]].
Defined.
End example.
