(* ===== verification/Adapters.v ===== *)
(** * agent/adapter.go, derived.go: the adapters

    An adapter is what the registry gives for a reference: its capabilities, its check of a configuration,
    and its launch, which the outside answers.  A role is a view of an adapter with a configuration of its
    own ([DerivedAdapter]). *)

From S2P Require Import Prelude GoNum GoJson GoStruct TmplEval RetryPolicy StateBlobs StateLog EngineEvents RunState.
From S2P Require Import EngineFold Journal Ir Agent Commit Artifacts Containers RetryLoop.

(** ** A launch *)

(** What the dispatcher sees of a launch.  [wall]: when it classifies the error, the cause of the context is
    the engine's wall timeout.  [events]: those drained before the end.  A launch is cancelled when the
    context is done before the outcome and the end of the events are there; [ready]: the drain has stopped
    when its events are asked for. *)
Inductive LaunchAnswer : Type :=
  | LaunchFailed (e : agentErr) (wall : bool)
  | LaunchDone (o : res agentErr AgentResult) (events : list AgentEvent) (wall : bool)
  | LaunchCancelled (deadline wall ready : bool) (events : list AgentEvent).

Definition ivSetWith (with_ : RawConfig) (inv : AgentInvocation) : AgentInvocation :=
  MkInvocation (ivNodePath inv) (ivUses inv) (ivRunContext inv) with_ (ivRoleWith inv) (ivOutputSchema inv) (ivIdempotencyKey inv)
    (ivFeedback inv) (ivThread inv) (ivContextEvidence inv) (ivInputFiles inv) (ivAttempt inv) (ivRecoveryContinue inv)
    (ivResumeSession inv) (ivSessionConfigDir inv) (ivWorkflowDir inv).

(** [adRoleWith], [adValidateResolved], [adPreflight], [adToolLoop]: the optional interfaces
    RoleWithProvider, RoleResolvedValidator, ResumePreflighter and ToolLoopRunner. *)
Record Adapter (W : Type) : Type := MkAdapter {
  adCaps : Caps;
  adRoleWith : option RawConfig;
  adValidate : RawConfig → option agentErr;
  adValidateResolved : option (RawConfig → RawConfig → option agentErr);
  adVersion : Context_ → Handle → W → res goError string * W;
  adLaunch : StepContext → Handle → AgentInvocation → W → LaunchAnswer * W;
  adPreflight : option (LiveResumePreflightRequest → W → option agentErr * W);
  adToolLoop : option (Context_ → ToolLoopInvocation → W → res agentErr ToolLoopResult * W)
}.
#[global] Arguments MkAdapter {_}. #[global] Arguments adCaps {_}. #[global] Arguments adRoleWith {_}.
#[global] Arguments adValidate {_}. #[global] Arguments adValidateResolved {_}. #[global] Arguments adVersion {_}. #[global] Arguments adLaunch {_}.
#[global] Arguments adPreflight {_}. #[global] Arguments adToolLoop {_}.

(** The registry. *)
Class Adapters (W : Type) : Type := { aLookup : string → option (Adapter W) }.

(** ** DerivedAdapter *)

Section derived.
Context {W : Type}.
Variables (baseRef roleName : string) (base : Adapter W) (roleWith : RawConfig).

(** [step] over [role]; a fresh map, so never nil. *)
Definition overlay (role step : RawConfig) : RawConfig :=
  Some (foldl (λ acc kv, entry_set kv.1 kv.2 acc) (default [] role) (default [] step)).
Definition merge (step : RawConfig) : RawConfig := overlay roleWith step.
Definition mergeRole (roleOverride step : RawConfig) : RawConfig :=
  overlay (match roleOverride with None => roleWith | Some _ => roleOverride end) step.
Definition RoleWith : RawConfig := match default [] roleWith with [] => None | _ => roleWith end.

Definition DerivedAdapter : Adapter W := {|
  adCaps := adCaps base;
  adRoleWith := Some RoleWith;
  adValidate with_ := adValidate base (merge with_);
  adValidateResolved := Some (λ resolvedRole step, adValidate base (mergeRole resolvedRole step));
  adVersion := adVersion base;
  adLaunch cx h inv := adLaunch base cx h (ivSetWith (mergeRole (ivRoleWith inv) (ivWith inv)) inv);
  adPreflight := Some (λ req, match adPreflight base with
    | None => λ w, (Some (plainErr (EmFmt "base adapter %q for role %q declares PersistentSession but does not implement agent.ResumePreflighter" [baseRef; roleName])), w)
    | Some preflight => preflight (MkPreflight (lpNodePath req) (lpAdapterRef req) (merge (lpWith req)) (lpRunID req) (lpCurrentEpoch req) (lpNextEpoch req))
    end);
  adToolLoop := Some (λ cx inv, match adToolLoop base with
    | None => λ w, (Err (plainErr (EmFmt "base adapter %q for role %q does not implement agent.ToolLoopRunner" [baseRef; roleName])), w)
    | Some run => run cx (MkToolLoop (liNodePath inv) (liUses inv) (merge (liWith inv)) (liMessages inv) (liTools inv) (liOutputSchema inv))
    end)
|}.
End derived.
