(* ===== verification/Steps.v ===== *)
(** * The step handlers: runCodeStepWithContext, runSignalStepWithContext and what they share

    engine/interpreter.go (code steps, failStep), engine/signal_step.go, engine/node_started.go,
    engine/schema.go and the control flags of engine/controls.go.  The state of a handler is the log, the
    blob store, the run state and the outside world; a handler returns the Go pair (Outcome, error). *)

From S2P Require Import Prelude GoNum GoJson GoStruct Signal TmplLexer TmplParser TmplSlots TmplEval RetryPolicy.
From S2P Require Import EnginePath GoPath StateBlobs StateLog EngineEvents RunState EngineFold Journal Ir Commit Scope Artifacts Containers RetryLoop.

(** ** The handler's state and result *)

Record St (L B W : Type) : Type := MkSt { stLog : L; stBlobs : B; stRS : RunState; stW : W }.
#[global] Arguments MkSt {_ _ _}. #[global] Arguments stLog {_ _ _}. #[global] Arguments stBlobs {_ _ _}.
#[global] Arguments stRS {_ _ _}. #[global] Arguments stW {_ _ _}.

Definition Result : Type := Outcome * option goError.
Definition okResult : Result := (OutcomeOK, None).
(** An internal error has no outcome. *)
Definition internal (e : goError) : Result := ("", Some e).
Definition isOk (r : Result) : bool := String.eqb r.1 OutcomeOK && match r.2 with None => true | Some _ => false end.
Definition skipOf (r : Result) : option string := r.2 ≫= asSkip.

(** The third-party code the handlers call: RFC 8785, the JSON Schema compiler and validator, and the
    text of an error ([Error()]: its format with its arguments). *)
Class Externals : Type := {
  xJcs : string → option string;
  xCompile : JSONSchema → res EvalMsg (value → option EvalMsg);
  xErrText : goError → string
}.
Definition compileError `{Externals} (j : JSONSchema) : option EvalMsg :=
  match xCompile j with Ok _ => None | Err m => Some m end.

(** The fields of interpreterContext that do not change during a run. *)
Record Ictx : Type := MkIctx {
  icWf : Workflow; icModuleID : string; icFrame : CallFrame; icRunEnv : gmap string string; icDispatcher : LocalDispatcher }.

(** ** The signal broker and the control flags *)

(** [wBroker]: the run has a broker.  [wReceive]: Receive, or ReceiveMatching with a predicate.
    [wTicks]: what CheckPauseCancel has answered so far, an I/O error or the two requests. *)
Class Signals (W : Type) : Type := {
  wBroker : bool;
  wReceive : Context_ → string → Z → option (string → res goError bool) → W → res (recvErr string) Delivery * W;
  wTicks : W → list (res () (option PauseRequest * option CancelRequest))
}.

(** [pollControls]: the first tick that finds a request decides; cancel wins; errors are skipped. *)
Fixpoint pollControls (ticks : list (res () (option PauseRequest * option CancelRequest))) (rs : RunState) : RunState :=
  match ticks with
  | [] => rs
  | Ok (_, Some c) :: _ => SetCancelReason (crReason c) (SetCancelled true rs)
  | Ok (Some p, None) :: _ => SetPaused (Some (MkPause (prNodePath p) (prReason p))) rs
  | _ :: ticks => pollControls ticks rs
  end.

(** ** schema.go *)

Section schema.
Context `{Externals}.

Definition ValidateJSONAgainstSchema (raw : string) (schema : JSONSchema) : res EvalMsg value :=
  if String.eqb raw "" then Err (EmFmt "ValidateAgainstSchema: empty input" [])
  else match j ← json_parse raw; Unmarshal_any j with
  | None => Err (EmFmt "ValidateAgainstSchema: decode: %w" [])
  | Some decoded =>
      match xCompile schema with
      | Err m => Err m
      | Ok validate => match validate decoded with
                       | Some m => Err (EmWrap "ValidateAgainstSchema: schema validation: %w" [] m)
                       | None => Ok decoded
                       end
      end
  end.

Definition ValidateAgainstSchema (raw : string) (schema : JSONSchema) : res EvalMsg (list (string * value)) :=
  match ValidateJSONAgainstSchema raw schema with
  | Err m => Err m
  | Ok (VMap m) => Ok m
  | Ok v => Err (EmFmt "ValidateAgainstSchema: decoded value is %T, want JSON object" [goType v])
  end.
End schema.

(** ** What the handlers share *)

Section steps.
Context `{Log L} `{Blobs B} `{World W} `{Signals W} `{Externals}.
#[local] Notation St := (St L B W).

Definition setLog (l : L) (s : St) : St := MkSt l (stBlobs s) (stRS s) (stW s).
Definition setRS (rs : RunState) (s : St) : St := MkSt (stLog s) (stBlobs s) rs (stW s).
Definition setW (w : W) (s : St) : St := MkSt (stLog s) (stBlobs s) (stRS s) w.
(** The poller, started when there is a broker, writes the flags as it finds them. *)
Definition withFlags (s : St) : RunState :=
  if wBroker then pollControls (wTicks (stW s)) (stRS s) else stRS s.

Definition appendTo (ty path : string) (j : json) (s : St) : option goError * St :=
  let '(e, l) := appendEvent ty path j (stLog s) in (EEng <$> e, setLog l s).
Definition syncLog (ty path : string) (s : St) : option goError * St :=
  let '(e, l) := logSync (stLog s) in ((λ e, EEng (SyncFailed ty path e)) <$> e, setLog l s).
(** Append, then fsync. *)
Definition appendSynced (ty path : string) (j : json) (s : St) : option goError * St :=
  match appendTo ty path j s with (Some e, s) => (Some e, s) | (None, s) => syncLog ty path s end.

(** A handler of the commit protocol. *)
Definition liftH {A} (h : handler L B A) (s : St) : res engErr A * St :=
  let '(r, (l, b)) := h (stLog s, stBlobs s) in (r, MkSt l b (stRS s) (stW s)).

Definition failStep (path : string) (outcome : Outcome) (cause : goError) (s : St) : Result * St :=
  match appendSynced EventNodeFailed path (NodeFailedData_json (MkNodeFailedData outcome (xErrText cause))) s with
  | (Some e, s) => (internal e, s)
  | (None, s) => ((outcome, Some cause), s)
  end.

(** Best-effort: its error is dropped. *)
Definition appendNodeStarted (path kind : string) (s : St) : St :=
  (appendTo EventNodeStarted path (NodeStartedData_json (MkNodeStartedData kind)) s).2.

Definition appendNodeSkipped (path reason : string) (s : St) : option goError * St :=
  appendTo EventNodeSkipped path (NodeSkippedData_json (MkNodeSkippedData path reason)) s.

(** ** Code steps *)

Variable ic : Ictx.

(** [ictx.scope(path)]. *)
Definition scopeAt (rs : RunState) (path : string) : Scope := callContextScope rs (icWf ic) path (icFrame ic).

(** An error before the dispatch: the step fails, or the run does. *)
Inductive prepErr : Type := PFail (e : goError) | PInternal (e : goError).
Definition failing {A} (r : res goError A) : res prepErr A := res_map_err PFail r.
(** An unreadable artifact is an internal error. *)
Definition failingFile {A} (fmt : string) (path : string) (wrap : goError → goError) (r : res fileErr A) : res prepErr A :=
  res_map_err (λ e, if feFetch e then PInternal (EWrap fmt [path] (EFile e)) else PFail (wrap (EFile e))) r.

(** Everything runCodeStepWithContext does before it provisions and dispatches: no state changes. *)
Definition prepareCodeStep (rs : RunState) (b : B) (cs : CodeStep) (path : string)
    : res prepErr (NodeIntent * Policy * list string) :=
  let scope := scopeAt rs path in
  let? command := failing (res_map_err ETmpl (Substitute (Resolve scope) (csRun cs))) in
  let? idemKey := (match csIdempotencyKey cs with
                   | None => Ok ""
                   | Some k => failing (res_map_err ETmpl (Substitute (Resolve scope) k))
                   end) in
  let? policy := res_map_err (λ name, PInternal (EErrf "engine.Run: build retry policy at path %q: %w" [path; name]))
                   (Merge CodeDefault (csRetry cs)) in
  let? entries := failingFile "engine.Run: stage input_files at %q: %w" path id
                    (resolveInputFileEntries xJcs (blobsGet b) scope (icWf ic) (icModuleID ic) (rsAssets rs) (csInputFiles cs)) in
  let? entries := failing (res_map_err EFile (inputFilesFromResolvedEntries entries)) in
  let? (outputFiles, contracts) :=
    failingFile "engine.Run: resolve output_files contracts at %q: %w" path
      (EWrap "engine.Run: substitute output_files at %q: %w" [path])
      (resolveOutputFiles compileError (blobsGet b) (icModuleID ic) (rsAssets rs) (Resolve scope) (csOutputFiles cs)) in
  let snapshot := match default ∅ (wfContainers (icWf ic)) !! (SplitContainerRef (csContainer cs)).1 with
                  | Some c => coSnapshot c | None => "" end in
  let wall := default 0%Z (t ← csTimeout cs; toWall t) in
  let idle := default 0%Z (t ← csTimeout cs; toIdle t) in
  Ok (MkIntent path (NCode cs)
        (MkInputs command (icRunEnv ic) outputFiles contracts (csOutputSchema cs) (NonRetryableExitCodes policy)
           wall idle (map rifFile entries) snapshot noAgent) idemKey 0 false false zeroRunContext,
      policy, inputFileRefsFromResolvedEntries entries).

(** [dr.Node], [dr.InputRefs] set. *)
Definition withKeyInputs (n : Node) (refs : list string) (dr : DispatchResult) : DispatchResult :=
  MkDispatch (drOutcome dr) (drExitCode dr) (drOutputs dr) (drStdout dr) (drFiles dr) (drErr dr) (drRetryAfter dr)
    (drMetrics dr) (drTranscript dr) (drLive dr) (drSnapshotRef dr) (drContainer dr) (drSessionTranscript dr)
    (drSessionRef dr) (Some n) refs (drAgentEvents dr).

(** From node.started to the commit. *)
Definition dispatchCodeStep (cx : Context_) (handle : LocalDispatcher) (cs : CodeStep) (path : string)
    (intent : NodeIntent) (policy : Policy) (refs : list string) (s : St) : Result * St :=
  let s := appendNodeStarted path "code" s in
  let '((dr, runErr), (l, w)) := RunWithRetry None cx handle intent policy (stLog s, stW s) in
  let s := setLog l (setW w s) in
  match runErr with
  | Some e =>
      if String.eqb (drOutcome dr) "" then (internal (EWrap "engine.Run: dispatch at path %q: %w" [path] e), s)
      else failStep path (drOutcome dr) e s
  | None =>
      if negb (String.eqb (drOutcome dr) OutcomeOK)
      then failStep path (drOutcome dr) (EErrf "step did not commit (no underlying error reported)" []) s
      else
        match liftH (Commit xJcs path (withKeyInputs (NCode cs) refs dr) false) s with
        | (Err e, s) => (internal (EWrap "engine.Run: commit at path %q: %w" [path] (EEng e)), s)
        | (Ok nr, s) => (okResult, setRS (RecordCompleted path nr (stRS s)) s)
        end
  end.

Definition runCodeStep (cx : Context_) (cs : CodeStep) (path : string) (s : St) : Result * St :=
  match LookupCompleted (stRS s) path with
  | Some _ => (okResult, s)
  | None =>
      match prepareCodeStep (stRS s) (stBlobs s) cs path with
      | Err (PFail e) => failStep path OutcomePermanentFailure e s
      | Err (PInternal e) => (internal e, s)
      | Ok (intent, policy, refs) =>
          if String.eqb (csContainer cs) "" && wLocal then
            match wCreate cx (hostWorkspaceSpec path) (stW s) with
            | (Err e, w) => (internal (EWrap "engine.Run: create per-step host workspace at %q: %w" [path] e), setW w s)
            | (Ok h, w) =>
                let '(r, s) := dispatchCodeStep cx (WithRawHandle (BareRunHandleKey path) h (icDispatcher ic)) cs path intent policy refs (setW w s) in
                (r, setW (wDestroy h (stW s)).2 s)
            end
          else dispatchCodeStep cx (icDispatcher ic) cs path intent policy refs s
      end
  end.

(** ** Signal steps *)

(** The first JSON value of a payload with json.Number numbers, decoded into a map: what follows an
    object is not read. *)
Definition decodePayload (payload : string) : option gomap :=
  match parse_value (S (slen payload)) payload with
  | Some (JObj l, _) => match useNumber (JObj l) with VMap m => Some (Some m) | _ => None end
  | Some (JNull, rest) =>
      if match rest with "" => true | String c _ => isWs c end then Some None else None
  | _ => None
  end.

(** The expression is parsed once; references other than signal.* must resolve now. *)
Definition buildWherePredicateWithScope (where_ : string) (engineScope : Ref → res goerr value)
    : res goError (string → res goError bool) :=
  match ParseExpr (UnwrapEnvelope where_) with
  | Err e => Err (EWrap "parse where expression %q: %w" [where_] (ETmpl (GSyntax e)))
  | Ok expr =>
      let? _ := res_mapM (λ ref, if isSignalRootRef ref then Ok VNil
                                 else res_map_err (λ e, EWrap "resolve outer ref: %w" [] (ETmpl e)) (engineScope ref))
                  (References expr) in
      Ok (λ payload, match decodePayload payload with
                     | None => Err (EErrf "where: signal payload is not a JSON object: %w" [])
                     | Some obj => res_map_err ETmpl (EvalBool (signalResolve obj engineScope) expr)
                     end)
  end.

(** Step 7b: the completion, whose outputs are the payload. *)
Definition completeSignal (path payloadRef : string) (typedOutputs : gomap) (s : St) : Result * St :=
  let d := MkNodeCompletedData OutcomeOK None payloadRef "" ∅ None "" "" "" "" "" "" in
  match liftH (appendNodeCompleted path d) s with
  | (Err e, s) => (internal (EWrap "engine.runSignalStep: %w" [] (EEng e)), s)
  | (Ok _, s) =>
      (okResult, setRS (RecordCompleted path
         (MkNodeResult OutcomeOK None typedOutputs payloadRef "" "" ∅ zeroTurn "" "") (stRS s)) s)
  end.

(** Step 3: signal.received was committed by an earlier run. *)
Definition resumeSignal (ss : SignalStep) (path : string) (entry : SignalReceivedEntry) (s : St) : Result * St :=
  let ref := srePayloadRef entry in
  match (if String.eqb ref "" then None else ssOutputSchema ss) with
  | None => completeSignal path ref None s
  | Some schema =>
      match blobsGet (stBlobs s) ref with
      | Err _ => (internal (EErrf "engine.runSignalStep: read half-commit payload at %q: %w" [path]), s)
      | Ok raw =>
          match ValidateAgainstSchema raw schema with
          | Err m => (internal (EMsg (EmWrap "engine.runSignalStep: half-commit payload re-validation at %q: %w" [path] m)), s)
          | Ok m => completeSignal path ref (Some m) s
          end
      end
  end.

(** Step 6: the reference of the payload, "" for none. *)
Definition putPayload (path : string) (typed : gomap) (payload : string) : handler L B string :=
  match typed with
  | Some m => match Marshal (VMap m) with
              | None => hfail (MarshalFailed "canonical payload" path)
              | Some bytes => hput "payload" path bytes
              end
  | None => putNonEmpty "payload" path payload
  end.

(** Steps 5 to 7: a delivered signal. *)
Definition commitSignal (ss : SignalStep) (path : string) (d : Delivery) (s : St) : Result * St :=
  let typed := match ssOutputSchema ss with
               | None => Ok None
               | Some schema => res_map Some (ValidateAgainstSchema (dlPayload d) schema)
               end in
  match typed with
  | Err m => failStep path OutcomeRetryableFailure
               (EMsg (EmWrap "signal %q payload failed output_schema validation: %w" [ssAwait ss] m)) s
  | Ok typed =>
      match liftH (putPayload path typed (dlPayload d)) s with
      | (Err e, s) => (internal (EEng e), s)
      | (Ok ref, s) =>
          match appendSynced EventSignalReceived path
                  (SignalReceivedData_json (MkSignalReceivedData (ssAwait ss) (dlSeq d) ref)) s with
          | (Some e, s) => (internal e, s)
          | (None, s) =>
              let rs := RecordSignalReceivedAt path (MkReceived (dlSeq d) ref)
                          (AppendSignal (ssAwait ss) (MkSignal (dlSeq d) ref) (stRS s)) in
              completeSignal path ref typed (setRS rs s)
          end
      end
  end.

(** The error of a wait. *)
Definition signalWaitFailed (ss : SignalStep) (path : string) (timeout : Z) (e : recvErr string) (s : St) : Result * St :=
  match e with
  | RDeadline => failStep path OutcomeRetryableFailure (EErrf "signal %q await timeout (%s)" [ssAwait ss; Itoa timeout]) s
  | _ =>
      let rs := withFlags s in
      let s := setRS rs s in
      let cause := ECtx (match e with ROther t => t | _ => "context canceled" end) in
      if IsCancelled rs || match LookupPaused rs with Some _ => true | None => false end then (internal cause, s)
      else match e with
           | RCanceled => failStep path OutcomeRetryableFailure (EWrap "signal %q await: %w" [ssAwait ss] cause) s
           | _ => (internal (EWrap "engine.runSignalStep: signal %q broker: %w" [ssAwait ss] cause), s)
           end
  end.

Definition runSignalStep (cx : Context_) (ss : SignalStep) (path : string) (s : St) : Result * St :=
  match LookupCompleted (stRS s) path with
  | Some _ => (okResult, s)
  | None =>
      if negb wBroker then (internal (EErrf "engine.runSignalStep: signal step %q reached but engine.Run was called with nil *signal.Broker" [path]), s)
      else match LookupSignalReceivedAt (stRS s) path with
      | Some entry => resumeSignal ss path entry s
      | None =>
          let s := appendNodeStarted path "signal" s in
          let timeout := default 0%Z (ssTimeout ss) in
          let predicate := if String.eqb (ssWhere ss) "" then Ok None
                           else res_map Some (buildWherePredicateWithScope (ssWhere ss) (Resolve (scopeAt (stRS s) path))) in
          match predicate with
          | Err e => failStep path OutcomePermanentFailure (EWrap "signal %q where: %w" [ssAwait ss] e) s
          | Ok match_ =>
              match wReceive cx (ssAwait ss) timeout match_ (stW s) with
              | (Err e, w) => signalWaitFailed ss path timeout e (setW w s)
              | (Ok d, w) => commitSignal ss path d (setW w s)
              end
          end
      end
  end.
End steps.
