(* ===== verification/Skills.v ===== *)
(** * engine/skills.go: the skills of an agent step

    The corpus of a library is built from the assets that run.started recorded; the selection is journaled
    before the step is dispatched, and a resumed run takes the recorded one, if the corpus and the router
    are the same. *)

From S2P Require Import Prelude GoNum Sort GoJson GoStruct Signal TmplLexer TmplParser TmplSlots TmplEval RetryPolicy.
From S2P Require Import EnginePath GoPath StateBlobs StateLog EngineEvents Ir RunState EngineFold Journal SkillRoute Commit Scope Artifacts Containers RetryLoop Steps.

(** [math.Log]. *)
Class MathLog : Type := { math_log : f64 → f64 }.

(** *** The corpus *)

(** A failure of the corpus: unreadable, or a mistake of the author.  The issues of an invalid corpus are
    the text of the error. *)
Definition issuesErr (issues : list Issue) : EvalMsg := EmFmt "skillroute: invalid corpus" (map isMessage issues).

Section corpus.
Context `{Unicode} (get : string → res blobErr string).

Fixpoint readAssetFiles (files : list RunStartedAssetFile) : res fileErr (list File) :=
  match files with
  | [] => Ok []
  | f :: files => let? b := readRunStartedAssetFile get f in
                  let? fs := readAssetFiles files in Ok (MkFile (afPath f) b :: fs)
  end.

Definition buildSkillCorpus (id : string) (wf : Workflow) (moduleID : string) (assets : gmap string RunStartedAsset) : res fileErr Corpus :=
  match wfSkills wf !! id with
  | None => fails (EmFmt "skill library %q is not declared" [id])
  | Some def =>
      match ParseAssetRef (skcFrom def) with
      | None => fails (EmFmt "skill library %q from %q must be an asset ref" [id; skcFrom def])
      | Some assetID =>
          let key := QualifiedAssetKey moduleID assetID in
          match assets !! key with
          | None => fetchFails (EmFmt "%w: skill library %q asset %q was not recorded in run.started" [id; key])
          | Some asset =>
              if negb (raIsDir asset) then fetchFails (EmFmt "%w: skill library %q asset %q must be a directory" [id; key])
              else let? files := readAssetFiles (raFiles asset) in
                   match NewCorpus files with
                   | inl issues => fails (issuesErr issues)
                   | inr c => Ok c
                   end
          end
      end
  end.
End corpus.

(** *** The record *)

Definition skillsSelectedMetadata (id : string) (c : Corpus) : SkillsSelectedData :=
  MkSkillsSelectedData id (cpDigest c) RouterName RouterVersion RouterParams [].

(** reflect.DeepEqual on the parameters. *)
Definition sameParams (a b : gmap string f64) : bool :=
  (size a =? size b)%nat
  && forallb (λ kv : string * f64, match b !! kv.1 with Some y => f64_eqb kv.2 y | None => false end) (map_to_list a).
Definition sameSkillsSelectedMetadata (a b : SkillsSelectedData) : bool :=
  String.eqb (ssLibrary a) (ssLibrary b) && String.eqb (ssLibraryDigest a) (ssLibraryDigest b)
  && String.eqb (ssRouter a) (ssRouter b) && String.eqb (ssRouterVersion a) (ssRouterVersion b)
  && sameParams (ssRouterParams a) (ssRouterParams b).

(** What is wrong with a recorded selection. *)
Inductive selectionErr : Type := SelectionInvalid (e : skillsErr) | SelectionUnknown (id : string).
Definition validateRecordedSelectedSkills (selected : list SelectedSkill) (c : Corpus) : option selectionErr :=
  match validateSelectedSkillsEventLocal selected with
  | Err e => Some (SelectionInvalid e)
  | Ok _ => SelectionUnknown ∘ skID <$> List.find (λ s, negb (mem (skID s) (SkillIDs c))) selected
  end.
Definition selectionMsg (e : selectionErr) : goError :=
  match e with
  | SelectionInvalid _ => EErrf "engine: invalid skills.selected selection" []
  | SelectionUnknown id => EErrf "%w: selected id %q is not in the current corpus" [id]
  end.

Section select.
Context `{Log L} `{Blobs B} `{World W} `{Externals} `{Unicode} `{MathLog}.
#[local] Notation St := (St L B W).
Variable ic : Ictx.

(** Append, then fsync. *)
Definition appendSkillsSelected (path : string) (d : SkillsSelectedData) (s : St) : option goError * St :=
  appendSynced EventSkillsSelected path (SkillsSelectedData_json d) s.

Definition selectedOf (l : list Selection) : list SelectedSkill := map (λ s, MkSelectedSkill (selID s) (selScore s)) l.

(** [as.Skills] is [sk]; the scope is that of the step. *)
Definition selectAgentStepSkills (sk : StepSkillRouting) (path : string) (s : St) : res prepErr (SkillsSelectedData * Corpus) * St :=
  let rs := stRS s in
  match buildSkillCorpus (blobsGet (stBlobs s)) (srtFrom sk) (icWf ic) (icModuleID ic) (rsAssets rs) with
  | Err e => (Err (if feFetch e then PInternal (EFile e) else PFail (EFile e)), s)
  | Ok corpus =>
      let current := skillsSelectedMetadata (srtFrom sk) corpus in
      match LookupSelectedSkills rs path with
      | Some recorded =>
          if negb (sameSkillsSelectedMetadata recorded current)
          then (Err (PInternal (EErrf "%w at path %q" [path])), s)
          else match validateRecordedSelectedSkills (ssSelected recorded) corpus with
               | Some e => (Err (PInternal (selectionMsg e)), s)
               | None => (Ok (recorded, corpus), s)
               end
      | None =>
          match Substitute (Resolve (scopeAt ic rs path)) (srtQuery sk) with
          | Err e => (Err (PFail (ETmpl e)), s)
          | Ok query =>
              match Route math_log corpus query (srtLimit sk) with
              | [] => (Err (PFail (EErrf "engine: no skills matched library %q query" [srtFrom sk])), s)
              | selections =>
                  let d := MkSkillsSelectedData (srtFrom sk) (cpDigest corpus) RouterName RouterVersion RouterParams (selectedOf selections) in
                  match appendSkillsSelected path d s with
                  | (Some e, s) => (Err (PInternal e), s)
                  | (None, s) => (Ok (d, corpus), setRS (RecordSelectedSkills path d (stRS s)) s)
                  end
              end
          end
      end
  end.
End select.

(** *** Staging *)

Section staging.
Variables (library into : string) (c : Corpus).

Fixpoint stagedFiles (id source : string) (files : list File) : res fileErr (list resolvedInputFile) :=
  match files with
  | [] => Ok []
  | f :: files =>
      if negb (String.prefix "/" (flPath f)) || negb (String.eqb (flPath f) (Clean (flPath f)))
      then fails (EmFmt "skills[%s]: staged destination %q must be an absolute, clean path" [id; flPath f])
      else let? l := stagedFiles id source files in Ok (MkResolved (MkInputFile (flPath f) (flContent f)) source "" :: l)
  end.
Fixpoint selectedFiles (selected : list SelectedSkill) : res fileErr (list resolvedInputFile) :=
  match selected with
  | [] => Ok []
  | s :: selected =>
      match StageFiles c (skID s) into with
      | None => fails (EmFmt "%w: selected id %q is not in the current corpus" [skID s])
      | Some files =>
          let? l := stagedFiles (skID s) ("skills." +:+ library +:+ "." +:+ skID s) files in
          let? ls := selectedFiles selected in Ok (l ++ ls)
      end
  end.
End staging.
Definition resolveSelectedSkillFiles (d : SkillsSelectedData) (c : Corpus) (into : string) : res fileErr (list resolvedInputFile) :=
  selectedFiles (ssLibrary d) into c (ssSelected d).
