(* ===== verification/Contracts.v ===== *)
(** * engine/artifact_contract.go, engine/schema.go: contracts of files and typed outputs

    A captured or staged file is checked against its contract: one JSON value, or one per line. *)

From S2P Require Import Prelude GoNum GoJson GoStruct TmplEval GoPath EngineEvents Ir Journal Commit Artifacts RetryLoop Steps.

Section contracts.
Context `{Externals}.

(** ** schema.go *)

(** Without a schema the text must only be one JSON value. *)
Definition validateJSON (raw : string) (schema : option JSONSchema) : option EvalMsg :=
  match schema with
  | Some schema => match ValidateJSONAgainstSchema raw schema with Ok _ => None | Err m => Some m end
  | None =>
      if String.eqb raw "" then Some (EmFmt "ValidateAgainstSchema: empty input" [])
      else match j ← json_parse raw; Unmarshal_any j with
           | None => Some (EmFmt "ValidateAgainstSchema: decode: %w" [])
           | Some _ => None
           end
  end.

(** The outputs and the schema are validated as their JSON reads. *)
Definition ValidateOutputMap (output : gomap) (schema : option JSONSchema) : option EvalMsg :=
  match schema with
  | None => None
  | Some schema =>
      match Marshal (VMap schema) with
      | None => Some (EmFmt "engine.ValidateOutputMap: marshal schema: %w" [])
      | Some sb =>
          match j ← json_parse sb; Unmarshal_any j with
          | Some (VMap normalised) =>
              match (match output with Some m => Marshal (VMap m) | None => Some "null" end) with
              | None => Some (EmFmt "engine.ValidateOutputMap: marshal output map: %w" [])
              | Some b => validateJSON b (Some normalised)
              end
          | _ => Some (EmFmt "engine.ValidateOutputMap: unmarshal schema: %w" [])
          end
      end
  end.

(** ** artifact_contract.go *)

(** [ReadBytes('\n')] without the newline: the last line is there only if it is not empty. *)
Fixpoint splitLines (cur s : string) : list string :=
  match s with
  | "" => if String.eqb cur "" then [] else [cur]
  | String c s => if Ascii.eqb c (ascii_of_nat 10) then cur :: splitLines "" s else splitLines (cur +:+ String c "") s
  end.

Fixpoint validateLines (path : string) (schema : option JSONSchema) (n : Z) (lines : list string) : option EvalMsg :=
  match lines with
  | [] => None
  | line :: lines =>
      if String.eqb (TrimSpace line) "" then Some (EmFmt "artifact contract %s: jsonl line %d: blank lines are invalid" [path; Itoa n])
      else match validateJSON line schema with
           | Some m => Some (EmWrap "artifact contract %s: jsonl line %d: %w" [path; Itoa n] m)
           | None => validateLines path schema (n + 1) lines
           end
  end.
Definition validateJSONLArtifact (path content : string) (c : OutputFileContract) : option EvalMsg :=
  let lines := splitLines "" content in
  match validateLines path (ofcSchema c) 1 lines with
  | Some m => Some m
  | None => match lines with
            | [] => Some (EmFmt "artifact contract %s: jsonl: empty files are invalid" [path])
            | _ => None
            end
  end.

Definition ValidateArtifactContract (path content : string) (c : OutputFileContract) : option EvalMsg :=
  if String.eqb (ofcFormat c) "" && match ofcSchema c with None => true | Some _ => false end then None
  else if String.eqb (ofcFormat c) "json" then
    match validateJSON content (ofcSchema c) with
    | Some m => Some (EmWrap "artifact contract %s: json: %w" [path] m)
    | None => None
    end
  else if String.eqb (ofcFormat c) "jsonl" then validateJSONLArtifact path content c
  else Some (EmFmt "artifact contract %s: unsupported format %q" [path; ofcFormat c]).

(** The first captured file that breaks its contract. *)
Fixpoint validateCapturedArtifacts (files : list CapturedFile) (contracts : gmap string OutputFileContract) : option EvalMsg :=
  match files with
  | [] => None
  | f :: files =>
      match (c ← contracts !! cfPath f; ValidateArtifactContract (cfPath f) (cfContent f) c) with
      | Some m => Some m
      | None => validateCapturedArtifacts files contracts
      end
  end.
End contracts.

Example jsonl_ex `{Externals} :
  let nl := String (ascii_of_nat 10) "" in
  let c := MkOutputContract "jsonl" None in
  validateJSONLArtifact "f" ("{}" +:+ nl +:+ "1") c = None ∧
  validateJSONLArtifact "f" ("{}" +:+ nl +:+ " " +:+ nl) c = Some (EmFmt "artifact contract %s: jsonl line %d: blank lines are invalid" ["f"; "2"]) ∧
  validateJSONLArtifact "f" "" c = Some (EmFmt "artifact contract %s: jsonl: empty files are invalid" ["f"]).
Proof. vm_compute. done. Qed.
