(* ===== verification/Dispatch.v ===== *)
(** * engine/local_dispatcher.go, engine/awf_output.go, engine/outcome.go: one attempt of a code step

    [Run] and [runCode] over a container backend: staging, the environment, the command, the captured
    files, $AWF_OUTPUT and its schema, the snapshot.  The backend is a parameter (its documented contract
    is [BackendLaws]); so is the launch of an agent.  The chunks of the live tap are not modelled. *)

From S2P Require Import Prelude GoNum Sort GoJson GoStruct TmplEval RetryPolicy EnginePath GoPath StateBlobs StateLog EngineEvents RunState.
From S2P Require Import EngineFold Journal Ir Commit Scope Artifacts Containers RetryLoop Steps Contracts.

(** ** container/backend.go *)

Record Cmd : Type := MkCmd { cmRun : string; cmEnv : gmap string string }.
(** [AWFOutput] is nil where the backend does not read it. *)
Record ExecResult : Type := MkExec { exExitCode : Z; exAWFOutput : option string; exStdout : string; exErr : option goError }.

(** The backend as the dispatcher sees it.  [bkExec]: Exec, its chunks drained, and its result.
    [bkTerminal]: errors.Is with ErrSnapshotTooLarge or ErrUnsupported.  [bkWriteTreeAt], [bkReadTreeAt]: a
    subtree as an archive.  [bkResolveWorkdirPath]: None when it is no container.WorkdirResolver. *)
Class Backend (W : Type) : Type := {
  bkOutputRoot : string;
  bkStagingRoot : string;
  bkResolveWorkdirPath : option (Handle → string → string);
  bkWriteTreeAt : Context_ → Handle → string → string → W → option goError * W;
  bkReadTreeAt : StepContext → Handle → string → W → res goError string * W;
  bkCopyTo : Context_ → Handle → list InputFile → W → option goError * W;
  bkExec : StepContext → Handle → Cmd → W → res goError ExecResult * W;
  bkCaptureFiles : StepContext → Handle → list string → W → res goError (list CapturedFile) * W;
  bkSnapshot : StepContext → Handle → W → res goError string * W;
  bkTerminal : goError → bool
}.
(** One captured file per path, in the order of the paths. *)
Class BackendLaws (W : Type) `{Backend W} : Prop := {
  capture_each cx h paths w files w' : bkCaptureFiles cx h paths w = (Ok files, w') → map cfPath files = paths
}.

(** ** awf_output.go *)

Definition sanitizeByte (c : ascii) : ascii :=
  let n := nat_of_ascii c in
  if ((97 <=? n) && (n <=? 122) || (65 <=? n) && (n <=? 90) || (48 <=? n) && (n <=? 57) || (n =? 95) || (n =? 45))%nat then c else "_"%char.
(** One underscore for a rune of several bytes. *)
Fixpoint sanitizeForFilename (s : string) : string :=
  match s with
  | "" => ""
  | String c r =>
      match utf8_span s with
      | Some 2%nat => String "_" (match r with String _ r1 => sanitizeForFilename r1 | _ => "" end)
      | Some 3%nat => String "_" (match r with String _ (String _ r2) => sanitizeForFilename r2 | _ => "" end)
      | Some 4%nat => String "_" (match r with String _ (String _ (String _ r3)) => sanitizeForFilename r3 | _ => "" end)
      | _ => String (sanitizeByte c) (sanitizeForFilename r)
      end
  end.
Definition awfOutputTempPath (outputRoot nodePath : string) : string :=
  outputRoot +:+ "/" +:+ sanitizeForFilename nodePath +:+ ".json".

(** ** runCode *)

Section dispatch.
Context `{Backend W} `{Externals}.

(** The error a result carries: its text, and whether it is a live-replay error. *)
Fixpoint liveReplay (e : goError) : bool := match e with EDisp d => deLiveReplay d | EWrap _ _ e => liveReplay e | _ => false end.
Definition asDisp (e : goError) : dispErr := match e with EDisp d => d | _ => MkDispErr (xErrText e) (liveReplay e) end.

(** A failed attempt: an outcome with its cause, after the exec also the exit code and the output. *)
Definition failedResult (oc : Outcome) (exit : option Z) (stdout : string) (e : goError) : DispatchResult :=
  MkDispatch oc exit None stdout [] (Some (asDisp e)) 0 None zeroTurn None "" "" "" "" None [] [].

Definition codeHandleKey (d : LocalDispatcher) (cs : CodeStep) (path : string) : string :=
  let bare := (SplitContainerRef (csContainer cs)).1 in
  if String.eqb bare "" then BareRunHandleKey path else QualifiedContainerKey (dpRuntimeParent d) bare.
Definition codeHandle (d : LocalDispatcher) (cs : CodeStep) (path : string) : option Handle :=
  let svc := (SplitContainerRef (csContainer cs)).2 in
  (λ h, if String.eqb svc "" then h else withService svc h) <$> dpHandles d !! codeHandleKey d cs path.

Definition stageInputFiles (cx : Context_) (h : Handle) (files : list InputFile) (path : string) (w : W) : option goError * W :=
  match files with
  | [] => (None, w)
  | _ => match bkCopyTo cx h files w with
         | (Some e, w) => (Some (EWrap "engine.LocalDispatcher: stage input_files at %q: %w" [path] e), w)
         | (None, w) => (None, w)
         end
  end.

Definition codeContext (cx : Context_) (ri : ResolvedInputs) : StepContext :=
  MkStepCtx cx (Z.max 0 (riTimeout ri)) (Z.max 0 (riIdleTimeout ri)).

Definition codeCmd (i : NodeIntent) : Cmd :=
  let ri := niInputs i in
  let env := if String.eqb (niIdempotencyKey i) "" then riEnv ri else <["AWF_IDEMPOTENCY_KEY" := niIdempotencyKey i]> (riEnv ri) in
  MkCmd (riCommand ri)
    (match riOutputSchema ri with Some _ => <["AWF_OUTPUT" := awfOutputTempPath bkOutputRoot (niPath i)]> env | None => env end).

(** $AWF_OUTPUT is read back when the backend has not read it. *)
Definition captureAWFOutput (ri : ResolvedInputs) (ex : ExecResult) : bool :=
  match exAWFOutput ex with None => true | Some _ => false end
  && match riOutputSchema ri with Some _ => true | None => false end && (exExitCode ex =? 0)%Z.

(** The captured files and the bytes of $AWF_OUTPUT. *)
Definition captureOutputs (sc : StepContext) (h : Handle) (i : NodeIntent) (ex : ExecResult) (w : W)
    : res goError (list CapturedFile * string) * W :=
  let ri := niInputs i in
  let awf := captureAWFOutput ri ex in
  let outputPath := awfOutputTempPath bkOutputRoot (niPath i) in
  let paths := if awf then outputPath :: riOutputFiles ri else riOutputFiles ri in
  let given := default "" (exAWFOutput ex) in
  if (exExitCode ex =? 0)%Z && match paths with [] => false | _ => true end then
    match bkCaptureFiles sc h paths w with
    | (Err e, w) =>
        (Err (if awf && match riOutputFiles ri with [] => true | _ => false end
              then EWrap "code step %q declares output_schema but did not write $AWF_OUTPUT (%s): %w" [niPath i; outputPath] e else e), w)
    | (Ok files, w) =>
        (Ok (if awf then match files with f :: files => (files, cfContent f) | [] => ([], given) end else (files, given)), w)
    end
  else (Ok ([], given), w).

(** The outcome of a command that ran, its files captured. *)
Definition codeResult (ri : ResolvedInputs) (key : string) (ex : ExecResult) (files : list CapturedFile) (awf : string) : DispatchResult :=
  let parsed := match riOutputSchema ri with None => Ok None | Some sch => res_map Some (ValidateAgainstSchema awf sch) end in
  let outputs := match parsed with Ok o => o | Err _ => None end in
  let parseErr := match parsed with Ok _ => None | Err m => Some (EMsg m) end in
  let oc := ClassifyOutcome (exExitCode ex) (match parseErr with Some _ => true | None => false end) false (riNonRetryableExitCodes ri) in
  let exited := Itoa (exExitCode ex) in
  let e := if negb (exExitCode ex =? 0)%Z || String.eqb oc OutcomePermanentFailure
           then Some (match parseErr with
                      | Some e => EWrap "process exited with code %d: %w" [exited] e
                      | None => EErrf "process exited with code %d" [exited]
                      end)
           else parseErr in
  MkDispatch oc (Some (exExitCode ex)) outputs (exStdout ex) files (asDisp <$> e) 0 None zeroTurn None ""
    (if String.eqb oc OutcomeOK then key else "") "" "" None [] [].

Definition snapshotFailureOutcome (e : goError) : Outcome := if bkTerminal e then OutcomePermanentFailure else OutcomeRetryableFailure.
Definition withSnapshot (ref : string) (dr : DispatchResult) : DispatchResult :=
  MkDispatch (drOutcome dr) (drExitCode dr) (drOutputs dr) (drStdout dr) (drFiles dr) (drErr dr) (drRetryAfter dr) (drMetrics dr)
    (drTranscript dr) (drLive dr) ref (drContainer dr) (drSessionTranscript dr) (drSessionRef dr) (drNode dr) (drInputRefs dr)
    (drAgentEvents dr).

(** The snapshot of an ok step. *)
Definition snapshotStep (sc : StepContext) (h : Handle) (i : NodeIntent) (key : string) (ex : ExecResult) (dr : DispatchResult) (w : W)
    : DispatchResult * W :=
  if String.eqb (drOutcome dr) OutcomeOK && String.eqb (riSnapshot (niInputs i)) "workspace" then
    match bkSnapshot sc h w with
    | (Err e, w) => (failedResult (snapshotFailureOutcome e) (Some (exExitCode ex)) (exStdout ex)
                       (EWrap "engine.LocalDispatcher: snapshot %q at %q: %w" [key; niPath i] e), w)
    | (Ok ref, w) => (withSnapshot ref dr, w)
    end
  else (dr, w).

(** After the command: files, contracts, outputs, snapshot. *)
Definition finishCode (sc : StepContext) (h : Handle) (i : NodeIntent) (key : string) (ex : ExecResult) (w : W) : DispatchResult * W :=
  let ri := niInputs i in
  let failed e := failedResult OutcomeRetryableFailure (Some (exExitCode ex)) (exStdout ex) e in
  match captureOutputs sc h i ex w with
  | (Err e, w) => (failed e, w)
  | (Ok (files, awf), w) =>
      match validateCapturedArtifacts files (riOutputFileContracts ri) with
      | Some m => (failed (EMsg m), w)
      | None => snapshotStep sc h i key ex (codeResult ri key ex files awf) w
      end
  end.

Definition runCode (cx : Context_) (d : LocalDispatcher) (i : NodeIntent) (cs : CodeStep) (w : W) : (DispatchResult * option dispErr) * W :=
  let ri := niInputs i in
  let key := codeHandleKey d cs (niPath i) in
  match codeHandle d cs (niPath i) with
  | None => ((zeroDispatch, Some (asDisp (EErrf "engine.LocalDispatcher: no handle for container %q (bare name %q, key %q) at path %q (interpreter must Create before dispatch)"
                                            [csContainer cs; (SplitContainerRef (csContainer cs)).1; key; niPath i]))), w)
  | Some h =>
      match stageInputFiles cx h (riInputFiles ri) (niPath i) w with
      | (Some e, w) => ((failedResult OutcomeRetryableFailure None "" e, None), w)
      | (None, w) =>
          let sc := codeContext cx ri in
          let transport e := failedResult (ClassifyOutcome 0 false true (riNonRetryableExitCodes ri)) None "" e in
          match bkExec sc h (codeCmd i) w with
          | (Err e, w) => ((transport e, None), w)
          | (Ok ex, w) =>
              match exErr ex with
              | Some e => ((transport e, None), w)
              | None => let '(dr, w) := finishCode sc h i key ex w in ((dr, None), w)
              end
          end
      end
  end.

(** ** Run *)

(** [runAgent]. *)
Variable runAgent : Context_ → LocalDispatcher → NodeIntent → AgentStep → W → (DispatchResult * option dispErr) * W.

Definition Run (cx : Context_) (d : LocalDispatcher) (i : NodeIntent) (w : W) : (DispatchResult * option dispErr) * W :=
  match niNode i with
  | NCode cs => runCode cx d i cs w
  | NAgent v => runAgent cx d i v w
  | NSignal _ => ((zeroDispatch, Some (asDisp (EErrf "%w (path=%s)" [niPath i]))), w)
  | _ => ((zeroDispatch, Some (asDisp (EErrf "engine.LocalDispatcher: non-step node at path %q (control nodes don't reach the dispatcher — interpreter bug)" [niPath i]))), w)
  end.
End dispatch.
