(* ===== verification/AgentDispatch.v ===== *)
(** * engine/local_dispatcher_agent.go: one attempt of an agent step

    [runAgent] over an adapter, a container backend and the sink of live events: the guards, the container,
    the restored session, the staged files, the check of the configuration, the launch, the classification
    of its errors, the output and its schema, the files, the snapshot and the captured session.  The
    rendering of events on the live tap is left out. *)

From S2P Require Import Prelude GoNum Sort GoJson GoStruct TmplEval RetryPolicy EnginePath GoPath StateBlobs StateLog EngineEvents RunState.
From S2P Require Import EngineFold Journal Ir Agent Commit Scope Artifacts Containers RetryLoop Adapters Steps Contracts Dispatch.

(** The sink of an attempt, from the dispatcher's side: [skSend] is agentEventSink.send. *)
Class EventSink (W : Type) : Type := { skSend : AgentEvent → W → option goError * W }.

(** ** Classification *)

(** [wall]: the cause of the context is the engine's wall timeout. *)
Definition classifyAgentLaunchErr (wall : bool) (e : agentErr) : Outcome :=
  if wall && aeDeadline e then OutcomePermanentFailure
  else if aeNotFound e then OutcomePermanentFailure
  else if aeInvalidConfig e then OutcomePermanentFailure
  else if aePermissionDenied e then OutcomePermanentFailure
  else OutcomeRetryableFailure.
Definition agentRetryAfter (e : agentErr) : Z := default 0%Z (aeRetryAfter e).

Definition packFiles (files : list (string * string)) : list CapturedFile := map (λ kv, MkCaptured kv.1 kv.2) files.

Section agent.
Context `{HBk : Backend W} `{HE : Externals} `{HA : Adapters W} `{HS : EventSink W}.
(** [d.RunState.SessionRefs] and [d.Blobs.Get]. *)
Variables (sessionRefs : gmap string string) (getBlob : string → res blobErr string).

Definition agentDisp (e : agentErr) : dispErr := MkDispErr (xErrText (EMsg (aeMsg e))) (aeLiveReplay e).
Definition withEvents (events : list AgentEvent) (dr : DispatchResult) : DispatchResult :=
  MkDispatch (drOutcome dr) (drExitCode dr) (drOutputs dr) (drStdout dr) (drFiles dr) (drErr dr) (drRetryAfter dr) (drMetrics dr)
    (drTranscript dr) (drLive dr) (drSnapshotRef dr) (drContainer dr) (drSessionTranscript dr) (drSessionRef dr) (drNode dr)
    (drInputRefs dr) events.
(** A typed failure, with the outputs and the events so far. *)
Definition agentFailed (oc : Outcome) (exit : option Z) (outputs : gomap) (e : dispErr) (retryAfter : Z) (events : list AgentEvent) : DispatchResult :=
  MkDispatch oc exit outputs "" [] (Some e) retryAfter None zeroTurn None "" "" "" "" None [] events.
Definition rejectedBy (e : agentErr) : DispatchResult := agentFailed OutcomePermanentFailure None None (agentDisp e) 0 [].
Definition permanently (e : goError) : DispatchResult := agentFailed OutcomePermanentFailure None None (asDisp e) 0 [].

(** The drain: live events go to the sink, the others are kept; an error of the sink ends it.  (Without
    a sink the live events would be kept too; the engine gives every agent step one, agent_step.go.) *)
Fixpoint drain (events : list AgentEvent) (buf : list AgentEvent) (w : W) : (list AgentEvent * option goError) * W :=
  match events with
  | [] => ((buf, None), w)
  | ev :: events =>
      if evLive ev then
        match skSend ev w with
        | (Some e, w) => ((buf, Some e), w)
        | (None, w) => drain events buf w
        end
      else drain events (buf ++ [ev]) w
  end.

(** *** Before the launch *)

Definition agentHandleKey (d : LocalDispatcher) (v : AgentStep) : string := QualifiedContainerKey (dpRuntimeParent d) (SplitContainerRef (asContainer v)).1.

(** The guards on the capabilities; they are said again although the command line checks them. *)
Definition capsRefuse (ad : Adapter W) (i : NodeIntent) (bare : string) : option agentErr :=
  let g := riAgent (niInputs i) in
  let caps := adCaps ad in
  if String.eqb bare "" && negb (cpContainerless caps)
  then Some (ErrInvalidConfig (gaUses g) (EmFmt "agent runtime requires a container, but the step declares none" []))
  else if match gaThread g with [] => false | _ => true end && negb (cpThreaded caps)
  then Some (ErrInvalidConfig (gaUses g) (EmFmt "step %q uses continues: (engine-threaded), but adapter %q does not support Threaded conversations" [niPath i; gaUses g]))
  else if match gaContextEvidence g with [] => false | _ => true end && negb (cpContextEvidence caps)
  then Some (ErrInvalidConfig (gaUses g) (EmFmt "step %q uses evaluator context evidence, but adapter %q does not support ContextEvidence" [niPath i; gaUses g]))
  else if niIsGateEvaluate i && cpPersistentSession caps
  then Some (ErrInvalidConfig (gaUses g) (EmFmt "step %q is in gate.evaluate, but adapter %q declares PersistentSession" [niPath i; gaUses g]))
  else None.

(** The container: the zero handle for a step without one. *)
Definition agentHandle (d : LocalDispatcher) (v : AgentStep) (path : string) : res goError Handle :=
  let '(bare, svc) := SplitContainerRef (asContainer v) in
  if String.eqb bare "" then Ok zeroHandle
  else let key := QualifiedContainerKey (dpRuntimeParent d) bare in
       match dpHandles d !! key with
       | None => Err (EErrf "engine.LocalDispatcher.runAgent: no handle for container %q (bare %q, key %q) at path %q" [asContainer v; bare; key; path])
       | Some h => Ok (if String.eqb svc "" then h else withService svc h)
       end.

(** The committed session of the node is put back: whether there was one, or the failure.
    A blob that cannot be read is none of the two terminal errors. *)
Definition restoreSession (cx : Context_) (h : Handle) (i : NodeIntent) (w : W) : res DispatchResult bool * W :=
  let dir := gaSessionDir (riAgent (niInputs i)) in
  let ref := default "" (sessionRefs !! niPath i) in
  if String.eqb dir "" || String.eqb ref "" then (Ok false, w)
  else match getBlob ref with
       | Err e => (Err (agentFailed OutcomeRetryableFailure None None
                          (asDisp (EWrap "engine.LocalDispatcher.runAgent: get session blob %q for %q: %w" [ref; niPath i] (EEng (GetFailed "session" (niPath i) e)))) 0 []), w)
       | Ok bytes =>
           match bkWriteTreeAt cx h dir bytes w with
           | (Some e, w) => (Err (agentFailed (snapshotFailureOutcome e) None None
                                    (asDisp (EWrap "engine.LocalDispatcher.runAgent: restore session subtree at %q for %q: %w" [dir; niPath i] e)) 0 []), w)
           | (None, w) => (Ok true, w)
           end
       end.

(** Files in and out need a container. *)
Definition stageAgent (cx : Context_) (h : Handle) (i : NodeIntent) (bare : string) (w : W) : option DispatchResult * W :=
  let ri := niInputs i in
  if match riInputFiles ri with [] => false | _ => true end && String.eqb bare ""
  then (Some (permanently (EErrf "engine.LocalDispatcher.runAgent: input_files requires a container at %q" [niPath i])), w)
  else match stageInputFiles cx h (riInputFiles ri) (niPath i) w with
       | (Some e, w) => (Some (agentFailed OutcomeRetryableFailure None None (asDisp e) 0 []), w)
       | (None, w) =>
           (if match riOutputFiles ri with [] => false | _ => true end && String.eqb bare ""
            then Some (permanently (EErrf "engine.LocalDispatcher.runAgent: output_files requires a container at %q" [niPath i]))
            else None, w)
       end.

Definition validateWith (ad : Adapter W) (g : AgentInputs) : option agentErr :=
  match adValidateResolved ad, gaRoleWith g with
  | Some validate, Some _ => validate (gaRoleWith g) (gaWith g)
  | _, _ => adValidate ad (gaWith g)
  end.

(** The absolute configuration directory of the run, "" for none. *)
Definition sessionConfigDir (h : Handle) (i : NodeIntent) : res goError string :=
  let rel := gaSessionConfigDirRel (riAgent (niInputs i)) in
  if String.eqb rel "" then Ok ""
  else if IsAbs bkStagingRoot then Ok rel
  else match bkResolveWorkdirPath with
       | Some resolve => Ok (resolve h rel)
       | None => Err (EErrf "engine.LocalDispatcher.runAgent: cannot resolve absolute CLAUDE_CONFIG_DIR for %q: backend StagingRoot %q is relative but backend does not implement container.WorkdirResolver" [niPath i; bkStagingRoot])
       end.

Definition invocation (i : NodeIntent) (restored : bool) (configDir : string) : AgentInvocation :=
  let ri := niInputs i in
  let g := riAgent ri in
  MkInvocation (niPath i) (gaUses g) (niRunContext i) (gaWith g) (gaRoleWith g) (riOutputSchema ri) (niIdempotencyKey i) (gaFeedback g)
    (gaThread g) (gaContextEvidence g) (gaContainerlessFiles g) (niAttempt i) (niRecoveryContinue i) restored configDir (gaWorkflowDir g).

(** *** After the launch *)

(** output_artifact: the canonical JSON of the output among the files; a later key replaces an earlier one. *)
Definition withArtifact (name : string) (r : AgentResult) : option (list (string * string)) :=
  match (if String.eqb name "" then None else agOutput r) with
  | None => Some (agFiles r)
  | Some out => (λ blob, entry_set name blob (agFiles r)) <$> marshalCanonicalJSON (VMap out)
  end.

(** The declared files of the container, and their contracts. *)
Definition captureDeclared (sc : StepContext) (h : Handle) (ri : ResolvedInputs) (w : W) : res goError (list CapturedFile) * W :=
  match riOutputFiles ri with
  | [] => (Ok [], w)
  | paths => match bkCaptureFiles sc h paths w with
             | (Err e, w) => (Err e, w)
             | (Ok captured, w) =>
                 (match validateCapturedArtifacts captured (riOutputFileContracts ri) with Some m => Err (EMsg m) | None => Ok captured end, w)
             end
  end.

Definition liveRecord (l : LiveDispatch) : LiveDispatchRecord :=
  MkLive (lvAdapterRef l) (lvSessionKey l) (lvSessionKeyHash l) (lvLeaseID l) (lvActiveTurnID l) (lvProviderTurnID l) (lvRunID l)
    (lvNodePath l) (lvEpoch l) (lvCommittedUnix l).

(** The snapshot, then the session, of a result that is ok. *)
Definition captureState (sc : StepContext) (h : Handle) (i : NodeIntent) (key : string) (dr : DispatchResult) (w : W) : DispatchResult * W :=
  let failed e text := agentFailed (snapshotFailureOutcome e) (drExitCode dr) None (asDisp text) 0 (drAgentEvents dr) in
  let '(snap, w) := if String.eqb (riSnapshot (niInputs i)) "workspace" then bkSnapshot sc h w else (Ok "", w) in
  match snap with
  | Err e => (failed e (EWrap "engine.LocalDispatcher.runAgent: snapshot %q at %q: %w" [key; niPath i] e), w)
  | Ok ref =>
      let dr := withSnapshot ref dr in
      let dir := gaSessionDir (riAgent (niInputs i)) in
      if String.eqb dir "" then (dr, w)
      else match bkReadTreeAt sc h dir w with
           | (Err e, w) => (failed e (EWrap "engine.LocalDispatcher.runAgent: capture session %q at %q: %w" [key; niPath i] e), w)
           | (Ok bytes, w) =>
               (MkDispatch (drOutcome dr) (drExitCode dr) (drOutputs dr) (drStdout dr) (drFiles dr) (drErr dr) (drRetryAfter dr) (drMetrics dr)
                  (drTranscript dr) (drLive dr) (drSnapshotRef dr) (drContainer dr) bytes (drSessionRef dr) (drNode dr) (drInputRefs dr)
                  (drAgentEvents dr), w)
           end
  end.

(** A result the adapter delivered.  A direct error is one for which a live turn must be replayed. *)
Definition finishAgent (sc : StepContext) (h : Handle) (i : NodeIntent) (key : string) (r : AgentResult) (events : list AgentEvent) (w : W)
    : (DispatchResult * option dispErr) * W :=
  let ri := niInputs i in
  match (match riOutputSchema ri with None => None | Some _ => ValidateOutputMap (agOutput r) (riOutputSchema ri) end) with
  | Some _ =>
      match agLive r with
      | Some _ => ((withEvents events zeroDispatch, Some (agentDisp ErrLiveReplayRequired)), w)
      | None => ((agentFailed OutcomeRetryableFailure None (agOutput r) (agentDisp (ErrUnparseableOutput (niPath i))) 0 events, None), w)
      end
  | None =>
      match withArtifact (gaOutputArtifact (riAgent ri)) r with
      | None => ((permanently (EErrf "engine.LocalDispatcher.runAgent: marshal output_artifact at %q: %w" [niPath i]), None), w)
      | Some files =>
          match captureDeclared sc h ri w with
          | (Err e, w) => ((agentFailed OutcomeRetryableFailure None (agOutput r) (asDisp e) 0 events, None), w)
          | (Ok captured, w) =>
              let dr := MkDispatch OutcomeOK (Some (agExitCode r)) (agOutput r) "" (packFiles files ++ captured) None 0 (Some (agMetrics r))
                          (agTranscript r) (liveRecord <$> agLive r) "" key "" "" None [] events in
              let '(dr, w) := captureState sc h i key dr w in ((dr, None), w)
          end
      end
  end.

(** What the launch gave. *)
Definition launched (sc : StepContext) (h : Handle) (i : NodeIntent) (key : string) (a : LaunchAnswer) (w : W)
    : (DispatchResult * option dispErr) * W :=
  match a with
  | LaunchFailed e wall =>
      if aeLiveReplay e then ((zeroDispatch, Some (agentDisp e)), w)
      else ((agentFailed (classifyAgentLaunchErr wall e) None None (agentDisp e) 0 [], None), w)
  | LaunchCancelled deadline wall ready events =>
      let '((buf, serr), w) := drain events [] w in
      let '(buf, serr) := if ready then (buf, serr) else ([], None) in
      match serr with
      | Some e => ((withEvents buf zeroDispatch, Some (asDisp e)), w)
      | None => let e := ErrAgentLaunch deadline in
                ((agentFailed (classifyAgentLaunchErr wall e) None None (agentDisp e) 0 buf, None), w)
      end
  | LaunchDone o events wall =>
      let '((buf, serr), w) := drain events [] w in
      match serr with
      | Some e => ((withEvents buf zeroDispatch, Some (asDisp e)), w)
      | None =>
          match o with
          | Err e => if aeLiveReplay e then ((withEvents buf zeroDispatch, Some (agentDisp e)), w)
                     else ((agentFailed (classifyAgentLaunchErr wall e) None None (agentDisp e) (agentRetryAfter e) buf, None), w)
          | Ok r => finishAgent sc h i key r buf w
          end
      end
  end.

Definition runAgent (cx : Context_) (d : LocalDispatcher) (i : NodeIntent) (v : AgentStep) (w : W) : (DispatchResult * option dispErr) * W :=
  let ri := niInputs i in
  let g := riAgent ri in
  let bare := (SplitContainerRef (asContainer v)).1 in
  match aLookup (gaUses g) with
  | None => ((zeroDispatch, Some (agentDisp (ErrAdapterNotFound (gaUses g)))), w)
  | Some ad =>
      match capsRefuse ad i bare with
      | Some e => ((rejectedBy e, None), w)
      | None =>
          match agentHandle d v (niPath i) with
          | Err e => ((zeroDispatch, Some (asDisp e)), w)
          | Ok h =>
              match restoreSession cx h i w with
              | (Err dr, w) => ((dr, None), w)
              | (Ok restored, w) =>
                  match stageAgent cx h i bare w with
                  | (Some dr, w) => ((dr, None), w)
                  | (None, w) =>
                      match validateWith ad g with
                      | Some e => ((rejectedBy e, None), w)
                      | None =>
                          match sessionConfigDir h i with
                          | Err e => ((permanently e, None), w)
                          | Ok configDir =>
                              let sc := codeContext cx ri in
                              let '(a, w) := adLaunch ad sc h (invocation i restored configDir) w in
                              launched sc h i (agentHandleKey d v) a w
                          end
                      end
                  end
              end
          end
      end
  end.
End agent.
