(* ===== verification/DispatchLaws.v ===== *)
(** * What the dispatcher promises

    The retry loop checks every answer of a dispatcher ([RetryLoop.validateDispatchResult]); the answers of
    the local dispatcher always pass.  An attempt of a code step that ends ok has delivered everything the
    step declares. *)

From S2P Require Import Prelude GoNum Sort GoJson GoStruct TmplEval RetryPolicy EnginePath GoPath StateBlobs StateLog EngineEvents RunState.
From S2P Require Import EngineFold Journal Ir Commit Scope Artifacts Containers RetryLoop Steps Contracts Dispatch.

(** ** The outcome *)

Lemma ClassifyOutcome_cases code p c codes :
  let oc := ClassifyOutcome code p c codes in
  oc = OutcomeOK ∨ oc = OutcomePermanentFailure ∨ oc = OutcomeRetryableFailure.
Proof. cbv zeta. unfold ClassifyOutcome. repeat case_match; auto. Qed.

(** Ok: the exit code is 0, not one of those declared permanent, and the output was read. *)
Lemma ClassifyOutcome_ok code p c codes : ClassifyOutcome code p c codes = OutcomeOK ↔ code = 0%Z ∧ 0%Z ∉ codes ∧ p = false ∧ c = false.
Proof.
  unfold ClassifyOutcome. destruct c; [split; [done|by intros (_ & _ & _ & [=])]|].
  assert (Hex : existsb (λ x, (code =? x)%Z) codes = true ↔ code ∈ codes).
  { rewrite existsb_exists, list_elem_of_In. split; [intros (x & Hx & ->%Z.eqb_eq); done|intros Hx; exists code; by rewrite Z.eqb_refl]. }
  destruct (existsb _ codes).
  - split; [done|]. intros (-> & Hn & _). destruct Hn. by apply Hex.
  - assert (Hni : code ∉ codes) by (intros Hx; by apply Hex in Hx). destruct (Z.eqb_spec code 0) as [->|Hz]; cbn [negb].
    + destruct p; split; try done. by intros (_ & _ & [=] & _).
    + split; [done|]. by intros (-> & _).
Qed.

Section laws.
Context `{HBk : Backend W} `{HE : Externals}.

(** ** The answers pass *)

Lemma failed_valid path oc exit out e : oc = OutcomePermanentFailure ∨ oc = OutcomeRetryableFailure →
  validateDispatchResult path (failedResult oc exit out e) None = None.
Proof. by intros [->| ->]. Qed.

(** The cause of a result: there is one just when it is not ok. *)
Definition caused (dr : DispatchResult) : Prop :=
  (drOutcome dr = OutcomeOK ∧ drErr dr = None) ∨
  ((drOutcome dr = OutcomeRetryableFailure ∨ drOutcome dr = OutcomePermanentFailure) ∧ is_Some (drErr dr)).
Lemma caused_valid path dr : caused dr → validateDispatchResult path dr None = None.
Proof. unfold validateDispatchResult. intros [[-> ->]|[[->| ->] [e ->]]]; done. Qed.

Lemma codeResult_caused ri key ex files awf : caused (codeResult ri key ex files awf).
Proof.
  unfold caused, codeResult. cbn [drOutcome drErr].
  set (parsed := match riOutputSchema ri with None => Ok None | Some sch => _ end).
  set (pe := match parsed with Ok _ => None | Err m => Some (EMsg m) end).
  set (oc := ClassifyOutcome _ _ _ _). destruct (decide (oc = OutcomeOK)) as [Ho|Ho].
  - left. split; [done|]. rewrite Ho. apply ClassifyOutcome_ok in Ho as (-> & _ & Hp & _). by destruct pe.
  - right. pose proof (ClassifyOutcome_cases (exExitCode ex) (match pe with Some _ => true | None => false end) false (riNonRetryableExitCodes ri)) as Hc.
    cbv zeta in Hc. fold oc in Hc. destruct Hc as [|[Hc|Hc]]; [done| |].
    + split; [by right|]. rewrite Hc, orb_true_r. by eexists.
    + split; [by left|]. revert Hc. subst oc. unfold ClassifyOutcome. destruct (existsb _ _); [done|].
      destruct (exExitCode ex =? 0)%Z; cbn [negb orb]; [|intros _; by eexists]. destruct pe; [|done]. intros _. by eexists.
Qed.

Lemma withSnapshot_caused ref dr : caused dr → caused (withSnapshot ref dr).
Proof. done. Qed.

Lemma failed_caused oc exit out e : oc = OutcomeRetryableFailure ∨ oc = OutcomePermanentFailure → caused (failedResult oc exit out e).
Proof. intros Ho. right. split; [done|]. by eexists. Qed.

Lemma finishCode_caused sc h i key ex (w : W) : caused (finishCode sc h i key ex w).1.
Proof.
  unfold finishCode. destruct (captureOutputs _ _ _ _ _) as [[[files awf]|e] w1]; [|by apply failed_caused; left].
  destruct (validateCapturedArtifacts _ _); [by apply failed_caused; left|]. unfold snapshotStep.
  destruct (_ && _); [|apply codeResult_caused]. destruct (bkSnapshot _ _ _) as [[ref|e] w2]; [apply withSnapshot_caused, codeResult_caused|].
  apply failed_caused. unfold snapshotFailureOutcome. destruct (bkTerminal e); auto.
Qed.

Lemma runCode_valid cx d i cs (w : W) x w' : runCode cx d i cs w = (x, w') → validateDispatchResult (niPath i) x.1 x.2 = None.
Proof.
  unfold runCode. destruct (codeHandle _ _ _) as [h|]; [|by intros [= <- _]].
  destruct (stageInputFiles _ _ _ _ _) as [[e|] w1]; [intros [= <- _]; apply failed_valid; auto|]. cbv zeta.
  destruct (bkExec _ _ _ w1) as [[ex|e] w2]; [|intros [= <- _]; apply failed_valid; auto].
  destruct (exErr ex); [intros [= <- _]; apply failed_valid; auto|].
  pose proof (finishCode_caused (codeContext cx (niInputs i)) h i (codeHandleKey d cs (niPath i)) ex w2) as Hc.
  destruct (finishCode _ _ _ _ _ _) as [dr w3]. intros [= <- _]. by apply caused_valid.
Qed.

(** ** What an ok attempt has delivered *)

Record delivered (cx : Context_) (d : LocalDispatcher) (i : NodeIntent) (cs : CodeStep) (dr : DispatchResult) : Prop := {
  dl_handle : is_Some (codeHandle d cs (niPath i));
  dl_exit : drExitCode dr = Some 0%Z;
  dl_permitted : 0%Z ∉ riNonRetryableExitCodes (niInputs i);
  dl_files : map cfPath (drFiles dr) = riOutputFiles (niInputs i);
  dl_contracts : validateCapturedArtifacts (drFiles dr) (riOutputFileContracts (niInputs i)) = None;
  dl_outputs : match riOutputSchema (niInputs i) with
               | None => drOutputs dr = None
               | Some sch => ∃ raw m, ValidateAgainstSchema raw sch = Ok m ∧ drOutputs dr = Some m
               end;
  dl_container : drContainer dr = codeHandleKey d cs (niPath i);
  dl_snapshot : riSnapshot (niInputs i) ≠ "workspace" → drSnapshotRef dr = ""
}.

Lemma captureOutputs_files `{!BackendLaws W} sc h i ex (w : W) files awf w' :
  exExitCode ex = 0%Z → captureOutputs sc h i ex w = (Ok (files, awf), w') → map cfPath files = riOutputFiles (niInputs i).
Proof.
  intros Hx. unfold captureOutputs. cbv zeta. rewrite Hx. cbn [Z.eqb andb]. destruct (captureAWFOutput _ _).
  - destruct (bkCaptureFiles _ _ _ w) as [[fs|e] w1] eqn:Hc; [|done]. apply capture_each in Hc.
    destruct fs as [|f fs]; [done|]. injection Hc as _ Hc. by intros [= <- _ _].
  - destruct (riOutputFiles (niInputs i)) as [|p l] eqn:Hl; [by intros [= <- _ _]|].
    destruct (bkCaptureFiles _ _ _ w) as [[fs|e] w1] eqn:Hc; [|done]. apply capture_each in Hc. by intros [= <- _ _].
Qed.

Lemma runCode_delivers `{!BackendLaws W} cx d i cs (w : W) dr e w' :
  runCode cx d i cs w = ((dr, e), w') → drOutcome dr = OutcomeOK → delivered cx d i cs dr.
Proof.
  intros Hr Ho. unfold runCode in Hr. destruct (codeHandle d cs (niPath i)) as [h|] eqn:Hh; [|by injection Hr as <- _ _].
  destruct (stageInputFiles _ _ _ _ _) as [[e1|] w1]; [by injection Hr as <- _ _|]. cbv zeta in Hr.
  destruct (bkExec _ _ _ w1) as [[ex|e1] w2]; [|by injection Hr as <- _ _]. destruct (exErr ex); [by injection Hr as <- _ _|].
  unfold finishCode in Hr. destruct (captureOutputs _ _ _ _ _) as [[[files awf]|e1] w3] eqn:Hcap; [|by injection Hr as <- _ _].
  destruct (validateCapturedArtifacts files _) eqn:Hv; [by injection Hr as <- _ _|]. cbv zeta in Hr.
  set (key := codeHandleKey d cs (niPath i)) in *. set (cr := codeResult (niInputs i) key ex files awf) in *.
  assert (Hdr : drOutcome cr = OutcomeOK ∧ ∃ ref, dr = withSnapshot ref cr ∧ (riSnapshot (niInputs i) ≠ "workspace" → ref = "")).
  { revert Hr. unfold snapshotStep. destruct (String.eqb_spec (drOutcome cr) OutcomeOK) as [Hc|Hc]; cbn [andb].
    - destruct (String.eqb_spec (riSnapshot (niInputs i)) "workspace").
      + destruct (bkSnapshot _ _ _) as [[ref|e1] w4]; intros [= <- _ _]; [split; [done|]; by exists ref|].
        revert Ho. cbn [drOutcome failedResult]. unfold snapshotFailureOutcome. by destruct (bkTerminal e1).
      + intros [= <- _ _]. split; [done|]. exists "". by split.
    - by intros [= <- _ _]. }
  destruct Hdr as (Hc & ref & -> & Href). assert (Hcl := Hc). unfold cr, codeResult in Hcl. cbn [drOutcome] in Hcl.
  apply ClassifyOutcome_ok in Hcl as (Hx & Hni & Hp & _).
  split; [by eexists|cbn; by rewrite Hx|done|by eapply captureOutputs_files|done| |by change (drContainer _) with (if String.eqb (drOutcome cr) OutcomeOK then key else ""); rewrite Hc|exact Href].
  cbn [withSnapshot drOutputs cr codeResult] in *. destruct (riOutputSchema (niInputs i)) as [sch|]; [|done].
  destruct (ValidateAgainstSchema awf sch) as [m|m] eqn:Hm; [|done]. exists awf, m. by split.
Qed.
End laws.

(** ** The dispatcher as the world of the retry loop *)

Section world.
Context `{HBk : Backend W} `{HE : Externals} `{HL : Log L}.
Variable runAgent : Context_ → LocalDispatcher → NodeIntent → AgentStep → W → (DispatchResult * option dispErr) * W.

(** The clock, the context and the containers of [base], and this dispatcher. *)
Definition LocalWorld (base : World W) : World W := {|
  wDispatch := Run runAgent;
  wSleep := @wSleep W base;
  wNotice := @wNotice W base;
  wCtxErr := @wCtxErr W base;
  wLocal := true;
  wCreate := @wCreate W base;
  wRestore := @wRestore W base;
  wDestroy := @wDestroy W base
|}.

Section answers.
Context `{World W}.
Variable flushWait : option (L * W → option goError * (L * W)).

(** An early return between two attempts is not ok. *)
Lemma betweenAttempts_early cx i po a dr (x : L * W) r x' :
  betweenAttempts flushWait cx i po a dr x = (Some r, x') → r.1 = dr ∨ r.1 = zeroDispatch.
Proof.
  unfold betweenAttempts. destruct (match flushWait with None => _ | Some f => _ end) as [[e|] x1]; [intros [= <- _]; by right|].
  destruct (appendEvent _ _ _ _) as [[ee|] l2]; [intros [= <- _]; by left|].
  destruct (wSleep _ _ _) as [[se|] w2]; [intros [= <- _]; by left|done].
Qed.

(** The ok result of the attempts is an answer of the dispatcher. *)
Lemma retryLoop_answer cx d i po k : ∀ a (x : L * W) dr e x', retryLoop flushWait cx d i po k a x = ((dr, e), x') →
  drOutcome dr = OutcomeOK → ∃ a' w w', wDispatch cx d (withAttempt a' (continueRecovery po) i) w = ((dr, None), w').
Proof.
  assert (Hearly : ∀ a dr0 s r s1 dr e (x : L * W), betweenAttempts flushWait cx i po a dr0 s = (Some r, s1) →
            drOutcome dr0 = OutcomeRetryableFailure → (r, s1) = ((dr, e), x) → drOutcome dr = OutcomeOK → False).
  { intros a dr0 s r s1 dr e x Hb Hr [= -> _] Ho. apply betweenAttempts_early in Hb as [Hb|Hb]; cbn [fst] in Hb; subst dr; [by rewrite Hr in Ho|done]. }
  induction k as [|k IH]; intros a x dr e x'; cbn [retryLoop]; [by intros [= <- _ _]|].
  unfold dispatchOnce. destruct (wDispatch _ _ _ x.2) as [[dr0 e0] w0] eqn:Hd.
  destruct (validateDispatchResult _ dr0 e0) as [v|] eqn:Hv; [by intros [= <- _ _]|]. apply validated in Hv.
  destruct e0 as [e0|].
  - assert (Hz : drOutcome dr0 ≠ OutcomeOK).
    { unfold isZeroDispatch in Hv. repeat apply andb_prop in Hv as [Hv _]. apply String.eqb_eq in Hv as ->. done. }
    destruct (_ && _); [|by intros [= <- _ _]].
    change (drOutcome (demoted e0 dr0)) with OutcomeRetryableFailure. cbn [String.eqb]. cbv beta iota.
    destruct (_ =? Attempts po)%Z; [by intros [= <- _ _]|].
    destruct (betweenAttempts _ _ _ _ _ _ _) as [[r|] s1] eqn:Hb; [|by apply IH].
    intros Hr Ho. by destruct (Hearly _ _ _ _ _ _ _ _ Hb eq_refl Hr Ho).
  - destruct (String.eqb_spec (drOutcome dr0) OutcomeOK) as [Hy|Hy]; [intros [= <- _ _] _; by eauto|].
    destruct (String.eqb _ OutcomePermanentFailure); [by intros [= <- _ _]|].
    destruct (String.eqb_spec (drOutcome dr0) OutcomeRetryableFailure) as [Hre|]; cbn [negb]; [|by intros [= <- _ _]].
    destruct (_ =? Attempts po)%Z; [by intros [= <- _ _]|].
    destruct (betweenAttempts _ _ _ _ _ _ _) as [[r|] s1] eqn:Hb; [|by apply IH].
    intros Hr Ho. by destruct (Hearly _ _ _ _ _ _ _ _ Hb Hre Hr Ho).
Qed.

Lemma RunWithRetry_answer cx d i po (x : L * W) dr e x' : RunWithRetry flushWait cx d i po x = ((dr, e), x') →
  drOutcome dr = OutcomeOK → ∃ a' w w', wDispatch cx d (withAttempt a' (continueRecovery po) i) w = ((dr, None), w').
Proof. unfold RunWithRetry. destruct (_ <? 1)%Z; [by intros [= <- _ _]|apply retryLoop_answer]. Qed.
End answers.
End world.

(** ** Properties *)

(** the local dispatcher keeps the contract of Dispatcher.Run.  Whatever the container backend
    answers, its answer for any node passes the check of the retry loop (given that the launch of an
    agent does): a typed failure with a cause, an ok result without one, or a direct error with a result
    that is otherwise empty. *)
Theorem Run_contract `{Backend W} `{Externals} runAgent cx d i (w : W) dr e w' :
  (∀ cx d i v (w : W) x w', runAgent cx d i v w = (x, w') → validateDispatchResult (niPath i) x.1 x.2 = None) →
  Run runAgent cx d i w = ((dr, e), w') → validateDispatchResult (niPath i) dr e = None.
Proof.
  intros Ha. unfold Run. destruct (niNode i); try (by intros [= <- <- _]); [|by intros Hr%Ha].
  intros Hr. by apply runCode_valid in Hr.
Qed.

(** C9: a code step that succeeds has delivered what it declares.  Let the attempts of a code step, run
    by the local dispatcher over any backend, end ok.  Then its container was there; the command exited
    with 0, which is not an exit code declared permanent; the declared files were captured, each once and
    in order, and each keeps its contract; with an output schema there are outputs that validate, and
    without one there are none; the container is recorded, and a snapshot only where one was asked. *)
Theorem code_step_delivers `{Backend W} `{!BackendLaws W} `{Externals} `{Log L} runAgent base cx d i cs po (x : L * W) dr e x' :
  niNode i = NCode cs →
  @RunWithRetry _ L _ W (LocalWorld runAgent base) None cx d i po x = ((dr, e), x') →
  drOutcome dr = OutcomeOK → delivered cx d i cs dr.
Proof.
  intros Hn Hr Ho. apply RunWithRetry_answer in Hr as (a & w & w' & Hd); [|done].
  cbn [wDispatch LocalWorld] in Hd. unfold Run in Hd. cbn [withAttempt niNode] in Hd. rewrite Hn in Hd.
  apply runCode_delivers in Hd; [|done]. destruct Hd. by split.
Qed.

(** ** A container that runs scripts *)

(** The files of the container, and the commands to come: the exit code and what is written to $AWF_OUTPUT. *)
Record Toy : Type := MkToy { tyFiles : gmap string string; tyRuns : list (Z * option string) }.

Fixpoint readAll (fs : gmap string string) (paths : list string) : res goError (list CapturedFile) :=
  match paths with
  | [] => Ok []
  | p :: paths => match fs !! p with
                  | None => Err (EErrf "no such file: %s" [p])
                  | Some c => let? l := readAll fs paths in Ok (MkCaptured p c :: l)
                  end
  end.
#[global] Instance ToyBackend : Backend Toy := {
  bkOutputRoot := "/tmp/awf";
  bkStagingRoot := "/work/.awf";
  bkResolveWorkdirPath := None;
  bkWriteTreeAt _ _ _ _ w := (None, w);
  bkReadTreeAt _ _ _ w := (Ok "", w);
  bkCopyTo _ _ _ w := (None, w);
  bkExec _ _ cmd w :=
    match tyRuns w with
    | [] => (Err (EErrf "no such command" []), w)
    | (code, written) :: runs =>
        let fs := match written, cmEnv cmd !! "AWF_OUTPUT" with Some c, Some p => <[p := c]> (tyFiles w) | _, _ => tyFiles w end in
        (Ok (MkExec code None "" None), MkToy fs runs)
    end;
  bkCaptureFiles _ _ paths w := (readAll (tyFiles w) paths, w);
  bkSnapshot _ _ w := (Err (EErrf "unsupported" []), w);
  bkTerminal _ := true
}.
#[global] Instance ToyBackend_laws : BackendLaws Toy.
Proof.
  split. intros cx h paths w files w'. cbn [bkCaptureFiles ToyBackend]. intros [= Hr _]. revert files Hr.
  induction paths as [|p paths IH]; cbn [readAll]; intros files; [by intros [= <-]|]. destruct (_ !! p); [|done].
  intros (l & Hl & Hr)%res_bind_ok. injection Hr as <-. cbn [map cfPath]. f_equal. by apply IH.
Qed.
(** Every schema accepts every value. *)
Definition Lenient : Externals := {| xJcs s := Some s; xCompile _ := Ok (λ _, None); xErrText _ := "" |}.

Section example.
#[local] Existing Instance two_times.
#[local] Instance exToy_log : Log InMemoryLog := InMemoryLog_log false.
#[local] Existing Instance Lenient.

Definition exToyWorld : World Toy := LocalWorld (λ _ _ _ _ w, ((zeroDispatch, Some (MkDispErr "no agents" false)), w)) {|
  wDispatch _ _ _ w := ((zeroDispatch, None), w); wSleep _ _ w := (None, w); wNotice _ w := w; wCtxErr _ _ := None; wLocal := true;
  wCreate _ p w := (Ok (MkHandle (spName p) "" "" ""), w); wRestore _ _ k w := (Ok (MkHandle k "" "" ""), w); wDestroy _ w := (None, w) |}.
Definition exCode : CodeStep := MkCodeStep "a" "box" "make" None (Some []) [] ∅ None None.
Definition exCodeIntent : NodeIntent :=
  MkIntent "a" (NCode exCode) (MkInputs "make" ∅ [] ∅ (Some []) [] 0 0 [] "" noAgent) "" 0 false false zeroRunContext.
Definition exBox : LocalDispatcher := MkDispatcher {["box" := MkHandle "box" "1" "" ""]} "" ∅.
Definition exAttempts (runs : list (Z * option string)) : attemptResult * (InMemoryLog * Toy) :=
  @RunWithRetry _ InMemoryLog _ Toy exToyWorld None Cancellable exBox exCodeIntent (MkPolicy 2 BackoffExp Second (60 * Second) [] "")
    (exBefore.1, MkToy ∅ runs).

Lemma code_step_delivers_witness :
  ∃ dr x', exAttempts [(1%Z, None); (0%Z, Some "{}")] = ((dr, None), x') ∧ drOutcome dr = OutcomeOK ∧
           delivered Cancellable exBox exCodeIntent exCode dr.
Proof.
  assert (Hs : match exAttempts [(1%Z, None); (0%Z, Some "{}")] with
               | ((dr, None), _) => String.eqb (drOutcome dr) OutcomeOK | _ => false end = true) by (vm_compute; reflexivity).
  destruct (exAttempts [(1%Z, None); (0%Z, Some "{}")]) as [[dr [e|]] x'] eqn:E; [discriminate Hs|].
  apply String.eqb_eq in Hs. exists dr, x'. split; [reflexivity|]. split; [exact Hs|].
  eapply (code_step_delivers _ _ Cancellable exBox exCodeIntent exCode _ (exBefore.1, MkToy ∅ [(1%Z, None); (0%Z, Some "{}")]) dr None x');
    [reflexivity|exact E|exact Hs].
Defined.

Lemma Run_contract_witness :
  ∃ dr e w', Run (λ _ _ _ _ w, ((zeroDispatch, Some (MkDispErr "no agents" false)), w)) Cancellable exBox exCodeIntent (MkToy ∅ [(3%Z, None)]) = ((dr, e), w') ∧
             validateDispatchResult "a" dr e = None.
Proof.
  destruct (Run (λ _ _ _ _ w, ((zeroDispatch, Some (MkDispErr "no agents" false)), w)) Cancellable exBox exCodeIntent (MkToy ∅ [(3%Z, None)]))
    as [[dr e] w'] eqn:E.
  exists dr, e, w'. split; [reflexivity|]. eapply (Run_contract _ Cancellable exBox exCodeIntent _ dr e w'), E.
  intros cx d i v w x w1 [= <- _]. reflexivity.
Defined.

(** The first attempt writes its output and fails; the second exits with 0 and writes nothing: it is
    committed with the output of the first, although it has not honoured its output schema. *)
Lemma stale_output_committed :
  (λ r : attemptResult, (drOutcome r.1, drOutputs r.1)) (exAttempts [(1%Z, Some ("{" +:+ quote "n" +:+ ":true}")); (0%Z, None)]).1
    = (OutcomeOK, Some [("n", VBool true)]) ∧
  (λ r : attemptResult, drOutcome r.1) (exAttempts [(1%Z, None); (0%Z, None)]).1 = OutcomeRetryableFailure.
Proof. split; vm_compute; reflexivity. Qed.

(** Two steps of a container can share the file of their outputs. *)
Lemma output_paths_collide : awfOutputTempPath "/tmp/awf" "if[0].then.x" = awfOutputTempPath "/tmp/awf" "if_0__then_x".
Proof. vm_compute; reflexivity. Qed.

(** An exit code of 0 can be declared permanent: the step then fails with the cause "process exited with code 0". *)
Lemma zero_permanent : ClassifyOutcome 0 false false [0%Z] = OutcomePermanentFailure.
Proof. reflexivity. Qed.
End example.
