(* ===== verification/AgentLaws.v ===== *)
(** * What an attempt of an agent step guarantees

    The answers of [runAgent] keep the contract of the retry loop, so with [Dispatch.Run] all the answers of
    the local dispatcher do; an attempt that ends ok has delivered what the step declares, through an adapter
    that can be used for it. *)

From S2P Require Import Prelude GoNum Sort GoJson GoStruct TmplEval RetryPolicy EnginePath GoPath StateBlobs StateLog EngineEvents RunState.
From S2P Require Import EngineFold Journal Ir Agent Commit Scope Artifacts Containers RetryLoop Adapters Steps Contracts Dispatch AgentDispatch DispatchLaws.

Section laws.
Context `{HBk : Backend W} `{HE : Externals} `{HA : Adapters W} `{HS : EventSink W}.
Variables (sessionRefs : gmap string string) (getBlob : string → res blobErr string).

(** ** The contract *)

(** What the retry loop lets through. *)
Definition lawful (x : DispatchResult * option dispErr) : Prop :=
  match x.2 with None => caused x.1 | Some _ => isZeroDispatch x.1 = true end.
Lemma lawful_valid path x : lawful x → validateDispatchResult path x.1 x.2 = None.
Proof. unfold lawful. destruct x as [dr [e|]]; cbn; [by intros ->|by apply caused_valid]. Qed.

Lemma agentFailed_caused oc exit out e ra evs : oc = OutcomeRetryableFailure ∨ oc = OutcomePermanentFailure → caused (agentFailed oc exit out e ra evs).
Proof. intros Ho. right. split; [done|]. by eexists. Qed.
Lemma classifyAgent_cases wall e :
  classifyAgentLaunchErr wall e = OutcomeRetryableFailure ∨ classifyAgentLaunchErr wall e = OutcomePermanentFailure.
Proof. unfold classifyAgentLaunchErr. repeat case_match; auto. Qed.
Lemma snapshotFailure_cases (e : goError) : snapshotFailureOutcome (W := W) e = OutcomeRetryableFailure ∨ snapshotFailureOutcome (W := W) e = OutcomePermanentFailure.
Proof. unfold snapshotFailureOutcome. case_match; auto. Qed.
Lemma permanently_caused e : caused (permanently e).
Proof. apply agentFailed_caused. by right. Qed.
Lemma rejectedBy_caused e : caused (rejectedBy e).
Proof. apply agentFailed_caused. by right. Qed.
#[local] Hint Resolve agentFailed_caused permanently_caused rejectedBy_caused classifyAgent_cases snapshotFailure_cases : agent.

Lemma captureState_caused sc h i key dr (w : W) : caused dr → caused (captureState sc h i key dr w).1.
Proof.
  intros Hd. unfold captureState. destruct (if String.eqb _ _ then _ else _) as [[ref|e] w1]; cbn [fst]; [|by auto with agent].
  destruct (String.eqb (gaSessionDir _) ""); [done|]. destruct (bkReadTreeAt _ _ _ _) as [[b|e] w2]; cbn [fst]; [done|auto with agent].
Qed.

Lemma finishAgent_lawful sc h i key r evs (w : W) : lawful (finishAgent sc h i key r evs w).1.
Proof.
  unfold finishAgent, lawful. destruct (match riOutputSchema (niInputs i) with None => None | Some _ => _ end).
  - destruct (agLive r); cbn; [done|auto with agent].
  - destruct (withArtifact _ r) as [files|]; [|cbn; auto with agent]. destruct (captureDeclared _ _ _ _) as [[captured|e] w1]; [|cbn; auto with agent].
    destruct (captureState _ _ _ _ _ w1) as [dr w2] eqn:Hc. cbn. apply (f_equal fst) in Hc. cbn in Hc. rewrite <- Hc.
    apply captureState_caused. by left.
Qed.

Lemma launched_lawful sc h i key a (w : W) : lawful (launched sc h i key a w).1.
Proof.
  unfold launched, lawful. destruct a as [e wall|[r|e] evs wall|deadline wall ready evs].
  - destruct (aeLiveReplay e); cbn; [done|auto with agent].
  - destruct (drain evs [] w) as [[buf [e|]] w1]; cbn; [done|]. apply finishAgent_lawful.
  - destruct (drain evs [] w) as [[buf [x|]] w1]; cbn; [done|]. destruct (aeLiveReplay e); cbn; [done|auto with agent].
  - destruct (drain evs [] w) as [[buf serr] w1]. destruct ready; [destruct serr|]; cbn; try done; auto with agent.
Qed.

Lemma runAgent_lawful cx d i v (w : W) : lawful (runAgent sessionRefs getBlob cx d i v w).1.
Proof.
  unfold runAgent, lawful. destruct (aLookup _) as [ad|]; [|done]. destruct (capsRefuse _ _ _); [cbn; auto with agent|].
  destruct (agentHandle _ _ _) as [h|e]; [|done]. destruct (restoreSession _ _ _ _ _ _) as [[restored|dr] w1] eqn:Hr; cbn [fst snd].
  2: { revert Hr. unfold restoreSession. destruct (_ || _); [done|]. destruct (getBlob _); [|intros [= <- _]; auto with agent].
       destruct (bkWriteTreeAt _ _ _ _ _) as [[e|] w2]; [intros [= <- _]; auto with agent|done]. }
  destruct (stageAgent _ _ _ _ _) as [[dr|] w2] eqn:Hs; cbn [fst snd].
  { revert Hs. unfold stageAgent. destruct (_ && _); [intros [= <- _]; auto with agent|].
    destruct (stageInputFiles _ _ _ _ _) as [[e|] w3]; [intros [= <- _]; auto with agent|]. destruct (_ && _); intros [= <- _]; auto with agent. }
  destruct (validateWith _ _); [cbn; auto with agent|]. destruct (sessionConfigDir _ _); [|cbn; auto with agent].
  destruct (adLaunch _ _ _ _ _) as [ans w3]. apply launched_lawful.
Qed.

(** ** What an ok attempt has delivered *)

(** The adapter can do what the step needs of it. *)
Record suited (ad : Adapter W) (i : NodeIntent) (v : AgentStep) : Prop := {
  su_container : (SplitContainerRef (asContainer v)).1 = "" → cpContainerless (adCaps ad) = true ∧ riInputFiles (niInputs i) = [] ∧ riOutputFiles (niInputs i) = [];
  su_thread : gaThread (riAgent (niInputs i)) ≠ [] → cpThreaded (adCaps ad) = true;
  su_evidence : gaContextEvidence (riAgent (niInputs i)) ≠ [] → cpContextEvidence (adCaps ad) = true;
  su_fresh : niIsGateEvaluate i = true → cpPersistentSession (adCaps ad) = false;
  su_config : validateWith ad (riAgent (niInputs i)) = None
}.

Record agent_delivered (d : LocalDispatcher) (i : NodeIntent) (v : AgentStep) (dr : DispatchResult) : Prop := {
  ad_adapter : ∃ ad, aLookup (gaUses (riAgent (niInputs i))) = Some ad ∧ suited ad i v;
  ad_handle : is_ok (agentHandle d v (niPath i)) = true;
  ad_schema : riOutputSchema (niInputs i) ≠ None → ValidateOutputMap (drOutputs dr) (riOutputSchema (niInputs i)) = None;
  ad_artifact : gaOutputArtifact (riAgent (niInputs i)) ≠ "" → ∀ out, drOutputs dr = Some out →
    ∃ bytes, marshalCanonicalJSON (VMap out) = Some bytes ∧ MkCaptured (gaOutputArtifact (riAgent (niInputs i))) bytes ∈ drFiles dr;
  ad_files : ∃ given captured, drFiles dr = given ++ captured ∧ map cfPath captured = riOutputFiles (niInputs i) ∧
    (captured ≠ [] → validateCapturedArtifacts captured (riOutputFileContracts (niInputs i)) = None);
  ad_kept : Forall (λ ev, evLive ev = false) (drAgentEvents dr);
  ad_session : gaSessionDir (riAgent (niInputs i)) = "" → drSessionTranscript dr = ""
}.

Lemma drain_kept evs : ∀ buf (w : W) buf' e w', drain evs buf w = ((buf', e), w') →
  Forall (λ ev, evLive ev = false) buf → Forall (λ ev, evLive ev = false) buf'.
Proof.
  induction evs as [|ev evs IH]; intros buf w buf' e w'; cbn [drain]; [by intros [= <- _ _]|]. destruct (evLive ev) eqn:Hl.
  - destruct (skSend ev w) as [[x|] w1]; [by intros [= <- _ _]|apply IH].
  - intros Hd Hb. eapply IH; [exact Hd|]. apply Forall_app. split; [done|]. by constructor.
Qed.

Lemma capsRefuse_suited ad i v (w : W) w' h cx : capsRefuse ad i (SplitContainerRef (asContainer v)).1 = None →
  stageAgent cx h i (SplitContainerRef (asContainer v)).1 w = (None, w') → validateWith ad (riAgent (niInputs i)) = None → suited ad i v.
Proof.
  unfold capsRefuse, stageAgent. intros Hc Hs Hv. set (bare := (SplitContainerRef (asContainer v)).1) in *.
  destruct (String.eqb bare "" && _) eqn:E1; [done|]. destruct (_ && negb (cpThreaded _)) eqn:E2; [done|].
  destruct (_ && negb (cpContextEvidence _)) eqn:E3; [done|]. destruct (niIsGateEvaluate i && _) eqn:E4; [done|].
  destruct (_ && String.eqb bare "") eqn:E5 in Hs; [done|]. destruct (stageInputFiles _ _ _ _ _) as [[e|] w1]; [done|].
  destruct (_ && String.eqb bare "") eqn:E6 in Hs; [done|]. split; [..|done].
  - intros Hb. fold bare in Hb. rewrite Hb in E1, E5, E6. cbn [String.eqb] in E1, E5, E6. rewrite andb_true_r in E5, E6. cbn [andb] in E1.
    split; [by destruct (cpContainerless _)|]. by destruct (riInputFiles _), (riOutputFiles _).
  - destruct (gaThread _); [done|]. intros _. by destruct (cpThreaded _).
  - destruct (gaContextEvidence _); [done|]. intros _. by destruct (cpContextEvidence _).
  - intros Hg. rewrite Hg in E4. exact E4.
Qed.

Lemma captureState_ok sc h i key dr (w : W) dr' w' : captureState sc h i key dr w = (dr', w') → drOutcome dr' = OutcomeOK →
  drOutputs dr' = drOutputs dr ∧ drFiles dr' = drFiles dr ∧ drAgentEvents dr' = drAgentEvents dr ∧
  (gaSessionDir (riAgent (niInputs i)) = "" → drSessionTranscript dr' = drSessionTranscript dr).
Proof.
  unfold captureState. intros Hc Ho. destruct (if String.eqb (riSnapshot _) _ then _ else _) as [[ref|e] w1].
  - destruct (String.eqb_spec (gaSessionDir (riAgent (niInputs i))) "") as [Hd|Hd]; [by injection Hc as <- _|].
    destruct (bkReadTreeAt _ _ _ _) as [[b|e] w2]; injection Hc as <- _; [by repeat split|].
    destruct (snapshotFailure_cases e) as [H|H]; cbn [drOutcome agentFailed] in Ho; rewrite H in Ho; discriminate Ho.
  - injection Hc as <- _. destruct (snapshotFailure_cases e) as [H|H]; cbn [drOutcome agentFailed] in Ho; rewrite H in Ho; discriminate Ho.
Qed.

Lemma captureDeclared_ok `{!BackendLaws W} sc h ri (w : W) captured w' : captureDeclared sc h ri w = (Ok captured, w') →
  map cfPath captured = riOutputFiles ri ∧ (captured ≠ [] → validateCapturedArtifacts captured (riOutputFileContracts ri) = None).
Proof.
  unfold captureDeclared. destruct (riOutputFiles ri) as [|p l]; [by intros [= <- _]|].
  destruct (bkCaptureFiles _ _ _ w) as [[fs|e] w1] eqn:Hb; [|done]. apply capture_each in Hb.
  destruct (validateCapturedArtifacts fs _) eqn:Hv; [done|]. by intros [= <- _].
Qed.

Lemma entry_set_in {A} k (v : A) l : (k, v) ∈ entry_set k v l.
Proof. induction l as [|[k' v'] l IH]; cbn [entry_set]; [set_solver|]. destruct (String.eqb_spec k k'); set_solver. Qed.

(** What the launch delivered, when the attempt is ok. *)
Lemma launched_delivers `{!BackendLaws W} sc h i key a (w : W) dr e w' :
  launched sc h i key a w = ((dr, e), w') → drOutcome dr = OutcomeOK →
  (riOutputSchema (niInputs i) ≠ None → ValidateOutputMap (drOutputs dr) (riOutputSchema (niInputs i)) = None) ∧
  (gaOutputArtifact (riAgent (niInputs i)) ≠ "" → ∀ out, drOutputs dr = Some out →
    ∃ bytes, marshalCanonicalJSON (VMap out) = Some bytes ∧ MkCaptured (gaOutputArtifact (riAgent (niInputs i))) bytes ∈ drFiles dr) ∧
  (∃ given captured, drFiles dr = given ++ captured ∧ map cfPath captured = riOutputFiles (niInputs i) ∧
    (captured ≠ [] → validateCapturedArtifacts captured (riOutputFileContracts (niInputs i)) = None)) ∧
  Forall (λ ev, evLive ev = false) (drAgentEvents dr) ∧
  (gaSessionDir (riAgent (niInputs i)) = "" → drSessionTranscript dr = "").
Proof.
  assert (Hcl : ∀ wall x, classifyAgentLaunchErr wall x ≠ OutcomeOK) by (intros wall x; destruct (classifyAgent_cases wall x) as [-> | ->]; done).
  unfold launched. destruct a as [x wall|[r|x] evs wall|deadline wall ready evs].
  - destruct (aeLiveReplay x); intros [= <- _ _]; [done|]. intros Ho. by apply Hcl in Ho.
  - destruct (drain evs [] w) as [[buf [x|]] w1] eqn:Hd; [by intros [= <- _ _]|]. apply drain_kept in Hd; [|constructor].
    unfold finishAgent. destruct (match riOutputSchema (niInputs i) with None => None | Some _ => _ end) eqn:Hsch.
    { destruct (agLive r); by intros [= <- _ _]. }
    destruct (withArtifact _ r) as [files|] eqn:Ha; [|by intros [= <- _ _]].
    destruct (captureDeclared _ _ _ _) as [[captured|x] w2] eqn:Hc; [|by intros [= <- _ _]]. apply captureDeclared_ok in Hc as [Hc1 Hc2].
    destruct (captureState _ _ _ _ _ w2) as [dr0 w3] eqn:Hs. intros [= <- _ _] Ho.
    apply captureState_ok in Hs as (Hs1 & Hs2 & Hs3 & Hs4); [|done]. cbn [drOutputs drFiles drAgentEvents drSessionTranscript] in *.
    rewrite Hs1, Hs2, Hs3. split; [|split; [|split; [by exists (packFiles files), captured|by split]]].
    + intros _. destruct (riOutputSchema (niInputs i)); [done|reflexivity].
    + intros Hn out Hout. unfold withArtifact in Ha. apply String.eqb_neq in Hn. rewrite Hn, Hout in Ha.
      destruct (marshalCanonicalJSON (VMap out)) as [bytes|]; [|done]. injection Ha as <-. exists bytes. split; [done|].
      apply elem_of_app. left. unfold packFiles. apply list_elem_of_In, in_map_iff. eexists (_, _). split; [reflexivity|]. apply list_elem_of_In, entry_set_in.
  - destruct (drain evs [] w) as [[buf [y|]] w1]; [by intros [= <- _ _]|]. destruct (aeLiveReplay x); intros [= <- _ _]; [done|].
    intros Ho. by apply Hcl in Ho.
  - destruct (drain evs [] w) as [[buf serr] w1]. destruct ready; [destruct serr|]; intros [= <- _ _]; try done; intros Ho; by apply Hcl in Ho.
Qed.

Lemma runAgent_delivers `{!BackendLaws W} cx d i v (w : W) dr e w' :
  runAgent sessionRefs getBlob cx d i v w = ((dr, e), w') → drOutcome dr = OutcomeOK → agent_delivered d i v dr.
Proof.
  intros Hr Ho. unfold runAgent in Hr. destruct (aLookup _) as [ad|] eqn:Had; [|by injection Hr as <- _ _].
  destruct (capsRefuse _ _ _) eqn:Hcaps; [by injection Hr as <- _ _|]. destruct (agentHandle _ _ _) as [h|x] eqn:Hh; [|by injection Hr as <- _ _].
  destruct (restoreSession _ _ _ _ _ _) as [[restored|dr0] w1] eqn:Hrs.
  2: { injection Hr as <- _ _. revert Hrs. unfold restoreSession. destruct (_ || _); [done|].
       destruct (getBlob _); [|intros [= <- _]; done].
       destruct (bkWriteTreeAt _ _ _ _ _) as [[x|] w2]; [intros [= <- _]|done]. cbn [drOutcome agentFailed] in Ho.
       destruct (snapshotFailure_cases x) as [H|H]; rewrite H in Ho; discriminate Ho. }
  destruct (stageAgent _ _ _ _ _) as [[dr0|] w2] eqn:Hst.
  { injection Hr as <- _ _. revert Hst. unfold stageAgent. destruct (_ && _); [intros [= <- _]; done|].
    destruct (stageInputFiles _ _ _ _ _) as [[x|] w3]; [intros [= <- _]; done|]. destruct (_ && _); intros [= <- _]; done. }
  destruct (validateWith _ _) eqn:Hv; [by injection Hr as <- _ _|]. destruct (sessionConfigDir _ _); [|by injection Hr as <- _ _].
  destruct (adLaunch _ _ _ _ _) as [ans w3]. apply launched_delivers in Hr as (H1 & H2 & H3 & H4 & H5); [|done].
  split; [|by rewrite Hh|done..]. exists ad. split; [done|]. by eapply capsRefuse_suited.
Qed.
End laws.

(** ** Properties *)

(** C11: the local dispatcher keeps the contract of Dispatcher.Run.  Whatever the container backend and the
    adapters answer, its answer for any node passes the check of the retry loop: a typed failure with a
    cause, an ok result without one, or a direct error with a result that is empty but for its events. *)
Theorem dispatcher_contract `{Backend W} `{Externals} `{Adapters W} `{EventSink W} sessionRefs getBlob cx d i (w : W) dr e w' :
  Run (runAgent sessionRefs getBlob) cx d i w = ((dr, e), w') → validateDispatchResult (niPath i) dr e = None.
Proof.
  unfold Run. destruct (niNode i); try (by intros [= <- <- _]).
  - intros Hr. by apply runCode_valid in Hr.
  - intros Hr. apply (f_equal fst) in Hr. cbn [fst] in Hr. apply (lawful_valid _ (dr, e)). rewrite <- Hr. apply runAgent_lawful.
Qed.

(** C10: an agent step that succeeds has delivered what it declares.  Let the attempts of an agent step, run
    by the local dispatcher over any backend and any adapters, end ok.  Then its adapter is registered, can
    do without a container when the step has none, is given a conversation only if it can thread one, is no
    persistent session in the evaluator of a gate, and accepts the configuration; with an output schema the
    output validates; the declared artifact holds the canonical JSON of the output; each declared file was
    captured, in order, and keeps its contract; and the events that are left to journal are not live ones. *)
Theorem agent_step_delivers `{Backend W} `{!BackendLaws W} `{Externals} `{Adapters W} `{EventSink W} `{Log L}
    sessionRefs getBlob base flushWait cx d i v po (x : L * W) dr e x' :
  niNode i = NAgent v →
  @RunWithRetry _ L _ W (LocalWorld (runAgent sessionRefs getBlob) base) flushWait cx d i po x = ((dr, e), x') →
  drOutcome dr = OutcomeOK → agent_delivered d i v dr.
Proof.
  intros Hn Hr Ho. apply RunWithRetry_answer in Hr as (a & w & w' & Hd); [|done].
  cbn [wDispatch LocalWorld] in Hd. unfold Run in Hd. cbn [withAttempt niNode] in Hd. rewrite Hn in Hd.
  pose proof (runAgent_delivers _ _ _ _ _ _ _ _ _ _ Hd Ho) as Hdel. destruct Hdel as [(ad & Had & [S1 S2 S3 S4 S5])]. split; try done. exists ad. by split.
Qed.

(** ** An adapter that runs scripts *)

Section example.
#[local] Existing Instance two_times.
#[local] Instance exAgent_log : Log InMemoryLog := InMemoryLog_log false.
#[local] Existing Instance Lenient.

(** It answers a run of the script with code 0 with the number 1, and fails the others. *)
Definition exEvent (live : bool) : AgentEvent := MkAgentEvent "assistant" "thinking" "stdout" live zeroDisplay.
Definition ToyAgent : Adapter Toy := {|
  adCaps := MkCaps false true true true false true false LivenessNone;
  adRoleWith := None;
  adValidate _ := None;
  adValidateResolved := None;
  adVersion _ _ w := (Ok "1", w);
  adLaunch _ _ inv w :=
    match tyRuns w with
    | (0%Z, _) :: runs =>
        (LaunchDone (Ok (MkAgentResult (Some [("n", VInt 1)]) 0 zeroMetrics [] None (MkThreadTurn "q" "a"))) [exEvent true; exEvent false] false,
         MkToy (tyFiles w) runs)
    | _ :: runs => (LaunchDone (Err (plainErr (EmFmt "overloaded" []))) [] false, MkToy (tyFiles w) runs)
    | [] => (LaunchFailed (plainErr (EmFmt "no such model" [])) false, w)
    end;
  adPreflight := None;
  adToolLoop := None
|}.
#[local] Instance ToyAdapters : Adapters Toy := { aLookup ref := if String.eqb ref "toy" then Some ToyAgent else None }.
#[local] Instance ToySink : EventSink Toy := { skSend _ w := (None, w) }.

Definition exAgent : AgentStep :=
  MkAgentStep "a" "" "toy" None "" (Some []) [] "answer" None ∅ None None None None.
Definition exAgentInputs : AgentInputs := MkAgentInputs "toy" None None "" "answer" None [MkThreadTurn "u" "v"] [] [] "" "".
Definition exAgentIntent : NodeIntent :=
  MkIntent "a" (NAgent exAgent) (MkInputs "" ∅ [] ∅ (Some []) [] 0 0 [] "" exAgentInputs) "" 0 false false zeroRunContext.
Definition exNoSessions (r : string) : res blobErr string := Err ErrNotExist.
Definition exAgentAttempts (runs : list (Z * option string)) : attemptResult * (InMemoryLog * Toy) :=
  @RunWithRetry _ InMemoryLog _ Toy (LocalWorld (runAgent ∅ exNoSessions) exToyWorld) None Cancellable exBox exAgentIntent
    (MkPolicy 2 BackoffExp Second (60 * Second) [] "") (exBefore.1, MkToy ∅ runs).

Lemma agent_step_delivers_witness :
  ∃ dr x', exAgentAttempts [(1%Z, None); (0%Z, None)] = ((dr, None), x') ∧ drOutcome dr = OutcomeOK ∧
           drFiles dr = [MkCaptured "answer" ("{" +:+ quote "n" +:+ ":1}")] ∧ agent_delivered exBox exAgentIntent exAgent dr.
Proof.
  assert (Hs : match exAgentAttempts [(1%Z, None); (0%Z, None)] with
               | ((dr, None), _) => String.eqb (drOutcome dr) OutcomeOK &&
                   match drFiles dr with [f] => String.eqb (cfPath f) "answer" && String.eqb (cfContent f) ("{" +:+ quote "n" +:+ ":1}") | _ => false end
               | _ => false end = true) by (vm_compute; reflexivity).
  destruct (exAgentAttempts [(1%Z, None); (0%Z, None)]) as [[dr [e|]] x'] eqn:E; [discriminate Hs|].
  apply andb_prop in Hs as [Hs Hf]. apply String.eqb_eq in Hs. exists dr, x'. split; [reflexivity|]. split; [exact Hs|]. split.
  - destruct (drFiles dr) as [|[p c] [|]]; [discriminate Hf| |discriminate Hf]. apply andb_prop in Hf as [Hp Hc].
    apply String.eqb_eq in Hp, Hc. cbn in Hp, Hc. by rewrite Hp, Hc.
  - eapply (agent_step_delivers ∅ exNoSessions exToyWorld None Cancellable exBox exAgentIntent exAgent _ (exBefore.1, MkToy ∅ [(1%Z, None); (0%Z, None)]) dr None x');
      [reflexivity|exact E|exact Hs].
Defined.

Lemma dispatcher_contract_witness :
  ∃ dr e w', Run (runAgent ∅ exNoSessions) Cancellable exBox exAgentIntent (MkToy ∅ [(3%Z, None)]) = ((dr, e), w') ∧
             validateDispatchResult "a" dr e = None.
Proof.
  destruct (Run (runAgent ∅ exNoSessions) Cancellable exBox exAgentIntent (MkToy ∅ [(3%Z, None)])) as [[dr e] w'] eqn:E.
  exists dr, e, w'. split; [reflexivity|]. eapply (dispatcher_contract ∅ exNoSessions Cancellable exBox exAgentIntent _ dr e w'), E.
Defined.

(** A step without a container records a container when it is in a called workflow: the name of none. *)
Lemma containerless_container :
  (λ x : (DispatchResult * option dispErr) * Toy, drContainer x.1.1)
    (runAgent ∅ exNoSessions Cancellable (MkDispatcher ∅ "k.workflow" ∅) exAgentIntent exAgent (MkToy ∅ [(0%Z, None)])) = "k.workflow::".
Proof. vm_compute. reflexivity. Qed.
End example.
