(* ===== verification/Exports.v ===== *)
(** * engine/workflow_exports.go: the outputs and files a workflow exports

    The bindings of [outputs:] are evaluated in the order of their names, then the schema is checked,
    then the files are resolved.  A binding to a step under a branch that was not taken is omitted. *)

From S2P Require Import Prelude GoNum GoJson GoStruct TmplLexer TmplParser TmplEval GoPath EnginePath.
From S2P Require Import StateBlobs RunState EngineFold Journal Ir Commit Scope Artifacts RetryLoop Steps Contracts.

Record WorkflowExportResult : Type := MkExport { weOutputs : gomap; weFiles : gmap string string }.

(** An absent reference: AWF4006. *)
Definition isAbsent (e : goerr) : bool := match e with GEval ee => String.eqb (eeCode ee) EvalCodeRefAbsent | _ => false end.
Definition isAbsentFile (e : fileErr) : bool :=
  match feEval e with Some ee => String.eqb (eeCode ee) EvalCodeRefAbsent | None => false end.

(** ** call_step.go, artifact_refs.go: the target of a call *)

Definition callTargetModule (ld : option LoadedDefinition) (parentID importID : string) : option LoadedModule :=
  ld ← ld;
  e ← List.find (λ e, String.eqb (leParentID e) parentID && String.eqb (leImportID e) importID) (ldImportEdges ld);
  Module_ ld (leChildID e).
(** The target with its workflow. *)
Definition callTarget (ld : option LoadedDefinition) (parentID importID : string) : option (LoadedModule * Workflow) :=
  child ← callTargetModule ld parentID importID; wf ← lmWorkflow child; Some (child, wf).

Definition callChildOutputSchemas (ld : option LoadedDefinition) (moduleID : string) (wf : Workflow) : gmap string (option JSONSchema) :=
  foldl (λ m (np : Node * string),
           match np.1 with
           | NCall c => match callTarget ld moduleID (caCall c) with Some (_, cwf) => <[caID c := wfOutputSchema cwf]> m | None => m end
           | _ => m
           end) ∅ (WalkNodes (wfGraph wf) "").

Definition withCallSchemas (m : gmap string (option JSONSchema)) (s : Scope) : Scope :=
  MkScope (scRs s) (scCtxPath s) (scStepIndex s) (scMapProducts s) (scVerdictOverride s) (scInputOverride s)
    (scHasInputOverride s) (scInputFiles s) (scWf s) m.

(** ** outputs *)

(** [EvalTemplateValue] of a value that is decoded already. *)
Definition evalTemplateJson (R : Ref → res goerr value) (j : json) : res goerr value :=
  match Unmarshal_any j with
  | None => Err (GOther EmDecodeJSON)
  | Some v => evalTemplateDecodedValue R v
  end.

(** An object with the one key [first_of] whose (last) value is an array. *)
Definition firstOfRefs (j : json) : option (list json) :=
  match j with
  | JObj ms => if forallb (λ kv, String.eqb kv.1 "first_of") ms then
                 match last ms with Some (_, JArr l) => Some l | _ => None end
               else None
  | _ => None
  end.

(** [Ok None]: all are absent. *)
Fixpoint evalFirstOf (R : Ref → res goerr value) (refs : list json) : res goerr (option value) :=
  match refs with
  | [] => Ok None
  | r :: refs =>
      match evalTemplateJson R r with
      | Ok v => Ok (Some v)
      | Err e => if isAbsent e then evalFirstOf R refs else Err e
      end
  end.

(** One binding; [Ok None]: the key is omitted. *)
Definition evalOutput (R : Ref → res goerr value) (j : json) : res goerr (option value) :=
  match firstOfRefs j with
  | Some refs => evalFirstOf R refs
  | None => match evalTemplateJson R j with
            | Ok v => Ok (Some v)
            | Err e => if isAbsent e then Ok None else Err e
            end
  end.
Fixpoint evalOutputs (R : Ref → res goerr value) (l : list (string * json)) : res goError (list (string * value)) :=
  match l with
  | [] => Ok []
  | (key, j) :: l =>
      let? v := res_map_err (λ e, EWrap "evaluate workflow output %q: %w" [key] (ETmpl e)) (evalOutput R j) in
      let? vs := evalOutputs R l in
      Ok (match v with Some v => (key, v) :: vs | None => vs end)
  end.

Section exports.
Context `{Blobs B} `{Externals}.
Variables (scope : Scope) (wf : Workflow) (b : B).

Definition exportOutputs : res goError gomap :=
  let? out := evalOutputs (Resolve scope) (key_sort (map_to_list (wfOutputs wf))) in
  let out := match wfOutputSchema wf with
             | Some _ => Some out
             | None => if bool_decide (wfOutputs wf = ∅) then None else Some out
             end in
  match wfOutputSchema wf with
  | None => Ok out
  | Some _ => match ValidateOutputMap out (wfOutputSchema wf) with
              | Some m => Err (EMsg (EmWrap "workflow output_schema validation: %w" [] m))
              | None => Ok out
              end
  end.

(** One file; [Ok None]: the name is omitted. *)
Definition exportFile (key raw : string) : res goError (option string) :=
  if strContains raw "{{" || strContains raw "}}"
  then Err (EErrf "workflow output_files.%s must be a static step.<id>.files.<name> reference, not a template" [key])
  else match ParseArtifactRef raw with
  | None => Err (EErrf "workflow output_files.%s=%s: expected step.<id>.files.<name>" [key; raw])
  | Some (id, name) =>
      match resolveNamedArtifactRef xJcs scope wf id name with
      | Err e => if isAbsentFile e then Ok None else Err (EWrap "workflow output_files.%s: %w" [key] (EFile e))
      | Ok ref => match blobsGet b ref with
                  | Err _ => Err (EErrf "workflow output_files.%s ref %q is missing from blobs: %w" [key; ref])
                  | Ok _ => Ok (Some ref)
                  end
      end
  end.
Fixpoint exportFiles (l : list (string * string)) : res goError (gmap string string) :=
  match l with
  | [] => Ok ∅
  | (key, raw) :: l =>
      let? ref := exportFile key raw in
      let? refs := exportFiles l in
      Ok (match ref with Some ref => <[key := ref]> refs | None => refs end)
  end.
End exports.

Section eval_exports.
Context `{Blobs B} `{Externals}.
Variable def : option LoadedDefinition.

Definition EvaluateExportsInDef (moduleID : string) (rs : RunState) (wf : Workflow) (ctxPath : string) (input : gomap) (b : B)
    : res goError WorkflowExportResult :=
  let scope := withCallSchemas (callChildOutputSchemas def moduleID wf) (NewScopeWithInput rs wf ctxPath input) in
  let? out := exportOutputs scope wf in
  let? files := exportFiles scope wf b (key_sort (map_to_list (wfArtifactExports wf))) in
  Ok (MkExport out files).

Definition evaluateWorkflowExports (moduleID : string) (parent : RunState) (wf : Workflow) (callPath : string) (input : gomap) (b : B)
    : res goError WorkflowExportResult :=
  EvaluateExportsInDef moduleID (childRunStateForCall parent callPath input) wf (CallWorkflowParentPath callPath) input b.
End eval_exports.

(** [EvaluateExports]: without a definition no call is classified. *)
Definition EvaluateExports `{Blobs B} `{Externals} : RunState → Workflow → string → gomap → B → res goError WorkflowExportResult :=
  EvaluateExportsInDef None "".
