(* ===== verification/Runtimes.v ===== *)
(** * engine/runtime_resolution.go, runtime_handles.go: the agent runtimes and containers of a workflow

    What is recorded when a workflow starts (which adapter, in which version, in which container), the
    comparison with what a resumed run finds, and the containers of a called workflow. *)

From S2P Require Import Prelude GoNum Sort GoJson GoStruct TmplLexer TmplParser TmplEval RetryPolicy GoPath EnginePath StateBlobs StateLog EngineEvents RunState EngineFold Journal Ir IrShape IrDiag ValStructural.
From S2P Require Import Commit Scope Artifacts Containers RetryLoop Agent Adapters Steps.

(** ** runtime_resolution.go *)

Record RuntimeRef : Type := MkRuntimeRef {
  rfModuleID : string; rfNodePath : string; rfRuntimeParent : string; rfUses : string; rfContainer : string }.

Definition AgentRuntimeRef (wf : Workflow) (moduleID uses : string) : string :=
  match RoleByName wf uses with
  | None => uses
  | Some _ =>
      if String.eqb moduleID "" then uses
      else "awf:role:" +:+ Itoa (Z.of_nat (slen moduleID)) +:+ ":" +:+ moduleID +:+ ":" +:+ uses
  end.

Definition withRuntimeCreatedContainer (existing : list string) (name : string) : list string :=
  if String.eqb name "" then existing else name :: existing.

Section walk_refs.
Variables (wf : Workflow) (moduleID runtimeParent : string).

(** The agent steps of one node, in document order, without those in a container made at run time. *)
Fixpoint walkRuntimeRefsNode (created : list string) (parent : string) (n : Node) (i : Z) : list RuntimeRef :=
  let go created p := walk_nodes (walkRuntimeRefsNode created p) in
  match n with
  | NAgent v =>
      let bare := (SplitContainerRef (asContainer v)).1 in
      if negb (String.eqb bare "") && mem bare created then []
      else [MkRuntimeRef moduleID (PathFor parent "" (asID v) i) runtimeParent (AgentRuntimeRef wf moduleID (asUses v)) (asContainer v)]
  | NCode _ | NSignal _ | NCall _ | NSkip _ | NReact _ => []
  | NIf _ t e => go created (ChildPath parent "if" i "then") t ++ go created (ChildPath parent "if" i "else") e
  | NLoop _ _ b => go created (ChildPath parent "loop" i "body") b
  | NTry d c f =>
      go created (ChildPath parent "try" i "do") d ++ go created (ChildPath parent "try" i "catch") c
      ++ go created (ChildPath parent "try" i "finally") f
  | NParallel ch => go created (PathFor parent "parallel" "" i) ch
  | NGate g e _ _ => go created (ChildPath parent "gate" i "generate") g ++ go created (ChildPath parent "gate" i "evaluate") e
  | NMap h b =>
      go (if String.eqb (mpImage h) "" then created else withRuntimeCreatedContainer created (mpContainer h))
        (ChildPath parent "map" i "body") b
  | NCompose as_ _ _ b => go (withRuntimeCreatedContainer created as_) (ChildPath parent "compose" i "body") b
  end.
End walk_refs.

(** The first of each (uses, container). *)
Definition sameRuntime (a b : RuntimeRef) : bool := String.eqb (rfUses a) (rfUses b) && String.eqb (rfContainer a) (rfContainer b).
Fixpoint firstRefs (l : list RuntimeRef) : list RuntimeRef :=
  match l with [] => [] | r :: l => r :: List.filter (λ r', negb (sameRuntime r r')) (firstRefs l) end.

Definition ref_leb (a b : RuntimeRef) : bool :=
  if negb (String.eqb (rfUses a) (rfUses b)) then String.leb (rfUses a) (rfUses b)
  else if negb (String.eqb (rfContainer a) (rfContainer b)) then String.leb (rfContainer a) (rfContainer b)
  else if negb (String.eqb (rfModuleID a) (rfModuleID b)) then String.leb (rfModuleID a) (rfModuleID b)
  else String.leb (rfNodePath a) (rfNodePath b).

Definition WalkRuntimeRefs (moduleID runtimeParent : string) (wf : Workflow) : list RuntimeRef :=
  sort_by ref_leb (firstRefs (walk_nodes (walkRuntimeRefsNode wf moduleID runtimeParent [] "") (wfGraph wf))).


Section resolve.
Context `{Adapters W}.

Definition resolveRuntime (cx : Context_) (handles : gmap string Handle) (ref : RuntimeRef) (w : W) : res goError ResolvedRuntime * W :=
  match aLookup (rfUses ref) with
  | None => (Err (EErrf "agent: no adapter registered for %q" [rfUses ref]), w)
  | Some adapter =>
      if String.eqb (rfContainer ref) "" then
        if negb (cpContainerless (adCaps adapter))
        then (Err (EErrf "engine: agent runtime %q requires a container, but the step declares none (only Containerless adapters may omit `container:`)" [rfUses ref]), w)
        else match adVersion adapter cx zeroHandle w with
             | (Err e, w) => (Err (EWrap "engine: adapter %q version resolution (module=%q path=%q containerless): %w" [rfUses ref; rfModuleID ref; rfNodePath ref] e), w)
             | (Ok v, w) => (Ok (MkResolvedRuntime (rfUses ref) v ""), w)
             end
      else
        let '(bare, svc) := SplitContainerRef (rfContainer ref) in
        let key := QualifiedContainerKey (rfRuntimeParent ref) bare in
        match handles !! key with
        | None => (Err (EErrf "engine: no handle for container %q (key %q, module=%q path=%q)" [rfContainer ref; key; rfModuleID ref; rfNodePath ref]), w)
        | Some h =>
            let h := if String.eqb svc "" then h else withService svc h in
            match adVersion adapter cx h w with
            | (Err e, w) => (Err (EWrap "engine: adapter %q version resolution in container %q (module=%q path=%q): %w" [rfUses ref; key; rfModuleID ref; rfNodePath ref] e), w)
            | (Ok v, w) => (Ok (MkResolvedRuntime (rfUses ref) v (QualifiedContainerKey (rfRuntimeParent ref) (rfContainer ref))), w)
            end
        end
  end.
Fixpoint ResolveRuntimes (cx : Context_) (handles : gmap string Handle) (refs : list RuntimeRef) (w : W)
    : res goError (list ResolvedRuntime) * W :=
  match refs with
  | [] => (Ok [], w)
  | ref :: refs =>
      match resolveRuntime cx handles ref w with
      | (Err e, w) => (Err e, w)
      | (Ok r, w) => match ResolveRuntimes cx handles refs w with
                     | (Err e, w) => (Err e, w)
                     | (Ok rs, w) => (Ok (r :: rs), w)
                     end
      end
  end.
End resolve.

Fixpoint firstDrift (recorded current : list ResolvedRuntime) : option goError :=
  match recorded, current with
  | r :: recorded, c :: current =>
      if negb (String.eqb (rrRef r) (rrRef c)) || negb (String.eqb (rrContainer r) (rrContainer c))
      then Some (EErrf "engine: agent runtime set drift: recorded (ref=%q, container=%q), now (ref=%q, container=%q)" [rrRef r; rrContainer r; rrRef c; rrContainer c])
      else if negb (String.eqb (rrVersion r) (rrVersion c))
      then Some (EErrf "engine: agent runtime drift for %q in container %q: recorded %q, now %q" [rrRef r; rrContainer r; rrVersion r; rrVersion c])
      else firstDrift recorded current
  | _, _ => None
  end.
Definition CheckRuntimesDrift (recorded current : list ResolvedRuntime) : option goError :=
  if negb (length recorded =? length current)%nat
  then Some (EErrf "engine: agent runtime set drift: recorded %d runtime(s), now %d" [Itoa (Z.of_nat (length recorded)); Itoa (Z.of_nat (length current))])
  else firstDrift recorded current.

(** ** runtime_handles.go *)

(** [errors.Join] of an error with another: only the text of the second is used. *)
Definition joined (e : goError) (more : option goError) : goError :=
  match more with None => e | Some _ => EWrap "%w\n%v" [] e end.

Section handles.
Context `{World W}.

Definition createOrRestoreRuntimeHandle (cx : Context_) (ctr : Container) (spec : ContainerSpec) (key : string) (rs : RunState) (w : W)
    : res goError Handle * W :=
  let ref := default "" (rsSnapshotRefs rs !! key) in
  if String.eqb (coSnapshot ctr) "workspace" && negb (String.eqb ref "") then wRestore cx ref key w else wCreate cx spec w.

(** Every handle is destroyed, whatever fails; the errors are joined.  Go's order is random. *)
Fixpoint destroyHandles (l : list (string * Handle)) (w : W) : option goError * W :=
  match l with
  | [] => (None, w)
  | (key, h) :: l =>
      let '(e, w) := wDestroy h w in
      let '(es, w) := destroyHandles l w in
      (match e with Some e => Some (joined (EWrap "destroy child container %q: %w" [key] e) es) | None => es end, w)
  end.
Definition destroyRuntimeHandles (handles : gmap string Handle) (w : W) : option goError * W := destroyHandles (map_to_list handles) w.

Section create.
Variables (cx : Context_) (wf : Workflow) (composeFiles : gmap string string) (runtimeParent : string) (rs : RunState).
(** In the order of the names; what was created is destroyed when one fails. *)
Fixpoint createHandles (l : list (string * Container)) (handles : gmap string Handle) (w : W) : res goError (gmap string Handle) * W :=
  match l with
  | [] => (Ok handles, w)
  | (name, ctr) :: l =>
      if bool_decide (name ∈ MapImageTargets wf) then createHandles l handles w
      else
        let key := QualifiedContainerKey runtimeParent name in
        match createOrRestoreRuntimeHandle cx ctr (withName key (ContainerSpecFor wf composeFiles name)) key rs w with
        | (Ok h, w) => createHandles l (<[key := h]> handles) w
        | (Err e, w) =>
            let '(de, w) := destroyRuntimeHandles handles w in
            (Err (EWrap "create child container %q: %w" [name] (joined e de)), w)
        end
  end.
Definition createRuntimeHandles (w : W) : res goError (gmap string Handle) * W :=
  createHandles (key_sort (map_to_list (default ∅ (wfContainers wf)))) ∅ w.
End create.
End handles.
