(* ===== verification/AgentStep.v ===== *)
(** * engine/agent_step.go: agent steps

    [runAgentStep]: what is substituted and resolved before the dispatch, the conversation the step
    continues, the skills it is given, the attempts with the live events they journal, the events that are
    left, and the commit, whose transcript is kept when another step continues this one; with
    engine/agent_event_sink.go, the sink that merges the deltas of a live session.  The tap is left out. *)

From S2P Require Import Prelude GoNum Sort GoJson GoStruct Signal TmplLexer TmplParser TmplSlots TmplEval RetryPolicy.
From S2P Require Import EnginePath GoPath StateBlobs StateLog EngineEvents Ir RunState EngineFold Journal SkillRoute Agent DisplaySanitize Commit Scope Threads Artifacts Containers.
From S2P Require Import RetryLoop Adapters Steps Skills Runtimes.

(** What a sink of live events is handed, in order: an event of the attempt, or the tick of the delta timer. *)
Inductive SinkInput : Type := SinkEvent (ev : AgentEvent) | SinkTick.

(** What the step needs of the outside: [ahStagingRoot], the staging root of the backend, "" for none;
    [ahWorkflowDir], the directory of a module's workflow file; [ahRedact], the regular expressions of
    agent.RedactDisplayText; [ahLive], what the sink has been handed since it was last asked, and the error
    of a full buffer or a done context; [ahFinalize], RunOptions' finalizer of live sessions and the message
    of its error. *)
Class AgentHost (W : Type) : Type := {
  ahStagingRoot : string;
  ahWorkflowDir : string → string;
  ahRedact : string → string;
  ahLive : W → (list SinkInput * option goError) * W;
  ahFinalize : option (LiveDispatchRecord → W → option string * W)
}.

Definition defaultIdleCoarse : Z := (300 * Second)%Z.
Definition recoveryRestart : string := "restart".
Definition effectiveRecovery (authored : string) (persistentSession : bool) : string :=
  if negb (String.eqb authored "") then authored else if persistentSession then recoveryContinue else recoveryRestart.
Definition withRecovery (r : string) (po : Policy) : Policy :=
  MkPolicy (Attempts po) (Backoff po) (Initial po) (Max po) (NonRetryableExitCodes po) r.

Definition dispatcherStagingRoot (root : string) : string := if String.eqb root "" then "/work/.awf" else root.

(** ** The events of an attempt *)

Definition AgentEventInlineThreshold : Z := 4096.
Definition agentEventDisplayFieldLimit : nat := 1024.

(** [boundDisplayField]: the runes that fit; those of an invalid byte are three bytes wide. *)
Fixpoint boundCut (fuel : nat) (i : nat) (s : string) (limit cut : nat) : nat :=
  match fuel with
  | O => cut
  | S fuel =>
      match s with
      | "" => cut
      | String _ rest =>
          let w := match utf8_span s with Some n => n | None => 3%nat end in
          let next := (i + w)%nat in
          if (limit <? next)%nat then cut
          else match utf8_span s with
               | Some n => boundCut fuel (i + n) (sdrop n s) limit next
               | None => boundCut fuel (i + 1) rest limit next
               end
      end
  end.
Definition boundDisplayField (s : string) (limit : nat) : string :=
  let len := slen s in
  if (len <=? limit)%nat then s
  else let cut := boundCut len 0 s limit 0 in
       if (cut =? 0)%nat then "...[truncated " +:+ Itoa (Z.of_nat len) +:+ " bytes]"
       else stake cut s +:+ "...[truncated " +:+ Itoa (Z.of_nat len - Z.of_nat cut) +:+ " bytes]".

(** base64.StdEncoding, as encoding/json writes a []byte. *)
Definition base64Digit (n : nat) : ascii :=
  match String.get n "ABCDEFGHIJKLMNOPQRSTUVWXYZabcdefghijklmnopqrstuvwxyz0123456789+/" with Some c => c | None => "="%char end.
Fixpoint EncodeBase64 (s : string) : string :=
  match s with
  | "" => ""
  | String a "" => let a := nat_of_ascii a in
      String (base64Digit (a / 4)) (String (base64Digit (a mod 4 * 16)) "==")
  | String a (String b "") => let a := nat_of_ascii a in let b := nat_of_ascii b in
      String (base64Digit (a / 4)) (String (base64Digit (a mod 4 * 16 + b / 16)) (String (base64Digit (b mod 16 * 4)) "="))
  | String a (String b (String c r)) => let a := nat_of_ascii a in let b := nat_of_ascii b in let c := nat_of_ascii c in
      String (base64Digit (a / 4)) (String (base64Digit (a mod 4 * 16 + b / 16))
        (String (base64Digit (b mod 16 * 4 + c / 64)) (String (base64Digit (c mod 64)) (EncodeBase64 r))))
  end.

(** The record of an event, with the payload inline or its reference. *)
Record AgentEventData : Type := MkAgentEventData {
  aedKind : string; aedStream : string; aedSize : Z; aedLive : bool; aedDisplay : EventDisplay; aedInline : string; aedRef : string }.
Definition AgentEventData_json (d : AgentEventData) : json :=
  obj [ field "kind" (JStr (aedKind d)); omit_str "stream" (aedStream d); field "size" (JNum (Itoa (aedSize d)));
        omit_bool "live" (aedLive d); omit_str "display_class" (DisplayClass_String (edClass (aedDisplay d)));
        omit_str "display_tool" (edTool (aedDisplay d)); omit_str "display_summary" (edText (aedDisplay d));
        omit_int "display_lines" (edLines (aedDisplay d)); omit_int "display_bytes" (edBytes (aedDisplay d));
        omit_bool "display_is_error" (edIsError (aedDisplay d)); omit_str "payload_inline" (EncodeBase64 (aedInline d));
        omit_str "payload_ref" (aedRef d) ].

(** ** The configuration *)

(** [substituteRawConfig]: the strings at the top.  An empty map becomes nil; the order of a Go map only
    decides whose error is reported. *)
Fixpoint substituteEntries (R : Ref → res goerr value) (l : list (string * value)) : res goError (list (string * value)) :=
  match l with
  | [] => Ok []
  | (k, v) :: l =>
      let? v := match v with
                | VString s => res_map VString (res_map_err (λ e, EWrap "substitute %q: %w" [k] (ETmpl e)) (Substitute R s))
                | _ => Ok v
                end in
      let? vs := substituteEntries R l in Ok ((k, v) :: vs)
  end.
Definition substituteRawConfig (R : Ref → res goerr value) (m : RawConfig) : res goError RawConfig :=
  match m with None | Some [] => Ok None | Some l => res_map Some (substituteEntries R l) end.

(** The last verdict of the gate the step repairs, when it has fields. *)
Definition feedbackFor (rs : RunState) (path : string) : RawConfig :=
  match enclosingGateForEvaluate path with
  | None => None
  | Some gatePath => match last (LookupGateAttempts rs gatePath) with
                     | Some a => match arVerdict a with Some (_ :: _) => arVerdict a | _ => None end
                     | None => None
                     end
  end.

(** The inline files of a step without a container, in the order of their labels. *)
Section inline.
Context `{Externals}.
Variables (get : string → res blobErr string) (scope : Scope) (wf : Workflow) (moduleID : string) (assets : gmap string RunStartedAsset).
Definition inlineFile (label rawRef : string) : res fileErr AgentInputFile :=
  wrapErr "input_files[%s]: %w" [label]
    (let? cb := resolveSingleRefBytes xJcs get scope wf moduleID assets rawRef in
     match DetectMIME label cb.2 with
     | Err m => fails m
     | Ok mime => Ok (MkAgentInputFile label cb.2 mime)
     end).
Definition resolveContainerlessInputFiles (ins : gmap string string) : res fileErr (list AgentInputFile) :=
  res_mapM (λ kv : string * string, inlineFile kv.1 kv.2) (sorted_entries ins).
End inline.

Section agent.
Context `{Log L} `{Blobs B} `{World W} `{Signals W} `{Externals} `{Adapters W} `{AgentHost W} `{Unicode} `{MathLog}.
#[local] Notation St := (St L B W).
#[local] Notation run := (option (Result * St)).

(** *** agent.event *)

Definition displayable (s : string) : string := ahRedact (SanitizeDisplayText s).
Definition liveDisplayField (s : string) : string := boundDisplayField (displayable s) agentEventDisplayFieldLimit.
Definition eventPayload (ev : AgentEvent) : string := if evLive ev then displayable (evPayload ev) else evPayload ev.
Definition eventData (ev : AgentEvent) (inline ref : string) : AgentEventData :=
  let d := evDisplay ev in
  MkAgentEventData (evKind ev) (evStream ev) (Z.of_nat (slen (eventPayload ev))) (evLive ev)
    (MkDisplay (edClass d) (liveDisplayField (edTool d)) (liveDisplayField (edText d)) (edLines d) (edBytes d) (edIsError d)) inline ref.

(** The event is written with its payload, or with the reference of a payload that is kept apart. *)
Definition writeAgentEvent (path : string) (d : AgentEventData) (l : L) : option goError * L :=
  let '(e, l) := appendEvent EventAgentEvent path (AgentEventData_json d) l in (EEng <$> e, l).
Definition appendAgentEvent (path : string) (ev : AgentEvent) (s : L * B) : option goError * (L * B) :=
  let payload := eventPayload ev in
  if (AgentEventInlineThreshold <=? Z.of_nat (slen payload))%Z then
    match blobsPut payload s.2 with
    | (Err e, b) => (Some (EWrap "Blobs.Put agent.event payload: %w" [] (EEng (PutFailed "agent.event" path e))), (s.1, b))
    | (Ok ref, b) => let '(e, l) := writeAgentEvent path (eventData ev "" ref) s.1 in (e, (l, b))
    end
  else let '(e, l) := writeAgentEvent path (eventData ev payload "") s.1 in (e, (l, s.2)).
Fixpoint appendAgentEvents (path : string) (events : list AgentEvent) (s : L * B) : option goError * (L * B) :=
  match events with
  | [] => (None, s)
  | ev :: events => match appendAgentEvent path ev s with (Some e, s) => (Some e, s) | (None, s) => appendAgentEvents path events s end
  end.

(** *** agentEventSink *)

(** The delta that is held back, and the sink's error. *)
Record Sink : Type := MkSink { skPending : option AgentEvent; skErr : option goError }.

Definition isDelta (ev : AgentEvent) : bool := evLive ev && bool_decide (edClass (evDisplay ev) = DisplayAssistantDelta).
Definition mergeDelta (ev : AgentEvent) (pending : option AgentEvent) : AgentEvent :=
  match pending with
  | None => ev
  | Some p => let d := evDisplay p in
      MkAgentEvent (evKind ev) (evPayload p +:+ evPayload ev) (evStream ev) (evLive p)
        (MkDisplay (edClass d) (edTool d) (edText d +:+ edText (evDisplay ev)) (edLines d) (edBytes d) (edIsError d))
  end.

Definition appendOne (path : string) (ev : AgentEvent) (k : Sink) (s : L * B) : Sink * (L * B) :=
  match appendAgentEvents path [ev] s with
  | (Some e, s) => (MkSink (skPending k) (Some (EWrap "append live agent.event at %q: %w" [path] e)), s)
  | (None, s) => (k, s)
  end.
Definition flushPendingDelta (path : string) (k : Sink) (s : L * B) : Sink * (L * B) :=
  match skPending k with None => (k, s) | Some ev => appendOne path ev (MkSink None (skErr k)) s end.
Definition handleEvent (path : string) (ev : AgentEvent) (k : Sink) (s : L * B) : Sink * (L * B) :=
  if isDelta ev then (MkSink (Some (mergeDelta ev (skPending k))) (skErr k), s)
  else let '(k, s) := flushPendingDelta path k s in
       match skErr k with Some _ => (k, s) | None => appendOne path ev k s end.
(** [run], until an error. *)
Fixpoint sinkRun (path : string) (inputs : list SinkInput) (k : Sink) (s : L * B) : Sink * (L * B) :=
  match skErr k, inputs with
  | Some _, _ | _, [] => (k, s)
  | None, i :: inputs =>
      let '(k, s) := match i with SinkEvent ev => handleEvent path ev k s | SinkTick => flushPendingDelta path k s end in
      sinkRun path inputs k s
  end.
(** The request of [flushWait], and the end of [closeWait]: what is still there, and the delta. *)
Definition sinkFlush (path : string) (k : Sink) (s : L * (W * B)) : Sink * (L * (W * B)) :=
  match skErr k with
  | Some _ => (k, s)
  | None =>
      let '((inputs, oe), w) := ahLive s.2.1 in
      let '(k, (l, b)) := sinkRun path inputs k (s.1, s.2.2) in
      match skErr k, oe with
      | Some _, _ => (k, (l, (w, b)))
      | None, Some e => (MkSink (skPending k) (Some e), (l, (w, b)))
      | None, None => let '(k, (l, b)) := flushPendingDelta path k (l, b) in (k, (l, (w, b)))
      end
  end.

(** The attempts run with the sink beside them. *)
#[local] Instance SinkWorld : World (W * (B * Sink)) := {
  wDispatch cx h i w := let '(r, w') := wDispatch cx h i w.1 in (r, (w', w.2));
  wSleep cx d w := let '(r, w') := wSleep cx d w.1 in (r, (w', w.2));
  wNotice n w := (wNotice n w.1, w.2);
  wCtxErr cx w := wCtxErr cx w.1;
  wLocal := @wLocal W _;
  wCreate cx p w := let '(r, w') := wCreate cx p w.1 in (r, (w', w.2));
  wRestore cx r k w := let '(x, w') := wRestore cx r k w.1 in (x, (w', w.2));
  wDestroy h w := let '(e, w') := wDestroy h w.1 in (e, (w', w.2))
}.
Definition flushWait (path : string) (s : L * (W * (B * Sink))) : option goError * (L * (W * (B * Sink))) :=
  let '(l, (w, (b, k))) := s in
  let '(k, (l, (w, b))) := sinkFlush path k (l, (w, b)) in (skErr k, (l, (w, (b, k)))).

(** *** The step *)

Variable ic : Ictx.

(** The configuration, the key of the step, the policy of its attempts. *)
Definition prepareConfig (rs : RunState) (v : AgentStep) (path : string) : res prepErr (RawConfig * string * Policy) :=
  let scope := Resolve (scopeAt ic rs path) in
  let? with_ := failing (res_map_err (EWrap "engine.runAgentStep: substitute with at %q: %w" [path]) (substituteRawConfig scope (asWith v))) in
  let? idemKey := (match asIdempotencyKey v with
                   | None => Ok ""
                   | Some k => failing (res_map_err (λ e, EWrap "engine.runAgentStep: substitute idempotency_key at %q: %w" [path] (ETmpl e)) (Substitute scope k))
                   end) in
  let? policy := res_map_err (λ name, PInternal (EErrf "engine.runAgentStep: build retry policy at path %q: %w" [path; name]))
                   (Merge AgentDefault (asRetry v)) in
  if String.eqb (asContainer v) "" && match asSkills v with Some _ => true | None => false end
  then Err (PFail (EErrf "engine.runAgentStep: skills requires a container; agent step %q is containerless" [asID v]))
  else Ok (with_, idemKey, policy).

Definition mapPrep (f : goError → goError) (e : prepErr) : prepErr :=
  match e with PFail e => PFail (f e) | PInternal e => PInternal (f e) end.
Definition agentSkills (v : AgentStep) (path : string) (s : St) : res prepErr (option (StepSkillRouting * SkillsSelectedData * Corpus)) * St :=
  match asSkills v with
  | None => (Ok None, s)
  | Some sk =>
      let '(r, s) := selectAgentStepSkills ic sk path s in
      (res_map (λ dc, Some (sk, dc.1, dc.2)) (res_map_err (mapPrep (EWrap "engine.runAgentStep: select skills at %q: %w" [path])) r), s)
  end.

Definition threadFailure (path : string) (e : threadErr) : goError :=
  match e with
  | ThreadResolve cur m => EMsg (EmWrap "engine.runAgentStep: resolve continues target %q at %q: %w" [cur; path] m)
  | ThreadNotCommitted cur rt => EErrf "engine.runAgentStep: continues target %q not committed (runtime %q)" [cur; rt]
  | ThreadNoTranscript cur rt => EErrf "engine.runAgentStep: continues target %q has no committed transcript (runtime %q)" [cur; rt]
  end.
(** The walk of [continues:] stays in the agent steps, unless it comes round. *)
Definition continuedTurns (ti : ThreadIndexes) (rs : RunState) (v : AgentStep) (path : string) : option (res threadErr (list ThreadTurn)) :=
  assembleTurns ti (scopeAt ic rs path) rs (2 + size (agentStepIdx ti)) (asContinues v) [].

(** The files that go into the container, or with the message. *)
Definition agentFiles (rs : RunState) (b : B) (v : AgentStep) (path : string) (skills : option (StepSkillRouting * SkillsSelectedData * Corpus))
    : res prepErr (list InputFile * list AgentInputFile) :=
  let scope := scopeAt ic rs path in
  if String.eqb (asContainer v) "" then
    let? l := failingFile "engine.runAgentStep: stage input_files at %q: %w" path id
                (resolveContainerlessInputFiles (blobsGet b) scope (icWf ic) (icModuleID ic) (rsAssets rs) (asInputFiles v)) in
    Ok ([], l)
  else
    let? entries := failingFile "engine.runAgentStep: stage input_files at %q: %w" path id
                      (resolveInputFileEntries xJcs (blobsGet b) scope (icWf ic) (icModuleID ic) (rsAssets rs) (asInputFiles v)) in
    let? skillFiles := (match skills with
                        | None => Ok []
                        | Some (sk, d, c) => failing (res_map_err EFile (resolveSelectedSkillFiles d c (srtInto sk)))
                        end) in
    let? entries := failing (res_map_err EFile (inputFilesFromResolvedEntries (entries ++ skillFiles))) in
    Ok (map rifFile entries, []).

(** The directories of an adapter that is given its own configuration. *)
Definition sessionDirs (rs : RunState) (caps : option Caps) : string * string :=
  match caps with
  | None => ("", "")
  | Some c =>
      if negb (cpContainerless c) && (cpIsolatedConfigDir c || cpPersistentSession c)
      then let dir := dispatcherStagingRoot ahStagingRoot +:+ "/claude-session/" +:+ rsRunID rs in
           (dir, if cpPersistentSession c then dir +:+ "/projects" else "")
      else ("", "")
  end.

Definition prepareAgentStep (rs : RunState) (b : B) (v : AgentStep) (path : string) (with_ : RawConfig) (idemKey : string) (policy : Policy)
    (skills : option (StepSkillRouting * SkillsSelectedData * Corpus)) (feedback : RawConfig) (turns : list ThreadTurn) : res prepErr (NodeIntent * Policy) :=
  let scope := scopeAt ic rs path in
  let evaluating := isGateEvaluateContext path in
  let? (inputFiles, inlineFiles) := agentFiles rs b v path skills in
  let? (outputFiles, contracts) :=
    failingFile "engine.runAgentStep: resolve output_files contracts at %q: %w" path
      (EWrap "engine.runAgentStep: substitute output_files at %q: %w" [path])
      (resolveOutputFiles compileError (blobsGet b) (icModuleID ic) (rsAssets rs) (Resolve scope) (asOutputFiles v)) in
  let uses := AgentRuntimeRef (icWf ic) (icModuleID ic) (asUses v) in
  let adapter := aLookup uses in
  let caps := adCaps <$> adapter in
  let '(configDir, sessionDir) := sessionDirs rs caps in
  let policy := withRecovery (effectiveRecovery (Recovery policy) (match caps with Some c => cpPersistentSession c | None => false end)) policy in
  let? roleWith := (match adapter ≫= adRoleWith with
                    | Some (Some (_ :: _) as raw) =>
                        failing (res_map_err (EWrap "engine.runAgentStep: substitute role with: at %q: %w" [path]) (substituteRawConfig (Resolve scope) raw))
                    | _ => Ok None
                    end) in
  let snapshot := match default ∅ (wfContainers (icWf ic)) !! (SplitContainerRef (asContainer v)).1 with
                  | Some c => coSnapshot c | None => "" end in
  let wall := default 0%Z (t ← asTimeout v; toWall t) in
  let idle := match t ← asTimeout v; toIdle t with
              | Some i => i
              | None => match caps with Some c => match cpSurfacesLiveness c with LivenessCoarse => defaultIdleCoarse | _ => 0%Z end | None => 0%Z end
              end in
  let agent := MkAgentInputs uses with_ roleWith (ahWorkflowDir (icModuleID ic)) (asOutputArtifact v) feedback
                 (if evaluating then [] else turns) (if evaluating then turns else []) inlineFiles configDir sessionDir in
  Ok (MkIntent path (NAgent v)
        (MkInputs "" ∅ outputFiles contracts (asOutputSchema v) (NonRetryableExitCodes policy) wall idle inputFiles snapshot agent)
        idemKey 0 false evaluating (MkRunContext (rsRunID rs) (rsEpoch rs) (rsEpoch rs)),
      policy).

(** What is written when the finalizer of the session fails, whatever comes of it. *)
Definition finalizerWarning (msg : string) : AgentEvent :=
  MkAgentEvent "live.finalizer.warning" msg "stderr" true (MkDisplay DisplayNotice "" msg 0 0 false).
Definition finalizeLive (path : string) (live : option LiveDispatchRecord) (s : St) : St :=
  match live, ahFinalize with
  | Some lv, Some finalize =>
      match finalize lv (stW s) with
      | (None, w) => setW w s
      | (Some msg, w) => let '(_, (l, b)) := appendAgentEvents path [finalizerWarning msg] (stLog s, stBlobs s) in MkSt l b (stRS s) w
      end
  | _, _ => s
  end.

(** The commit: the transcript is kept when a step continues this one. *)
Definition commitAgentStep (ti : ThreadIndexes) (v : AgentStep) (path : string) (dr : DispatchResult) (s : St) : Result * St :=
  match liftH (Commit xJcs path dr (bool_decide (asID v ∈ threadTargetSet ti))) s with
  | (Err e, s) => (internal (EWrap "engine.runAgentStep: commit at %q: %w" [path] (EEng e)), s)
  | (Ok nr, s) => (okResult, finalizeLive path (drLive dr) (setRS (RecordCompleted path nr (stRS s)) s))
  end.

(** From node.started to the commit: the attempts, what the sink still holds, the other events. *)
Definition dispatchAgentStep (cx : Context_) (ti : ThreadIndexes) (v : AgentStep) (path : string) (intent : NodeIntent) (policy : Policy) (s : St) : Result * St :=
  let s := appendNodeStarted path "agent" s in
  let '((dr, runErr), (l, (w, (b, k)))) :=
    RunWithRetry (Some (flushWait path)) cx (icDispatcher ic) intent policy (stLog s, (stW s, (stBlobs s, MkSink None None))) in
  let '(k, (l, (w, b))) := sinkFlush path k (l, (w, b)) in
  let '(appendErr, (l, b)) := appendAgentEvents path (drAgentEvents dr) (l, b) in
  let s := MkSt l b (stRS s) w in
  match skErr k, runErr with
  | Some e, _ => (internal (EWrap "engine.runAgentStep: live agent.event sink at %q: %w" [path] e), s)
  | None, Some e =>
      if String.eqb (drOutcome dr) "" then (internal (EWrap "engine.runAgentStep: dispatch at path %q: %w" [path] e), s)
      else failStep path (drOutcome dr) e s
  | None, None =>
      match appendErr with
      | Some e => (internal (EWrap "engine.runAgentStep: append agent.event entries at %q: %w" [path] e), s)
      | None => commitAgentStep ti v path dr s
      end
  end.

Definition failPrep (path : string) (e : prepErr) (s : St) : Result * St :=
  match e with PFail e => failStep path OutcomePermanentFailure e s | PInternal e => (internal e, s) end.

(** [runAgentStepWithContext]; [None]: its conversation has no beginning. *)
Definition runAgentStep (cx : Context_) (v : AgentStep) (path : string) (s : St) : run :=
  match LookupCompleted (stRS s) path with
  | Some _ => Some (okResult, s)
  | None =>
      match prepareConfig (stRS s) v path with
      | Err e => Some (failPrep path e s)
      | Ok (with_, idemKey, policy) =>
          match agentSkills v path s with
          | (Err e, s) => Some (failPrep path e s)
          | (Ok skills, s) =>
              let feedback := feedbackFor (stRS s) path in
              let '(ti, rs) := threadIndexes (icWf ic) (stRS s) in
              let s := setRS rs s in
              match continuedTurns ti rs v path with
              | None => None
              | Some (Err e) => Some (failStep path OutcomePermanentFailure (threadFailure path e) s)
              | Some (Ok turns) =>
                  match prepareAgentStep rs (stBlobs s) v path with_ idemKey policy skills feedback turns with
                  | Err e => Some (failPrep path e s)
                  | Ok (intent, policy) => Some (dispatchAgentStep cx ti v path intent policy s)
                  end
              end
          end
      end
  end.
End agent.
