(* ===== verification/React.v ===== *)
(** * engine/react.go: model and tools, round by round

    A react step asks a model, dispatches the tools it calls, and asks again with their results, until it
    stops calling tools or has had its turns.  Every answer of the model and every result of a tool is a
    committed node of its own, so a resumed run reads them back and goes on.  The model is the optional
    interface ToolLoopRunner of an adapter; tools run as code steps through the dispatcher. *)

From S2P Require Import Prelude GoNum GoJson GoStruct Signal TmplLexer TmplParser TmplEval TmplSlots RetryPolicy EnginePath GoPath.
From S2P Require Import StateBlobs StateLog EngineEvents Ir RunState EngineFold Journal Agent Commit Scope Artifacts Containers.
From S2P Require Import RetryLoop Adapters Steps Contracts Runtimes AgentStep.

Definition defaultMaxTurns : Z := 8.
Definition toolResultCap : nat := 16384.

(** ** The answer of a model *)

Record modelResult : Type := MkModel {
  mrText : string; mrOutput : gomap; mrToolCalls : list ToolCall; mrFinishReason : string; mrMetrics : option MetricSet }.
Definition toModelResult (r : ToolLoopResult) : modelResult :=
  MkModel (trText r) (trOutput r) (trToolCalls r) (trFinishReason r) (trMetrics r).

Definition asString (v : option value) : string := match v with Some (VString s) => s | _ => "" end.
(** The int64 that json.Number.Int64 gives beside its error: a number out of range is cut at it, what is no
    integer gives 0. *)
Definition numberInt64 (s : string) : Z :=
  let cut z := Z.max (- two63) (Z.min z (two63 - 1)) in
  match s with
  | String "-"%char r => cut (- default 0%Z (parse_digits r))%Z
  | String "+"%char r => cut (default 0%Z (parse_digits r))
  | _ => cut (default 0%Z (parse_digits s))
  end.
(** The conversion of a float64 is that of an int64 inside its range. *)
Definition jsonInt (v : option value) : Z :=
  match v with
  | Some (VInt n) | Some (VInt64 n) => n
  | Some (VFloat f) => f64_trunc f
  | Some (VNumber s) => numberInt64 s
  | _ => 0%Z
  end.

(** What a .model leaf commits, and what is read back of it. *)
Definition callOutputs (tc : ToolCall) : value :=
  VMap [("index", VInt (tcIndex tc)); ("id", VString (tcID tc)); ("name", VString (tcName tc)); ("arguments", VString (tcArguments tc))].
Definition modelLeafOutputs (mr : modelResult) : gomap :=
  Some ([("text", VString (mrText mr)); ("finish_reason", VString (mrFinishReason mr)); ("tool_calls", VSlice (map callOutputs (mrToolCalls mr)))]
        ++ match mrOutput mr with Some o => [("output", VMap o)] | None => [] end).

Fixpoint readCalls (l : list value) : res EvalMsg (list ToolCall) :=
  match l with
  | [] => Ok []
  | VMap m :: l =>
      let? calls := readCalls l in
      Ok (MkToolCall (jsonInt (entry_get "index" m)) (asString (entry_get "id" m)) (asString (entry_get "name" m)) (asString (entry_get "arguments" m)) :: calls)
  | v :: _ => Err (EmFmt "tool_calls[%d] is %T, want object" [goType v])
  end.
Definition roundResultFromLeaf (nr : NodeResult) : res EvalMsg modelResult :=
  let o := default [] (nrOutputs nr) in
  let text := asString (entry_get "text" o) in
  let reason := asString (entry_get "finish_reason" o) in
  let out := match entry_get "output" o with Some (VMap m) => Some m | _ => None end in
  match entry_get "tool_calls" o with
  | Some (VSlice raw) => let? calls := readCalls raw in Ok (MkModel text out calls reason None)
  | _ => Ok (MkModel text out [] reason None)
  end.

Definition buildAssistantTurn (mr : modelResult) : ReactTurn := MkReactTurn "assistant" (mrText mr) (mrToolCalls mr) "".
Definition toolTurn (id content : string) : ReactTurn := MkReactTurn "tool" content [] id.
Definition toolMessageFromLeaf (id : string) (nr : NodeResult) : ReactTurn :=
  toolTurn id (asString (entry_get "content" (default [] (nrOutputs nr)))).

(** ** One call of a model, one call of a tool *)

Definition usesOf (r : React) : string := asString (entry_get "uses" (default [] (reWith r))).
Definition toolDefs (wf : Workflow) (names : list string) : list ToolDef :=
  omap (λ name, t ← wfTools wf !! name; Some (MkToolDef name (tlDescription t) (tlInputSchema t))) names.
Definition buildToolLoopInvocation (r : React) (wf : Workflow) (modelPath : string) (msgs : list ReactTurn) : ToolLoopInvocation :=
  MkToolLoop modelPath (usesOf r) (reWith r) msgs (toolDefs wf (default [] (reTools r))) (reOutputSchema r).

Definition toolByName (r : React) (wf : Workflow) (name : string) : option Tool :=
  if existsb (String.eqb name) (default [] (reTools r)) then wfTools wf !! name else None.

Definition sanitizeSegmentByte (c : ascii) : ascii := if mem (String c "") ["."; "["; "]"; "/"; " "] then "_"%char else c.
Fixpoint sanitizePathSegment (p : string) : string :=
  match p with "" => "" | String c p => String (sanitizeSegmentByte c) (sanitizePathSegment p) end.
Definition argsFilePath (toolPath root : string) : string := root +:+ "/" +:+ sanitizePathSegment toolPath +:+ ".args.json".
Definition parseArgsBestEffort (raw : string) : gomap := if String.eqb raw "" then None else default None (unmarshalMap raw).

Definition boundToolResult (exitCode : Z) (stdout : string) : string :=
  if negb (utf8_valid stdout) then "[non-text tool output: " +:+ Itoa (Z.of_nat (slen stdout)) +:+ " bytes, exit " +:+ Itoa exitCode +:+ "]"
  else let s := boundDisplayField stdout toolResultCap in
       if (exitCode =? 0)%Z then s else "[exit " +:+ Itoa exitCode +:+ "]" +:+ String (chr 10) s.

Fixpoint toolOutputFilePaths (ofs : OutputFiles) (R : Ref → res goerr value) : res goError (list string) :=
  match ofs with
  | [] => Ok []
  | f :: ofs =>
      let? p := res_map_err (λ e, EWrap "output_files %q: %w" [ofName f] (ETmpl e)) (Substitute R (ofPath f)) in
      let? ps := toolOutputFilePaths ofs R in
      Ok (p :: ps)
  end.

(** ** The leaves *)

(** A result that is ok: what is committed of an answer, of a tool, and at the end. *)
Definition leafResult (exitCode : option Z) (out : gomap) (stdout : string) (files : list CapturedFile) (metrics : option MetricSet) : DispatchResult :=
  MkDispatch OutcomeOK exitCode out stdout files None 0 metrics zeroTurn None "" "" "" "" None [] [].
Definition modelLeaf (mr : modelResult) : DispatchResult := leafResult None (modelLeafOutputs mr) "" [] (mrMetrics mr).
(** What a tool that ran leaves, whatever its exit code. *)
Definition toolLeaf (exitCode : Z) (dr : DispatchResult) : DispatchResult :=
  leafResult (Some exitCode)
    (Some [("exit_code", VInt exitCode); ("stdout", VString (drStdout dr)); ("content", VString (boundToolResult exitCode (drStdout dr)))])
    (drStdout dr) (drFiles dr) None.
Definition terminalOutputs (r : React) (mr : modelResult) (stopReason : string) : list (string * value) :=
  entry_set "stop_reason" (VString stopReason)
    (if String.eqb stopReason "max_turns" then [("text", VString (mrText mr))]
     else match reOutputSchema r with
          | Some _ => default [] (mrOutput mr)
          | None => [("text", VString (mrText mr))]
          end).
Definition terminalLeaf (r : React) (mr : modelResult) (stopReason : string) : DispatchResult :=
  leafResult None (Some (terminalOutputs r mr stopReason)) "" [] None.

Section react.
Context `{Log L} `{Blobs B} `{World W} `{Signals W} `{Externals} `{Adapters W} `{AgentHost W}.
#[local] Notation St := (St L B W).
Variable ic : Ictx.

(** A dispatcher without a registry has no adapter. *)
Definition toolLoopRunnerFor (r : React) : res goError (Context_ → ToolLoopInvocation → W → res agentErr ToolLoopResult * W) :=
  if negb wLocal then Err (EErrf "engine.runReact: react: requires the local dispatcher (got %T)" [])
  else match aLookup (usesOf r) with
       | None => Err (EErrf "engine.runReact: no adapter %q" [usesOf r])
       | Some ad =>
           if negb (cpContainerless (adCaps ad)) || negb (cpThreaded (adCaps ad))
           then Err (EErrf "engine.runReact: adapter %q is not a containerless+threaded adapter" [usesOf r])
           else match adToolLoop ad with
                | None => Err (EErrf "engine.runReact: adapter %q does not implement agent.ToolLoopRunner" [usesOf r])
                | Some run => Ok run
                end
       end.

Definition commitLeaf (what path : string) (dr : DispatchResult) (s : St) : option goError * St :=
  match liftH (Commit xJcs path dr false) s with
  | (Err e, s) => (Some (EWrap what [path] (EEng e)), s)
  | (Ok nr, s) => (None, setRS (RecordCompleted path nr (stRS s)) s)
  end.
Definition commitModelLeaf (modelPath : string) (mr : modelResult) (s : St) : option goError * St :=
  commitLeaf "engine.runReact: commit model leaf at %q: %w" modelPath (modelLeaf mr) s.

(** *** dispatchOneTool *)

(** The command, the policy and the intent of a call; the scope of the templates has no frame. *)
Definition prepareTool (rs : RunState) (b : B) (tool : Tool) (toolPath : string) (tc : ToolCall) : res goError (NodeIntent * Policy) :=
  let argsPath := argsFilePath toolPath (dispatcherStagingRoot ahStagingRoot) in
  let scope := toolImplResolve (NewScope rs (icWf ic) toolPath) argsPath (parseArgsBestEffort (tcArguments tc)) in
  let impl := tlImpl tool in
  let? cmd := res_map_err (λ e, EWrap "engine.runReact: template tool impl at %q: %w" [toolPath] (ETmpl e)) (Substitute scope (tiRun impl)) in
  let? policy := res_map_err (λ name, EErrf "engine.runReact: build tool retry policy at %q: %w" [toolPath; name]) (Merge CodeDefault (tiRetry impl)) in
  let? outputFiles := res_map_err (EWrap "engine.runReact: template tool output_files at %q: %w" [toolPath]) (toolOutputFilePaths (tiOutputFiles impl) scope) in
  let? staged := res_map_err (λ e, EWrap "engine.runReact: stage tool input_files at %q: %w" [toolPath] (EFile e))
                   (resolveInputFileEntries xJcs (blobsGet b) (scopeAt ic rs toolPath) (icWf ic) (icModuleID ic) (rsAssets rs) (tiInputFiles impl)) in
  let? entries := res_map_err (λ e, EWrap "engine.runReact: merge tool input_files at %q: %w" [toolPath] (EFile e))
                    (inputFilesFromResolvedEntries (staged ++ [MkResolved (MkInputFile argsPath (tcArguments tc)) "args_file" ""])) in
  let synth := MkCodeStep "" cmd (tiContainer impl) None None [] ∅ None None in
  Ok (MkIntent toolPath (NCode synth)
        (MkInputs cmd (icRunEnv ic) outputFiles ∅ None [] (default 0%Z (tiTimeout impl)) 0 (map rifFile entries) "" noAgent)
        "" 0 false false zeroRunContext, policy).

(** The content for the model, or the error of the step. *)
Definition dispatchOneTool (cx : Context_) (tool : Tool) (toolPath : string) (tc : ToolCall) (s : St) : res goError string * St :=
  match prepareTool (stRS s) (stBlobs s) tool toolPath tc with
  | Err e => (Err e, s)
  | Ok (intent, policy) =>
      let '((dr, runErr), (l, w)) := RunWithRetry None cx (icDispatcher ic) intent policy (stLog s, stW s) in
      let s := setLog l (setW w s) in
      match drExitCode dr with
      | None => (Err (EWrap "engine.runReact: dispatch tool impl at %q: %w" [toolPath]
                        (default (EErrf "tool impl produced no exit code (no underlying error)" []) runErr)), s)
      | Some exitCode =>
          match commitLeaf "engine.runReact: commit tool leaf at %q: %w" toolPath (toolLeaf exitCode dr) s with
          | (Some e, s) => (Err e, s)
          | (None, s) => (Ok (boundToolResult exitCode (drStdout dr)), s)
          end
      end
  end.

(** The message is that of an error with this format. *)
Definition unknownTool (name : string) : string := xErrText (EErrf "error: unknown tool %q" [name]).
(** The calls of a round, in the order they are stored: committed, unknown, or dispatched. *)
Fixpoint dispatchRoundTools (cx : Context_) (r : React) (roundPath : string) (calls : list ToolCall) (msgs : list ReactTurn) (s : St)
    : res goError (list ReactTurn) * St :=
  match calls with
  | [] => (Ok msgs, s)
  | tc :: calls =>
      let toolPath := ToolPath roundPath (tcIndex tc) in
      match LookupCompleted (stRS s) toolPath with
      | Some nr => dispatchRoundTools cx r roundPath calls (msgs ++ [toolMessageFromLeaf (tcID tc) nr]) s
      | None =>
          match toolByName r (icWf ic) (tcName tc) with
          | None => dispatchRoundTools cx r roundPath calls (msgs ++ [toolTurn (tcID tc) (unknownTool (tcName tc))]) s
          | Some tool =>
              match dispatchOneTool cx tool toolPath tc s with
              | (Err e, s) => (Err e, s)
              | (Ok content, s) => dispatchRoundTools cx r roundPath calls (msgs ++ [toolTurn (tcID tc) content]) s
              end
          end
      end
  end.

(** ** Rounds *)

Definition closeRound (reactPath : string) (k : Z) (s : St) : option goError * St :=
  match appendSynced EventReactRound reactPath (ReactRoundData_json (MkReactRoundData k)) s with
  | (Some e, s) => (Some (EWrap "engine.runReact: close react.round at %q: %w" [reactPath] e), s)
  | (None, s) => (None, setRS (RecordReactRound reactPath (MkRound k) (stRS s)) s)
  end.

(** The conversation of the closed rounds 1 to [n], from [k] on. *)
Fixpoint replayTools (rs : RunState) (roundPath : string) (calls : list ToolCall) (msgs : list ReactTurn) : res goError (list ReactTurn) :=
  match calls with
  | [] => Ok msgs
  | tc :: calls =>
      match LookupCompleted rs (ToolPath roundPath (tcIndex tc)) with
      | None => Err (EErrf "engine.runReact: replay missing committed tool leaf at %q" [ToolPath roundPath (tcIndex tc)])
      | Some nr => replayTools rs roundPath calls (msgs ++ [toolMessageFromLeaf (tcID tc) nr])
      end
  end.
Fixpoint replayRounds (rs : RunState) (reactPath : string) (n : nat) (k : Z) (msgs : list ReactTurn) : res goError (list ReactTurn) :=
  match n with
  | O => Ok msgs
  | S n =>
      let roundPath := RoundPath reactPath k in
      match LookupCompleted rs (ModelPath roundPath) with
      | None => Err (EErrf "engine.runReact: replay missing committed model leaf at %q" [ModelPath roundPath])
      | Some nr =>
          let? mr := res_map_err (λ m, EMsg (EmWrap "engine.runReact: replay read model leaf %q: %w" [ModelPath roundPath] m)) (roundResultFromLeaf nr) in
          let? msgs := replayTools rs roundPath (mrToolCalls mr) (msgs ++ [buildAssistantTurn mr]) in
          replayRounds rs reactPath n (k + 1) msgs
      end
  end.
Definition userTurn (prompt : string) : ReactTurn := MkReactTurn "user" prompt [] "".
Definition replayMessages (rs : RunState) (prompt reactPath : string) (startK : Z) : res goError (list ReactTurn) :=
  replayRounds rs reactPath (Z.to_nat (startK - 1)) 1 [userTurn prompt].

Definition commitTerminal (r : React) (reactPath : string) (mr : modelResult) (stopReason : string) (s : St) : Result * St :=
  match (if String.eqb stopReason "max_turns" then None
         else match reOutputSchema r with None => None | Some _ => ValidateOutputMap (mrOutput mr) (reOutputSchema r) end) with
  | Some m => failStep reactPath OutcomeRetryableFailure (EMsg m) s
  | None =>
      match commitLeaf "engine.runReact: commit terminal at %q: %w" reactPath (terminalLeaf r mr stopReason) s with
      | (Some e, s) => (internal e, s)
      | (None, s) => (okResult, s)
      end
  end.

(** The committed answer of the round, or a new one; the left side is the result of the step. *)
Definition modelRound (cx : Context_) (r : React) (run : Context_ → ToolLoopInvocation → W → res agentErr ToolLoopResult * W)
    (reactPath modelPath : string) (msgs : list ReactTurn) (s : St) : (Result + modelResult) * St :=
  match LookupCompleted (stRS s) modelPath with
  | Some nr =>
      match roundResultFromLeaf nr with
      | Err m => (inl (internal (EMsg (EmWrap "engine.runReact: read model leaf %q: %w" [modelPath] m))), s)
      | Ok mr => (inr mr, s)
      end
  | None =>
      match run cx (buildToolLoopInvocation r (icWf ic) modelPath msgs) (stW s) with
      | (Err e, w) =>
          if aeUnparseable e then let '(x, s) := failStep reactPath OutcomeRetryableFailure (EMsg (aeMsg e)) (setW w s) in (inl x, s)
          else (inl (internal (EMsg (EmWrap "engine.runReact: model call at %q: %w" [modelPath] (aeMsg e)))), setW w s)
      | (Ok res, w) =>
          let mr := toModelResult res in
          match commitModelLeaf modelPath mr (setW w s) with
          | (Some e, s) => (inl (internal e), s)
          | (None, s) => (inr mr, s)
          end
      end
  end.

(** Rounds [k], [k+1], ..., at most [n] of them. *)
Fixpoint reactRounds (cx : Context_) (r : React) (run : Context_ → ToolLoopInvocation → W → res agentErr ToolLoopResult * W)
    (reactPath : string) (maxTurns : Z) (n : nat) (k : Z) (msgs : list ReactTurn) (s : St) : Result * St :=
  match n with
  | O => (internal (EErrf "engine.runReact: %q fell through the round loop (maxTurns=%d)" [reactPath; Itoa maxTurns]), s)
  | S n =>
      let roundPath := RoundPath reactPath k in
      match modelRound cx r run reactPath (ModelPath roundPath) msgs s with
      | (inl x, s) => (x, s)
      | (inr mr, s) =>
          let msgs := msgs ++ [buildAssistantTurn mr] in
          if negb (String.eqb (mrFinishReason mr) "tool_calls") then commitTerminal r reactPath mr "stop" s
          else if (k =? maxTurns)%Z then commitTerminal r reactPath mr "max_turns" s
          else match dispatchRoundTools cx r roundPath (mrToolCalls mr) msgs s with
               | (Err e, s) => (internal e, s)
               | (Ok msgs, s) =>
                   match closeRound reactPath k s with
                   | (Some e, s) => (internal e, s)
                   | (None, s) => reactRounds cx r run reactPath maxTurns n (k + 1) msgs s
                   end
               end
      end
  end.

Definition maxTurnsOf (r : React) : Z := if (reMaxTurns r =? 0)%Z then defaultMaxTurns else reMaxTurns r.

Definition runReact (cx : Context_) (r : React) (reactPath : string) (s : St) : Result * St :=
  match LookupCompleted (stRS s) reactPath with
  | Some _ => (okResult, s)
  | None =>
      match toolLoopRunnerFor r with
      | Err e => (internal e, s)
      | Ok run =>
          let s := appendNodeStarted reactPath "react" s in
          let startK := (Z.of_nat (length (LookupReactRounds (stRS s) reactPath)) + 1)%Z in
          match Substitute (Resolve (scopeAt ic (stRS s) reactPath)) (rePrompt r) with
          | Err e => failStep reactPath OutcomePermanentFailure (EWrap "engine.runReact: template prompt at %q: %w" [reactPath] (ETmpl e)) s
          | Ok prompt =>
              match replayMessages (stRS s) prompt reactPath startK with
              | Err e => (internal e, s)
              | Ok msgs => reactRounds cx r run reactPath (maxTurnsOf r) (Z.to_nat (maxTurnsOf r - startK + 1)) startK msgs s
              end
          end
      end
  end.
End react.
