(* ===== verification/Interp.v ===== *)
(** * engine/interpreter.go, gate.go, try.go, skip.go, controls.go: the graph walk

    [interpNode] and the handlers of the control nodes, and [Run].  Agent and react steps,
    calls, parallel, map and compose are a parameter ([otherNode]): [AgentStep], [React] and [Call] give the
    first three, and Call.interpCalls puts them in; the laws are about graphs without the others.  A
    [None] is a walk out of fuel: the fuel counts the iterations of one entry into a loop, the only
    unbounded recursion of the walk. *)

From S2P Require Import Prelude GoNum GoJson GoStruct Signal TmplLexer TmplParser TmplEval RetryPolicy EnginePath GoPath.
From S2P Require Import StateBlobs StateLog EngineEvents RunState EngineFold Journal Ir Commit Rerun Scope Artifacts Containers RetryLoop Steps.

Section interp.
Context `{Log L} `{Blobs B} `{World W} `{Signals W} `{Externals}.
#[local] Notation St := (St L B W).
#[local] Notation run := (option (Result * St)).
Variable ic : Ictx.
(** The nodes of the other kinds. *)
Variable otherNode : Context_ → Node → string → St → run.
(** The iterations a loop may make before the walk is out of fuel. *)
Variable fuel : nat.

(** A block of nodes at an address. *)
#[local] Notation body := (Context_ → string → St → run).

(** ** skip.go *)

Definition runSkip (reason : string) : Result := (OutcomeOK, Some (ESkip reason)).

(** ** interpNodes *)

Definition interpList (f : Context_ → Node → Z → string → St → run) (cx : Context_) (parent : string)
    : list Node → Z → St → run :=
  fix go l i s :=
    match l with
    | [] => Some (okResult, s)
    | n :: l =>
        match f cx n i parent s with
        | None => None
        | Some (r, s) => if isOk r then go l (i + 1)%Z s else Some (r, s)
        end
    end.
Definition interpNodesOf (f : Context_ → Node → Z → string → St → run) (nodes : NodeList)
    (cx : Context_) (parent : string) (s : St) : run :=
  match nodes with None => Some (okResult, s) | Some l => interpList f cx parent l 0 s end.

(** ** runIf *)

Definition branchOf (cond : bool) : string := if cond then "then" else "else".

Definition takeBranch (then_ else_ : body) (elseEmpty : bool) (cx : Context_) (path which : string) (s : St) : run :=
  if String.eqb which "then" then then_ cx (path +:+ ".then") s
  else if String.eqb which "else" then if elseEmpty then Some (okResult, s) else else_ cx (path +:+ ".else") s
  else Some (internal (EErrf "engine.Run: unknown branch %q at path %q" [which; path]), s).

Definition runIf (cond : string) (then_ else_ : body) (elseEmpty : bool) (cx : Context_) (path : string) (s : St) : run :=
  match LookupBranch (stRS s) path with
  | Some which => takeBranch then_ else_ elseEmpty cx path which s
  | None =>
      match EvalBoolString (Resolve (scopeAt ic (stRS s) path)) cond with
      | Err e => Some (failStep path OutcomePermanentFailure (ETmpl e) s)
      | Ok c =>
          match appendTo EventBranchTaken path (BranchTakenData_json (MkBranchTakenData (branchOf c))) s with
          | (Some e, s) => Some (internal e, s)
          | (None, s) => takeBranch then_ else_ elseEmpty cx path (branchOf c) (setRS (RecordBranch path (branchOf c) (stRS s)) s)
          end
      end
  end.

(** ** runLoop *)

(** What follows the body of iteration [k]: loop.iter, then until, then max_iters.  [None]: iterate. *)
Definition endIteration (until : option string) (maxIters : option Z) (path bodyParent : string) (k : Z) (s : St)
    : option Result * St :=
  match appendTo EventLoopIter path (LoopIterData_json (MkLoopIterData k)) s with
  | (Some e, s) => (Some (internal e), s)
  | (None, s) =>
      let s := setRS (RecordLoopIter path k (stRS s)) s in
      let atMax := match maxIters with Some m => (m <=? k)%Z | None => false end in
      match until with
      | None => (if atMax then Some okResult else None, s)
      | Some u =>
          match EvalBoolString (Resolve (scopeAt ic (stRS s) bodyParent)) u with
          | Err e => let '(r, s) := failStep path OutcomePermanentFailure (ETmpl e) s in (Some r, s)
          | Ok true => (Some okResult, s)
          | Ok false => (if atMax then Some okResult else None, s)
          end
      end
  end.

Fixpoint loopFrom (n : nat) (until : option string) (maxIters : option Z) (bd : body) (cx : Context_)
    (path : string) (k : Z) (s : St) : run :=
  match n with
  | O => None
  | S n =>
      let bodyParent := IterPath (path +:+ ".body") k in
      match bd cx bodyParent s with
      | None => None
      | Some (r, s) =>
          let next s :=
            match endIteration until maxIters path bodyParent k s with
            | (Some r, s) => Some (r, s)
            | (None, s) => loopFrom n until maxIters bd cx path (wrap_i64 (k + 1)) s
            end in
          match skipOf r with
          | Some reason =>
              match appendNodeSkipped bodyParent reason s with
              | (Some e, s) => Some (internal e, s)
              | (None, s) => next s
              end
          | None => if isOk r then next s else Some (r, s)
          end
      end
  end.

Definition runLoop (until : option string) (maxIters : option Z) (bd : body) (cx : Context_) (path : string) (s : St) : run :=
  match until, maxIters with
  | None, None => Some (internal (EErrf "engine: loop at path %q has neither until nor max_iters — validator regression (AWF §5.2 requires one); please report" [path]), s)
  | _, _ => loopFrom fuel until maxIters bd cx path (wrap_i64 (LookupLoopIters (stRS s) path + 1)) s
  end.

(** ** try.go *)

(** The result of do, or of the catch that absorbs its typed failure. *)
Definition tryCatch (catch : body) (catchEmpty : bool) (cx : Context_) (path : string) (r : Result) (s : St) : run :=
  if match r.2 with Some _ => true | None => false end && isTypedFailureOutcome r.1
     && match skipOf r with None => true | Some _ => false end && negb catchEmpty
  then catch cx (path +:+ ".catch") s
  else Some (r, s).

Definition runTry (do_ catch finally : body) (catchEmpty finallyEmpty : bool) (cx : Context_) (path : string) (s : St) : run :=
  match do_ cx (path +:+ ".do") s with
  | None => None
  | Some (r, s) =>
      match tryCatch catch catchEmpty cx path r s with
      | None => None
      | Some (propagated, s) =>
          let '(pending, propagated, s) :=
            match skipOf r with
            | Some reason => let '(e, s) := appendNodeSkipped path reason s in (e, (OutcomeOK, propagated.2), s)
            | None => (None, propagated, s)
            end in
          match (if finallyEmpty then Some (okResult, s) else finally Detached (path +:+ ".finally") s) with
          | None => None
          | Some (fr, s) =>
              if match fr.2 with Some _ => true | None => false end then Some (fr, s)
              else match pending with
                   | Some e => Some (internal e, s)
                   | None => match wCtxErr cx (stW s) with
                             | Some e => Some ((OutcomeRetryableFailure, Some e), s)
                             | None => Some (propagated, s)
                             end
                   end
          end
      end
  end.

(** ** gate.go *)

(** The address of the evaluator that gives the verdict. *)
Definition lastEvaluatorPath (evaluate : NodeList) (evaluatePath : string) : res EvalMsg string :=
  let l := default [] evaluate in
  let idx := (Z.of_nat (length l) - 1)%Z in
  match last l with
  | None => Err (EmFmt "empty evaluate" [])
  | Some (NCode v) => Ok (PathFor evaluatePath "" (csID v) idx)
  | Some (NAgent v) => Ok (PathFor evaluatePath "" (asID v) idx)
  | Some (NSignal v) => Ok (PathFor evaluatePath "" (ssID v) idx)
  | Some (NMap _ _) => Ok (PathFor evaluatePath "map" "" idx)
  | Some _ => Err (EmFmt "last evaluator node is %T (must be a step kind, or a map with a typed reduce, per AWF1014)" [])
  end.

(** Steps 3 to 6 of an attempt: the verdict, until, gate.attempt.  [Ok passed]. *)
Definition judge (evaluate : NodeList) (until gatePath : string) (n : Z) (s : St) : (Result + bool) * St :=
  let attemptPath := AttemptPath gatePath n in
  match lastEvaluatorPath evaluate (attemptPath +:+ ".evaluate") with
  | Err m => (inl (internal (EMsg (EmWrap "engine.runGate: %w" [] m))), s)
  | Ok lastStepPath =>
      match LookupCompleted (stRS s) lastStepPath with
      | None => (inl (internal (EErrf "engine.runGate: last evaluator step %q not in Completed (slice 3.3 invariant violated)" [lastStepPath])), s)
      | Some nr =>
          let verdict := nrOutputs nr in
          let scope := scopeWithVerdict (stRS s) (icWf ic) (attemptPath +:+ ".until") (icFrame ic) verdict in
          match EvalBoolString (Resolve scope) until with
          | Err e => let '(r, s) := failStep gatePath OutcomePermanentFailure (ETmpl e) s in (inl r, s)
          | Ok passed =>
              let outcome := if passed then AttemptPassed else AttemptRejected in
              match appendSynced EventGateAttempt gatePath (GateAttemptData_json (MkGateAttemptData n outcome (nrOutputsRef nr))) s with
              | (Some e, s) => (inl (internal e), s)
              | (None, s) => (inr passed, setRS (RecordGateAttempt gatePath (MkAttempt n outcome verdict) (stRS s)) s)
              end
          end
      end
  end.

Definition rejected (gatePath : string) (n : Z) : Result :=
  (OutcomeRejected, Some (EErrf "engine.runGate: gate %q rejected after %d attempts" [gatePath; Itoa n])).

(** A skip in generate or evaluate ends the whole gate. *)
Definition gateSkipped (gatePath reason : string) (s : St) : run :=
  match appendNodeSkipped gatePath reason s with
  | (Some e, s) => Some (internal e, s)
  | (None, s) => Some (okResult, s)
  end.

(** The attempts from [n], [k] of them to go. *)
Fixpoint gateFrom (k : nat) (generate evaluate : body) (evaluateNodes : NodeList) (until : string) (maxAttempts : Z)
    (cx : Context_) (gatePath : string) (n : Z) (s : St) : run :=
  match k with
  | O => Some ((OutcomeRejected, Some (EErrf "engine.runGate: gate %q rejected (loop fall-through, should not happen)" [gatePath])), s)
  | S k =>
      let attemptPath := AttemptPath gatePath n in
      match generate cx (attemptPath +:+ ".generate") s with
      | None => None
      | Some (gr, s) =>
          match skipOf gr with
          | Some reason => gateSkipped gatePath reason s
          | None =>
              if negb (isOk gr) then Some (gr, s)
              else match evaluate cx (attemptPath +:+ ".evaluate") s with
                   | None => None
                   | Some (er, s) =>
                       match skipOf er with
                       | Some reason => gateSkipped gatePath reason s
                       | None =>
                           if negb (isOk er) then Some (er, s)
                           else match judge evaluateNodes until gatePath n s with
                                | (inl r, s) => Some (r, s)
                                | (inr true, s) => Some (okResult, s)
                                | (inr false, s) =>
                                    if (n =? maxAttempts)%Z then Some (rejected gatePath n, s)
                                    else gateFrom k generate evaluate evaluateNodes until maxAttempts cx gatePath (n + 1)%Z s
                                end
                       end
                   end
          end
      end
  end.

Definition isEmpty (nodes : NodeList) : bool := match nodes with None | Some [] => true | _ => false end.

Definition passedAlready (attempts : list AttemptResult) : bool :=
  match last attempts with Some a => String.eqb (arAttemptOutcome a) AttemptPassed | None => false end.

Definition runGate (generate evaluate : body) (generateNodes evaluateNodes : NodeList) (until : string) (maxAttempts : Z)
    (cx : Context_) (gatePath : string) (s : St) : run :=
  if isEmpty generateNodes then Some (internal (EErrf "engine.runGate: gate %q has empty generate (AWF1013 should have caught)" [gatePath]), s)
  else if isEmpty evaluateNodes then Some (internal (EErrf "engine.runGate: gate %q has empty evaluate" [gatePath]), s)
  else if (maxAttempts <? 1)%Z then Some (internal (EErrf "engine.runGate: gate %q has MaxAttempts=%d, want ≥ 1" [gatePath; Itoa maxAttempts]), s)
  else
    let attempts := LookupGateAttempts (stRS s) gatePath in
    if passedAlready attempts then Some (okResult, s)
    else
      let startN := (Z.of_nat (length attempts) + 1)%Z in
      gateFrom (Z.to_nat (maxAttempts - startN + 1)) generate evaluate evaluateNodes until maxAttempts cx gatePath startN s.

(** ** interpNode *)

Fixpoint interpNode (cx : Context_) (n : Node) (idx : Z) (parent : string) (s : St) {struct n} : run :=
  let nodes l := interpNodesOf interpNode l in
  match n with
  | NCode v => Some (runCodeStep ic cx v (PathFor parent "" (csID v) idx) s)
  | NSignal v => Some (runSignalStep ic cx v (PathFor parent "" (ssID v) idx) s)
  | NIf cond then_ else_ => runIf cond (nodes then_) (nodes else_) (isEmpty else_) cx (PathFor parent "if" "" idx) s
  | NLoop until maxIters bd => runLoop until maxIters (nodes bd) cx (PathFor parent "loop" "" idx) s
  | NTry do_ catch finally =>
      runTry (nodes do_) (nodes catch) (nodes finally) (isEmpty catch) (isEmpty finally) cx (PathFor parent "try" "" idx) s
  | NGate generate evaluate until maxAttempts =>
      runGate (nodes generate) (nodes evaluate) generate evaluate until maxAttempts cx (PathFor parent "gate" "" idx) s
  | NSkip reason => Some (runSkip reason, s)
  | NAgent v => otherNode cx n (PathFor parent "" (asID v) idx) s
  | NCall v => otherNode cx n (PathFor parent "" (caID v) idx) s
  | NParallel _ => otherNode cx n (PathFor parent "parallel" "" idx) s
  | NMap _ _ => otherNode cx n (PathFor parent "map" "" idx) s
  | NReact _ => otherNode cx n (PathFor parent "react" "" idx) s
  | NCompose _ _ _ _ => otherNode cx n (PathFor parent "compose" "" idx) s
  end.

Definition interpNodes (cx : Context_) (nodes : NodeList) (parent : string) (s : St) : run :=
  interpNodesOf interpNode nodes cx parent s.

End interp.

Section run.
Context `{Log L} `{Blobs B} `{World W} `{Signals W} `{Externals}.
#[local] Notation St := (St L B W).
#[local] Notation run := (option (Result * St)).

(** ** controls.go *)

Definition appendTerminalControlEvents (s : St) : option goError * St :=
  if IsCancelled (stRS s) then
    match appendSynced EventRunCancelled "" (RunCancelledData_json (MkRunCancelledData (LookupCancelReason (stRS s)))) s with
    | (Some e, s) => (Some e, s)
    | (None, s) => (Some ECancelled, s)
    end
  else match LookupPaused (stRS s) with
       | Some pm =>
           match appendSynced EventRunPaused "" (RunPausedData_json (MkRunPausedData (pmNodePath pm) (pmReason pm))) s with
           | (Some e, s) => (Some e, s)
           | (None, s) => (Some EPaused, s)
           end
       | None => (None, s)
       end.

(** ** Run *)

Definition validateRunResultPair (r : Result) : Result :=
  match r.2 with
  | None => if String.eqb r.1 OutcomeOK then r
            else internal (EErrf "engine.Run: result invariant violated: outcome=%q with nil error" [r.1])
  | Some e => if isTypedFailureOutcome r.1 || String.eqb r.1 "" then r
              else internal (EWrap "engine.Run: result invariant violated: outcome=%q with error: %w" [r.1] e)
  end.

Record RunOptions : Type := MkOptions {
  roAssets : option (gmap string RunStartedAsset); roInputFiles : option (gmap string string); roRerunFrom : string }.

Definition withOptions (opts : RunOptions) (rs : RunState) : RunState :=
  MkRunState (rsRunID rs) (rsWorkflowDigest rs) (rsStructuralDigest rs) (rsInput rs)
    (default (rsAssets rs) (roAssets opts)) (default (rsInputFiles rs) (roInputFiles opts)) (rsEpoch rs)
    (rsCompleted rs) (rsBranches rs) (rsLoopIters rs) (rsGateAttempts rs) (rsReactRounds rs) (rsMapItems rs)
    (rsSignals rs) (rsCallStarted rs) (rsPaused rs) (rsCancelled rs) (rsCancelReason rs) (rsSignalReceivedAt rs)
    (rsSnapshotRefs rs) (rsSessionRefs rs) (rsSelectedSkills rs) (rsThreadIdx rs).

(** --from: invalidate, journal, clear. *)
Definition rerunFrom (wf : Workflow) (target : string) (s : St) : option goError * St :=
  if String.eqb target "" then (None, s)
  else match ComputeRerunInvalidation wf (stRS s) target with
  | Err m => (Some (EMsg (EmWrap "engine.Run: rerun --from: %w" [] m)), s)
  | Ok [] => (None, s)
  | Ok paths =>
      match appendSynced EventNodeInvalidated "" (NodeInvalidatedData_json (MkNodeInvalidatedData paths)) s with
      | (Some e, s) => (Some e, s)
      | (None, s) => (None, setRS (clearInvalidatedPaths (stRS s) paths) s)
      end
  end.

(** What follows the walk: a skip that reached the run, the controls, the contract of the result. *)
Definition finishRun (r : Result) (s : St) : Result * St :=
  match (match skipOf r with
         | Some reason => match appendNodeSkipped "" reason s with
                          | (Some e, s) => inl (internal e, s)
                          | (None, s) => inr (okResult, s)
                          end
         | None => inr (r, s)
         end) with
  | inl x => x
  | inr (r, s) =>
      let s := setRS (withFlags s) s in
      let '(term, s) := appendTerminalControlEvents s in
      (validateRunResultPair (match term with Some e => internal e | None => r end), s)
  end.

(** [def.Workflow] is run in module "" with the run's environment; [preflight] is
    call_runtime_preflight.go, asked when a call has started; it may run out of fuel too. *)
Definition Run (otherNode : Ictx → Context_ → Node → string → St → run) (fuel : nat) (preflight : Ictx → St → option (option goError * St))
    (wf : Workflow) (runEnv : gmap string string) (ld : LocalDispatcher) (opts : RunOptions) (s : St) : run :=
  let s := setRS (withOptions opts (stRS s)) s in
  let ic := MkIctx wf "" (MkFrame "" None (Some (rsInputFiles (stRS s)))) runEnv ld in
  match (match CallStartedPaths (stRS s) with [] => Some (None, s) | _ => preflight ic s end) with
  | None => None
  | Some (Some e, s) => Some (internal e, s)
  | Some (None, s) =>
      match rerunFrom wf (roRerunFrom opts) s with
      | (Some e, s) => Some (internal e, s)
      | (None, s) =>
          match interpNodes ic (otherNode ic) fuel Cancellable (wfGraph wf) "" s with
          | None => None
          | Some (r, s) => Some (finishRun r s)
          end
      end
  end.
End run.
