(* ===== verification/Call.v ===== *)
(** * engine/call_step.go, call_input_files.go, call_commit.go, call_runtime_preflight.go: called workflows

    A call journals what it was called with before the child runs, so that a resumed run calls the child
    with the same inputs; the child is walked at its own address, in its own frame, with its own
    containers; its exports are the outputs of the call.  The walk of the child is a parameter, which
    [interpCalls] instantiates: the fuel [depth] bounds how deeply calls are nested. *)

From S2P Require Import Prelude GoNum Sort GoJson GoStruct Signal TmplLexer TmplParser TmplSlots TmplEval RetryPolicy EnginePath GoPath.
From S2P Require Import StateBlobs StateLog EngineEvents RunState EngineFold Journal Ir Commit Scope Artifacts Containers RetryLoop Adapters Steps.
From S2P Require Import Contracts Exports SkillRoute Skills Runtimes AgentStep React Interp.

Section call.
Context `{Log L} `{Blobs B} `{World W} `{Signals W} `{Externals} `{Adapters W} `{AgentHost W} `{Unicode} `{MathLog}.
#[local] Notation St := (St L B W).
#[local] Notation run := (option (Result * St)).
Variable def : option LoadedDefinition.

Definition setBlobs (b : B) (s : St) : St := MkSt (stLog s) b (stRS s) (stW s).

(** ** call_commit.go *)

(** Every exported file is there. *)
Fixpoint filesPresent (path : string) (l : list (string * string)) : handler L B () := λ s,
  match l with
  | [] => (Ok (), s)
  | (name, ref) :: l => match blobsGet s.2 ref with
                        | Err e => (Err (GetFailed "call export file" path e), s)
                        | Ok _ => filesPresent path l s
                        end
  end.
Definition commitCallProduct (path : string) (result : WorkflowExportResult) : handler L B NodeResult :=
  (let! _ := filesPresent path (key_sort (map_to_list (weFiles result))) in
   let! ref := putOutputs path (weOutputs result) in
   let! _ := appendNodeCompleted path (MkNodeCompletedData OutcomeOK None ref "" (weFiles result) None "" "" "" "" "" "") in
   hret (MkNodeResult OutcomeOK None (weOutputs result) ref "" "" (weFiles result) zeroTurn "" ""))%awf.

Section step.
Variable ic : Ictx.
(** The walk of a child: its context, its graph and its address. *)
Variable walk : Ictx → Context_ → NodeList → string → St → run.

(** ** The inputs *)

(** In the order of the keys; Go's order is random, which only decides whose error is reported. *)
Fixpoint evalInputs (R : Ref → res goerr value) (l : list (string * json)) : res goError (list (string * value)) :=
  match l with
  | [] => Ok []
  | (key, j) :: l =>
      let? v := res_map_err (λ e, EWrap "call input %q: %w" [key] (ETmpl e)) (evalTemplateJson R j) in
      let? vs := evalInputs R l in Ok ((key, v) :: vs)
  end.

Definition evaluateCallInput (rs : RunState) (call : CallStep) (path : string) (child : Workflow) : res goError (list (string * value)) :=
  let? out := evalInputs (Resolve (scopeAt ic rs path)) (key_sort (map_to_list (caInput call))) in
  match wfInputSchema child with
  | None => match out with [] => Ok [] | _ => Err (EErrf "call input provided but child workflow declares no input schema" []) end
  | Some schema =>
      match Marshal (VMap out) with
      | None => Err (EErrf "marshal call input: %w" [])
      | Some raw => res_map_err (λ m, EMsg (EmWrap "call input schema validation: %w" [] m)) (ValidateAgainstSchema raw schema)
      end
  end.

(** One file: the reference, checked against the child's contract. *)
Definition callInputFile (rs : RunState) (b : B) (scope : Scope) (childID name rawRef : string) (contract : ArtifactContract) : res fileErr string :=
  let? cb := resolveSingleInputFileRef xJcs (blobsGet b) scope (icWf ic) (icModuleID ic) (rsAssets rs) rawRef in
  let? c := resolveArtifactContract compileError (blobsGet b) childID (rsAssets rs) ("input_files." +:+ name) contract in
  match c with
  | None => Ok cb.1
  | Some c => match ValidateArtifactContract ("input_files." +:+ name) cb.2 c with Some m => fails m | None => Ok cb.1 end
  end.
Fixpoint callInputFiles (rs : RunState) (b : B) (scope : Scope) (childID : string) (contracts : WorkflowInputFiles) (l : list (string * string))
    : res fileErr (gmap string string) :=
  match l with
  | [] => Ok ∅
  | (name, rawRef) :: l =>
      match contracts !! name with
      | None => fails (EmFmt "call input_files.%s: child workflow does not declare input file %q" [name; name])
      | Some contract =>
          let? ref := wrapErr "call input_files.%s: %w" [name] (callInputFile rs b scope childID name rawRef contract) in
          let? refs := callInputFiles rs b scope childID contracts l in Ok (<[name := ref]> refs)
      end
  end.
(** The first file the child declares and the call does not give. *)
Definition missingInputFile (contracts : WorkflowInputFiles) (given : gmap string string) : option string :=
  List.find (λ name, match given !! name with None => true | Some _ => false end) (key_sort (map_to_list contracts)).*1.
Definition resolveCallInputFiles (rs : RunState) (b : B) (call : CallStep) (child : LoadedModule) (cwf : Workflow) (path : string)
    : res fileErr (gmap string string) :=
  match missingInputFile (wfInputFiles cwf) (caInputFiles call) with
  | Some name => fails (EmFmt "call input_files.%s: child workflow requires input file %q" [name; name])
  | None => callInputFiles rs b (scopeAt ic rs path) (lmID child) (wfInputFiles cwf) (key_sort (map_to_list (caInputFiles call)))
  end.

(** What a first call evaluates: the input, its JSON, the files. *)
Definition prepareCall (rs : RunState) (b : B) (call : CallStep) (child : LoadedModule) (cwf : Workflow) (path : string)
    : res prepErr (list (string * value) * string * gmap string string) :=
  let? input := failing (evaluateCallInput rs call path cwf) in
  let? files := failingFile "engine.runCallStep: resolve input_files at %q: %w" path id (resolveCallInputFiles rs b call child cwf path) in
  match Marshal (VMap input) with
  | None => Err (PInternal (EErrf "engine.runCallStep: marshal input at %q: %w" [path]))
  | Some raw => Ok (input, raw, files)
  end.

(** ** The child *)

(** The last failure journaled in the child. *)
Definition lastFailedChildPath (l : L) (childParent : string) : string :=
  default "" (Path <$> List.find (λ e, String.eqb (EvType e) EventNodeFailed
      && (String.eqb (Path e) childParent || HasPrefix (Path e) (childParent +:+ "."))) (reverse (logEvents l))).

Definition childFailed (path runtimeParent : string) (r : Result) (s : St) : Result * St :=
  if String.eqb r.1 "" then (r, s)
  else
    let last := lastFailedChildPath (stLog s) runtimeParent in
    let childPath := if String.eqb last "" then runtimeParent else last in
    let cause := match r.2 with Some e => e | None => EErrf "child workflow returned outcome %q" [r.1] end in
    failStep path r.1 (EWrap "child workflow failed at %s: %w" [childPath] cause) s.

Definition commitCall (child : LoadedModule) (cwf : Workflow) (path : string) (input : gomap) (s : St) : Result * St :=
  match evaluateWorkflowExports def (lmID child) (stRS s) cwf path input (stBlobs s) with
  | Err e => failStep path OutcomePermanentFailure e s
  | Ok product =>
      match liftH (commitCallProduct path product) s with
      | (Err e, s) => (internal (EEng e), s)
      | (Ok nr, s) => (okResult, setRS (RecordCompleted path nr (stRS s)) s)
      end
  end.

(** The frame of the child.  Files that are nil or empty read the same: the input is set. *)
Definition childIctx (child : LoadedModule) (cwf : Workflow) (path : string) (ld : LocalDispatcher) (input : gomap) (files : gmap string string) : Ictx :=
  MkIctx cwf (lmID child) (MkFrame (CallWorkflowRuntimePath path) input (Some files)) (icRunEnv ic) ld.
Definition runChild (cx : Context_) (child : LoadedModule) (cwf : Workflow) (path : string) (ld : LocalDispatcher) (input : gomap)
    (files : gmap string string) (s : St) : run :=
  match walk (childIctx child cwf path ld input files) cx (wfGraph cwf) (CallWorkflowRuntimePath path) s with
  | None => None
  | Some (r, s) => Some (if isOk r then commitCall child cwf path input s else childFailed path (CallWorkflowRuntimePath path) r s)
  end.

(** [k] with the containers of the child, which are destroyed in the end. *)
Definition withRuntime (cx : Context_) (child : LoadedModule) (cwf : Workflow) (path : string) (k : LocalDispatcher → St → run) (s : St) : run :=
  let parent := CallWorkflowRuntimePath path in
  match createRuntimeHandles cx cwf (lmComposeFiles child) parent (stRS s) (stW s) with
  | (Err e, w) => Some (failStep path OutcomeRetryableFailure e (setW w s))
  | (Ok handles, w) =>
      match k (cloneDispatcherForRuntime (icDispatcher ic) parent (lmComposeFiles child) handles) (setW w s) with
      | None => None
      | Some (r, s) => Some (r, setW (destroyRuntimeHandles handles (stW s)).2 s)
      end
  end.

Definition childRefs (child : LoadedModule) (cwf : Workflow) (path : string) : list RuntimeRef :=
  WalkRuntimeRefs (lmID child) (CallWorkflowRuntimePath path) cwf.

(** The call was journaled by an earlier run: the recorded inputs, after a check of the runtimes. *)
Definition resumeCall (cx : Context_) (child : LoadedModule) (cwf : Workflow) (path : string) (rec : CallStartedRecord) (s : St) : run :=
  withRuntime cx child cwf path (λ ld s,
    match ResolveRuntimes cx (dpHandles ld) (childRefs child cwf path) (stW s) with
    | (Err e, w) => Some (internal (EWrap "engine.runCallStep: resolve current runtimes at %q: %w" [path] e), setW w s)
    | (Ok current, w) =>
        match CheckRuntimesDrift (crRuntimes rec) current with
        | Some e => Some (internal e, setW w s)
        | None => runChild cx child cwf path ld (crInput rec) (crInputFiles rec) (setW w s)
        end
    end) s.

Definition startCall (cx : Context_) (call : CallStep) (child : LoadedModule) (cwf : Workflow) (path : string) (s : St) : run :=
  match prepareCall (stRS s) (stBlobs s) call child cwf path with
  | Err (PFail e) => Some (failStep path OutcomePermanentFailure e s)
  | Err (PInternal e) => Some (internal e, s)
  | Ok (input, raw, files) =>
      match blobsPut raw (stBlobs s) with
      | (Err e, b) => Some (internal (EWrap "engine.runCallStep: put input at %q: %w" [path] (EEng (PutFailed "input" path e))), setBlobs b s)
      | (Ok ref, b) =>
          withRuntime cx child cwf path (λ ld s,
            match ResolveRuntimes cx (dpHandles ld) (childRefs child cwf path) (stW s) with
            | (Err e, w) => Some (failStep path OutcomePermanentFailure e (setW w s))
            | (Ok runtimes, w) =>
                match appendSynced EventCallStarted path (CallStartedData_json (MkCallStartedData ref files runtimes)) (setW w s) with
                | (Some e, s) => Some (internal e, s)
                | (None, s) =>
                    let rec := MkCallStarted (Some input) ref files runtimes in
                    runChild cx child cwf path ld (Some input) files (setRS (RecordCallStarted path rec (stRS s)) s)
                end
            end) (setBlobs b s)
      end
  end.

Definition runCallStep (cx : Context_) (call : CallStep) (path : string) (s : St) : run :=
  match LookupCompleted (stRS s) path with
  | Some _ => Some (okResult, s)
  | None =>
      let s := appendNodeStarted path "call" s in
      match callTarget def (icModuleID ic) (caCall call) with
      | None => Some (failStep path OutcomePermanentFailure (EErrf "call target %q not found from module %q" [caCall call; icModuleID ic]) s)
      | Some (child, cwf) =>
          if negb wLocal then Some (internal (EErrf "engine.runCallStep: call at %q requires *LocalDispatcher (got %T)" [path]), s)
          else match LookupCallStarted (stRS s) path with
               | Some rec => resumeCall cx child cwf path rec s
               | None => startCall cx call child cwf path s
               end
      end
  end.
End step.

(** ** The walk with its calls, agent and react steps *)

(** The steps [interpNode] does not walk itself. *)
Fixpoint interpCalls (depth : nat) (other : Ictx → Context_ → Node → string → St → run) (fuel : nat)
    (ic : Ictx) (cx : Context_) (n : Node) (path : string) (s : St) : run :=
  match n with
  | NCall call =>
      match depth with
      | O => None
      | S depth =>
          runCallStep ic (λ ic' cx nodes parent s, interpNodes ic' (interpCalls depth other fuel ic') fuel cx nodes parent s) cx call path s
      end
  | NAgent v => runAgentStep ic cx v path s
  | NReact r => Some (runReact ic cx r path s)
  | _ => other ic cx n path s
  end.

(** ** call_runtime_preflight.go *)

Definition runtimeRefsNeedContainers (refs : list RuntimeRef) : bool := existsb (λ r, negb (String.eqb (rfContainer r) "")) refs.

Section preflight.
Variables (cx : Context_) (ld : LocalDispatcher) (rs : RunState).

Definition preflightOneCallStartedRuntime (child : LoadedModule) (cwf : Workflow) (parent : string) (rec : CallStartedRecord) (w : W)
    : option goError * W :=
  let refs := WalkRuntimeRefs (lmID child) parent cwf in
  let compare handles w :=
    match ResolveRuntimes cx handles refs w with
    | (Err e, w) => (Some (EWrap "engine.Run: resolve current call runtimes at %q: %w" [parent] e), w)
    | (Ok current, w) => (CheckRuntimesDrift (crRuntimes rec) current, w)
    end in
  if negb (runtimeRefsNeedContainers refs) then compare ∅ w
  else match createRuntimeHandles cx cwf (lmComposeFiles child) parent rs w with
       | (Err e, w) => (Some (EWrap "engine.Run: create call runtime handles at %q: %w" [parent] e), w)
       | (Ok handles, w) =>
           let '(e, w) := compare (dpHandles (cloneDispatcherForRuntime ld parent (lmComposeFiles child) handles)) w in
           (e, (destroyRuntimeHandles handles w).2)
       end.

(** The call steps of a workflow at their static addresses. *)
Definition callSteps (wf : Workflow) (parent : string) : list (CallStep * string) :=
  omap (λ np : Node * string, match np.1 with NCall c => Some (c, np.2) | _ => None end) (WalkNodes (wfGraph wf) parent).

Fixpoint preflightInWorkflow (depth : nat) (moduleID : string) (wf : Workflow) (parent : string) (checked : gset string) (w : W)
    : option ((option goError * gset string) * W) :=
  match depth with
  | O => None
  | S depth =>
      (fix go (l : list (CallStep * string)) (checked : gset string) (w : W) :=
         match l with
         | [] => Some ((None, checked), w)
         | (call, path) :: l =>
             match callTarget def moduleID (caCall call), LookupCallStarted rs path with
             | None, Some _ => Some ((Some (EErrf "engine.Run: call target %q not found from module %q during runtime preflight" [caCall call; moduleID]), checked), w)
             | None, None => go l checked w
             | Some (child, cwf), rec =>
                 let runtimeParent := CallWorkflowRuntimePath path in
                 let '((e, checked), w) :=
                   match rec with
                   | Some rec => let '(e, w) := preflightOneCallStartedRuntime child cwf runtimeParent rec w in ((e, {[path]} ∪ checked), w)
                   | None => ((None, checked), w)
                   end in
                 match e with
                 | Some e => Some ((Some e, checked), w)
                 | None => match preflightInWorkflow depth (lmID child) cwf runtimeParent checked w with
                           | Some ((None, checked), w) => go l checked w
                           | r => r
                           end
                 end
             end
         end) (callSteps wf parent) checked w
  end.
End preflight.

(** [None]: calls are nested deeper than [depth]. *)
Definition preflightCallStartedRuntimes (depth : nat) (ic : Ictx) (s : St) : option (option goError * St) :=
  match CallStartedPaths (stRS s) with
  | [] => Some (None, s)
  | paths =>
      if negb wLocal then Some (Some (EErrf "engine.Run: call runtime preflight requires *LocalDispatcher (got %T)" []), s)
      else match preflightInWorkflow Cancellable (icDispatcher ic) (stRS s) depth (icModuleID ic) (icWf ic) (cfRuntimeParent (icFrame ic)) ∅ (stW s) with
      | None => None
      | Some ((Some e, _), w) => Some (Some e, setW w s)
      | Some ((None, checked), w) =>
          Some (match List.find (λ p, negb (bool_decide (p ∈ checked))) paths with
                | Some p => Some (EErrf "engine.Run: call.started at %q no longer maps to a call step" [p])
                | None => None
                end, setW w s)
      end
  end.

(** [Run] of a definition whose workflows call each other. *)
Definition RunCalls (depth fuel : nat) (other : Ictx → Context_ → Node → string → St → run) (wf : Workflow) (runEnv : gmap string string)
    (ld : LocalDispatcher) (opts : RunOptions) (s : St) : run :=
  Run (interpCalls depth other fuel) fuel (preflightCallStartedRuntimes depth) wf runEnv ld opts s.
End call.
