(* ===== verification/InterpLaws.v ===== *)
(** * What a walk of the graph does

    A walk is a sequence of primitive steps, each at the address of a node ([interpNode_walks]): the
    state machine of the run.  What holds of every primitive step holds of every walk. *)

From S2P Require Import Prelude GoNum GoJson GoStruct Signal TmplLexer TmplParser TmplEval RetryPolicy EnginePath GoPath.
From S2P Require Import StateBlobs StateLog EngineEvents RunState EngineFold Journal Ir Commit Scope ScopeLaws Artifacts Containers RetryLoop Steps Contracts Exports Runtimes Interp Call.

(** ** Graphs of modelled kinds *)

(** [sig]: signal steps are allowed; [kinds]: these calls, agent and react steps are.  The attempts of a gate are a Go int. *)
Fixpoint plain (sig : bool) (kinds : Node → bool) (n : Node) : bool :=
  let nodes (o : option (list Node)) := match o with None => true | Some l => forallb (plain sig kinds) l end in
  match n with
  | NCode _ | NSkip _ => true
  | NSignal _ => sig
  | NCall _ | NAgent _ | NReact _ => kinds n
  | NIf _ t e => nodes t && nodes e
  | NLoop _ _ b => nodes b
  | NTry d c f => nodes d && nodes c && nodes f
  | NGate g e _ m => nodes g && nodes e && in_i64 m
  | _ => false
  end.
Definition plain_list (sig : bool) (kinds : Node → bool) (o : NodeList) : bool :=
  match o with None => true | Some l => forallb (plain sig kinds) l end.
(** A node that is walked outside [interpNode]. *)
Definition isOther (n : Node) : bool := match n with NCall _ | NAgent _ | NReact _ => true | _ => false end.

(** ** Addresses *)

Definition nodePath (parent : string) (n : Node) (idx : Z) : string :=
  match n with
  | NCode v => PathFor parent "" (csID v) idx | NSignal v => PathFor parent "" (ssID v) idx
  | NAgent v => PathFor parent "" (asID v) idx | NCall v => PathFor parent "" (caID v) idx
  | NIf _ _ _ => PathFor parent "if" "" idx | NLoop _ _ _ => PathFor parent "loop" "" idx
  | NTry _ _ _ => PathFor parent "try" "" idx | NParallel _ => PathFor parent "parallel" "" idx
  | NGate _ _ _ _ => PathFor parent "gate" "" idx | NMap _ _ => PathFor parent "map" "" idx
  | NReact _ => PathFor parent "react" "" idx | NCompose _ _ _ _ => PathFor parent "compose" "" idx
  | NSkip _ => PathFor parent "skip" "" idx
  end.

(** Strictly inside [q], and at or inside it. *)
Definition below (q p : string) : Prop := ∃ t, p = q +:+ "." +:+ t.
Definition under (q p : string) : Prop := p = q ∨ below q p.

Lemma below_trans q p r : under q p → below p r → below q r.
Proof. intros [->|[t ->]] [u ->]; [by exists u|]. exists (t +:+ "." +:+ u). by rewrite <- !sapp_assoc. Qed.
Lemma under_trans q p r : under q p → under p r → under q r.
Proof. intros H [->|H']; [done|]. right. by apply (below_trans q p). Qed.
Lemma below_under q p r : below q p → under p r → below q r.
Proof. intros H [->|H']; [done|]. by apply (below_trans q p); [right|]. Qed.

Lemma below_PathFor q kw id i : q ≠ "" → below q (PathFor q kw id i).
Proof. intros H. unfold PathFor. apply String.eqb_neq in H as ->. by eexists. Qed.
Lemma below_nodePath q n i : q ≠ "" → below q (nodePath q n i).
Proof. intros H. destruct n; by apply below_PathFor. Qed.
Lemma PathFor_nonempty q kw id i : PathFor q kw id i ≠ "".
Proof.
  unfold PathFor. destruct (String.eqb_spec q "") as [->|Hq]; [|by destruct q].
  destruct (String.eqb_spec id "") as [->|Hi]; cbn [negb]; [|done]. destruct (String.eqb_spec kw ""); [done|]. by destruct kw.
Qed.
Lemma nodePath_nonempty q n i : nodePath q n i ≠ "".
Proof. destruct n; apply PathFor_nonempty. Qed.

Lemma below_app q t : below q (q +:+ "." +:+ t).
Proof. by exists t. Qed.
Lemma below_dot q t u : below q ((q +:+ "." +:+ t) +:+ u).
Proof. exists (t +:+ u). by rewrite <- !sapp_assoc. Qed.

(** ** Primitive steps *)

(** An event of a type the fold ignores. *)
Definition ignoredType (ty : string) : bool := negb (mem ty foldedTypes).

(** What calls, agent and react steps may do to the store and the log: the contents that calls put, those
    of the events of an agent; what the steps commit, with their transcript or without; whether skills are
    selected; and the outputs that nodes record. *)
Record effects : Type := MkEffects {
  efPuts :> string → Prop; efPayloads : string → Prop; efResults : DispatchResult → bool → Prop; efSkills : Prop;
  efRecorded : gomap → Prop }.
Definition allEffects : effects := MkEffects (λ _, True) (λ _, True) (λ _ _, True) True (λ _, True).

Section walks.
Context `{Log L} `{Blobs B} `{World W} `{Signals W} `{Externals}.
#[local] Notation St := (St L B W).
#[local] Notation run := (option (Result * St)).
Variable sig : bool.
Variable puts : effects.

(** The outputs of the nodes recorded so far. *)
Definition recorded (s : St) : Prop := ∀ p nr, rsCompleted (stRS s) !! p = Some nr → efRecorded puts (nrOutputs nr).

(** One step of the run at an address. *)
Inductive prim : string → St → St → Prop :=
  | p_code ic cx cs path s r s' : runCodeStep ic cx cs path s = (r, s') → prim path s s'
  | p_signal ic cx ss path s r s' : sig = true → runSignalStep ic cx ss path s = (r, s') → prim path s s'
  | p_fail path oc e s r s' : failStep path oc e s = (r, s') → prim path s s'
  | p_skipped path reason s e s' : appendNodeSkipped path reason s = (e, s') → prim path s s'
  | p_lost ty path j s e s' : appendTo ty path j s = (Some e, s') → prim path s s'
  | p_branch path which s s' : LookupBranch (stRS s) path = None →
      appendTo EventBranchTaken path (BranchTakenData_json (MkBranchTakenData which)) s = (None, s') →
      prim path s (setRS (RecordBranch path which (stRS s')) s')
  | p_iter path k s s' : in_i64 k = true →
      appendTo EventLoopIter path (LoopIterData_json (MkLoopIterData k)) s = (None, s') →
      prim path s (setRS (RecordLoopIter path k (stRS s')) s')
  | p_attempt path n oc nr q s e s' : in_i64 n = true → passedAlready (LookupGateAttempts (stRS s) path) = false → LookupCompleted (stRS s) q = Some nr →
      appendSynced EventGateAttempt path (GateAttemptData_json (MkGateAttemptData n oc (nrOutputsRef nr))) s = (e, s') →
      prim path s (match e with
                   | None => setRS (RecordGateAttempt path (MkAttempt n oc (nrOutputs nr)) (stRS s')) s'
                   | Some _ => s'
                   end)
  | p_started path k s : prim path s (appendNodeStarted path k s)
  | p_world path s w : prim path s (setW w s)
  | p_put path c s r b : puts c → blobsPut c (stBlobs s) = (r, b) → prim path s (setBlobs b s)
  | p_call path input raw ref files rts b s e s' : LookupCallStarted (stRS s) path = None → puts raw →
      Marshal (VMap input) = Some raw → blobsPut raw b = (Ok ref, stBlobs s) →
      appendSynced EventCallStarted path (CallStartedData_json (MkCallStartedData ref files rts)) s = (e, s') →
      prim path s (match e with
                   | None => setRS (RecordCallStarted path (MkCallStarted (Some input) ref files rts) (stRS s')) s'
                   | Some _ => s'
                   end)
  | p_product path product s r s' : LookupCompleted (stRS s) path = None → efRecorded puts (weOutputs product) →
      (∀ m raw, weOutputs product = Some m → Marshal (VMap m) = Some raw → puts raw) →
      liftH (commitCallProduct path product) s = (r, s') →
      prim path s (match r with Ok nr => setRS (RecordCompleted path nr (stRS s')) s' | Err _ => s' end)
  | p_note path ty j s e s' : ignoredType ty = true → appendTo ty path j s = (e, s') → prim path s s'
  | p_payload path c s r b : efPayloads puts c → blobsPut c (stBlobs s) = (r, b) → prim path s (setBlobs b s)
  | p_threads path x s : prim path s (setRS (setThreadIdx x (stRS s)) s)
  | p_skills path d s e s' : efSkills puts → appendSynced EventSkillsSelected path (SkillsSelectedData_json d) s = (e, s') →
      prim path s (match e with None => setRS (RecordSelectedSkills path d (stRS s')) s' | Some _ => s' end)
  | p_commit path dr part s r s' : LookupCompleted (stRS s) path = None → (recorded s → drOutcome dr = OutcomeOK → efResults puts dr part) →
      liftH (Commit xJcs path dr part) s = (r, s') →
      prim path s (match r with Ok nr => setRS (RecordCompleted path nr (stRS s')) s' | Err _ => s' end)
  | p_round path k s e s' : in_i64 k = true →
      appendSynced EventReactRound path (ReactRoundData_json (MkReactRoundData k)) s = (e, s') →
      prim path s (match e with None => setRS (RecordReactRound path (MkRound k) (stRS s')) s' | Some _ => s' end).

(** A sequence of steps at addresses in [P]. *)
Definition walks (P : string → Prop) : relation St := rtc (λ s s', ∃ p, P p ∧ prim p s s').

Lemma walks_one (P : string → Prop) p s s' : P p → prim p s s' → walks P s s'.
Proof. intros. apply rtc_once. by exists p. Qed.
Lemma walks_mono (P Q : string → Prop) s s' : (∀ p, P p → Q p) → walks P s s' → walks Q s s'.
Proof. intros HPQ Hw. eapply rtc_subrel; [|exact Hw]. intros x y (p & Hp & Hs). exists p. auto. Qed.
Lemma walks_trans P s1 s2 s3 : walks P s1 s2 → walks P s2 s3 → walks P s1 s3.
Proof. intros H12 H23. by transitivity s2. Qed.
Lemma walks_refl P s : walks P s s.
Proof. apply rtc_refl. Qed.

(** What every step of a walk keeps, the walk keeps. *)
Lemma walks_keep (P : string → Prop) (I : St → Prop) s s' :
  (∀ p s s', P p → prim p s s' → I s → I s') → walks P s s' → I s → I s'.
Proof. intros Hk Hw. induction Hw as [|s1 s2 s3 (p & Hp & Hs) _ IH]; [done|]. intros Hi. by eapply IH, Hk. Qed.

(** A block that steps strictly inside the address it is given. *)
Definition steps_below (bd : Context_ → string → St → run) : Prop :=
  ∀ cx parent s r s', parent ≠ "" → bd cx parent s = Some (r, s') → walks (below parent) s s'.

(** ** The footprint of a step *)

(** What the run state holds at a path. *)
Definition same_at (q : string) (rs rs' : RunState) : Prop :=
  rsCompleted rs' !! q = rsCompleted rs !! q ∧ rsBranches rs' !! q = rsBranches rs !! q ∧
  rsLoopIters rs' !! q = rsLoopIters rs !! q ∧ rsGateAttempts rs' !! q = rsGateAttempts rs !! q ∧
  rsCallStarted rs' !! q = rsCallStarted rs !! q ∧ rsReactRounds rs' !! q = rsReactRounds rs !! q.

Lemma same_at_refl q rs : same_at q rs rs.
Proof. by repeat split. Qed.
Lemma same_at_trans q rs1 rs2 rs3 : same_at q rs1 rs2 → same_at q rs2 rs3 → same_at q rs1 rs3.
Proof. intros (A & B1 & C & D & E & F) (A' & B' & C' & D' & E' & F'). repeat split; by etrans. Qed.

Lemma appendTo_state ty path j (s : St) e s' : appendTo ty path j s = (e, s') →
  stRS s' = stRS s ∧ stBlobs s' = stBlobs s ∧ stW s' = stW s.
Proof. unfold appendTo. destruct (appendEvent _ _ _ _). by intros [= _ <-]. Qed.
Lemma appendSynced_state ty path j (s : St) e s' : appendSynced ty path j s = (e, s') →
  stRS s' = stRS s ∧ stBlobs s' = stBlobs s ∧ stW s' = stW s.
Proof.
  unfold appendSynced. destruct (appendTo _ _ _ s) as [[x|] s1] eqn:Ha; apply appendTo_state in Ha as (H1' & H2' & H3').
  - by intros [= _ <-].
  - unfold syncLog. destruct (logSync _). by intros [= _ <-].
Qed.
Lemma failStep_state path oc c (s : St) r s' : failStep path oc c s = (r, s') →
  stRS s' = stRS s ∧ stBlobs s' = stBlobs s ∧ stW s' = stW s.
Proof. unfold failStep. destruct (appendSynced _ _ _ s) as [[x|] s1] eqn:Ha; intros [= _ <-]; by apply appendSynced_state in Ha. Qed.
Lemma liftH_state {A} (h : handler L B A) (s : St) r s' : liftH h s = (r, s') → stRS s' = stRS s ∧ stW s' = stW s.
Proof. unfold liftH. destruct (h _) as [? [??]]. by intros [= _ <-]. Qed.

(** A step of the graph records its own completion, in no other index and no item of a map. *)
Definition completes (path : string) (rs rs' : RunState) : Prop :=
  (rsCompleted rs' = rsCompleted rs ∨ ∃ nr, rsCompleted rs' = <[path := nr]> (rsCompleted rs)) ∧
  rsBranches rs' = rsBranches rs ∧ rsLoopIters rs' = rsLoopIters rs ∧ rsGateAttempts rs' = rsGateAttempts rs ∧
  rsMapItems rs' = rsMapItems rs ∧ rsCallStarted rs' = rsCallStarted rs ∧ rsReactRounds rs' = rsReactRounds rs.

Lemma completes_same path rs : completes path rs rs.
Proof. split; [by left|done]. Qed.

Lemma appendNodeStarted_rs path k (s : St) : stRS (appendNodeStarted path k s) = stRS s.
Proof. unfold appendNodeStarted. destruct (appendTo _ _ _ s) as [e s1] eqn:Ha. by apply appendTo_state in Ha as (? & _). Qed.
Lemma dispatchCodeStep_rs cx h cs path i po refs (s : St) r s' :
  dispatchCodeStep cx h cs path i po refs s = (r, s') → completes path (stRS s) (stRS s').
Proof.
  unfold dispatchCodeStep, appendNodeStarted. destruct (appendTo _ _ _ s) as [e0 s0] eqn:E0. cbn [snd].
  apply appendTo_state in E0 as (<- & _). destruct (RunWithRetry _ _ _ _ _ _) as [[dr [e|]] [l w]].
  - destruct (String.eqb _ ""); [intros [= _ <-]; apply completes_same|].
    intros Hf%failStep_state. destruct Hf as (-> & _). apply completes_same.
  - destruct (negb _); [intros Hf%failStep_state; destruct Hf as (-> & _); apply completes_same|].
    destruct (liftH _ _) as [[nr|e] s2] eqn:Hc; apply liftH_state in Hc as (Hc & _); intros [= _ <-];
      cbn [setRS stRS setLog setW] in *; rewrite Hc; [|apply completes_same]. split; [right; by eexists|done].
Qed.

Lemma runCodeStep_rs ic cx cs path (s : St) r s' : runCodeStep ic cx cs path s = (r, s') → completes path (stRS s) (stRS s').
Proof.
  unfold runCodeStep. destruct (LookupCompleted _ _); [intros [= _ <-]; apply completes_same|].
  destruct (prepareCodeStep _ _ _ _ _) as [[[i po] refs]|[e|e]];
    [|intros Hf%failStep_state; destruct Hf as (-> & _); apply completes_same|intros [= _ <-]; apply completes_same].
  destruct (_ && _); [|by apply dispatchCodeStep_rs]. destruct (wCreate _ _ _) as [[h|e] w]; [|intros [= _ <-]; apply completes_same].
  destruct (dispatchCodeStep _ _ _ _ _ _ _ _) as [r1 s1] eqn:E. apply dispatchCodeStep_rs in E. by intros [= _ <-].
Qed.

Lemma completeSignal_rs path ref o (s : St) r s' :
  completeSignal path ref o s = (r, s') → completes path (stRS s) (stRS s').
Proof.
  unfold completeSignal. destruct (liftH _ _) as [[u|e] s2] eqn:Hc; apply liftH_state in Hc as (Hc & _); intros [= _ <-];
    cbn [setRS stRS]; rewrite Hc; [|apply completes_same]. split; [right; by eexists|done].
Qed.

Lemma pollControls_completes path ticks rs : completes path rs (pollControls ticks rs).
Proof.
  induction ticks as [|[[[p|] [c|]]|u] ticks IH]; cbn [pollControls]; try apply completes_same; try exact IH;
    (split; [by left|done]).
Qed.

Lemma completes_from path rs1 rs2 rs3 :
  rsCompleted rs2 = rsCompleted rs1 → rsBranches rs2 = rsBranches rs1 → rsLoopIters rs2 = rsLoopIters rs1 →
  rsGateAttempts rs2 = rsGateAttempts rs1 → rsMapItems rs2 = rsMapItems rs1 → rsCallStarted rs2 = rsCallStarted rs1 → rsReactRounds rs2 = rsReactRounds rs1 →
  completes path rs2 rs3 → completes path rs1 rs3.
Proof. unfold completes. by intros -> -> -> -> -> -> ->. Qed.

Lemma commitSignal_rs ss path d (s : St) r s' : commitSignal ss path d s = (r, s') → completes path (stRS s) (stRS s').
Proof.
  unfold commitSignal. destruct (match ssOutputSchema ss with None => _ | Some _ => _ end) as [typed|m];
    [|intros Hf%failStep_state; destruct Hf as (-> & _); apply completes_same].
  destruct (liftH _ s) as [[ref|e] s1] eqn:Hp; apply liftH_state in Hp as (Hp & _);
    [|intros [= _ <-]; rewrite Hp; apply completes_same].
  destruct (appendSynced _ _ _ s1) as [[e|] s2] eqn:Ha; apply appendSynced_state in Ha as (Ha & _);
    [intros [= _ <-]; rewrite Ha, Hp; apply completes_same|].
  intros Hr%completeSignal_rs. eapply completes_from, Hr; cbn [setRS stRS]; by rewrite Ha, Hp.
Qed.

Lemma runSignalStep_rs ic cx ss path (s : St) r s' : runSignalStep ic cx ss path s = (r, s') → completes path (stRS s) (stRS s').
Proof.
  unfold runSignalStep. destruct (LookupCompleted _ _); [intros [= _ <-]; apply completes_same|].
  destruct (negb wBroker); [intros [= _ <-]; apply completes_same|].
  destruct (LookupSignalReceivedAt _ _) as [entry|].
  - unfold resumeSignal. destruct (if String.eqb _ "" then _ else _) as [schema|]; [|by apply completeSignal_rs].
    destruct (blobsGet _ _) as [raw|]; [|intros [= _ <-]; apply completes_same].
    destruct (ValidateAgainstSchema _ _); [by apply completeSignal_rs|intros [= _ <-]; apply completes_same].
  - unfold appendNodeStarted. destruct (appendTo _ _ _ s) as [e0 s0] eqn:E0. cbn [snd].
    apply appendTo_state in E0 as (<- & _).
    destruct (if String.eqb _ "" then _ else _) as [m|e];
      [|intros Hf%failStep_state; destruct Hf as (-> & _); apply completes_same].
    destruct (wReceive _ _ _ _ _) as [[d|e] w]; [by apply commitSignal_rs|]. unfold signalWaitFailed.
    assert (Hf : completes path (stRS s0) (withFlags (setW w s0))).
    { unfold withFlags. destruct wBroker; [|apply completes_same]. apply pollControls_completes. }
    destruct e.
    + intros Hs%failStep_state. destruct Hs as (-> & _). apply completes_same.
    + destruct (_ || _); [by intros [= _ <-]|]. intros Hs%failStep_state. by destruct Hs as (-> & _).
    + destruct (_ || _); by intros [= _ <-].
Qed.

Lemma completes_at path rs rs' q : completes path rs rs' → q ≠ path → same_at q rs rs'.
Proof.
  intros ([E|[nr E]] & HB & HL & HG & _ & HC & HR) Hq; unfold same_at; rewrite HB, HL, HG, HC, HR, E; repeat split; try done.
  by rewrite lookup_insert_ne.
Qed.

(** A step changes the run state at its own address only. *)
Lemma prim_frame p s s' q : prim p s s' → q ≠ p → same_at q (stRS s) (stRS s').
Proof.
  intros Hs Hq. destruct Hs as [ic cx cs path s r s' Hr|ic cx ss path s r s' _ Hr|path oc e s r s' Hr|path reason s e s' Hr
    |ty path j s e s' Hr|path which s s' _ Hr|path k s s' _ Hr|path n oc nr q' s e s' _ _ _ Hr|path k s|path s w|path c s r b _ _
    |path input raw ref files rts b s e s' _ _ _ _ Hr|path product s r s' _ _ _ Hr
    |path ty j s e s' _ Hr|path c s r b _ _|path x s|path d s e s' _ Hr|path dr part s r s' _ _ Hr|path k s e s' _ Hr].
  - apply runCodeStep_rs in Hr. by eapply completes_at.
  - apply runSignalStep_rs in Hr. by eapply completes_at.
  - apply failStep_state in Hr as (-> & _). apply same_at_refl.
  - apply appendTo_state in Hr as (-> & _). apply same_at_refl.
  - apply appendTo_state in Hr as (-> & _). apply same_at_refl.
  - apply appendTo_state in Hr as (-> & _). cbn [setRS stRS]. repeat split; try done. by apply lookup_insert_ne.
  - apply appendTo_state in Hr as (-> & _). cbn [setRS stRS]. repeat split; try done. by apply lookup_insert_ne.
  - apply appendSynced_state in Hr as (Hr & _). destruct e; [rewrite Hr; apply same_at_refl|].
    cbn [setRS stRS]. rewrite Hr. repeat split; try done. by apply lookup_insert_ne.
  - rewrite appendNodeStarted_rs. apply same_at_refl.
  - apply same_at_refl.
  - apply same_at_refl.
  - apply appendSynced_state in Hr as (Hr & _). destruct e; [rewrite Hr; apply same_at_refl|].
    cbn [setRS stRS]. rewrite Hr. repeat split; try done. by apply lookup_insert_ne.
  - apply liftH_state in Hr as (Hr & _). destruct r; [|rewrite Hr; apply same_at_refl].
    cbn [setRS stRS]. rewrite Hr. repeat split; try done. by apply lookup_insert_ne.
  - apply appendTo_state in Hr as (-> & _). apply same_at_refl.
  - apply same_at_refl.
  - by repeat split.
  - apply appendSynced_state in Hr as (Hr & _). by destruct e; cbn [setRS stRS]; rewrite Hr; repeat split.
  - apply liftH_state in Hr as (Hr & _). destruct r; [|rewrite Hr; apply same_at_refl].
    cbn [setRS stRS]. rewrite Hr. repeat split; try done. by apply lookup_insert_ne.
  - apply appendSynced_state in Hr as (Hr & _). destruct e; [rewrite Hr; apply same_at_refl|].
    cbn [setRS stRS]. rewrite Hr. repeat split; try done. by apply lookup_insert_ne.
Qed.

Lemma walks_frame (P : string → Prop) s s' q : walks P s s' → ¬ P q → same_at q (stRS s) (stRS s').
Proof.
  intros Hw Hq. apply (walks_keep P (λ s', same_at q (stRS s) (stRS s')) _ _) in Hw; [done| |apply same_at_refl].
  intros p s1 s2 Hp Hs H12. eapply same_at_trans; [exact H12|]. eapply prim_frame; [exact Hs|]. by intros ->.
Qed.
(** *** The attempts of a gate *)

Variable ic : Ictx.
Variable fuel : nat.
#[local] Notation attempts path s := (LookupGateAttempts (stRS s) path).

(** A block strictly inside the gate leaves its attempts alone. *)
Lemma attempts_below path (s s' : St) : walks (below path) s s' → attempts path s' = attempts path s.
Proof.
  intros Hw. apply (walks_frame _ _ _ path) in Hw as (_ & _ & _ & Hw & _).
  - unfold LookupGateAttempts, at_path. by rewrite Hw.
  - intros [t Ht]. apply (f_equal slen) in Ht. rewrite !slen_app in Ht. cbn [slen] in Ht. lia.
Qed.

Lemma passedAlready_snoc l a : passedAlready (l ++ [a]) = String.eqb (arAttemptOutcome a) AttemptPassed.
Proof. unfold passedAlready. by rewrite last_snoc. Qed.

Lemma failStep_not_ok path oc c (s : St) r s' : failStep path oc c s = (r, s') → isOk r = false.
Proof. unfold failStep. destruct (appendSynced _ _ _ s) as [[e|] s1]; intros [= <- _]; unfold isOk; cbn [fst snd]; by rewrite andb_false_r. Qed.

(** The judgement of an attempt is recorded, or the gate ends without one. *)
Lemma judge_attempts ev until path n (s : St) x s' : judge ic ev until path n s = (x, s') →
  match x with
  | inl r => isOk r = false ∧ attempts path s' = attempts path s
  | inr passed => ∃ v, attempts path s' = attempts path s ++ [MkAttempt n (if passed then AttemptPassed else AttemptRejected) v]
  end.
Proof.
  unfold judge. destruct (lastEvaluatorPath _ _) as [q|m]; [|by intros [= <- <-]].
  destruct (LookupCompleted _ q) as [nr|]; [|by intros [= <- <-]].
  destruct (EvalBoolString _ until) as [passed|e].
  - destruct (appendSynced _ _ _ s) as [[e|] s1] eqn:Ha; intros [= <- <-]; apply appendSynced_state in Ha as (Ha & _).
    + by rewrite Ha.
    + exists (nrOutputs nr). unfold LookupGateAttempts. cbn [setRS stRS RecordGateAttempt setGateAttempts rsGateAttempts].
      unfold LookupGateAttempts. rewrite at_path_insert, String.eqb_refl. by rewrite Ha.
  - destruct (failStep _ _ _ s) as [fr fs] eqn:Hf. intros [= <- <-]. split; [by eapply failStep_not_ok|].
    by apply failStep_state in Hf as (-> & _).
Qed.

(** *** The handlers *)

Lemma takeBranch_walks t e em cx path which s r s' :
  steps_below t → steps_below e → takeBranch t e em cx path which s = Some (r, s') → walks (below path) s s'.
Proof.
  intros Ht He. unfold takeBranch.
  assert (Hb : ∀ br bd s, steps_below bd → bd cx (path +:+ "." +:+ br) s = Some (r, s') → walks (below path) s s').
  { intros br bd s0 Hbd Hr. apply Hbd in Hr; [|by destruct path]. eapply walks_mono, Hr.
    intros p Hp. eapply below_trans; [right; apply below_app|done]. }
  destruct (String.eqb which "then"); [by apply (Hb "then")|]. destruct (String.eqb which "else"); [|intros [= <- <-]; apply walks_refl].
  destruct em; [intros [= <- <-]; apply walks_refl|by apply (Hb "else")].
Qed.

Lemma runIf_walks cond t e em cx path s r s' :
  steps_below t → steps_below e → runIf ic cond t e em cx path s = Some (r, s') → walks (under path) s s'.
Proof.
  intros Ht He. unfold runIf.
  assert (Hbr : ∀ which s, takeBranch t e em cx path which s = Some (r, s') → walks (under path) s s').
  { intros which s0 Hr. apply takeBranch_walks in Hr; [|done..]. eapply walks_mono, Hr. by right. }
  destruct (LookupBranch (stRS s) path) as [which|] eqn:Hl; [by apply Hbr|].
  destruct (EvalBoolString _ cond) as [c|x].
  - destruct (appendTo _ _ _ s) as [[x|] s1] eqn:Ha.
    + intros [= <- <-]. eapply walks_one; [by left|by eapply p_lost].
    + intros Hr%Hbr. eapply walks_trans; [|exact Hr]. eapply walks_one; [by left|by apply p_branch].
  - destruct (failStep _ _ _ s) as [fr fs] eqn:Hf. intros [= <- <-]. eapply walks_one; [by left|by eapply p_fail].
Qed.

Lemma endIteration_walks until mx path bp k s o s' :
  in_i64 k = true → endIteration ic until mx path bp k s = (o, s') → walks (eq path) s s'.
Proof.
  intros Hk. unfold endIteration. destruct (appendTo _ _ _ s) as [[x|] s1] eqn:Ha.
  - intros [= <- <-]. eapply walks_one; [done|by eapply p_lost].
  - set (s2 := setRS _ s1). assert (Hw : walks (eq path) s s2) by (by eapply walks_one, p_iter).
    destruct until as [u|]; [|by intros [= _ <-]]. destruct (EvalBoolString _ u) as [[]|x]; [by intros [= _ <-]..|].
    destruct (failStep _ _ _ s2) as [fr fs] eqn:Hf. intros [= _ <-].
    eapply walks_trans; [exact Hw|]. eapply walks_one; [done|by eapply p_fail].
Qed.

Lemma below_Iter path k : below path (IterPath (path +:+ ".body") k).
Proof. unfold IterPath. rewrite <- sapp_assoc. by eexists. Qed.

Lemma loopFrom_walks until mx bd cx path n : steps_below bd → ∀ k s r s',
  in_i64 k = true → loopFrom ic n until mx bd cx path k s = Some (r, s') → walks (under path) s s'.
Proof.
  intros Hbd. induction n as [|n IH]; [done|]. intros k s r s' Hk. cbn [loopFrom].
  set (bp := IterPath (path +:+ ".body") k).
  assert (Hbp : below path bp) by apply below_Iter.
  destruct (bd cx bp s) as [[br s1]|] eqn:Hb; [|done].
  assert (Hw1 : walks (under path) s s1).
  { apply Hbd in Hb; [|by destruct path]. eapply walks_mono, Hb. intros p Hp. right. by eapply below_trans; [right|]. }
  assert (Hnext : ∀ s2, walks (under path) s s2 →
    match endIteration ic until mx path bp k s2 with
    | (Some r, s) => Some (r, s)
    | (None, s) => loopFrom ic n until mx bd cx path (wrap_i64 (k + 1)) s
    end = Some (r, s') → walks (under path) s s').
  { intros s2 Hw2. destruct (endIteration _ _ _ _ _ _ s2) as [o s3] eqn:He. apply endIteration_walks in He; [|done].
    assert (Hw3 : walks (under path) s s3) by (eapply walks_trans, walks_mono, He; [done|intros p <-; by left]).
    destruct o as [o|]; [by intros [= <- <-]|]. intros Hr. eapply walks_trans; [exact Hw3|].
    eapply IH, Hr. apply in_i64_wrap. }
  destruct (skipOf br) as [reason|]; [|destruct (isOk br); [by apply Hnext|by intros [= <- <-]]].
  destruct (appendNodeSkipped bp reason s1) as [[x|] s2] eqn:Ha;
    assert (Hw2 : walks (under path) s s2) by (eapply walks_trans, walks_one, p_skipped, Ha; [done|by right]);
    [by intros [= <- <-]|by apply Hnext].
Qed.
Lemma runLoop_walks until mx bd cx path s r s' :
  steps_below bd → runLoop ic fuel until mx bd cx path s = Some (r, s') → walks (under path) s s'.
Proof.
  intros Hbd. unfold runLoop. destruct until, mx; try (by apply loopFrom_walks; [|apply in_i64_wrap]).
  intros [= <- <-]. apply walks_refl.
Qed.

(** A block at [path.br]. *)
Lemma block_walks bd cx path br s r s' :
  steps_below bd → bd cx (path +:+ "." +:+ br) s = Some (r, s') → walks (below path) s s'.
Proof.
  intros Hbd Hr. apply Hbd in Hr; [|by destruct path]. eapply walks_mono, Hr.
  intros p Hp. eapply below_trans; [right; apply below_app|done].
Qed.

Lemma tryCatch_walks c em cx path r s pr s' :
  steps_below c → tryCatch c em cx path r s = Some (pr, s') → walks (below path) s s'.
Proof.
  intros Hc. unfold tryCatch. destruct (_ && _); [by apply (block_walks c cx path "catch")|].
  intros [= <- <-]. apply walks_refl.
Qed.

Lemma runTry_walks d c f cem fem cx path s r s' :
  steps_below d → steps_below c → steps_below f →
  runTry d c f cem fem cx path s = Some (r, s') → walks (under path) s s'.
Proof.
  intros Hd Hc Hf. unfold runTry.
  destruct (d cx (path +:+ ".do") s) as [[dr s1]|] eqn:E1; [|done]. apply (block_walks d cx path "do") in E1; [|done].
  destruct (tryCatch _ _ _ _ _ s1) as [[pr s2]|] eqn:E2; [|done]. apply tryCatch_walks in E2; [|done].
  assert (Hs2 : walks (under path) s s2) by (eapply walks_mono, walks_trans; [by right|exact E1|exact E2]).
  assert (Hs3 : ∀ pe pr' s3, (match skipOf dr with
             | Some reason => let '(e, s) := appendNodeSkipped path reason s2 in (e, (OutcomeOK, pr.2), s)
             | None => (None, pr, s2) end) = (pe, pr', s3) → walks (under path) s s3).
  { intros pe pr' s3. destruct (skipOf dr) as [reason|]; [|by intros [= _ _ <-]].
    destruct (appendNodeSkipped _ _ s2) as [e s4] eqn:Ha. intros [= _ _ <-].
    eapply walks_trans; [exact Hs2|]. eapply walks_one; [by left|by eapply p_skipped]. }
  destruct (match skipOf dr with Some _ => _ | None => _ end) as [[pe pr'] s3]. specialize (Hs3 _ _ _ eq_refl).
  assert (Hs4 : ∀ fr s4, (if fem then Some (okResult, s3) else f Detached (path +:+ ".finally") s3) = Some (fr, s4) →
    walks (under path) s s4).
  { intros fr s4. destruct fem; [by intros [= <- <-]|]. intros Hfr%(block_walks f Detached path "finally"); [|done].
    eapply walks_trans; [exact Hs3|]. eapply walks_mono, Hfr. by right. }
  destruct (if fem then _ else _) as [[fr s4]|]; [|done]. specialize (Hs4 _ _ eq_refl).
  repeat case_match; by intros [= <- <-].
Qed.

Lemma judge_walks ev until path n s x s' :
  in_i64 n = true → passedAlready (attempts path s) = false → judge ic ev until path n s = (x, s') → walks (eq path) s s'.
Proof.
  intros Hn Hp. unfold judge. destruct (lastEvaluatorPath _ _) as [q|]; [|intros [= _ <-]; apply walks_refl].
  destruct (LookupCompleted (stRS s) q) as [nr|] eqn:Hq; [|intros [= _ <-]; apply walks_refl].
  destruct (EvalBoolString _ until) as [passed|e].
  - destruct (appendSynced _ _ _ s) as [e s1] eqn:Ha. intros Hj.
    assert (E : s' = match e with
                     | None => setRS (RecordGateAttempt path (MkAttempt n (if passed then AttemptPassed else AttemptRejected)
                                        (nrOutputs nr)) (stRS s1)) s1
                     | Some _ => s1 end) by (by destruct e; injection Hj as _ <-).
    rewrite E. eapply walks_one; [done|]. by eapply p_attempt.
  - destruct (failStep _ _ _ s) as [fr fs] eqn:Hf. intros [= _ <-]. eapply walks_one; [done|by eapply p_fail].
Qed.

Lemma gateSkipped_walks path reason s r s' : gateSkipped path reason s = Some (r, s') → walks (under path) s s'.
Proof.
  unfold gateSkipped. destruct (appendNodeSkipped _ _ s) as [[e|] s1] eqn:Ha; intros [= _ <-];
    (eapply walks_one; [by left|by eapply p_skipped]).
Qed.

Lemma block_Attempt bd cx path n br s r s' :
  steps_below bd → bd cx (AttemptPath path n +:+ "." +:+ br) s = Some (r, s') → walks (below path) s s'.
Proof.
  intros Hbd Hr. apply block_walks in Hr; [|done]. eapply walks_mono, Hr. intros p Hp.
  eapply below_trans; [|exact Hp]. right. by eexists.
Qed.

Lemma gateFrom_walks g e ev until mx cx path k : steps_below g → steps_below e → in_i64 mx = true → ∀ n s r s',
  (1 ≤ n)%Z → passedAlready (attempts path s) = false → k = Z.to_nat (mx - n + 1) → gateFrom ic k g e ev until mx cx path n s = Some (r, s') → walks (under path) s s'.
Proof.
  intros Hg He Hmx. induction k as [|k IH]; intros n s r s' Hn Hpass Hk; cbn [gateFrom]; [intros [= _ <-]; apply walks_refl|].
  assert (Hin : in_i64 n = true) by (unfold in_i64, two63 in *; rewrite andb_true_iff, Z.leb_le, Z.ltb_lt in *; lia).
  destruct (g _ _ s) as [[gr s1]|] eqn:E1; [|done]. apply (block_Attempt g cx path n "generate") in E1; [|done].
  assert (H1' : walks (under path) s s1) by (eapply walks_mono, E1; by right).
  destruct (skipOf gr); [by intros Hs%gateSkipped_walks; eapply walks_trans|].
  destruct (isOk gr); cbn [negb]; [|by intros [= _ <-]].
  destruct (e _ _ s1) as [[er s2]|] eqn:E2; [|done]. apply (block_Attempt e cx path n "evaluate") in E2; [|done].
  assert (H2' : walks (under path) s s2) by (eapply walks_trans, walks_mono, E2; [done|by right]).
  destruct (skipOf er); [by intros Hs%gateSkipped_walks; eapply walks_trans|].
  destruct (isOk er); cbn [negb]; [|by intros [= _ <-]].
  rewrite <- (attempts_below _ _ _ E1), <- (attempts_below _ _ _ E2) in Hpass.
  destruct (judge _ _ _ _ _ s2) as [x s3] eqn:E3. pose proof (judge_attempts _ _ _ _ _ _ _ E3) as Hj.
  apply judge_walks in E3; [|done..].
  assert (Hs3 : walks (under path) s s3) by (eapply walks_trans, walks_mono, E3; [done|intros p <-; by left]).
  destruct x as [fr|[]]; [by intros [= _ <-]..|]. destruct Hj as [v Hj]. destruct (n =? mx)%Z; [by intros [= _ <-]|].
  intros Hr. eapply walks_trans; [exact Hs3|]. eapply IH, Hr; [lia| |lia]. by rewrite Hj, passedAlready_snoc.
Qed.

Lemma runGate_walks g e gn ev until mx cx path s r s' :
  steps_below g → steps_below e → in_i64 mx = true →
  runGate ic g e gn ev until mx cx path s = Some (r, s') → walks (under path) s s'.
Proof.
  intros Hg He Hmx. unfold runGate. destruct (isEmpty gn); [intros [= _ <-]; apply walks_refl|].
  destruct (isEmpty ev); [intros [= _ <-]; apply walks_refl|]. destruct (mx <? 1)%Z; [intros [= _ <-]; apply walks_refl|].
  destruct (passedAlready _) eqn:Hpass; [intros [= _ <-]; apply walks_refl|].
  apply gateFrom_walks; [done..|lia|done|done].
Qed.

(** *** The walk *)

Variable otherNode : Context_ → Node → string → St → run.
Variable kinds : Node → bool.
(** The other nodes step at their address and inside it. *)
Hypothesis others_walk : ∀ n cx path s r s', isOther n = true → kinds n = true → path ≠ "" →
  otherNode cx n path s = Some (r, s') → walks (under path) s s'.

#[local] Notation interpNode := (interpNode ic otherNode fuel).

(** The steps of a list of siblings. *)
Lemma interpList_walks cx parent l : Forall (λ n, ∀ cx idx parent s r s',
    interpNode cx n idx parent s = Some (r, s') → walks (under (nodePath parent n idx)) s s') l →
  ∀ i s r s', interpList interpNode cx parent l i s = Some (r, s') →
  walks (λ p, ∃ j n, l !! j = Some n ∧ under (nodePath parent n (i + Z.of_nat j)) p) s s'.
Proof.
  intros HF. induction HF as [|n l Hn HF IH]; intros i s r s'; cbn [interpList]; [intros [= _ <-]; apply walks_refl|].
  destruct (interpNode cx n i parent s) as [[nr s1]|] eqn:E1; [|done]. apply Hn in E1.
  assert (H1' : walks (λ p, ∃ j m, (n :: l) !! j = Some m ∧ under (nodePath parent m (i + Z.of_nat j)) p) s s1).
  { eapply walks_mono, E1. intros p Hp. exists 0%nat, n. by rewrite Z.add_0_r. }
  destruct (isOk nr); [|by intros [= _ <-]]. intros Hr. eapply walks_trans; [exact H1'|].
  apply IH in Hr. eapply walks_mono, Hr. intros p (j & m & Hj & Hp). exists (S j), m. split; [done|].
  by replace (i + Z.of_nat (S j))%Z with (i + 1 + Z.of_nat j)%Z by lia.
Qed.

Lemma nodes_walks nodes :
  Forall (λ n, plain sig kinds n = true → ∀ cx idx parent s r s',
    interpNode cx n idx parent s = Some (r, s') → walks (under (nodePath parent n idx)) s s') (default [] nodes) →
  plain_list sig kinds nodes = true → steps_below (interpNodesOf interpNode nodes).
Proof.
  intros HF Hp cx parent s r s' Hne. unfold interpNodesOf. destruct nodes as [l|]; [|intros [= _ <-]; apply walks_refl].
  cbn [default from_option id plain_list] in *. intros Hr. apply interpList_walks in Hr.
  - eapply walks_mono, Hr. intros p (j & n & _ & Hu). eapply below_under; [by apply below_nodePath|exact Hu].
  - rewrite forallb_forall in Hp. rewrite Forall_forall in *. intros n Hn. apply HF; [done|]. by apply Hp, list_elem_of_In.
Qed.

Lemma plain_branches n : plain sig kinds n = true → ∀ b l, (b, l) ∈ branches n → plain_list sig kinds l = true.
Proof.
  destruct n; cbn [plain branches]; rewrite ?andb_true_iff; intros Hp b l Hin;
    repeat (apply elem_of_cons in Hin as [[= -> ->]|Hin]); try (by apply not_elem_of_nil in Hin); try done;
    unfold plain_list; destruct_and?; assumption.
Qed.

(** A walk of a graph of modelled kinds is a sequence of primitive steps at or inside the node's address. *)
Lemma interpNode_walks n : plain sig kinds n = true → ∀ cx idx parent s r s',
  interpNode cx n idx parent s = Some (r, s') → walks (under (nodePath parent n idx)) s s'.
Proof.
  induction n as [n IH] using Node_ind'. intros Hp cx idx parent s r s'.
  assert (Hb : ∀ b l, (b, l) ∈ branches n → steps_below (interpNodesOf interpNode l)).
  { intros b l Hin. apply nodes_walks; [|by eapply plain_branches]. by apply (IH b). }
  destruct n; try discriminate Hp; cbn [Interp.interpNode nodePath branches] in *.
  - destruct (runCodeStep _ _ _ _ s) as [cr cs] eqn:E. intros [= _ <-]. eapply walks_one; [by left|by eapply p_code].
  - apply others_walk; [done..|apply PathFor_nonempty].
  - destruct (runSignalStep _ _ _ _ s) as [cr cs] eqn:E. intros [= _ <-]. eapply walks_one; [by left|by eapply p_signal].
  - apply others_walk; [done..|apply PathFor_nonempty].
  - apply runIf_walks; eapply Hb; repeat ((by left) || right).
  - apply runLoop_walks; eapply Hb; repeat ((by left) || right).
  - apply runTry_walks; eapply Hb; repeat ((by left) || right).
  - apply runGate_walks; [eapply Hb; repeat ((by left) || right)..|cbn [plain] in Hp; by apply andb_prop in Hp as [_ ?]].
  - intros [= _ <-]. apply walks_refl.
  - apply others_walk; [done..|apply PathFor_nonempty].
Qed.
End walks.

(** ** A steady world *)

(** Every attempt succeeds with the same result; no broker; nothing outside is called. *)
#[global] Instance Steady : World () := {
  wDispatch _ _ _ w := ((exDispatch, None), w);
  wSleep _ _ w := (None, w);
  wNotice _ w := w;
  wCtxErr _ _ := None;
  wLocal := false;
  wCreate _ p w := (Ok (MkHandle (spName p) "" "" ""), w);
  wRestore _ _ k w := (Ok (MkHandle k "" "" ""), w);
  wDestroy _ w := (None, w)
}.
#[global] Instance NoBroker {W} : Signals W := {
  wBroker := false;
  wReceive _ _ _ _ w := (Err RCanceled, w);
  wTicks _ := []
}.
#[global] Instance NoExternals : Externals := {
  xJcs s := Some s;
  xCompile _ := Err (EmFmt "no schemas" []);
  xErrText _ := ""
}.

Section example.
#[local] Existing Instance two_times.
#[local] Existing Instance InMemoryLog_laws.
#[local] Instance exSteady_log : Log InMemoryLog := InMemoryLog_log false.

Definition exStep (id : string) : Node := NCode (MkCodeStep id "" "true" None None [] ∅ None None).
(** A branch, a loop of two iterations, a gate that is judged on the output of its evaluator. *)
Definition exGraph : list Node :=
  [exStep "a"; NIf "{{ true }}" (Some [exStep "b"]) None; NLoop None (Some 2%Z) (Some [exStep "c"]);
   NGate (Some [exStep "g"]) (Some [exStep "e"]) ("{{ evaluate.n == " +:+ quote "x" +:+ " }}") 3].
Definition exWorkflow : Workflow :=
  MkWorkflow "w" 1 None ∅ [] ∅ ∅ ∅ ∅ None None ∅ ∅ ∅ (Some exGraph) "".

Definition exIctx : Ictx := MkIctx exWorkflow "" (MkFrame "" None None) ∅ noHandles.
Definition exOther (cx : Context_) (n : Node) (path : string) (s : St InMemoryLog InMemoryBlobs ()) : option (Result * St InMemoryLog InMemoryBlobs ()) :=
  Some (internal (EErrf "not run" []), s).
Definition exState : St InMemoryLog InMemoryBlobs () := MkSt exBefore.1 exBefore.2 (exFold exBefore) ().
Definition exRun : option (Result * St InMemoryLog InMemoryBlobs ()) :=
  interpNodes exIctx exOther 8 Cancellable (Some exGraph) "" exState.
Definition exEnd : St InMemoryLog InMemoryBlobs () := match exRun with Some (_, s) => s | None => exState end.

Definition exLoop : Node := NLoop None (Some 2%Z) (Some [exStep "c"]).
Lemma exRun_eq : exRun = Some (okResult, exEnd).
Proof.
  assert (Hs : match exRun with Some (r, _) => isOk r | None => false end = true) by (vm_compute; reflexivity).
  unfold exEnd. destruct exRun as [[[o [e|]] s]|]; [| |done]; unfold isOk in Hs; cbn [fst snd] in Hs.
  - by rewrite andb_false_r in Hs.
  - rewrite andb_true_r in Hs. by apply String.eqb_eq in Hs as ->.
Qed.

End example.
