(* ===== verification/InterpFold.v ===== *)
(** * The live run state and the fold of the log

    At every step of a walk, whatever call fails, the log folds, and what the interpreter holds in memory
    is what folding the log gives back. *)

From S2P Require Import Prelude GoNum GoJson GoStruct Signal TmplLexer TmplParser TmplEval RetryPolicy EnginePath GoPath.
From S2P Require Import StateBlobs StateLog EngineEvents RunState EngineFold Journal Ir Commit Scope ScopeLaws Artifacts Containers RetryLoop Steps Contracts Exports Runtimes Interp Call InterpLaws.

(** ** Events the fold does not read *)

Section ignored.
Context `{TimeCodec}.
Variable get : string → res blobErr string.

Lemma foldEvents_ignored es rs : Forall (λ e, folded e = false) es → foldEvents get true rs es = Ok rs.
Proof.
  induction 1 as [|e es He _ IH]; [done|]. cbn [foldEvents]. rewrite foldArm_ignored by done.
  unfold folded in He. cbn in He. apply orb_false_iff in He as [-> _]. done.
Qed.

Lemma Fold_ignored es es' rs :
  es ≠ [] → Forall (λ e, folded e = false) es' → Fold get es = Ok rs → Fold get (es ++ es') = Ok rs.
Proof. intros Hne HF Hf. rewrite Fold_app, Hf by done. by apply foldEvents_ignored. Qed.
End ignored.

Lemma ignored_event `{TimeCodec} ty path j e : ignoredType ty = true → same_event (newEvent ty path j) e → folded e = false.
Proof. intros Hi (_ & Ht & _). unfold folded. rewrite Ht. by apply negb_true_iff. Qed.

Create HintDb keeps.

(** ** The mirror *)

(** The outputs the fold reads back: the same, or as their JSON reads. *)
Definition rereads (o o' : gomap) : Prop := o' = o ∨ reread o = Some o'.

Definition attempt_mirrors (a a' : AttemptResult) : Prop :=
  arN a' = arN a ∧ arAttemptOutcome a' = arAttemptOutcome a ∧ rereads (arVerdict a) (arVerdict a').

(** A call that is resumed is called with the same input and files. *)
Definition call_mirrors (c c' : CallStartedRecord) : Prop :=
  crInputRef c' = crInputRef c ∧ crInputFiles c' = crInputFiles c ∧ crRuntimes c' = crRuntimes c ∧ rereads (crInput c) (crInput c').

Lemma call_mirrors_self o : option_Forall2 call_mirrors o o.
Proof. destruct o; constructor. split; [done|]. split; [done|]. split; [done|by left]. Qed.

(** What the live state [rs] records, the folded state [rs'] records.  [exact] (no sync has failed after
    its append): and nothing else, for the committed nodes, the attempts of the gates, the calls and the rounds. *)
Record mirrors (exact : Prop) (get : string → res blobErr string) (rs rs' : RunState) : Prop := {
  mi_branches : rsBranches rs' = rsBranches rs;
  mi_iters : rsLoopIters rs' = rsLoopIters rs;
  mi_completed p nr : rsCompleted rs !! p = Some nr →
    ∃ o', rsCompleted rs' !! p = Some (with_outputs nr o') ∧ rereads (nrOutputs nr) o' ∧
          ∀ q, readMapIf get (nrOutputsRef nr) q = Ok o';
  mi_only : exact → ∀ p, rsCompleted rs !! p = None → rsCompleted rs' !! p = None;
  mi_attempts : exact → ∀ p, Forall2 attempt_mirrors (at_path (rsGateAttempts rs) p) (at_path (rsGateAttempts rs') p);
  mi_calls : exact → ∀ p, option_Forall2 call_mirrors (rsCallStarted rs !! p) (rsCallStarted rs' !! p);
  mi_rounds : exact → ∀ p, at_path (rsReactRounds rs') p = at_path (rsReactRounds rs) p
}.

Lemma readMapIf_grows' get get' ref q x :
  (∀ r y, get r = Ok y → get' r = Ok y) → readMapIf get ref q = Ok x → readMapIf get' ref q = Ok x.
Proof. intros Hg. by apply readMapIf_grows. Qed.

Lemma mirrors_grows exact get get' rs rs' :
  (∀ r y, get r = Ok y → get' r = Ok y) → mirrors exact get rs rs' → mirrors exact get' rs rs'.
Proof.
  intros Hg [A B C D E F G]. split; try done. intros p nr Hp. destruct (C p nr Hp) as (o' & H1 & H2 & H3).
  exists o'. split; [done|]. split; [done|]. intros q. by apply (readMapIf_grows' get).
Qed.

(** The folded state mirrors itself. *)
Lemma mirrors_self `{TimeCodec} exact get es rs : es ≠ [] → Fold get es = Ok rs → mirrors exact get rs rs.
Proof.
  intros Hne HF. split; try done.
  - intros p nr Hp. exists (nrOutputs nr). split; [by destruct nr|]. split; [by left|].
    apply (Fold_lastCommit get es rs Hne HF) in Hp as (i & e & d & _ & _ & _ & Hn & _).
    unfold nodeResult in Hn. apply res_bind_ok in Hn as (d' & _ & Hn). destruct (ParseOutcome _); [|done].
    destruct (negb _); [done|]. apply res_bind_ok in Hn as (out & Hout & Hn). apply res_bind_ok in Hn as (std & _ & Hn).
    apply res_bind_ok in Hn as (tr & _ & Hn). injection Hn as -> <-. cbn [nrOutputsRef nrOutputs]. intros q.
    unfold readMapIf, readMap, readRef in *. destruct (String.eqb _ ""); [done|]. destruct (get _); [|done].
    cbn [res_map_err res_bind] in *. by destruct (unmarshalMap _).
  - intros _ p. induction (at_path _ p); constructor; [|done]. split; [done|]. split; [done|by left].
  - intros _ p. apply call_mirrors_self.
Qed.

Section sim.
Context `{HL : TimeCodec} {L B W : Type} {HLog : Log L} {HLaws : LogLaws} {HR : LogRobust}.
Context {HB : Blobs B} {HBL : BlobsLaws} {HW : World W} {HS : Signals W} {HE : Externals}.
#[local] Notation St := (St L B W).

(** *** What a step does to the log *)

(** The events of [s'] are those of [s] and then [es]; the log stays usable, and only the world changes. *)
Definition extends (s s' : St) (es : list Event) : Prop :=
  logOK (stLog s') ∧ logEvents (stLog s') = logEvents (stLog s) ++ es ∧ stBlobs s' = stBlobs s ∧ stRS s' = stRS s.

Lemma extends_refl s : logOK (stLog s) → extends s s [].
Proof. intros H. split; [done|]. by rewrite app_nil_r. Qed.
Lemma extends_trans s1 s2 s3 es es' : extends s1 s2 es → extends s2 s3 es' → extends s1 s3 (es ++ es').
Proof. intros (_ & E1 & E2 & E3) (H1 & F1 & F2 & F3). split; [done|]. rewrite F1, E1, app_assoc. split; [done|]. by rewrite F2, F3. Qed.

Lemma appendTo_lost ty path j (s : St) e s' :
  logOK (stLog s) → appendTo ty path j s = (Some e, s') → extends s s' [].
Proof.
  intros Hok. unfold appendTo, appendEvent. destruct (marshal j) as [d|].
  - destruct (logAppend _ (stLog s)) as [[x|] l] eqn:Ha; cbn [fmap option_fmap option_map]; [|done]. intros [= _ <-].
    split; [by eapply append_keeps|]. cbn [setLog stLog stBlobs stRS]. rewrite app_nil_r. by apply append_err in Ha.
  - intros [= _ <-]. split; [done|]. cbn [setLog stLog stBlobs stRS]. by rewrite app_nil_r.
Qed.

Lemma appendTo_done ty path j (s : St) s' :
  marshal j = Some j → logOK (stLog s) → appendTo ty path j s = (None, s') →
  ∃ ev, same_event (newEvent ty path j) ev ∧ extends s s' [ev].
Proof.
  intros Hm Hok. unfold appendTo, appendEvent. rewrite Hm.
  destruct (logAppend _ (stLog s)) as [[x|] l] eqn:Ha; cbn [fmap option_fmap option_map]; [done|]. intros [= <-].
  apply append_ok in Ha as (Hok' & ev & He & Hl); [|done]. by exists ev.
Qed.

Lemma syncLog_extends ty path (s : St) e s' :
  logOK (stLog s) → syncLog ty path s = (e, s') → extends s s' [].
Proof.
  intros Hok. unfold syncLog. destruct (logSync (stLog s)) as [r l] eqn:Hs. intros [= _ <-].
  split; [by eapply sync_keeps|]. cbn [setLog stLog stBlobs stRS]. rewrite app_nil_r. by apply sync_ok in Hs as [-> _].
Qed.

(** No sync fails. *)
Definition syncs : Prop := ∀ (l l' : L) r, logSync l = (r, l') → r = None.

Lemma appendSynced_cases ty path j (s : St) e s' :
  marshal j = Some j → logOK (stLog s) → appendSynced ty path j s = (e, s') →
  (is_Some e ∧ extends s s' []) ∨
  (∃ ev, same_event (newEvent ty path j) ev ∧ extends s s' [ev] ∧ (syncs → e = None)).
Proof.
  intros Hm Hok. unfold appendSynced. destruct (appendTo _ _ _ s) as [[x|] s1] eqn:Ha.
  - intros [= <- <-]. left. split; [done|]. by eapply appendTo_lost.
  - apply appendTo_done in Ha as (ev & He & Hx); [|done..]. intros Hs. right. exists ev. split; [done|].
    assert (Hs' := Hs). apply syncLog_extends in Hs'; [|by destruct Hx]. split; [by apply (extends_trans s s1 s' [ev] [])|].
    intros Hsy. unfold syncLog in Hs. destruct (logSync (stLog s1)) as [r l] eqn:Hl. apply Hsy in Hl as ->. by injection Hs.
Qed.

(** *** Quiet steps *)

Definition quiet (s s' : St) : Prop := ∃ es, extends s s' es ∧ Forall (λ e, folded e = false) es.

Lemma quiet_none s s' : extends s s' [] → quiet s s'.
Proof. intros H. by exists []. Qed.
Lemma quiet_trans s1 s2 s3 : quiet s1 s2 → quiet s2 s3 → quiet s1 s3.
Proof. intros (es & H1 & H2) (es' & H3 & H4). exists (es ++ es'). split; [by eapply extends_trans|]. by apply Forall_app. Qed.
Lemma quiet_ok s s' : quiet s s' → logOK (stLog s').
Proof. by intros (es & (H & _) & _). Qed.

Lemma appendTo_quiet ty path j (s : St) e s' :
  ignoredType ty = true → marshal j = Some j → logOK (stLog s) → appendTo ty path j s = (e, s') → quiet s s'.
Proof.
  intros Hi Hm Hok Ha. destruct e as [e|]; [by apply quiet_none; eapply appendTo_lost|].
  apply appendTo_done in Ha as (ev & He & Hx); [|done..]. exists [ev]. split; [done|].
  apply Forall_singleton. by eapply ignored_event.
Qed.

(** What is appended is what was given. *)
Lemma appendTo_marshals ty path j (s : St) s' : appendTo ty path j s = (None, s') → marshal j = Some j.
Proof. unfold appendTo, appendEvent, marshal. by destruct (nums_ok j). Qed.
Lemma appendTo_note ty path j (s : St) e s' : ignoredType ty = true → logOK (stLog s) → appendTo ty path j s = (e, s') → quiet s s'.
Proof.
  intros Hi Hok Ha. destruct e as [e|]; [by apply quiet_none; eapply appendTo_lost|].
  pose proof (appendTo_marshals _ _ _ _ _ Ha). by eapply appendTo_quiet.
Qed.

Lemma appendSynced_quiet ty path j (s : St) e s' :
  ignoredType ty = true → marshal j = Some j → logOK (stLog s) → appendSynced ty path j s = (e, s') → quiet s s'.
Proof.
  intros Hi Hm Hok Ha. apply appendSynced_cases in Ha as [[_ Hx]|(ev & He & Hx & _)]; [by apply quiet_none| |done..].
  exists [ev]. split; [done|]. apply Forall_singleton. by eapply ignored_event.
Qed.

Lemma failStep_quiet path oc c (s : St) r s' : logOK (stLog s) → failStep path oc c s = (r, s') → quiet s s'.
Proof.
  intros Hok. unfold failStep. destruct (appendSynced _ _ _ s) as [e s1] eqn:Ha.
  apply appendSynced_quiet in Ha; [|done|apply marshal_NodeFailed|done]. by destruct e; intros [= _ <-].
Qed.

(** The attempts of a step journal retry.attempt only, and an ok result is the dispatcher's. *)
Lemma RunWithRetry_log cx h i po (l : L) (w : W) dr err l' w' :
  logOK l → RunWithRetry None cx h i po (l, w) = ((dr, err), (l', w')) →
  logOK l' ∧ (∃ es, logEvents l' = logEvents l ++ es ∧ Forall (λ e, folded e = false) es) ∧
  (drOutcome dr = OutcomeOK → ∃ i' w0 e w1, wDispatch cx h i' w0 = ((dr, e), w1)).
Proof.
  intros Hok Hr. pose (Q := λ x : L * W, logOK x.1 ∧ ∃ es, logEvents x.1 = logEvents l ++ es ∧ Forall (λ e, folded e = false) es).
  assert (Q (l', w') ∧ answered cx h (dr, err).1 ∧ ∀ e, (dr, err).2 = Some e → True) as ([Hok' Hes] & Ha & _).
  2: { split; [done|]. split; [done|]. by apply answered_ok. }
  eapply (RunWithRetry_keeps None cx h i po Q (λ _, True)); [..|exact Hr|split; [done|exists []; by rewrite app_nil_r]]; try done.
  - intros j l1 w1 e l2 [Hok1 (es & El & Hf)] Hap. unfold Q. cbn [fst] in *.
    assert (Hok2 : logOK l2).
    { revert Hap. unfold appendEvent. destruct (marshal _); [|by intros [= _ <-]].
      destruct (logAppend _ l1) as [[y|] l3] eqn:Hl; intros [= _ <-]; by eapply append_keeps. }
    split; [done|]. unfold appendEvent, marshal in Hap. destruct (nums_ok j) eqn:Hj; [|injection Hap as _ <-; by exists es].
    destruct (logAppend _ l1) as [[y|] l3] eqn:Hl; injection Hap as _ <-.
    + apply append_err in Hl; [|done]. exists es. by rewrite Hl.
    + apply append_ok in Hl as (_ & ev & Hev & El2); [|done]. exists (es ++ [ev]). split; [by rewrite El2, El, app_assoc|].
      apply Forall_app. split; [done|]. apply Forall_singleton. by eapply ignored_event, Hev.
Qed.

(** *** The simulation *)

(** Every content a run may put; distinct contents have distinct addresses ([clean]). *)
Variable cs : list string.
Variable puts : effects.
(** Results of the dispatcher can be stored and read back. *)
Hypothesis dispatches_ok : ∀ cx h i w dr e w', wDispatch cx h i w = ((dr, e), w') → drOutcome dr = OutcomeOK →
  (∃ o', commit_ok dr false o') ∧ (∀ c, c ∈ artifacts dr false → c ∈ cs) ∧ efRecorded puts (drOutputs dr).

#[local] Notation getOf s := (blobsGet (stBlobs s)).

(** The log folds, to a state that mirrors the live one, in which the outputs are as they should be. *)
Definition sim (s : St) : Prop :=
  logOK (stLog s) ∧ logEvents (stLog s) ≠ [] ∧ clean (stBlobs s) cs ∧ recorded puts s ∧
  ∃ rs', Fold (getOf s) (logEvents (stLog s)) = Ok rs' ∧ mirrors syncs (getOf s) (stRS s) rs'.

Lemma sim_quiet s s' : sim s → quiet s s' → sim s'.
Proof.
  intros (Hok & Hne & Hc & Hrec & rs' & HF & Hm) (es & (Hok' & Hl & Hb & Hr) & Hi).
  split; [done|]. unfold recorded. rewrite Hb, Hr. split; [rewrite Hl; by destruct (logEvents (stLog s))|]. split; [done|]. split; [done|].
  exists rs'. split; [|done]. rewrite Hl. by apply Fold_ignored.
Qed.

Lemma sim_quiet' (s s1 s' : St) :
  sim s → stLog s1 = stLog s → stBlobs s1 = stBlobs s → stRS s1 = stRS s → quiet s1 s' → sim s'.
Proof. intros Hs H1 H2 H3 Hq. apply (sim_quiet s1); [|done]. unfold sim, recorded. by rewrite H1, H2, H3. Qed.

(** One more event, that the fold and the live state both record. *)
Lemma sim_event s s1 ev (f : RunState → RunState) (rs2 : RunState) :
  sim s → extends s s1 [ev] → EvType ev ≠ EventRunStarted → rsCompleted rs2 = rsCompleted (stRS s) →
  (∀ rs', mirrors syncs (getOf s) (stRS s) rs' → ∃ rs'', foldArm (getOf s) ev rs' = Ok rs'' ∧ mirrors syncs (getOf s) rs2 rs'') →
  sim (setRS rs2 s1).
Proof.
  intros (Hok & Hne & Hc & Hrec & rs' & HF & Hm) (Hok' & Hl & Hb & Hr) Ht Hsame Hf. destruct (Hf rs' Hm) as (rs'' & Ha & Hm'').
  unfold sim. cbn [setRS stLog stBlobs stRS]. rewrite Hb, Hl. split; [done|].
  split; [by destruct (logEvents (stLog s))|]. split; [done|].
  split; [intros q nr; cbn [setRS stRS]; rewrite Hsame; apply Hrec|]. exists rs''. split; [|done].
  rewrite Fold_app, HF by done. cbn [res_bind foldEvents]. apply String.eqb_neq in Ht as ->. by rewrite Ha.
Qed.

Lemma setRS_self (s : St) : setRS (stRS s) s = s.
Proof. by destruct s. Qed.

Lemma sim_branch s s1 ev path which :
  sim s → same_event (newEvent EventBranchTaken path (BranchTakenData_json (MkBranchTakenData which))) ev →
  extends s s1 [ev] → sim (setRS (RecordBranch path which (stRS s1)) s1).
Proof.
  intros Hs (Hp & Ht & _ & Hd) Hx. cbn [newEvent Path EvType Data] in *. apply (sim_event s s1 ev id); [done..|by rewrite Ht|by destruct Hx as (_ & _ & _ & ->)|].
  intros rs' [A B1 C D E F G]. destruct Hx as (_ & _ & _ & ->).
  eexists. split.
  - unfold foldArm. rewrite Ht. cbn [String.eqb]. cbv beta zeta. unfold foldBranchTaken, parseData. rewrite Hd.
    cbn [mbind option_bind]. rewrite BranchTakenData_read. cbn [res_bind]. reflexivity.
  - rewrite Hp. split; try done. cbn. by rewrite A.
Qed.

Lemma sim_iter s s1 ev path k :
  sim s → in_i64 k = true → same_event (newEvent EventLoopIter path (LoopIterData_json (MkLoopIterData k))) ev →
  extends s s1 [ev] → sim (setRS (RecordLoopIter path k (stRS s1)) s1).
Proof.
  intros Hs Hk (Hp & Ht & _ & Hd) Hx. cbn [newEvent Path EvType Data] in *. apply (sim_event s s1 ev id); [done..|by rewrite Ht|by destruct Hx as (_ & _ & _ & ->)|].
  intros rs' [A B1 C D E F G]. destruct Hx as (_ & _ & _ & ->).
  eexists. split.
  - unfold foldArm. rewrite Ht. cbn [String.eqb]. cbv beta zeta. unfold foldLoopIter, parseData. rewrite Hd.
    cbn [mbind option_bind]. rewrite LoopIterData_read by done. cbn [res_bind]. reflexivity.
  - rewrite Hp. split; try done. cbn. by rewrite B1.
Qed.

(** The fold of a gate.attempt whose verdict is the output of a committed node. *)
Lemma fold_attempt get ev rs rs' path n oc nr q :
  in_i64 n = true → rsCompleted rs !! q = Some nr → mirrors syncs get rs rs' →
  same_event (newEvent EventGateAttempt path (GateAttemptData_json (MkGateAttemptData n oc (nrOutputsRef nr)))) ev →
  ∃ o', rereads (nrOutputs nr) o' ∧
    foldArm get ev rs' = Ok (setGateAttempts (<[path := at_path (rsGateAttempts rs') path ++ [MkAttempt n oc o']]> (rsGateAttempts rs')) rs').
Proof.
  intros Hn Hq Hm (Hp & Ht & _ & Hd). cbn [newEvent Path EvType Data] in *.
  destruct (mi_completed _ _ _ _ Hm q nr Hq) as (o' & _ & Ho & Hg). exists o'. split; [done|].
  unfold foldArm. rewrite Ht. cbn [String.eqb]. cbv beta zeta. unfold foldGateAttempt, parseData. rewrite Hd.
  cbn [mbind option_bind]. rewrite GateAttemptData_read by done. cbn [res_bind gaVerdictRef gaN gaAttemptOutcome].
  rewrite Hg. cbn [res_bind]. by rewrite Hp.
Qed.

Lemma sim_attempt s s1 path n oc nr q e :
  sim s → in_i64 n = true → LookupCompleted (stRS s) q = Some nr →
  appendSynced EventGateAttempt path (GateAttemptData_json (MkGateAttemptData n oc (nrOutputsRef nr))) s = (e, s1) →
  sim (match e with
       | None => setRS (RecordGateAttempt path (MkAttempt n oc (nrOutputs nr)) (stRS s1)) s1
       | Some _ => s1
       end).
Proof.
  intros Hs Hn Hq Ha. pose proof Hs as (Hok & _). apply appendSynced_cases in Ha as [[[x ->] Hx]|(ev & He & Hx & Hsy)];
    [| |apply marshal_GateAttempt|done].
  - apply (sim_quiet s); [done|by apply quiet_none].
  - assert (Ht : EvType ev ≠ EventRunStarted) by (destruct He as (_ & -> & _); done).
    destruct e as [x|].
    + rewrite <- (setRS_self s1). destruct Hx as (H1 & H2 & H3 & H4) eqn:Hx'. apply (sim_event s s1 ev id); [done|by split|done|by rewrite H4|].
      intros rs' Hm. destruct (fold_attempt _ _ _ _ path n oc nr q Hn Hq Hm He) as (o' & Ho & Hf).
      eexists. split; [exact Hf|]. rewrite H4. destruct Hm as [A B1 C D E F G]. split; try done. intros Hs'. by specialize (Hsy Hs').
    + apply (sim_event s s1 ev id); [done..|by destruct Hx as (_ & _ & _ & ->)|]. intros rs' Hm.
      destruct (fold_attempt _ _ _ _ path n oc nr q Hn Hq Hm He) as (o' & Ho & Hf).
      eexists. split; [exact Hf|]. destruct Hx as (_ & _ & _ & ->). destruct Hm as [A B1 C D E F G]. split; try done.
      intros Hs' p. cbn [RecordGateAttempt setGateAttempts rsGateAttempts].
      rewrite !at_path_insert. destruct (String.eqb_spec path p) as [<-|Hne]; [|by apply E].
      apply Forall2_app; [by apply E|]. constructor; [by split; [|split]|constructor].
Qed.

(** The fold of a react.round. *)
Lemma sim_round s s1 path k e :
  sim s → in_i64 k = true → appendSynced EventReactRound path (ReactRoundData_json (MkReactRoundData k)) s = (e, s1) →
  sim (match e with None => setRS (RecordReactRound path (MkRound k) (stRS s1)) s1 | Some _ => s1 end).
Proof.
  intros Hs Hk Ha. pose proof Hs as (Hok & _).
  apply appendSynced_cases in Ha as [[[x ->] Hx]|(ev & (Hp & Ht & _ & Hd) & Hx & Hsy)];
    [apply (sim_quiet s); [done|by apply quiet_none]| |apply marshal_ReactRound|done].
  cbn [newEvent Path EvType Data] in *.
  assert (Hf : ∀ get rs', foldArm get ev rs' = Ok (setReactRounds (<[path := at_path (rsReactRounds rs') path ++ [MkRound k]]> (rsReactRounds rs')) rs')).
  { intros get rs'. unfold foldArm. rewrite Ht. cbn [String.eqb]. cbv beta zeta. unfold foldReactRound, parseData. rewrite Hd.
    cbn [mbind option_bind]. rewrite ReactRoundData_read by done. cbn [res_bind rrN]. by rewrite Hp. }
  destruct e as [x|].
  - rewrite <- (setRS_self s1). apply (sim_event s s1 ev id); [done..|by rewrite Ht|by destruct Hx as (_ & _ & _ & ->)|]. intros rs' [A B1 C D E F G]. eexists. split; [apply Hf|].
    destruct Hx as (_ & _ & _ & ->). split; try done. intros Hs'. by specialize (Hsy Hs').
  - apply (sim_event s s1 ev id); [done..|by rewrite Ht|by destruct Hx as (_ & _ & _ & ->)|]. intros rs' [A B1 C D E F G]. eexists. split; [apply Hf|].
    destruct Hx as (_ & _ & _ & ->). split; try done. intros Hs' p. cbn [RecordReactRound setReactRounds rsReactRounds].
    rewrite !at_path_insert. destruct (String.eqb_spec path p) as [<-|Hne]; [|by apply G]. by rewrite (G Hs').
Qed.

(** *** A code step *)


(** A handler leaves the log usable, and the events it appends are of one type. *)
Definition journals {A} (ty : string) (m : handler L B A) : Prop := ∀ x r x', logOK x.1 → m x = (r, x') →
  logOK x'.1 ∧ ∃ es, logEvents x'.1 = logEvents x.1 ++ es ∧ Forall (λ e, EvType e = ty) es.
Lemma journals_none {A} ty (m : handler L B A) : (∀ x r x', logOK x.1 → m x = (r, x') → logOK x'.1 ∧ logEvents x'.1 = logEvents x.1) → journals ty m.
Proof. intros Hm x r x' Hx Hr. destruct (Hm x r x' Hx Hr) as [H1 H2]. split; [done|]. exists []. by rewrite app_nil_r. Qed.
Lemma journals_bind {A C} ty (m : handler L B A) (k : A → handler L B C) :
  journals ty m → (∀ a, journals ty (k a)) → journals ty (hbind m k).
Proof.
  intros Hm Hk x r x' Hx Hb. apply hbind_inv in Hb as [(a & x1 & H1 & H2)|(e & H1 & ->)]; [|by eapply Hm].
  apply Hm in H1 as (Hok & es1 & E1 & F1); [|done]. apply Hk in H2 as (Hok2 & es2 & E2 & F2); [|done].
  split; [done|]. exists (es1 ++ es2). split; [by rewrite E2, E1, app_assoc|by apply Forall_app].
Qed.
Lemma journals_ret {A} ty (a : A) : journals ty (hret a).
Proof. apply journals_none. by intros x r x' Hx [= _ <-]. Qed.
Lemma journals_fail {A} ty e : journals (A := A) ty (hfail e).
Proof. apply journals_none. by intros x r x' Hx [= _ <-]. Qed.
Lemma journals_put ty what path c : journals ty (hput what path c).
Proof. apply journals_none. intros x r x' Hx. unfold hput. by destruct (blobsPut _ _) as [[]]; intros [= _ <-]. Qed.
Lemma journals_append what path e : journals (EvType e) (happend what path e).
Proof.
  intros x r x' Hx. unfold happend. destruct (logAppend _ _) as [[y|] l] eqn:Ha; intros [= _ <-]; cbn [fst].
  - split; [by eapply append_keeps|]. exists []. rewrite app_nil_r. by apply append_err in Ha.
  - apply append_ok in Ha as (Hok & ev & (_ & Ht & _) & El); [|done]. split; [done|]. exists [ev]. split; [done|by apply Forall_singleton].
Qed.
Lemma journals_sync ty what path : journals ty (hsync what path).
Proof.
  apply journals_none. intros x r x' Hx. unfold hsync. destruct (logSync _) as [[y|] l] eqn:Ha; intros [= _ <-]; cbn [fst];
    (split; [by eapply sync_keeps|by apply sync_ok in Ha as [? _]]).
Qed.
Lemma journals_if {A} ty (b : bool) (m m' : handler L B A) : journals ty m → journals ty m' → journals ty (if b then m else m').
Proof. by destruct b. Qed.
Lemma journals_putFiles ty path fs : ∀ acc, journals ty (putFiles path fs acc).
Proof. induction fs as [|f fs IH]; intros acc; cbn [putFiles]; [apply journals_ret|]. apply journals_bind; [apply journals_put|auto]. Qed.
#[local] Hint Resolve journals_ret journals_fail journals_put journals_sync journals_if journals_putFiles : journals.

Lemma journals_appended path d : journals EventNodeCompleted (appendNodeCompleted path d).
Proof.
  apply journals_bind; [unfold hmarshal; destruct (marshal _); eauto with journals|]. intros j.
  apply journals_bind; [apply (journals_append EventNodeCompleted path (newEvent EventNodeCompleted path j))|eauto with journals].
Qed.
Lemma journals_Commit jcs path dr p : journals EventNodeCompleted (Commit jcs path dr p).
Proof.
  unfold Commit. apply journals_if; [apply journals_fail|]. apply journals_bind.
  - unfold prepareCommit, putOutputs, putNonEmpty, nodeKeyOf.
    repeat first [apply journals_bind; [|intros ?] | apply journals_if | case_match | solve [eauto with journals]].
  - intros [nr d]. apply journals_bind; [apply journals_appended|eauto with journals].
Qed.

Lemma filesPresent_state path l : ∀ (x : L * B) r x', filesPresent path l x = (r, x') → x' = x.
Proof.
  induction l as [|[name ref] l IH]; intros x r x'; cbn [filesPresent]; [by intros [= _ <-]|].
  destruct (blobsGet x.2 ref); [apply IH|by intros [= _ <-]].
Qed.

Lemma journals_product path p : journals EventNodeCompleted (commitCallProduct path p).
Proof.
  unfold commitCallProduct. apply journals_bind; [apply journals_none; by intros x r x' Hx ->%filesPresent_state|]. intros _.
  apply journals_bind; [|intros ref; apply journals_bind; [apply journals_appended|eauto with journals]].
  unfold putOutputs. repeat case_match; eauto with journals.
Qed.

Lemma isRecord_outputs b path nr o' e : isRecord b path nr o' e → ∀ q, readMapIf (blobsGet b) (nrOutputsRef nr) q = Ok o'.
Proof.
  intros (d & _ & Hn) q. unfold nodeResult in Hn. apply res_bind_ok in Hn as (d' & _ & Hn). destruct (ParseOutcome _); [|done].
  destruct (negb _); [done|]. apply res_bind_ok in Hn as (out & Hout & Hn). apply res_bind_ok in Hn as (std & _ & Hn).
  apply res_bind_ok in Hn as (tr & _ & Hn). injection Hn as -> _ _ <- <- _ _ _ _ _ _.
  unfold readMapIf, readMap, readRef in *. destruct (String.eqb _ ""); [done|]. destruct (blobsGet b _); [|done].
  cbn [res_map_err res_bind] in *. by destruct (unmarshalMap _).
Qed.

Lemma applyCompleted_same path d nr rs :
  rsCompleted (applyCompleted path d nr rs) = <[path := nr]> (rsCompleted rs) ∧
  rsBranches (applyCompleted path d nr rs) = rsBranches rs ∧ rsLoopIters (applyCompleted path d nr rs) = rsLoopIters rs ∧
  rsGateAttempts (applyCompleted path d nr rs) = rsGateAttempts rs ∧ rsCallStarted (applyCompleted path d nr rs) = rsCallStarted rs ∧
  rsReactRounds (applyCompleted path d nr rs) = rsReactRounds rs.
Proof. unfold applyCompleted. by destruct (negb _ && _), (negb _). Qed.

(** The record of a node, logged: the fold has it, the live state has it or (an unsynced record) not yet. *)
Lemma mirrors_record exact get rs rs' path nr o' d :
  mirrors exact get rs rs' → rereads (nrOutputs nr) o' → (∀ q, readMapIf get (nrOutputsRef nr) q = Ok o') →
  mirrors exact get (RecordCompleted path nr rs) (applyCompleted path d (with_outputs nr o') rs').
Proof.
  intros [A B1 C D E F G] Ho Hg. destruct (applyCompleted_same path d (with_outputs nr o') rs') as (F1 & F2 & F3 & F4 & F5 & F6).
  split; [by rewrite F2|by rewrite F3| | |by rewrite F4|by rewrite F5|by rewrite F6]; rewrite F1; cbn [RecordCompleted setCompleted rsCompleted].
  - intros p m. destruct (decide (p = path)) as [->|Hne].
    + rewrite !lookup_insert_eq. intros [= <-]. by exists o'.
    + rewrite !lookup_insert_ne by done. apply C.
  - intros Hx p. destruct (decide (p = path)) as [->|Hne]; [by rewrite lookup_insert_eq|].
    rewrite !lookup_insert_ne by done. by apply D.
Qed.

Lemma mirrors_ahead exact get rs rs' path nr d :
  ¬ exact → rsCompleted rs !! path = None → mirrors exact get rs rs' → mirrors exact get rs (applyCompleted path d nr rs').
Proof.
  intros Hx Hn [A B1 C D E F G]. destruct (applyCompleted_same path d nr rs') as (F1 & F2 & F3 & F4 & _).
  split; [by rewrite F2|by rewrite F3| |done|done|done|done]. intros p m Hp. rewrite F1, lookup_insert_ne; [by apply C|]. by intros <-; rewrite Hn in Hp.
Qed.

(** The end of a handler that records a node: nothing logged, or the whole record, synced or not. *)
Lemma sim_recorded path o' (s : St) r l b :
  sim s → LookupCompleted (stRS s) path = None → logOK l → grows (stBlobs s) b → clean b cs →
  ((is_ok r = false ∧ logEvents l = logEvents (stLog s)) ∨
   ∃ nr e, logEvents l = logEvents (stLog s) ++ [e] ∧ isRecord b path nr o' e ∧ reread (nrOutputs nr) = Some o' ∧
           (r = Ok nr ∨ ∃ x, r = Err (SyncFailed EventNodeCompleted path x) ∧ ∃ l0, logSync l0 = (Some x, l))) →
  (∀ nr, r = Ok nr → efRecorded puts (nrOutputs nr)) →
  let s' := MkSt l b (stRS s) (stW s) in
  sim (match r with Ok nr => setRS (RecordCompleted path nr (stRS s)) s' | Err _ => s' end).
Proof.
  intros (Hok & Hne & Hc & Hrec0 & rs' & HF & Hm) Hn Hok' Hg Hc' Hcase Hout s'. subst s'.
  apply (mirrors_grows _ _ (blobsGet b) _ _ Hg) in Hm. apply (Fold_grows _ _ Hg) in HF.
  destruct Hcase as [[Hf Hev]|(nr & e & Hev & Hrec & Ho & Hr)].
  - destruct r as [nr|x]; [done|]. unfold sim. cbn [stLog stBlobs stRS]. rewrite Hev. split; [done|]. split; [done|].
    split; [done|]. split; [done|]. by exists rs'.
  - assert (HF' : ∃ d, Fold (blobsGet b) (logEvents l) = Ok (applyCompleted path d (with_outputs nr o') rs')).
    { destruct Hrec as (d & (Hp & Ht & _) & Hres). cbn [newEvent Path EvType] in *. exists d.
      rewrite Hev, Fold_app, HF by done. cbn [res_bind foldEvents]. unfold foldArm. rewrite Ht. cbn [String.eqb]. cbv beta zeta.
      unfold foldNodeCompleted. rewrite Hres. cbn [res_bind]. by rewrite Hp. }
    destruct HF' as (d & HF'). pose proof (isRecord_outputs _ _ _ _ _ Hrec) as Hread.
    assert (Hre : rereads (nrOutputs nr) o') by (by right).
    assert (Hm' : mirrors syncs (blobsGet b) (match r with Ok nr => RecordCompleted path nr (stRS s) | Err _ => stRS s end)
              (applyCompleted path d (with_outputs nr o') rs')).
    { destruct Hr as [->|(x & -> & l0 & Hx)]; [by apply mirrors_record|]. apply mirrors_ahead; [|done..].
      intros Hsy. by apply Hsy in Hx. }
    destruct r as [nr0|x]; (split; [done|]); cbn [setRS stLog stBlobs stRS]; (split; [rewrite Hev; by destruct (logEvents (stLog s))|]);
      (split; [done|]); (split; [|eexists; split; [exact HF'|exact Hm']]); [|done].
    intros q nr'. cbn [setRS stRS RecordCompleted setCompleted rsCompleted]. destruct (decide (q = path)) as [->|Hq]; [|rewrite lookup_insert_ne by done; apply Hrec0].
    rewrite lookup_insert_eq. intros [= <-]. by apply Hout.
Qed.

Lemma sim_commit jcs path dr part (s : St) r s' :
  sim s → LookupCompleted (stRS s) path = None →
  (∃ o', commit_ok dr part o') → (∀ c, c ∈ artifacts dr part → c ∈ cs) → efRecorded puts (drOutputs dr) →
  liftH (Commit jcs path dr part) s = (r, s') →
  sim (match r with Ok nr => setRS (RecordCompleted path nr (stRS s')) s' | Err _ => s' end).
Proof.
  intros Hs Hn (o' & Hco) Hcs Hout Hl. pose proof Hs as (Hok & _ & Hc & _). unfold liftH in Hl.
  destruct (Commit jcs path dr part (stLog s, stBlobs s)) as [r0 [l b]] eqn:HC. injection Hl as <- <-.
  destruct (journals_Commit jcs path dr part (stLog s, stBlobs s) _ (l, b) Hok HC) as [Hok' _].
  apply (Commit_cases jcs cs path dr part o' (stLog s, stBlobs s)) in HC as [[Hg Hc'] Hcase]; [|done..].
  apply (sim_recorded path o' s r0 l b); [done..| |].
  - destruct Hcase as [|(nr & d & e & Hev & Hrec & HK & Hr)]; [by left|right].
    exists nr, e. split; [done|]. split; [by exists d|]. split; [|done]. destruct HK as [[= _ _ -> _]]. by apply Hco.
  - intros nr ->. destruct Hcase as [[[=] _]|(nr' & d & e & _ & _ & HK & [[= ->]|(x & [=] & _)])].
    by destruct HK as [[= _ _ -> _]].
Qed.

Lemma withKeyInputs_ok n refs dr : (∃ o', commit_ok dr false o') → ∃ o', commit_ok (withKeyInputs n refs dr) false o'.
Proof. intros (o' & [A B1 C D]). by exists o'. Qed.

Lemma sim_setLog s l w es : sim s → logOK l → logEvents l = logEvents (stLog s) ++ es → Forall (λ e, folded e = false) es →
  sim (setLog l (setW w s)).
Proof. intros Hs Hok Hl Hi. apply (sim_quiet s); [done|]. by exists es. Qed.

Lemma appendNodeStarted_quiet path k (s : St) : logOK (stLog s) → quiet s (appendNodeStarted path k s).
Proof.
  intros Hok. unfold appendNodeStarted. destruct (appendTo _ _ _ s) as [e s1] eqn:Ha. cbn [snd].
  by eapply appendTo_quiet, Ha; [|apply marshal_NodeStarted|].
Qed.

Lemma sim_dispatch cx h cs0 path i po refs (s : St) r s' :
  sim s → LookupCompleted (stRS s) path = None → dispatchCodeStep cx h cs0 path i po refs s = (r, s') → sim s'.
Proof.
  intros Hs Hn. unfold dispatchCodeStep.
  pose proof (sim_quiet _ _ Hs (appendNodeStarted_quiet path "code" s ltac:(by destruct Hs))) as Hs1.
  rewrite <- (appendNodeStarted_rs path "code" s) in Hn.
  set (s1 := appendNodeStarted path "code" s) in *. clearbody s1.
  destruct (RunWithRetry _ _ _ _ _ _) as [[dr err] [l w]] eqn:HR'.
  assert (Hlog : logOK l ∧ (∃ es, logEvents l = logEvents (stLog s1) ++ es ∧ Forall (λ e, folded e = false) es) ∧
    (drOutcome dr = OutcomeOK → ∃ i' w0 e w1, wDispatch cx h i' w0 = ((dr, e), w1))).
  { apply RunWithRetry_log in HR'; [done|by destruct Hs1]. }
  destruct Hlog as (Hok & (es & Hl & Hi) & Hd).
  pose proof (sim_setLog s1 l w es Hs1 Hok Hl Hi) as Hs2. set (s2 := setLog l (setW w s1)) in *.
  assert (Hfail : ∀ oc e, failStep path oc e s2 = (r, s') → sim s').
  { intros oc e Hf. apply failStep_quiet in Hf; [|by destruct Hs2]. by eapply sim_quiet. }
  destruct err as [e|].
  - destruct (String.eqb _ ""); [by intros [= _ <-]|by apply Hfail].
  - destruct (String.eqb_spec (drOutcome dr) OutcomeOK) as [Ho|]; cbn [negb]; [|by apply Hfail].
    destruct (Hd Ho) as (i' & w0 & e & w1 & Hdisp). destruct (dispatches_ok _ _ _ _ _ _ _ Hdisp Ho) as (Hco & Hcs & Hout).
    destruct (liftH _ s2) as [x s3] eqn:HC. apply sim_commit in HC; [|done|done|by apply withKeyInputs_ok|exact Hcs|exact Hout].
    destruct x as [nr|x]; by intros [= _ <-].
Qed.

Lemma sim_threads x s : sim s → sim (setRS (setThreadIdx x (stRS s)) s).
Proof. intros (Hok & Hne & Hc & Hrec & rs' & HF & [A B1 C D E F G]). split; [done|]. split; [done|]. split; [done|]. split; [done|]. by exists rs'. Qed.
Lemma sim_setW s w : sim s → sim (setW w s).
Proof. done. Qed.

Lemma sim_code ic cx c path (s : St) r s' : sim s → runCodeStep ic cx c path s = (r, s') → sim s'.
Proof.
  intros Hs. unfold runCodeStep. destruct (LookupCompleted (stRS s) path) as [nr|] eqn:Hn; [by intros [= _ <-]|].
  destruct (prepareCodeStep _ _ _ _ _) as [[[i po] refs]|[e|e]].
  - destruct (_ && _); [|by apply sim_dispatch]. destruct (wCreate _ _ _) as [[h|e] w]; [|by intros [= _ <-]].
    destruct (dispatchCodeStep _ _ _ _ _ _ _ _) as [r1 s1] eqn:E. apply sim_dispatch in E; [|done|done]. by intros [= _ <-].
  - intros Hf. apply failStep_quiet in Hf; [|by destruct Hs]. by eapply sim_quiet.
  - by intros [= _ <-].
Qed.

(** *** A call *)

(** Every content a call may put: it can be stored and read back, and, as a repeated call.started cannot
    be folded, no sync fails. *)
Hypothesis puts_ok : ∀ c, puts c → c ∈ cs ∧ (∃ m, unmarshalMap c = Some (Some m)) ∧ syncs.
(** What agent steps commit can be stored and read back; they select no skills. *)
Hypothesis payloads_ok : ∀ c, efPayloads puts c → c ∈ cs.
Hypothesis results_ok : ∀ dr part, efResults puts dr part → (∃ o', commit_ok dr part o') ∧ (∀ c, c ∈ artifacts dr part → c ∈ cs) ∧ efRecorded puts (drOutputs dr).
Hypothesis skills_no : ¬ efSkills puts.

Lemma sim_put (s : St) c r b : c ∈ cs → blobsPut c (stBlobs s) = (r, b) → sim s → sim (setBlobs b s).
Proof.
  intros Hcs Hb (Hok & Hne & Hc & Hrec & rs' & HF & Hm).
  assert (Hg : grows (stBlobs s) b) by (intros x y; by eapply put_keeps).
  split; [done|]. split; [done|]. split; [by eapply clean_put|]. split; [done|]. exists rs'. cbn [setBlobs stLog stBlobs stRS].
  split; [by apply (Fold_grows _ _ Hg)|by apply (mirrors_grows _ _ _ _ _ Hg)].
Qed.

Lemma sim_call (s : St) path input raw ref files rts b e s1 :
  sim s → LookupCallStarted (stRS s) path = None → puts raw → Marshal (VMap input) = Some raw → blobsPut raw b = (Ok ref, stBlobs s) →
  appendSynced EventCallStarted path (CallStartedData_json (MkCallStartedData ref files rts)) s = (e, s1) →
  sim (match e with
       | None => setRS (RecordCallStarted path (MkCallStarted (Some input) ref files rts) (stRS s1)) s1
       | Some _ => s1
       end).
Proof.
  intros Hs Hn Hp Hm Hb Ha. pose proof Hs as (Hok & _ & Hc & _). apply puts_ok in Hp as (Hcs & (m & Hrd) & Hsy).
  assert (Hget : getOf s ref = Ok raw).
  { eapply put_get, Hb. intros x Hx. apply (proj1 Hc); [done|]. by eapply put_keeps. }
  apply appendSynced_cases in Ha as [[[x ->] Hx]|(ev & He & Hx & Hsync)]; [| |apply marshal_CallStarted|done].
  - apply (sim_quiet s); [done|by apply quiet_none].
  - rewrite (Hsync Hsy). destruct He as (Hpa & Ht & _ & Hd). cbn [newEvent Path EvType Data] in *.
    apply (sim_event s s1 ev id); [done..|by rewrite Ht|by destruct Hx as (_ & _ & _ & ->)|]. intros rs' [A B1 C D E F G].
    assert (Hn' : rsCallStarted rs' !! path = None).
    { specialize (F Hsy path). unfold LookupCallStarted in Hn. rewrite Hn in F. by inversion F. }
    eexists. split.
    + unfold foldArm. rewrite Ht. cbn [String.eqb]. cbv beta zeta. unfold foldCallStarted. rewrite Hpa, Hn'. unfold parseData. rewrite Hd.
      cbn [mbind option_bind]. rewrite CallStartedData_read. cbn [res_bind csdInputRef csdInputFiles csdRuntimes].
      unfold readMap, readRef. rewrite Hget. cbn [res_map_err res_bind]. rewrite Hrd. cbn [res_bind]. reflexivity.
    + destruct Hx as (_ & _ & _ & ->). split; try done. intros Hx p. cbn.
      destruct (decide (p = path)) as [->|Hne]; [rewrite !lookup_insert_eq|rewrite !lookup_insert_ne by done; by apply F].
      constructor. split; [done|]. split; [done|]. split; [done|]. right. cbn [reread crInput]. unfold marshalCanonicalJSON. by rewrite Hm.
Qed.

(** The dispatch result whose commit is the same record. *)
Definition productDispatch (out : gomap) : DispatchResult :=
  MkDispatch OutcomeOK None out "" [] None 0 None zeroTurn None "" "" "" "" None [] [].

(** Every commit of a product ends as a commit of a step does. *)
Lemma product_cases path p o' (x : L * B) r x' :
  logOK x.1 → (∀ c, outputs_bytes (weOutputs p) = Some c → c ∈ cs) → clean x.2 cs → reread (weOutputs p) = Some o' →
  commitCallProduct path p x = (r, x') →
  (logOK x'.1 ∧ grows x.2 x'.2 ∧ clean x'.2 cs) ∧
  ((is_ok r = false ∧ logEvents x'.1 = logEvents x.1) ∨
   ∃ nr e, logEvents x'.1 = logEvents x.1 ++ [e] ∧ isRecord x'.2 path nr o' e ∧ nrOutputs nr = weOutputs p ∧
           (r = Ok nr ∨ ∃ y, r = Err (SyncFailed EventNodeCompleted path y) ∧ ∃ l0, logSync l0 = (Some y, x'.1))).
Proof.
  intros Hok Hcs Hcl Ho Hc. unfold commitCallProduct in Hc.
  apply hbind_inv in Hc as [(u & x1 & H1 & Hc)|(e & H1 & ->)]; apply filesPresent_state in H1 as ->;
    [|split; [split; [done|split; [by intros ??|done]]|by left]].
  apply hbind_inv in Hc as [(ref & x1 & H1 & Hc)|(e & H1 & ->)];
    (apply (putOutputs_spec cs) in H1 as [(Hl & Hg & Hcl1) HQ]; [|done|done]; specialize (Hcl1 Hcl));
    [|split; [rewrite Hl; done|left; by rewrite Hl]].
  destruct (HQ _ eq_refl) as [Href Hsome]. assert (Hok1 : logOK x1.1) by (by rewrite Hl).
  set (d := MkNodeCompletedData _ _ _ _ _ _ _ _ _ _ _ _) in Hc.
  assert (Hrec : ∀ e, same_event (newEvent EventNodeCompleted path (NodeCompletedData_json (withUsage d))) e →
            isRecord x1.2 path (MkNodeResult OutcomeOK None (weOutputs p) ref "" "" (weFiles p) zeroTurn "" "") o' e).
  { intros e He. eexists. split; [exact He|].
    apply (record_readable x1.2 path (productDispatch (weOutputs p)) false o' ref "" (weFiles p) "" "" ("", "") e); done. }
  assert (Hj : ∀ r2 x2, appendNodeCompleted path d x1 = (r2, x2) → logOK x2.1).
  { intros r2 x2 Ha. by apply (journals_appended path d x1 r2 x2 Hok1) in Ha as [? _]. }
  apply hbind_inv in Hc as [(v & x2 & H2 & Hc)|(e & H2 & ->)]; pose proof (Hj _ _ H2) as Hok2;
    apply append_spec in H2 as [Hb [[Hf Hev]|(e0 & He & Hev & Hr)]]; try done; rewrite Hl in Hev.
  - injection Hc as <- <-. rewrite Hb. split; [done|]. right. eexists _, e0. split; [done|]. split; [by apply Hrec|]. split; [done|by left].
  - rewrite Hb. split; [done|]. by left.
  - rewrite Hb. split; [done|]. right. eexists _, e0. split; [done|]. split; [by apply Hrec|]. split; [done|right].
    destruct Hr as [[[=] _]|(y & [= ->] & Hs)]. by exists y.
Qed.

Lemma sim_product path p (s : St) r s' : sim s → LookupCompleted (stRS s) path = None → efRecorded puts (weOutputs p) →
  (∀ m raw, weOutputs p = Some m → Marshal (VMap m) = Some raw → puts raw) → liftH (commitCallProduct path p) s = (r, s') →
  sim (match r with Ok nr => setRS (RecordCompleted path nr (stRS s')) s' | Err _ => s' end).
Proof.
  intros Hs Hn Hout Hp Hl. pose proof Hs as (Hok & _ & Hc & _). unfold liftH in Hl.
  destruct (commitCallProduct path p (stLog s, stBlobs s)) as [r0 [l b]] eqn:HC. injection Hl as <- <-.
  assert (Hb : (∃ m, weOutputs p = Some m ∧ Marshal (VMap m) = None) ∨ ((∀ c, outputs_bytes (weOutputs p) = Some c → c ∈ cs) ∧ ∃ o', reread (weOutputs p) = Some o')).
  { destruct (weOutputs p) as [m|]; [|right; split; [done|by exists None]]. destruct (Marshal (VMap m)) as [raw|] eqn:Hm; [|left; by exists m].
    destruct (puts_ok raw (Hp m raw eq_refl Hm)) as (Hcs & (m' & Hrd) & _). right. cbn [outputs_bytes reread]. unfold marshalCanonicalJSON. rewrite Hm.
    split; [by intros c [= <-]|by exists (Some m')]. }
  destruct Hb as [(m & Ho & Hm)|[Hcs (o' & Ho)]].
  - unfold commitCallProduct in HC. apply hbind_inv in HC as [(u & x1 & H1 & HC)|(e & H1 & ->)]; pose proof (filesPresent_state _ _ _ _ _ H1) as E.
    + subst x1. apply hbind_inv in HC as [(ref & x1 & H2 & HC)|(e & H2 & ->)]; unfold putOutputs, marshalCanonicalJSON in H2; rewrite Ho, Hm in H2; [done|].
      injection H2 as _ <- <-. exact Hs.
    + injection E as -> ->. exact Hs.
  - apply (product_cases path p o') in HC as [(Hok' & Hg & Hc') Hcase]; [|done..]. apply (sim_recorded path o' s r0 l b); [done..| |].
    + destruct Hcase as [|(nr & e & Hev & Hrec & Hout' & Hr)]; [by left|right]. exists nr, e. by rewrite Hout'.
    + intros nr ->. destruct Hcase as [[[=] _]|(nr' & e & _ & _ & Hout' & [[= ->]|(x & [=] & _)])]. by rewrite Hout'.
Qed.

(** *** Every step *)

Lemma sim_prim p (s s' : St) : prim false puts p s s' → sim s → sim s'.
Proof.
  intros Hp Hs. pose proof Hs as (Hok & _).
  destruct Hp as [ic cx c path s r s' Hr|ic cx ss path s r s' Hsig _|path oc e s r s' Hr|path reason s e s' Hr
    |ty path j s e s' Hr|path which s s' _ Hr|path k s s' Hk Hr|path n oc nr q s e s' Hn _ Hq Hr|path k s|path s w|path c s r b Hc Hr
    |path input raw ref files rts b s e s' Hn Hp Hm Hb Hr|path product s r s' Hn Hout Hp Hr
    |path ty j s e s' Hi Hr|path c s r b Hc Hr|path x s|path d s e s' Hsk _|path dr part s r s' Hn Hd Hr|path k s e s' Hk Hr].
  - by eapply sim_code.
  - done.
  - apply failStep_quiet in Hr; [|done]. by eapply sim_quiet.
  - unfold appendNodeSkipped in Hr. apply appendTo_quiet in Hr; [|done|apply marshal_NodeSkipped|done]. by eapply sim_quiet.
  - apply appendTo_lost in Hr; [|done]. by eapply sim_quiet, quiet_none.
  - apply appendTo_done in Hr as (ev & He & Hx); [|apply marshal_BranchTaken|done]. by apply (sim_branch s s' ev).
  - apply appendTo_done in Hr as (ev & He & Hx); [|apply marshal_LoopIter|done]. by apply (sim_iter s s' ev).
  - by apply (sim_attempt s s' path n oc nr q).
  - eapply sim_quiet; [exact Hs|by apply appendNodeStarted_quiet].
  - by apply sim_setW.
  - eapply sim_put; [|exact Hr|done]. by apply puts_ok in Hc as [? _].
  - by eapply sim_call.
  - by eapply sim_product.
  - apply appendTo_note in Hr; [|done..]. by eapply sim_quiet.
  - eapply sim_put; [|exact Hr|done]. by apply payloads_ok.
  - by apply sim_threads.
  - done.
  - destruct (decide (drOutcome dr = OutcomeOK)) as [Ho|Ho].
    + destruct (results_ok _ _ (Hd ltac:(by destruct Hs as (_ & _ & _ & Hrec & _)) Ho)) as (Hco & Hcs & Hout). by eapply sim_commit.
    + unfold liftH in Hr. unfold Commit in Hr. apply String.eqb_neq in Ho. rewrite Ho in Hr. injection Hr as <- <-. by destruct s.
  - by apply (sim_round s s' path k).
Qed.

Lemma sim_walks (P : string → Prop) (s s' : St) : walks false puts P s s' → sim s → sim s'.
Proof. apply walks_keep. intros p s1 s2 _. apply sim_prim. Qed.
End sim.
