(* ===== verification/InterpGate.v ===== *)
(** * The attempts of a gate

    What a run records of a gate (engine/gate.go): numbered attempts, each judged once, at most
    max_attempts of them, the last one deciding the result. *)

From S2P Require Import Prelude GoNum GoJson GoStruct Signal TmplLexer TmplParser TmplEval RetryPolicy EnginePath GoPath.
From S2P Require Import StateBlobs StateLog EngineEvents RunState EngineFold Journal Ir Commit Scope ScopeLaws Artifacts Containers RetryLoop Steps Contracts Exports Runtimes Interp Call InterpLaws.

(** The attempts a gate may have: numbered from 1, each passed or rejected, none after one that passed. *)
Definition judged (a : AttemptResult) : Prop :=
  arAttemptOutcome a = AttemptPassed ∨ arAttemptOutcome a = AttemptRejected.
Record gate_ok (l : list AttemptResult) : Prop := {
  go_number i a : l !! i = Some a → arN a = (Z.of_nat i + 1)%Z;
  go_judged a : a ∈ l → judged a;
  go_last i a : l !! i = Some a → S i < length l → arAttemptOutcome a = AttemptRejected
}.

Lemma gate_ok_nil : gate_ok [].
Proof. split; [done| |done]. intros a Ha. by apply not_elem_of_nil in Ha. Qed.

(** One more attempt, after attempts that were all rejected. *)
Lemma gate_ok_snoc l o v : (o = AttemptPassed ∨ o = AttemptRejected) → gate_ok l → passedAlready l = false →
  gate_ok (l ++ [MkAttempt (Z.of_nat (length l) + 1) o v]).
Proof.
  intros Ho [Hn Hj Hl] Hp. split.
  - intros i a Hi. apply lookup_app_Some in Hi as [Hi|[Hge Hi]]; [by apply Hn|].
    apply list_lookup_singleton_Some in Hi as [Hi <-]. cbn [arN]. lia.
  - intros a [Ha|Ha%list_elem_of_singleton]%elem_of_app; [by apply Hj|by subst a].
  - intros i a Hi Hlt. rewrite length_app in Hlt. cbn [length] in Hlt. rewrite lookup_app_l in Hi by lia.
    destruct (decide (S i < length l)) as [Hlt'|]; [by eapply Hl|].
    unfold passedAlready in Hp. rewrite last_lookup in Hp. replace (Nat.pred (length l)) with i in Hp by lia.
    rewrite Hi in Hp. destruct (Hj a) as [H|H]; [by eapply list_elem_of_lookup_2|by rewrite H in Hp|done].
Qed.

Section gate.
Context `{HL : TimeCodec} {L B W : Type} {HLog : Log L} {HB : Blobs B} {HW : World W} {HS : Signals W} {HE : Externals}.
#[local] Notation St := (St L B W).
Variable ic : Ictx.

#[local] Notation attempts path s := (LookupGateAttempts (stRS s) path).

(** How the gate was skipped. *)
Definition skipped (path : string) (s' : St) : Prop := ∃ reason s0, appendNodeSkipped path reason s0 = (None, s').

(** What a gate leaves, [mx] attempts allowed, starting with the attempts [l]. *)
Record gate_run (path : string) (mx : Z) (l : list AttemptResult) (r : Result) (s' : St) : Prop := {
  gr_ok : gate_ok (attempts path s');
  gr_grows : ∃ new, attempts path s' = l ++ new;
  gr_bound : (Z.of_nat (length (attempts path s')) ≤ Z.max mx (Z.of_nat (length l)))%Z;
  gr_passed : passedAlready (attempts path s') = true → r = okResult;
  gr_success : isOk r = true → passedAlready (attempts path s') = true ∨ skipped path s';
  gr_rejected : (length l < length (attempts path s'))%nat → Z.of_nat (length (attempts path s')) = mx →
    passedAlready (attempts path s') = false → r = rejected path mx
}.

(** The gate ends with the attempts it had. *)
Lemma gate_run_same path mx l r (s' : St) :
  gate_ok l → attempts path s' = l → passedAlready l = false → (isOk r = true → skipped path s') → gate_run path mx l r s'.
Proof.
  intros Hg Hl Hp Hr. split; rewrite ?Hl; try done; [by exists []; rewrite app_nil_r|lia|by rewrite Hp|by right; apply Hr|lia].
Qed.

Lemma gateSkipped_run path mx reason (s : St) r s' :
  gate_ok (attempts path s) → passedAlready (attempts path s) = false →
  gateSkipped path reason s = Some (r, s') → gate_run path mx (attempts path s) r s'.
Proof.
  intros Hg Hp. unfold gateSkipped. destruct (appendNodeSkipped path reason s) as [[e|] s1] eqn:Ha; intros [= <- <-];
    pose proof (proj1 (appendTo_state _ _ _ _ _ _ Ha)) as Hrs; apply gate_run_same; try done; try (by rewrite Hrs).
  intros _. by exists reason, s.
Qed.

Lemma gateFrom_run sig puts (g e : Context_ → string → St → option (Result * St)) ev until mx cx path k :
  steps_below sig puts g → steps_below sig puts e → ∀ n (s : St) r s',
  n = (Z.of_nat (length (attempts path s)) + 1)%Z → k = Z.to_nat (mx - n + 1) →
  gate_ok (attempts path s) → passedAlready (attempts path s) = false →
  gateFrom ic k g e ev until mx cx path n s = Some (r, s') → gate_run path mx (attempts path s) r s'.
Proof.
  intros Hg He. induction k as [|k IH]; intros n s r s' Hn Hk Hok Hp; cbn [gateFrom].
  { intros [= <- <-]. by apply gate_run_same. }
  destruct (g _ _ s) as [[gr s1]|] eqn:E1; [|done]. apply (block_Attempt sig puts g) in E1; [|done]. apply attempts_below in E1.
  assert (Hsame : ∀ r (s1 : St), attempts path s1 = attempts path s → isOk r = false → gate_run path mx (attempts path s) r s1).
  { intros r0 s0 H0 Hr0. apply gate_run_same; [done..|by rewrite Hr0]. }
  destruct (skipOf gr); [rewrite <- E1 in *; by apply gateSkipped_run|].
  destruct (isOk gr) eqn:Hgr; cbn [negb]; [|intros [= <- <-]; by apply Hsame].
  destruct (e _ _ s1) as [[er s2]|] eqn:E2; [|done]. apply (block_Attempt sig puts e) in E2; [|done]. apply attempts_below in E2.
  rewrite E1 in E2. destruct (skipOf er); [rewrite <- E2 in *; by apply gateSkipped_run|].
  destruct (isOk er) eqn:Her; cbn [negb]; [|intros [= <- <-]; by apply Hsame].
  destruct (judge _ _ _ _ _ s2) as [x s3] eqn:E3. apply judge_attempts in E3. destruct x as [fr|passed].
  { intros [= <- <-]. destruct E3 as [Hf E3]. apply Hsame; [by rewrite E3|done]. }
  destruct E3 as (v & E3). rewrite E2 in E3. rewrite Hn in E3.
  set (o := if passed then AttemptPassed else AttemptRejected) in *.
  assert (Hok' : gate_ok (attempts path s3)).
  { rewrite E3. apply gate_ok_snoc; [by destruct passed; [left|right]|done..]. }
  assert (Hp' : passedAlready (attempts path s3) = passed) by (rewrite E3, passedAlready_snoc; by destruct passed).
  assert (Hlen : length (attempts path s3) = S (length (attempts path s))) by (rewrite E3, length_app; cbn [length]; lia).
  assert (Hgrow : ∃ new, attempts path s3 = attempts path s ++ new) by (by eexists).
  destruct passed.
  { intros [= <- <-]. split; rewrite ?Hlen; try done; [lia|by left|by rewrite Hp']. }
  destruct (Z.eqb_spec n mx) as [->|Hne].
  { intros [= <- <-]. split; rewrite ?Hlen, ?Hp'; try done. lia. }
  intros Hr. apply IH in Hr as [H1 [new H2] H3 H4 H5 H6]; [|rewrite Hlen; lia|lia|done|done].
  split; try done; [rewrite H2, E3; eexists; by rewrite <- app_assoc|lia|].
  intros H7 H8 H9. apply H6; [|done|done]. rewrite H2, length_app, Hlen in H8 |- *.
  destruct new as [|a new]; [cbn [length] in H8; lia|cbn [length]; lia].
Qed.
End gate.

(** ** Gates of a walk *)

(** A gate whose blocks step strictly inside it. *)
Lemma gate_attempts_of `{HL : TimeCodec} {L B W : Type} {HLog : Log L} {HB : Blobs B} {HW : World W} {HS : Signals W}
    {HE : Externals} sig puts kinds ic otherNode fuel gn en until mx cx idx parent (s : St L B W) r s' :
  let path := nodePath parent (NGate gn en until mx) idx in
  let before := LookupGateAttempts (stRS s) path in
  (∀ n cx path s r s', isOther n = true → kinds n = true → path ≠ "" → otherNode cx n path s = Some (r, s') → walks sig puts (under path) s s') →
  plain sig kinds (NGate gn en until mx) = true → isEmpty gn = false → isEmpty en = false → (1 ≤ mx)%Z → gate_ok before →
  interpNode ic otherNode fuel cx (NGate gn en until mx) idx parent s = Some (r, s') → gate_run path mx before r s'.
Proof.
  cbn [interpNode nodePath]. set (path := PathFor parent "gate" "" idx). intros Hcw Hp Hgn Hen Hmx Hok.
  unfold runGate. rewrite Hgn, Hen. destruct (Z.ltb_spec mx 1); [lia|].
  destruct (passedAlready _) eqn:Hpass.
  - intros [= <- <-]. split; try done; [by exists []; rewrite app_nil_r|lia|by left|by intros _ _; rewrite Hpass].
  - cbn [plain] in Hp. apply andb_prop in Hp as [[Hg He]%andb_prop _].
    eapply (gateFrom_run ic sig puts); [..|done|done|done|done]; (eapply nodes_walks; [|done]);
      apply Forall_forall; intros n _ Hn; by apply interpNode_walks with (kinds := kinds).
Qed.
