(* ===== verification/InterpTerm.v ===== *)
(** * The walk ends

    A graph whose loops all carry max_iters is walked to a result: an iteration number is an int64 that
    grows to max_iters, so a loop makes at most 2^64 iterations per entry, and no other handler repeats
    without a bound.  More fuel than needed changes nothing. *)

From S2P Require Import Prelude GoNum GoJson GoStruct Signal TmplLexer TmplParser TmplEval RetryPolicy EnginePath GoPath.
From S2P Require Import StateBlobs StateLog EngineEvents RunState EngineFold Journal Ir Commit Scope ScopeLaws Artifacts Containers RetryLoop Steps Contracts Exports Runtimes Interp Call InterpLaws.

(** Every loop has max_iters, a Go int. *)
Fixpoint bounded (n : Node) : bool :=
  let nodes (o : option (list Node)) := match o with None => true | Some l => forallb bounded l end in
  match n with
  | NLoop _ m b => match m with Some m => in_i64 m | None => false end && nodes b
  | NIf _ t e => nodes t && nodes e
  | NTry d c f => nodes d && nodes c && nodes f
  | NGate g e _ _ => nodes g && nodes e
  | _ => true
  end.
Definition bounded_list (o : NodeList) : bool := match o with None => true | Some l => forallb bounded l end.

Lemma bounded_branches kinds n : bounded n = true → plain true kinds n = true → ∀ b l, (b, l) ∈ branches n → bounded_list l = true.
Proof.
  destruct n; cbn [bounded plain branches]; rewrite ?andb_true_iff; intros Hb Hp b l Hin;
    repeat (apply elem_of_cons in Hin as [[= -> ->]|Hin]); try (by apply not_elem_of_nil in Hin); try done;
    unfold bounded_list; destruct_and?; assumption.
Qed.

Section term.
Context `{HL : TimeCodec} {L B W : Type} {HLog : Log L} {HB : Blobs B} {HW : World W} {HS : Signals W} {HE : Externals}.
#[local] Notation St := (St L B W).
#[local] Notation run := (option (Result * St)).
#[local] Notation block := (Context_ → string → St → run).
Variable ic : Ictx.

(** A block that ends. *)
Definition total (bd : block) : Prop := ∀ cx path s, is_Some (bd cx path s).

Lemma takeBranch_total t e em cx path which (s : St) : total t → total e → is_Some (takeBranch t e em cx path which s).
Proof. intros Ht He. unfold takeBranch. repeat case_match; (by apply Ht) || (by apply He) || by eexists. Qed.

Lemma runIf_total cond t e em cx path (s : St) : total t → total e → is_Some (runIf ic cond t e em cx path s).
Proof.
  intros Ht He. unfold runIf. destruct (LookupBranch _ _); [by apply takeBranch_total|].
  destruct (EvalBoolString _ _); [|by eexists]. destruct (appendTo _ _ _ s) as [[e1|] s1]; [by eexists|by apply takeBranch_total].
Qed.

(** The last iteration ends the loop. *)
Lemma endIteration_last until m path bp k (s : St) : (m ≤ k)%Z → is_Some (endIteration ic until (Some m) path bp k s).1.
Proof.
  intros Hk. unfold endIteration. destruct (appendTo _ _ _ s) as [[e|] s1]; [by eexists|]. apply Z.leb_le in Hk. cbv beta zeta.
  rewrite Hk. destruct until as [u|]; [|by eexists]. destruct (EvalBoolString _ u) as [[]|x]; [by eexists..|].
  destruct (failStep _ _ _ _) as [r s2]. by eexists.
Qed.

Lemma loopFrom_total until m bd cx path n : total bd → in_i64 m = true → ∀ k (s : St),
  in_i64 k = true → (m - k + 1 ≤ Z.of_nat n)%Z → (1 ≤ n)%nat → is_Some (loopFrom ic n until (Some m) bd cx path k s).
Proof.
  intros Hbd Hm. induction n as [|n IH]; [lia|]. intros k s Hk Hn _. cbn [loopFrom].
  destruct (Hbd cx (IterPath (path +:+ ".body") k) s) as [[br s1] ->].
  assert (Hnext : ∀ s2, is_Some (match endIteration ic until (Some m) path (IterPath (path +:+ ".body") k) k s2 with
    | (Some r, s) => Some (r, s)
    | (None, s) => loopFrom ic n until (Some m) bd cx path (wrap_i64 (k + 1)) s
    end)).
  { intros s2. destruct (Z.leb_spec m k) as [Hl|Hl].
    - destruct (endIteration_last until m path (IterPath (path +:+ ".body") k) k s2 Hl) as [r Hr].
      destruct (endIteration _ _ _ _ _ _ s2) as [o s3]. cbn [fst] in Hr. subst o. by eexists.
    - destruct (endIteration _ _ _ _ _ _ s2) as [[r|] s3]; [by eexists|].
      assert (Hin : in_i64 (k + 1) = true) by (unfold in_i64 in *; rewrite andb_true_iff, Z.leb_le, Z.ltb_lt in *; lia).
      rewrite wrap_i64_id by (unfold in_i64 in Hin; rewrite andb_true_iff, Z.leb_le, Z.ltb_lt in Hin; lia).
      apply IH; [done|lia|lia]. }
  destruct (skipOf br) as [reason|].
  - destruct (appendNodeSkipped _ _ s1) as [[e|] s2]; [by eexists|apply Hnext].
  - destruct (isOk br); [apply Hnext|by eexists].
Qed.

Lemma runLoop_total until m bd cx path (s : St) fuel :
  total bd → in_i64 m = true → (two64 ≤ Z.of_nat fuel)%Z → is_Some (runLoop ic fuel until (Some m) bd cx path s).
Proof.
  intros Hbd Hm Hf. pose proof (in_i64_wrap (LookupLoopIters (stRS s) path + 1)) as Hk.
  assert (Hl : is_Some (loopFrom ic fuel until (Some m) bd cx path (wrap_i64 (LookupLoopIters (stRS s) path + 1)) s)).
  { apply loopFrom_total; try done; unfold in_i64, two63, two64 in *; rewrite andb_true_iff, Z.leb_le, Z.ltb_lt in *; lia. }
  by destruct until.
Qed.

Lemma runTry_total d c f cem fem cx path (s : St) : total d → total c → total f → is_Some (runTry d c f cem fem cx path s).
Proof.
  intros Hd Hc Hf. unfold runTry. destruct (Hd cx (path +:+ ".do") s) as [[dr s1] ->].
  assert (Hcatch : is_Some (tryCatch c cem cx path dr s1)) by (unfold tryCatch; case_match; [apply Hc|by eexists]).
  destruct Hcatch as [[pr s2] ->]. destruct (match skipOf dr with Some _ => _ | None => _ end) as [[pe pr'] s3].
  destruct fem; [repeat case_match; by eexists|]. destruct (Hf Detached (path +:+ ".finally") s3) as [[fr s4] ->].
  repeat case_match; by eexists.
Qed.

Lemma gateSkipped_total path reason (s : St) : is_Some (gateSkipped path reason s).
Proof. unfold gateSkipped. by destruct (appendNodeSkipped _ _ s) as [[e|] s1]; eexists. Qed.

Lemma gateFrom_total g e ev until mx cx path k : total g → total e → ∀ n (s : St),
  is_Some (gateFrom ic k g e ev until mx cx path n s).
Proof.
  intros Hg He. induction k as [|k IH]; intros n s; cbn [gateFrom]; [by eexists|].
  destruct (Hg cx (AttemptPath path n +:+ ".generate") s) as [[gr s1] ->]. destruct (skipOf gr); [apply gateSkipped_total|].
  destruct (isOk gr); cbn [negb]; [|by eexists].
  destruct (He cx (AttemptPath path n +:+ ".evaluate") s1) as [[er s2] ->]. destruct (skipOf er); [apply gateSkipped_total|].
  destruct (isOk er); cbn [negb]; [|by eexists].
  destruct (judge _ _ _ _ _ s2) as [[r|[]] s3]; [by eexists..|]. destruct (n =? mx)%Z; [by eexists|apply IH].
Qed.

Lemma runGate_total g e gn ev until mx cx path (s : St) : total g → total e → is_Some (runGate ic g e gn ev until mx cx path s).
Proof. intros Hg He. unfold runGate. repeat case_match; [by eexists..|]. by apply gateFrom_total. Qed.

(** *** The walk *)

Variable otherNode : Context_ → Node → string → St → run.

Lemma interpList_total (f : Context_ → Node → Z → string → St → run) cx parent l :
  Forall (λ n, ∀ cx i p s, is_Some (f cx n i p s)) l → ∀ i s, is_Some (interpList f cx parent l i s).
Proof.
  induction 1 as [|n l Hn _ IH]; intros i s; cbn [interpList]; [by eexists|].
  destruct (Hn cx i parent s) as [[r s1] ->]. destruct (isOk r); [apply IH|by eexists].
Qed.

Lemma nodes_total (f : Context_ → Node → Z → string → St → run) nodes :
  Forall (λ n, ∀ cx i p s, is_Some (f cx n i p s)) (default [] nodes) → total (interpNodesOf f nodes).
Proof. intros HF cx p s. unfold interpNodesOf. destruct nodes as [l|]; [by apply interpList_total|by eexists]. Qed.

Lemma interpNode_total fuel kinds n : (∀ n cx path s, isOther n = true → kinds n = true → is_Some (otherNode cx n path s)) →
  (two64 ≤ Z.of_nat fuel)%Z → plain true kinds n = true → bounded n = true →
  ∀ cx idx parent s, is_Some (interpNode ic otherNode fuel cx n idx parent s).
Proof.
  intros Hother Hf. induction n as [n IH] using Node_ind'. intros Hp Hb cx idx parent s.
  assert (Hbl : ∀ b l, (b, l) ∈ branches n → total (interpNodesOf (interpNode ic otherNode fuel) l)).
  { intros b l Hin. apply nodes_total. pose proof (IH b l Hin) as Hall.
    pose proof (plain_branches true kinds n Hp b l Hin) as Hpl. pose proof (bounded_branches kinds n Hb Hp b l Hin) as Hbo.
    destruct l as [l|]; [|constructor]. cbn [default from_option id plain_list bounded_list] in *.
    rewrite forallb_forall in Hpl, Hbo. rewrite Forall_forall in *. intros m Hm. apply Hall; [done|..];
      [apply Hpl|apply Hbo]; by apply list_elem_of_In. }
  destruct n; try discriminate Hp; cbn [interpNode branches] in *; try by eexists.
  - by apply Hother.
  - by apply Hother.
  - apply runIf_total; eapply Hbl; repeat ((by left) || right).
  - cbn [bounded] in Hb. apply andb_prop in Hb as [Hb _]. destruct maxIters as [m|]; [|done].
    apply runLoop_total; [eapply Hbl; repeat ((by left) || right)|done..].
  - apply runTry_total; eapply Hbl; repeat ((by left) || right).
  - apply runGate_total; eapply Hbl; repeat ((by left) || right).
  - by apply Hother.
Qed.

(** ** More fuel *)

(** [bd'] gives every result [bd] gives. *)
Definition refines (bd bd' : block) : Prop := ∀ cx path s x, bd cx path s = Some x → bd' cx path s = Some x.

Lemma takeBranch_more t t' e e' em cx path which (s : St) x : refines t t' → refines e e' →
  takeBranch t e em cx path which s = Some x → takeBranch t' e' em cx path which s = Some x.
Proof. intros Ht He. unfold takeBranch. repeat case_match; auto. Qed.

Lemma runIf_more cond t t' e e' em cx path (s : St) x : refines t t' → refines e e' →
  runIf ic cond t e em cx path s = Some x → runIf ic cond t' e' em cx path s = Some x.
Proof.
  intros Ht He. unfold runIf. destruct (LookupBranch _ _); [by apply takeBranch_more|].
  destruct (EvalBoolString _ _); [|done]. destruct (appendTo _ _ _ s) as [[e1|] s1]; [done|by apply takeBranch_more].
Qed.

Lemma loopFrom_more until mx bd bd' cx path n : refines bd bd' → ∀ n' k (s : St) x, n ≤ n' →
  loopFrom ic n until mx bd cx path k s = Some x → loopFrom ic n' until mx bd' cx path k s = Some x.
Proof.
  intros Hbd. induction n as [|n IH]; [done|]. intros [|n'] k s x Hn; [lia|]. cbn [loopFrom].
  destruct (bd cx _ s) as [[br s1]|] eqn:Eb; [|done]. apply Hbd in Eb as ->.
  assert (Hnext : ∀ s2, match endIteration ic until mx path (IterPath (path +:+ ".body") k) k s2 with
      | (Some r, s) => Some (r, s)
      | (None, s) => loopFrom ic n until mx bd cx path (wrap_i64 (k + 1)) s
      end = Some x → match endIteration ic until mx path (IterPath (path +:+ ".body") k) k s2 with
      | (Some r, s) => Some (r, s)
      | (None, s) => loopFrom ic n' until mx bd' cx path (wrap_i64 (k + 1)) s
      end = Some x).
  { intros s2. destruct (endIteration _ _ _ _ _ _ s2) as [[r|] s3]; [done|]. apply IH. lia. }
  destruct (skipOf br) as [reason|].
  - destruct (appendNodeSkipped _ _ s1) as [[e|] s2]; [done|apply Hnext].
  - destruct (isOk br); [apply Hnext|done].
Qed.

Lemma runLoop_more fuel fuel' until mx bd bd' cx path (s : St) x : fuel ≤ fuel' → refines bd bd' →
  runLoop ic fuel until mx bd cx path s = Some x → runLoop ic fuel' until mx bd' cx path s = Some x.
Proof. intros Hf Hbd. unfold runLoop. destruct until, mx; try done; by apply loopFrom_more. Qed.

Lemma runTry_more d d' c c' f f' cem fem cx path (s : St) x : refines d d' → refines c c' → refines f f' →
  runTry d c f cem fem cx path s = Some x → runTry d' c' f' cem fem cx path s = Some x.
Proof.
  intros Hd Hc Hf. unfold runTry. destruct (d cx _ s) as [[dr s1]|] eqn:Ed; [|done]. apply Hd in Ed as ->.
  destruct (tryCatch c cem cx path dr s1) as [[pr s2]|] eqn:Ec; [|done].
  assert (tryCatch c' cem cx path dr s1 = Some (pr, s2)) as ->.
  { revert Ec. unfold tryCatch. case_match; [apply Hc|done]. }
  destruct (match skipOf dr with Some _ => _ | None => _ end) as [[pe pr'] s3]. destruct fem; [done|].
  destruct (f Detached _ s3) as [y|] eqn:Ef; [|done]. by apply Hf in Ef as ->.
Qed.

Lemma gateFrom_more g g' e e' ev until mx cx path k : refines g g' → refines e e' → ∀ n (s : St) x,
  gateFrom ic k g e ev until mx cx path n s = Some x → gateFrom ic k g' e' ev until mx cx path n s = Some x.
Proof.
  intros Hg He. induction k as [|k IH]; intros n s x; cbn [gateFrom]; [done|].
  destruct (g cx _ s) as [[gr s1]|] eqn:Eg; [|done]. apply Hg in Eg as ->. destruct (skipOf gr); [done|].
  destruct (negb (isOk gr)); [done|]. destruct (e cx _ s1) as [[er s2]|] eqn:Ee; [|done]. apply He in Ee as ->.
  destruct (skipOf er); [done|]. destruct (negb (isOk er)); [done|].
  destruct (judge _ _ _ _ _ s2) as [[r|[]] s3]; [done..|]. destruct (n =? mx)%Z; [done|apply IH].
Qed.

Lemma runGate_more g g' e e' gn ev until mx cx path (s : St) x : refines g g' → refines e e' →
  runGate ic g e gn ev until mx cx path s = Some x → runGate ic g' e' gn ev until mx cx path s = Some x.
Proof. intros Hg He. unfold runGate. repeat case_match; try done. by apply gateFrom_more. Qed.

Lemma nodes_more (f f' : Context_ → Node → Z → string → St → run) nodes :
  Forall (λ n, ∀ cx i p s x, f cx n i p s = Some x → f' cx n i p s = Some x) (default [] nodes) →
  refines (interpNodesOf f nodes) (interpNodesOf f' nodes).
Proof.
  intros HF cx p s x. unfold interpNodesOf. destruct nodes as [l|]; [|done]. cbn [default from_option id] in HF.
  generalize 0%Z. revert s. induction HF as [|n l Hn _ IH]; intros s i; cbn [interpList]; [done|].
  destruct (f cx n i p s) as [[r s1]|] eqn:En; [|done]. apply Hn in En as ->. destruct (isOk r); [apply IH|done].
Qed.

Lemma interpNode_more otherNode' fuel fuel' n : (∀ cx n path s x, otherNode cx n path s = Some x → otherNode' cx n path s = Some x) → fuel ≤ fuel' →
  ∀ cx idx parent s x, interpNode ic otherNode fuel cx n idx parent s = Some x → interpNode ic otherNode' fuel' cx n idx parent s = Some x.
Proof.
  intros Ho Hf. induction n as [n IH] using Node_ind'. intros cx idx parent s x.
  assert (Hbl : ∀ b l, (b, l) ∈ branches n →
    refines (interpNodesOf (interpNode ic otherNode fuel) l) (interpNodesOf (interpNode ic otherNode' fuel') l)).
  { intros b l Hin. apply nodes_more. by apply (IH b). }
  destruct n; cbn [interpNode branches] in *; try done; try (apply Ho).
  - apply runIf_more; eapply Hbl; repeat ((by left) || right).
  - apply runLoop_more; [done|]. eapply Hbl; repeat ((by left) || right).
  - apply runTry_more; eapply Hbl; repeat ((by left) || right).
  - apply runGate_more; eapply Hbl; repeat ((by left) || right).
Qed.
End term.
