(* ===== verification/InterpResume.v ===== *)
(** * Resuming a run

    A run that is resumed walks the graph again, from the state its log folds to.  Nodes that are
    finished are passed over: a completed run is resumed without a dispatch and without an event. *)

From S2P Require Import Prelude GoNum GoJson GoStruct Signal TmplLexer TmplParser TmplEval RetryPolicy EnginePath GoPath.
From S2P Require Import StateBlobs StateLog EngineEvents RunState EngineFold Journal Ir Commit Scope ScopeLaws Artifacts Containers RetryLoop Steps Contracts Exports Runtimes Interp Call InterpLaws InterpFold.

(** ** Results *)

(** Without an error the result is ok, and no error is a skip. *)
Definition unskipped (r : Result) : Prop := r = okResult ∨ (is_Some r.2 ∧ skipOf r = None).

(** Errors of the clock, the context and the workspaces are not skips. *)
Record no_skip_errors `{World W} : Prop := {
  ns_sleep cx d w e w' : wSleep cx d w = (Some e, w') → asSkip e = None;
  ns_ctx cx (w : W) e : wCtxErr cx w = Some e → asSkip e = None;
  ns_create cx p w e w' : wCreate cx p w = (Err e, w') → asSkip e = None;
  ns_restore cx ref k w e w' : wRestore cx ref k w = (Err e, w') → asSkip e = None;
  ns_destroy h w e w' : wDestroy h w = (Some e, w') → asSkip e = None
}.

Lemma unskipped_isOk r : unskipped r → isOk r = true → r = okResult.
Proof. intros [->|[[e He] _]]; [done|]. unfold isOk. rewrite He. by rewrite andb_false_r. Qed.
Lemma unskipped_err o e : asSkip e = None → unskipped (o, Some e).
Proof. intros He. right. split; [by eexists|]. done. Qed.
Lemma unskipped_skip r : unskipped r → skipOf r = None.
Proof. by intros [->|[_ H]]. Qed.
Lemma unskipped_internal e : asSkip e = None → unskipped (internal e).
Proof. apply unskipped_err. Qed.
Lemma unskipped_ok : unskipped okResult.
Proof. by left. Qed.
Create HintDb skips.
#[export] Hint Resolve unskipped_err unskipped_internal unskipped_ok : skips.
#[export] Hint Extern 1 (asSkip _ = None) => reflexivity : skips.

Ltac branch_cases Hin :=
  repeat (apply elem_of_cons in Hin as [[= -> ->]|Hin]); try (by apply not_elem_of_nil in Hin).

Section skipless.
(** The call steps in question. *)
Variable kinds : Node → bool.

(** A graph of modelled kinds without signals and skips. *)
Fixpoint noSkip (n : Node) : bool :=
  let nodes (o : option (list Node)) := match o with None => true | Some l => forallb noSkip l end in
  match n with
  | NSkip _ => false
  | NIf _ t e => nodes t && nodes e
  | NLoop _ _ b => nodes b
  | NTry d c f => nodes d && nodes c && nodes f
  | NGate g e _ _ => nodes g && nodes e
  | _ => true
  end.
Definition skipless (n : Node) : bool := plain false kinds n && noSkip n.
Definition skipless_list (o : NodeList) : bool := match o with None => true | Some l => forallb skipless l end.

Lemma noSkip_branches n : plain false kinds n = true → noSkip n = true → ∀ b l, (b, l) ∈ branches n →
  match l with None => true | Some l => forallb noSkip l end = true.
Proof.
  destruct n; cbn [noSkip plain branches]; rewrite ?andb_true_iff; intros Hp Hn b l Hin; branch_cases Hin; try done;
    destruct_and?; assumption.
Qed.

Lemma skipless_branches n : skipless n = true → ∀ b l, (b, l) ∈ branches n → skipless_list l = true.
Proof.
  intros [Hp Hn]%andb_prop b l Hin. pose proof (plain_branches false kinds n Hp b l Hin) as H1.
  pose proof (noSkip_branches n Hp Hn b l Hin) as H2. destruct l as [l|]; [|done]. cbn [skipless_list plain_list] in *.
  rewrite forallb_forall in *. intros m Hm. unfold skipless. by rewrite H1, H2.
Qed.
Lemma skipless_plain_list o : skipless_list o = true → plain_list false kinds o = true.
Proof.
  destruct o as [l|]; [|done]. cbn [skipless_list plain_list]. rewrite !forallb_forall. intros Hs m Hm.
  by apply Hs, andb_prop in Hm as [? _].
Qed.
End skipless.

Section shape.
Context `{HL : TimeCodec} {L B W : Type} {HLog : Log L} {HB : Blobs B} {HW : World W} {HS : Signals W} {HE : Externals}.
#[local] Notation St := (St L B W).
#[local] Notation run := (option (Result * St)).
#[local] Notation block := (Context_ → string → St → run).
Variable ic : Ictx.
Hypothesis HNS : no_skip_errors (W := W).

Lemma failStep_unskipped path oc c (s : St) r s' : asSkip c = None → failStep path oc c s = (r, s') → unskipped r.
Proof.
  intros Hc. unfold failStep, appendSynced, appendTo, syncLog.
  destruct (appendEvent _ _ _ (stLog s)) as [[e|] l]; cbn [fmap option_fmap option_map setLog stLog];
    [intros [= <- _]; auto with skips|].
  destruct (logSync l) as [[e|] l']; cbn [fmap option_fmap option_map]; intros [= <- _]; auto with skips.
Qed.

(** The attempts add no skip. *)
Lemma RunWithRetry_noskip cx h i po (x : L * W) dr e x' : RunWithRetry None cx h i po x = ((dr, Some e), x') → asSkip e = None.
Proof.
  intros Hr. eapply (RunWithRetry_keeps None cx h i po (λ _, True) (λ e, asSkip e = None)) in Hr as (_ & _ & He); [by apply He|try done..].
  intros d l w e1 w1 _ Hs. split; [done|]. intros y ->. by eapply ns_sleep.
Qed.

(** The step's errors before its dispatch. *)
Lemma failing_noskip {A} (r : res goError A) p : failing r = Err p →
  (∀ e, r = Err e → asSkip e = None) → ∃ e, (p = PFail e ∨ p = PInternal e) ∧ asSkip e = None.
Proof. unfold failing. destruct r as [a|e]; [done|]. intros [= <-] He. exists e. split; [by left|by apply He]. Qed.
Lemma failingFile_noskip {A} fmt path wrap (r : res fileErr A) p : (∀ e, asSkip (wrap (EFile e)) = None) →
  failingFile fmt path wrap r = Err p → ∃ e, (p = PFail e ∨ p = PInternal e) ∧ asSkip e = None.
Proof.
  intros Hw. unfold failingFile. destruct r as [a|e]; [done|]. cbn [res_map_err]. destruct (feFetch e); intros [= <-];
    eexists; (split; [by (left + right)|]); [done|apply Hw].
Qed.

Lemma prepareCodeStep_noskip rs b c path p : prepareCodeStep ic rs b c path = Err p →
  ∃ e, (p = PFail e ∨ p = PInternal e) ∧ asSkip e = None.
Proof.
  unfold prepareCodeStep. intros [Hp|(x1 & _ & Hp)]%res_bind_err.
  { apply failing_noskip in Hp; [done|]. intros e. by destruct (Substitute _ _); intros [= <-]. }
  apply res_bind_err in Hp as [Hp|(x2 & _ & Hp)].
  { destruct (csIdempotencyKey c); [|done]. apply failing_noskip in Hp; [done|]. intros e. by destruct (Substitute _ _); intros [= <-]. }
  apply res_bind_err in Hp as [Hp|(x3 & _ & Hp)].
  { destruct (Merge _ _); [done|]. injection Hp as <-. eexists. split; [by right|done]. }
  apply res_bind_err in Hp as [Hp|(x4 & _ & Hp)]; [by eapply failingFile_noskip, Hp|].
  apply res_bind_err in Hp as [Hp|(x5 & _ & Hp)].
  { apply failing_noskip in Hp; [done|]. intros e. by destruct (inputFilesFromResolvedEntries _); intros [= <-]. }
  apply res_bind_err in Hp as [Hp|([x6 x7] & _ & Hp)]; [by eapply failingFile_noskip, Hp|done].
Qed.

Lemma dispatch_unskipped cx h c path i po refs (s : St) r s' :
  dispatchCodeStep cx h c path i po refs s = (r, s') → unskipped r.
Proof.
  unfold dispatchCodeStep. destruct (RunWithRetry _ _ _ _ _ _) as [[dr [e|]] [l w]] eqn:HR.
  - assert (He : asSkip e = None).
    { by eapply RunWithRetry_noskip. }
    destruct (String.eqb _ ""); [intros [= <- _]; apply unskipped_internal; exact He|by apply failStep_unskipped].
  - destruct (negb _); [by apply failStep_unskipped|].
    destruct (liftH _ _) as [[nr|e] s2]; intros [= <- _]; auto with skips.
Qed.

Lemma runCodeStep_unskipped cx c path (s : St) r s' : runCodeStep ic cx c path s = (r, s') → unskipped r.
Proof.
  unfold runCodeStep. destruct (LookupCompleted _ _); [intros [= <- _]; auto with skips|].
  destruct (prepareCodeStep _ _ _ _ _) as [[[i po] refs]|p] eqn:Hp.
  - destruct (_ && _); [|by apply dispatch_unskipped]. destruct (wCreate _ _ _) as [[h|e] w] eqn:Hw.
    + destruct (dispatchCodeStep _ _ _ _ _ _ _ _) as [r1 s1] eqn:E. intros [= <- _]. by eapply dispatch_unskipped.
    + intros [= <- _]. apply unskipped_internal. by eapply ns_create in Hw.
  - apply prepareCodeStep_noskip in Hp as (e & [->| ->] & He); [by apply failStep_unskipped|].
    intros [= <- _]. by apply unskipped_internal.
Qed.

(** A block whose results are not skips. *)
Definition sound (bd : block) : Prop := ∀ cx path s r s', bd cx path s = Some (r, s') → unskipped r.

Lemma takeBranch_sound t e em cx path which (s : St) r s' : sound t → sound e →
  takeBranch t e em cx path which s = Some (r, s') → unskipped r.
Proof.
  intros Ht He. unfold takeBranch. destruct (String.eqb which "then"); [by apply Ht|].
  destruct (String.eqb which "else"); [destruct em; [|by apply He]|]; intros [= <- _]; auto with skips.
Qed.

Lemma runIf_sound cond t e em cx path (s : St) r s' : sound t → sound e →
  runIf ic cond t e em cx path s = Some (r, s') → unskipped r.
Proof.
  intros Ht He. unfold runIf. destruct (LookupBranch _ _); [by apply takeBranch_sound|].
  destruct (EvalBoolString _ _); [|intros [= Hf]; by eapply failStep_unskipped, Hf].
  destruct (appendTo _ _ _ s) as [[x|] s1] eqn:Ha; [|by apply takeBranch_sound].
  intros [= <- _]. revert Ha. unfold appendTo. destruct (appendEvent _ _ _ (stLog s)) as [[y|] l]; intros [= <- _]. auto with skips.
Qed.

Lemma appendTo_noskip ty path j (s : St) e s' : appendTo ty path j s = (Some e, s') → asSkip e = None.
Proof. unfold appendTo. by destruct (appendEvent _ _ _ (stLog s)) as [[y|] l]; intros [= <- _]. Qed.
Lemma appendSynced_noskip ty path j (s : St) e s' : appendSynced ty path j s = (Some e, s') → asSkip e = None.
Proof.
  unfold appendSynced. destruct (appendTo _ _ _ s) as [[x|] s1] eqn:Ha; [intros [= <- _]; by eapply appendTo_noskip|].
  unfold syncLog. by destruct (logSync _) as [[y|] l]; intros [= <- _].
Qed.

Lemma endIteration_sound until mx path bp k (s : St) r s' :
  endIteration ic until mx path bp k s = (Some r, s') → unskipped r.
Proof.
  unfold endIteration. destruct (appendTo _ _ _ s) as [[x|] s1] eqn:Ha.
  - intros [= <- _]. apply unskipped_internal. by eapply appendTo_noskip.
  - destruct until as [u|].
    + destruct (EvalBoolString _ u) as [[]|x]; [intros [= <- _]; auto with skips| |].
      * destruct (match mx with Some _ => _ | None => _ end); [intros [= <- _]; auto with skips|done].
      * destruct (failStep _ _ _ _) as [fr s2] eqn:Hf. intros [= <- _]. by eapply failStep_unskipped, Hf.
    + destruct (match mx with Some _ => _ | None => _ end); [intros [= <- _]; auto with skips|done].
Qed.

Lemma loopFrom_sound until mx bd cx path n : sound bd → ∀ k (s : St) r s',
  loopFrom ic n until mx bd cx path k s = Some (r, s') → unskipped r.
Proof.
  intros Hbd. induction n as [|n IH]; [done|]. intros k s r s'. cbn [loopFrom].
  destruct (bd cx _ s) as [[br s1]|] eqn:Eb; [|done]. apply Hbd in Eb. rewrite (unskipped_skip _ Eb).
  destruct (isOk br); [|by intros [= <- _]].
  destruct (endIteration _ _ _ _ _ _ s1) as [[r1|] s2] eqn:He; [|by apply IH]. intros [= <- _]. by eapply endIteration_sound.
Qed.

Lemma runTry_sound d c f cem fem cx path (s : St) r s' : sound d → sound c → sound f →
  runTry d c f cem fem cx path s = Some (r, s') → unskipped r.
Proof.
  intros Hd Hc Hf. unfold runTry. destruct (d cx _ s) as [[dr s1]|] eqn:Ed; [|done]. apply Hd in Ed.
  destruct (tryCatch c cem cx path dr s1) as [[pr s2]|] eqn:Ec; [|done].
  assert (Hpr : unskipped pr).
  { revert Ec. unfold tryCatch. case_match; [by apply Hc|by intros [= <- _]]. }
  rewrite (unskipped_skip _ Ed). cbv beta zeta.
  assert (Hfin : ∀ fr s4, (if fem then Some (okResult, s2) else f Detached (path +:+ ".finally") s2) = Some (fr, s4) → unskipped fr).
  { intros fr s4. destruct fem; [intros [= <- _]; auto with skips|by apply Hf]. }
  destruct (if fem then _ else _) as [[fr s4]|]; [|done]. specialize (Hfin _ _ eq_refl).
  destruct fr as [fo [fe|]]; cbn [snd]; [by intros [= <- _]|].
  destruct (wCtxErr cx (stW s4)) as [x|] eqn:Hx; intros [= <- _]; [|done]. apply unskipped_err. by eapply ns_ctx.
Qed.

Lemma judge_sound ev until path n (s : St) r s' : judge ic ev until path n s = (inl r, s') → unskipped r.
Proof.
  unfold judge. destruct (lastEvaluatorPath _ _); [|intros [= <- _]; auto with skips].
  destruct (LookupCompleted _ _); [|intros [= <- _]; auto with skips]. destruct (EvalBoolString _ _).
  - destruct (appendSynced _ _ _ s) as [[x|] s1] eqn:Ha; intros [= <- _]. apply unskipped_internal. by eapply appendSynced_noskip.
  - destruct (failStep _ _ _ _) as [fr s2] eqn:Hf. intros [= <- _]. by eapply failStep_unskipped, Hf.
Qed.

Lemma gateFrom_sound g e ev until mx cx path k : sound g → sound e → ∀ n (s : St) r s',
  gateFrom ic k g e ev until mx cx path n s = Some (r, s') → unskipped r.
Proof.
  intros Hg He. induction k as [|k IH]; intros n s r s'; cbn [gateFrom]; [intros [= <- _]; auto with skips|].
  destruct (g cx _ s) as [[gr s1]|] eqn:Eg; [|done]. apply Hg in Eg. rewrite (unskipped_skip _ Eg).
  destruct (isOk gr); cbn [negb]; [|by intros [= <- _]].
  destruct (e cx _ s1) as [[er s2]|] eqn:Ee; [|done]. apply He in Ee. rewrite (unskipped_skip _ Ee).
  destruct (isOk er); cbn [negb]; [|by intros [= <- _]].
  destruct (judge _ _ _ _ _ s2) as [[r1|[]] s3] eqn:Ej; [intros [= <- _]; by eapply judge_sound|intros [= <- _]; auto with skips|].
  destruct (n =? mx)%Z; [intros [= <- _]; unfold rejected; auto with skips|apply IH].
Qed.

Lemma runGate_sound g e gn ev until mx cx path (s : St) r s' : sound g → sound e →
  runGate ic g e gn ev until mx cx path s = Some (r, s') → unskipped r.
Proof.
  intros Hg He. unfold runGate. repeat (case_match; [intros [= <- _]; auto with skips|]). by apply gateFrom_sound.
Qed.

Variable otherNode : Context_ → Node → string → St → run.
Variable fuel : nat.
Variable kinds : Node → bool.
Hypothesis others_sound : ∀ n cx path s r s', isOther n = true → kinds n = true → otherNode cx n path s = Some (r, s') → unskipped r.
#[local] Notation interpNode := (interpNode ic otherNode fuel).

Lemma nodes_sound nodes :
  Forall (λ n, ∀ cx i p s r s', interpNode cx n i p s = Some (r, s') → unskipped r) (default [] nodes) →
  sound (interpNodesOf interpNode nodes).
Proof.
  intros HF cx p s r s'. unfold interpNodesOf. destruct nodes as [l|]; [|intros [= <- _]; auto with skips].
  cbn [default from_option id] in HF. generalize 0%Z. revert s.
  induction HF as [|n l Hn _ IH]; intros s i; cbn [interpList]; [intros [= <- _]; auto with skips|].
  destruct (interpNode cx n i p s) as [[r1 s1]|] eqn:En; [|done]. apply Hn in En. destruct (isOk r1); [apply IH|by intros [= <- _]].
Qed.

(** The walk of a graph without skips never skips. *)
Lemma interpNode_sound n : skipless kinds n = true → ∀ cx idx parent s r s',
  interpNode cx n idx parent s = Some (r, s') → unskipped r.
Proof.
  induction n as [n IH] using Node_ind'. intros Hs cx idx parent s r s'.
  assert (Hbl : ∀ b l, (b, l) ∈ branches n → sound (interpNodesOf interpNode l)).
  { intros b l Hin. apply nodes_sound. pose proof (IH b l Hin) as Hall. pose proof (skipless_branches kinds n Hs b l Hin) as Hsl.
    destruct l as [l|]; [|constructor]. cbn [default from_option id skipless_list] in *. rewrite forallb_forall in Hsl.
    rewrite Forall_forall in *. intros m Hm. apply Hall; [done|]. by apply Hsl, list_elem_of_In. }
  destruct n; try discriminate Hs; cbn [Interp.interpNode branches] in *.
  - destruct (runCodeStep _ _ _ _ s) as [cr cs] eqn:E. intros [= <- _]. by eapply runCodeStep_unskipped.
  - apply others_sound; [done|by apply andb_prop in Hs as [? _]].
  - apply others_sound; [done|by apply andb_prop in Hs as [? _]].
  - apply runIf_sound; eapply Hbl; repeat ((by left) || right).
  - unfold runLoop. assert (Hb : sound (interpNodesOf interpNode body)) by (eapply Hbl; by left).
    destruct until, maxIters; try (by apply loopFrom_sound). intros [= <- _]. auto with skips.
  - apply runTry_sound; eapply Hbl; repeat ((by left) || right).
  - apply runGate_sound; eapply Hbl; repeat ((by left) || right).
  - apply others_sound; [done|by apply andb_prop in Hs as [? _]].
Qed.
End shape.

(** ** Progress is never lost *)

(** What is finished stays finished. *)
Record advances (rs rs' : RunState) : Prop := {
  ad_completed p : is_Some (rsCompleted rs !! p) → is_Some (rsCompleted rs' !! p);
  ad_branch p w : rsBranches rs !! p = Some w → rsBranches rs' !! p = Some w;
  ad_passed p : passedAlready (LookupGateAttempts rs p) = true → passedAlready (LookupGateAttempts rs' p) = true
}.
#[global] Instance advances_preorder : PreOrder advances.
Proof.
  split; [by split|]. intros a b c [A1 A2 A3] [B1 B2 B3]. split; intros; [by apply B1, A1|by apply B2, A2|by apply B3, A3].
Qed.

Lemma completes_advances path rs rs' : completes path rs rs' → advances rs rs'.
Proof.
  intros ([E|[nr E]] & HB & _ & HG & _ & _). all: split; intros p; unfold LookupGateAttempts; rewrite ?E, ?HB, ?HG; try done.
  intros Hp. destruct (decide (p = path)) as [->|]; [by rewrite lookup_insert_eq; eexists|by rewrite lookup_insert_ne].
Qed.

(** The folded state of a log has everything the state in memory has finished. *)
Lemma mirrors_advances (exact : Prop) get rs rs' : exact → mirrors exact get rs rs' → advances rs rs'.
Proof.
  intros Hx [A B1 C D E _ _]. split.
  - intros p [nr Hp]. destruct (C p nr Hp) as (o' & -> & _). by eexists.
  - intros p w. by rewrite A.
  - intros p Hp. specialize (E Hx p). unfold passedAlready, LookupGateAttempts in *. rewrite last_lookup in *.
    rewrite <- (Forall2_length _ _ _ E). destruct (at_path (rsGateAttempts rs) p !! _) as [a|] eqn:Ha; [|done].
    destruct (Forall2_lookup_l _ _ _ _ _ E Ha) as (a' & -> & (_ & -> & _)). done.
Qed.

Section resume.
Context `{HL : TimeCodec} {L B W : Type} {HLog : Log L} {HB : Blobs B} {HW : World W} {HS : Signals W} {HE : Externals}.
#[local] Notation St := (St L B W).
#[local] Notation run := (option (Result * St)).
#[local] Notation block := (Context_ → string → St → run).
Variable ic : Ictx.

Lemma prim_advances sig puts p (s s' : St) : prim sig puts p s s' → advances (stRS s) (stRS s').
Proof.
  destruct 1 as [ic' cx cs path s r s' Hr|ic' cx ss path s r s' _ Hr|path oc e s r s' Hr|path reason s e s' Hr
    |ty path j s e s' Hr|path which s s' Hn Hr|path k s s' _ Hr|path n oc nr q' s e s' _ Hp _ Hr|path k s|path s w|path c s r b _ _
    |path input raw ref files rts b s e s' _ _ _ _ Hr|path product s r s' _ _ _ Hr
    |path ty j s e s' _ Hr|path c s r b _ _|path x s|path d s e s' _ Hr|path dr part s r s' _ _ Hr|path k s e s' _ Hr].
  - apply runCodeStep_rs in Hr. by eapply completes_advances.
  - apply runSignalStep_rs in Hr. by eapply completes_advances.
  - by apply failStep_state in Hr as (-> & _).
  - by apply appendTo_state in Hr as (-> & _).
  - by apply appendTo_state in Hr as (-> & _).
  - apply appendTo_state in Hr as (-> & _). split; try done. cbn. intros p w Hw.
    destruct (decide (p = path)) as [->|]; [by unfold LookupBranch in Hn; rewrite Hn in Hw|by rewrite lookup_insert_ne].
  - apply appendTo_state in Hr as (-> & _). by split.
  - apply appendSynced_state in Hr as (Hr & _). destruct e; [by rewrite Hr|]. cbn [setRS stRS]. rewrite Hr.
    split; try done. intros p Hpass. unfold LookupGateAttempts. cbn [RecordGateAttempt setGateAttempts rsGateAttempts].
    rewrite at_path_insert. destruct (String.eqb_spec path p) as [<-|]; [by rewrite Hp in Hpass|done].
  - by rewrite appendNodeStarted_rs.
  - done.
  - done.
  - apply appendSynced_state in Hr as (Hr & _). destruct e; [by rewrite Hr|]. cbn [setRS stRS]. rewrite Hr. by split.
  - apply liftH_state in Hr as (Hr & _). destruct r; [|by rewrite Hr]. cbn [setRS stRS]. rewrite Hr.
    split; try done. intros p Hp. cbn. destruct (decide (p = path)) as [->|]; [by rewrite lookup_insert_eq; eexists|by rewrite lookup_insert_ne].
  - by apply appendTo_state in Hr as (-> & _).
  - done.
  - by split.
  - apply appendSynced_state in Hr as (Hr & _). destruct e; [by rewrite Hr|]. cbn [setRS stRS]. rewrite Hr. by split.
  - apply liftH_state in Hr as (Hr & _). destruct r; [|by rewrite Hr]. cbn [setRS stRS]. rewrite Hr.
    split; try done. intros p Hp. cbn. destruct (decide (p = path)) as [->|]; [by rewrite lookup_insert_eq; eexists|by rewrite lookup_insert_ne].
  - apply appendSynced_state in Hr as (Hr & _). destruct e; [by rewrite Hr|]. cbn [setRS stRS]. rewrite Hr. by split.
Qed.

Lemma walks_advances sig puts (P : string → Prop) (s s' : St) : walks sig puts P s s' → advances (stRS s) (stRS s').
Proof.
  intros Hw. apply (walks_keep _ _ P (λ s', advances (stRS s) (stRS s')) _ _) in Hw; [done| |done].
  intros p s1 s2 _ Hp H1. transitivity (stRS s1); [done|]. by eapply prim_advances.
Qed.

(** *** What is finished *)

(** The nodes [f] of a list are, at their addresses. *)
Definition allFinished (f : Node → Z → string → bool) (parent : string) : list Node → Z → bool :=
  fix go l i := match l with [] => true | n :: l => f n i parent && go l (i + 1)%Z end.
Definition nodesFinished (f : Node → Z → string → bool) (nodes : NodeList) (parent : string) : bool :=
  match nodes with None => true | Some l => allFinished f parent l 0 end.

(** A node the walk passes over. *)
Fixpoint finished (rs : RunState) (n : Node) (idx : Z) (parent : string) : bool :=
  let path := nodePath parent n idx in
  let nodes br o := nodesFinished (finished rs) o (path +:+ "." +:+ br) in
  match n with
  | NCode _ | NAgent _ | NCall _ | NReact _ => match rsCompleted rs !! path with Some _ => true | None => false end
  | NIf _ t e =>
      match rsBranches rs !! path with
      | Some which => if String.eqb which "then" then nodes "then" t
                      else String.eqb which "else" && (isEmpty e || nodes "else" e)
      | None => false
      end
  | NTry d _ f => nodes "do" d && (isEmpty f || nodes "finally" f)
  | NGate g e _ mx => negb (isEmpty g) && negb (isEmpty e) && (1 <=? mx)%Z && passedAlready (LookupGateAttempts rs path)
  | _ => false
  end.

(** The graphs of the theorem: code, agent and react steps, calls, branches, gates, and try without a catch (a catch that
    absorbed a failure leaves the failed step to be tried again, and a loop is entered again). *)
Fixpoint replayable (n : Node) : bool :=
  let nodes (o : option (list Node)) := match o with None => true | Some l => forallb replayable l end in
  match n with
  | NCode _ | NAgent _ | NCall _ | NReact _ => true
  | NIf _ t e => nodes t && nodes e
  | NTry d c f => nodes d && isEmpty c && nodes f
  | NGate _ _ _ _ => true
  | _ => false
  end.
Variable kinds : Node → bool.
Definition resumable (n : Node) : bool := skipless kinds n && replayable n.
Definition resumable_list (o : NodeList) : bool := match o with None => true | Some l => forallb resumable l end.

(** The blocks the walk of a finished node enters. *)
Definition entered (n : Node) : list (list string * option (list Node)) :=
  match n with NIf _ _ _ => branches n | NTry d _ f => [(["do"], d); (["finally"], f)] | _ => [] end.
Lemma entered_branches n b l : (b, l) ∈ entered n → (b, l) ∈ branches n.
Proof. destruct n; try done; cbn [entered branches]; intros Hin; branch_cases Hin; repeat ((by left) || right). Qed.

Lemma resumable_branches n : resumable n = true → ∀ b l, (b, l) ∈ entered n → resumable_list l = true.
Proof.
  intros [Hs Hr]%andb_prop b l Hin. pose proof (skipless_branches kinds n Hs b l (entered_branches n b l Hin)) as H1.
  assert (H2 : match l with None => true | Some l => forallb replayable l end = true).
  { destruct n; cbn [replayable entered branches] in *; rewrite ?andb_true_iff in Hr; branch_cases Hin; destruct_and?; assumption. }
  destruct l as [l|]; [|done]. cbn [skipless_list resumable_list] in *. rewrite forallb_forall in *.
  intros m Hm. unfold resumable. by rewrite H1, H2.
Qed.

(** An induction over the blocks a walk of a finished node enters. *)
Lemma resumable_ind (P : Node → Prop) :
  (∀ n, resumable n = true → (∀ b l, (b, l) ∈ entered n → Forall P (default [] l)) → P n) → ∀ n, resumable n = true → P n.
Proof.
  intros Hstep. induction n as [n IH] using Node_ind'. intros Hr. apply Hstep; [done|]. intros b l Hin.
  pose proof (resumable_branches n Hr b l Hin) as Hl. specialize (IH b l (entered_branches n b l Hin)).
  destruct l as [l|]; [|constructor]. cbn [default from_option id resumable_list] in *. rewrite forallb_forall in Hl.
  rewrite Forall_forall in *. intros m Hm. apply IH; [done|]. by apply Hl, list_elem_of_In.
Qed.

Lemma allFinished_mono (f g : Node → Z → string → bool) parent l :
  Forall (λ n, ∀ i p, f n i p = true → g n i p = true) l → ∀ i, allFinished f parent l i = true → allFinished g parent l i = true.
Proof.
  induction 1 as [|n l Hn _ IH]; intros i; cbn [allFinished]; [done|]. intros [H1 H2]%andb_prop. by rewrite Hn, IH.
Qed.

Lemma finished_advances rs rs' n : advances rs rs' → resumable n = true → ∀ idx parent,
  finished rs n idx parent = true → finished rs' n idx parent = true.
Proof.
  intros [A1 A2 A3]. revert n. apply (resumable_ind (λ n, ∀ idx parent, finished rs n idx parent = true → finished rs' n idx parent = true)).
  intros n Hr IH idx parent.
  assert (Hb : ∀ b l p, (b, l) ∈ entered n → nodesFinished (finished rs) l p = true → nodesFinished (finished rs') l p = true).
  { intros b l p Hin. specialize (IH b l Hin). destruct l as [l|]; [|done]. by apply allFinished_mono. }
  destruct n; try discriminate Hr; try (unfold resumable in Hr; by rewrite andb_false_r in Hr); cbn [finished entered branches] in *.
  - intros Hc. destruct (rsCompleted rs !! _) as [nr|] eqn:Hp; [|done]. destruct (A1 _ ltac:(by eexists)) as [nr' ->]. done.
  - intros Hc. destruct (rsCompleted rs !! _) as [nr|] eqn:Hp; [|done]. destruct (A1 _ ltac:(by eexists)) as [nr' ->]. done.
  - intros Hc. destruct (rsCompleted rs !! _) as [nr|] eqn:Hp; [|done]. destruct (A1 _ ltac:(by eexists)) as [nr' ->]. done.
  - destruct (rsBranches rs !! _) as [which|] eqn:Hp; [|done]. rewrite (A2 _ _ Hp).
    destruct (String.eqb which "then"); [apply (Hb ["then"]); by left|].
    destruct (String.eqb which "else"); [cbn [andb]|done]. destruct (isEmpty _); [done|]. cbn [orb].
    apply (Hb ["else"]). right. by left.
  - intros [Hd Hf]%andb_prop. rewrite (Hb ["do"] _ _ ltac:(by left) Hd). cbn [andb]. destruct (isEmpty finally); [done|].
    cbn [orb] in *. apply (Hb ["finally"]); [right; by left|done].
  - rewrite !andb_true_iff. intros [Hg Hp]. split; [done|by apply A3].
  - intros Hc. destruct (rsCompleted rs !! _) as [nr|] eqn:Hp; [|done]. destruct (A1 _ ltac:(by eexists)) as [nr' ->]. done.
Qed.

Lemma nodesFinished_advances rs rs' l p : advances rs rs' → resumable_list l = true →
  nodesFinished (finished rs) l p = true → nodesFinished (finished rs') l p = true.
Proof.
  intros Ha Hr. destruct l as [l|]; [|done]. cbn [resumable_list] in Hr. rewrite forallb_forall in Hr.
  apply allFinished_mono, Forall_forall. intros n Hn i q. apply finished_advances; [done|]. by apply Hr, list_elem_of_In.
Qed.

(** *** A walk that ends ok finishes its nodes *)

Variable otherNode : Context_ → Node → string → St → run.
Variable fuel : nat.
#[local] Notation interpNode := (interpNode ic otherNode fuel).
Hypothesis HNS : no_skip_errors (W := W).
Variable puts : effects.
(** A call that ends ok is recorded, at its address; one that is recorded is passed over. *)
Hypothesis others_walk : ∀ n cx path s r s', isOther n = true → kinds n = true → path ≠ "" →
  otherNode cx n path s = Some (r, s') → walks false puts (under path) s s'.
Hypothesis others_sound : ∀ n cx path s r s', isOther n = true → kinds n = true → otherNode cx n path s = Some (r, s') → unskipped r.
Hypothesis others_finish : ∀ n cx path s s', isOther n = true → kinds n = true → otherNode cx n path s = Some (okResult, s') → is_Some (rsCompleted (stRS s') !! path).
Hypothesis others_replay : ∀ n cx path s, isOther n = true → is_Some (rsCompleted (stRS s) !! path) → otherNode cx n path s = Some (okResult, s).

Lemma runCodeStep_finished cx c path (s : St) s' :
  runCodeStep ic cx c path s = (okResult, s') → is_Some (rsCompleted (stRS s') !! path).
Proof.
  assert (Hfail : ∀ (s0 s' : St) oc e, failStep path oc e s0 ≠ (okResult, s')).
  { intros s0 s1 oc e Hf. by apply failStep_not_ok in Hf. }
  assert (Hd : ∀ h i po refs s0 s', dispatchCodeStep cx h c path i po refs s0 = (okResult, s') → is_Some (rsCompleted (stRS s') !! path)).
  { intros h i po refs s0 s1. unfold dispatchCodeStep. destruct (RunWithRetry _ _ _ _ _ _) as [[dr [e|]] [l w]].
    - destruct (String.eqb _ ""); [done|by intros Hf%Hfail].
    - destruct (negb _); [by intros Hf%Hfail|]. destruct (liftH _ _) as [[nr|e] s2]; [|done]. intros [= <-]. cbn.
      rewrite lookup_insert_eq. by eexists. }
  unfold runCodeStep. destruct (LookupCompleted (stRS s) path) eqn:Hn; [intros [= <-]; by eexists|].
  destruct (prepareCodeStep _ _ _ _ _) as [[[i po] refs]|[e|e]]; [|by intros Hf%Hfail|done].
  destruct (_ && _); [|by apply Hd]. destruct (wCreate _ _ _) as [[h|e] w]; [|done].
  destruct (dispatchCodeStep _ _ _ _ _ _ _ _) as [r1 s1] eqn:E. intros [= -> <-]. by apply Hd in E.
Qed.

Lemma list_finished parent l : Forall (λ n, skipless kinds n = true ∧ resumable n = true ∧ ∀ cx i p s s',
    interpNode cx n i p s = Some (okResult, s') → finished (stRS s') n i p = true) l →
  ∀ cx i s s', interpList interpNode cx parent l i s = Some (okResult, s') → allFinished (finished (stRS s')) parent l i = true.
Proof.
  induction 1 as [|n l (Hsk & Hre & Hn) HF IH]; intros cx i s s'; cbn [interpList allFinished]; [done|].
  destruct (interpNode cx n i parent s) as [[r1 s1]|] eqn:En; [|done].
  destruct (isOk r1) eqn:Hr1; [|intros [= -> _]; by unfold isOk, okResult in Hr1].
  assert (r1 = okResult) as ->.
  { apply unskipped_isOk; [|done]. eapply (interpNode_sound ic HNS otherNode fuel kinds others_sound n Hsk); exact En. }
  apply Hn in En. intros Hl. rewrite (IH _ _ _ _ Hl), andb_true_r. revert En. apply finished_advances; [|done].
  eapply walks_advances, interpList_walks; [|exact Hl]. eapply Forall_impl; [exact HF|].
  intros m (Hm & _) cx0 i0 p0 s0 r0 s0'. apply interpNode_walks with (kinds := kinds); [done|]. by apply andb_prop in Hm as [? _].
Qed.

Definition finishes (n : Node) : Prop := ∀ cx i p s s',
  interpNode cx n i p s = Some (okResult, s') → finished (stRS s') n i p = true.

Lemma nodes_finish nodes : resumable_list nodes = true → Forall finishes (default [] nodes) →
  ∀ cx p s s', interpNodesOf interpNode nodes cx p s = Some (okResult, s') → nodesFinished (finished (stRS s')) nodes p = true.
Proof.
  intros Hr HF cx p s s'. destruct nodes as [l|]; [|done]. cbn [default from_option id resumable_list] in *.
  rewrite forallb_forall in Hr. apply list_finished. rewrite Forall_forall in *. intros n Hn.
  assert (Hre : resumable n = true) by (by apply Hr, list_elem_of_In). pose proof Hre as [Hs _]%andb_prop.
  split; [done|]. split; [done|]. by apply HF.
Qed.

Lemma branch_steps n b l : skipless kinds n = true → (b, l) ∈ branches n → steps_below false puts (interpNodesOf interpNode l).
Proof.
  intros [Hp _]%andb_prop Hin. apply nodes_walks with (kinds := kinds); [|by eapply plain_branches].
  apply Forall_forall. intros m _ Hm. by apply interpNode_walks with (kinds := kinds).
Qed.

Lemma branches_sound n b l : skipless kinds n = true → (b, l) ∈ branches n → sound (interpNodesOf interpNode l).
Proof.
  intros Hs Hin. apply nodes_sound. pose proof (skipless_branches kinds _ Hs b l Hin) as Hsl.
  destruct l as [l|]; [|constructor]. cbn [default from_option id skipless_list] in *. rewrite forallb_forall in Hsl.
  apply Forall_forall. intros m Hm. apply (interpNode_sound ic HNS otherNode fuel kinds others_sound). by apply Hsl, list_elem_of_In.
Qed.

(** An ok gate without skips has a passed attempt. *)
Lemma gateFrom_passed g e ev until mx cx path k : sound g → sound e → ∀ n (s : St) s',
  gateFrom ic k g e ev until mx cx path n s = Some (okResult, s') → passedAlready (LookupGateAttempts (stRS s') path) = true.
Proof.
  intros Hg He. induction k as [|k IH]; intros n s s'; cbn [gateFrom]; [done|].
  destruct (g cx _ s) as [[gr s1]|] eqn:Eg; [|done]. rewrite (unskipped_skip _ (Hg _ _ _ _ _ Eg)).
  destruct (isOk gr) eqn:Hgr; cbn [negb]; [|intros [= -> _]; by unfold isOk, okResult in Hgr].
  destruct (e cx _ s1) as [[er s2]|] eqn:Ee; [|done]. rewrite (unskipped_skip _ (He _ _ _ _ _ Ee)).
  destruct (isOk er) eqn:Her; cbn [negb]; [|intros [= -> _]; by unfold isOk, okResult in Her].
  destruct (judge _ _ _ _ _ s2) as [[r1|[]] s3] eqn:Ej; apply judge_attempts in Ej.
  - intros [= -> _]. by destruct Ej as [Hf _].
  - intros [= <-]. destruct Ej as [v ->]. by rewrite passedAlready_snoc.
  - destruct (n =? mx)%Z; [done|apply IH].
Qed.

Lemma interpNode_finishes n : resumable n = true → finishes n.
Proof.
  revert n. apply resumable_ind. intros n Hr IH cx idx parent s s'.
  assert (Hb : ∀ b l cx p s s', (b, l) ∈ entered n → interpNodesOf interpNode l cx p s = Some (okResult, s') →
    nodesFinished (finished (stRS s')) l p = true).
  { intros b l cx0 p s0 s1 Hin. apply nodes_finish; [by eapply resumable_branches|by apply (IH b)]. }
  pose proof Hr as [Hs Hre]%andb_prop. pose proof (branch_steps n) as Hw.
  destruct n; try discriminate Hr; try discriminate Hre;
    cbn [Interp.interpNode finished nodePath entered branches] in *.
  - intros [= Hc]. apply runCodeStep_finished in Hc as [nr ->]. done.
  - intros Hc. apply others_finish in Hc as [nr ->]; [done..|]. by apply andb_prop in Hs as [? _].
  - intros Hc. apply others_finish in Hc as [nr ->]; [done..|]. by apply andb_prop in Hs as [? _].
  - set (path := PathFor parent "if" "" idx).
    assert (Ht : ∀ which s0, rsBranches (stRS s0) !! path = Some which →
      takeBranch (interpNodesOf interpNode then_) (interpNodesOf interpNode else_) (isEmpty else_) cx path which s0 = Some (okResult, s') →
      finished (stRS s') (NIf cond then_ else_) idx parent = true).
    { intros which s0 Hwh Htk. assert (Hw' : rsBranches (stRS s') !! path = Some which).
      { eapply ad_branch; [|exact Hwh]. eapply walks_advances, takeBranch_walks, Htk;
          eapply Hw; try done; repeat ((by left) || right). }
      cbn [finished nodePath]. fold path. rewrite Hw'. revert Htk. unfold takeBranch.
      destruct (String.eqb which "then"); [apply (Hb ["then"]); by left|].
      destruct (String.eqb which "else"); [|done]. destruct (isEmpty else_); [done|]. apply (Hb ["else"]). right. by left. }
    cbn [finished nodePath] in Ht. unfold runIf. destruct (LookupBranch (stRS s) path) as [which|] eqn:Hl; [by apply Ht|].
    destruct (EvalBoolString _ cond); [|intros [= Hf]; by apply failStep_not_ok in Hf].
    destruct (appendTo _ _ _ s) as [[x|] s1]; [done|]. apply Ht. cbn. by rewrite lookup_insert_eq.
  - cbn [replayable] in Hre. apply andb_prop in Hre as [[_ Hc]%andb_prop _].
    assert (Hsound : ∀ b l, (b, l) ∈ branches (NTry do_ catch finally) → sound (interpNodesOf interpNode l)).
    { intros b l. by apply branches_sound. }
    unfold runTry, tryCatch. rewrite Hc.
    destruct (interpNodesOf interpNode do_ cx _ s) as [[dr s1]|] eqn:Ed; [|done].
    pose proof (Hsound ["do"] do_ ltac:(by left) _ _ _ _ _ Ed) as Hdr. cbn [negb].
    rewrite andb_false_r, (unskipped_skip _ Hdr). cbv beta zeta. destruct (isEmpty finally) eqn:Hfe.
    + cbn [okResult snd]. destruct (wCtxErr cx (stW s1)); [done|]. intros [= -> <-]. cbn [orb]. rewrite andb_true_r.
      by apply (Hb ["do"] _ _ _ _ _ ltac:(by left) Ed).
    + destruct (interpNodesOf interpNode finally Detached _ s1) as [[fr s2]|] eqn:Ef; [|done].
      pose proof (Hsound ["finally"] finally ltac:(right; right; by left) _ _ _ _ _ Ef) as Hfr.
      destruct fr as [fo [fe|]]; cbn [snd]; [done|]. destruct (wCtxErr cx (stW s2)); [done|]. intros [= -> <-].
      destruct Hfr as [[= ->]|[[? [=]] _]]. cbn [orb]. apply andb_true_intro. split.
      * apply (nodesFinished_advances (stRS s1)); [|by eapply (resumable_branches _ Hr ["do"]); left|by apply (Hb ["do"] _ _ _ _ _ ltac:(by left) Ed)].
        eapply walks_advances, Hw; [done| | |exact Ef]; [right; right; by left|by destruct parent].
      * apply (Hb ["finally"] _ _ _ _ _ ltac:(right; by left) Ef).
  - unfold runGate. destruct (isEmpty generate); [done|]. destruct (isEmpty evaluate); [done|].
    destruct (Z.ltb_spec maxAttempts 1); [done|]. cbn [negb andb].
    assert ((1 <=? maxAttempts)%Z = true) as -> by (by apply Z.leb_le). cbn [andb].
    destruct (passedAlready _) eqn:Hpass; [by intros [= <-]|].
    assert (Hsound : ∀ b l, (b, l) ∈ branches (NGate generate evaluate until maxAttempts) → sound (interpNodesOf interpNode l)).
    { intros b l. by apply branches_sound. }
    apply gateFrom_passed; eapply Hsound; repeat ((by left) || right).
  - intros Hc. apply others_finish in Hc as [nr ->]; [done..|]. by apply andb_prop in Hs as [? _].
Qed.

(** *** A finished graph is passed over *)

(** The context is not done. *)
Definition alive (s : St) : Prop := ∀ cx, wCtxErr cx (stW s) = None.

Definition replays (n : Node) : Prop := ∀ cx i p s,
  alive s → finished (stRS s) n i p = true → interpNode cx n i p s = Some (okResult, s).

Lemma nodes_replay nodes : Forall replays (default [] nodes) → ∀ cx p s,
  alive s → nodesFinished (finished (stRS s)) nodes p = true → interpNodesOf interpNode nodes cx p s = Some (okResult, s).
Proof.
  intros HF cx p s Ha. destruct nodes as [l|]; [|done]. cbn [default from_option id nodesFinished interpNodesOf] in *.
  generalize 0%Z. induction HF as [|n l Hn _ IH]; intros i; cbn [allFinished interpList]; [done|].
  intros [H1 H2]%andb_prop. rewrite (Hn cx i p s Ha H1). by apply IH.
Qed.

Lemma interpNode_replays n : resumable n = true → replays n.
Proof.
  revert n. apply resumable_ind. intros n Hr IH cx idx parent s Ha.
  assert (Hb : ∀ b l cx p, (b, l) ∈ entered n → nodesFinished (finished (stRS s)) l p = true →
    interpNodesOf interpNode l cx p s = Some (okResult, s)).
  { intros b l cx0 p Hin. apply nodes_replay; [by apply (IH b)|done]. }
  pose proof Hr as [Hs Hre]%andb_prop.
  destruct n; try discriminate Hr; try discriminate Hre;
    cbn [Interp.interpNode finished nodePath entered branches] in *.
  - unfold runCodeStep, LookupCompleted. by destruct (rsCompleted (stRS s) !! _).
  - intros Hf. apply others_replay; [done|]. by destruct (rsCompleted (stRS s) !! _).
  - intros Hf. apply others_replay; [done|]. by destruct (rsCompleted (stRS s) !! _).
  - unfold runIf, LookupBranch. destruct (rsBranches (stRS s) !! _) as [which|]; [|done]. unfold takeBranch.
    destruct (String.eqb which "then"); [apply (Hb ["then"]); by left|].
    destruct (String.eqb which "else"); [cbn [andb]|done]. destruct (isEmpty else_); [done|]. apply (Hb ["else"]). right. by left.
  - intros [Hd Hf]%andb_prop. apply (Hb ["do"] _ cx _ ltac:(by left)) in Hd. change ("." +:+ "do") with ".do" in Hd.
    unfold runTry. rewrite Hd. cbn [tryCatch okResult fst snd andb].
    change (skipOf okResult) with (@None string). cbv beta iota zeta. destruct (isEmpty finally).
    + cbn [snd okResult]. by rewrite Ha.
    + cbn [orb] in Hf. apply (Hb ["finally"] _ Detached _ ltac:(right; by left)) in Hf.
      change ("." +:+ "finally") with ".finally" in Hf. rewrite Hf. cbn [okResult snd]. by rewrite Ha.
  - rewrite !andb_true_iff, !negb_true_iff, Z.leb_le. intros [[[Hg He] Hm] Hp]. unfold runGate. rewrite Hg, He, Hp.
    by destruct (Z.ltb_spec maxAttempts 1); [lia|].
  - intros Hf. apply others_replay; [done|]. by destruct (rsCompleted (stRS s) !! _).
Qed.
End resume.
