(* ===== verification/AgentWalk.v ===== *)
(** * What an agent step does to a run

    An agent step is walked at its own address: its events, its attempts, its skills and its commit are
    steps of the run.  So the laws of the walk hold of graphs with agent steps. *)

From S2P Require Import Prelude GoNum Sort GoJson GoStruct Signal TmplLexer TmplParser TmplSlots TmplEval RetryPolicy EnginePath GoPath.
From S2P Require Import StateBlobs StateLog EngineEvents Ir RunState EngineFold Journal SkillRoute Agent Commit Scope Threads Artifacts Containers.
From S2P Require Import RetryLoop Adapters Steps Skills Contracts Exports Runtimes AgentStep Interp Call InterpLaws InterpFold InterpResume.

Section walk.
Context `{Log L} `{Blobs B} `{World W} `{Signals W} `{Externals} `{Adapters W} `{AgentHost W} `{Unicode} `{MathLog}.
#[local] Notation St := (St L B W).
#[local] Existing Instance SinkWorld.
Variables (sig : bool) (puts : effects).

(** What the outside gives agent steps: events that are [ok], also when deltas are merged, whose payloads
    and results are among the effects. *)
Record agents_ok (ok : AgentEvent → Prop) : Prop := {
  ag_payload ev : ok ev → (AgentEventInlineThreshold <= Z.of_nat (slen (eventPayload ev)))%Z → efPayloads puts (eventPayload ev);
  ag_merge ev p : isDelta ev = true → ok ev → ok p → ok (mergeDelta ev (Some p));
  ag_dispatch cx h i w dr e w' : wDispatch cx h i w = ((dr, e), w') →
    Forall ok (drAgentEvents dr) ∧ (drOutcome dr = OutcomeOK → ∀ part, efResults puts dr part);
  ag_live w inputs oe w' ev : ahLive w = ((inputs, oe), w') → SinkEvent ev ∈ inputs → ok ev;
  ag_finalize f lv w msg w' : ahFinalize = Some f → f lv w = (Some msg, w') → ok (finalizerWarning msg)
}.
Variable okEvent : AgentEvent → Prop.
Hypothesis Hok : agents_ok okEvent.

Variable path : string.
#[local] Notation here := (walks (L := L) (B := B) (W := W) sig puts (eq path)).
Lemma here_prim s s' : prim sig puts path s s' → here s s'.
Proof. by apply walks_one. Qed.
Lemma here_trans s1 s2 s3 : here s1 s2 → here s2 s3 → here s1 s3.
Proof. apply walks_trans. Qed.

(** *** Events *)

Definition withLB (x : L * B) (s : St) : St := MkSt x.1 x.2 (stRS s) (stW s).
Lemma withLB_self s : withLB (stLog s, stBlobs s) s = s.
Proof. by destruct s. Qed.

Lemma writeAgentEvent_here d l e l' b rs w : writeAgentEvent path d l = (e, l') → here (MkSt l b rs w) (MkSt l' b rs w).
Proof.
  unfold writeAgentEvent. destruct (appendEvent _ _ _ l) as [e1 l1] eqn:Ha. intros [= _ <-].
  apply here_prim, (p_note _ _ path EventAgentEvent (AgentEventData_json d) _ (EEng <$> e1)); [done|]. unfold appendTo. cbn [stLog]. by rewrite Ha.
Qed.
Lemma appendAgentEvent_here ev (x x' : L * B) e s : okEvent ev → appendAgentEvent path ev x = (e, x') → here (withLB x s) (withLB x' s).
Proof.
  intros Hev. unfold appendAgentEvent. destruct (Z.leb_spec AgentEventInlineThreshold (Z.of_nat (slen (eventPayload ev)))) as [Hl|Hl].
  - destruct (blobsPut _ x.2) as [[ref|pe] b] eqn:Hp.
    + destruct (writeAgentEvent _ _ x.1) as [e1 l1] eqn:Hw. intros [= _ <-]. apply (here_trans _ (withLB (x.1, b) s)).
      * by eapply here_prim, (p_payload _ _ path (eventPayload ev) (withLB x s) (Ok ref) b), Hp; eapply ag_payload.
      * by eapply writeAgentEvent_here.
    + intros [= _ <-]. by eapply here_prim, (p_payload _ _ path (eventPayload ev) (withLB x s) (Err pe) b), Hp; eapply ag_payload.
  - destruct (writeAgentEvent _ _ x.1) as [e1 l1] eqn:Hw. intros [= _ <-]. by eapply writeAgentEvent_here.
Qed.
Lemma appendAgentEvents_here evs s : Forall okEvent evs → ∀ (x x' : L * B) e,
  appendAgentEvents path evs x = (e, x') → here (withLB x s) (withLB x' s).
Proof.
  induction 1 as [|ev evs Hev _ IH]; intros x x' e; cbn [appendAgentEvents]; [intros [= _ <-]; apply walks_refl|].
  destruct (appendAgentEvent path ev x) as [[e1|] x1] eqn:Ha; apply (appendAgentEvent_here _ _ _ _ s) in Ha; try done; [by intros [= _ <-]|].
  intros Hr. by eapply here_trans, IH.
Qed.

(** *** The sink *)

Definition sinkOk (k : Sink) : Prop := ∀ p, skPending k = Some p → okEvent p.

Lemma appendOne_here ev k k' (x x' : L * B) s : okEvent ev → sinkOk k → appendOne path ev k x = (k', x') →
  here (withLB x s) (withLB x' s) ∧ sinkOk k'.
Proof.
  intros Hev Hk. unfold appendOne. destruct (appendAgentEvents path [ev] x) as [[e|] x1] eqn:Ha;
    apply (appendAgentEvents_here _ s) in Ha; try (by apply Forall_singleton); by intros [= <- <-].
Qed.
Lemma flushPendingDelta_here k k' (x x' : L * B) s : sinkOk k → flushPendingDelta path k x = (k', x') →
  here (withLB x s) (withLB x' s) ∧ sinkOk k'.
Proof.
  intros Hk. unfold flushPendingDelta. destruct (skPending k) as [p|] eqn:Hp; [|intros [= <- <-]; split; [apply walks_refl|done]].
  apply appendOne_here; [by apply Hk|done].
Qed.
Lemma handleEvent_here ev k k' (x x' : L * B) s : okEvent ev → sinkOk k → handleEvent path ev k x = (k', x') →
  here (withLB x s) (withLB x' s) ∧ sinkOk k'.
Proof.
  intros Hev Hk. unfold handleEvent. destruct (isDelta ev) eqn:Hd.
  - intros [= <- <-]. split; [apply walks_refl|]. intros p [= <-]. destruct (skPending k) as [q|] eqn:Hq; [|done].
    apply (ag_merge _ Hok); [done..|by apply Hk].
  - destruct (flushPendingDelta path k x) as [k1 x1] eqn:Hf. apply (flushPendingDelta_here _ _ _ _ s) in Hf as [Hf Hk1]; [|done].
    destruct (skErr k1); [by intros [= <- <-]|]. intros Ha. apply (appendOne_here _ _ _ _ _ s) in Ha as [Ha Hk2]; [|done..].
    split; [by eapply here_trans|done].
Qed.
Lemma sinkRun_here inputs s : (∀ ev, SinkEvent ev ∈ inputs → okEvent ev) → ∀ k k' (x x' : L * B), sinkOk k → sinkRun path inputs k x = (k', x') →
  here (withLB x s) (withLB x' s) ∧ sinkOk k'.
Proof.
  induction inputs as [|i inputs IH]; intros Hi k k' x x' Hk; cbn [sinkRun]; [destruct (skErr k); intros [= <- <-]; (split; [apply walks_refl|done])|].
  destruct (skErr k); [intros [= <- <-]; split; [apply walks_refl|done]|].
  destruct (match i with SinkEvent _ => _ | SinkTick => _ end) as [k1 x1] eqn:He.
  assert (Hs : here (withLB x s) (withLB x1 s) ∧ sinkOk k1).
  { destruct i as [ev|]; [|by eapply flushPendingDelta_here]. eapply handleEvent_here; [|done|exact He]. apply Hi. by left. }
  destruct Hs as [Hs Hk1]. intros Hr. apply IH in Hr as [Hr Hk2]; [|intros ev Hev; apply Hi; by right|done]. split; [by eapply here_trans|done].
Qed.

Definition withLWB (x : L * (W * B)) (s : St) : St := MkSt x.1 x.2.2 (stRS s) x.2.1.
Lemma sinkFlush_here k k' x x' s : sinkOk k → sinkFlush path k x = (k', x') → here (withLWB x s) (withLWB x' s) ∧ sinkOk k'.
Proof.
  destruct x as [l [w b]]. intros Hk. unfold sinkFlush. destruct (skErr k); [intros [= <- <-]; split; [apply walks_refl|done]|]. cbn [fst snd].
  destruct (ahLive w) as [[inputs oe] w1] eqn:Hl. destruct (sinkRun path inputs k (l, b)) as [k1 [l1 b1]] eqn:Hr.
  apply (sinkRun_here _ (setW w1 s)) in Hr as [Hr Hk1]; [|by intros ev; eapply ag_live|done].
  assert (H1' : here (withLWB (l, (w, b)) s) (withLWB (l1, (w1, b1)) s)).
  { apply (here_trans _ (setW w1 (withLWB (l, (w, b)) s))); [apply here_prim, p_world|exact Hr]. }
  destruct (skErr k1); [by intros [= <- <-]|]. destruct oe; [intros [= <- <-]; split; [done|exact Hk1]|].
  destruct (flushPendingDelta path k1 (l1, b1)) as [k2 [l2 b2]] eqn:Hf. intros [= <- <-].
  apply (flushPendingDelta_here _ _ _ _ (setW w1 s)) in Hf as [Hf Hk2]; [|done]. split; [by eapply here_trans|done].
Qed.

(** *** The attempts *)

Definition withAll (x : L * (W * (B * Sink))) (s : St) : St := MkSt x.1 x.2.2.1 (stRS s) x.2.1.
Lemma attempts_here cx h i po s dr err x :
  niPath i = path → RunWithRetry (Some (flushWait path)) cx h i po (stLog s, (stW s, (stBlobs s, MkSink None None))) = ((dr, err), x) →
  here s (withAll x s) ∧ sinkOk x.2.2.2 ∧ Forall okEvent (drAgentEvents dr) ∧ (drOutcome dr = OutcomeOK → ∀ part, efResults puts dr part).
Proof.
  intros Hi Hr. pose (Q := λ x : L * (W * (B * Sink)), here s (withAll x s) ∧ sinkOk x.2.2.2).
  assert (Q x ∧ answered (W := W * (B * Sink)) cx h (dr, err).1 ∧ ∀ e, (dr, err).2 = Some e → True) as ([Hw Hk] & Ha & _).
  { eapply (RunWithRetry_keeps (Some (flushWait path)) cx h i po Q (λ _, True)); [..|exact Hr|]; try done.
    - intros j l [w [b k]] r [w' [b' k']] [Hw Hk] Hd. cbn in Hd. destruct (wDispatch cx h j w) as [r1 w1]. injection Hd as <- <- <- <-.
      split; [|done]. eapply here_trans; [exact Hw|]. apply here_prim, (p_world _ _ path (withAll (l, (w, (b, k))) s) w1).
    - intros f [l [w [b k]]] e x' [= <-] [Hw Hk] Hf. unfold flushWait in Hf. destruct (sinkFlush path k (l, (w, b))) as [k' [l' [w' b']]] eqn:Hs.
      injection Hf as _ <-. apply (sinkFlush_here _ _ _ _ s) in Hs as [Hs Hk']; [|done]. split; [|done]. split; [by eapply here_trans|done].
    - intros j l [w [b k]] e l' [Hw Hk] Ha. split; [|done]. eapply here_trans; [exact Hw|].
      eapply here_prim, (p_note _ _ path EventRetryAttempt j (withAll (l, (w, (b, k))) s) (EEng <$> e)); [done|]. unfold appendTo. cbn [withAll stLog fst]. by rewrite <- Hi, Ha.
    - intros n l [w [b k]] [Hw Hk]. split; [|done]. eapply here_trans; [exact Hw|]. apply here_prim, (p_world _ _ path (withAll (l, (w, (b, k))) s) (wNotice n w)).
    - intros d l [w [b k]] e [w' [b' k']] [Hw Hk] Hd. cbn in Hd. destruct (wSleep cx d w) as [r1 w1]. injection Hd as _ <- <- <-.
      split; [|done]. split; [|done]. eapply here_trans; [exact Hw|]. apply here_prim, (p_world _ _ path (withAll (l, (w, (b, k))) s) w1).
    - split; [|done]. unfold withAll. cbn. destruct s. apply walks_refl. }
  split; [done|]. split; [done|]. cbn [fst] in Ha. destruct Ha as [->|(j & [w [b k]] & dr0 & e & w' & Hd & Hdr)]; [done|].
  cbn in Hd. destruct (wDispatch cx h j w) as [[dr1 e1] w1] eqn:Hd1. injection Hd as -> _ _. apply (ag_dispatch _ Hok) in Hd1 as [H1' H2'].
  destruct Hdr as [->|[x0 ->]]; [done|]. split; [exact H1'|done].
Qed.

(** *** The step *)

Variable ic : Ictx.

Lemma failStep_here oc e s r s' : failStep path oc e s = (r, s') → here s s'.
Proof. intros Hf. by eapply here_prim, p_fail. Qed.
Lemma failPrep_here e s r s' : failPrep path e s = (r, s') → here s s'.
Proof. destruct e; cbn [failPrep]; [apply failStep_here|intros [= _ <-]; apply walks_refl]. Qed.
Lemma finalizeLive_here live s : here s (finalizeLive path live s).
Proof.
  unfold finalizeLive. destruct live as [lv|]; [|apply walks_refl]. destruct ahFinalize as [f|] eqn:Hf; [|apply walks_refl].
  destruct (f lv (stW s)) as [[msg|] w] eqn:Hl; [|apply here_prim, p_world].
  destruct (appendAgentEvents _ _ _) as [e [l b]] eqn:Ha. apply (appendAgentEvents_here _ (setW w s)) in Ha;
    [|apply Forall_singleton; by eapply ag_finalize]. eapply here_trans; [apply here_prim, (p_world _ _ path s w)|]. cbn in Ha. by destruct s.
Qed.

Lemma selectAgentStepSkills_here sk s r s' : efSkills puts → selectAgentStepSkills ic sk path s = (r, s') →
  here s s' ∧ rsCompleted (stRS s') = rsCompleted (stRS s).
Proof.
  intros Hsk. unfold selectAgentStepSkills, appendSkillsSelected.
  destruct (buildSkillCorpus _ _ _ _ _) as [c|e]; [|intros [= _ <-]; split; [apply walks_refl|done]].
  destruct (LookupSelectedSkills _ _) as [d|]; [repeat case_match; intros [= _ <-]; (split; [apply walks_refl|done])|].
  destruct (Substitute _ _) as [q|]; [|intros [= _ <-]; split; [apply walks_refl|done]].
  destruct (Route _ _ _ _) as [|x l]; [intros [= _ <-]; split; [apply walks_refl|done]|].
  destruct (appendSynced _ _ _ s) as [e s1] eqn:Ha. pose proof Ha as Hs. apply (p_skills sig puts path _ s e s1 Hsk) in Ha. apply appendSynced_state in Hs as (Hrs & _).
  destruct e as [e|]; intros [= _ <-]; (split; [by apply here_prim|]); cbn; by rewrite Hrs.
Qed.
Lemma agentSkills_here v s r s' : (asSkills v = None ∨ efSkills puts) → agentSkills ic v path s = (r, s') →
  here s s' ∧ rsCompleted (stRS s') = rsCompleted (stRS s).
Proof.
  unfold agentSkills. intros [->|Hsk]; [intros [= _ <-]; split; [apply walks_refl|done]|].
  destruct (asSkills v) as [sk|]; [|intros [= _ <-]; split; [apply walks_refl|done]].
  destruct (selectAgentStepSkills ic sk path s) as [r1 s1] eqn:Hs. intros [= _ <-]. by eapply selectAgentStepSkills_here.
Qed.

Lemma commitAgentStep_here ti v dr s r s' : LookupCompleted (stRS s) path = None → (drOutcome dr = OutcomeOK → ∀ part, efResults puts dr part) →
  commitAgentStep ti v path dr s = (r, s') → here s s'.
Proof.
  intros Hn Hd. unfold commitAgentStep. destruct (liftH _ s) as [x s1] eqn:Hc. pose proof (p_commit sig puts path dr _ s _ _ Hn (λ _ Ho, Hd Ho _) Hc) as Hp.
  destruct x as [nr|e]; intros [= _ <-]; [|by apply here_prim]. eapply here_trans; [apply here_prim, Hp|apply finalizeLive_here].
Qed.
Lemma dispatchAgentStep_here cx ti v i po s r s' : LookupCompleted (stRS s) path = None → niPath i = path →
  dispatchAgentStep ic cx ti v path i po s = (r, s') → here s s'.
Proof.
  intros Hn Hi. unfold dispatchAgentStep. rewrite <- (appendNodeStarted_rs path "agent" s) in Hn.
  intros Hr. eapply here_trans; [apply here_prim, (p_started _ _ path "agent")|]. revert Hr.
  set (s1 := appendNodeStarted path "agent" s) in *. clearbody s1. clear s.
  destruct (RunWithRetry _ _ _ _ _ _) as [[dr err] [l [w [b k]]]] eqn:HR. apply attempts_here in HR as (H1' & Hk & Hev & Hd); [|done].
  destruct (sinkFlush path k (l, (w, b))) as [k2 [l2 [w2 b2]]] eqn:Hf. apply (sinkFlush_here _ _ _ _ s1) in Hf as [H2' _]; [|done].
  destruct (appendAgentEvents path (drAgentEvents dr) (l2, b2)) as [ae [l3 b3]] eqn:Ha. apply (appendAgentEvents_here _ (setW w2 s1)) in Ha; [|done].
  assert (H3' : here s1 (MkSt l3 b3 (stRS s1) w2)) by (eapply here_trans; [exact H1'|]; eapply here_trans; [exact H2'|exact Ha]).
  intros Hr. eapply here_trans; [exact H3'|]. revert Hr.
  destruct (skErr k2); [intros [= _ <-]; apply walks_refl|]. destruct err as [e|].
  - destruct (String.eqb _ ""); [intros [= _ <-]; apply walks_refl|apply failStep_here].
  - destruct ae; [intros [= _ <-]; apply walks_refl|by apply commitAgentStep_here].
Qed.

Lemma prepareAgentStep_path rs (b : B) v with_ key po sk fb turns i po' : prepareAgentStep ic rs b v path with_ key po sk fb turns = Ok (i, po') → niPath i = path.
Proof.
  unfold prepareAgentStep. intros Hp. apply res_bind_ok in Hp as ([fs ins] & _ & Hp). apply res_bind_ok in Hp as ([ofs cs] & _ & Hp). cbv zeta in Hp.
  destruct (sessionDirs _ _) as [cd sd]. apply res_bind_ok in Hp as (rw & _ & Hp). by injection Hp as <- _.
Qed.

Lemma runAgentStep_here cx v s r s' : (asSkills v = None ∨ efSkills puts) → runAgentStep ic cx v path s = Some (r, s') → here s s'.
Proof.
  intros Hsk. unfold runAgentStep. destruct (LookupCompleted (stRS s) path) eqn:Hn; [intros [= _ <-]; apply walks_refl|].
  destruct (prepareConfig _ _ _ _) as [[[with_ key] po]|e]; [|intros [= Hf]; by eapply failPrep_here].
  destruct (agentSkills ic v path s) as [sk s1] eqn:Hs. apply agentSkills_here in Hs as [H1' Hrs]; [|done].
  destruct sk as [sk|e]; [|intros [= Hf]; eapply here_trans; [exact H1'|by eapply failPrep_here]].
  destruct (threadIndexes (icWf ic) (stRS s1)) as [ti rs] eqn:Ht.
  assert (H2' : here s1 (setRS rs s1) ∧ rsCompleted rs = rsCompleted (stRS s1)).
  { revert Ht. unfold threadIndexes. destruct (rsThreadIdx (stRS s1)); intros [= _ <-]; [|by split; [apply here_prim, p_threads|]].
    rewrite setRS_self. split; [apply walks_refl|done]. }
  destruct H2' as [H2' Hrs2]. assert (H3' : here s (setRS rs s1)) by by eapply here_trans.
  intros Hr. eapply here_trans; [exact H3'|]. revert Hr.
  destruct (continuedTurns _ _ _ _ _) as [[turns|e]|]; [|intros [= Hf]; by eapply failStep_here|done].
  destruct (prepareAgentStep _ _ _ _ _ _ _ _ _ _ _) as [[i po']|e] eqn:Hp; [|intros [= Hf]; by eapply failPrep_here].
  intros [= Hd]. eapply dispatchAgentStep_here, Hd; [|by eapply prepareAgentStep_path].
  unfold LookupCompleted in *. cbn [setRS stRS]. by rewrite Hrs2, Hrs.
Qed.
End walk.

(** ** The results of an agent step *)

Section results.
Context `{Log L} `{Blobs B} `{World W} `{Signals W} `{Externals} `{Adapters W} `{AgentHost W} `{Unicode} `{MathLog}.
#[local] Notation St := (St L B W).
#[local] Existing Instance SinkWorld.
Variable ic : Ictx.

(** It ends, when it continues no other step: the walk of [continues:] has no bound of its own. *)
Lemma runAgentStep_total cx v path (s : St) : asContinues v = "" → is_Some (runAgentStep ic cx v path s).
Proof.
  intros Hc. unfold runAgentStep. destruct (LookupCompleted _ _); [by eexists|]. destruct (prepareConfig _ _ _ _) as [[[with_ key] po]|e]; [|by eexists].
  destruct (agentSkills ic v path s) as [[sk|e] s1]; [|by eexists]. destruct (threadIndexes _ _) as [ti rs].
  unfold continuedTurns. rewrite Hc. cbn [Nat.add assembleTurns String.eqb]. destruct (prepareAgentStep _ _ _ _ _ _ _ _ _ _ _) as [[i po']|e]; by eexists.
Qed.

(** *** No result is a skip *)

Definition live_noskip : Prop := ∀ (w : W) inputs e w', ahLive w = ((inputs, Some e), w') → asSkip e = None.
Hypothesis HNS : no_skip_errors (W := W).
Hypothesis HNL : live_noskip.
Variable path : string.
Definition sinkClean (k : Sink) : Prop := ∀ e, skErr k = Some e → asSkip e = None.

Lemma appendAgentEvents_noskip evs : ∀ (x : L * B) e x', appendAgentEvents path evs x = (Some e, x') → asSkip e = None.
Proof.
  induction evs as [|ev evs IH]; intros x e x'; cbn [appendAgentEvents]; [done|].
  destruct (appendAgentEvent path ev x) as [[e1|] x1] eqn:Ha; [|apply IH]. intros [= <- _]. revert Ha. unfold appendAgentEvent, writeAgentEvent.
  destruct (_ <=? _)%Z; [destruct (blobsPut _ _) as [[ref|pe] b]; [|by intros [= <- _]]|]; destruct (appendEvent _ _ _ _) as [[y|] l]; by intros [= <- _].
Qed.
Lemma appendOne_clean ev k k' (x x' : L * B) : sinkClean k → appendOne path ev k x = (k', x') → sinkClean k'.
Proof.
  intros Hk. unfold appendOne. destruct (appendAgentEvents path [ev] x) as [[e|] x1] eqn:Ha; intros [= <- _]; [|done].
  apply appendAgentEvents_noskip in Ha. by intros y [= <-].
Qed.
Lemma flushPendingDelta_clean k k' (x x' : L * B) : sinkClean k → flushPendingDelta path k x = (k', x') → sinkClean k'.
Proof. intros Hk. unfold flushPendingDelta. destruct (skPending k); [by apply appendOne_clean|by intros [= <- _]]. Qed.
Lemma sinkRun_clean inputs : ∀ k k' (x x' : L * B), sinkClean k → sinkRun path inputs k x = (k', x') → sinkClean k'.
Proof.
  induction inputs as [|i inputs IH]; intros k k' x x' Hk; cbn [sinkRun]; [destruct (skErr k); by intros [= <- _]|].
  destruct (skErr k) eqn:Hs; [by intros [= <- _]|]. destruct (match i with SinkEvent _ => _ | SinkTick => _ end) as [k1 x1] eqn:He. apply IH.
  destruct i as [ev|]; [|by eapply flushPendingDelta_clean; [|exact He]]. unfold handleEvent in He. destruct (isDelta ev); [by injection He as <- _|].
  destruct (flushPendingDelta path k x) as [k2 x2] eqn:Hf. apply flushPendingDelta_clean in Hf; [|done].
  destruct (skErr k2) eqn:Hs2; [by injection He as <- _|]. by eapply appendOne_clean; [|exact He].
Qed.
Lemma sinkFlush_clean k k' (x x' : L * (W * B)) : sinkClean k → sinkFlush path k x = (k', x') → sinkClean k'.
Proof.
  intros Hk. unfold sinkFlush. destruct (skErr k) eqn:Hs; [by intros [= <- _]|].
  destruct (ahLive x.2.1) as [[inputs oe] w1] eqn:Hl. destruct (sinkRun path inputs k (x.1, x.2.2)) as [k1 [l1 b1]] eqn:Hr.
  apply sinkRun_clean in Hr; [|done]. destruct (skErr k1) eqn:Hs1; [by intros [= <- _]|].
  destruct oe as [e|]; [intros [= <- _]; intros y [= <-]; by eapply HNL|].
  destruct (flushPendingDelta path k1 (l1, b1)) as [k2 [l2 b2]] eqn:Hf. intros [= <- _]. by eapply flushPendingDelta_clean; [|exact Hf].
Qed.
Lemma attempts_clean cx h i po (x : L * (W * (B * Sink))) r x' : sinkClean x.2.2.2 → RunWithRetry (Some (flushWait path)) cx h i po x = (r, x') →
  sinkClean x'.2.2.2 ∧ ∀ e, r.2 = Some e → asSkip e = None.
Proof.
  intros Hk Hr. assert (sinkClean x'.2.2.2 ∧ answered (W := W * (B * Sink)) cx h r.1 ∧ ∀ e, r.2 = Some e → asSkip e = None) as (H1' & _ & H2'); [|done].
  eapply (RunWithRetry_keeps (Some (flushWait path)) cx h i po (λ x, sinkClean x.2.2.2) (λ e, asSkip e = None)); [..|exact Hr|exact Hk]; try done.
  - intros j l [w [b k]] y [w' [b' k']] Hc Hd. cbn in Hd. destruct (wDispatch cx h j w). by injection Hd as _ _ _ <-.
  - intros f [l [w [b k]]] e y [= <-] Hc Hf. unfold flushWait in Hf. destruct (sinkFlush path k (l, (w, b))) as [k' [l' [w' b']]] eqn:Hs.
    injection Hf as <- <-. by apply sinkFlush_clean in Hs.
  - intros n l [w [b k]] e [w' [b' k']] Hc Hd. cbn in Hd. destruct (wSleep cx n w) as [r1 w1] eqn:Hs. injection Hd as <- _ _ <-. split; [done|].
    intros y ->. by eapply ns_sleep.
Qed.

(** *** The errors before the dispatch *)

Definition prepClean (p : prepErr) : Prop := match p with PFail e | PInternal e => asSkip e = None end.
Lemma failPrep_unskipped p (s : St) r s' : prepClean p → failPrep path p s = (r, s') → unskipped r.
Proof. destruct p; cbn; [apply failStep_unskipped|intros He [= <- _]; by apply unskipped_internal]. Qed.
Lemma failing_clean {A} (r : res goError A) p : failing r = Err p → (∀ e, r = Err e → asSkip e = None) → prepClean p.
Proof. intros Hf Hr. apply failing_noskip in Hf as (e & [->| ->] & He); done. Qed.
Lemma failingFile_clean {A} fmt q wrap (r : res fileErr A) p : (∀ e, asSkip (wrap (EFile e)) = None) → failingFile fmt q wrap r = Err p → prepClean p.
Proof. intros Hw Hf. apply failingFile_noskip in Hf as (e & [->| ->] & He); done. Qed.
Lemma wrapped_noskip {A} (f : goError → goError) (r : res goError A) : (∀ e, asSkip (f e) = asSkip e) → (∀ e, r = Err e → asSkip e = None) →
  ∀ e, res_map_err f r = Err e → asSkip e = None.
Proof. intros Hf Hr e. destruct r as [|x]; [done|]. intros [= <-]. rewrite Hf. by apply Hr. Qed.
Lemma substituteRawConfig_noskip R m e : substituteRawConfig R m = Err e → asSkip e = None.
Proof.
  unfold substituteRawConfig. destruct m as [[|kv l]|]; [done| |done]. generalize (kv :: l). clear kv l. intros l Hl.
  assert (Hs : ∀ e, substituteEntries R l = Err e → asSkip e = None).
  { clear. induction l as [|[k v] l IH]; intros e; cbn [substituteEntries]; [done|]. intros [He|(x & _ & [He|(y & _ & [=])]%res_bind_err)]%res_bind_err; [|by apply IH].
    destruct v; try done. destruct (Substitute R _); [done|]. by injection He as <-. }
  destruct (substituteEntries R l); [done|]. injection Hl as <-. by apply Hs.
Qed.

Lemma prepareConfig_clean rs v p : prepareConfig ic rs v path = Err p → prepClean p.
Proof.
  unfold prepareConfig. intros [Hp|(x1 & _ & Hp)]%res_bind_err.
  { eapply failing_clean, wrapped_noskip; [exact Hp|done|]. intros e. apply substituteRawConfig_noskip. }
  apply res_bind_err in Hp as [Hp|(x2 & _ & Hp)].
  { destruct (asIdempotencyKey v); [|done]. eapply failing_clean; [exact Hp|]. intros e. by destruct (Substitute _ _); intros [= <-]. }
  apply res_bind_err in Hp as [Hp|(x3 & _ & Hp)].
  { destruct (Merge _ _); [done|]. by injection Hp as <-. }
  destruct (_ && _); [|done]. by injection Hp as <-.
Qed.

Lemma agentSkills_clean v (s : St) p s' : agentSkills ic v path s = (Err p, s') → prepClean p.
Proof.
  unfold agentSkills. destruct (asSkills v) as [sk|]; [|done]. destruct (selectAgentStepSkills ic sk path s) as [[x|e] s1] eqn:Hs; [done|]. intros [= <- _].
  assert (prepClean e) as He; [|by destruct e]. revert Hs. unfold selectAgentStepSkills, appendSkillsSelected.
  destruct (buildSkillCorpus _ _ _ _ _) as [c|fe]; [|destruct (feFetch fe); by intros [= <- _]].
  destruct (LookupSelectedSkills _ _) as [d|].
  { destruct (negb _); [by intros [= <- _]|]. destruct (validateRecordedSelectedSkills _ _) as [y|]; [|done]. intros [= <- _]. by destruct y. }
  destruct (Substitute _ _) as [q|]; [|by intros [= <- _]]. destruct (Route _ _ _ _) as [|x l]; [by intros [= <- _]|].
  destruct (appendSynced _ _ _ s) as [[y|] s2] eqn:Ha; intros [= <- _]. by eapply appendSynced_noskip.
Qed.

Lemma prepareAgentStep_clean rs (b : B) v with_ key po sk fb turns p : prepareAgentStep ic rs b v path with_ key po sk fb turns = Err p → prepClean p.
Proof.
  unfold prepareAgentStep. intros [Hp|([fs ins] & _ & Hp)]%res_bind_err.
  { revert Hp. unfold agentFiles. destruct (String.eqb _ "").
    - intros [Hp|(y & _ & [=])]%res_bind_err. by eapply failingFile_clean, Hp.
    - intros [Hp|(y & _ & Hp)]%res_bind_err; [by eapply failingFile_clean, Hp|]. apply res_bind_err in Hp as [Hp|(z & _ & Hp)].
      + destruct sk as [[[sk d] c]|]; [|done]. eapply failing_clean; [exact Hp|]. intros e. by destruct (resolveSelectedSkillFiles _ _ _); intros [= <-].
      + apply res_bind_err in Hp as [Hp|(y2 & _ & [=])]. eapply failing_clean; [exact Hp|]. intros e. by destruct (inputFilesFromResolvedEntries _); intros [= <-]. }
  apply res_bind_err in Hp as [Hp|([ofs cs] & _ & Hp)]; [by eapply failingFile_clean, Hp|]. cbv zeta in Hp. destruct (sessionDirs _ _) as [cd sd].
  apply res_bind_err in Hp as [Hp|(rw & _ & [=])]. repeat case_match; try done. eapply failing_clean, wrapped_noskip; [exact Hp|done|]. intros e. apply substituteRawConfig_noskip.
Qed.

Lemma commitAgentStep_unskipped ti v dr (s : St) r s' : commitAgentStep ti v path dr s = (r, s') → unskipped r.
Proof. unfold commitAgentStep. destruct (liftH _ s) as [[nr|e] s1]; intros [= <- _]; auto with skips. Qed.
Lemma dispatchAgentStep_unskipped cx ti v i po (s : St) r s' : dispatchAgentStep ic cx ti v path i po s = (r, s') → unskipped r.
Proof.
  unfold dispatchAgentStep. set (s1 := appendNodeStarted path "agent" s). clearbody s1. clear s.
  destruct (RunWithRetry _ _ _ _ _ _) as [[dr err] [l [w [b k]]]] eqn:HR. apply attempts_clean in HR as [Hk He]; [|done].
  destruct (sinkFlush path k (l, (w, b))) as [k2 [l2 [w2 b2]]] eqn:Hf. apply sinkFlush_clean in Hf; [|done].
  destruct (appendAgentEvents path (drAgentEvents dr) (l2, b2)) as [[ae|] [l3 b3]] eqn:Ha; [apply appendAgentEvents_noskip in Ha|clear Ha];
    (destruct (skErr k2) as [ke|] eqn:Hke; [intros [= <- _]; apply unskipped_internal; exact (Hf ke Hke)|]);
    (destruct err as [e|]; [destruct (String.eqb _ ""); [intros [= <- _]; apply unskipped_internal; exact (He e eq_refl)|apply failStep_unskipped; exact (He e eq_refl)]|]).
  - intros [= <- _]. by apply unskipped_internal.
  - apply commitAgentStep_unskipped.
Qed.

Lemma runAgentStep_unskipped cx v (s : St) r s' : runAgentStep ic cx v path s = Some (r, s') → unskipped r.
Proof.
  unfold runAgentStep. destruct (LookupCompleted (stRS s) path); [intros [= <- _]; auto with skips|].
  destruct (prepareConfig _ _ _ _) as [[[with_ key] po]|e] eqn:Hp; [|apply prepareConfig_clean in Hp; intros [= Hf]; by eapply failPrep_unskipped].
  destruct (agentSkills ic v path s) as [[sk|e] s1] eqn:Hs; [|apply agentSkills_clean in Hs; intros [= Hf]; by eapply failPrep_unskipped].
  destruct (threadIndexes _ _) as [ti rs]. destruct (continuedTurns _ _ _ _ _) as [[turns|e]|]; [|intros [= Hf]; eapply failStep_unskipped, Hf; by destruct e|done].
  destruct (prepareAgentStep _ _ _ _ _ _ _ _ _ _ _) as [[i po']|e] eqn:Ha; [|apply prepareAgentStep_clean in Ha; intros [= Hf]; by eapply failPrep_unskipped].
  intros [= Hd]. by eapply dispatchAgentStep_unskipped.
Qed.

(** ** A step that ended ok is recorded, and not run again *)

Lemma runAgentStep_finished cx v (s : St) s' : runAgentStep ic cx v path s = Some (okResult, s') → is_Some (rsCompleted (stRS s') !! path).
Proof.
  assert (Hfail : ∀ (s0 s' : St) oc e, failStep path oc e s0 ≠ (okResult, s')) by (intros s0 s1 oc e Hf; by apply failStep_not_ok in Hf).
  assert (Hprep : ∀ (s0 s' : St) e, failPrep path e s0 ≠ (okResult, s')) by (intros s0 s1 [e|e]; [apply Hfail|done]).
  unfold runAgentStep. destruct (LookupCompleted (stRS s) path) eqn:Hn; [intros [= <-]; by eexists|].
  destruct (prepareConfig _ _ _ _) as [[[with_ key] po]|e]; [|by intros [= Hf%Hprep]].
  destruct (agentSkills ic v path s) as [[sk|e] s1]; [|by intros [= Hf%Hprep]]. destruct (threadIndexes _ _) as [ti rs].
  destruct (continuedTurns _ _ _ _ _) as [[turns|e]|]; [|by intros [= Hf%Hfail]|done].
  destruct (prepareAgentStep _ _ _ _ _ _ _ _ _ _ _) as [[i po']|e]; [|by intros [= Hf%Hprep]]. intros [= Hd]. revert Hd. unfold dispatchAgentStep.
  destruct (RunWithRetry _ _ _ _ _ _) as [[dr err] [l [w [b k]]]]. destruct (sinkFlush _ _ _) as [k2 [l2 [w2 b2]]].
  destruct (appendAgentEvents _ _ _) as [ae [l3 b3]]. destruct (skErr k2); [done|]. destruct err; [destruct (String.eqb _ ""); [done|by intros Hf%Hfail]|].
  destruct ae; [done|]. unfold commitAgentStep. destruct (liftH _ _) as [[nr|e] s2]; [|done]. intros [= <-]. unfold finalizeLive.
  repeat case_match; cbn; rewrite lookup_insert_eq; by eexists.
Qed.
Lemma runAgentStep_replay cx v (s : St) : is_Some (rsCompleted (stRS s) !! path) → runAgentStep ic cx v path s = Some (okResult, s).
Proof. intros [nr Hn]. unfold runAgentStep, LookupCompleted. by rewrite Hn. Qed.
End results.
