(* ===== verification/ReactWalk.v ===== *)
(** * What a react step does to a run

    Its answers and the results of its tools are committed strictly inside its address, its rounds and its
    own record at it.  So the laws of the walk hold of graphs with react steps. *)

From S2P Require Import Prelude GoNum Sort GoJson GoStruct Signal TmplLexer TmplParser TmplSlots TmplEval RetryPolicy EnginePath GoPath.
From S2P Require Import StateBlobs StateLog EngineEvents Ir RunState EngineFold Journal Agent Commit Scope ScopeLaws Artifacts Containers.
From S2P Require Import RetryLoop Adapters Steps Contracts Exports Runtimes AgentStep React Interp Call InterpLaws InterpFold InterpResume.

(** ** Addresses *)

Lemma round_below path k u : below path (RoundPath path k +:+ u).
Proof. exists ("round-" +:+ Itoa k +:+ u). unfold RoundPath, roundSep. by rewrite <- !sapp_assoc. Qed.
Lemma model_below path k : below path (ModelPath (RoundPath path k)).
Proof. apply round_below. Qed.
Lemma tool_below path k j : below path (ToolPath (RoundPath path k) j).
Proof. apply round_below. Qed.
Lemma below_ne path p : below path p → p ≠ path.
Proof. intros [t ->] Ht. apply (f_equal slen) in Ht. rewrite !slen_app in Ht. cbn [slen] in Ht. lia. Qed.

Section walk.
Context `{Log L} `{Blobs B} `{World W} `{Signals W} `{Externals} `{Adapters W} `{AgentHost W}.
#[local] Notation St := (St L B W).
Variables (sig : bool) (puts : effects) (r : React).

Definition stops : list string := ["stop"; "max_turns"].
(** What the outside gives a react step is among the effects: the leaves of the answers, of the tools, and
    of the end, also when the last answer is read back. *)
Record react_ok : Prop := {
  rk_turns : in_i64 (reMaxTurns r) = true;
  rk_answer run cx inv w x w' : toolLoopRunnerFor r = Ok run → run cx inv w = (Ok x, w') →
    efResults puts (modelLeaf (toModelResult x)) false ∧ ∀ stop, stop ∈ stops → efResults puts (terminalLeaf r (toModelResult x) stop) false;
  rk_recorded nr mr stop : efRecorded puts (nrOutputs nr) → roundResultFromLeaf nr = Ok mr → stop ∈ stops → efResults puts (terminalLeaf r mr stop) false;
  rk_tool cx h i w dr e w' code : wDispatch cx h i w = ((dr, e), w') → drExitCode dr = Some code → efResults puts (toolLeaf code dr) false
}.
Hypothesis Hok : react_ok.

Variable path : string.
#[local] Notation here := (walks (L := L) (B := B) (W := W) sig puts (under path)).
#[local] Notation open s := (LookupCompleted (stRS s) path = None).

Lemma here_at p s s' : under path p → prim sig puts p s s' → here s s'.
Proof. by apply walks_one. Qed.

(** A leaf is committed at its address. *)
Lemma commitLeaf_here what p dr s e s' : under path p → LookupCompleted (stRS s) p = None →
  (recorded puts s → efResults puts dr false) → commitLeaf what p dr s = (e, s') → here s s' ∧ (p ≠ path → open s → open s').
Proof.
  intros Hu Hn Hd. unfold commitLeaf. destruct (liftH _ s) as [x s1] eqn:Hc.
  pose proof (p_commit sig puts p dr false s x s1 Hn (λ Hr _, Hd Hr) Hc) as Hp. apply liftH_state in Hc as (Hc & _).
  destruct x as [nr|y]; intros [= _ <-]; (split; [by apply (here_at p)|]); intros Hne Ho; unfold LookupCompleted in *; cbn; rewrite Hc; [|done].
  by rewrite lookup_insert_ne.
Qed.

(** The attempts of a step without a sink. *)
Lemma attempts_at cx h i po s dr err l w : RunWithRetry None cx h i po (stLog s, stW s) = ((dr, err), (l, w)) →
  walks sig puts (eq (niPath i)) s (setLog l (setW w s)) ∧ answered cx h dr.
Proof.
  intros Hr. pose (st := λ x : L * W, setLog x.1 (setW x.2 s)). pose (Q := λ x : L * W, walks sig puts (eq (niPath i)) s (st x)).
  assert (Q (l, w) ∧ answered cx h (dr, err).1 ∧ ∀ e, (dr, err).2 = Some e → True) as (Hw & Ha & _); [|done].
  assert (Hworld : ∀ l0 w0 w1, Q (l0, w0) → Q (l0, w1)).
  { intros l0 w0 w1 Hq. eapply walks_trans; [exact Hq|]. eapply walks_one; [reflexivity|]. apply (p_world _ _ _ (st (l0, w0)) w1). }
  eapply (RunWithRetry_keeps None cx h i po Q (λ _, True)); [..|exact Hr|]; try done.
  - intros j l0 w0 y w1 Hq _. by eapply Hworld.
  - intros j l0 w0 e l1 Hq Ha. eapply walks_trans; [exact Hq|]. eapply walks_one; [reflexivity|].
    eapply (p_note _ _ _ EventRetryAttempt j (st (l0, w0)) (EEng <$> e)); [done|]. unfold appendTo. cbn [st setLog stLog setW fst]. by rewrite Ha.
  - intros n l0 w0 Hq. by eapply Hworld.
  - intros d l0 w0 e w1 Hq _. split; [by eapply Hworld|done].
  - unfold Q, st. destruct s. apply walks_refl.
Qed.
Lemma answered_tool cx h dr code : answered cx h dr → drExitCode dr = Some code → efResults puts (toolLeaf code dr) false.
Proof. intros [->|(j & w & dr0 & e & w' & Hd & [->|[x ->]])] Hc; [done|by eapply rk_tool|]. by eapply (rk_tool Hok _ _ _ _ dr0). Qed.

Variable ic : Ictx.

Lemma prepareTool_path rs (b : B) tool p tc i po : prepareTool ic rs b tool p tc = Ok (i, po) → niPath i = p.
Proof.
  unfold prepareTool. intros (x1 & _ & Hp)%res_bind_ok. apply res_bind_ok in Hp as (x2 & _ & Hp). apply res_bind_ok in Hp as (x3 & _ & Hp).
  apply res_bind_ok in Hp as (x4 & _ & Hp). apply res_bind_ok in Hp as (x5 & _ & Hp). by injection Hp as <- _.
Qed.

Lemma dispatchOneTool_here cx tool p tc s x s' : below path p → LookupCompleted (stRS s) p = None → open s →
  dispatchOneTool ic cx tool p tc s = (x, s') → here s s' ∧ open s'.
Proof.
  intros Hb Hn Ho. unfold dispatchOneTool. destruct (prepareTool _ _ _ _ _ _) as [[i po]|e] eqn:Hp; [|intros [= _ <-]; split; [apply walks_refl|done]].
  apply prepareTool_path in Hp. destruct (RunWithRetry _ _ _ _ _ _) as [[dr err] [l w]] eqn:HR. apply attempts_at in HR as [Hw Ha].
  assert (Hw' : here s (setLog l (setW w s))) by (eapply walks_mono, Hw; intros q <-; rewrite Hp; by right).
  destruct (drExitCode dr) as [code|] eqn:Hc; [|intros [= _ <-]; by split].
  destruct (commitLeaf _ p _ _) as [e s2] eqn:Hl. apply commitLeaf_here in Hl as [H1' H2']; [|by right|done|intros _; by eapply answered_tool].
  assert (here s s2 ∧ open s2) as Hs2 by (split; [by eapply walks_trans|apply H2'; [by apply below_ne|done]]). destruct e; by intros [= _ <-].
Qed.

Lemma dispatchRoundTools_here cx k calls : ∀ msgs s x s', open s →
  dispatchRoundTools ic cx r (RoundPath path k) calls msgs s = (x, s') → here s s' ∧ open s'.
Proof.
  induction calls as [|tc calls IH]; intros msgs s x s' Ho; cbn [dispatchRoundTools]; [intros [= _ <-]; split; [apply walks_refl|done]|].
  destruct (LookupCompleted (stRS s) (ToolPath _ _)) eqn:Hn; [by apply IH|]. destruct (toolByName _ _ _) as [tool|]; [|by apply IH].
  destruct (dispatchOneTool _ _ _ _ _ s) as [y s1] eqn:Hd. apply dispatchOneTool_here in Hd as [Hw Ho1]; [|apply tool_below|done..].
  destruct y as [c|e]; [|by intros [= _ <-]]. intros Hr. apply IH in Hr as [Hw2 Ho2]; [|done]. split; [by eapply walks_trans|done].
Qed.

Lemma closeRound_here k s e s' : in_i64 k = true → open s → closeRound path k s = (e, s') → here s s' ∧ open s'.
Proof.
  intros Hk Ho. unfold closeRound. destruct (appendSynced _ _ _ s) as [y s1] eqn:Ha. pose proof (p_round sig puts path k s y s1 Hk Ha) as Hp.
  apply appendSynced_state in Ha as (Hrs & _). destruct y as [y|]; intros [= _ <-]; (split; [apply (here_at path); [by left|done]|]);
    unfold LookupCompleted in *; cbn; by rewrite Hrs.
Qed.

(** The answer of a round: then its end can be committed. *)
Lemma modelRound_here cx run k msgs s x s' : toolLoopRunnerFor r = Ok run → open s →
  modelRound ic cx r run path (ModelPath (RoundPath path k)) msgs s = (x, s') →
  here s s' ∧ match x with
              | inl _ => True
              | inr mr => open s' ∧ ∀ stop, stop ∈ stops → recorded puts s' → efResults puts (terminalLeaf r mr stop) false
              end.
Proof.
  intros Hrun Ho. unfold modelRound. destruct (LookupCompleted (stRS s) (ModelPath _)) as [nr|] eqn:Hn.
  - destruct (roundResultFromLeaf nr) as [mr|m] eqn:Hr; intros [= <- <-]; (split; [apply walks_refl|]); [|done]. split; [done|].
    intros stop Hs Hrec. eapply rk_recorded; [done|by eapply Hrec|done|done].
  - destruct (run cx _ _) as [[res|e] w] eqn:He.
    + pose proof (rk_answer Hok _ _ _ _ _ _ Hrun He) as [Hleaf Hterm]. unfold commitModelLeaf.
      destruct (commitLeaf _ _ _ (setW w s)) as [y s1] eqn:Hc.
      assert (Hw : here s (setW w s)) by (apply (here_at path); [by left|apply p_world]).
      apply commitLeaf_here in Hc as [H1' H2']; [|right; apply model_below|done|done].
      destruct y; intros [= <- <-]; (split; [by eapply walks_trans|]); [done|]. split; [apply H2'; [apply below_ne, model_below|done]|]. auto.
    + assert (Hw : here s (setW w s)) by (apply (here_at path); [by left|apply p_world]).
      destruct (aeUnparseable e); [|by intros [= <- <-]]. destruct (failStep _ _ _ _) as [y s1] eqn:Hf. intros [= <- <-]. split; [|done].
      eapply walks_trans; [exact Hw|]. apply (here_at path); [by left|by eapply p_fail].
Qed.

Lemma commitTerminal_here mr stop s x s' : open s → (recorded puts s → efResults puts (terminalLeaf r mr stop) false) →
  commitTerminal r path mr stop s = (x, s') → here s s'.
Proof.
  intros Ho Ht. unfold commitTerminal. destruct (if String.eqb stop "max_turns" then _ else _).
  - intros Hf. apply (here_at path); [by left|by eapply p_fail].
  - destruct (commitLeaf _ path _ s) as [e s1] eqn:Hc. apply commitLeaf_here in Hc as [Hw _]; [|by left|done|done]. destruct e; by intros [= _ <-].
Qed.

Lemma reactRounds_here cx run maxTurns : toolLoopRunnerFor r = Ok run → in_i64 maxTurns = true → ∀ n k msgs s x s', (1 ≤ k)%Z → n = Z.to_nat (maxTurns - k + 1) → open s →
  reactRounds ic cx r run path maxTurns n k msgs s = (x, s') → here s s'.
Proof.
  intros Hrun Hm. induction n as [|n IH]; intros k msgs s x s' Hk Hn Ho; cbn [reactRounds]; [intros [= _ <-]; apply walks_refl|].
  destruct (modelRound _ _ _ _ _ _ _ s) as [y s1] eqn:Hr. apply modelRound_here in Hr as [Hw Hy]; [|done..].
  destruct y as [res|mr]; [by intros [= _ <-]|]. destruct Hy as [Ho1 Ht].
  destruct (negb _); [intros Hc; eapply walks_trans; [exact Hw|]; eapply commitTerminal_here, Hc; [done|apply Ht; by left]|].
  destruct (k =? maxTurns)%Z eqn:Hkm; [intros Hc; eapply walks_trans; [exact Hw|]; eapply commitTerminal_here, Hc; [done|apply Ht; right; by left]|].
  destruct (dispatchRoundTools _ _ _ _ _ _ s1) as [z s2] eqn:Hd. apply dispatchRoundTools_here in Hd as [Hw2 Ho2]; [|done].
  assert (Hw12 : here s s2) by by eapply walks_trans. destruct z as [msgs2|e]; [|by intros [= _ <-]].
  destruct (closeRound path k s2) as [e s3] eqn:Hcl. apply closeRound_here in Hcl as [Hw3 Ho3]; [| |done].
  2: { apply Z.eqb_neq in Hkm. unfold in_i64, two63 in *. lia. }
  assert (Hw13 : here s s3) by by eapply walks_trans. destruct e as [e|]; [by intros [= _ <-]|].
  intros Hr. eapply walks_trans; [exact Hw13|]. eapply IH, Hr; [lia|lia|done].
Qed.

Lemma runReact_walks cx s x s' : runReact ic cx r path s = (x, s') → here s s'.
Proof.
  unfold runReact. destruct (LookupCompleted (stRS s) path) eqn:Hn; [intros [= _ <-]; apply walks_refl|].
  destruct (toolLoopRunnerFor r) as [run|e] eqn:Hrun; [|intros [= _ <-]; apply walks_refl].
  intros Hr. eapply walks_trans; [apply (here_at path); [by left|apply (p_started _ _ path "react")]|]. revert Hr.
  assert (Hrs := appendNodeStarted_rs path "react" s). set (s1 := appendNodeStarted path "react" s) in *. clearbody s1. rewrite <- Hrs in Hn. clear Hrs.
  destruct (Substitute _ _) as [prompt|e]; [|intros Hf; apply (here_at path); [by left|by eapply p_fail]].
  destruct (replayMessages _ _ _ _) as [msgs|e]; [|intros [= _ <-]; apply walks_refl].
  apply reactRounds_here; [done| |lia|done|done]. unfold maxTurnsOf. destruct (reMaxTurns r =? 0)%Z; [done|apply (rk_turns Hok)].
Qed.
End walk.

(** ** The results of a react step *)

Section results.
Context `{Log L} `{Blobs B} `{World W} `{Signals W} `{Externals} `{Adapters W} `{AgentHost W}.
#[local] Notation St := (St L B W).
Variables (ic : Ictx) (r : React) (path : string).
Hypothesis HNS : no_skip_errors (W := W).

Lemma commitLeaf_noskip what p dr (s : St) e s' : commitLeaf what p dr s = (Some e, s') → asSkip e = None.
Proof. unfold commitLeaf. destruct (liftH _ s) as [[nr|y] s1]; [done|]. by intros [= <- _]. Qed.
Lemma mapped_noskip {A X} (f : X → goError) (y : res X A) e : (∀ x, asSkip (f x) = None) → res_map_err f y = Err e → asSkip e = None.
Proof. intros Hf. destruct y; [done|]. intros [= <-]. apply Hf. Qed.
Lemma toolOutputFilePaths_noskip ofs R e : toolOutputFilePaths ofs R = Err e → asSkip e = None.
Proof.
  induction ofs as [|f ofs IH]; cbn [toolOutputFilePaths]; [done|]. intros [He|(p & _ & [He|(ps & _ & [=])]%res_bind_err)]%res_bind_err; [|by apply IH].
  by eapply mapped_noskip, He.
Qed.
Lemma prepareTool_noskip rs (b : B) tool p tc e : prepareTool ic rs b tool p tc = Err e → asSkip e = None.
Proof.
  unfold prepareTool. intros [He|(x1 & _ & He)]%res_bind_err; [by eapply mapped_noskip, He|].
  apply res_bind_err in He as [He|(x2 & _ & He)]; [by eapply mapped_noskip, He|].
  apply res_bind_err in He as [He|(x3 & _ & He)].
  { destruct (toolOutputFilePaths _ _) as [|y] eqn:Hy; [done|]. injection He as <-. by apply toolOutputFilePaths_noskip in Hy. }
  apply res_bind_err in He as [He|(x4 & _ & He)]; [by eapply mapped_noskip, He|].
  apply res_bind_err in He as [He|(x5 & _ & [=])]. by eapply mapped_noskip, He.
Qed.
Lemma dispatchOneTool_noskip cx tool p tc (s : St) e s' : dispatchOneTool ic cx tool p tc s = (Err e, s') → asSkip e = None.
Proof.
  unfold dispatchOneTool. destruct (prepareTool _ _ _ _ _ _) as [[i po]|y] eqn:Hp; [|intros [= <- _]; by eapply prepareTool_noskip].
  destruct (RunWithRetry _ _ _ _ _ _) as [[dr err] [l w]] eqn:HR. destruct (drExitCode dr).
  - destruct (commitLeaf _ _ _ _) as [[y|] s1] eqn:Hc; [|done]. intros [= <- _]. by eapply commitLeaf_noskip.
  - intros [= <- _]. cbn [asSkip]. destruct err as [y|]; [|done]. by eapply RunWithRetry_noskip.
Qed.
Lemma dispatchRoundTools_noskip cx rp calls : ∀ msgs (s : St) e s', dispatchRoundTools ic cx r rp calls msgs s = (Err e, s') → asSkip e = None.
Proof.
  induction calls as [|tc calls IH]; intros msgs s e s'; cbn [dispatchRoundTools]; [done|]. destruct (LookupCompleted _ _); [apply IH|].
  destruct (toolByName _ _ _); [|apply IH]. destruct (dispatchOneTool _ _ _ _ _ s) as [[c|y] s1] eqn:Hd; [apply IH|].
  intros [= <- _]. by eapply dispatchOneTool_noskip.
Qed.
Lemma replayTools_noskip rs rp calls : ∀ msgs e, replayTools rs rp calls msgs = Err e → asSkip e = None.
Proof. induction calls as [|tc calls IH]; intros msgs e; cbn [replayTools]; [done|]. destruct (LookupCompleted _ _); [apply IH|by intros [= <-]]. Qed.
Lemma replayRounds_noskip rs n : ∀ k msgs e, replayRounds rs path n k msgs = Err e → asSkip e = None.
Proof.
  induction n as [|n IH]; intros k msgs e; cbn [replayRounds]; [done|]. destruct (LookupCompleted _ _); [|by intros [= <-]].
  intros [He|(mr & _ & [He|(m & _ & He)]%res_bind_err)]%res_bind_err; [by eapply mapped_noskip, He|by eapply replayTools_noskip|by eapply IH].
Qed.
Lemma commitTerminal_unskipped mr stop (s : St) x s' : commitTerminal r path mr stop s = (x, s') → unskipped x.
Proof.
  unfold commitTerminal. destruct (if String.eqb stop _ then _ else _); [by apply failStep_unskipped|].
  destruct (commitLeaf _ _ _ s) as [[e|] s1] eqn:Hc; intros [= <- _]; auto with skips. apply unskipped_internal. by eapply commitLeaf_noskip.
Qed.
Lemma modelRound_unskipped cx run mp msgs (s : St) x s' : modelRound ic cx r run path mp msgs s = (inl x, s') → unskipped x.
Proof.
  unfold modelRound. destruct (LookupCompleted _ _); [destruct (roundResultFromLeaf _); [done|intros [= <- _]; auto with skips]|].
  destruct (run cx _ _) as [[res|e] w].
  - destruct (commitModelLeaf _ _ _) as [[e|] s1] eqn:Hc; [|done]. intros [= <- _]. apply unskipped_internal. by eapply commitLeaf_noskip.
  - destruct (aeUnparseable e); [|intros [= <- _]; auto with skips]. destruct (failStep _ _ _ _) as [y s1] eqn:Hf. intros [= <- _]. by eapply failStep_unskipped, Hf.
Qed.
Lemma reactRounds_unskipped cx run mx n : ∀ k msgs (s : St) x s', reactRounds ic cx r run path mx n k msgs s = (x, s') → unskipped x.
Proof.
  induction n as [|n IH]; intros k msgs s x s'; cbn [reactRounds]; [intros [= <- _]; auto with skips|].
  destruct (modelRound _ _ _ _ _ _ _ s) as [[y|mr] s1] eqn:Hr; [intros [= <- _]; by eapply modelRound_unskipped|].
  destruct (negb _); [apply commitTerminal_unskipped|]. destruct (k =? mx)%Z; [apply commitTerminal_unskipped|].
  destruct (dispatchRoundTools _ _ _ _ _ _ s1) as [[m|e] s2] eqn:Hd; [|intros [= <- _]; apply unskipped_internal; by eapply dispatchRoundTools_noskip].
  unfold closeRound. destruct (appendSynced _ _ _ s2) as [[e|] s3] eqn:Ha; [|apply IH]. intros [= <- _]. apply unskipped_internal. by apply appendSynced_noskip in Ha.
Qed.
Lemma runReact_unskipped cx (s : St) x s' : runReact ic cx r path s = (x, s') → unskipped x.
Proof.
  unfold runReact. destruct (LookupCompleted _ _); [intros [= <- _]; auto with skips|].
  destruct (toolLoopRunnerFor r) as [run|e] eqn:Hrun.
  2: { intros [= <- _]. apply unskipped_internal. revert Hrun. unfold toolLoopRunnerFor. repeat case_match; try done; by intros [= <-]. }
  destruct (Substitute _ _); [|by apply failStep_unskipped]. destruct (replayMessages _ _ _ _) as [msgs|e] eqn:Hm; [apply reactRounds_unskipped|].
  intros [= <- _]. apply unskipped_internal. by eapply replayRounds_noskip.
Qed.

(** *** A step that ended ok is recorded, and not run again *)

Lemma commitTerminal_finished mr stop (s : St) s' : commitTerminal r path mr stop s = (okResult, s') → is_Some (rsCompleted (stRS s') !! path).
Proof.
  unfold commitTerminal. destruct (if String.eqb stop _ then _ else _); [intros Hf; by apply failStep_not_ok in Hf|].
  unfold commitLeaf. destruct (liftH _ s) as [[nr|e] s1]; [|done]. intros [= <-]. cbn. rewrite lookup_insert_eq. by eexists.
Qed.
Lemma modelRound_not_ok cx run mp msgs (s : St) x s' : modelRound ic cx r run path mp msgs s = (inl x, s') → isOk x = false.
Proof.
  unfold modelRound. destruct (LookupCompleted _ _); [destruct (roundResultFromLeaf _); [done|by intros [= <- _]]|].
  destruct (run cx _ _) as [[res|e] w]; [destruct (commitModelLeaf _ _ _) as [[e|] s1]; [by intros [= <- _]|done]|].
  destruct (aeUnparseable e); [|by intros [= <- _]]. destruct (failStep _ _ _ _) as [y s1] eqn:Hf. intros [= <- _]. by eapply failStep_not_ok.
Qed.
Lemma reactRounds_finished cx run mx n : ∀ k msgs (s : St) s', reactRounds ic cx r run path mx n k msgs s = (okResult, s') → is_Some (rsCompleted (stRS s') !! path).
Proof.
  induction n as [|n IH]; intros k msgs s s'; cbn [reactRounds]; [done|].
  destruct (modelRound _ _ _ _ _ _ _ s) as [[y|mr] s1] eqn:Hr; [intros [= -> _]; by apply modelRound_not_ok in Hr|].
  destruct (negb _); [apply commitTerminal_finished|]. destruct (k =? mx)%Z; [apply commitTerminal_finished|].
  destruct (dispatchRoundTools _ _ _ _ _ _ s1) as [[m|e] s2]; [|done]. destruct (closeRound _ _ s2) as [[e|] s3]; [done|apply IH].
Qed.
Lemma runReact_finished cx (s : St) s' : runReact ic cx r path s = (okResult, s') → is_Some (rsCompleted (stRS s') !! path).
Proof.
  unfold runReact. destruct (LookupCompleted _ _) eqn:Hn; [intros [= <-]; by eexists|]. destruct (toolLoopRunnerFor r); [|done].
  destruct (Substitute _ _); [|intros Hf; by apply failStep_not_ok in Hf]. destruct (replayMessages _ _ _ _); [apply reactRounds_finished|done].
Qed.
Lemma runReact_replay cx (s : St) : is_Some (rsCompleted (stRS s) !! path) → runReact ic cx r path s = (okResult, s).
Proof. intros [nr Hn]. unfold runReact, LookupCompleted. by rewrite Hn. Qed.
End results.
