(* ===== verification/ReactLaws.v ===== *)
(** * What a react step guarantees: its conversation is the one that is read back

    A model is asked with the messages of the rounds before.  A resumed step rebuilds them from the
    committed nodes.  The two agree, message by message, whatever fails in between. *)

From S2P Require Import Prelude GoNum Sort GoJson GoStruct Signal TmplLexer TmplParser TmplSlots TmplEval RetryPolicy EnginePath GoPath.
From S2P Require Import StateBlobs StateLog EngineEvents Ir RunState EngineFold Journal Agent Commit Scope Artifacts Containers.
From S2P Require Import RetryLoop Adapters Steps Contracts Runtimes AgentStep React Interp Call InterpLaws InterpFold ReactWalk.

(** ** Replay *)

Section replay.
Variable path : string.

(** One closed round. *)
Definition replayRound (rs : RunState) (k : Z) (msgs : list ReactTurn) : res goError (list ReactTurn) :=
  replayRounds rs path 1 k msgs.

Lemma replayRounds_S rs n k msgs : replayRounds rs path (S n) k msgs = let? m := replayRound rs k msgs in replayRounds rs path n (k + 1) m.
Proof.
  unfold replayRound. cbn [replayRounds]. destruct (LookupCompleted _ _) as [nr|]; [|done].
  destruct (roundResultFromLeaf nr) as [mr|]; [|done]. cbn [res_map_err res_bind]. by destruct (replayTools _ _ _ _).
Qed.
Lemma replayRounds_snoc rs n : ∀ k msgs, replayRounds rs path (S n) k msgs = let? m := replayRounds rs path n k msgs in replayRound rs (k + Z.of_nat n) m.
Proof.
  induction n as [|n IH]; intros k msgs; [cbn [replayRounds res_bind]; by rewrite Z.add_0_r|].
  rewrite replayRounds_S, (replayRounds_S rs n). destruct (replayRound rs k msgs) as [m|]; [|done]. cbn [res_bind].
  rewrite IH. destruct (replayRounds rs path n (k + 1) m); [|done]. cbn [res_bind]. f_equal. lia.
Qed.
Lemma replayMessages_next rs prompt k : (1 ≤ k)%Z →
  replayMessages rs prompt path (k + 1) = let? m := replayMessages rs prompt path k in replayRound rs k m.
Proof.
  intros Hk. unfold replayMessages. replace (Z.to_nat (k + 1 - 1)) with (S (Z.to_nat (k - 1))) by lia.
  rewrite replayRounds_snoc. by replace (1 + Z.of_nat (Z.to_nat (k - 1)))%Z with k by lia.
Qed.

(** A state that has at least the leaves of another, and says the same of them. *)
Definition echoes (nr nr' : NodeResult) : Prop := ∀ mr, roundResultFromLeaf nr = Ok mr →
  ∃ mr', roundResultFromLeaf nr' = Ok mr' ∧ mrText mr' = mrText mr ∧ mrToolCalls mr' = mrToolCalls mr.
Record retells (rs rs' : RunState) : Prop := {
  rt_model k nr : LookupCompleted rs (ModelPath (RoundPath path k)) = Some nr →
    ∃ nr', LookupCompleted rs' (ModelPath (RoundPath path k)) = Some nr' ∧ echoes nr nr';
  rt_tool k j nr id : LookupCompleted rs (ToolPath (RoundPath path k) j) = Some nr →
    ∃ nr', LookupCompleted rs' (ToolPath (RoundPath path k) j) = Some nr' ∧ toolMessageFromLeaf id nr' = toolMessageFromLeaf id nr
}.

Lemma retells_tools rs rs' k calls : retells rs rs' → ∀ msgs m,
  replayTools rs (RoundPath path k) calls msgs = Ok m → replayTools rs' (RoundPath path k) calls msgs = Ok m.
Proof.
  intros Hr. induction calls as [|tc calls IH]; intros msgs m; cbn [replayTools]; [done|].
  destruct (LookupCompleted rs _) as [nr|] eqn:Hn; [|done]. apply (rt_tool _ _ Hr _ _ _ (tcID tc)) in Hn as (nr' & -> & ->). apply IH.
Qed.
Lemma retells_rounds rs rs' n : retells rs rs' → ∀ k msgs m, replayRounds rs path n k msgs = Ok m → replayRounds rs' path n k msgs = Ok m.
Proof.
  intros Hr. induction n as [|n IH]; intros k msgs m; [done|]. rewrite !replayRounds_S.
  intros (m1 & H1 & H2)%res_bind_ok. enough (replayRound rs' k msgs = Ok m1) as -> by by apply IH. revert H1. unfold replayRound. cbn [replayRounds].
  destruct (LookupCompleted rs _) as [nr|] eqn:Hn; [|done]. apply (rt_model _ _ Hr) in Hn as (nr' & -> & He).
  destruct (roundResultFromLeaf nr) as [mr|] eqn:Hmr; [|done]. destruct (He mr Hmr) as (mr' & -> & Ht & Hc). cbn [res_map_err res_bind].
  unfold buildAssistantTurn. rewrite Ht, Hc. intros (m2 & H1 & H3)%res_bind_ok. by apply (retells_tools _ _ _ _ Hr) in H1 as ->.
Qed.
Lemma retells_replay rs rs' prompt k m : retells rs rs' → replayMessages rs prompt path k = Ok m → replayMessages rs' prompt path k = Ok m.
Proof. intros Hr. by apply retells_rounds. Qed.

(** Commits only add. *)
Lemma retells_grown rs rs' : rsCompleted rs ⊆ rsCompleted rs' → retells rs rs'.
Proof.
  intros Hs. split; [intros k nr Hn|intros k j nr id Hn]; exists nr; (split; [by eapply lookup_weaken|]); [by intros mr Hm; exists mr|done].
Qed.
End replay.

(** ** The conversation of a running step *)

Section live.
Context `{Log L} `{Blobs B} `{World W} `{Signals W} `{Externals} `{Adapters W} `{AgentHost W}.
#[local] Notation St := (St L B W).
Variables (ic : Ictx) (r : React) (path prompt : string).

(** The invocations the model has had. *)
Variable asked : W → list ToolLoopInvocation.
Record observes : Prop := {
  ob_run run cx inv w x w' : toolLoopRunnerFor r = Ok run → run cx inv w = (x, w') → asked w' = asked w ++ [inv];
  ob_dispatch cx h i w x w' : wDispatch cx h i w = (x, w') → asked w' = asked w;
  ob_sleep cx d w e w' : wSleep cx d w = (e, w') → asked w' = asked w;
  ob_notice n w : asked (wNotice n w) = asked w
}.
Hypothesis Hob : observes.

(** What an answer calls when it stops for tools are tools that it was offered. *)
Definition offered (mr : modelResult) : Prop :=
  mrFinishReason mr = "tool_calls" → Forall (λ tc, is_Some (toolByName r (icWf ic) (tcName tc))) (mrToolCalls mr).

(** What is known of the outputs of the leaves. *)
Variables (modelLike toolLike : gomap → Prop).
Hypothesis like_offered : ∀ nr mr, modelLike (nrOutputs nr) → roundResultFromLeaf nr = Ok mr → offered mr.
Hypothesis like_model : ∀ run cx inv w x w', toolLoopRunnerFor r = Ok run → run cx inv w = (Ok x, w') → modelLike (modelLeafOutputs (toModelResult x)).
Hypothesis like_tool : ∀ cx h i w dr e w' code, wDispatch cx h i w = ((dr, e), w') → drExitCode dr = Some code → toolLike (drOutputs (toolLeaf code dr)).

Record leaves (rs : RunState) : Prop := {
  lv_model k nr : LookupCompleted rs (ModelPath (RoundPath path k)) = Some nr → modelLike (nrOutputs nr);
  lv_tool k j nr : LookupCompleted rs (ToolPath (RoundPath path k) j) = Some nr → toolLike (nrOutputs nr)
}.
(** What was recorded at the start. *)
Variable rs0 : RunState.
(** An invocation is one of the conversation: its messages are the replay of the rounds before its own, and
    its answer was not recorded before. *)
Definition conversed (rs : RunState) (inv : ToolLoopInvocation) : Prop :=
  ∃ k, (1 ≤ k)%Z ∧ liNodePath inv = ModelPath (RoundPath path k) ∧ LookupCompleted rs0 (liNodePath inv) = None ∧
    replayMessages rs prompt path k = Ok (liMessages inv).
Definition since (rs rs' : RunState) : Prop := ∀ p, LookupCompleted rs' p = None → LookupCompleted rs p = None.
Record telling (pre : list ToolLoopInvocation) (s : St) : Prop := {
  tl_leaves : leaves (stRS s);
  tl_since : since rs0 (stRS s);
  tl_asked : ∃ new, asked (stW s) = pre ++ new ∧ Forall (conversed (stRS s)) new
}.
#[local] Notation grown s s' := (rsCompleted (stRS s) ⊆ rsCompleted (stRS s')).

Lemma telling_retold pre s s' : telling pre s → retells path (stRS s) (stRS s') → since (stRS s) (stRS s') → leaves (stRS s') →
  asked (stW s') = asked (stW s) → telling pre s'.
Proof.
  intros [_ H0' (new & Ha & Hf)] Hg Hi Hl Hs. split; [done|intros p Hp; by apply H0', Hi|]. exists new. rewrite Hs. split; [done|]. eapply Forall_impl; [exact Hf|].
  intros inv (k & Hk & Hp & Hn & Hr). exists k. split; [done|]. split; [done|]. split; [done|]. by eapply retells_replay.
Qed.
Lemma since_grown rs rs' : rsCompleted rs ⊆ rsCompleted rs' → since rs rs'.
Proof. intros Hs p Hp. by eapply lookup_weaken_None. Qed.
Lemma telling_grown pre s s' : telling pre s → grown s s' → leaves (stRS s') → asked (stW s') = asked (stW s) → telling pre s'.
Proof. intros Ht Hg. apply telling_retold; [done|by apply retells_grown|by apply since_grown]. Qed.
Lemma telling_same pre s s' : telling pre s → stRS s' = stRS s → asked (stW s') = asked (stW s) → telling pre s'.
Proof. intros Ht Hr Ha. eapply telling_grown; [done|by rewrite Hr| |done]. rewrite Hr. by destruct Ht. Qed.
Lemma grown_open p nr rs : LookupCompleted rs p = None → rsCompleted rs ⊆ rsCompleted (RecordCompleted p nr rs).
Proof. intros Hn. by apply insert_subseteq. Qed.

(** *** A leaf *)

Definition leafOf (o : gomap) : NodeResult := MkNodeResult "" None o "" "" "" ∅ zeroTurn "" "".
Lemma commitLeaf_tells what p dr pre s e s' : LookupCompleted (stRS s) p = None →
  leaves (RecordCompleted p (leafOf (drOutputs dr)) (stRS s)) →
  telling pre s → commitLeaf what p dr s = (e, s') →
  telling pre s' ∧ grown s s' ∧ (e = None → ∃ nr, LookupCompleted (stRS s') p = Some nr ∧ nrOutputs nr = drOutputs dr).
Proof.
  intros Hn Hl Ht. unfold commitLeaf. destruct (liftH _ s) as [x s1] eqn:Hc.
  assert (Ho : ∀ nr, x = Ok nr → nrOutputs nr = drOutputs dr).
  { intros nr ->. unfold liftH in Hc. destruct (Commit _ _ _ _ _) as [y [l b]] eqn:HC. injection Hc as -> <-. by eapply Commit_outputs. }
  apply liftH_state in Hc as [Hrs Hw]. destruct x as [nr|y]; intros [= <- <-].
  2: { split; [eapply telling_same; [done..|by rewrite Hw]|]. by rewrite Hrs. }
  specialize (Ho nr eq_refl). assert (Hg : grown s (setRS (RecordCompleted p nr (stRS s1)) s1)) by (cbn [stRS setRS]; rewrite Hrs; by apply grown_open).
  split; [|split; [done|]].
  - eapply telling_grown; [done..| |by cbn; rewrite Hw]. cbn [stRS setRS]. rewrite Hrs. destruct Hl as [Hm Htl]. unfold LookupCompleted, RecordCompleted in *. cbn in *.
    split; [intros k nr' Hk|intros k j nr' Hk]; unfold LookupCompleted in Hk; cbn in Hk.
    + destruct (decide (p = ModelPath (RoundPath path k))) as [->|Hne].
      * rewrite lookup_insert_eq in Hk. injection Hk as <-. rewrite Ho. apply (Hm k (leafOf (drOutputs dr))), lookup_insert_eq.
      * rewrite lookup_insert_ne in Hk by done. apply (Hm k). by rewrite lookup_insert_ne.
    + destruct (decide (p = ToolPath (RoundPath path k) j)) as [->|Hne].
      * rewrite lookup_insert_eq in Hk. injection Hk as <-. rewrite Ho. apply (Htl k j (leafOf (drOutputs dr))), lookup_insert_eq.
      * rewrite lookup_insert_ne in Hk by done. apply (Htl k j). by rewrite lookup_insert_ne.
  - intros _. exists nr. split; [|done]. unfold LookupCompleted. cbn. by rewrite lookup_insert_eq.
Qed.

(** Where a leaf goes. *)
Lemma model_not_tool k k' j : ModelPath (RoundPath path k) ≠ ToolPath (RoundPath path k') j.
Proof. intros E. by apply (address_injective (RoundPath path k) SModel (RoundPath path k') (STool j)) in E as [_ [=]]. Qed.
Lemma model_round k k' : ModelPath (RoundPath path k) = ModelPath (RoundPath path k') → k = k'.
Proof.
  intros E. apply (address_injective (RoundPath path k) SModel (RoundPath path k') SModel) in E as [E _].
  by apply (address_injective path (SRound k) path (SRound k')) in E as [_ [= ->]].
Qed.
Lemma tool_round k j k' j' : ToolPath (RoundPath path k) j = ToolPath (RoundPath path k') j' → k = k' ∧ j = j'.
Proof.
  intros E. apply (address_injective (RoundPath path k) (STool j) (RoundPath path k') (STool j')) in E as [E [= ->]].
  by apply (address_injective path (SRound k) path (SRound k')) in E as [_ [= ->]].
Qed.
Lemma recorded_other p q nr nr' rs : LookupCompleted (RecordCompleted p nr rs) q = Some nr' → p ≠ q → LookupCompleted rs q = Some nr'.
Proof. unfold LookupCompleted, RecordCompleted. cbn. intros Hk Hne. by rewrite lookup_insert_ne in Hk. Qed.
Lemma recorded_here p nr nr' rs : LookupCompleted (RecordCompleted p nr rs) p = Some nr' → nr' = nr.
Proof. unfold LookupCompleted, RecordCompleted. cbn. rewrite lookup_insert_eq. by intros [= ->]. Qed.

Lemma leaves_model k o rs : leaves rs → modelLike o → leaves (RecordCompleted (ModelPath (RoundPath path k)) (leafOf o) rs).
Proof.
  intros [Hm Ht] Ho. split.
  - intros k' nr Hk. destruct (decide (k = k')) as [<-|Hne]; [by apply recorded_here in Hk as ->|].
    apply (Hm k'). apply recorded_other in Hk; [done|by intros E%model_round].
  - intros k' j nr Hk. apply (Ht k' j). apply recorded_other in Hk; [done|apply model_not_tool].
Qed.
Lemma leaves_tool k j o rs : leaves rs → toolLike o → leaves (RecordCompleted (ToolPath (RoundPath path k) j) (leafOf o) rs).
Proof.
  intros [Hm Ht] Ho. split.
  - intros k' nr Hk. apply (Hm k'). apply recorded_other in Hk; [done|by intros E%eq_sym%model_not_tool].
  - intros k' j' nr Hk. destruct (decide (k = k' ∧ j = j')) as [[<- <-]|Hne]; [by apply recorded_here in Hk as ->|].
    apply (Ht k' j'). apply recorded_other in Hk; [done|by intros E%tool_round].
Qed.
Lemma leaves_end nr rs : leaves rs → leaves (RecordCompleted path nr rs).
Proof.
  intros [Hm Ht]. split.
  - intros k nr' Hk. apply (Hm k). apply recorded_other in Hk; [done|]. apply not_eq_sym, below_ne, model_below.
  - intros k j nr' Hk. apply (Ht k j). apply recorded_other in Hk; [done|]. apply not_eq_sym, below_ne, tool_below.
Qed.
Lemma retells_end nr rs : retells path rs (RecordCompleted path nr rs).
Proof.
  unfold LookupCompleted. split; [intros k nr' Hn|intros k j nr' id Hn]; exists nr'; unfold LookupCompleted in *; cbn;
    (split; [rewrite lookup_insert_ne; [done|]; apply not_eq_sym, below_ne; first [apply model_below|apply tool_below]|]); [by intros mr Hm; exists mr|done].
Qed.

Lemma since_end nr rs : since rs (RecordCompleted path nr rs).
Proof. intros p. unfold LookupCompleted, RecordCompleted. cbn. by intros [Hp _]%lookup_insert_None. Qed.

(** *** The tools of a round *)

Lemma attempts_asked cx h i po (s : St) dr err l w : RunWithRetry None cx h i po (stLog s, stW s) = ((dr, err), (l, w)) →
  asked w = asked (stW s) ∧ answered cx h dr.
Proof.
  intros Hr. pose (Q := λ x : L * W, asked x.2 = asked (stW s)).
  assert (Q (l, w) ∧ answered cx h (dr, err).1 ∧ ∀ e, (dr, err).2 = Some e → True) as (Hw & Ha & _); [|done].
  eapply (RunWithRetry_keeps None cx h i po Q (λ _, True)); [..|exact Hr|]; try done.
  - intros j l0 w0 y w1 Hq Hd. unfold Q in *. cbn [snd] in *. by rewrite (ob_dispatch Hob _ _ _ _ _ _ Hd).
  - intros n l0 w0 Hq. unfold Q in *. cbn [snd] in *. by rewrite (ob_notice Hob).
  - intros d l0 w0 e w1 Hq Hd. unfold Q in *. cbn [snd] in *. split; [by rewrite (ob_sleep Hob _ _ _ _ _ Hd)|done].
Qed.
Lemma answered_like cx h dr code : answered cx h dr → drExitCode dr = Some code → toolLike (drOutputs (toolLeaf code dr)).
Proof. intros [->|(j & w & dr0 & e & w' & Hd & [->|[x ->]])] Hc; [done|by eapply like_tool|]. by eapply (like_tool _ _ _ _ dr0). Qed.

Lemma dispatchOneTool_tells cx tool k j tc pre s x s' : LookupCompleted (stRS s) (ToolPath (RoundPath path k) j) = None → telling pre s →
  dispatchOneTool ic cx tool (ToolPath (RoundPath path k) j) tc s = (x, s') →
  telling pre s' ∧ grown s s' ∧ ∀ c, x = Ok c → ∃ nr, LookupCompleted (stRS s') (ToolPath (RoundPath path k) j) = Some nr ∧ ∀ id, toolMessageFromLeaf id nr = toolTurn id c.
Proof.
  intros Hn Ht. unfold dispatchOneTool. destruct (prepareTool _ _ _ _ _ _) as [[i po]|e]; [|by intros [= <- <-]].
  destruct (RunWithRetry _ _ _ _ _ _) as [[dr err] [l w]] eqn:HR. apply attempts_asked in HR as [Hw Ha].
  assert (Ht' : telling pre (setLog l (setW w s))) by by eapply telling_same.
  destruct (drExitCode dr) as [code|] eqn:Hc; [|by intros [= <- <-]].
  destruct (commitLeaf _ _ _ _) as [e s2] eqn:Hl. apply (commitLeaf_tells _ _ _ pre) in Hl as (Ht2 & Hg & Hout); [|done| |done].
  2: { apply leaves_tool; [by destruct Ht'|by eapply answered_like]. }
  destruct e as [e|]; intros [= <- <-]; (split; [done|]; split; [done|]); [done|]. intros c [= <-]. destruct (Hout eq_refl) as (nr & Hnr & Ho).
  exists nr. split; [done|]. intros id. unfold toolMessageFromLeaf. by rewrite Ho.
Qed.

Lemma dispatchRoundTools_tells cx k calls pre : Forall (λ tc, is_Some (toolByName r (icWf ic) (tcName tc))) calls → ∀ msgs s x s', telling pre s →
  dispatchRoundTools ic cx r (RoundPath path k) calls msgs s = (x, s') →
  telling pre s' ∧ grown s s' ∧ ∀ m, x = Ok m → replayTools (stRS s') (RoundPath path k) calls msgs = Ok m.
Proof.
  induction 1 as [|tc calls [tool Htool] _ IH]; intros msgs s x s' Ht; cbn [dispatchRoundTools replayTools].
  { intros [= <- <-]. split; [done|]. split; [done|]. by intros m [= <-]. }
  assert (Hrec : ∀ nr (s1 : St) (y : res goError (list ReactTurn)), LookupCompleted (stRS s1) (ToolPath (RoundPath path k) (tcIndex tc)) = Some nr → rsCompleted (stRS s1) ⊆ rsCompleted (stRS s') →
    (∀ m, y = Ok m → replayTools (stRS s') (RoundPath path k) calls (msgs ++ [toolMessageFromLeaf (tcID tc) nr]) = Ok m) →
    ∀ m, y = Ok m → match LookupCompleted (stRS s') (ToolPath (RoundPath path k) (tcIndex tc)) with
      | None => Err (EErrf "engine.runReact: replay missing committed tool leaf at %q" [ToolPath (RoundPath path k) (tcIndex tc)])
      | Some nr => replayTools (stRS s') (RoundPath path k) calls (msgs ++ [toolMessageFromLeaf (tcID tc) nr])
      end = Ok m).
  { intros nr s1 y Hn Hs Hy m Hm. unfold LookupCompleted in *. by rewrite (lookup_weaken _ _ _ _ Hn Hs), (Hy m Hm). }
  destruct (LookupCompleted (stRS s) _) as [nr|] eqn:Hn.
  - intros Hr. apply IH in Hr as (Ht' & Hg & Hm); [|done]. split; [done|]. split; [done|]. by eapply Hrec.
  - rewrite Htool. destruct (dispatchOneTool _ _ _ _ _ s) as [[c|e] s1] eqn:Hd; (apply (dispatchOneTool_tells _ _ _ _ _ pre) in Hd as (Ht1 & Hg1 & Hout); [|done..]).
    + destruct (Hout c eq_refl) as (nr & Hnr & Hc). intros Hr. apply IH in Hr as (Ht' & Hg & Hm); [|done]. split; [done|].
      split; [by etrans|]. eapply Hrec; [done|done|]. by rewrite Hc.
    + intros [= <- <-]. split; [done|]. by split.
Qed.

(** *** The rounds *)

Lemma readCalls_outputs l : readCalls (map callOutputs l) = Ok l.
Proof. induction l as [|[i id name args] l IH]; [done|]. cbn [map readCalls callOutputs]. by rewrite IH. Qed.

Lemma modelRound_tells cx run k msgs pre s x s' : toolLoopRunnerFor r = Ok run → (1 ≤ k)%Z → replayMessages (stRS s) prompt path k = Ok msgs → telling pre s →
  modelRound ic cx r run path (ModelPath (RoundPath path k)) msgs s = (x, s') →
  telling pre s' ∧ grown s s' ∧ ∀ mr, x = inr mr → ∃ nr mr', LookupCompleted (stRS s') (ModelPath (RoundPath path k)) = Some nr ∧ roundResultFromLeaf nr = Ok mr' ∧
    mrText mr' = mrText mr ∧ mrToolCalls mr' = mrToolCalls mr ∧ offered mr.
Proof.
  intros Hrun Hk Hm Ht. unfold modelRound. destruct (LookupCompleted (stRS s) _) as [nr|] eqn:Hn.
  { destruct (roundResultFromLeaf nr) as [mr|m] eqn:Hr; intros [= <- <-]; (split; [done|]; split; [done|]); [|done].
    intros mr0 [= <-]. exists nr, mr. split; [done|]. split; [done|]. split; [done|]. split; [done|]. eapply like_offered; [|done]. by eapply lv_model; [destruct Ht|]. }
  destruct (run cx _ _) as [y w] eqn:He. pose proof (ob_run Hob _ _ _ _ _ _ Hrun He) as Hw.
  assert (Ht' : telling pre (setW w s)).
  { destruct Ht as [Hl Hi (new & Ha & Hf)]. split; [done|done|]. exists (new ++ [buildToolLoopInvocation r (icWf ic) (ModelPath (RoundPath path k)) msgs]).
    split; [cbn [stW setW]; by rewrite Hw, Ha, app_assoc|]. apply Forall_app. split; [done|]. apply Forall_singleton. exists k. split; [done|]. split; [done|]. split; [by apply Hi|done]. }
  destruct y as [res|e].
  - destruct (commitModelLeaf _ _ _) as [e s1] eqn:Hc. unfold commitModelLeaf in Hc. pose proof (like_model _ _ _ _ _ _ Hrun He) as Hlike.
    apply (commitLeaf_tells _ _ _ pre) in Hc as (Ht1 & Hg & Hout); [|done| |done]; [|apply leaves_model; [by destruct Ht'|done]].
    destruct e as [e|]; intros [= <- <-]; (split; [done|]; split; [done|]); [done|]. intros mr [= <-].
    destruct (Hout eq_refl) as (nr & Hnr & Ho). exists nr.
    assert (Hread : ∃ mr', roundResultFromLeaf nr = Ok mr' ∧ mrText mr' = mrText (toModelResult res) ∧ mrToolCalls mr' = mrToolCalls (toModelResult res) ∧
      mrFinishReason mr' = mrFinishReason (toModelResult res)).
    { unfold roundResultFromLeaf. rewrite Ho. cbn. rewrite readCalls_outputs. by eexists. }
    destruct Hread as (mr' & Hr & Htx & Hcl & Hfr). exists mr'. split; [done|]. split; [done|]. split; [done|]. split; [done|].
    intros Hf. rewrite <- Hcl. assert (Hnl : modelLike (nrOutputs nr)) by by rewrite Ho. apply (like_offered _ _ Hnl Hr). by rewrite Hfr.
  - destruct (aeUnparseable e); [|by intros [= <- <-]]. destruct (failStep _ _ _ _) as [z s1] eqn:Hf. intros [= <- <-].
    apply failStep_state in Hf as (Hrs & _ & Hws). split; [eapply (telling_same _ (setW w s)); [done..|by rewrite Hws]|]. split; [by rewrite Hrs|done].
Qed.

Lemma commitTerminal_tells mr stop pre s x s' : telling pre s → commitTerminal r path mr stop s = (x, s') → telling pre s'.
Proof.
  intros Ht. unfold commitTerminal. destruct (if String.eqb stop "max_turns" then _ else _).
  - intros (Hrs & _ & Hws)%failStep_state. eapply telling_same; [done..|by rewrite Hws].
  - unfold commitLeaf. destruct (liftH _ s) as [[nr|e] s1] eqn:Hc; apply liftH_state in Hc as [Hrs Hw]; intros [= _ <-].
    + eapply telling_retold; [done|..]; cbn [stRS setRS stW]; rewrite ?Hrs; [apply retells_end|apply since_end|apply leaves_end; by destruct Ht|by rewrite Hw].
    + eapply telling_same; [done..|by rewrite Hw].
Qed.
Lemma closeRound_tells k pre s e s' : telling pre s → closeRound path k s = (e, s') → telling pre s' ∧ rsCompleted (stRS s') = rsCompleted (stRS s).
Proof.
  intros Ht. unfold closeRound. destruct (appendSynced _ _ _ s) as [y s1] eqn:Ha. apply appendSynced_state in Ha as (Hrs & _ & Hws).
  destruct y; intros [= _ <-]; (split; [|cbn; by rewrite Hrs]).
  - eapply telling_same; [done..|by rewrite Hws].
  - eapply telling_grown; [done|cbn; by rewrite Hrs| |cbn; by rewrite Hws]. cbn [stRS setRS]. rewrite Hrs. destruct Ht as [[Hm Htl] _ _]. by split.
Qed.

Lemma reactRounds_tells cx run mx pre n : toolLoopRunnerFor r = Ok run → ∀ k msgs s x s', (1 ≤ k)%Z → replayMessages (stRS s) prompt path k = Ok msgs → telling pre s →
  reactRounds ic cx r run path mx n k msgs s = (x, s') → telling pre s'.
Proof.
  intros Hrun. induction n as [|n IH]; intros k msgs s x s' Hk Hm Ht; cbn [reactRounds]; [by intros [= _ <-]|].
  destruct (modelRound _ _ _ _ _ _ _ s) as [[y|mr] s1] eqn:Hr; apply (modelRound_tells _ _ _ _ pre) in Hr as (Ht1 & Hg1 & Hout); try done; [by intros [= _ <-]|].
  destruct (Hout mr eq_refl) as (nr & mr' & Hnr & Hread & Htx & Hcl & Hoff). clear Hout.
  destruct (negb _) eqn:Hfin; [by apply commitTerminal_tells|]. destruct (k =? mx)%Z; [by apply commitTerminal_tells|].
  apply negb_false_iff, String.eqb_eq in Hfin. destruct (dispatchRoundTools _ _ _ _ _ _ s1) as [z s2] eqn:Hd.
  apply (dispatchRoundTools_tells _ _ _ pre) in Hd as (Ht2 & Hg2 & Hrep); [|by apply Hoff|done].
  destruct z as [m|e]; [|by intros [= _ <-]]. specialize (Hrep m eq_refl).
  destruct (closeRound path k s2) as [e s3] eqn:Hcl3. apply (closeRound_tells _ pre) in Hcl3 as [Ht3 Hrs3]; [|done]. destruct e as [e|]; [by intros [= _ <-]|].
  apply IH; [lia| |done]. rewrite replayMessages_next by done.
  assert (Hg3 : rsCompleted (stRS s) ⊆ rsCompleted (stRS s3)) by (rewrite Hrs3; by etrans).
  rewrite (retells_replay path _ _ _ _ _ (retells_grown path _ _ Hg3) Hm). cbn [res_bind]. unfold replayRound. cbn [replayRounds].
  assert (Hnr3 : LookupCompleted (stRS s3) (ModelPath (RoundPath path k)) = Some nr) by (unfold LookupCompleted in *; rewrite Hrs3; by eapply lookup_weaken).
  rewrite Hnr3, Hread. cbn [res_map_err res_bind]. unfold buildAssistantTurn in *. rewrite Htx, Hcl.
  assert (Hr3 : retells path (stRS s2) (stRS s3)) by (apply retells_grown; by rewrite Hrs3).
  by rewrite (retells_tools path _ _ _ _ Hr3 _ _ Hrep).
Qed.

Lemma appendNodeStarted_world kind (s : St) : stW (appendNodeStarted path kind s) = stW s.
Proof. unfold appendNodeStarted. destruct (appendTo _ _ _ s) as [e s1] eqn:Ha. by apply appendTo_state in Ha as (_ & _ & ?). Qed.

Lemma runReact_tells cx pre s x s' : Substitute (Resolve (scopeAt ic (stRS s) path)) (rePrompt r) = Ok prompt → telling pre s →
  runReact ic cx r path s = (x, s') → telling pre s'.
Proof.
  intros Hp Ht. unfold runReact. destruct (LookupCompleted (stRS s) path); [by intros [= _ <-]|].
  case_eq (toolLoopRunnerFor r); [intros run Hrun|by intros e _ [= _ <-]].
  assert (Ht1 : telling pre (appendNodeStarted path "react" s)) by (eapply telling_same; [done|apply appendNodeStarted_rs|by rewrite appendNodeStarted_world]).
  rewrite !appendNodeStarted_rs, Hp. destruct (replayMessages _ _ _ _) as [msgs|e] eqn:Hm; [|by intros [= _ <-]].
  apply reactRounds_tells; [done|lia|by rewrite appendNodeStarted_rs|done].
Qed.
(** A prompt that cannot be built asks nothing. *)
Lemma runReact_silent cx s x s' e : Substitute (Resolve (scopeAt ic (stRS s) path)) (rePrompt r) = Err e →
  runReact ic cx r path s = (x, s') → asked (stW s') = asked (stW s) ∧ stRS s' = stRS s.
Proof.
  intros Hp. unfold runReact. destruct (LookupCompleted (stRS s) path); [by intros [= _ <-]|].
  case_eq (toolLoopRunnerFor r); [intros run _|by intros x0 _ [= _ <-]]. rewrite !appendNodeStarted_rs, Hp.
  intros (Hrs & _ & Hw)%failStep_state. by rewrite Hrs, Hw, appendNodeStarted_rs, appendNodeStarted_world.
Qed.
End live.

(** ** What is read back of a leaf *)

(** Integers the size of a call's index survive the float64 of their JSON. *)
Lemma index_reads i : (0 ≤ i < 128)%Z → ∃ f, ParseFloat (Itoa i) = Some f ∧ jsonInt (Some (VFloat f)) = i.
Proof.
  intros Hi. assert (Hall : forallb (λ n, match ParseFloat (Itoa (Z.of_nat n)) with Some f => (f64_trunc f =? Z.of_nat n)%Z | None => false end) (seq 0 128) = true)
    by (vm_compute; reflexivity).
  rewrite forallb_forall in Hall. specialize (Hall (Z.to_nat i)). rewrite Z2Nat.id in Hall by lia. destruct (ParseFloat (Itoa i)) as [f|].
  - exists f. split; [done|]. apply Z.eqb_eq, Hall, in_seq. lia.
  - discriminate Hall. apply in_seq. lia.
Qed.

(** An answer whose text is UTF-8, whose calls are numbered from 0, with numbers in its output that are JSON. *)
Definition spokenCall (tc : ToolCall) : Prop :=
  (0 ≤ tcIndex tc < 128)%Z ∧ utf8_valid (tcID tc) && utf8_valid (tcName tc) && utf8_valid (tcArguments tc) = true.
Definition spoken (mr : modelResult) : Prop :=
  utf8_valid (mrText mr) && utf8_valid (mrFinishReason mr) = true ∧ Forall spokenCall (mrToolCalls mr) ∧
  ∀ o j, mrOutput mr = Some o → to_json (VMap o) = Some j → json_numeric j = true.

Definition callJson (tc : ToolCall) : json :=
  JObj [("arguments", JStr (tcArguments tc)); ("id", JStr (tcID tc)); ("index", JNum (Itoa (tcIndex tc))); ("name", JStr (tcName tc))].
Lemma call_to_json tc : to_json (callOutputs tc) = Some (callJson tc).
Proof. reflexivity. Qed.
Lemma calls_to_json l : to_json (VSlice (map callOutputs l)) = Some (JArr (map callJson l)).
Proof.
  cbn [to_json]. match goal with |- JArr <$> ?g _ = _ => enough (E : g (map callOutputs l) = Some (map callJson l)) by by rewrite E end.
  induction l as [|tc l IH]; [done|]. cbn [map]. by rewrite call_to_json, IH.
Qed.
Lemma numeric_Itoa z : json_numeric (JNum (Itoa z)) = true.
Proof. exact (json_wf_Itoa z). Qed.
Lemma calls_numeric l : forallb json_numeric (map callJson l) = true.
Proof. induction l as [|tc l IH]; [done|]. cbn [map forallb callJson json_numeric snd]. rewrite IH. pose proof (numeric_Itoa (tcIndex tc)) as E. cbn [json_numeric] in E. by rewrite E. Qed.
(** The calls, read back. *)
Lemma calls_read l vs : Forall spokenCall l → Unmarshal_any (JArr (map json_mend (map callJson l))) = Some (VSlice vs) → readCalls vs = Ok l.
Proof.
  cbn [Unmarshal_any]. match goal with |- _ → VSlice <$> ?g _ = _ → _ =>
    enough (E : ∀ us, Forall spokenCall l → g (map json_mend (map callJson l)) = Some us → readCalls us = Ok l) end.
  { intros Hl. destruct (_ (map json_mend _)) as [us|] eqn:Hu; [|done]. intros [= <-]. by apply E. }
  induction l as [|[i id name args] l IH]; intros us; [intros _ [= <-]; done|].
  intros [[Hi Hu] Hl]%Forall_cons. cbn [tcIndex tcID tcName tcArguments] in *. apply andb_prop in Hu as [[Hd Hn]%andb_prop Ha].
  destruct (index_reads i Hi) as (f & Hf & Hj). cbn [map callJson json_mend prod_map fst snd tcIndex tcID tcName tcArguments].
  rewrite (mend_valid id), (mend_valid name), (mend_valid args) by done. cbn [Unmarshal_any]. rewrite Hf. cbn [fmap option_fmap option_map mbind option_bind].
  destruct (_ (map json_mend (map callJson l))) as [us'|] eqn:Hu'; [|done]. intros [= <-]. cbn [readCalls]. rewrite (IH us') by done.
  cbn [res_bind]. f_equal. f_equal. change (MkToolCall (jsonInt (Some (VFloat f))) id name args = MkToolCall i id name args). by rewrite Hj.
Qed.

Lemma calls_reread l : Forall spokenCall l → ∀ v, Unmarshal_any (json_mend (JArr (map callJson l))) = Some v → ∃ cs, v = VSlice cs ∧ readCalls cs = Ok l.
Proof.
  intros Hl v Hv. cbn [json_mend] in Hv. assert (∃ cs, v = VSlice cs) as [cs ->].
  { revert Hv. generalize (map json_mend (map callJson l)). intros us. cbn [Unmarshal_any]. destruct (_ us); [|done]. intros [= <-]. by eexists. }
  exists cs. split; [done|]. by apply calls_read.
Qed.
Fixpoint members_json (l : list (string * value)) : option (list (string * json)) :=
  match l with [] => Some [] | (k, x) :: l => j ← to_json x; js ← members_json l; Some ((k, j) :: js) end.
Lemma map_to_json l : to_json (VMap l) = (λ js, JObj (key_sort js)) <$> members_json l.
Proof. reflexivity. Qed.
Fixpoint members_read (acc : list (string * value)) (l : list (string * json)) : option (list (string * value)) :=
  match l with [] => Some acc | (k, x) :: l => v ← Unmarshal_any x; members_read (entry_set k v acc) l end.
Lemma map_read l : Unmarshal_any (JObj l) = VMap <$> members_read [] l.
Proof. reflexivity. Qed.

(** A map of which the JSON is known, read back. *)
Lemma reread_map l js o' : members_json l = Some js → json_numeric (JObj (key_sort js)) = true → reread (Some l) = Some o' →
  ∃ m, o' = Some m ∧ members_read [] (map (prod_map mend json_mend) (key_sort js)) = Some m.
Proof.
  intros Hl Hn. unfold reread, marshalCanonicalJSON, Marshal. rewrite map_to_json, Hl. cbn [fmap option_fmap option_map mbind option_bind].
  unfold unmarshalMap. rewrite json_parse_mended by done. cbn [mbind option_bind json_mend]. rewrite map_read.
  destruct (members_read _ _) as [m|]; [|done]. intros [= <-]. by exists m.
Qed.

Lemma sorted_leaf (t f c o : json) : key_sort [("text", t); ("finish_reason", f); ("tool_calls", c); ("output", o)] = [("finish_reason", f); ("output", o); ("text", t); ("tool_calls", c)].
Proof. reflexivity. Qed.
Lemma sorted_leaf' (t f c : json) : key_sort [("text", t); ("finish_reason", f); ("tool_calls", c)] = [("finish_reason", f); ("text", t); ("tool_calls", c)].
Proof. reflexivity. Qed.

(** A leaf of an answer says the same when it is read back. *)
Lemma model_echoes mr o' : spoken mr → reread (modelLeafOutputs mr) = Some o' → echoes (leafOf (modelLeafOutputs mr)) (leafOf o').
Proof.
  intros (Hu & Hcalls & Hout) Hr mr0. cbn. rewrite readCalls_outputs. intros [= <-]. cbn [mrText mrToolCalls].
  apply andb_prop in Hu as [Ht Hf].
  assert (Hrd : ∃ m cs, o' = Some m ∧ entry_get "text" m = Some (VString (mrText mr)) ∧ entry_get "tool_calls" m = Some (VSlice cs) ∧ readCalls cs = Ok (mrToolCalls mr)).
  2: { destruct Hrd as (m & cs & -> & E1 & E2 & E3). unfold roundResultFromLeaf. cbn [leafOf nrOutputs default from_option id]. rewrite E1, E2, E3. by eexists. }
  unfold modelLeafOutputs in Hr. assert (Hcn : json_numeric (JArr (map callJson (mrToolCalls mr))) = true) by apply calls_numeric.
  pose proof (calls_to_json (mrToolCalls mr)) as Hcj. pose proof (calls_reread _ Hcalls) as Hc.
  set (calls := JArr (map callJson (mrToolCalls mr))) in *.
  clearbody calls.  destruct (mrOutput mr) as [o|] eqn:Ho.
  - destruct (to_json (VMap o)) as [jo|] eqn:Hj.
    2: { exfalso. revert Hr. unfold reread, marshalCanonicalJSON, Marshal. rewrite map_to_json. cbn [app members_json]. by rewrite Hcj, Hj. }
    assert (Hm : ∃ m, o' = Some m ∧ members_read [] (map (prod_map mend json_mend)
        [("finish_reason", JStr (mrFinishReason mr)); ("output", jo); ("text", JStr (mrText mr)); ("tool_calls", calls)]) = Some m).
    { rewrite <- sorted_leaf. eapply reread_map, Hr; [cbn [app members_json]; by rewrite Hcj, Hj|].
      rewrite sorted_leaf. cbn [json_numeric forallb snd]. by rewrite Hcn, (Hout o jo). }
    destruct Hm as (m & -> & Hm). exists m. cbn [map prod_map fst snd json_mend members_read] in Hm.
    rewrite !mend_valid in Hm by first [done|vm_compute; reflexivity]. revert Hm.
    cbn [Unmarshal_any mbind option_bind]. destruct (Unmarshal_any (json_mend jo)) as [vo|]; [|done].
    destruct (Unmarshal_any (json_mend calls)) as [vc|]; [|done]. destruct (Hc vc eq_refl) as (cs & -> & Hread).
    intros [= <-]. exists cs. done.
  - assert (Hm : ∃ m, o' = Some m ∧ members_read [] (map (prod_map mend json_mend)
        [("finish_reason", JStr (mrFinishReason mr)); ("text", JStr (mrText mr)); ("tool_calls", calls)]) = Some m).
    { rewrite <- sorted_leaf'. eapply reread_map, Hr; [cbn [app members_json]; by rewrite Hcj|].
      rewrite sorted_leaf'. cbn [json_numeric forallb snd]. by rewrite Hcn. }
    destruct Hm as (m & -> & Hm). exists m. cbn [map prod_map fst snd json_mend members_read] in Hm.
    rewrite !mend_valid in Hm by first [done|vm_compute; reflexivity]. revert Hm.
    cbn [Unmarshal_any mbind option_bind]. destruct (Unmarshal_any (json_mend calls)) as [vc|]; [|done].
    destruct (Hc vc eq_refl) as (cs & -> & Hread). intros [= <-]. exists cs. done.
Qed.

(** A UTF-8 string is a first rune, and the rest. *)
Lemma utf8_cut s : utf8_valid s = true → s ≠ "" →
  ∃ a b, s = a +:+ b ∧ utf8_span s = Some (slen a) ∧ (1 ≤ slen a)%nat ∧ utf8_valid b = true ∧ ∀ t, utf8_valid (a +:+ t) = utf8_valid t.
Proof.
  destruct s as [|c r]; [done|]. intros Hv _. cbn [utf8_valid] in Hv. destruct (utf8_span (String c r)) as [k|] eqn:Ek; [|done].
  destruct (utf8_span_cases _ _ _ Ek) as [[-> Hc]|[Hc [[-> (c1 & r1 & ->)]|[[-> (c1 & c2 & r2 & ->)]|[-> (c1 & c2 & c3 & r3 & ->)]]]]].
  - exists (String c ""), r. split; [done|]. split; [done|]. split; [cbn; lia|]. split; [done|]. intros t. cbn [String.append utf8_valid]. by rewrite (utf8_span_1 _ _ _ Ek).
  - exists (String c (String c1 "")), r1. split; [done|]. split; [done|]. split; [cbn; lia|]. split; [done|]. intros t.
    change (utf8_valid (String c (String c1 t)) = utf8_valid t). cbn [utf8_valid]. by rewrite (utf8_span_2 _ _ _ _ Ek).
  - exists (String c (String c1 (String c2 ""))), r2. split; [done|]. split; [done|]. split; [cbn; lia|]. split; [done|]. intros t.
    change (utf8_valid (String c (String c1 (String c2 t))) = utf8_valid t). cbn [utf8_valid]. by rewrite (utf8_span_3 _ _ _ _ _ Ek).
  - exists (String c (String c1 (String c2 (String c3 "")))), r3. split; [done|]. split; [done|]. split; [cbn; lia|]. split; [done|]. intros t.
    change (utf8_valid (String c (String c1 (String c2 (String c3 t)))) = utf8_valid t). cbn [utf8_valid]. by rewrite (utf8_span_4 _ _ _ _ _ _ Ek).
Qed.
Lemma utf8_app s t : utf8_valid s = true → utf8_valid (s +:+ t) = utf8_valid t.
Proof.
  remember (slen s) as n eqn:Hn. revert s Hn. induction (lt_wf n) as [n _ IH]. intros s -> Hv.
  destruct (decide (s = "")) as [->|Hne]; [done|]. destruct (utf8_cut s Hv Hne) as (a & b & -> & _ & Ha & Hb & Happ).
  rewrite <- sapp_assoc, Happ. eapply IH; [|done|done]. rewrite slen_app. lia.
Qed.
Lemma utf8_digits s : all_num s = true → utf8_valid s = true.
Proof.
  induction s as [|c s IH]; [done|]. cbn [all_num]. intros [Hc Hs]%andb_true_iff.
  assert (E : utf8_span (String c s) = Some 1%nat) by (revert Hc; by destruct c as [[] [] [] [] [] [] [] []]).
  cbn [utf8_valid]. rewrite E. by apply IH.
Qed.
Lemma utf8_Itoa z : utf8_valid (Itoa z) = true.
Proof. apply utf8_digits. pose proof (json_wf_Itoa z) as E. cbn [json_wf] in E. by apply andb_true_iff in E as [_ ?]. Qed.

(** The cut of a bounded text is between runes. *)
Lemma boundCut_valid limit fuel : ∀ i s cut, utf8_valid s = true →
  boundCut fuel i s limit cut = cut ∨ ∃ n, boundCut fuel i s limit cut = (i + n)%nat ∧ utf8_valid (stake n s) = true.
Proof.
  induction fuel as [|fuel IH]; intros i s cut Hv; [by left|]. destruct s as [|c r]; [by left|].
  destruct (utf8_cut (String c r) Hv) as (a & b & Hs & Hsp & Ha & Hb & Happ); [done|]. cbn [boundCut]. rewrite Hsp. cbv zeta.
  destruct (limit <? i + slen a)%nat; [by left|]. rewrite Hs, sdrop_app. right.
  assert (Hone : utf8_valid a = true) by (rewrite <- (sapp_nil_r a), Happ; done).
  destruct (IH (i + slen a)%nat b (i + slen a)%nat Hb) as [->|(n & -> & Hn)].
  - exists (slen a). by rewrite stake_app.
  - exists (slen a + n)%nat. split; [lia|]. rewrite <- (Happ (stake n b)) in Hn. rewrite <- Hn. f_equal. clear.
    induction a as [|c a IH]; [done|]. cbn. by rewrite <- IH.
Qed.
Lemma boundDisplayField_valid s limit : utf8_valid s = true → utf8_valid (boundDisplayField s limit) = true.
Proof.
  intros Hv. unfold boundDisplayField. destruct (slen s <=? limit)%nat; [done|].
  assert (Htail : ∀ z, utf8_valid ("...[truncated " +:+ Itoa z +:+ " bytes]") = true) by (intros z; rewrite utf8_app, utf8_app by (apply utf8_Itoa || vm_compute; reflexivity); vm_compute; reflexivity).
  destruct (boundCut_valid limit (slen s) 0 s 0 Hv) as [->|(n & -> & Hn)]; [apply Htail|]. destruct (0 + n =? 0)%nat; [apply Htail|].
  rewrite utf8_app by done. apply Htail.
Qed.
Lemma boundToolResult_valid code stdout : utf8_valid (boundToolResult code stdout) = true.
Proof.
  unfold boundToolResult. destruct (utf8_valid stdout) eqn:Hv; cbn [negb].
  - cbv zeta. destruct (code =? 0)%Z; [by apply boundDisplayField_valid|].
    rewrite utf8_app by (vm_compute; reflexivity). rewrite utf8_app by apply utf8_Itoa. rewrite utf8_app by (vm_compute; reflexivity).
    change (String (chr 10) (boundDisplayField stdout toolResultCap)) with (String (chr 10) "" +:+ boundDisplayField stdout toolResultCap).
    rewrite utf8_app by (vm_compute; reflexivity). by apply boundDisplayField_valid.
  - rewrite utf8_app by (vm_compute; reflexivity). rewrite utf8_app by apply utf8_Itoa. rewrite utf8_app by (vm_compute; reflexivity).
    rewrite utf8_app by apply utf8_Itoa. vm_compute. reflexivity.
Qed.

(** The leaf of a tool says the same when it is read back, whatever bytes the tool wrote. *)
Lemma tool_echoes code dr o' id : reread (drOutputs (toolLeaf code dr)) = Some o' →
  toolMessageFromLeaf id (leafOf o') = toolMessageFromLeaf id (leafOf (drOutputs (toolLeaf code dr))).
Proof.
  intros Hr. cbn [toolLeaf leafResult drOutputs] in Hr |- *. pose proof (boundToolResult_valid code (drStdout dr)) as Hv.
  set (content := boundToolResult code (drStdout dr)) in *. clearbody content.
  assert (Hm : ∃ m, o' = Some m ∧ members_read [] (map (prod_map mend json_mend)
      [("content", JStr content); ("exit_code", JNum (Itoa code)); ("stdout", JStr (drStdout dr))]) = Some m).
  { change [("content", JStr content); ("exit_code", JNum (Itoa code)); ("stdout", JStr (drStdout dr))]
      with (key_sort [("exit_code", JNum (Itoa code)); ("stdout", JStr (drStdout dr)); ("content", JStr content)]).
    eapply reread_map, Hr; [done|]. change (true && (json_numeric (JNum (Itoa code)) && true) = true). by rewrite numeric_Itoa. }
  destruct Hm as (m & -> & Hm). cbn [map prod_map fst snd json_mend members_read] in Hm.
  rewrite (mend_valid content) in Hm by done.
  change (mend "content") with "content" in Hm. change (mend "exit_code") with "exit_code" in Hm. change (mend "stdout") with "stdout" in Hm.
  revert Hm. cbn [Unmarshal_any mbind option_bind fmap option_fmap option_map]. destruct (ParseFloat (Itoa code)); [|done]. by intros [= <-].
Qed.

(** ** The property *)

(** What must be true of the leaves recorded before, if any, and stays true: they call tools that are
    offered, and say the same when they are read back. *)
Definition modelSays `{HU : Externals} (ic : Ictx) (r : React) (o : gomap) : Prop :=
  (∀ mr, roundResultFromLeaf (leafOf o) = Ok mr → offered ic r mr) ∧ ∀ o', reread o = Some o' → echoes (leafOf o) (leafOf o').
Definition toolSays (o : gomap) : Prop := ∀ o' id, reread o = Some o' → toolMessageFromLeaf id (leafOf o') = toolMessageFromLeaf id (leafOf o).

Lemma mirrors_retells `{HU : Externals} ic r path exact get rs rs' : leaves path (modelSays ic r) toolSays rs → mirrors exact get rs rs' → retells path rs rs'.
Proof.
  intros [Hm Ht] HM. split; [intros k nr Hn|intros k j nr id Hn]; pose proof Hn as Hl; apply (mi_completed _ _ _ _ HM) in Hn as (o' & Ho & Hr & _);
    exists (with_outputs nr o'); (split; [done|]); destruct Hr as [->|Hr].
  - intros mr Hmr. by exists mr.
  - exact (proj2 (Hm _ _ Hl) o' Hr).
  - done.
  - exact (Ht _ _ _ Hl o' id Hr).
Qed.

(** An answer as the providers give it. *)
Definition spokenAnswer `{HU : Externals} (ic : Ictx) (r : React) (x : ToolLoopResult) : Prop := spoken (toModelResult x) ∧ offered ic r (toModelResult x).
Lemma answer_says `{HU : Externals} ic r x : spokenAnswer ic r x → modelSays ic r (modelLeafOutputs (toModelResult x)).
Proof.
  intros [Hs Ho]. split; [|intros o'; by apply model_echoes]. intros mr. cbn. rewrite readCalls_outputs. by intros [= <-].
Qed.

(** Nothing recorded inside yet. *)
Lemma leaves_first `{HU : Externals} ic r path rs : (∀ q, below path q → rsCompleted rs !! q = None) → leaves path (modelSays ic r) toolSays rs.
Proof.
  intros Hf. split; [intros k nr Hn|intros k j nr Hn]; unfold LookupCompleted in Hn; rewrite Hf in Hn; try done; [apply model_below|apply tool_below].
Qed.

(** C5: a react step resumes its conversation exactly.  Run a react step, for the first time or again,
    and let any call of it fail.  Every invocation of the model in it is for one round, whose answer was not
    recorded when the run began: a recorded answer is never asked for again.  And its messages are those
    that a resumed run rebuilds for that round — from the state in memory at the end, and from every state
    that mirrors it, as the fold of the log does: the same turns, the same text, the same calls and the same
    results of the tools, byte for byte, whatever bytes the tools wrote.  This holds for answers, given now
    and recorded before, that are UTF-8 and call tools they were offered, with calls numbered below 128;
    a conversation with a call of an unknown tool cannot be resumed ([unknown_tool_not_resumable]). *)
Theorem react_replay_exact `{HL : TimeCodec} {L B W : Type} {HLog : Log L} {HB : Blobs B} {HW : World W} {HS : Signals W} {HU : Externals}
    {HA : Adapters W} {HH : AgentHost W} (ic : Ictx) (r : React) (path : string) (asked : W → list ToolLoopInvocation) cx (s : St L B W) x s' :
  observes r asked →
  (∀ run cx inv w y w', toolLoopRunnerFor r = Ok run → run cx inv w = (Ok y, w') → spokenAnswer ic r y) →
  leaves path (modelSays ic r) toolSays (stRS s) →
  runReact ic cx r path s = (x, s') →
  leaves path (modelSays ic r) toolSays (stRS s') ∧
  ∃ new, asked (stW s') = asked (stW s) ++ new ∧
    Forall (λ inv, ∃ prompt k, Substitute (Resolve (scopeAt ic (stRS s) path)) (rePrompt r) = Ok prompt ∧ (1 ≤ k)%Z ∧
      liNodePath inv = ModelPath (RoundPath path k) ∧ LookupCompleted (stRS s) (liNodePath inv) = None ∧
      ∀ rs', rs' = stRS s' ∨ (∃ exact get, mirrors exact get (stRS s') rs') → replayMessages rs' prompt path k = Ok (liMessages inv)) new.
Proof.
  intros Hob Hans Hl Hr. destruct (Substitute (Resolve (scopeAt ic (stRS s) path)) (rePrompt r)) as [prompt|e] eqn:Hp.
  2: { apply (runReact_silent ic r path asked cx s x s' e Hp) in Hr as [Ha Hrs]. rewrite Hrs. split; [done|]. exists []. by rewrite Ha, app_nil_r. }
  assert (Ht : telling path prompt asked (modelSays ic r) toolSays (stRS s) (asked (stW s)) s).
  { split; [done|by intros p|]. exists []. by rewrite app_nil_r. }
  apply (runReact_tells ic r path prompt asked Hob (modelSays ic r) toolSays) with (cx := cx) (x := x) (s' := s') in Ht as [Hl' _ (new & Ha & Hf)]; [..|done].
  - split; [done|]. exists new. split; [done|]. eapply Forall_impl; [exact Hf|]. intros inv (k & Hk & Hn & Hnone & Hm).
    exists prompt, k. split; [done|]. split; [done|]. split; [done|]. split; [done|]. intros rs' [->|(exact & get & HM)]; [done|].
    eapply retells_replay, Hm. by eapply mirrors_retells.
  - intros nr mr [Hof _] Hm. by apply Hof.
  - intros run cx0 inv w y w' Hrun He. apply answer_says. by eapply Hans.
  - intros cx0 h i w dr e w' code _ _ o' id. apply tool_echoes.
  - done.
Qed.

(** ** A conversation *)

Section witness.
#[local] Existing Instance two_times.
#[local] Existing Instance exSteady_log.

(** The world keeps the invocations. *)
#[local] Instance Listening : World (list ToolLoopInvocation) := {
  wDispatch _ _ _ w := ((exDispatch, None), w);
  wSleep _ _ w := (None, w);
  wNotice _ w := w;
  wCtxErr _ _ := None;
  wLocal := true;
  wCreate _ p w := (Ok (MkHandle (spName p) "" "" ""), w);
  wRestore _ _ k w := (Ok (MkHandle k "" "" ""), w);
  wDestroy _ w := (None, w)
}.
#[local] Instance ListeningHost : AgentHost (list ToolLoopInvocation) := {
  ahStagingRoot := "";
  ahWorkflowDir _ := "";
  ahRedact s := s;
  ahLive w := (([], None), w);
  ahFinalize := None
}.
Definition exChatWith (answer : list ToolLoopInvocation → res agentErr ToolLoopResult) : Adapter (list ToolLoopInvocation) :=
  MkAdapter (MkCaps false true true false false false false LivenessNone) None (λ _, None) None (λ _ _ w, (Ok "1", w))
    (λ _ _ _ w, (LaunchFailed (plainErr (EmFmt "not an agent" [])) false, w)) None (Some (λ _ inv w, (answer w, w ++ [inv]))).
Definition exTool : ToolCall := MkToolCall 0 "c1" "look" "{}".
(** It calls a tool, and then answers. *)
Definition exScript (w : list ToolLoopInvocation) : res agentErr ToolLoopResult :=
  match w with
  | [] => Ok (MkToolResult "let me see" None [exTool] "tool_calls" None)
  | _ => Ok (MkToolResult "done" None [] "stop" None)
  end.
#[local] Instance exTalker : Adapters (list ToolLoopInvocation) := {| aLookup ref := if String.eqb ref "chat" then Some (exChatWith exScript) else None |}.
Definition exTalk : React := MkReact "re" (Some [("uses", VString "chat")]) "look around" (Some ["look"]) 0 None.
Definition exTalkIctx : Ictx :=
  MkIctx (MkWorkflow "w" 1 None ∅ [] ∅ ∅ ∅ ∅ None None ∅ ∅ {["look" := MkTool "" None (MkToolImpl "ls" "" None [] ∅ None)]} None "")
    "" (MkFrame "" None None) ∅ noHandles.
Definition exSilence : St InMemoryLog InMemoryBlobs (list ToolLoopInvocation) := MkSt exBefore.1 exBefore.2 (exFold exBefore) [].

Lemma exTalker_runs run : toolLoopRunnerFor exTalk = Ok run → run = λ _ inv w, (exScript w, w ++ [inv]).
Proof. cbn. by intros [= <-]. Qed.

Lemma react_replay_exact_witness :
  ∃ s', runReact exTalkIctx Cancellable exTalk "react[0]" exSilence = (okResult, s') ∧ length (stW s') = 2 ∧
  ∃ new, stW s' = [] ++ new ∧
    Forall (λ inv, ∃ prompt k, Substitute (Resolve (scopeAt exTalkIctx (stRS exSilence) "react[0]")) (rePrompt exTalk) = Ok prompt ∧ (1 ≤ k)%Z ∧
      liNodePath inv = ModelPath (RoundPath "react[0]" k) ∧ LookupCompleted (stRS exSilence) (liNodePath inv) = None ∧
      ∀ rs', rs' = stRS s' ∨ (∃ exact get, mirrors exact get (stRS s') rs') → replayMessages rs' prompt "react[0]" k = Ok (liMessages inv)) new.
Proof.
  assert (Hs : match runReact exTalkIctx Cancellable exTalk "react[0]" exSilence with
               | ((o, None), s') => String.eqb o OutcomeOK && Nat.eqb (length (stW s')) 2
               | _ => false
               end = true) by (vm_compute; reflexivity).
  destruct (runReact exTalkIctx Cancellable exTalk "react[0]" exSilence) as [[o [e|]] s'] eqn:E; [discriminate Hs|].
  apply andb_prop in Hs as [->%String.eqb_eq Hk%Nat.eqb_eq]. exists s'. split; [reflexivity|]. split; [exact Hk|].
  apply (react_replay_exact exTalkIctx exTalk "react[0]" (λ w, w) Cancellable exSilence okResult s').
  - split.
    + intros run cx inv w y w' ->%exTalker_runs. intros [= _ <-]. reflexivity.
    + intros cx h i w y w' [= _ <-]. reflexivity.
    + intros cx d w y w' [= _ <-]. reflexivity.
    + reflexivity.
  - intros run cx inv w y w' ->%exTalker_runs. intros [= Hy _]. destruct w as [|i w]; injection Hy as <-.
    + split; [split; [vm_compute; reflexivity|split; [constructor; [|constructor]; split; [cbn; lia|vm_compute; reflexivity]|discriminate]]|].
      intros _. constructor; [|constructor]. by eexists.
    + split; [split; [vm_compute; reflexivity|split; [constructor|discriminate]]|]. discriminate.
  - apply leaves_first. intros q _. assert (Hc : rsCompleted (stRS exSilence) = ∅) by (vm_compute; reflexivity). by rewrite Hc, lookup_empty.
  - exact E.
Defined.

End witness.

(** A call of a tool that was not offered is answered, but no leaf is committed for it: when the run stops
    after that round, here at a failed call of the model, it can never go on. *)
Section stray.
#[local] Existing Instance two_times.
#[local] Existing Instance exSteady_log.
#[local] Existing Instance Listening.
#[local] Existing Instance ListeningHost.
Definition exStray (w : list ToolLoopInvocation) : res agentErr ToolLoopResult :=
  match w with
  | [] => Ok (MkToolResult "" None [MkToolCall 0 "c1" "nope" "{}"] "tool_calls" None)
  | [_] => Err (plainErr (EmFmt "overloaded" []))
  | _ => Ok (MkToolResult "done" None [] "stop" None)
  end.
#[local] Instance exStrayer : Adapters (list ToolLoopInvocation) := {| aLookup ref := if String.eqb ref "chat" then Some (exChatWith exStray) else None |}.
Definition exResumed (s : St InMemoryLog InMemoryBlobs (list ToolLoopInvocation)) : option (Result * list ToolLoopInvocation) :=
  match Fold (blobsGet (stBlobs s)) (logEvents (stLog s)) with
  | Ok rs => let '(x, s') := runReact exTalkIctx Cancellable exTalk "react[0]" (MkSt (stLog s) (stBlobs s) rs (stW s)) in Some (x, drop (length (stW s)) (stW s'))
  | Err _ => None
  end.
Lemma unknown_tool_not_resumable :
  exResumed (runReact exTalkIctx Cancellable exTalk "react[0]" exSilence).2
  = Some (internal (EErrf "engine.runReact: replay missing committed tool leaf at %q" ["react[0].round-1.tool-0"]), []).
Proof. vm_compute. reflexivity. Qed.
End stray.
