(* ===== verification/InterpRun.v ===== *)
(** * The result of a run

    engine.Run after the walk: the controls and the contract of the result; and three places where the
    walk departs from what the code says of it. *)

From S2P Require Import Prelude GoNum GoJson GoStruct Signal TmplLexer TmplParser TmplEval RetryPolicy EnginePath GoPath.
From S2P Require Import StateBlobs StateLog EngineEvents RunState EngineFold Journal Ir Commit Rerun Scope ScopeLaws Artifacts Containers RetryLoop Steps Contracts Exports Runtimes Interp Call InterpLaws.

(** The result pairs of engine.Run: ok without an error, a typed failure with its cause, or an internal error. *)
Definition proper (r : Result) : Prop :=
  r = okResult ∨ (is_Some r.2 ∧ (isTypedFailureOutcome r.1 = true ∨ r.1 = "")).

Lemma validate_proper r : proper (validateRunResultPair r).
Proof.
  unfold validateRunResultPair, proper. destruct r as [o [e|]]; cbn [fst snd].
  - destruct (isTypedFailureOutcome o) eqn:Ht; cbn [orb]; [right; split; [by eexists|by left]|].
    destruct (String.eqb_spec o "") as [->|]; right; (split; [by eexists|by right]).
  - destruct (String.eqb_spec o OutcomeOK) as [->|]; [by left|]. right. split; [by eexists|by right].
Qed.
Lemma internal_proper e : proper (internal e).
Proof. right. split; [by eexists|by right]. Qed.
Lemma validate_internal e : validateRunResultPair (internal e) = internal e.
Proof. reflexivity. Qed.

Section run_laws.
Context `{HL : TimeCodec} {L B W : Type} {HLog : Log L} {HB : Blobs B} {HW : World W} {HS : Signals W} {HE : Externals}.
#[local] Notation St := (St L B W).

(** The terminal event of the controls: an error when there is one. *)
Lemma appendTerminal_spec (s : St) t s' : appendTerminalControlEvents s = (t, s') →
  stRS s' = stRS s ∧ ((IsCancelled (stRS s) = true ∨ is_Some (LookupPaused (stRS s))) → is_Some t) ∧
  (IsCancelled (stRS s) = false → LookupPaused (stRS s) = None → t = None ∧ s' = s).
Proof.
  unfold appendTerminalControlEvents. destruct (IsCancelled (stRS s)).
  - destruct (appendSynced _ _ _ s) as [[e|] s1] eqn:Ha; intros [= <- <-]; apply appendSynced_state in Ha as (-> & _);
      by split; [|split].
  - destruct (LookupPaused (stRS s)) as [pm|].
    + destruct (appendSynced _ _ _ s) as [[e|] s1] eqn:Ha; intros [= <- <-]; apply appendSynced_state in Ha as (-> & _);
        by split; [|split].
    + intros [= <- <-]. split; [done|]. split; [|done]. intros [|[? ?]]; done.
Qed.

Lemma finishRun_spec r0 (s : St) r s' : finishRun r0 s = (r, s') →
  proper r ∧ ((IsCancelled (stRS s') = true ∨ is_Some (LookupPaused (stRS s'))) → isOk r = false).
Proof.
  unfold finishRun.
  destruct (match skipOf r0 with Some _ => _ | None => _ end) as [[r1 s1]|[r1 s1]] eqn:Hsk.
  - intros [= <- <-]. assert (Hr : ∃ e, r1 = internal e).
    { revert Hsk. destruct (skipOf r0); [|done]. destruct (appendNodeSkipped _ _ s) as [[e|] s2]; [|done].
      intros [= <- _]. by exists e. }
    destruct Hr as [e ->]. split; [apply internal_proper|done].
  - destruct (appendTerminalControlEvents _) as [t s2] eqn:Ht. apply appendTerminal_spec in Ht as (Hrs & Hsome & _).
    intros [= <- <-]. split; [apply validate_proper|]. rewrite Hrs. intros Hc. apply Hsome in Hc as [e ->].
    by rewrite validate_internal.
Qed.
End run_laws.

(** ** Properties *)

(** C31: a run ends in a result its callers can tell apart.  Whatever the walk gives, the result of
    engine.Run is ok without an error, a typed failure outcome with its cause, or an error without an
    outcome; and a run that ends cancelled or paused is never reported ok. *)
Theorem Run_result `{HL : TimeCodec} {L B W : Type} {HLog : Log L} {HB : Blobs B} {HW : World W} {HS : Signals W}
    {HE : Externals} otherNode fuel preflight wf env ld opts (s : St L B W) r s' :
  Run otherNode fuel preflight wf env ld opts s = Some (r, s') →
  proper r ∧ ((IsCancelled (stRS s') = true ∨ is_Some (LookupPaused (stRS s'))) → isOk r = false).
Proof.
  unfold Run. destruct (match CallStartedPaths _ with [] => _ | _ => _ end) as [[[e|] s1]|]; [| |done].
  - intros [= <- <-]. split; [apply internal_proper|done].
  - destruct (rerunFrom _ _ _) as [[e|] s2]; [intros [= <- <-]; split; [apply internal_proper|done]|].
    destruct (interpNodes _ _ _ _ _ _ _) as [[r0 s0]|]; [|done]. intros [= Hf]. by apply finishRun_spec in Hf.
Qed.

Section example.
#[local] Existing Instance two_times.
#[local] Existing Instance exSteady_log.

Definition exOptions : RunOptions := MkOptions None None "".
Definition exWhole : option (Result * St InMemoryLog InMemoryBlobs ()) :=
  Run (λ _, exOther) 8 (λ _ s, Some (None, s)) exWorkflow ∅ noHandles exOptions exState.

Lemma Run_result_witness :
  ∃ r s', exWhole = Some (r, s') ∧
    proper r ∧ ((IsCancelled (stRS s') = true ∨ is_Some (LookupPaused (stRS s'))) → isOk r = false).
Proof.
  assert (Hs : match exWhole with Some _ => true | None => false end = true) by (vm_compute; reflexivity).
  destruct exWhole as [[r s']|] eqn:E; [|discriminate Hs]. exists r, s'. split; [reflexivity|].
  apply (Run_result (λ _, exOther) 8 (λ _ s, Some (None, s)) exWorkflow ∅ noHandles exOptions exState r s'). exact E.
Defined.

(** A loop whose last iteration is recorded is entered again: the run records iteration 3 of 2. *)
Lemma loop_resume_extra :
  match interpNode exIctx exOther 8 Cancellable exLoop 0 "" (setRS (RecordLoopIter "loop[0]" 2 (stRS exState)) exState) with
  | Some (r, s') => isOk r && (LookupLoopIters (stRS s') "loop[0]" =? 3)%Z
  | None => false
  end = true.
Proof. vm_compute. reflexivity. Qed.

(** An internal error in do is superseded by the typed failure of finally, and an enclosing catch turns
    it into success. *)
Definition exBroken : Node := NLoop None None (Some []).
Definition exFailing : Node := NIf "{{ nope }}" None None.
Definition exLaundering : Node :=
  NTry (Some [NTry (Some [exBroken]) None (Some [exFailing])]) (Some [exStep "recover"]) None.
Lemma finally_launders_internal :
  match interpNode exIctx exOther 8 Cancellable exBroken 0 "x" exState with
  | Some (("", Some _), _) => true
  | _ => false
  end = true ∧
  match interpNode exIctx exOther 8 Cancellable exLaundering 0 "" exState with Some (r, _) => isOk r | None => false end = true.
Proof. split; vm_compute; reflexivity. Qed.
End example.
