(* ===== verification/CallLaws.v ===== *)
(** * What a call guarantees

    A call is walked at its own address: the steps of its child are strictly inside it.  So the laws of
    the walk hold of definitions whose workflows call each other. *)

From S2P Require Import Prelude GoNum Sort GoJson GoStruct Signal TmplLexer TmplParser TmplEval RetryPolicy EnginePath GoPath.
From S2P Require Import StateBlobs StateLog EngineEvents RunState EngineFold Journal Ir Commit Scope ScopeLaws Artifacts Containers RetryLoop Adapters Steps.
From S2P Require Import Contracts Exports SkillRoute Skills Runtimes AgentStep React Interp Call InterpLaws AgentWalk ReactWalk.

Lemma CallWorkflowRuntimePath_dot path : path ≠ "" → CallWorkflowRuntimePath path = path +:+ "." +:+ "workflow".
Proof. intros Hp. unfold CallWorkflowRuntimePath. apply String.eqb_neq in Hp as ->. done. Qed.
Lemma below_call path : path ≠ "" → below path (CallWorkflowRuntimePath path).
Proof. intros Hp. rewrite CallWorkflowRuntimePath_dot by done. apply below_app. Qed.
Lemma below_not_self q : ¬ below q q.
Proof. intros [t Ht]. apply (f_equal slen) in Ht. rewrite !slen_app in Ht. cbn [slen] in Ht. lia. Qed.

Section calls.
Context `{HL : TimeCodec} {L B W : Type} {HLog : Log L} {HB : Blobs B} {HW : World W} {HS : Signals W} {HE : Externals} {HA : Adapters W}
  {HH : AgentHost W} {HU : Unicode} {HM : MathLog}.
#[local] Notation St := (St L B W).
#[local] Notation run := (option (Result * St)).
Variables (sig : bool) (puts : effects) (def : option LoadedDefinition) (kinds : Node → bool).
#[local] Notation walks := (walks (L := L) (B := B) (W := W) sig puts).

(** The calls, agent and react steps in question: the targets are of modelled kinds, and what they do is in [puts]. *)
Record calls_ok : Prop := {
  co_plain c mid child cwf : kinds (NCall c) = true → callTarget def mid (caCall c) = Some (child, cwf) → plain_list sig kinds (wfGraph cwf) = true;
  co_input ic rs (b : B) c child cwf path input raw files : kinds (NCall c) = true → callTarget def (icModuleID ic) (caCall c) = Some (child, cwf) →
    prepareCall ic rs b c child cwf path = Ok (input, raw, files) → puts raw;
  co_product rs (b : B) c mid child cwf path input product m raw : kinds (NCall c) = true → callTarget def mid (caCall c) = Some (child, cwf) →
    evaluateWorkflowExports def (lmID child) rs cwf path input b = Ok product → weOutputs product = Some m → Marshal (VMap m) = Some raw → puts raw;
  co_recorded rs (b : B) c mid child cwf path input product : kinds (NCall c) = true → callTarget def mid (caCall c) = Some (child, cwf) →
    evaluateWorkflowExports def (lmID child) rs cwf path input b = Ok product → efRecorded puts (weOutputs product);
  co_agent v : kinds (NAgent v) = true → (∃ ok, agents_ok puts ok) ∧ (asSkills v = None ∨ efSkills puts);
  co_react r : kinds (NReact r) = true → react_ok puts r
}.
Hypothesis Hok : calls_ok.

Section one.
Variables (ic : Ictx) (walk : Ictx → Context_ → NodeList → string → St → run).
Hypothesis walk_below : ∀ ic' cx nodes parent s r s', plain_list sig kinds nodes = true → parent ≠ "" →
  walk ic' cx nodes parent s = Some (r, s') → walks (below parent) s s'.
Variables (cx : Context_) (c : CallStep) (path : string) (child : LoadedModule) (cwf : Workflow).
Hypothesis Hc : kinds (NCall c) = true.
Hypothesis Ht : callTarget def (icModuleID ic) (caCall c) = Some (child, cwf).
Hypothesis Hpath : path ≠ "".
#[local] Notation here := (walks (under path)).

Lemma here_fail oc e s r s' : failStep path oc e s = (r, s') → here s s'.
Proof. intros Hf. eapply walks_one; [by left|by eapply p_fail]. Qed.
Lemma here_world s w : here s (setW w s).
Proof. eapply walks_one; [by left|apply p_world]. Qed.

Lemma commitCall_walks input s r s' : LookupCompleted (stRS s) path = None → commitCall def child cwf path input s = (r, s') → here s s'.
Proof.
  intros Hn. unfold commitCall. destruct (evaluateWorkflowExports _ _ _ _ _ _ _) as [product|e] eqn:He; [|apply here_fail].
  destruct (liftH _ s) as [x s1] eqn:Hl. intros Hr.
  assert (Hp : here s (match x with Ok nr => setRS (RecordCompleted path nr (stRS s1)) s1 | Err _ => s1 end)).
  { eapply walks_one; [by left|]. eapply p_product; [done|by eapply (co_recorded Hok)| |exact Hl]. intros m raw Hm Hraw. by eapply (co_product Hok). }
  destruct x; by injection Hr as _ <-.
Qed.

Lemma runChild_walks ld input files s r s' : LookupCompleted (stRS s) path = None →
  runChild def ic walk cx child cwf path ld input files s = Some (r, s') → here s s'.
Proof.
  intros Hn. unfold runChild. destruct (walk _ _ _ _ s) as [[wr s1]|] eqn:Hw; [|done]. intros [= Hr].
  apply walk_below in Hw; [|by eapply (co_plain Hok)|by destruct path].
  assert (Hb : walks (below path) s s1).
  { eapply walks_mono, Hw. intros p Hp. eapply below_trans; [right; by apply below_call|done]. }
  assert (Hs1 : here s s1) by (eapply walks_mono, Hb; by right).
  apply (walks_frame _ _ _ _ _ path) in Hb as [Hb _]; [|apply below_not_self].
  eapply walks_trans; [exact Hs1|]. destruct (isOk wr).
  - eapply commitCall_walks, Hr. unfold LookupCompleted in *. by rewrite Hb.
  - unfold childFailed in Hr. destruct (String.eqb wr.1 ""); [injection Hr as _ <-; apply walks_refl|by apply here_fail in Hr].
Qed.

Lemma withRuntime_walks k s r s' : (∀ ld w r s', k ld (setW w s) = Some (r, s') → here (setW w s) s') →
  withRuntime ic cx child cwf path k s = Some (r, s') → here s s'.
Proof.
  intros Hk. unfold withRuntime. destruct (createRuntimeHandles _ _ _ _ _ _) as [[hs|e] w].
  - destruct (k _ _) as [[kr s1]|] eqn:E; [|done]. intros [= _ <-]. apply Hk in E.
    eapply walks_trans; [apply here_world|]. eapply walks_trans; [exact E|apply here_world].
  - intros [= Hf]. eapply walks_trans; [apply here_world|by eapply here_fail].
Qed.

Lemma resumeCall_walks rec s r s' : LookupCompleted (stRS s) path = None → resumeCall def ic walk cx child cwf path rec s = Some (r, s') → here s s'.
Proof.
  intros Hn. apply withRuntime_walks. intros ld w r0 s0. cbv beta. destruct (ResolveRuntimes _ _ _ (stW _)) as [[current|e] w'].
  - intros Hr. eapply walks_trans; [apply (here_world _ w')|]. destruct (CheckRuntimesDrift _ _); [injection Hr as _ <-; apply walks_refl|].
    eapply runChild_walks, Hr. done.
  - intros [= _ <-]. apply here_world.
Qed.

Lemma startCall_walks s r s' : LookupCompleted (stRS s) path = None → LookupCallStarted (stRS s) path = None →
  startCall def ic walk cx c child cwf path s = Some (r, s') → here s s'.
Proof.
  intros Hn Hs. unfold startCall. destruct (prepareCall _ _ _ _ _ _ _) as [[[input raw] files]|[e|e]] eqn:Hp.
  - assert (Hraw : puts raw) by by eapply (co_input Hok).
    destruct (blobsPut raw (stBlobs s)) as [[ref|e] b] eqn:Hb.
    + intros Hr. eapply walks_trans; [eapply walks_one; [by left|by eapply (p_put _ _ path raw s)]|].
      eapply withRuntime_walks, Hr. clear r s' Hr. intros ld w r s'. cbv beta. destruct (ResolveRuntimes _ _ _ (stW _)) as [[rts|e] w'].
      * destruct (appendSynced _ _ _ _) as [e s1] eqn:Ha. intros Hr.
        assert (Hc1 : here (setW w' (setW w (setBlobs b s))) (match e with
            | None => setRS (RecordCallStarted path (MkCallStarted (Some input) ref files rts) (stRS s1)) s1 | Some _ => s1 end)).
        { eapply walks_one; [by left|]. eapply (p_call _ _ path input raw ref files rts (stBlobs s)); [done|done| |done|exact Ha].
          unfold prepareCall in Hp. apply res_bind_ok in Hp as (i & _ & Hp). apply res_bind_ok in Hp as (f & _ & Hp).
          by destruct (Marshal (VMap i)) eqn:Hm; [injection Hp as <- <- <-|]. }
        eapply walks_trans; [apply (here_world (setW w (setBlobs b s)) w')|]. eapply walks_trans; [exact Hc1|].
        destruct e as [e|]; [injection Hr as _ <-; apply walks_refl|]. apply runChild_walks in Hr; [done|].
        apply appendSynced_state in Ha as (Ha & _). cbn [stRS setRS]. rewrite Ha. done.
      * intros [= Hf]. eapply walks_trans; [apply (here_world (setW w (setBlobs b s)) w')|by eapply here_fail].
    + intros [= _ <-]. eapply walks_one; [by left|by eapply p_put].
  - intros [= Hf]. by eapply here_fail.
  - intros [= _ <-]. apply walks_refl.
Qed.
End one.

Lemma runCallStep_walks ic walk cx c path s r s' :
  (∀ ic' cx nodes parent s r s', plain_list sig kinds nodes = true → parent ≠ "" → walk ic' cx nodes parent s = Some (r, s') → walks (below parent) s s') →
  kinds (NCall c) = true → path ≠ "" → runCallStep def ic walk cx c path s = Some (r, s') → walks (under path) s s'.
Proof.
  intros Hw Hc Hp. unfold runCallStep. destruct (LookupCompleted (stRS s) path) eqn:Hn; [intros [= _ <-]; apply walks_refl|].
  intros Hr. eapply walks_trans; [eapply walks_one; [by left|by apply (p_started _ _ path "call")]|]. revert Hr.
  assert (Hrs := appendNodeStarted_rs path "call" s). set (s1 := appendNodeStarted path "call" s) in *. clearbody s1.
  rewrite <- Hrs in Hn. destruct (callTarget def _ _) as [[child cwf]|] eqn:Ht.
  - destruct (negb wLocal); [intros [= _ <-]; apply walks_refl|]. destruct (LookupCallStarted (stRS s1) path) eqn:Hs.
    + by apply (resumeCall_walks ic walk Hw cx c).
    + by apply (startCall_walks ic walk Hw cx c).
  - intros [= Hf]. eapply walks_one; [by left|by eapply p_fail].
Qed.

Lemma interpNodes_below ic other' fuel cx nodes parent s r s' :
  (∀ n cx path s r s', isOther n = true → kinds n = true → path ≠ "" → other' cx n path s = Some (r, s') → walks (under path) s s') →
  plain_list sig kinds nodes = true → parent ≠ "" → interpNodes ic other' fuel cx nodes parent s = Some (r, s') → walks (below parent) s s'.
Proof.
  intros Hc Hp Hne. apply (nodes_walks sig puts ic fuel other' kinds); [|done|done]. apply Forall_forall. intros n _ Hn. by apply interpNode_walks with (kinds := kinds).
Qed.

(** Agent and react steps, and calls of any depth. *)
Lemma interpCalls_walks other fuel depth : ∀ ic n cx path s r s', isOther n = true → kinds n = true → path ≠ "" →
  interpCalls def depth other fuel ic cx n path s = Some (r, s') → walks (under path) s s'.
Proof.
  induction depth as [|depth IH]; intros ic n cx path s r s' Ho Hk Hp; destruct n; try discriminate Ho; cbn [interpCalls]; try done.
  1, 3: destruct (co_agent Hok _ Hk) as [[ok Hag] Hsk]; intros Hr; eapply walks_mono; [|by eapply runAgentStep_here]; by intros p <-; left.
  1, 3: intros [= Hr]; revert Hr; apply runReact_walks; by apply (co_react Hok).
  apply runCallStep_walks; [|done|done]. intros ic' cx' nodes parent s1 r1 s1' Hpl Hne. apply interpNodes_below; [|done|done].
  intros n cx0 path0 s2 r2 s2'. exact (IH ic' n cx0 path0 s2 r2 s2').
Qed.

Lemma interpNode_calls_walks other fuel depth n ic cx idx parent s r s' : plain sig kinds n = true →
  interpNode ic (interpCalls def depth other fuel ic) fuel cx n idx parent s = Some (r, s') → walks (under (nodePath parent n idx)) s s'.
Proof. intros Hp. apply interpNode_walks with (kinds := kinds); [|done]. intros n0 cx0 path0 s0 r0 s0'. apply interpCalls_walks. Qed.
End calls.
