(* ===== verification/CallRun.v ===== *)
(** * Walks with calls: the laws of the interpreter

    The laws of the walk, of definitions whose workflows call each other: what is in memory is what the
    log folds to, a completed run is resumed for free, the walk ends, a node writes at its own address,
    a gate is judged attempt by attempt. *)

From S2P Require Import Prelude GoNum Sort GoJson GoStruct Signal TmplLexer TmplParser TmplEval RetryPolicy EnginePath GoPath.
From S2P Require Import StateBlobs StateLog EngineEvents RunState EngineFold Journal Ir Commit Scope ScopeLaws Artifacts Containers RetryLoop Adapters Steps.
From S2P Require Import Contracts Exports SkillRoute Skills Agent Runtimes AgentStep React Interp Call InterpLaws InterpFold InterpGate InterpTerm InterpResume AgentWalk ReactWalk CallLaws.

(** ** No call is a skip *)

(** Errors of the adapters are not skips. *)
Definition adapters_noskip `{Adapters W} : Prop :=
  ∀ ref ad cx h (w : W) e w', aLookup ref = Some ad → adVersion ad cx h w = (Err e, w') → asSkip e = None.

Lemma res_map_err_inv {A E F} (f : E → F) (x : res E A) e : res_map_err f x = Err e → ∃ e', e = f e'.
Proof. destruct x; [done|]. intros [= <-]. by eexists. Qed.

Lemma joined_noskip e more : asSkip e = None → asSkip (joined e more) = None.
Proof. by destruct more. Qed.

Lemma evalInputs_noskip R l e : evalInputs R l = Err e → asSkip e = None.
Proof.
  induction l as [|[k j] l IH]; cbn [evalInputs]; [done|]. intros [He|(v & _ & [He|(vs & _ & [=])]%res_bind_err)]%res_bind_err; [|by apply IH].
  by apply res_map_err_inv in He as [x ->].
Qed.
Lemma evalOutputs_noskip R l e : evalOutputs R l = Err e → asSkip e = None.
Proof.
  induction l as [|[k j] l IH]; cbn [evalOutputs]; [done|]. intros [He|(v & _ & [He|(vs & _ & [=])]%res_bind_err)]%res_bind_err; [|by apply IH].
  by apply res_map_err_inv in He as [x ->].
Qed.

Section noskip.
Context `{HL : TimeCodec} {L B W : Type} {HLog : Log L} {HB : Blobs B} {HW : World W} {HS : Signals W} {HE : Externals} {HA : Adapters W}
  {HH : AgentHost W} {HU : Unicode} {HM : MathLog}.
#[local] Notation St := (St L B W).
#[local] Notation run := (option (Result * St)).
Variable def : option LoadedDefinition.

Lemma exportFile_noskip scope wf (b : B) key raw e : exportFile scope wf b key raw = Err e → asSkip e = None.
Proof. unfold exportFile. repeat case_match; by intros [= <-]. Qed.
Lemma exportFiles_noskip scope wf (b : B) l e : exportFiles scope wf b l = Err e → asSkip e = None.
Proof.
  induction l as [|[k j] l IH]; cbn [exportFiles]; [done|].
  intros [He|(v & _ & [He|(vs & _ & [=])]%res_bind_err)]%res_bind_err; [by eapply exportFile_noskip|by apply IH].
Qed.
Lemma exportOutputs_noskip scope wf e : exportOutputs scope wf = Err e → asSkip e = None.
Proof.
  unfold exportOutputs. intros [He|(out & _ & He)]%res_bind_err; [by eapply evalOutputs_noskip|]. revert He. repeat case_match; by intros [= <-].
Qed.
Lemma exports_noskip mid rs wf path input (b : B) e : evaluateWorkflowExports def mid rs wf path input b = Err e → asSkip e = None.
Proof.
  unfold evaluateWorkflowExports, EvaluateExportsInDef. cbv zeta.
  intros [He|(out & _ & [He|(fs & _ & [=])]%res_bind_err)]%res_bind_err; [by eapply exportOutputs_noskip|by eapply exportFiles_noskip].
Qed.

Lemma prepareCall_noskip ic rs (b : B) c child cwf path p : prepareCall ic rs b c child cwf path = Err p →
  ∃ e, (p = PFail e ∨ p = PInternal e) ∧ asSkip e = None.
Proof.
  unfold prepareCall. intros [Hp|(x1 & _ & [Hp|(x2 & _ & Hp)]%res_bind_err)]%res_bind_err.
  - apply failing_noskip in Hp; [done|]. intros e. unfold evaluateCallInput. intros [He|(out & _ & He)]%res_bind_err; [by eapply evalInputs_noskip|].
    destruct (wfInputSchema cwf) as [schema|]; [|destruct out; [done|by injection He as <-]].
    destruct (Marshal (VMap out)); [by apply res_map_err_inv in He as [x ->]|by injection He as <-].
  - by eapply failingFile_noskip, Hp.
  - destruct (Marshal _); [done|]. injection Hp as <-. eexists. split; [by right|done].
Qed.

Hypothesis HNS : no_skip_errors (W := W).
Hypothesis HNA : adapters_noskip (W := W).

Lemma resolveRuntime_noskip cx hs ref (w : W) e w' : resolveRuntime cx hs ref w = (Err e, w') → asSkip e = None.
Proof.
  unfold resolveRuntime. destruct (aLookup _) as [ad|] eqn:Had; [|by intros [= <- _]]. destruct (String.eqb (rfContainer ref) "").
  - destruct (negb _); [by intros [= <- _]|]. destruct (adVersion _ _ _ _) as [[v|x] w1] eqn:Hv; [done|]. intros [= <- _]. cbn [asSkip]. by eapply HNA.
  - destruct (SplitContainerRef _) as [bare svc]. cbv zeta. destruct (hs !! _) as [h|]; [|by intros [= <- _]].
    destruct (adVersion _ _ _ _) as [[v|x] w1] eqn:Hv; [done|]. intros [= <- _]. cbn [asSkip]. by eapply HNA.
Qed.
Lemma ResolveRuntimes_noskip cx hs refs : ∀ (w : W) e w', ResolveRuntimes cx hs refs w = (Err e, w') → asSkip e = None.
Proof.
  induction refs as [|r refs IH]; intros w e w'; cbn [ResolveRuntimes]; [done|].
  destruct (resolveRuntime _ _ _ w) as [[x|x] w1] eqn:Hr; [|intros [= <- _]; by eapply resolveRuntime_noskip].
  destruct (ResolveRuntimes _ _ _ w1) as [[y|y] w2] eqn:Hrs; [done|]. intros [= <- _]. by eapply IH.
Qed.

Lemma drift_noskip recorded current e : CheckRuntimesDrift recorded current = Some e → asSkip e = None.
Proof.
  unfold CheckRuntimesDrift. destruct (negb _); [by intros [= <-]|]. revert current.
  induction recorded as [|r recorded IH]; intros [|c current]; cbn [firstDrift]; try done.
  destruct (_ || _); [by intros [= <-]|]. destruct (negb _); [by intros [= <-]|apply IH].
Qed.

Lemma createHandles_noskip cx wf cf p rs l : ∀ hs (w : W) e w', createHandles cx wf cf p rs l hs w = (Err e, w') → asSkip e = None.
Proof.
  induction l as [|[n ctr] l IH]; intros hs w e w'; cbn [createHandles]; [done|]. destruct (bool_decide _); [apply IH|].
  destruct (createOrRestoreRuntimeHandle _ _ _ _ _ w) as [[h|x] w1] eqn:Hc; [apply IH|].
  destruct (destroyRuntimeHandles hs w1) as [de w2]. intros [= <- _]. cbn [asSkip]. apply joined_noskip.
  revert Hc. unfold createOrRestoreRuntimeHandle. destruct (_ && _); intros Hc; [by eapply ns_restore|by eapply ns_create].
Qed.

Lemma commitCall_unskipped child cwf path input (s : St) r s' : commitCall def child cwf path input s = (r, s') → unskipped r.
Proof.
  unfold commitCall. destruct (evaluateWorkflowExports _ _ _ _ _ _ _) as [p|e] eqn:He; [|apply failStep_unskipped; by eapply exports_noskip].
  destruct (liftH _ s) as [[nr|e] s1]; intros [= <- _]; auto with skips.
Qed.
Lemma childFailed_unskipped path parent r0 (s : St) r s' : unskipped r0 → isOk r0 = false → childFailed path parent r0 s = (r, s') → unskipped r.
Proof.
  intros [->|[[e He] Hs]] Hok; [done|]. unfold childFailed. destruct (String.eqb r0.1 ""); [intros [= <- _]; right; by split|].
  rewrite He. apply failStep_unskipped. cbn [asSkip]. unfold skipOf in Hs. by rewrite He in Hs.
Qed.

Lemma runCallStep_unskipped ic walk cx c path (s : St) r s' :
  (∀ child cwf ic' cx parent s r s', callTarget def (icModuleID ic) (caCall c) = Some (child, cwf) →
     walk ic' cx (wfGraph cwf) parent s = Some (r, s') → unskipped r) →
  runCallStep def ic walk cx c path s = Some (r, s') → unskipped r.
Proof.
  intros Hw. unfold runCallStep. destruct (LookupCompleted _ _); [intros [= <- _]; auto with skips|]. cbv zeta.
  destruct (callTarget def _ _) as [[child cwf]|] eqn:Ht; [|intros [= Hf]; by eapply failStep_unskipped, Hf].
  destruct (negb wLocal); [intros [= <- _]; auto with skips|]. set (s1 := appendNodeStarted path "call" s). clearbody s1.
  assert (Hrun : ∀ ld input files s r s', runChild def ic walk cx child cwf path ld input files s = Some (r, s') → unskipped r).
  { intros ld input files s0 r0 s0'. unfold runChild. destruct (walk _ _ _ _ s0) as [[wr s2]|] eqn:E; [|done].
    apply (Hw child cwf) in E; [|done]. destruct (isOk wr) eqn:Hok; intros [= Hr]; [by eapply commitCall_unskipped|by eapply childFailed_unskipped]. }
  assert (Hwith : ∀ (k : LocalDispatcher → St → run) (s : St) r s', (∀ ld s r s', k ld s = Some (r, s') → unskipped r) → withRuntime ic cx child cwf path k s = Some (r, s') → unskipped r).
  { intros k s0 r0 s0' Hk. unfold withRuntime, createRuntimeHandles. destruct (createHandles _ _ _ _ _ _ _ _) as [[hs|e] w] eqn:Hc.
    - destruct (k _ _) as [[r2 s2]|] eqn:E; [|done]. intros [= <- _]. by eapply Hk.
    - intros [= Hf]. eapply failStep_unskipped, Hf. by eapply createHandles_noskip. }
  destruct (LookupCallStarted _ _) as [rec|].
  - apply Hwith. clear s1 s r s'. intros ld s r s'. destruct (ResolveRuntimes _ _ _ _) as [[cur|e] w] eqn:HRR.
    + destruct (CheckRuntimesDrift _ _) eqn:Hd; [intros [= <- _]; apply unskipped_internal; by eapply drift_noskip|apply Hrun].
    + intros [= <- _]. apply unskipped_internal. cbn [asSkip]. by eapply ResolveRuntimes_noskip.
  - unfold startCall. destruct (prepareCall _ _ _ _ _ _ _) as [[[input raw] files]|p] eqn:Hp.
    + destruct (blobsPut _ _) as [[ref|e] b]; [|intros [= <- _]; auto with skips].
      apply Hwith. clear s1 s r s' Hp. intros ld s r s'. destruct (ResolveRuntimes _ _ _ _) as [[rts|e] w] eqn:HRR.
      * destruct (appendSynced _ _ _ _) as [[e|] s2] eqn:Ha; [intros [= <- _]; apply unskipped_internal; by eapply appendSynced_noskip|apply Hrun].
      * intros [= Hf]. eapply failStep_unskipped, Hf. by eapply ResolveRuntimes_noskip.
    + apply prepareCall_noskip in Hp as (e & [->| ->] & He); [intros [= Hf]; by eapply failStep_unskipped, Hf|intros [= <- _]; by apply unskipped_internal].
Qed.
End noskip.

(** ** Calls that end ok are recorded, and not made again *)

Section finish.
Context `{HL : TimeCodec} {L B W : Type} {HLog : Log L} {HB : Blobs B} {HW : World W} {HS : Signals W} {HE : Externals} {HA : Adapters W}
  {HH : AgentHost W} {HU : Unicode} {HM : MathLog}.
#[local] Notation St := (St L B W).
#[local] Notation run := (option (Result * St)).
Variables (def : option LoadedDefinition) (kinds : Node → bool).

(** The targets of the calls in question do not skip. *)
Definition calls_skipless : Prop := ∀ c mid child cwf, kinds (NCall c) = true → callTarget def mid (caCall c) = Some (child, cwf) →
  skipless_list kinds (wfGraph cwf) = true.

Lemma interpCalls_unskipped other fuel : calls_skipless → no_skip_errors (W := W) → adapters_noskip (W := W) → live_noskip (W := W) →
  ∀ depth ic n cx path s r s', isOther n = true → kinds n = true → interpCalls def depth other fuel ic cx n path s = Some (r, s') → unskipped r.
Proof.
  intros Hsk HNS HNA HNL. induction depth as [|depth IH]; intros ic n cx path s r s' Ho Hc; destruct n; try discriminate Ho; cbn [interpCalls]; try done.
  1, 3: by apply runAgentStep_unskipped.
  1, 3: intros [= Hr]; by eapply runReact_unskipped.
  apply runCallStep_unskipped; [done|done|]. intros child cwf ic' cx' parent s1 r1 s1' Ht.
  apply (nodes_sound ic'). specialize (Hsk _ _ child cwf Hc Ht). destruct (wfGraph cwf) as [l|]; [|constructor].
  cbn [default from_option id skipless_list] in *. rewrite forallb_forall in Hsk. apply Forall_forall. intros n Hn.
  apply (interpNode_sound ic' HNS _ fuel kinds); [intros; by eapply IH|]. by apply Hsk, list_elem_of_In.
Qed.

Lemma fail_not_ok path oc e (s : St) s' : failStep path oc e s ≠ (okResult, s').
Proof. intros Hf. by apply failStep_not_ok in Hf. Qed.

Lemma runChild_finished ic walk cx child cwf path ld input files (s : St) s' :
  runChild def ic walk cx child cwf path ld input files s = Some (okResult, s') → is_Some (rsCompleted (stRS s') !! path).
Proof.
  unfold runChild. destruct (walk _ _ _ _ s) as [[wr s1]|]; [|done]. destruct (isOk wr) eqn:Hok; intros [= Hr].
  - unfold commitCall in Hr. destruct (evaluateWorkflowExports _ _ _ _ _ _ _); [|by apply fail_not_ok in Hr].
    destruct (liftH _ s1) as [[nr|e] s2]; [|done]. injection Hr as <-. cbn. rewrite lookup_insert_eq. by eexists.
  - unfold childFailed in Hr. destruct (String.eqb wr.1 ""); [injection Hr as -> _; done|by apply fail_not_ok in Hr].
Qed.
Lemma withRuntime_finished ic cx child cwf path (k : LocalDispatcher → St → run) (s : St) s' :
  (∀ ld s s', k ld s = Some (okResult, s') → is_Some (rsCompleted (stRS s') !! path)) →
  withRuntime ic cx child cwf path k s = Some (okResult, s') → is_Some (rsCompleted (stRS s') !! path).
Proof.
  intros Hk. unfold withRuntime. destruct (createRuntimeHandles _ _ _ _ _ _) as [[hs|e] w]; [|intros [= Hf]; by apply fail_not_ok in Hf].
  destruct (k _ _) as [[r1 s1]|] eqn:E; [|done]. intros [= -> <-]. by apply Hk in E.
Qed.
Lemma runCallStep_finished ic walk cx c path (s : St) s' :
  runCallStep def ic walk cx c path s = Some (okResult, s') → is_Some (rsCompleted (stRS s') !! path).
Proof.
  unfold runCallStep. destruct (LookupCompleted (stRS s) path) eqn:Hn; [intros [= <-]; by eexists|]. cbv zeta.
  destruct (callTarget def _ _) as [[child cwf]|]; [|intros [= Hf]; by apply fail_not_ok in Hf]. destruct (negb wLocal); [done|].
  destruct (LookupCallStarted _ _) as [rec|].
  - apply withRuntime_finished. clear. intros ld s s'. destruct (ResolveRuntimes _ _ _ _) as [[cur|e] w]; [|done].
    destruct (CheckRuntimesDrift _ _); [done|apply runChild_finished].
  - unfold startCall. destruct (prepareCall _ _ _ _ _ _ _) as [[[input raw] files]|[e|e]]; [|intros [= Hf]; by apply fail_not_ok in Hf|done].
    destruct (blobsPut _ _) as [[ref|e] b]; [|done]. apply withRuntime_finished. clear. intros ld s s'.
    destruct (ResolveRuntimes _ _ _ _) as [[rts|e] w]; [|intros [= Hf]; by apply fail_not_ok in Hf].
    destruct (appendSynced _ _ _ _) as [[e|] s2]; [done|apply runChild_finished].
Qed.
Lemma interpCalls_finished depth other fuel ic n cx path (s : St) s' : isOther n = true →
  interpCalls def depth other fuel ic cx n path s = Some (okResult, s') → is_Some (rsCompleted (stRS s') !! path).
Proof. intros Ho. destruct n, depth; try discriminate Ho; try done; try apply runAgentStep_finished; try apply runCallStep_finished; intros [= Hr]; by eapply runReact_finished. Qed.
Lemma interpCalls_replays depth other fuel ic n cx path (s : St) : isOther n = true →
  is_Some (rsCompleted (stRS s) !! path) → interpCalls def (S depth) other fuel ic cx n path s = Some (okResult, s).
Proof.
  destruct n; try done; intros _; [apply runAgentStep_replay| |intros Hn; cbn [interpCalls]; by rewrite runReact_replay]. intros [nr Hn]. cbn [interpCalls]. unfold runCallStep, LookupCompleted. by rewrite Hn.
Qed.

(** ** Calls and agent steps end *)

(** Calls nested at most [depth] deep, of workflows of modelled kinds whose loops are bounded; agent steps
    that continue no other; react steps. *)
Fixpoint nests (depth : nat) (mid : string) (n : Node) : bool :=
  match n with
  | NAgent v => String.eqb (asContinues v) ""
  | NReact _ => true
  | NCall c =>
      match depth with
      | O => false
      | S depth =>
          match callTarget def mid (caCall c) with
          | None => true
          | Some (child, cwf) => plain_list true (nests depth (lmID child)) (wfGraph cwf) && bounded_list (wfGraph cwf)
          end
      end
  | _ => false
  end.

Lemma runChild_total ic walk cx child cwf path ld input files (s : St) :
  (∀ ic' cx parent s, icModuleID ic' = lmID child → is_Some (walk ic' cx (wfGraph cwf) parent s)) →
  is_Some (runChild def ic walk cx child cwf path ld input files s).
Proof. intros Hw. unfold runChild. destruct (Hw (childIctx ic child cwf path ld input files) cx (CallWorkflowRuntimePath path) s eq_refl) as [[wr s1] ->]. by eexists. Qed.
Lemma withRuntime_total ic cx child cwf path (k : LocalDispatcher → St → run) (s : St) :
  (∀ ld s, is_Some (k ld s)) → is_Some (withRuntime ic cx child cwf path k s).
Proof.
  intros Hk. unfold withRuntime. destruct (createRuntimeHandles _ _ _ _ _ _) as [[hs|e] w]; [|by eexists].
  edestruct Hk as [[r1 s1] E]. rewrite E. by eexists.
Qed.
Lemma runCallStep_total ic walk cx c path (s : St) :
  (∀ child cwf ic' cx parent s, callTarget def (icModuleID ic) (caCall c) = Some (child, cwf) → icModuleID ic' = lmID child →
     is_Some (walk ic' cx (wfGraph cwf) parent s)) →
  is_Some (runCallStep def ic walk cx c path s).
Proof.
  intros Hw. unfold runCallStep. destruct (LookupCompleted (stRS s) path); [by eexists|]. cbv zeta.
  destruct (callTarget def _ _) as [[child cwf]|]; [|by eexists]. destruct (negb wLocal); [by eexists|].
  assert (Hrun : ∀ ld input files s, is_Some (runChild def ic walk cx child cwf path ld input files s)).
  { intros. apply runChild_total. intros. by apply (Hw child cwf). }
  destruct (LookupCallStarted _ _) as [rec|].
  - apply withRuntime_total. intros. destruct (ResolveRuntimes _ _ _ _) as [[cur|e] w]; [|by eexists].
    destruct (CheckRuntimesDrift _ _); [by eexists|apply Hrun].
  - unfold startCall. destruct (prepareCall _ _ _ _ _ _ _) as [[[input raw] files]|[e|e]]; [|by eexists..].
    destruct (blobsPut _ _) as [[ref|e] b]; [|by eexists]. apply withRuntime_total. intros.
    destruct (ResolveRuntimes _ _ _ _) as [[rts|e] w]; [|by eexists]. destruct (appendSynced _ _ _ _) as [[e|] s2]; [by eexists|apply Hrun].
Qed.

Lemma nodes_of_total ic other' fuel kinds' cx nodes parent (s : St) :
  (∀ n cx path s, isOther n = true → kinds' n = true → is_Some (other' cx n path s)) → (two64 ≤ Z.of_nat fuel)%Z →
  plain_list true kinds' nodes = true → bounded_list nodes = true → is_Some (interpNodes ic other' fuel cx nodes parent s).
Proof.
  intros Hc Hf Hp Hb. apply nodes_total. destruct nodes as [l|]; [|constructor]. cbn [default from_option id plain_list bounded_list] in *.
  rewrite forallb_forall in Hp, Hb. apply Forall_forall. intros n Hn cx0 i p s0.
  apply (interpNode_total ic other' fuel kinds'); [done|done|apply Hp|apply Hb]; by apply list_elem_of_In.
Qed.

Lemma interpCalls_total other fuel : (two64 ≤ Z.of_nat fuel)%Z → ∀ depth ic n cx path s, isOther n = true → nests depth (icModuleID ic) n = true →
  is_Some (interpCalls def depth other fuel ic cx n path s).
Proof.
  intros Hf. induction depth as [|depth IH]; intros ic n cx path s Ho; destruct n; try discriminate Ho; cbn [nests interpCalls]; try done.
  all: try (intros _; by eexists).
  1, 2: intros Hc%String.eqb_eq; by apply runAgentStep_total.
  intros Hn. apply runCallStep_total. intros child cwf ic' cx' parent s' Ht Hid. rewrite Ht in Hn. apply andb_prop in Hn as [Hp Hb].
  apply nodes_of_total with (kinds' := nests depth (lmID child)); [|done..]. intros. apply IH; [done|by rewrite Hid].
Qed.

(** More fuel and more depth change nothing. *)
Lemma runChild_more ic (walk walk' : Ictx → Context_ → NodeList → string → St → run) cx child cwf path ld input files (s : St) x :
  (∀ ic cx nodes parent s x, walk ic cx nodes parent s = Some x → walk' ic cx nodes parent s = Some x) →
  runChild def ic walk cx child cwf path ld input files s = Some x → runChild def ic walk' cx child cwf path ld input files s = Some x.
Proof. intros Hw. unfold runChild. destruct (walk _ _ _ _ s) as [[wr s1]|] eqn:E; [|done]. by apply Hw in E as ->. Qed.
Lemma withRuntime_more ic cx child cwf path (k k' : LocalDispatcher → St → run) (s : St) x :
  (∀ ld s x, k ld s = Some x → k' ld s = Some x) → withRuntime ic cx child cwf path k s = Some x → withRuntime ic cx child cwf path k' s = Some x.
Proof.
  intros Hk. unfold withRuntime. destruct (createRuntimeHandles _ _ _ _ _ _) as [[hs|e] w]; [|done].
  destruct (k _ _) as [[r1 s1]|] eqn:E; [|done]. by apply Hk in E as ->.
Qed.
Lemma runCallStep_more ic (walk walk' : Ictx → Context_ → NodeList → string → St → run) cx c path (s : St) x :
  (∀ ic cx nodes parent s x, walk ic cx nodes parent s = Some x → walk' ic cx nodes parent s = Some x) →
  runCallStep def ic walk cx c path s = Some x → runCallStep def ic walk' cx c path s = Some x.
Proof.
  intros Hw. unfold runCallStep. destruct (LookupCompleted (stRS s) path); [done|]. cbv zeta.
  destruct (callTarget def _ _) as [[child cwf]|]; [|done]. destruct (negb wLocal); [done|].
  destruct (LookupCallStarted _ _) as [rec|].
  - apply withRuntime_more. intros ld s0 y. destruct (ResolveRuntimes _ _ _ _) as [[cur|e] w]; [|done].
    destruct (CheckRuntimesDrift _ _); [done|by apply runChild_more].
  - unfold startCall. destruct (prepareCall _ _ _ _ _ _ _) as [[[input raw] files]|[e|e]]; [|done..].
    destruct (blobsPut _ _) as [[ref|e] b]; [|done]. apply withRuntime_more. intros ld s0 y.
    destruct (ResolveRuntimes _ _ _ _) as [[rts|e] w]; [|done]. destruct (appendSynced _ _ _ _) as [[e|] s2]; [done|by apply runChild_more].
Qed.

Lemma nodes_of_more ic (other' other'' : Context_ → Node → string → St → run) fuel fuel' cx nodes parent (s : St) x :
  (∀ cx n path s x, other' cx n path s = Some x → other'' cx n path s = Some x) → fuel ≤ fuel' →
  interpNodes ic other' fuel cx nodes parent s = Some x → interpNodes ic other'' fuel' cx nodes parent s = Some x.
Proof. intros Ho Hf. apply nodes_more. apply Forall_forall. intros n _ cx0 i p s0 y. by apply interpNode_more. Qed.
Lemma interpCalls_more other fuel fuel' depth : ∀ depth' ic cx n path s x, depth ≤ depth' → fuel ≤ fuel' →
  interpCalls def depth other fuel ic cx n path s = Some x → interpCalls def depth' other fuel' ic cx n path s = Some x.
Proof.
  induction depth as [|depth IH]; intros depth' ic cx n path s x Hd Hf; destruct n; try (by destruct depth').
  destruct depth' as [|depth']; [lia|]. cbn [interpCalls]. apply runCallStep_more. intros ic0 cx0 nodes parent u y.
  apply nodes_of_more; [|done]. intros cx1 m q v z. apply IH; [lia|done].
Qed.
End finish.

(** ** A definition with a call *)

(** The steady world, with a local dispatcher. *)
#[global] Instance Local : World () := {
  wDispatch _ _ _ w := ((exDispatch, None), w);
  wSleep _ _ w := (None, w);
  wNotice _ w := w;
  wCtxErr _ _ := None;
  wLocal := true;
  wCreate _ p w := (Ok (MkHandle (spName p) "" "" ""), w);
  wRestore _ _ k w := (Ok (MkHandle k "" "" ""), w);
  wDestroy _ w := (None, w)
}.
#[global] Instance NoAdapters {W} : Adapters W := {
  aLookup _ := None
}.
(** A model that calls a tool once and then answers. *)
Definition exAsks : ToolLoopResult := MkToolResult "let me see" None [MkToolCall 0 "c1" "look" "{}"] "tool_calls" None.
Definition exAnswers : ToolLoopResult := MkToolResult "done" None [] "stop" None.
Definition exModel : Adapter () :=
  MkAdapter (MkCaps false true true false false false false LivenessNone) None (λ _, None) None (λ _ _ w, (Ok "1", w))
    (λ _ _ _ w, (LaunchFailed (plainErr (EmFmt "not an agent" [])) false, w)) None
    (Some (λ _ inv w, (Ok (match liMessages inv with [_] => exAsks | _ => exAnswers end), w))).
#[global] Instance Chat : Adapters () := {
  aLookup ref := if String.eqb ref "chat" then Some exModel else None
}.
(** No live event. *)
#[global] Instance NoHost {W} : AgentHost W := {
  ahStagingRoot := "";
  ahWorkflowDir _ := "";
  ahRedact s := s;
  ahLive w := (([], None), w);
  ahFinalize := None
}.
#[global] Instance NoUnicode : Unicode := {
  IsLetter _ := false; IsDigit _ := false; IsPrint _ := true; IsSpace _ := false; ToLower r := r }.
#[global] Instance NoMathLog : MathLog := { math_log x := x }.

Section example.
#[local] Existing Instance two_times.
#[local] Existing Instance InMemoryLog_laws.
#[local] Existing Instance exSteady_log.

(** The root calls "sub", which runs one step and exports a number. *)
Definition exChild : Workflow :=
  MkWorkflow "child" 1 None ∅ [] ∅ ∅ ∅ ∅ (Some ∅) None {["n" := JNum "1"]} ∅ ∅ (Some [exStep "x"]) "".
Definition exModule : LoadedModule := MkModule "m" (Some exChild) ∅ ∅.
Definition exDef : option LoadedDefinition :=
  Some (MkLoaded (Some exWorkflow) ∅ ∅ (Some {["m" := exModule]}) [MkEdge "" "sub" "" "m"]).
Definition exCall (id : string) : Node := NCall (MkCallStep id "sub" ∅ ∅).
Definition exStepAgent (id : string) : Node := NAgent (MkAgentStep id "" "x" None "" None [] "" None ∅ None None None None).
Definition exReact (id : string) : Node := NReact (MkReact id (Some [("uses", VString "chat")]) "look around" (Some ["look"]) 0 None).
(** The calls without input, the agent steps without skills that continue no other, the react steps without
    a schema. *)
Definition exKinds (n : Node) : bool :=
  match n with
  | NCall c => match map_to_list (caInput c) with [] => true | _ => false end
  | NAgent v => match asSkills v with None => true | Some _ => false end
  | NReact r => match reOutputSchema r with None => in_i64 (reMaxTurns r) | Some _ => false end
  | _ => false
  end.
(** What such a run commits. *)
Definition exTerminal (text stop : string) : DispatchResult :=
  leafResult None (Some [("text", VString text); ("stop_reason", VString stop)]) "" [] None.
Definition exTexts : list string := [""; "let me see"; "done"].
Definition exLeaves : list DispatchResult :=
  [exDispatch; modelLeaf (toModelResult exAsks); modelLeaf (toModelResult exAnswers); toolLeaf 0 exDispatch]
  ++ (t ← exTexts; s ← stops; [exTerminal t s]).
Definition exBytes : list string := Eval vm_compute in ["{}"; "{" +:+ quote "n" +:+ ":1}"] ++ (d ← exLeaves; artifacts d true).
Definition exExport : value := match evalTemplateJson (λ _, Err (GOther (EmFmt "" []))) (JNum "1") with Ok v => v | Err _ => VNil end.
Definition exOuts (o : gomap) : Prop := o ∈ Some [("n", exExport)] :: map drOutputs exLeaves.

Lemma exTarget mid t child cwf : callTarget exDef mid t = Some (child, cwf) → child = exModule ∧ cwf = exChild.
Proof.
  unfold callTarget, callTargetModule, exDef. cbn [mbind option_bind ldImportEdges List.find leParentID leImportID].
  destruct (_ && _); [|done]. cbn [mbind option_bind leChildID Module_ ldModules]. rewrite lookup_singleton_eq. by intros [= <- <-].
Qed.
Lemma exCalls_input c : exKinds (NCall c) = true → caInput c = ∅.
Proof. cbn [exKinds]. destruct (map_to_list _) eqn:E; [|done]. intros _. by apply map_to_list_empty_iff. Qed.
(** Their addresses. *)
Definition exRefs : list (string * string) := Eval vm_compute in map (λ c, (RefFor c, c)) exBytes.
Lemma exRefs_eq : exRefs = map (λ c, (RefFor c, c)) exBytes.
Proof. vm_compute. reflexivity. Qed.
Lemma exBytes_clean : clean (stBlobs exState) exBytes.
Proof.
  split.
  - intros c _ x. unfold exState, exBefore. cbn [stBlobs snd blobsGet InMemoryBlobs_blobs]. unfold memGet.
    rewrite parseRef_RefFor. cbn [res_bind store]. by rewrite lookup_empty.
  - intros c c' Hc Hc' Heq. assert (Hd : forallb (λ p, negb (String.eqb p.1.1 p.2.1) || String.eqb p.1.2 p.2.2) (p ← exRefs; q ← exRefs; [(p, q)]) = true)
      by (vm_compute; reflexivity).
    assert (Hin : ∀ c, c ∈ exBytes → (RefFor c, c) ∈ exRefs) by (intros x Hx; rewrite exRefs_eq; by apply (list_elem_of_fmap_2 (λ c, (RefFor c, c)))).
    assert (Hp : ((RefFor c, c), (RefFor c', c')) ∈ (p ← exRefs; q ← exRefs; [(p, q)])).
    { apply list_elem_of_bind. exists (RefFor c, c). split; [|by apply Hin]. apply list_elem_of_bind. exists (RefFor c', c').
      split; [by apply list_elem_of_singleton|by apply Hin]. }
    rewrite forallb_forall in Hd. apply list_elem_of_In, Hd in Hp. cbn [fst snd] in Hp. rewrite Heq, String.eqb_refl in Hp. by apply String.eqb_eq.
Qed.
Lemma exSyncs : syncs (L := InMemoryLog).
Proof. intros l l' r. cbn [logSync exSteady_log InMemoryLog_log]. by intros [= <- _]. Qed.
(** Every leaf can be stored and read back. *)
Definition leaf_ok (d : DispatchResult) : bool :=
  match drExitCode d with Some z => in_i64 z | None => true end && match drMetrics d with None => true | Some _ => false end
  && match reread (drOutputs d) with Some _ => true | None => false end
  && (utf8_valid (ttUser (drTranscript d)) && utf8_valid (ttAssistant (drTranscript d))).
Lemma leaf_ok_commits d part : leaf_ok d = true → ∃ o', commit_ok d part o'.
Proof.
  intros [[[He Hm]%andb_prop Hr]%andb_prop Hu]%andb_prop. destruct (reread (drOutputs d)) as [o'|] eqn:Ho; [|done]. exists o'.
  split; [by intros z Hz; rewrite Hz in He|by intros m Hz; rewrite Hz in Hm|done|done].
Qed.
Lemma exLeaf_stored d part : d ∈ exLeaves → (∃ o', commit_ok d part o') ∧ (∀ c, c ∈ artifacts d part → c ∈ exBytes) ∧ exOuts (drOutputs d).
Proof.
  intros Hd. split; [|split].
  - apply leaf_ok_commits. assert (Hall : forallb leaf_ok exLeaves = true) by (vm_compute; reflexivity).
    rewrite forallb_forall in Hall. by apply Hall, list_elem_of_In.
  - intros c Hc. assert (E : exBytes = ["{}"; "{" +:+ quote "n" +:+ ":1}"] ++ (d ← exLeaves; artifacts d true)) by (vm_compute; reflexivity).
    rewrite E. apply elem_of_app. right. apply list_elem_of_bind. exists d. split; [|done].
    revert Hc. destruct part; [done|]. unfold artifacts. cbv iota. rewrite !elem_of_app, elem_of_nil. tauto.
  - right. by apply list_elem_of_fmap_2.
Qed.
Lemma exDispatch_storable cx h i w dr e w' : wDispatch (World := Local) cx h i w = ((dr, e), w') → drOutcome dr = OutcomeOK →
  (∃ o', commit_ok dr false o') ∧ (∀ c, c ∈ artifacts dr false → c ∈ exBytes) ∧ exOuts (drOutputs dr).
Proof. intros [= <- _ _] _. apply exLeaf_stored. by left. Qed.

(** The end of a react step is one of the leaves. *)
Lemma exTerminal_leaf r mr stop : exKinds (NReact r) = true → mrText mr ∈ exTexts → stop ∈ stops → terminalLeaf r mr stop ∈ exLeaves.
Proof.
  cbn [exKinds]. destruct (reOutputSchema r) eqn:Hr; [done|]. intros _ Ht Hs. apply elem_of_app. right.
  apply list_elem_of_bind. exists (mrText mr). split; [|done]. apply list_elem_of_bind. exists stop. split; [|done]. apply list_elem_of_singleton.
  unfold terminalLeaf, terminalOutputs, exTerminal. rewrite Hr. by destruct (String.eqb stop "max_turns").
Qed.
Lemma exTexts_read nr mr : exOuts (nrOutputs nr) → roundResultFromLeaf nr = Ok mr → mrText mr ∈ exTexts.
Proof.
  assert (Hall : forallb (λ o, match roundResultFromLeaf (MkNodeResult "" None o "" "" "" ∅ zeroTurn "" "") with
                               | Ok mr => mem (mrText mr) exTexts | Err _ => true end) (Some [("n", exExport)] :: map drOutputs exLeaves) = true)
    by (vm_compute; reflexivity).
  rewrite forallb_forall in Hall. intros Ho%list_elem_of_In%Hall Hm. unfold roundResultFromLeaf in *. cbn [nrOutputs] in Ho. rewrite Hm in Ho. by apply mem_elem.
Qed.

Lemma exCalls_ok sig puts : efPuts puts "{}" → efPuts puts ("{" +:+ quote "n" +:+ ":1}") →
  (∀ d part, d ∈ exLeaves → efResults puts d part) → efRecorded puts (Some [("n", exExport)]) → (∀ o, efRecorded puts o → exOuts o) →
  calls_ok (B := InMemoryBlobs) (HW := Local) sig puts exDef exKinds.
Proof.
  intros H1 H2 H3 H4 H5. split.
  - intros c mid child cwf _ [_ ->]%exTarget. done.
  - intros ic rs b c child cwf path input raw files Hc [_ ->]%exTarget. unfold prepareCall, evaluateCallInput.
    rewrite (exCalls_input c Hc). intros (i & Hi & (f & _ & Hp)%res_bind_ok)%res_bind_ok. injection Hi as <-.
    change (Marshal (VMap [])) with (Some "{}") in Hp. by injection Hp as _ <- _.
  - intros rs b c mid child cwf path input product m raw _ [_ ->]%exTarget. unfold evaluateWorkflowExports, EvaluateExportsInDef. cbv zeta.
    intros (out & Ho & (f & _ & Hp)%res_bind_ok)%res_bind_ok. injection Hp as <-. cbn [weOutputs]. intros -> Hm.
    revert Ho. vm_compute. intros [= <-]. revert Hm. vm_compute. by intros [= <-].
  - intros rs b c mid child cwf path input product _ [_ ->]%exTarget. unfold evaluateWorkflowExports, EvaluateExportsInDef. cbv zeta.
    intros (out & Ho & (f & _ & Hp)%res_bind_ok)%res_bind_ok. injection Hp as <-. cbn [weOutputs].
    revert Ho. vm_compute. intros [= <-]. exact H4.
  - intros v Hv. split; [|left; cbn [exKinds] in Hv; by destruct (asSkills v)]. exists (λ _, False). split; try done.
    + intros cx h i w dr e w' [= <- _ _]. split; [done|]. intros _ part. apply H3. by left.
    + intros w inputs oe w' ev [= <- _ _]. apply not_elem_of_nil.
  - intros r Hr. split.
    + cbn [exKinds] in Hr. by destruct (reOutputSchema r).
    + intros run cx inv w x w'. unfold toolLoopRunnerFor. cbn [wLocal Local negb aLookup Chat]. destruct (String.eqb (usesOf r) "chat"); [|done].
      cbn. intros [= <-] [= <- _]. split; [apply H3; by destruct (liMessages inv) as [|m [|]]; cbn; auto using list_elem_of_further, list_elem_of_here|].
      intros stop Hs. apply H3, exTerminal_leaf; [done| |done]. destruct (liMessages inv) as [|m [|]]; cbn; repeat constructor.
    + intros nr mr stop Hn Hm Hs. apply H3, exTerminal_leaf; [done| |done]. eapply exTexts_read; [by apply H5|done].
    + intros cx h i w dr e w' code [= <- _ _] [= <-]. apply H3. do 3 right. by left.
Qed.
End example.

(** ** Properties *)

(** What calls put can be stored and read back; a call.started is folded once, so no sync may fail. *)
Definition storable `{Log L} (cs : list string) (c : string) : Prop :=
  c ∈ cs ∧ (∃ m, unmarshalMap c = Some (Some m)) ∧ syncs (L := L).
(** So can what agent steps commit, and the payloads of their events; they select no skills. *)
Definition storedEffects `{Log L} (cs : list string) (outs : gomap → Prop) : effects := MkEffects (storable cs) (λ c, c ∈ cs)
  (λ dr part, (∃ o', commit_ok dr part o') ∧ (∀ c, c ∈ artifacts dr part → c ∈ cs) ∧ outs (drOutputs dr)) False outs.
(** The outputs a state holds are among those. *)
Definition holds_outs (outs : gomap → Prop) (rs : RunState) : Prop := ∀ p nr, rsCompleted rs !! p = Some nr → outs (nrOutputs nr).

(** The walk of a list, with its calls. *)
Lemma walk_of_calls `{HL : TimeCodec} {L B W : Type} {HLog : Log L} {HB : Blobs B} {HW : World W} {HS : Signals W} {HE : Externals}
    {HA : Adapters W} {HH : AgentHost W} {HU : Unicode} {HM : MathLog} sig puts def kinds depth ic other fuel cx nodes parent (s : St L B W) r s' :
  calls_ok (B := B) (W := W) sig puts def kinds → plain_list sig kinds nodes = true →
  interpNodes ic (interpCalls def depth other fuel ic) fuel cx nodes parent s = Some (r, s') → ∃ P, walks sig puts P s s'.
Proof.
  intros Hok Hp Hr. unfold interpNodes, interpNodesOf in Hr. destruct nodes as [l|]; [|exists (λ _, True); injection Hr as _ <-; apply walks_refl].
  cbn [plain_list] in Hp. rewrite forallb_forall in Hp. eexists. eapply interpList_walks, Hr.
  apply Forall_forall. intros n Hn cx0 i p s0 r0 s0'. apply (interpNode_calls_walks sig puts def kinds Hok). by apply Hp, list_elem_of_In.
Qed.

(** The simulation over such a walk. *)
Lemma fold_of_walk `{HL : TimeCodec} {L B W : Type} {HLog : Log L} {HLaws : LogLaws} {HR : LogRobust}
    {HB : Blobs B} {HBL : BlobsLaws} {HW : World W} {HS : Signals W} {HE : Externals} {HA : Adapters W}
    {HH : AgentHost W} {HU : Unicode} {HM : MathLog} def kinds depth ic other fuel cx nodes parent (cs : list string) (outs : gomap → Prop) (s : St L B W) r s' :
  (∀ cx h i w dr e w', wDispatch cx h i w = ((dr, e), w') → drOutcome dr = OutcomeOK →
     (∃ o', commit_ok dr false o') ∧ (∀ c, c ∈ artifacts dr false → c ∈ cs) ∧ outs (drOutputs dr)) →
  clean (stBlobs s) cs → holds_outs outs (stRS s) → calls_ok (B := B) (W := W) false (storedEffects (L := L) cs outs) def kinds → plain_list false kinds nodes = true →
  logOK (stLog s) → logEvents (stLog s) ≠ [] → Fold (blobsGet (stBlobs s)) (logEvents (stLog s)) = Ok (stRS s) →
  interpNodes ic (interpCalls def depth other fuel ic) fuel cx nodes parent s = Some (r, s') → sim cs (storedEffects (L := L) cs outs) s'.
Proof.
  intros Hd Hc Ho Hco Hp Hok Hne HF Hr. destruct (walk_of_calls _ _ _ _ _ _ _ _ _ _ _ _ _ _ Hco Hp Hr) as [P Hw].
  apply (sim_walks cs (storedEffects (L := L) cs outs) Hd) in Hw; [done|by intros c Hcc|by intros c|by intros dr part|exact (λ x, x)|].
  split; [done|]. split; [done|]. split; [done|]. split; [exact Ho|]. exists (stRS s). split; [done|]. by eapply mirrors_self.
Qed.



(** C13: the walk of a graph ends.  When every loop of a graph of modelled kinds, and of the workflows it
    calls, carries max_iters, no agent step continues another, and calls are nested at most [depth] deep,
    the walk of the graph ends with a result, from every state and whatever the outside world answers: one result, which every fuel of
    2^64 or more and every larger depth gives, so the bound on the iterations of a loop is the range of
    its counter and never the fuel. *)
Theorem interpNodes_terminates `{HL : TimeCodec} {L B W : Type} {HLog : Log L} {HB : Blobs B} {HW : World W}
    {HS : Signals W} {HE : Externals} {HA : Adapters W} {HH : AgentHost W} {HU : Unicode} {HM : MathLog} def depth ic other cx nodes parent (s : St L B W) :
  plain_list true (nests def depth (icModuleID ic)) nodes = true → bounded_list nodes = true →
  ∃ x, ∀ fuel depth', (two64 ≤ Z.of_nat fuel)%Z → (depth ≤ depth')%nat →
    interpNodes ic (interpCalls def depth' other fuel ic) fuel cx nodes parent s = Some x.
Proof.
  intros Hp Hb. assert (Hn : is_Some (interpNodes ic (interpCalls def depth other (Z.to_nat two64) ic) (Z.to_nat two64) cx nodes parent s)).
  { apply nodes_of_total with (kinds' := nests def depth (icModuleID ic)); [|unfold two64; lia|done..].
    intros. apply interpCalls_total; [unfold two64; lia|done..]. }
  destruct Hn as [x Hx]. exists x. intros fuel depth' Hf Hd. revert Hx. apply nodes_of_more; [|unfold two64 in *; lia].
  intros cx0 n p s0 y. apply interpCalls_more; [done|unfold two64 in *; lia].
Qed.

(** The step of a node is at its address and inside it, whatever it calls. *)
Definition targets_plain (def : option LoadedDefinition) (kinds : Node → bool) : Prop :=
  (∀ c mid child cwf, kinds (NCall c) = true → callTarget def mid (caCall c) = Some (child, cwf) → plain_list true kinds (wfGraph cwf) = true) ∧
  ∀ r, kinds (NReact r) = true → in_i64 (reMaxTurns r) = true.
Lemma targets_calls_ok `{HB : Blobs B} `{HW : World W} `{HE : Externals} `{HA : Adapters W} `{HH : AgentHost W} def kinds : targets_plain def kinds → calls_ok (B := B) (W := W) true allEffects def kinds.
Proof. intros [Ht Hr]. split; [exact Ht|done..| |intros r Hk; split; [by apply Hr|done..]]. intros v _. split; [|by right]. exists (λ _, True). split; try done. intros. split; [by apply Forall_true|done]. Qed.

(** C22: a node writes at its own address.  Whatever happens in it, and in the workflows it calls, the
    walk of a node changes what the run state records — the committed nodes, the branches taken, the
    iterations of the loops, the attempts of the gates, the started calls — at the address of the node
    and at addresses inside it, and nowhere else. *)
Theorem interpNode_footprint `{HL : TimeCodec} {L B W : Type} {HLog : Log L} {HB : Blobs B} {HW : World W}
    {HS : Signals W} {HE : Externals} {HA : Adapters W} {HH : AgentHost W} {HU : Unicode} {HM : MathLog} def kinds depth ic other fuel n cx idx parent (s : St L B W) r s' q :
  targets_plain def kinds → plain true kinds n = true →
  interpNode ic (interpCalls def depth other fuel ic) fuel cx n idx parent s = Some (r, s') →
  ¬ under (nodePath parent n idx) q → same_at q (stRS s) (stRS s').
Proof. intros Ht Hp Hr Hq. apply (interpNode_calls_walks true _ def kinds (targets_calls_ok _ _ Ht)) in Hr; [by eapply walks_frame|done]. Qed.

(** C7: a gate is judged, attempt by attempt.  Start or resume a gate whose recorded attempts are as a
    gate leaves them.  Whatever happens in its blocks, and in the workflows they call, the attempts grow
    by new ones, still numbered from 1, none after one that passed, and at most max_attempts of them.
    The gate ends ok only when its last attempt passed, or when it was skipped; a passed attempt makes it
    ok; and when the last allowed attempt is judged and rejected, the gate ends rejected. *)
Theorem gate_attempts `{HL : TimeCodec} {L B W : Type} {HLog : Log L} {HB : Blobs B} {HW : World W} {HS : Signals W}
    {HE : Externals} {HA : Adapters W} {HH : AgentHost W} {HU : Unicode} {HM : MathLog} def kinds depth ic other fuel gn en until mx cx idx parent (s : St L B W) r s' :
  let path := nodePath parent (NGate gn en until mx) idx in
  let before := LookupGateAttempts (stRS s) path in
  targets_plain def kinds → plain true kinds (NGate gn en until mx) = true →
  isEmpty gn = false → isEmpty en = false → (1 ≤ mx)%Z → gate_ok before →
  interpNode ic (interpCalls def depth other fuel ic) fuel cx (NGate gn en until mx) idx parent s = Some (r, s') →
  gate_run path mx before r s'.
Proof.
  cbv zeta. intros Ht Hp Hg He Hm Hb. apply (gate_attempts_of true allEffects kinds); [|done..].
  intros n cx0 p s0 r0 s0' Ho Hc Hne Hr. by eapply (interpCalls_walks true _ def kinds (targets_calls_ok _ _ Ht)).
Qed.

Section witnesses.
#[local] Existing Instance two_times.
#[local] Existing Instance InMemoryLog_laws.
#[local] Existing Instance exSteady_log.
#[local] Existing Instance Local.

(** The workflow has the tool that the model calls. *)
Definition exToolIctx : Ictx :=
  MkIctx (MkWorkflow "w" 1 None ∅ [] ∅ ∅ ∅ ∅ None None ∅ ∅ {["look" := MkTool "" None (MkToolImpl "ls" "" None [] ∅ None)]} (Some exGraph) "")
    "" (MkFrame "" None None) ∅ noHandles.
Definition exNowhere (ic : Ictx) (cx : Context_) (n : Node) (path : string) (s : St InMemoryLog InMemoryBlobs ()) : option (Result * St InMemoryLog InMemoryBlobs ()) :=
  Some (internal (EErrf "not run" []), s).
(** The graph of [exGraph], an agent step, a react step that calls a tool, and two calls, one in a branch. *)
Definition exCalling : list Node := exGraph ++ [exCall "k"; exStepAgent "ag"; exReact "re"; NIf "{{ true }}" (Some [exCall "l"]) None].
Definition exWalk (nodes : NodeList) : option (Result * St InMemoryLog InMemoryBlobs ()) :=
  interpNodes exToolIctx (interpCalls exDef 2 exNowhere 8 exToolIctx) 8 Cancellable nodes "" exState.

Lemma exStorable c : c ∈ exBytes → (∃ m, unmarshalMap c = Some (Some m)) → storable (L := InMemoryLog) exBytes c.
Proof. intros Hc Hm. split; [done|]. split; [done|apply exSyncs]. Qed.
Lemma exCalls_storable : calls_ok (B := InMemoryBlobs) (W := ()) false (storedEffects (L := InMemoryLog) exBytes exOuts) exDef exKinds.
Proof.
  apply exCalls_ok; [apply exStorable; [by left|by eexists; vm_compute]|apply exStorable; [right; by left|by eexists; vm_compute]| |by left|done].
  intros d part Hd. by apply exLeaf_stored.
Qed.
Lemma exTargets_plain : targets_plain exDef exKinds.
Proof. split; [intros c mid child cwf _ [_ ->]%exTarget; reflexivity|]. intros r. cbn [exKinds]. by destruct (reOutputSchema r). Qed.
Lemma exState_outs : holds_outs exOuts (stRS exState).
Proof. intros p nr. assert (E : rsCompleted (stRS exState) = ∅) by (vm_compute; reflexivity). by rewrite E, lookup_empty. Qed.


Definition exResumable : NodeList :=
  Some [exStep "a"; NIf "{{ true }}" (Some [exStep "b"]) None; NTry (Some [exCall "c"; exStepAgent "ag"; exReact "re"]) None (Some [exStep "d"])].


Lemma interpNodes_terminates_witness :
  ∃ x, ∀ fuel depth, (two64 ≤ Z.of_nat fuel)%Z → (1 ≤ depth)%nat →
    interpNodes exToolIctx (interpCalls exDef depth exNowhere fuel exToolIctx) fuel Cancellable (Some exCalling) "" exState = Some x.
Proof. apply (interpNodes_terminates exDef 1 exToolIctx exNowhere Cancellable (Some exCalling) "" exState); vm_compute; reflexivity. Defined.

Definition exLoopCall : Node := NLoop None (Some 2%Z) (Some [exStep "c"; exCall "k"; exStepAgent "ag"; exReact "re"]).
Lemma interpNode_footprint_witness :
  ∃ r s', interpNode exToolIctx (interpCalls exDef 2 exNowhere 8 exToolIctx) 8 Cancellable exLoopCall 2 "" exState = Some (r, s') ∧
          same_at "a" (stRS exState) (stRS s').
Proof.
  assert (Hs : match interpNode exToolIctx (interpCalls exDef 2 exNowhere 8 exToolIctx) 8 Cancellable exLoopCall 2 "" exState with Some _ => true | None => false end = true)
    by (vm_compute; reflexivity).
  destruct (interpNode exToolIctx (interpCalls exDef 2 exNowhere 8 exToolIctx) 8 Cancellable exLoopCall 2 "" exState) as [[r s']|] eqn:E; [|discriminate Hs].
  exists r, s'. split; [reflexivity|].
  apply (interpNode_footprint exDef exKinds 2 exToolIctx exNowhere 8 exLoopCall Cancellable 2 "" exState r s' "a");
    [apply exTargets_plain|vm_compute; reflexivity|exact E|].
  intros [H|[t H]]; discriminate H.
Defined.

(** Two attempts, both rejected; the draft is a call. *)
Definition exReject : Node := NGate (Some [exCall "g"; exStepAgent "ag"; exReact "re"]) (Some [exStep "e"]) "{{ false }}" 2.
Definition exRejectPath : string := nodePath "" exReject 0.
Lemma exReject_none : LookupGateAttempts (stRS exState) exRejectPath = [].
Proof. vm_compute. reflexivity. Qed.

Lemma gate_attempts_witness :
  ∃ r s', interpNode exToolIctx (interpCalls exDef 2 exNowhere 8 exToolIctx) 8 Cancellable exReject 0 "" exState = Some (r, s') ∧
          length (LookupGateAttempts (stRS s') exRejectPath) = 2 ∧
          gate_run exRejectPath 2 (LookupGateAttempts (stRS exState) exRejectPath) r s'.
Proof.
  assert (Hs : match interpNode exToolIctx (interpCalls exDef 2 exNowhere 8 exToolIctx) 8 Cancellable exReject 0 "" exState with
               | Some (_, s') => Nat.eqb (length (LookupGateAttempts (stRS s') exRejectPath)) 2
               | None => false
               end = true) by (vm_compute; reflexivity).
  destruct (interpNode exToolIctx (interpCalls exDef 2 exNowhere 8 exToolIctx) 8 Cancellable exReject 0 "" exState) as [[r s']|] eqn:E; [|discriminate Hs].
  apply Nat.eqb_eq in Hs. exists r, s'. split; [reflexivity|]. split; [exact Hs|].
  apply (gate_attempts exDef exKinds 2 exToolIctx exNowhere 8 (Some [exCall "g"; exStepAgent "ag"; exReact "re"]) (Some [exStep "e"]) "{{ false }}" 2 Cancellable 0 "" exState r s');
    [apply exTargets_plain|vm_compute; reflexivity|reflexivity|reflexivity|discriminate| |exact E].
  fold exReject exRejectPath. rewrite exReject_none. apply gate_ok_nil.
Defined.
End witnesses.

(** ** What the laws do not give *)

Section cases.
#[local] Existing Instance two_times.
#[local] Existing Instance exSteady_log.
#[local] Existing Instance Local.

Definition exRoot (graph : list Node) : Workflow := MkWorkflow "w" 1 None ∅ [] ∅ ∅ ∅ ∅ None None ∅ ∅ ∅ (Some graph) "".
Definition exRunCalls (d : option LoadedDefinition) (graph : list Node) (s : St InMemoryLog InMemoryBlobs ()) :=
  RunCalls d 2 8 exNowhere (exRoot graph) ∅ noHandles (MkOptions None None "") s.
(** The result of a run and of its resumption from the folded log. *)
Definition exTwice (graph : list Node) : option (Result * Result) :=
  '(r, s) ← exRunCalls exDef graph exState;
  rs ← match Fold (blobsGet (stBlobs s)) (logEvents (stLog s)) with Ok rs => Some rs | Err _ => None end;
  '(r', _) ← exRunCalls exDef graph (MkSt (stLog s) (stBlobs s) rs (stW s));
  Some (r, r').

(** The preflight looks for a started call at its static address: a run with a call in a loop cannot be
    resumed, and a run with a call outside can. *)
Lemma loop_call_not_resumable :
  exTwice [exLoopCall; exStep "z"]
  = Some (okResult, internal (EErrf "engine.Run: call.started at %q no longer maps to a call step" ["loop[0].body.iter-1.k"])) ∧
  exTwice [exCall "k"; exStep "z"] = Some (okResult, okResult).
Proof. split; vm_compute; reflexivity. Qed.

(** A child that ends with skip is journaled as failed with the outcome ok, and the rest of the caller
    is skipped. *)
Definition exSkipDef : option LoadedDefinition :=
  Some (MkLoaded (Some exWorkflow) ∅ ∅
    (Some {["m" := MkModule "m" (Some (MkWorkflow "child" 1 None ∅ [] ∅ ∅ ∅ ∅ (Some ∅) None ∅ ∅ ∅ (Some [NSkip "done"]) "")) ∅ ∅]})
    [MkEdge "" "sub" "" "m"]).
Lemma skipped_child_failed_ok :
  (λ x : Result * St InMemoryLog InMemoryBlobs (), (x.1, map (λ e, (EvType e, Path e, Data e)) (List.tl (logEvents (stLog x.2)))))
    <$> exRunCalls exSkipDef [exCall "k"; exStep "z"] exState
  = Some (okResult,
      [(EventNodeStarted, "k", Some (JObj [("kind", JStr "call")]));
       (EventCallStarted, "k", Some (JObj [("input_ref", JStr (RefFor "{}"))]));
       (EventNodeFailed, "k", Some (JObj [("outcome", JStr "ok")]));
       (EventNodeSkipped, "", Some (JObj [("reason", JStr "done")]))]).
Proof. vm_compute. reflexivity. Qed.

(** The exports of a child are resolved at the caller's address, with the paths of the child: where both
    have a loop at the same address, the iteration of the caller picks the iteration of the child. *)
Definition exLooping : Workflow :=
  MkWorkflow "child" 1 None ∅ [] ∅ ∅ ∅ ∅ (Some ∅) None {["n" := JStr "{{ step.x.n }}"]} ∅ ∅ (Some [NLoop None (Some 2%Z) (Some [exStep "x"])]) "".
Definition exNumber (v : Z) : NodeResult := MkNodeResult OutcomeOK None (Some [("n", VInt v)]) "" "" "" ∅ zeroTurn "" "".
Definition exIterated (call : string) : RunState :=
  let p := call +:+ ".workflow.loop[0]" in
  RecordLoopIter p 2 (RecordCompleted (p +:+ ".body.iter-1.x") (exNumber 1)
    (RecordCompleted (p +:+ ".body.iter-2.x") (exNumber 2) (NewRunState "r" "d" None))).
Definition exExports (call : string) : option gomap :=
  match evaluateWorkflowExports exDef "m" (exIterated call) exLooping call None (stBlobs exState) with
  | Ok p => Some (weOutputs p)
  | Err _ => None
  end.
Lemma exports_callers_iteration :
  exExports "k" = Some (Some [("n", VInt 2)]) ∧ exExports "loop[1].body.iter-1.k" = Some (Some [("n", VInt 2)]) ∧
  exExports "loop[0].body.iter-1.k" = Some (Some [("n", VInt 1)]).
Proof. repeat split; vm_compute; reflexivity. Qed.
End cases.
