(* ===== verification/MapRun.v ===== *)
(** * Maps: engine/map.go and engine/prune.go

    A map runs its body once per item, the items side by side.  The handler's own decisions are
    functions; what runs beside them is a step relation on [MapSt], one transition per call that another
    goroutine can come between (a lock, a log call, the end of a body).  A body may take any step that
    leaves the records of the map alone ([itemStep]); [MapLaws] shows that a walk does. *)

From S2P Require Import Prelude GoNum Sort GoJson GoStruct TmplLexer TmplParser TmplSlots TmplEval RetryPolicy EnginePath GoPath.
From S2P Require Import StateBlobs StateLog EngineEvents RunState EngineFold Journal Ir IrShape Commit Scope Artifacts Containers RetryLoop Steps Interp InterpFold.

(** ** Thresholds *)

(** [int64(p)] and one more when it is below [p], at least 1: the fraction arm. *)
Definition ceilAtLeast1 (p : f64) : Z :=
  let needed := f64_trunc p in
  let needed := if f64_ltb (f64_of_Z needed) p then (needed + 1)%Z else needed in
  if (needed <? 1)%Z then 1%Z else needed.
Definition ratioThreshold (r : option Ratio) (total : Z) : Z :=
  match r with
  | None => total
  | Some r =>
      match ParseInt r with
      | Some i => if (i <? 0)%Z || (total <? i)%Z then total else i
      | None =>
          match ParseFloat r with
          | Some f => if f64_leb f f64_zero || f64_ltb (f64_of_Z 1) f then total
                      else ceilAtLeast1 (f64_mul f (f64_of_Z total))
          | None => total
          end
      end
  end.
Definition defaultMinSuccess (n : MapHead) (total : Z) : Z := ratioThreshold (mpMinSuccess n) total.
Definition quorumThreshold (q : option Ratio) (cohort : Z) : Z := ratioThreshold q cohort.

Example thresholds : map (λ r, ratioThreshold r 5) [None; Some "3"; Some "9"; Some "-1"; Some "0.5"; Some "0.8"; Some "0.81"; Some "1.5"] =
  [5; 3; 5; 5; 3; 4; 5; 5]%Z.
Proof. by vm_compute. Qed.
(** The count of [s] among the statuses. *)
Definition countStatus (s : string) (statuses : list string) : Z := Z.of_nat (length (List.filter (String.eqb s) statuses)).
Definition tallyResults (statuses : list string) : Z * Z := (countStatus ItemPassed statuses, countStatus ItemFailed statuses).
Definition countPruned (statuses : list string) : Z := countStatus ItemPruned statuses.

(** An all-pruned cohort with a fraction still asks for one item. *)
Example fraction_of_nothing : defaultMinSuccess (MkMapHead "" "" None "it" "" "" None (Some "0.5") None None) 0 = 1%Z.
Proof. by vm_compute. Qed.

(** ** prune.go: the controller *)

Definition asFloat (raw : value) : res EvalMsg f64 :=
  match raw with
  | VFloat x => Ok x
  | VInt z => Ok (f64_of_Z z)
  | VNumber l => match ParseFloat l with
                 | Some x => Ok x
                 | None => Err (EmFmt "strconv.ParseFloat: parsing %q: value out of range" [l])
                 end
  | VNil => Err (EmText "score is absent (nil)")
  | v => Err (EmFmt "score is %T, want a number" [goType v])
  end.

(** [best.score], and nothing else. *)
Definition bestResolve (best : f64) (ref : Ref) : res goerr value :=
  match Segments ref with
  | [a; b] => if negb (IsIndex a) && String.eqb (Ident a) "best" && negb (IsIndex b) && String.eqb (Ident b) "score"
              then Ok (VFloat best) else unresolved (EmText "prune.stop_when may only reference best.score")
  | _ => unresolved (EmText "prune.stop_when may only reference best.score")
  end.
Definition bestOf (latest : f64) (scores : gmap nat f64) : f64 :=
  foldl (λ best s, if f64_ltb best s then s else best) latest (map_to_list scores).*2.
Definition evalStopWhen (policy : Prune) (scores : gmap nat f64) (latest : f64) : res goerr bool :=
  EvalBoolString (bestResolve (bestOf latest scores)) (pnStopWhen policy).

(** The order of [lowestBeyondK]: the higher score first, then the lower index. *)
Definition score_before (a b : nat * f64) : bool :=
  if negb (f64_eqb a.2 b.2) then f64_ltb b.2 a.2 else (a.1 <? b.1)%nat.
Definition score_leb (a b : nat * f64) : bool := (a.1 =? b.1)%nat || score_before a b.
Definition lowestBeyondK (k : nat) (scores : gmap nat f64) : list nat :=
  sort_by Nat.leb (drop k (sort_by score_leb (map_to_list scores))).*1.

Inductive pruneDecision : Type := PruneLosers (losers : list nat) | StopAll.
Definition Report (policy : Prune) (item : nat) (raw : value) (scores : gmap nat f64) : res goError pruneDecision * gmap nat f64 :=
  match asFloat raw with
  | Err m => (Err (EWrap "prune.score: item %d: %w" [Itoa (Z.of_nat item)] (EMsg m)), scores)
  | Ok score =>
      let scores := <[item := score]> scores in
      (if negb (String.eqb (pnStopWhen policy) "")
       then match evalStopWhen policy scores score with
            | Err e => Err (EWrap "prune.stop_when: %w" [] (ETmpl e))
            | Ok true => Ok StopAll
            | Ok false => Ok (PruneLosers [])
            end
       else
         let k := default 0%Z (pnKeep policy) in
         if (Z.of_nat (size scores) <=? k)%Z then Ok (PruneLosers [])
         else Ok (PruneLosers (lowestBeyondK (Z.to_nat k) scores)), scores)
  end.

(** ** prune.go: the frontier of one map *)

Record pruneRun : Type := MkPruneRun {
  prPolicy : Prune; prStepID : string; prScores : gmap nat f64;
  prCancels : gset nat; prPruned : gset nat; prCompleted : gset nat; prStopAll : bool }.
Definition newPruneRun (policy : Prune) (stepID : string) : pruneRun := MkPruneRun policy stepID ∅ ∅ ∅ ∅ false.
Definition register (item : nat) (r : pruneRun) : pruneRun :=
  MkPruneRun (prPolicy r) (prStepID r) (prScores r) ({[ item ]} ∪ prCancels r) (prPruned r) (prCompleted r) (prStopAll r).
Definition isPruned (r : pruneRun) (item : nat) : bool :=
  bool_decide (item ∈ prPruned r) || (prStopAll r && negb (bool_decide (item ∈ prCompleted r))).

(** [report] in its three critical sections: the completed set, the controller, the decision. *)
Definition rawScore (r : pruneRun) (rs : RunState) (mapPath : string) (item : nat) : res goError value :=
  match LookupCompleted rs (ItemStepPath mapPath (Z.of_nat item) (prStepID r)) with
  | None => Err (EErrf "prune.score: item %d: body step %q committed no typed output" [Itoa (Z.of_nat item); prStepID r])
  | Some nr => Ok (default VNil (entry_get (pnScore (prPolicy r)) (default [] (nrOutputs nr))))
  end.
Definition markCompleted (item : nat) (r : pruneRun) : pruneRun :=
  MkPruneRun (prPolicy r) (prStepID r) (prScores r) (prCancels r) (prPruned r) ({[ item ]} ∪ prCompleted r) (prStopAll r).
Definition withScores (scores : gmap nat f64) (r : pruneRun) : pruneRun :=
  MkPruneRun (prPolicy r) (prStepID r) scores (prCancels r) (prPruned r) (prCompleted r) (prStopAll r).
Definition applyDecision (d : pruneDecision) (r : pruneRun) : pruneRun :=
  match d with
  | StopAll => MkPruneRun (prPolicy r) (prStepID r) (prScores r) (prCancels r)
                 (prPruned r ∪ (prCancels r ∖ prCompleted r)) (prCompleted r) true
  | PruneLosers losers => MkPruneRun (prPolicy r) (prStepID r) (prScores r) (prCancels r)
                            (list_to_set losers ∪ prPruned r) (prCompleted r) (prStopAll r)
  end.

(** ** map.go: what comes before the items *)

Definition boundCause (text : string) : string :=
  if (slen text <=? 1024)%nat then text
  else
    let fix cut (n : nat) := match n with
                             | O => O
                             | S m => if (match String.get n text with Some c => (128 <=? nat_of_ascii c)%nat && (nat_of_ascii c <? 192)%nat | None => false end)
                                      then cut m else n
                             end in
    stake (cut 1024) text +:+ "…".

(** Also run again: an item whose failure was retryable, on resume, outside a frontier. *)
Definition shouldRerunItem (n : MapHead) (resume : bool) (mr : MapItemRecord) : bool :=
  if negb resume || match mpPrune n with Some _ => true | None => false end then false
  else if negb (String.eqb (mrStatus mr) ItemFailed) || String.eqb (mrReason mr) ReasonImageUnavailable then false
  else String.eqb (mrOutcome mr) OutcomeRetryableFailure.

Definition evalOver (resolve : Ref → res goerr value) (src : string) : res goError value :=
  if String.eqb src "" then Err (EErrf "`over` is empty (AWF1012 should have caught)" [])
  else match ParseExpr (UnwrapEnvelope src) with
       | Err e => Err (EWrap "parse: %w" [] (ETmpl (GSyntax e)))
       | Ok (RefExpr r) => res_map_err ETmpl (resolve r)
       | Ok _ => Err (EErrf "`over` must be a single reference (got compound %T) — Phase 3 slice 3.4 minimum" [])
       end.
Definition resolveOverItems (n : MapHead) (resolve : Ref → res goerr value) : res goError value :=
  match mpOverItems n with Some l => Ok (VSlice l) | None => evalOver resolve (mpOver n) end.

Definition committedItems (items : list MapItemRecord) : gmap Z MapItemRecord :=
  foldl (λ m mr, <[mrN mr := mr]> m) ∅ items.
(** The values of folded items are filled in again (the indices of a fold are not negative). *)
Definition refill (mapPath : string) (over : list value) (items : list MapItemRecord) (rs : RunState) : RunState :=
  foldl (λ rs mr, match mrItemValue mr, over !! Z.to_nat (mrN mr) with
                  | VNil, Some v => UpdateMapItemValue mapPath (mrN mr) v rs
                  | _, _ => rs
                  end) rs items.
Definition capOf (n : MapHead) (total : nat) : Z :=
  let c := default 1%Z (mpConcurrency n) in
  let c := if (c <? 1)%Z then 1%Z else c in
  Z.min c (Z.of_nat total).

(** ** One item *)

(** What the goroutine of an item does next.  [data]: the map.item record being committed. *)
Inductive phase : Type :=
  | PhNew                                   (* not started *)
  | PhStart | PhRegistered | PhQueued       (* started; its cancel registered; waiting for a slot *)
  | PhHolding                               (* a slot acquired *)
  | PhBody (digest : string)                (* the body is being walked *)
  | PhSkip (digest reason : string)         (* the body ended in a skip *)
  | PhAppend (data : MapItemData) | PhSync (data : MapItemData) | PhSynced (data : MapItemData)
  | PhScore | PhReport (raw : value) | PhApply (d : pruneDecision)
  | PhRelease | PhDone.

#[export] Instance phase_new_dec p : Decision (p = PhNew).
Proof. destruct p; by (left; done) || (right; done). Defined.

(** The slot is held from [Acquire] to the end of the goroutine. *)
Definition holding (p : phase) : bool :=
  match p with PhNew | PhStart | PhRegistered | PhQueued | PhDone => false | _ => true end.

(** An internal error of an item; [IDefinition]: a render fault of the image or a rejected spec. *)
Inductive itemErr : Type := IDefinition (e : goError) | IInternal (e : goError).

(** [Backend.Create] of the item's container. *)
Inductive createResult : Type :=
  | Created (digest : string) | CreateCtx (e : goError) | CreateUnavailable | CreateRejected (e : goError).

Section map.
Context `{Log L} `{Blobs B} `{World W} `{Signals W} `{Externals}.
#[local] Notation St := (St L B W).
Variable ic : Ictx.
Variables (n : MapHead) (mapPath : string) (resume : bool).

(** The image of an item, rendered in its own scope; [None]: the container is a declared one. *)
Definition renderImage (rs : RunState) (item : nat) : res itemErr (option string) :=
  if String.eqb (mpImage n) "" then Ok None
  else
    let fault e := Err (IDefinition (EWrap "map item-%d: runtime image: failed to render: %v" [Itoa (Z.of_nat item)] e)) in
    match Substitute (Resolve (scopeAt ic rs (ItemPath mapPath (Z.of_nat item)))) (mpImage n) with
    | Err e => fault (ETmpl e)
    | Ok rendered => if String.eqb (TrimSpace rendered) "" then fault (EErrf "map.image %q rendered to an empty string" [mpImage n])
                     else Ok (Some rendered)
    end.

Definition itemData (item : nat) (status digest reason outcome cause : string) : MapItemData :=
  MkMapItemData (Z.of_nat item) status digest reason outcome cause.

(** The end of [dispatchItem], by the status it returns: a frontier defers the commit. *)
Definition returned (pr : bool) (data : MapItemData) : phase :=
  if pr then (if String.eqb (miStatus data) ItemPassed then PhScore else PhRelease) else PhAppend data.

(** After [Create]: the body, a tolerated failure, or an error. *)
Definition opened (pr : bool) (item : nat) (image : option string) (c : createResult) : phase + itemErr :=
  match c, image with
  | Created digest, _ => inl (PhBody digest)
  | CreateCtx e, Some _ => inr (IInternal e)
  | CreateUnavailable, Some _ => inl (returned pr (itemData item ItemFailed "" ReasonImageUnavailable "" ""))
  | CreateRejected e, Some _ =>
      inr (IDefinition (EWrap "map item-%d: container Create rejected the per-element spec (definition error): %v" [Itoa (Z.of_nat item)] e))
  | CreateCtx e, None | CreateRejected e, None => inr (IInternal (EWrap "create item-%d container: %w" [Itoa (Z.of_nat item)] e))
  | CreateUnavailable, None => inr (IInternal (EErrf "create item-%d container: %w" [Itoa (Z.of_nat item)]))
  end.

(** After the body. *)
Definition bodyEnded (pr : bool) (item : nat) (digest : string) (r : Result) : phase + itemErr :=
  match skipOf r with
  | Some reason => inl (PhSkip digest reason)
  | None =>
      match r.2 with
      | Some e => if isTypedFailureOutcome r.1
                  then inl (returned pr (itemData item ItemFailed digest "" r.1 (boundCause (xErrText e))))
                  else inr (IInternal e)
      | None => if String.eqb r.1 OutcomeOK then inl (returned pr (itemData item ItemPassed digest "" "" ""))
                else inr (IInternal (EErrf "engine.runMap: item-%d returned outcome %q without an error" [Itoa (Z.of_nat item); r.1]))
      end
  end.

Fixpoint setItemStatus (item : Z) (status : string) (items : list MapItemRecord) : list MapItemRecord :=
  match items with
  | [] => []
  | it :: items =>
      if (mrN it =? item)%Z
      then MkMapItem (mrN it) (mrItemValue it) status (mrOutcome it) (mrImageDigest it) (mrReason it) (mrCause it) :: items
      else it :: setItemStatus item status items
  end.
Definition updateMapItemStatus (item : Z) (status : string) (rs : RunState) : RunState :=
  setMapItems (alter (setItemStatus item status) mapPath (rsMapItems rs)) rs.

(** ** The items side by side *)

Record MapSt : Type := MkMapSt {
  mpS : St; phases : gmap nat phase; statuses : gmap nat string; causes : gmap nat string;
  launched : nat; prune : option pruneRun; statusErr : option itemErr }.
Definition phaseOf (m : MapSt) (i : nat) : phase := default PhNew (phases m !! i).
Definition setPhase (i : nat) (p : phase) (m : MapSt) : MapSt :=
  MkMapSt (mpS m) (<[i := p]> (phases m)) (statuses m) (causes m) (launched m) (prune m) (statusErr m).
Definition withSt (s : St) (m : MapSt) : MapSt :=
  MkMapSt s (phases m) (statuses m) (causes m) (launched m) (prune m) (statusErr m).
Definition withPrune (r : pruneRun) (m : MapSt) : MapSt :=
  MkMapSt (mpS m) (phases m) (statuses m) (causes m) (launched m) (Some r) (statusErr m).
Definition setStatus (i : nat) (status cause : string) (m : MapSt) : MapSt :=
  MkMapSt (mpS m) (phases m) (<[i := status]> (statuses m)) (<[i := cause]> (causes m)) (launched m) (prune m) (statusErr m).
(** The first error wins. *)
Definition firstErr (e : itemErr) (m : MapSt) : MapSt :=
  MkMapSt (mpS m) (phases m) (statuses m) (causes m) (launched m) (prune m)
    (match statusErr m with None => Some e | Some _ => statusErr m end).
Definition launch (m : MapSt) : MapSt :=
  MkMapSt (mpS m) (phases m) (statuses m) (causes m) (S (launched m)) (prune m) (statusErr m).

Definition isFrontier (m : MapSt) : bool := match prune m with Some _ => true | None => false end.
Definition prunedItem (m : MapSt) (i : nat) : bool := match prune m with Some r => isPruned r i | None => false end.
(** [dispatchItem] has failed: its status is empty, and the error counts unless the frontier has
    discarded the item. *)
Definition itemFailed (i : nat) (e : itemErr) (m : MapSt) : MapSt :=
  let m := setStatus i "" "" (setPhase i PhRelease m) in
  if prunedItem m i then m else firstErr e m.
(** What [dispatchItem] does next; a status it returns is kept. *)
Definition proceed (i : nat) (next : phase + itemErr) (status cause : string) (m : MapSt) : MapSt :=
  match next with
  | inl PhScore => setStatus i status cause (setPhase i PhScore m)
  | inl PhRelease => setStatus i status cause (setPhase i PhRelease m)
  | inl p => setPhase i p m
  | inr e => itemFailed i e m
  end.

(** The slots in use. *)
Definition inUse (m : MapSt) : Z := Z.of_nat (size (filter (λ ip : nat * phase, holding ip.2 = true) (phases m))).

(** What a body may do meanwhile: anything but the map's own events and records. *)
Definition ownEvent (e : Event) : bool :=
  (mem (EvType e) [EventMapItem; EventMapFrontier] && String.eqb (Path e) mapPath) || String.eqb (EvType e) EventNodeInvalidated.
Definition itemStep (s s' : St) : Prop :=
  logOK (stLog s') ∧ (∃ es, logEvents (stLog s') = logEvents (stLog s) ++ es ∧ Forall (λ e, ownEvent e = false) es) ∧
  LookupMapItems (stRS s') mapPath = LookupMapItems (stRS s) mapPath.

Variables (over : list value) (committed : gmap Z MapItemRecord).
(** The item is replayed, not run. *)
Definition replayed (i : nat) : option MapItemRecord :=
  match committed !! Z.of_nat i with
  | Some mr => if shouldRerunItem n resume mr then None else Some mr
  | None => None
  end.
Let cap : Z := capOf n (length over).

Inductive mstep : MapSt → MapSt → Prop :=
  (* the handler's loop *)
  | m_replay m mr : (launched m < length over)%nat → replayed (launched m) = Some mr →
      mstep m (launch (setStatus (launched m) (mrStatus mr) (default "" (causes m !! launched m)) m))
  | m_launch m v : over !! launched m = Some v → replayed (launched m) = None →
      mstep m (launch (setPhase (launched m) PhStart
        (withSt (setRS (RecordMapItem mapPath (MkMapItem (Z.of_nat (launched m)) v "" "" "" "" "") (stRS (mpS m))) (mpS m)) m)))
  (* an item's goroutine, up to its slot *)
  | m_start m i : phaseOf m i = PhStart → prune m = None → mstep m (setPhase i PhQueued m)
  | m_register m i r : phaseOf m i = PhStart → prune m = Some r → mstep m (withPrune (register i r) (setPhase i PhRegistered m))
  | m_registered m i : phaseOf m i = PhRegistered →
      mstep m (setPhase i (if prunedItem m i then PhDone else PhQueued) m)
  | m_acquire m i : phaseOf m i = PhQueued → (inUse m < cap)%Z → mstep m (setPhase i PhHolding m)
  (* Acquire gives up: the context of the item, or of the map, is done *)
  | m_noslot m i e : phaseOf m i = PhQueued →
      mstep m (setPhase i PhDone (if prunedItem m i then m
        else firstErr (IInternal (EWrap "engine.runMap: acquire semaphore for item-%d: %w" [Itoa (Z.of_nat i)] e)) m))
  (* its body *)
  | m_hold_pruned m i : phaseOf m i = PhHolding → prunedItem m i = true → mstep m (setPhase i PhRelease m)
  | m_open m i c next : phaseOf m i = PhHolding → prunedItem m i = false →
      next = match renderImage (stRS (mpS m)) i with
             | Err e => inr e
             | Ok image => opened (isFrontier m) i image c
             end →
      mstep m (proceed i next ItemFailed "" m)
  | m_body m i digest s' : phaseOf m i = PhBody digest → itemStep (mpS m) s' → mstep m (withSt s' m)
  | m_ended m i digest r : phaseOf m i = PhBody digest →
      mstep m (proceed i (bodyEnded (isFrontier m) i digest r)
                 (match r.2 with Some _ => ItemFailed | None => ItemPassed end)
                 (match r.2 with Some e => boundCause (xErrText e) | None => "" end) m)
  | m_skip m i digest reason e s' : phaseOf m i = PhSkip digest reason →
      appendNodeSkipped (ItemPath mapPath (Z.of_nat i)) reason (mpS m) = (e, s') →
      mstep m (match e with
               | Some e => itemFailed i (IInternal (EWrap "append node.skipped for item-%d: %w" [Itoa (Z.of_nat i)] e)) (withSt s' m)
               | None => proceed i (inl (returned (isFrontier m) (itemData i ItemPassed digest "" "" ""))) ItemPassed "" (withSt s' m)
               end)
  (* the commit of a plain map's item *)
  | m_append m i d e s' : phaseOf m i = PhAppend d →
      appendTo EventMapItem mapPath (MapItemData_json d) (mpS m) = (e, s') →
      mstep m (match e with
               | Some e => itemFailed i (IInternal (EWrap "append map.item for item-%d: %w" [Itoa (Z.of_nat i)] e)) (withSt s' m)
               | None => setPhase i (PhSync d) (withSt s' m)
               end)
  | m_sync m i d e s' : phaseOf m i = PhSync d → syncLog EventMapItem mapPath (mpS m) = (e, s') →
      mstep m (match e with
               | Some e => itemFailed i (IInternal (EWrap "sync log after map.item for item-%d: %w" [Itoa (Z.of_nat i)] e)) (withSt s' m)
               | None => setPhase i (PhSynced d) (withSt s' m)
               end)
  | m_synced m i d : phaseOf m i = PhSynced d →
      mstep m (setStatus i (miStatus d) (miCause d) (setPhase i PhRelease
        (withSt (setRS (updateMapItemStatus (miN d) (miStatus d) (stRS (mpS m))) (mpS m)) m)))
  (* the report of a frontier's item *)
  | m_score m i r : phaseOf m i = PhScore → prune m = Some r →
      mstep m (match rawScore r (stRS (mpS m)) mapPath i with
               | Err e => setPhase i PhRelease (firstErr (IInternal e) m)
               | Ok raw => setPhase i (PhReport raw) (withPrune (markCompleted i r) m)
               end)
  | m_report m i raw r : phaseOf m i = PhReport raw → prune m = Some r →
      mstep m (let '(d, scores) := Report (prPolicy r) i raw (prScores r) in
               let m := withPrune (withScores scores r) m in
               match d with
               | Err e => setPhase i PhRelease (firstErr (IInternal e) m)
               | Ok d => setPhase i (PhApply d) m
               end)
  | m_apply m i d r : phaseOf m i = PhApply d → prune m = Some r →
      mstep m (setPhase i PhRelease (withPrune (applyDecision d r) m))
  | m_release m i : phaseOf m i = PhRelease → mstep m (setPhase i PhDone m).

(** [wg.Wait] returns. *)
Definition joined (m : MapSt) : Prop := launched m = length over ∧ ∀ i p, phases m !! i = Some p → p = PhDone.
Definition mapStart (s : St) (pr : option pruneRun) : MapSt := MkMapSt s ∅ ∅ ∅ 0 pr None.

(** ** The end of the map *)

(** [commitMapFrontier]. *)
Definition commitMapFrontier (items : list MapItemData) (s : St) : option goError * St :=
  match appendSynced EventMapFrontier mapPath (MapFrontierData_json (MkMapFrontierData items)) s with
  | (Some e, s) => (Some e, s)
  | (None, s) => (None, setRS (foldl (λ rs it, updateMapItemStatus (miN it) (miStatus it) rs) (stRS s) items) s)
  end.

Definition indices : list nat := seq 0 (length over).
Definition statusOf (m : MapSt) (i : nat) : string := default "" (statuses m !! i).
(** The status of each item once the frontier has settled. *)
Definition settled (m : MapSt) (i : nat) : string :=
  match committed !! Z.of_nat i with
  | Some _ => statusOf m i
  | None => if prunedItem m i then ItemPruned else statusOf m i
  end.
Definition freshItems (m : MapSt) : list MapItemData :=
  omap (λ i, match committed !! Z.of_nat i with
             | Some _ => None
             | None => Some (itemData i (settled m i) "" "" "" (if String.eqb (settled m i) ItemFailed then default "" (causes m !! i) else ""))
             end) indices.

Definition successErr (pass fail pruned minSuccess effectiveTotal : Z) : goError :=
  EErrf "engine.runMap: map %q: %d items passed, %d failed, %d pruned; min_success requires %d of %d non-pruned"
    (mapPath :: map Itoa [pass; fail; pruned; minSuccess; effectiveTotal]).

(** [reduce cohort]: the fan-in, for a map that has one. *)
Definition finishMap (reduce : Z → St → Result * St) (m : MapSt) : Result * St :=
  let s := mpS m in
  match statusErr m with
  | Some (IDefinition e) => failStep mapPath OutcomePermanentFailure e s
  | Some (IInternal e) => (internal e, s)
  | None =>
      let '(e, s) := if isFrontier m then (match freshItems m with [] => (None, s) | items => commitMapFrontier items s end) else (None, s) in
      match e with
      | Some e => (internal e, s)
      | None =>
          let sts := map (if isFrontier m then settled m else statusOf m) indices in
          let '(pass, fail) := tallyResults sts in
          let effectiveTotal := (Z.of_nat (length over) - countPruned sts)%Z in
          match mpReduce n with
          | None =>
              let minSuccess := defaultMinSuccess n effectiveTotal in
              if (minSuccess <=? pass)%Z then (okResult, s)
              else ((OutcomeRetryableFailure, Some (successErr pass fail (countPruned sts) minSuccess effectiveTotal)), s)
          | Some _ => reduce effectiveTotal s
          end
      end
  end.
End map.

(** ** The handler *)

Section runMap.
Context `{Log L} `{Blobs B} `{World W} `{Signals W} `{Externals}.
#[local] Notation St := (St L B W).
Variable ic : Ictx.
Variables (n : MapHead) (body : NodeList) (mapPath : string) (resume : bool).
Variable reduce : Z → St → Result * St.

Definition maxCommitted (items : list MapItemRecord) : Z := foldl (λ k mr, Z.max k (mrN mr)) (-1)%Z items.

(** What happens before the first item: the map is over, or the items and the frontier to start with. *)
Definition openMap (s : St) : (Result * St) + (list value * gmap Z MapItemRecord * option pruneRun * St) :=
  match resolveOverItems n (Resolve (scopeAt ic (stRS s) (mapPath +:+ ".over"))) with
  | Err e => inl (failStep mapPath OutcomePermanentFailure (EWrap "evaluate over: %w" [] e) s)
  | Ok (VSlice []) => inl (okResult, s)
  | Ok (VSlice over) =>
      let items := LookupMapItems (stRS s) mapPath in
      let s := setRS (refill mapPath over items (stRS s)) s in
      if (Z.of_nat (length over) <=? maxCommitted items)%Z
      then inl (internal (EErrf "engine.runMap: map %q: non-deterministic `over` — committed item N=%d exists but current over yields only %d items; `over` template depends on a value that changed across resume (CLAUDE.md determinism invariant)"
                            [mapPath; Itoa (maxCommitted items); Itoa (Z.of_nat (length over))]), s)
      else match mpPrune n with
           | None => inr (over, committedItems items, None, s)
           | Some p =>
               match LastStepID body with
               | Some stepID => inr (over, committedItems items, Some (newPruneRun p stepID), s)
               | None => inl (failStep mapPath OutcomePermanentFailure
                                (EErrf "engine.runMap: map %q declares prune: but the body's last node is not a step (AWF5008 should have caught)" [mapPath]) s)
               end
           end
  | Ok v => inl (failStep mapPath OutcomePermanentFailure
                   (EErrf "`over` resolved to %T, want []any (spec §5.7 — `over` must be a typed array)" [goType v]) s)
  end.

(** [runMap]: for some interleaving of its items. *)
Definition runMap (s : St) (r : Result) (s' : St) : Prop :=
  match openMap s with
  | inl (r0, s0) => r = r0 ∧ s' = s0
  | inr (over, committed, pr, s0) =>
      ∃ m, rtc (mstep ic n mapPath resume over committed) (mapStart s0 pr) m ∧ joined over m ∧
           finishMap n mapPath over committed reduce m = (r, s')
  end.
End runMap.
