(* ===== verification/MapLaws.v ===== *)
(** * What a map guarantees

    Whatever the interleaving of its items: the slots are bounded, an item is run only if it has to be,
    the log gets one record per item that was run, a crash in between leaves exactly the finished ones to
    be replayed, and a frontier keeps the best. *)

From stdpp Require Import sorting.
From S2P Require Import Prelude GoNum Sort GoJson GoStruct TmplLexer TmplParser TmplSlots TmplEval RetryPolicy EnginePath GoPath.
From S2P Require Import StateBlobs StateLog EngineEvents RunState EngineFold Journal Ir IrShape Commit Scope Artifacts Containers RetryLoop Steps Contracts Exports Runtimes Interp Call.
From S2P Require Import InterpLaws InterpFold MapRun.

(** ** Slots *)

Lemma size_filter_insert {A} (P : A → bool) (m : gmap nat A) i p :
  Z.of_nat (size (filter (λ ip : nat * A, P ip.2 = true) (<[i := p]> m))) =
  (Z.of_nat (size (filter (λ ip : nat * A, P ip.2 = true) m))
   - (match m !! i with Some q => if P q then 1 else 0 | None => 0 end) + (if P p then 1 else 0))%Z.
Proof.
  assert (Hd : ∀ m : gmap nat A, Z.of_nat (size (filter (λ ip : nat * A, P ip.2 = true) m)) =
    (Z.of_nat (size (filter (λ ip : nat * A, P ip.2 = true) (delete i m))) + match m !! i with Some q => if P q then 1 else 0 | None => 0 end)%Z).
  { clear m p. intros m. destruct (m !! i) as [q|] eqn:E.
    - rewrite <- (insert_delete_id m i q E) at 1. destruct (P q) eqn:Eq.
      + rewrite map_filter_insert_True by done. rewrite map_size_insert_None; [lia|].
        apply map_lookup_filter_None. left. apply lookup_delete_eq.
      + rewrite map_filter_insert_False by (cbn; congruence). rewrite delete_delete_eq. lia.
    - by rewrite delete_id, Z.add_0_r. }
  rewrite (Hd (<[i := p]> m)), (Hd m), lookup_insert_eq, delete_insert_eq. lia.
Qed.

Section laws.
Context {HL : TimeCodec} {L B W : Type} {HLog : Log L} {HLaws : LogLaws} {HR : LogRobust}.
Context {HB : Blobs B} {HW : World W} {HS : Signals W} {HE : Externals}.
#[local] Notation St := (St L B W).
Variables (ic : Ictx) (n : MapHead) (mapPath : string) (resume : bool) (over : list value) (committed : gmap Z MapItemRecord).
#[local] Notation MapSt := (@MapSt L B W).
#[local] Notation step := (mstep ic n mapPath resume over committed).
#[local] Notation replayed := (replayed n resume committed).

Lemma inUse_setPhase i p (m : MapSt) :
  inUse (setPhase i p m) = (inUse m - (if holding (phaseOf m i) then 1 else 0) + (if holding p then 1 else 0))%Z.
Proof.
  unfold inUse, setPhase, phaseOf. cbn [phases]. rewrite size_filter_insert. by destruct (phases m !! i).
Qed.
Lemma phaseOf_setPhase i p (m : MapSt) j : phaseOf (setPhase i p m) j = if decide (i = j) then p else phaseOf m j.
Proof. unfold phaseOf, setPhase. cbn [phases]. destruct (decide (i = j)) as [->|]; [by rewrite lookup_insert_eq|by rewrite lookup_insert_ne]. Qed.

(** Goroutines exist only for launched items that have to run; what is not a phase is kept. *)
Record launches (m : MapSt) : Prop := {
  l_range : (launched m ≤ length over)%nat;
  l_new : ∀ i, phaseOf m i ≠ PhNew → (i < launched m)%nat ∧ replayed i = None;
  l_run : ∀ i, (i < launched m)%nat → replayed i = None → phaseOf m i ≠ PhNew;
  l_replayed : ∀ i mr, (i < launched m)%nat → replayed i = Some mr → statusOf m i = mrStatus mr;
  l_slots : (inUse m ≤ capOf n (length over))%Z }.

(** A step of one goroutine: its phase, its status and shared state outside the launches. *)
Lemma launches_phase m m' i p : launches m → phaseOf m i ≠ PhNew → p ≠ PhNew →
  (holding p = true → holding (phaseOf m i) = true ∨ (inUse m < capOf n (length over))%Z) →
  phases m' = <[i := p]> (phases m) → launched m' = launched m → (∀ j, j ≠ i → statuses m' !! j = statuses m !! j) →
  launches m'.
Proof.
  intros [Hr Hn Hl Hp Hs] Hi Hpn Hh Eph El Est.
  assert (Hph : ∀ j, phaseOf m' j = if decide (i = j) then p else phaseOf m j).
  { intros j. unfold phaseOf. rewrite Eph. destruct (decide (i = j)) as [->|]; [by rewrite lookup_insert_eq|by rewrite lookup_insert_ne]. }
  split; [by rewrite El|..].
  - intros j. rewrite Hph, El. destruct (decide (i = j)) as [<-|]; [by intros _; apply Hn|apply Hn].
  - intros j. rewrite Hph, El. destruct (decide (i = j)) as [<-|]; [done|apply Hl].
  - intros j mr. rewrite El. intros Hj Hrep. destruct (decide (j = i)) as [->|Hne].
    + destruct (Hn i Hi) as [_ Hno]. congruence.
    + unfold statusOf. rewrite Est by done. by apply Hp.
  - assert (Hu : inUse m' = inUse (setPhase i p m)) by (unfold inUse; by rewrite Eph).
    rewrite Hu, inUse_setPhase. destruct (holding p) eqn:E; [destruct (Hh eq_refl) as [->|?]|]; destruct (holding (phaseOf m i)); lia.
Qed.

Lemma returned_phase pr d : returned pr d ≠ PhNew ∧ holding (returned pr d) = true.
Proof. unfold returned. destruct pr; [|done]. by destruct (String.eqb _ _). Qed.

Lemma setPhase_firstErr i p e (m : MapSt) : phases (setPhase i p (firstErr e m)) = <[i := p]> (phases m).
Proof. done. Qed.
Lemma itemFailed_fields i e (m : MapSt) :
  phases (itemFailed i e m) = <[i := PhRelease]> (phases m) ∧ launched (itemFailed i e m) = launched m ∧
  ∀ j, j ≠ i → statuses (itemFailed i e m) !! j = statuses m !! j.
Proof.
  unfold itemFailed. cbn zeta. destruct (prunedItem _ _); cbn; (split; [done|]; split; [done|]); intros j Hj; by rewrite lookup_insert_ne.
Qed.
Lemma proceed_fields i next st c (m : MapSt) :
  (∀ p, next = inl p → p ≠ PhNew ∧ holding p = true) →
  ∃ p, p ≠ PhNew ∧ holding p = true ∧ phases (proceed i next st c m) = <[i := p]> (phases m) ∧ launched (proceed i next st c m) = launched m ∧
  ∀ j, j ≠ i → statuses (proceed i next st c m) !! j = statuses m !! j.
Proof.
  intros Hn. destruct next as [p|e]; [destruct (Hn p eq_refl) as [Hp Hh]|exists PhRelease; split; [done|]; split; [done|apply itemFailed_fields]].
  exists p. split; [done|]. split; [done|]. unfold proceed. destruct p; cbn; (split; [done|]; split; [done|]); intros j Hj; try done; by rewrite lookup_insert_ne.
Qed.

Lemma launches_start s pr : launches (mapStart s pr).
Proof.
  split; cbn [mapStart launched phases statuses]; try lia; try done.
  unfold inUse, capOf. cbn [mapStart phases]. rewrite map_filter_empty, map_size_empty. case_match; lia.
Qed.

Lemma opened_phase pr i image c p : opened pr i image c = inl p → p ≠ PhNew ∧ holding p = true.
Proof.
  unfold opened. intros Ho. destruct c, image; simplify_eq; try done; apply returned_phase.
Qed.
Lemma bodyEnded_phase pr i digest r p : bodyEnded pr i digest r = inl p → p ≠ PhNew ∧ holding p = true.
Proof.
  unfold bodyEnded. intros Ho. repeat case_match; simplify_eq; try done; apply returned_phase.
Qed.

Lemma launches_step m m' : launches m → step m m' → launches m'.
Proof.
  intros HI Hs.
  destruct Hs; try (match goal with H : phaseOf m ?i = ?p |- _ => assert (Hni : phaseOf m i ≠ PhNew) by (rewrite H; discriminate) end).
  - (* replay *) destruct HI as [Hr Hn Hl Hp Hs]. split; cbn [launch setStatus launched].
    + lia.
    + intros i Hi. destruct (Hn i Hi). split; [lia|done].
    + intros i Hi Hrep. apply Hl; [|done]. destruct (decide (i = launched m)) as [->|]; [congruence|lia].
    + intros i mr' Hi Hrep. unfold statusOf. cbn [launch setStatus statuses].
      destruct (decide (i = launched m)) as [->|Hne]; [rewrite lookup_insert_eq; cbn; congruence|rewrite lookup_insert_ne by done].
      apply Hp; [lia|done].
    + done.
  - (* launch *) destruct HI as [Hr Hn Hl Hp Hs].
    assert (Hno : phaseOf m (launched m) = PhNew).
    { destruct (decide (phaseOf m (launched m) = PhNew)) as [|Hne]; [done|]. destruct (Hn _ Hne). lia. }
    assert (Hph : ∀ j, phaseOf (launch (setPhase (launched m) PhStart (withSt (setRS (RecordMapItem mapPath (MkMapItem (Z.of_nat (launched m)) v "" "" "" "" "") (stRS (mpS m))) (mpS m)) m))) j
                       = if decide (launched m = j) then PhStart else phaseOf m j) by (intros j; exact (phaseOf_setPhase (launched m) PhStart m j)).
    split; cbn [launch setPhase withSt launched].
    + apply lookup_lt_Some in H. lia.
    + intros i. rewrite Hph. destruct (decide (launched m = i)) as [<-|]; [intros _; split; [lia|done]|].
      intros Hi. destruct (Hn i Hi). split; [lia|done].
    + intros i Hi Hrep. rewrite Hph. destruct (decide (launched m = i)); [done|]. apply Hl; [lia|done].
    + intros i mr Hi Hrep. destruct (decide (launched m = i)) as [<-|]; [congruence|]. apply (Hp i mr); [lia|done].
    + change (inUse (setPhase (launched m) PhStart m) ≤ capOf n (length over))%Z. rewrite inUse_setPhase, Hno. cbn. lia.
  - apply (launches_phase m _ i PhQueued); done.
  - apply (launches_phase m _ i PhRegistered); done.
  - apply (launches_phase m _ i (if prunedItem m i then PhDone else PhQueued)); try done; by destruct (prunedItem m i).
  - apply (launches_phase m _ i PhHolding); try done. by right.
  - apply (launches_phase m _ i PhDone); try done; by destruct (prunedItem m i).
  - apply (launches_phase m _ i PhRelease); try done. intros _. left. by rewrite H.
  - destruct (proceed_fields i next ItemFailed "" m) as (p & Hp1 & Hp2 & E1 & E2 & E3).
    { intros p ->. destruct (renderImage _ _ _ _ _) as [image|e] eqn:E; [|done]. by eapply opened_phase. }
    apply (launches_phase m _ i p); try done. intros _. left. by rewrite H.
  - destruct HI as [Hr Hn Hl Hp Hs]. by split.
  - destruct (proceed_fields i (bodyEnded (isFrontier m) i digest r) (match r.2 with Some _ => ItemFailed | None => ItemPassed end)
                 (match r.2 with Some e => boundCause (xErrText e) | None => "" end) m) as (p & Hp1 & Hp2 & E1 & E2 & E3).
    { intros p. by apply bodyEnded_phase. }
    apply (launches_phase m _ i p); try done. intros _. left. by rewrite H.
  - destruct e as [e|].
    + destruct (itemFailed_fields i (IInternal (EWrap "append node.skipped for item-%d: %w" [Itoa (Z.of_nat i)] e)) (withSt s' m)) as (E1 & E2 & E3).
      apply (launches_phase m _ i PhRelease); try done. intros _. left. by rewrite H.
    + destruct (proceed_fields i (inl (returned (isFrontier m) (itemData i ItemPassed digest "" "" ""))) ItemPassed "" (withSt s' m)) as (p & Hp1 & Hp2 & E1 & E2 & E3).
      { intros p [= <-]. apply returned_phase. }
      apply (launches_phase m _ i p); try done. intros _. left. by rewrite H.
  - destruct e as [e|].
    + destruct (itemFailed_fields i (IInternal (EWrap "append map.item for item-%d: %w" [Itoa (Z.of_nat i)] e)) (withSt s' m)) as (E1 & E2 & E3).
      apply (launches_phase m _ i PhRelease); try done. intros _. left. by rewrite H.
    + apply (launches_phase m _ i (PhSync d)); try done. intros _. left. by rewrite H.
  - destruct e as [e|].
    + destruct (itemFailed_fields i (IInternal (EWrap "sync log after map.item for item-%d: %w" [Itoa (Z.of_nat i)] e)) (withSt s' m)) as (E1 & E2 & E3).
      apply (launches_phase m _ i PhRelease); try done. intros _. left. by rewrite H.
    + apply (launches_phase m _ i (PhSynced d)); try done. intros _. left. by rewrite H.
  - apply (launches_phase m _ i PhRelease); try done; [intros _; left; by rewrite H|]. intros j Hj. cbn. by rewrite lookup_insert_ne.
  - destruct (rawScore _ _ _ _) as [raw|e].
    + apply (launches_phase m _ i (PhReport raw)); try done. intros _. left. by rewrite H.
    + apply (launches_phase m _ i PhRelease); try done. intros _. left. by rewrite H.
  - destruct (Report _ _ _ _) as [[d|e] scores].
    + apply (launches_phase m _ i (PhApply d)); try done. intros _. left. by rewrite H.
    + apply (launches_phase m _ i PhRelease); try done. intros _. left. by rewrite H.
  - apply (launches_phase m _ i PhRelease); try done. intros _. left. by rewrite H.
  - apply (launches_phase m _ i PhDone); done.
Qed.

Lemma launches_reach s pr m : rtc step (mapStart s pr) m → launches m.
Proof.
  intros Hr. assert (H0 := launches_start s pr). induction Hr as [|m1 m2 m3 Hs _ IH]; [done|]. apply IH. by eapply launches_step.
Qed.

(** ** The records of a plain map *)

Lemma marshal_MapItem d : marshal (MapItemData_json d) = Some (MapItemData_json d).
Proof. marshals. Qed.

(** The record of a map.item event of the map. *)
Definition recordOf (e : Event) : option MapItemData :=
  if String.eqb (EvType e) EventMapItem && String.eqb (Path e) mapPath
  then match parseData MapItemData_of e with Ok d => Some d | Err _ => None end else None.
Definition final (d : MapItemData) : Prop := miStatus d = ItemPassed ∨ miStatus d = ItemFailed.
Definition appended (p : phase) : bool := match p with PhSync _ | PhSynced _ | PhRelease | PhDone => true | _ => false end.
(** What the phase of item [i] says of the records in the log. *)
Definition itemInv (err : option itemErr) (st : string) (p : phase) (i : nat) (ds : list MapItemData) : Prop :=
  match p with
  | PhAppend d => miN d = Z.of_nat i ∧ final d
  | PhSync d | PhSynced d => d ∈ ds ∧ miN d = Z.of_nat i
  | PhRegistered | PhScore | PhReport _ | PhApply _ => False
  | PhRelease | PhDone => err ≠ None ∨ ∃ d, d ∈ ds ∧ miN d = Z.of_nat i ∧ st = miStatus d
  | _ => True
  end.
Lemma itemInv_more err err' st p i ds ds' : (err ≠ None → err' ≠ None) → itemInv err st p i ds → itemInv err' st p i (ds ++ ds').
Proof. intros He. destruct p; cbn; try done; set_solver. Qed.

Record committing (s0 : St) (m : MapSt) (es : list Event) : Prop := {
  c_plain : prune m = None;
  c_ok : logOK (stLog (mpS m));
  c_log : logEvents (stLog (mpS m)) = logEvents (stLog s0) ++ es;
  c_own : Forall (λ e, ownEvent mapPath e = false ∨ ∃ d, recordOf e = Some d ∧ final d) es;
  c_once : NoDup (miN <$> omap recordOf es);
  c_item : ∀ d, d ∈ omap recordOf es → ∃ i, miN d = Z.of_nat i ∧ appended (phaseOf m i) = true;
  c_inv : ∀ i, itemInv (statusErr m) (statusOf m i) (phaseOf m i) i (omap recordOf es) }.

Lemma recordOf_foreign e : ownEvent mapPath e = false → recordOf e = None.
Proof.
  unfold recordOf, ownEvent. intros He. apply orb_false_elim in He as [He _]. destruct (String.eqb_spec (EvType e) EventMapItem) as [E|]; [|done].
  rewrite E in He. cbn in He. by rewrite He.
Qed.
Lemma committing_start s : logOK (stLog s) → committing s (mapStart s None) [].
Proof. intros Hok. split; cbn; try done; [by rewrite app_nil_r|apply NoDup_nil_2|by intros ? ?%not_elem_of_nil]. Qed.

(** A step of the goroutine of [i] that adds [es'] to the log. *)
Lemma committing_phase s0 m es m' i p es' : committing s0 m es →
  prune m' = prune m → phases m' = <[i := p]> (phases m) → (∀ j, j ≠ i → statuses m' !! j = statuses m !! j) →
  (statusErr m ≠ None → statusErr m' ≠ None) →
  logOK (stLog (mpS m')) → logEvents (stLog (mpS m')) = logEvents (stLog (mpS m)) ++ es' →
  (Forall (λ e, ownEvent mapPath e = false) es' ∨ ∃ e d, es' = [e] ∧ recordOf e = Some d ∧ final d ∧ miN d = Z.of_nat i ∧
     appended (phaseOf m i) = false ∧ appended p = true) →
  (appended (phaseOf m i) = true → appended p = true) →
  (itemInv (statusErr m) (statusOf m i) (phaseOf m i) i (omap recordOf es) →
     itemInv (statusErr m') (statusOf m' i) p i (omap recordOf es ++ omap recordOf es')) →
  committing s0 m' (es ++ es').
Proof.
  intros [Hpl Hok Hl Ho Hn Hi Hv] Ep Eph Est He Hok' El Hes Hap Hp.
  assert (Hph : ∀ j, phaseOf m' j = if decide (i = j) then p else phaseOf m j).
  { intros j. unfold phaseOf. rewrite Eph. destruct (decide (i = j)) as [->|]; [by rewrite lookup_insert_eq|by rewrite lookup_insert_ne]. }
  assert (Hnone : Forall (λ e, ownEvent mapPath e = false) es' → omap recordOf es' = []).
  { clear. induction 1 as [|e es' He _ IH]; [done|]. cbn. by rewrite (recordOf_foreign e He). }
  split.
  - by rewrite Ep.
  - done.
  - by rewrite El, Hl, app_assoc.
  - apply Forall_app. split; [done|]. destruct Hes as [Hes|(e & d & -> & Hr & Hf & _)]; [eapply Forall_impl; [exact Hes|by left]|].
    apply Forall_singleton. right. eauto.
  - rewrite omap_app, fmap_app. destruct Hes as [Hes|(e & d & -> & Hr & _ & Hd & Ha & _)]; [by rewrite (Hnone Hes), app_nil_r|].
    cbn. rewrite Hr. cbn. apply NoDup_app. split; [done|]. split; [|apply NoDup_singleton].
    intros x Hx ->%list_elem_of_singleton. apply list_elem_of_fmap in Hx as (d' & Hd' & Hin). destruct (Hi d' Hin) as (j & Hj & Haj).
    assert (j = i) as -> by lia. congruence.
  - intros d Hd. rewrite omap_app in Hd. apply elem_of_app in Hd as [Hd|Hd].
    + destruct (Hi d Hd) as (j & Hj & Haj). exists j. split; [done|]. rewrite Hph. destruct (decide (i = j)) as [<-|]; auto.
    + destruct Hes as [Hes|(e & d' & -> & Hr & _ & Hdi & _ & Hpa)]; [rewrite (Hnone Hes) in Hd; by apply not_elem_of_nil in Hd|].
      cbn in Hd. rewrite Hr in Hd. apply list_elem_of_singleton in Hd as ->. exists i. split; [done|]. rewrite Hph. by destruct (decide (i = i)).
  - intros j. rewrite omap_app, Hph. destruct (decide (i = j)) as [<-|Hne]; [by apply Hp|].
    unfold statusOf. rewrite Est by done. eapply itemInv_more; [exact He|]. apply Hv.
Qed.

Lemma committing_quiet s0 m es m' i p : committing s0 m es →
  prune m' = prune m → phases m' = <[i := p]> (phases m) → (∀ j, j ≠ i → statuses m' !! j = statuses m !! j) →
  (statusErr m ≠ None → statusErr m' ≠ None) → stLog (mpS m') = stLog (mpS m) ∨ extends (mpS m) (mpS m') [] →
  (appended (phaseOf m i) = true → appended p = true) →
  (∀ ds, itemInv (statusErr m) (statusOf m i) (phaseOf m i) i ds → itemInv (statusErr m') (statusOf m' i) p i ds) →
  committing s0 m' es.
Proof.
  intros Hc Ep Eph Est He Hs Ha Hp. assert (Hl : logOK (stLog (mpS m')) ∧ logEvents (stLog (mpS m')) = logEvents (stLog (mpS m))).
  { destruct Hs as [->|(H1 & H2 & _)]; [split; [by apply (c_ok _ _ _ Hc)|done]|]. by rewrite app_nil_r in H2. }
  destruct Hl as [Hok Hl]. rewrite <- (app_nil_r es). eapply (committing_phase s0 m es m' i p []); try done.
  - by rewrite app_nil_r.
  - by left.
  - cbn. rewrite app_nil_r. apply Hp.
Qed.

(** An error of a plain map's item. *)
Lemma committing_failed s0 m es i e : committing s0 m es → statusErr (itemFailed i e m) ≠ None → committing s0 (itemFailed i e m) es.
Proof.
  intros Hc He. destruct (itemFailed_fields i e m) as (E1 & _ & E3).
  apply (committing_quiet s0 m es _ i PhRelease); try done.
  - unfold itemFailed, prunedItem. cbn. rewrite (c_plain _ _ _ Hc). cbn. by rewrite (c_plain _ _ _ Hc).
  - left. unfold itemFailed. cbn zeta. by destruct (prunedItem _ _).
  - intros ds _. left. done.
Qed.
Lemma itemFailed_err i e (m : MapSt) : prune m = None → statusErr (itemFailed i e m) ≠ None.
Proof. intros Hp. unfold itemFailed, prunedItem. cbn. rewrite Hp. cbn. by destruct (statusErr m). Qed.
Lemma committing_withSt s0 m es s' : committing s0 m es → extends (mpS m) s' [] → committing s0 (withSt s' m) es.
Proof.
  intros [Hpl Hok Hl Ho Hn Hi Hv] (H1 & H2 & _). rewrite app_nil_r in H2. split; try done. cbn. by rewrite H2.
Qed.

Lemma append_record d (s s' : St) : in_i64 (miN d) = true → logOK (stLog s) → appendTo EventMapItem mapPath (MapItemData_json d) s = (None, s') →
  ∃ ev, extends s s' [ev] ∧ recordOf ev = Some d.
Proof.
  intros Hn Hok Ha. apply appendTo_done in Ha as (ev & (Hp & Ht & _ & Hd) & Hx); [|apply marshal_MapItem|done].
  exists ev. split; [done|]. unfold recordOf. cbn [newEvent Path EvType Data] in *. rewrite Hp, Ht, !String.eqb_refl. cbn [andb].
  unfold parseData. rewrite Hd. cbn [mbind option_bind]. unfold decode_struct, MapItemData_json, obj. by rewrite MapItemData_rt.
Qed.

Lemma c_final s0 m es d : committing s0 m es → d ∈ omap recordOf es → final d.
Proof.
  intros Hc Hd. apply list_elem_of_omap in Hd as (e & He & Hr). pose proof (c_own _ _ _ Hc) as Ho. rewrite Forall_forall in Ho.
  destruct (Ho e He) as [Hf|(d' & Hr' & Hf)]; [by rewrite (recordOf_foreign e Hf) in Hr|]. congruence.
Qed.

Lemma itemFailed_withSt i e s' (m : MapSt) : itemFailed i e (withSt s' m) = withSt s' (itemFailed i e m).
Proof. unfold itemFailed, prunedItem. cbn. by destruct (prune m); [destruct (isPruned _ _)|]. Qed.

(** [dispatchItem] returns a final status: the append comes next. *)
Lemma committing_proceed s0 m es i next st c : committing s0 m es → appended (phaseOf m i) = false →
  (∀ p, next = inl p → (∃ digest reason, p = PhSkip digest reason) ∨ (∃ digest, p = PhBody digest) ∨
     ∃ d, p = PhAppend d ∧ miN d = Z.of_nat i ∧ final d) →
  committing s0 (proceed i next st c m) es.
Proof.
  intros Hc Ha Hn. destruct next as [p|e]; [|cbn; apply committing_failed; [done|]; apply itemFailed_err, (c_plain _ _ _ Hc)].
  destruct (Hn p eq_refl) as [(dg & rs & ->)|[(dg & ->)|(d & -> & Hd)]]; cbn [proceed];
    (eapply (committing_quiet s0 m es _ i); [done|done|reflexivity|done|done|by left|by rewrite Ha|done]).
Qed.

Hypothesis Hlen : (Z.of_nat (length over) < two63)%Z.
Lemma item_in_i64 m i : launches m → phaseOf m i ≠ PhNew → in_i64 (Z.of_nat i) = true.
Proof. intros Hl Hi. destruct (l_new _ Hl i Hi). pose proof (l_range _ Hl). unfold in_i64, two63 in *. apply andb_true_intro. split; [apply Z.leb_le|apply Z.ltb_lt]; lia. Qed.

#[local] Ltac quiet_side H := first [done | by left | by right | by rewrite H | by intros ?; rewrite H].
Lemma committing_step s0 m es m' : launches m → committing s0 m es → step m m' → ∃ es', committing s0 m' (es ++ es').
Proof.
  intros HL0 Hc Hs. pose proof (c_plain _ _ _ Hc) as Hpl. pose proof (c_ok _ _ _ Hc) as Hok.
  assert (Hq : committing s0 m' es → ∃ es', committing s0 m' (es ++ es')) by (intros; exists []; by rewrite app_nil_r).
  pose proof (c_inv _ _ _ Hc) as Hinv.
  destruct Hs; try (rewrite Hpl in *; discriminate); unfold isFrontier, prunedItem in *; try rewrite Hpl in *; cbn iota in *; try discriminate.
  - (* replay *) apply Hq. destruct Hc as [H1 H2 H3 H4 H5 H6 H7]. split; try done. intros i. unfold statusOf. cbn [launch setStatus statuses statusErr].
    destruct (decide (i = launched m)) as [->|Hne]; [|rewrite lookup_insert_ne by done; apply H7].
    assert (Hnew : phaseOf m (launched m) = PhNew).
    { destruct (decide (phaseOf m (launched m) = PhNew)) as [|Hne]; [done|]. destruct (l_new _ HL0 _ Hne). lia. }
    change (itemInv (statusErr m) (default "" (<[launched m:=mrStatus mr]> (statuses m) !! launched m)) (phaseOf m (launched m)) (launched m) (omap recordOf es)).
    by rewrite Hnew.
  - (* launch *) apply Hq.
    assert (Hnew : phaseOf m (launched m) = PhNew).
    { destruct (decide (phaseOf m (launched m) = PhNew)) as [|Hne]; [done|]. destruct (l_new _ HL0 _ Hne). lia. }
    eapply (committing_quiet s0 m es _ (launched m) PhStart); quiet_side Hnew.
  - apply Hq. eapply (committing_quiet s0 m es _ i PhQueued); quiet_side H.
  - (* registered *) specialize (Hinv i). rewrite H in Hinv. done.
  - apply Hq. eapply (committing_quiet s0 m es _ i PhHolding); quiet_side H.
  - apply Hq. eapply (committing_quiet s0 m es _ i PhDone); try (quiet_side H); [by cbn; destruct (statusErr m)|]. intros ds _. left. by cbn; destruct (statusErr m).
  - (* open *) apply Hq. apply committing_proceed; [done|by rewrite H|]. intros p ->.
    destruct (renderImage _ _ _ _ _) as [image|e]; [|done]. rename H1 into Ho. symmetry in Ho. unfold opened in Ho.
    destruct c, image; simplify_eq; eauto. right; right. eexists. split; [done|]. split; [done|by right].
  - (* body *) destruct H0 as (Hok' & (es' & El & Ho) & _). exists es'.
    eapply (committing_phase s0 m es (withSt s' m) i (PhBody digest) es'); try done; [|by left|by rewrite H].
    cbn [withSt phases]. symmetry. apply insert_id. unfold phaseOf in H. by destruct (phases m !! i); cbn in H; subst.
  - (* ended *) apply Hq. apply committing_proceed; [done|by rewrite H|]. intros p Hb. unfold bodyEnded in Hb.
    destruct (skipOf r) as [reason|]; [simplify_eq; eauto|]. right; right.
    destruct r.2 as [e|]; [destruct (isTypedFailureOutcome _)|destruct (String.eqb _ _)]; simplify_eq; eexists; (split; [done|]); (split; [done|]); [by right|by left].
  - (* skip *) destruct e as [e|].
    + apply Hq. rewrite itemFailed_withSt. apply committing_withSt; [apply committing_failed; [done|by apply itemFailed_err]|].
      assert (Em : mpS (itemFailed i (IInternal (EWrap "append node.skipped for item-%d: %w" [Itoa (Z.of_nat i)] e)) m) = mpS m)
        by (unfold itemFailed; cbn zeta; by destruct (prunedItem _ _)).
      rewrite Em. by eapply appendTo_lost.
    + apply appendTo_done in H0 as (ev & (_ & Ht & _) & (Hok' & El & _)); [|apply marshal_NodeSkipped|done]. exists [ev].
      eapply (committing_phase s0 m es (setPhase i (PhAppend (itemData i ItemPassed digest "" "" "")) (withSt s' m)) i _ [ev]); try done.
      * left. apply Forall_singleton. unfold ownEvent. cbn in Ht. by rewrite Ht.
      * by rewrite H.
      * intros _. split; [done|by left].
  - (* append *) specialize (Hinv i) as Hi. rewrite H in Hi. destruct Hi as [Hn Hf]. destruct e as [e|].
    + apply Hq. rewrite itemFailed_withSt. apply committing_withSt; [apply committing_failed; [done|by apply itemFailed_err]|].
      assert (Em : mpS (itemFailed i (IInternal (EWrap "append map.item for item-%d: %w" [Itoa (Z.of_nat i)] e)) m) = mpS m)
        by (unfold itemFailed; cbn zeta; by destruct (prunedItem _ _)).
      rewrite Em. by eapply appendTo_lost.
    + apply append_record in H0 as (ev & (Hok' & El & _) & Hr); [|rewrite Hn; apply (item_in_i64 m); [done|by rewrite H]|done].
      exists [ev]. eapply (committing_phase s0 m es _ i (PhSync d) [ev]); try done.
      * right. exists ev, d. by rewrite H.
      * intros _. cbn. rewrite Hr. cbn. split; [set_solver|done].
  - (* sync *) specialize (Hinv i) as Hi. rewrite H in Hi. apply Hq. assert (Hx : extends (mpS m) s' []) by by eapply syncLog_extends. destruct e as [e|].
    + rewrite itemFailed_withSt. apply committing_withSt; [apply committing_failed; [done|by apply itemFailed_err]|].
      assert (Em : mpS (itemFailed i (IInternal (EWrap "sync log after map.item for item-%d: %w" [Itoa (Z.of_nat i)] e)) m) = mpS m)
        by (unfold itemFailed; cbn zeta; by destruct (prunedItem _ _)).
      by rewrite Em.
    + eapply (committing_quiet s0 m es _ i (PhSynced d)); quiet_side H.
  - (* synced *) specialize (Hinv i) as Hi. rewrite H in Hi. destruct Hi as [Hd Hn]. apply Hq.
    assert (Hin : d ∈ omap recordOf es) by done. rewrite <- (app_nil_r es).
    eapply (committing_phase s0 m es _ i PhRelease []); try done; [intros j Hj; cbn; by rewrite lookup_insert_ne|by rewrite app_nil_r|by left|].
    intros _. cbn. rewrite app_nil_r. right. exists d. unfold statusOf. cbn. by rewrite lookup_insert_eq.
  - (* release *) apply Hq. eapply (committing_quiet s0 m es _ i PhDone); quiet_side H.
Qed.

Lemma committing_reach s0 m : logOK (stLog s0) → rtc step (mapStart s0 None) m → ∃ es, committing s0 m es.
Proof.
  intros Hok Hr. assert (H : ∃ es, committing s0 (mapStart s0 None) es) by (exists []; by apply committing_start).
  assert (H0 : launches (mapStart s0 None)) by apply launches_start. revert H H0.
  induction Hr as [m|m1 m2 m3 Hs _ IH]; [done|]. intros [es Hc] Hl. apply IH; [|by eapply launches_step].
  destruct (committing_step s0 m1 es m2 Hl Hc Hs) as [es' ?]. by eexists.
Qed.

(** ** What a resume finds *)

Definition itemRecord (d : MapItemData) : MapItemRecord :=
  MkMapItem (miN d) VNil (miStatus d) (miOutcome d) (miImageDigest d) (miReason d) (miCause d).

Lemma frontier_other path rs l : path ≠ mapPath → LookupMapItems (foldl (frontierItem path) rs l) mapPath = LookupMapItems rs mapPath.
Proof.
  intros Hp. revert rs. induction l as [|it l IH]; intros rs; [done|]. cbn [foldl]. rewrite IH. unfold LookupMapItems, frontierItem.
  cbn [rsMapItems setMapItems]. rewrite at_path_insert. by apply String.eqb_neq in Hp as ->.
Qed.

Lemma foldArm_foreign get e rs rs' : foldArm get e rs = Ok rs' → ownEvent mapPath e = false →
  LookupMapItems rs' mapPath = LookupMapItems rs mapPath.
Proof.
  intros HA Ho. unfold ownEvent in Ho. apply orb_false_elim in Ho as [Ho Hi]. apply String.eqb_neq in Hi.
  assert (Hp : EvType e = EventMapItem ∨ EvType e = EventMapFrontier → Path e ≠ mapPath).
  { intros Ht Ep. rewrite Ep, String.eqb_refl, andb_true_r in Ho. destruct Ht as [Ht|Ht]; by rewrite Ht in Ho. }
  destruct (decide (EvType e = EventMapFrontier)) as [Ef|Hf].
  { unfold foldArm in HA. rewrite Ef in HA. cbv beta zeta in HA. cbn in HA. unfold foldMapFrontier in HA. arm_inv HA.
    apply frontier_other. auto. }
  split_arm HA; try done; unfold LookupMapItems;
    try (assert (Hr : rsMapItems rs' = rsMapItems rs) by arm_same HA; by rewrite Hr).
  unfold foldMapItem in HA. arm_inv HA. unfold RecordMapItem. cbn [rsMapItems setMapItems]. rewrite at_path_insert.
  assert (Hne : Path e ≠ mapPath) by auto. by apply String.eqb_neq in Hne as ->.
Qed.

Lemma foldArm_record get e d rs rs' : recordOf e = Some d → foldArm get e rs = Ok rs' → rs' = RecordMapItem mapPath (itemRecord d) rs.
Proof.
  unfold recordOf. destruct (String.eqb_spec (EvType e) EventMapItem) as [Et|]; [|done]. destruct (String.eqb_spec (Path e) mapPath) as [Ep|]; [|done].
  cbn [andb]. destruct (parseData MapItemData_of e) as [d'|] eqn:Hd; [|done]. intros [= ->] HA. unfold foldArm in HA. rewrite Et in HA. cbn in HA.
  unfold foldMapItem in HA. rewrite Hd in HA. cbn [res_bind] in HA. injection HA as <-. by rewrite Ep.
Qed.

Lemma foldEvents_items get es : Forall (λ e, ownEvent mapPath e = false ∨ ∃ d, recordOf e = Some d ∧ final d) es → ∀ rs rs',
  foldEvents get true rs es = Ok rs' →
  LookupMapItems rs' mapPath = foldl (λ items d, upsert (itemRecord d) items) (LookupMapItems rs mapPath) (omap recordOf es).
Proof.
  induction 1 as [|e es He _ IH]; intros rs rs' HF; [by injection HF as <-|]. cbn [foldEvents] in HF.
  destruct (String.eqb _ _); [done|]. apply res_bind_ok in HF as (rs1 & Ha & HF). rewrite (IH rs1 rs' HF). cbn.
  destruct He as [He|(d & Hr & _)].
  - by rewrite (recordOf_foreign e He), (foldArm_foreign get e rs rs1 Ha He).
  - rewrite Hr. rewrite (foldArm_record get e d rs rs1 Hr Ha). cbn [foldl]. f_equal. unfold LookupMapItems, RecordMapItem.
    cbn [rsMapItems setMapItems]. rewrite at_path_insert. by rewrite String.eqb_refl.
Qed.

Lemma upserts_itemByN ds : NoDup (miN <$> ds) → ∀ items i,
  itemByN i (foldl (λ items d, upsert (itemRecord d) items) items ds) =
  match List.find (λ d, miN d =? i)%Z ds with Some d => Some (itemRecord d) | None => itemByN i items end.
Proof.
  induction ds as [|d ds IH]; intros HN items i; [done|]. cbn in HN. apply NoDup_cons in HN as [Hd HN]. cbn [foldl List.find].
  rewrite IH by done. rewrite upsert_itemByN. cbn [itemRecord mrN]. destruct (Z.eqb_spec (miN d) i) as [Ei|Hne].
  - rewrite <- Ei, Z.eqb_refl. destruct (List.find _ ds) as [d'|] eqn:E; [|done]. apply List.find_some in E as [Hin He].
    destruct Hd. apply list_elem_of_fmap. exists d'. apply Z.eqb_eq in He. split; [done|]. by apply list_elem_of_In.
  - destruct (List.find _ ds); [done|]. by destruct (Z.eqb_spec i (miN d)) as [->|].
Qed.
End laws.

(** ** Bodies *)

(** A walk leaves the records of every map alone. *)
Section bodies.
Context {HL : TimeCodec} {L B W : Type} {HLog : Log L} {HLaws : LogLaws} {HR : LogRobust}.
Context {HB : Blobs B} {HW : World W} {HS : Signals W} {HE : Externals}.
#[local] Notation St := (St L B W).
Variable mapPath : string.

(** The part of [itemStep] about the log. *)
Definition bodyLog (s s' : St) : Prop :=
  logOK (stLog s') ∧ ∃ es, logEvents (stLog s') = logEvents (stLog s) ++ es ∧ Forall (λ e, ownEvent mapPath e = false) es.

Lemma bodyLog_refl s : logOK (stLog s) → bodyLog s s.
Proof. split; [done|]. exists []. by rewrite app_nil_r. Qed.
Lemma bodyLog_trans s1 s2 s3 : bodyLog s1 s2 → bodyLog s2 s3 → bodyLog s1 s3.
Proof.
  intros (_ & es & E1 & F1) (Hok & es' & E2 & F2). split; [done|]. exists (es ++ es'). split; [by rewrite E2, E1, app_assoc|by apply Forall_app].
Qed.
Lemma foreign_event e : mem (EvType e) [EventMapItem; EventMapFrontier; EventNodeInvalidated] = false → ownEvent mapPath e = false.
Proof.
  intros Hm. cbn [mem] in Hm. rewrite !orb_false_iff in Hm. destruct Hm as (H1 & H2 & H3 & _).
  unfold ownEvent. cbn [mem]. by rewrite H1, H2, H3.
Qed.
Lemma ignored_foreign e : folded e = false → ownEvent mapPath e = false.
Proof.
  intros Hf. apply foreign_event. unfold folded, foldedTypes in Hf. cbn [mem] in Hf. rewrite !orb_false_iff in Hf.
  destruct Hf as (_ & _ & _ & _ & _ & _ & _ & _ & H1 & H2 & _ & _ & _ & H3 & _). cbn [mem]. by rewrite H1, H2, H3.
Qed.
Lemma quiet_bodyLog (s s' : St) : quiet s s' → bodyLog s s'.
Proof.
  intros (es & (Hok & El & _) & Hf). split; [done|]. exists es. split; [done|]. eapply Forall_impl; [exact Hf|]. apply ignored_foreign.
Qed.
Lemma appendTo_bodyLog ty path j (s s' : St) e : mem ty [EventMapItem; EventMapFrontier; EventNodeInvalidated] = false →
  logOK (stLog s) → appendTo ty path j s = (e, s') → bodyLog s s'.
Proof.
  intros Ht Hok Ha. destruct e as [e|].
  - apply quiet_bodyLog, quiet_none. by eapply appendTo_lost.
  - pose proof (appendTo_marshals _ _ _ _ _ Ha). apply appendTo_done in Ha as (ev & (_ & Et & _) & (Hok' & El & _)); [|done..]. split; [done|]. exists [ev]. split; [done|].
    apply Forall_singleton, foreign_event. by rewrite Et.
Qed.
Lemma appendSynced_bodyLog ty path j (s s' : St) e : mem ty [EventMapItem; EventMapFrontier; EventNodeInvalidated] = false →
  logOK (stLog s) → appendSynced ty path j s = (e, s') → bodyLog s s'.
Proof.
  intros Ht Hok. unfold appendSynced. destruct (appendTo _ _ _ s) as [e1 s1] eqn:Ha. apply appendTo_bodyLog in Ha; [|done..].
  destruct e1; [by intros [= _ <-]|]. intros Hs. apply (bodyLog_trans s s1 s'); [done|]. apply quiet_bodyLog, quiet_none.
  eapply syncLog_extends, Hs. by destruct Ha.
Qed.

Lemma commit_bodyLog path dr part (s s' : St) r : logOK (stLog s) → liftH (Commit xJcs path dr part) s = (r, s') → bodyLog s s'.
Proof.
  intros Hok. unfold liftH. destruct (Commit _ _ _ _ _) as [x [l b]] eqn:HC. intros [= <- <-].
  apply journals_Commit in HC as (Hok' & es & El & Hf); [|done]. split; [done|]. exists es. split; [done|].
  eapply Forall_impl; [exact Hf|]. intros e He. apply foreign_event. by rewrite He.
Qed.
Lemma dispatch_bodyLog cx h cs path i po refs (s s' : St) r :
  logOK (stLog s) → dispatchCodeStep cx h cs path i po refs s = (r, s') → bodyLog s s'.
Proof.
  intros Hok0. unfold dispatchCodeStep. pose proof (appendNodeStarted_quiet path "code" s Hok0) as Hq.
  set (s1 := appendNodeStarted path "code" s) in *. clearbody s1. pose proof (quiet_ok _ _ Hq) as Hok1.
  destruct (RunWithRetry _ _ _ _ _ _) as [[dr err] [l w]] eqn:HR'.
  assert (Hlog : logOK l ∧ ∃ es, logEvents l = logEvents (stLog s1) ++ es ∧ Forall (λ e, folded e = false) es).
  { apply RunWithRetry_log in HR' as (H1 & H2 & _); [by split|done]. }
  destruct Hlog as (Hok2 & es & El & Hf).
  assert (H2 : bodyLog s (setLog l (setW w s1))).
  { apply (bodyLog_trans s s1); [by apply quiet_bodyLog|]. split; [done|]. exists es. split; [done|].
    eapply Forall_impl; [exact Hf|apply ignored_foreign]. }
  set (s2 := setLog l (setW w s1)) in *.
  assert (Hfail : ∀ oc e, failStep path oc e s2 = (r, s') → bodyLog s s').
  { intros oc e He. apply (bodyLog_trans s s2); [done|]. apply quiet_bodyLog. by eapply failStep_quiet. }
  destruct err as [e|]; [destruct (String.eqb _ ""); [by intros [= _ <-]|by apply Hfail]|].
  destruct (negb _); [by apply Hfail|]. destruct (liftH _ s2) as [[nr|e] s3] eqn:HC; apply commit_bodyLog in HC; try done;
    intros [= _ <-]; by apply (bodyLog_trans s s2).
Qed.
Lemma code_bodyLog ic cx c path (s s' : St) r : logOK (stLog s) → runCodeStep ic cx c path s = (r, s') → bodyLog s s'.
Proof.
  intros Hok. unfold runCodeStep. destruct (LookupCompleted (stRS s) path); [intros [= _ <-]; by apply bodyLog_refl|].
  destruct (prepareCodeStep _ _ _ _ _) as [[[i po] refs]|[e|e]].
  - destruct (_ && _); [|by apply dispatch_bodyLog]. destruct (wCreate _ _ _) as [[h|e] w]; [|intros [= _ <-]; exact (bodyLog_refl s Hok)].
    destruct (dispatchCodeStep _ _ _ _ _ _ _ _) as [r1 s1] eqn:E. apply dispatch_bodyLog in E; [|done]. by intros [= _ <-].
  - intros Hf. apply quiet_bodyLog. by eapply failStep_quiet.
  - intros [= _ <-]. by apply bodyLog_refl.
Qed.

Variable puts : effects.

Lemma product_bodyLog path product (s s' : St) r : logOK (stLog s) → liftH (commitCallProduct path product) s = (r, s') → bodyLog s s'.
Proof.
  intros Hok Hl. unfold liftH in Hl. destruct (commitCallProduct _ _ _) as [x [l b]] eqn:HC. injection Hl as <- <-.
  destruct (journals_product path product (stLog s, stBlobs s) x (l, b) Hok HC) as (Hok' & es & El & Hf). split; [done|].
  exists es. split; [done|]. eapply Forall_impl; [exact Hf|]. intros e He. apply foreign_event. by rewrite He.
Qed.

Lemma prim_itemStep p (s s' : St) : prim false puts p s s' → logOK (stLog s) → itemStep mapPath s s'.
Proof.
  intros Hp Hok.
  assert (Hi : bodyLog s s' → rsMapItems (stRS s') = rsMapItems (stRS s) → itemStep mapPath s s').
  { intros (H1 & H2) H3. split; [done|]. split; [done|]. unfold LookupMapItems. by rewrite H3. }
  destruct Hp as [ic' cx c path s r s' Hr|ic' cx ss path s r s' Hsig _|path oc e s r s' Hr|path reason s e s' Hr
    |ty path j s e s' Hr|path which s s' _ Hr|path k s s' Hk Hr|path n oc nr q s e s' Hn _ Hq Hr|path k s|path s w|path c s r b _ _
    |path input raw ref files rts b s e s' _ _ _ _ Hr|path product s r s' _ _ _ Hr
    |path ty j s e s' Hig Hr|path c s r b _ _|path x s|path d s e s' _ Hr|path dr part s r s' _ _ Hr|path k s e s' _ Hr].
  - apply Hi; [by eapply code_bodyLog|]. by apply runCodeStep_rs in Hr as (_ & _ & _ & _ & ? & _).
  - done.
  - apply Hi; [apply quiet_bodyLog; by eapply failStep_quiet|]. by apply failStep_state in Hr as (-> & _).
  - apply Hi; [|by apply appendTo_state in Hr as (-> & _)]. by eapply appendTo_bodyLog, Hr.
  - apply Hi; [apply quiet_bodyLog, quiet_none; by eapply appendTo_lost|]. by apply appendTo_state in Hr as (-> & _).
  - apply Hi; [|apply appendTo_state in Hr as (E & _); cbn; by rewrite E]. by eapply (appendTo_bodyLog _ _ _ s s'), Hr.
  - apply Hi; [|apply appendTo_state in Hr as (E & _); cbn; by rewrite E]. by eapply (appendTo_bodyLog _ _ _ s s'), Hr.
  - apply Hi; [|apply appendSynced_state in Hr as (E & _); destruct e; cbn; by rewrite E].
    assert (Hb : bodyLog s s') by (eapply appendSynced_bodyLog, Hr; done). by destruct e.
  - apply Hi; [by apply quiet_bodyLog, appendNodeStarted_quiet|by rewrite appendNodeStarted_rs].
  - apply Hi; [exact (bodyLog_refl s Hok)|done].
  - apply Hi; [exact (bodyLog_refl s Hok)|done].
  - apply Hi; [|apply appendSynced_state in Hr as (E & _); destruct e; cbn; by rewrite E].
    assert (Hb : bodyLog s s') by (eapply appendSynced_bodyLog, Hr; done). by destruct e.
  - apply Hi; [|apply liftH_state in Hr as (E & _); destruct r; cbn; by rewrite E].
    assert (Hb : bodyLog s s') by by eapply product_bodyLog. by destruct r.
  - apply Hi; [apply quiet_bodyLog; by eapply appendTo_note|by apply appendTo_state in Hr as (-> & _)].
  - apply Hi; [exact (bodyLog_refl s Hok)|done].
  - apply Hi; [exact (bodyLog_refl s Hok)|done].
  - apply Hi; [|apply appendSynced_state in Hr as (E & _); destruct e; cbn; by rewrite E].
    assert (Hb : bodyLog s s') by (eapply appendSynced_bodyLog, Hr; done). by destruct e.
  - apply Hi; [|apply liftH_state in Hr as (E & _); destruct r; cbn; by rewrite E].
    assert (Hb : bodyLog s s') by by eapply commit_bodyLog. by destruct r.
  - apply Hi; [|apply appendSynced_state in Hr as (E & _); destruct e; cbn; by rewrite E].
    assert (Hb : bodyLog s s') by (eapply appendSynced_bodyLog, Hr; done). by destruct e.
Qed.
Lemma walks_itemStep (P : string → Prop) (s s' : St) : logOK (stLog s) → walks false puts P s s' → itemStep mapPath s s'.
Proof.
  intros Hok Hw. apply (walks_keep false puts P (itemStep mapPath s)) in Hw; [done| |].
  - intros p s1 s2 _ Hp (Hok1 & (es1 & E1 & F1) & M1). destruct (prim_itemStep p s1 s2 Hp Hok1) as (Hok2 & (es2 & E2 & F2) & M2).
    split; [done|]. split; [|by rewrite M2]. exists (es1 ++ es2). split; [by rewrite E2, E1, app_assoc|by apply Forall_app].
  - split; [done|]. split; [|done]. exists []. by rewrite app_nil_r.
Qed.
End bodies.

(** ** A schedule *)

(** The step a goroutine takes next is decided by its phase; the outside world decides what [Create] and
    the body give. *)
Inductive move : Type :=
  | Launch | Go (i : nat) | Open (i : nat) (c : createResult) | Ended (i : nat) (r : Result).

Section schedule.
Context `{Log L} `{Blobs B} `{World W} `{Signals W} `{Externals}.
#[local] Notation St := (St L B W).
#[local] Notation MapSt := (@MapSt L B W).
Variables (ic : Ictx) (n : MapHead) (mapPath : string) (resume : bool) (over : list value) (committed : gmap Z MapItemRecord).
#[local] Notation replayed := (replayed n resume committed).

Definition failedOr {A} (what : string) (i : nat) (r : A * St) (e : A → option goError) (k : MapSt → MapSt) (m : MapSt) : MapSt :=
  match e r.1 with
  | Some x => itemFailed i (IInternal (EWrap what [Itoa (Z.of_nat i)] x)) (withSt r.2 m)
  | None => k (withSt r.2 m)
  end.
Definition go (i : nat) (m : MapSt) : option MapSt :=
  match phaseOf m i, prune m with
  | PhStart, None => Some (setPhase i PhQueued m)
  | PhStart, Some r => Some (withPrune (register i r) (setPhase i PhRegistered m))
  | PhRegistered, _ => Some (setPhase i (if prunedItem m i then PhDone else PhQueued) m)
  | PhQueued, _ => if (inUse m <? capOf n (length over))%Z then Some (setPhase i PhHolding m) else None
  | PhHolding, _ => if prunedItem m i then Some (setPhase i PhRelease m) else None
  | PhSkip digest reason, _ =>
      Some (failedOr "append node.skipped for item-%d: %w" i (appendNodeSkipped (ItemPath mapPath (Z.of_nat i)) reason (mpS m)) id
              (λ m', proceed i (inl (returned (isFrontier m) (itemData i ItemPassed digest "" "" ""))) ItemPassed "" m') m)
  | PhAppend d, _ =>
      Some (failedOr "append map.item for item-%d: %w" i (appendTo EventMapItem mapPath (MapItemData_json d) (mpS m)) id (setPhase i (PhSync d)) m)
  | PhSync d, _ => Some (failedOr "sync log after map.item for item-%d: %w" i (syncLog EventMapItem mapPath (mpS m)) id (setPhase i (PhSynced d)) m)
  | PhSynced d, _ =>
      Some (setStatus i (miStatus d) (miCause d) (setPhase i PhRelease
        (withSt (setRS (updateMapItemStatus mapPath (miN d) (miStatus d) (stRS (mpS m))) (mpS m)) m)))
  | PhScore, Some r =>
      Some (match rawScore r (stRS (mpS m)) mapPath i with
            | Err e => setPhase i PhRelease (firstErr (IInternal e) m)
            | Ok raw => setPhase i (PhReport raw) (withPrune (markCompleted i r) m)
            end)
  | PhReport raw, Some r =>
      Some (let '(d, scores) := Report (prPolicy r) i raw (prScores r) in
            let m := withPrune (withScores scores r) m in
            match d with
            | Err e => setPhase i PhRelease (firstErr (IInternal e) m)
            | Ok d => setPhase i (PhApply d) m
            end)
  | PhApply d, Some r => Some (setPhase i PhRelease (withPrune (applyDecision d r) m))
  | PhRelease, _ => Some (setPhase i PhDone m)
  | _, _ => None
  end.
Definition play (mv : move) (m : MapSt) : option MapSt :=
  match mv with
  | Launch =>
      match over !! launched m, replayed (launched m) with
      | Some _, Some mr => Some (launch (setStatus (launched m) (mrStatus mr) (default "" (causes m !! launched m)) m))
      | Some v, None => Some (launch (setPhase (launched m) PhStart
          (withSt (setRS (RecordMapItem mapPath (MkMapItem (Z.of_nat (launched m)) v "" "" "" "" "") (stRS (mpS m))) (mpS m)) m)))
      | None, _ => None
      end
  | Go i => go i m
  | Open i c =>
      match phaseOf m i with
      | PhHolding => if prunedItem m i then None
                     else Some (proceed i (match renderImage ic n mapPath (stRS (mpS m)) i with
                                           | Err e => inr e
                                           | Ok image => opened (isFrontier m) i image c
                                           end) ItemFailed "" m)
      | _ => None
      end
  | Ended i r =>
      match phaseOf m i with
      | PhBody digest => Some (proceed i (bodyEnded (isFrontier m) i digest r)
                                 (match r.2 with Some _ => ItemFailed | None => ItemPassed end)
                                 (match r.2 with Some e => boundCause (xErrText e) | None => "" end) m)
      | _ => None
      end
  end.
Fixpoint plays (l : list move) (m : MapSt) : option MapSt :=
  match l with [] => Some m | mv :: l => match play mv m with Some m' => plays l m' | None => None end end.

#[local] Notation step := (mstep ic n mapPath resume over committed).
Lemma go_step i m m' : go i m = Some m' → step m m'.
Proof.
  unfold go, failedOr. destruct (phaseOf m i) eqn:Ep; destruct (prune m) as [r|] eqn:Er; try done; intros Hg;
    try (destruct (_ <? _)%Z eqn:El; [apply Z.ltb_lt in El|done]).
  all: try (match type of Hg with context [if ?b then Some _ else None] => destruct b eqn:Eq; [|done] end).
  all: try (match type of Hg with context [match id (?f).1 with _ => _ end] => destruct f as [e s'] eqn:Ef; cbn [id fst snd] in Hg end).
  all: injection Hg as <-.
  all: first [ by apply (m_start _ _ _ _ _ _ m i) | by apply (m_register _ _ _ _ _ _ m i) | by apply (m_registered _ _ _ _ _ _ m i)
             | by apply (m_acquire _ _ _ _ _ _ m i) | by apply (m_hold_pruned _ _ _ _ _ _ m i) | by apply (m_skip _ _ _ _ _ _ m i digest reason e s')
             | by apply (m_append _ _ _ _ _ _ m i data e s') | by apply (m_sync _ _ _ _ _ _ m i data e s') | by apply (m_synced _ _ _ _ _ _ m i data)
             | by apply (m_score _ _ _ _ _ _ m i r) | by apply (m_report _ _ _ _ _ _ m i raw r) | by apply (m_apply _ _ _ _ _ _ m i d r)
             | by apply (m_release _ _ _ _ _ _ m i) ].
Qed.
Lemma play_step mv m m' : play mv m = Some m' → step m m'.
Proof.
  destruct mv as [|i|i c|i r]; cbn [play].
  - destruct (over !! launched m) as [v|] eqn:Ev; [|done]. destruct (replayed (launched m)) as [mr|] eqn:Er; intros [= <-].
    + apply m_replay; [|done]. by apply lookup_lt_Some in Ev.
    + by apply (m_launch _ _ _ _ _ _ m v).
  - apply go_step.
  - destruct (phaseOf m i) eqn:Ep; try done. destruct (prunedItem m i) eqn:Eq; [done|]. intros [= <-]. by eapply m_open.
  - destruct (phaseOf m i) eqn:Ep; try done. intros [= <-]. by eapply m_ended.
Qed.
Lemma plays_rtc l : ∀ m m', plays l m = Some m' → rtc step m m'.
Proof.
  induction l as [|mv l IH]; intros m m'; cbn [plays]; [intros [= ->]; apply rtc_refl|].
  destruct (play mv m) as [m1|] eqn:E; [|done]. intros Hp. eapply rtc_l; [by eapply play_step|by apply IH].
Qed.
End schedule.

Definition joinedb (over : list value) `(m : @MapSt L B W) : bool :=
  (launched m =? length over)%nat && forallb (λ ip, match ip.2 with PhDone => true | _ => false end) (map_to_list (phases m)).
Lemma joinedb_ok over `(m : @MapSt L B W) : joinedb over m = true → joined over m.
Proof.
  intros [Hl Hp]%andb_prop. split; [by apply Nat.eqb_eq in Hl|]. intros i p Hi. rewrite forallb_forall in Hp. specialize (Hp (i, p)).
  rewrite <- list_elem_of_In, elem_of_map_to_list in Hp. specialize (Hp Hi). by destruct p.
Qed.

(** ** Properties *)

(** C14: a map in parallel.  Whatever the interleaving of the items of a map without a frontier, and
    whatever call fails: no more than the concurrency cap hold a slot; the log gets at most one record
    per item, final, and only of items that must run.  If the process dies here, the fold finds each item
    of which there is a record as that record says, and every other as it was before.  When every
    goroutine has returned without an error, an item that was replayed has the status it was committed
    with, and every other has a record with the status the map counts. *)
Theorem map_items_committed `{HL : TimeCodec} {L B W : Type} {HLog : Log L} {HLaws : LogLaws} {HR : LogRobust}
    {HB : Blobs B} {HW : World W} {HS : Signals W} {HE : Externals}
    ic n mapPath resume over committed (s0 : St L B W) m get :
  (Z.of_nat (length over) < two63)%Z → logOK (stLog s0) → logEvents (stLog s0) ≠ [] →
  rtc (mstep ic n mapPath resume over committed) (mapStart s0 None) m →
  (inUse m ≤ capOf n (length over))%Z ∧
  ∃ es, logEvents (stLog (mpS m)) = logEvents (stLog s0) ++ es ∧
    let ds := omap (recordOf mapPath) es in
    NoDup (miN <$> ds) ∧
    (∀ d, d ∈ ds → final d ∧ ∃ i, miN d = Z.of_nat i ∧ (i < length over)%nat ∧ replayed n resume committed i = None) ∧
    (∀ rs0 rs, Fold get (logEvents (stLog s0)) = Ok rs0 → Fold get (logEvents (stLog (mpS m))) = Ok rs →
       ∀ i, itemByN i (LookupMapItems rs mapPath) =
            match List.find (λ d, miN d =? i)%Z ds with
            | Some d => Some (itemRecord d)
            | None => itemByN i (LookupMapItems rs0 mapPath)
            end) ∧
    (joined over m → statusErr m = None → ∀ i, (i < length over)%nat →
       match replayed n resume committed i with
       | Some mr => statusOf m i = mrStatus mr
       | None => ∃ d, d ∈ ds ∧ miN d = Z.of_nat i ∧ statusOf m i = miStatus d
       end).
Proof.
  intros Hlen Hok Hne Hr. pose proof (launches_reach _ _ _ _ _ _ _ _ _ Hr) as HL0. split; [apply (l_slots _ _ _ _ _ HL0)|].
  destruct (committing_reach _ _ _ _ _ _ Hlen _ _ Hok Hr) as [es Hc]. exists es. split; [apply (c_log _ _ _ _ Hc)|]. cbn zeta.
  split; [apply (c_once _ _ _ _ Hc)|]. split; [|split].
  - intros d Hd. split; [by eapply c_final|]. destruct (c_item _ _ _ _ Hc d Hd) as (i & Hi & Ha). exists i. split; [done|].
    destruct (l_new _ _ _ _ _ HL0 i) as [Hlt Hrep]; [intros Hnew; by rewrite Hnew in Ha|].
    pose proof (l_range _ _ _ _ _ HL0). split; [lia|done].
  - intros rs0 rs H0 H1 i. rewrite (c_log _ _ _ _ Hc), Fold_app, H0 in H1 by done. cbn [res_bind] in H1.
    rewrite (foldEvents_items mapPath get es (c_own _ _ _ _ Hc) rs0 rs H1). apply upserts_itemByN, (c_once _ _ _ _ Hc).
  - intros [Hj Hd] He i Hi. destruct (replayed n resume committed i) as [mr|] eqn:Hrep.
    + eapply (l_replayed _ _ _ _ _ HL0); [by rewrite Hj|done].
    + assert (Hne' : phaseOf m i ≠ PhNew) by (eapply (l_run _ _ _ _ _ HL0); [by rewrite Hj|done]).
      assert (Hdone : phaseOf m i = PhDone).
      { unfold phaseOf in *. destruct (phases m !! i) as [p|] eqn:E; [by apply (Hd i)|done]. }
      pose proof (c_inv _ _ _ _ Hc i) as Hv. rewrite Hdone in Hv. by destruct Hv.
Qed.

Section example.
#[local] Existing Instance two_times.
#[local] Existing Instance InMemoryLog_laws.
#[local] Existing Instance exSteady_log.
#[local] Instance exSteady_robust : LogRobust (L := InMemoryLog) := InMemoryLog_robust false.

(** Two items side by side; the second commits first, then the first fails. *)
Definition exHead : MapHead := MkMapHead "m" "" None "it" "" "" (Some 2%Z) None None None.
Definition exOver : list value := [VInt 1; VInt 2].
Definition exMoves : list move :=
  [Launch; Launch; Go 1; Go 0; Go 1; Open 1 (Created ""); Go 0; Open 0 (Created ""); Ended 1 okResult;
   Go 1; Ended 0 (OutcomePermanentFailure, Some (EErrf "no" [])); Go 1; Go 0; Go 0; Go 1; Go 0; Go 1; Go 0].
Definition exMap : option (@MapSt InMemoryLog InMemoryBlobs ()) :=
  plays exIctx exHead "map[0]" false exOver ∅ exMoves (mapStart exState None).

Lemma map_items_committed_witness :
  ∃ (m : @MapSt InMemoryLog InMemoryBlobs ()) es, exMap = Some m ∧ joined exOver m ∧
    logEvents (stLog (mpS m)) = logEvents (stLog exState) ++ es ∧
    (∃ d, d ∈ omap (recordOf "map[0]") es ∧ miN d = 0%Z ∧ statusOf m 0 = miStatus d).
Proof.
  assert (Hm : match exMap with
               | Some m => joinedb exOver m && match statusErr m with None => true | Some _ => false end
               | None => false
               end = true) by (vm_compute; reflexivity).
  destruct exMap as [m|] eqn:E; [|discriminate Hm]. apply andb_prop in Hm as [Hj He]. apply joinedb_ok in Hj.
  destruct (map_items_committed exIctx exHead "map[0]" false exOver ∅ exState m (λ _, Err ErrNotExist)) as (_ & es & El & _ & _ & _ & H).
  - reflexivity.
  - exact I.
  - discriminate.
  - eapply plays_rtc, E.
  - exists m, es. split; [reflexivity|]. split; [exact Hj|]. split; [exact El|]. assert (He' : statusErr m = None) by (by destruct (statusErr m)).
    exact (H Hj He' 0%nat ltac:(cbn; lia)).
Defined.
End example.
