(* ===== verification/MapKeep.v ===== *)
(** * [keep: top(k)]

    The frontier of a map that keeps its best [k] items.  Each goroutine that has a score reports it and
    gets the losers of the scores reported so far; it marks them later, when other reports may have come
    in between.  Whatever the order, what is marked in the end is what is beyond the best [k]. *)

From stdpp Require Import sorting.
From S2P Require Import Prelude GoNum Sort GoJson GoStruct TmplLexer TmplParser TmplSlots TmplEval RetryPolicy EnginePath GoPath.
From S2P Require Import StateBlobs StateLog EngineEvents RunState EngineFold Journal Ir IrShape Commit Scope Artifacts Containers RetryLoop Steps Contracts Exports Runtimes Interp Call.
From S2P Require Import InterpLaws InterpFold MapRun MapLaws.

(** ** The order of the scores *)

Definition numbers (scores : gmap nat f64) : Prop := map_Forall (λ _ x, f64_num x) scores.
(** [i] is not among the best [k]. *)
Definition beyond (k : nat) (scores : gmap nat f64) (i : nat) : Prop :=
  ∃ x, scores !! i = Some x ∧ (k ≤ rank score_leb (map_to_list scores) (i, x))%nat.

Lemma score_before_key a b : f64_num a.2 → f64_num b.2 →
  score_before a b = true ↔ key_cmp (f64_key b.2) (f64_key a.2) = Lt ∨ f64_key a.2 = f64_key b.2 ∧ (a.1 < b.1)%nat.
Proof.
  intros Ha Hb. unfold score_before. destruct (f64_eqb a.2 b.2) eqn:E; cbn [negb].
  - apply f64_eqb_key in E; [|done..]. rewrite Nat.ltb_lt, E. split; [by right|]. intros [Hlt|[_ ?]]; [|done].
    assert (Hr : key_cmp (f64_key b.2) (f64_key b.2) = Eq) by by apply key_cmp_eq. congruence.
  - rewrite f64_ltb_key by done. split; [by left|]. intros [?|[Hk _]]; [done|]. apply f64_eqb_key in Hk; [congruence|done..].
Qed.

Section order.
Variable scores : gmap nat f64.
Hypothesis Hnum : numbers scores.
Notation inS := (λ a : nat * f64, scores !! a.1 = Some a.2).

Lemma inS_num a : inS a → f64_num a.2.
Proof. apply Hnum. Qed.
Lemma inS_same a b : inS a → inS b → a.1 = b.1 → a = b.
Proof. destruct a as [i x], b as [j y]; cbn. intros Ha Hb ->. congruence. Qed.
Lemma score_trans a b c : inS a → inS b → inS c → score_leb a b = true → score_leb b c = true → score_leb a c = true.
Proof.
  intros Ha Hb Hc. unfold score_leb. rewrite !orb_true_iff, !Nat.eqb_eq.
  intros [Hab|Hab] [Hbc|Hbc].
  - left. lia.
  - right. by rewrite (inS_same a b Ha Hb Hab).
  - right. by rewrite <- (inS_same b c Hb Hc Hbc).
  - right. apply score_before_key in Hab, Hbc; try by apply inS_num. apply score_before_key; [by apply inS_num..|].
    rewrite !key_cmp_lt in *. destruct (f64_key a.2) as [[a1 a2] a3], (f64_key b.2) as [[b1 b2] b3], (f64_key c.2) as [[c1 c2] c3]. cbn in *.
    destruct Hab as [Hab|[[= -> -> ->] Hab]], Hbc as [Hbc|[[= <- <- <-] Hbc]]; try (left; lia). right. split; [done|lia].
Qed.
Lemma score_total a b : inS a → inS b → score_leb a b = true ∨ score_leb b a = true.
Proof.
  intros Ha Hb. unfold score_leb. rewrite !orb_true_iff, !Nat.eqb_eq. rewrite !score_before_key by by apply inS_num.
  rewrite !key_cmp_lt. destruct (f64_key a.2) as [[a1 a2] a3], (f64_key b.2) as [[b1 b2] b3]. cbn.
  destruct (decide ((a1, a2, a3) = (b1, b2, b3))) as [[= -> -> ->]|Hne]; [destruct (Nat.lt_total a.1 b.1) as [|[|]]; tauto|].
  assert (Hc : (a1 < b1 ∨ b1 < a1 ∨ a1 = b1 ∧ (a2 < b2 ∨ b2 < a2 ∨ a2 = b2 ∧ (a3 < b3 ∨ b3 < a3)))%Z).
  { destruct (Z.lt_total a1 b1) as [|[->|]]; [tauto| |tauto]. destruct (Z.lt_total a2 b2) as [|[->|]]; [tauto| |tauto].
    destruct (Z.lt_total a3 b3) as [|[->|]]; tauto. }
  destruct_or!; destruct_and?; destruct_or?; destruct_and?; destruct_or?; (left; right; left; lia) || (right; right; left; lia).
Qed.
Lemma score_antisym a b : inS a → inS b → score_leb a b = true → score_leb b a = true → a = b.
Proof.
  intros Ha Hb. unfold score_leb. rewrite !orb_true_iff, !Nat.eqb_eq. rewrite !score_before_key by by apply inS_num.
  rewrite !key_cmp_lt. destruct (f64_key a.2) as [[a1 a2] a3], (f64_key b.2) as [[b1 b2] b3]. cbn.
  intros [Hab|Hab] [Hba|Hba]; try by apply (inS_same a b). exfalso.
  destruct Hab as [Hab|[[= -> -> ->] Hab]], Hba as [Hba|[[=] Hba]]; subst; lia.
Qed.

Lemma lowestBeyondK_spec k j : j ∈ lowestBeyondK k scores ↔ beyond k scores j.
Proof.
  set (l := sort_by score_leb (map_to_list scores)).
  assert (Hperm : l ≡ₚ map_to_list scores) by apply sort_by_perm.
  assert (Hin : ∀ a, a ∈ l ↔ inS a) by (intros [i x]; rewrite Hperm; apply elem_of_map_to_list).
  assert (Hs : StronglySorted (λ a b, score_leb a b = true) l).
  { apply (sort_by_sorted score_leb inS); [exact score_trans|exact score_total|]. apply Forall_forall. intros a. by rewrite <- Hperm, Hin. }
  assert (Hrank : ∀ a, a ∈ l → (a ∈ drop k l ↔ (k ≤ rank score_leb (map_to_list scores) a)%nat)).
  { intros a Ha. rewrite (rank_sorted score_leb l Hs); [by rewrite (rank_perm score_leb _ _ a Hperm)| | | |done].
    - intros b c. rewrite !Hin. apply score_antisym.
    - rewrite Hperm. apply NoDup_map_to_list.
    - intros b _. unfold score_leb. by rewrite Nat.eqb_refl. }
  unfold lowestBeyondK. fold l. rewrite sort_by_perm, list_elem_of_fmap. split.
  - intros ([i x] & -> & Hd). assert (Hl : (i, x) ∈ l) by (rewrite <- (take_drop k l); apply elem_of_app; by right).
    exists x. split; [by apply Hin in Hl|by apply Hrank].
  - intros (x & Hx & Hk). exists (j, x). split; [done|]. apply Hrank; [by apply Hin|done].
Qed.
End order.

Lemma lowestBeyondK_dom k scores j : j ∈ lowestBeyondK k scores → is_Some (scores !! j).
Proof.
  unfold lowestBeyondK. rewrite sort_by_perm, list_elem_of_fmap. intros ([i x] & -> & Hd). exists x. apply elem_of_map_to_list.
  rewrite <- (sort_by_perm score_leb), <- (take_drop k (sort_by _ _)). apply elem_of_app. by right.
Qed.
Lemma beyond_size k scores j : numbers scores → (size scores ≤ k)%nat → ¬ beyond k scores j.
Proof.
  intros Hn Hk Hb. apply lowestBeyondK_spec in Hb; [|done]. unfold lowestBeyondK in Hb. rewrite drop_ge in Hb; [by apply not_elem_of_nil in Hb|].
  by rewrite sort_by_perm, length_map_to_list.
Qed.
Lemma beyond_insert k scores i x j : scores !! i = None → beyond k scores j → beyond k (<[i := x]> scores) j.
Proof.
  intros Hi (y & Hy & Hk). exists y. split; [by rewrite lookup_insert_ne by congruence|].
  rewrite (rank_perm score_leb _ _ _ (map_to_list_insert scores i x Hi)). etrans; [exact Hk|].
  change ((i, x) :: map_to_list scores) with ([(i, x)] ++ map_to_list scores). rewrite rank_app. lia.
Qed.

(** ** The frontier *)

Section keep.
Context {HL : TimeCodec} {L B W : Type} {HLog : Log L} {HB : Blobs B} {HW : World W} {HS : Signals W} {HE : Externals}.
#[local] Notation St := (St L B W).
Variables (ic : Ictx) (n : MapHead) (mapPath : string) (resume : bool) (over : list value) (policy : Prune).
Hypothesis Hkeep : pnStopWhen policy = "".
#[local] Notation MapSt := (@MapSt L B W).
#[local] Notation step := (mstep ic n mapPath resume over ∅).
#[local] Notation K := (Z.to_nat (default 0%Z (pnKeep policy))).

(** What the phase of an item says of its status and its score. *)
Definition keepInv (err : option itemErr) (st : string) (p : phase) (score : option f64) : Prop :=
  match p with
  | PhAppend _ | PhSync _ | PhSynced _ => False
  | PhScore | PhReport _ => st = ItemPassed ∧ score = None
  | PhApply d => st = ItemPassed ∧ is_Some score ∧ ∃ l, d = PruneLosers l
  | PhRelease | PhDone => err ≠ None ∨ (st = ItemPassed ∧ is_Some score) ∨ (st = ItemFailed ∧ score = None)
  | _ => score = None
  end.
(** [j] is in a decision that is still to be applied. *)
Definition pending (m : MapSt) (j : nat) : Prop := ∃ i l, phaseOf m i = PhApply (PruneLosers l) ∧ j ∈ l.

Record keeping (r : pruneRun) (m : MapSt) : Prop := {
  k_run : prune m = Some r;
  k_policy : prPolicy r = policy;
  k_stop : prStopAll r = false;
  k_marked : ∀ j, j ∈ prPruned r ∨ pending m j → is_Some (prScores r !! j);
  k_beyond : numbers (prScores r) → ∀ j, j ∈ prPruned r ∨ pending m j ↔ beyond K (prScores r) j;
  k_inv : ∀ i, keepInv (statusErr m) (statusOf m i) (phaseOf m i) (prScores r !! i) }.

Lemma keeping_start s stepID : keeping (newPruneRun policy stepID) (mapStart s (Some (newPruneRun policy stepID))).
Proof.
  assert (Hp : ∀ j, ¬ pending (mapStart s (Some (newPruneRun policy stepID))) j) by (intros j (i & l & Hi & _); done).
  split; try done.
  - intros j [Hj|Hj]; [by apply not_elem_of_empty in Hj|by destruct (Hp j)].
  - intros _ j. split; [intros [Hj|Hj]; [by apply not_elem_of_empty in Hj|by destruct (Hp j)]|]. intros (x & Hx & _). by destruct (lookup_empty_Some _ _ Hx).
Qed.

Lemma pending_phase (m m' : MapSt) i p : phases m' = <[i := p]> (phases m) → (∀ l, phaseOf m i ≠ PhApply (PruneLosers l)) → (∀ l, p ≠ PhApply (PruneLosers l)) →
  ∀ j, pending m' j ↔ pending m j.
Proof.
  intros Eph Ho Hn j. assert (Hph : ∀ j, phaseOf m' j = if decide (i = j) then p else phaseOf m j).
  { intros j'. unfold phaseOf. rewrite Eph. destruct (decide (i = j')) as [->|]; [by rewrite lookup_insert_eq|by rewrite lookup_insert_ne]. }
  split; intros (i' & l & Hi & Hj); exists i', l; (split; [|done]).
  - rewrite Hph in Hi. destruct (decide (i = i')); [by destruct (Hn l)|done].
  - rewrite Hph. destruct (decide (i = i')) as [<-|]; [by destruct (Ho l)|done].
Qed.

(** A step of the goroutine of [i] that neither scores nor marks. *)
Lemma keeping_phase r r' m m' i p : keeping r m →
  prune m' = Some r' → prPolicy r' = prPolicy r → prStopAll r' = prStopAll r → prPruned r' = prPruned r → prScores r' = prScores r →
  phases m' = <[i := p]> (phases m) → (∀ j, j ≠ i → statuses m' !! j = statuses m !! j) →
  (statusErr m ≠ None → statusErr m' ≠ None) →
  (∀ l, phaseOf m i ≠ PhApply (PruneLosers l)) → (∀ l, p ≠ PhApply (PruneLosers l)) →
  (keepInv (statusErr m) (statusOf m i) (phaseOf m i) (prScores r !! i) → keepInv (statusErr m') (statusOf m' i) p (prScores r !! i)) →
  keeping r' m'.
Proof.
  intros [Hr Hp Hs Hm Hb Hv] Er' Ep Es Epr Esc Eph Est He Ho Hn Hi. pose proof (pending_phase m m' i p Eph Ho Hn) as Hpe.
  split.
  - done.
  - by rewrite Ep.
  - by rewrite Es.
  - intros j. rewrite Epr, Esc, Hpe. apply Hm.
  - intros Hnum j. rewrite Epr, Esc, Hpe in *. by apply Hb.
  - intros j. rewrite Esc. unfold phaseOf. rewrite Eph. destruct (decide (i = j)) as [<-|Hne]; [rewrite lookup_insert_eq; by apply Hi|].
    rewrite lookup_insert_ne by done. unfold statusOf. rewrite Est by done. specialize (Hv j). unfold phaseOf, statusOf in Hv.
    destruct (default PhNew (phases m !! j)); cbn in *; try done; tauto.
Qed.
Lemma pruned_scored r m i : keeping r m → prunedItem m i = true → is_Some (prScores r !! i).
Proof.
  intros HK. unfold prunedItem. rewrite (k_run _ _ HK). unfold isPruned. rewrite (k_stop _ _ HK). cbn. rewrite orb_false_r.
  intros Hp%bool_decide_eq_true. apply (k_marked _ _ HK). by left.
Qed.
Lemma pending_insert (m m' : MapSt) i d : phases m' = <[i := PhApply (PruneLosers d)]> (phases m) → (∀ l, phaseOf m i ≠ PhApply (PruneLosers l)) →
  ∀ j, pending m' j ↔ j ∈ d ∨ pending m j.
Proof.
  intros Eph Ho j. assert (Hph : ∀ j, phaseOf m' j = if decide (i = j) then PhApply (PruneLosers d) else phaseOf m j).
  { intros j'. unfold phaseOf. rewrite Eph. destruct (decide (i = j')) as [->|]; [by rewrite lookup_insert_eq|by rewrite lookup_insert_ne]. }
  split.
  - intros (i' & l & Hi & Hj). rewrite Hph in Hi. destruct (decide (i = i')); [left; by injection Hi as ->|right; by exists i', l].
  - intros [Hj|(i' & l & Hi & Hj)]; [exists i, d; rewrite Hph; by destruct (decide (i = i))|].
    exists i', l. split; [|done]. rewrite Hph. destruct (decide (i = i')) as [<-|]; [by destruct (Ho l)|done].
Qed.

Lemma numbers_insert scores i x : scores !! i = None → numbers (<[i := x]> scores) → numbers scores.
Proof. intros Hi Hn. by apply map_Forall_insert_1_2 in Hn. Qed.

(** What [Report] decides. *)
Lemma Report_keep i raw scores d scores' : scores !! i = None → Report policy i raw scores = (Ok d, scores') →
  ∃ x l, d = PruneLosers l ∧ scores' = <[i := x]> scores ∧ (∀ j, j ∈ l → is_Some (scores' !! j)) ∧
    (numbers scores' → ∀ j, j ∈ l ↔ beyond K scores' j).
Proof.
  intros Hi. unfold Report. destruct (asFloat raw) as [x|e]; [|done]. rewrite Hkeep. cbn [String.eqb negb].
  set (s' := <[i := x]> scores). set (k := default 0%Z (pnKeep policy)). intros HR.
  destruct (Z.leb_spec (Z.of_nat (size s')) k) as [Hle|Hlt]; injection HR as <- <-.
  - exists x, []. split; [done|]. split; [done|]. split; [by intros j ?%not_elem_of_nil|]. intros Hn j.
    split; [by intros ?%not_elem_of_nil|]. intros Hb. exfalso. eapply beyond_size, Hb; [done|]. lia.
  - eexists x, _. split; [done|]. split; [done|]. split; [intros j; apply lowestBeyondK_dom|]. intros Hn j. by apply lowestBeyondK_spec.
Qed.

Lemma keeping_report r m i raw : keeping r m → phaseOf m i = PhReport raw →
  ∃ r', keeping r' (let '(d, scores) := Report (prPolicy r) i raw (prScores r) in
                    let m := withPrune (withScores scores r) m in
                    match d with
                    | Err e => setPhase i PhRelease (firstErr (IInternal e) m)
                    | Ok d => setPhase i (PhApply d) m
                    end).
Proof.
  intros HK Hi. pose proof HK as [Hr Hp Hs Hm Hb Hv]. pose proof (Hv i) as Hvi. rewrite Hi in Hvi. destruct Hvi as [Hst Hno]. rewrite Hp.
  assert (Hnp : ∀ l, phaseOf m i ≠ PhApply (PruneLosers l)) by (intros l; by rewrite Hi).
  destruct (Report policy i raw (prScores r)) as [[d|e] scores'] eqn:HR.
  - destruct (Report_keep i raw _ d scores' Hno HR) as (x & l & -> & -> & Hd & Hl).
    pose proof (pending_insert m (setPhase i (PhApply (PruneLosers l)) (withPrune (withScores (<[i := x]> (prScores r)) r) m)) i l eq_refl Hnp) as Hpe.
    exists (withScores (<[i := x]> (prScores r)) r). split; cbn [withScores prPolicy prStopAll prPruned prScores setPhase withPrune prune statusErr]; try done.
    + intros j. rewrite Hpe. intros Hj.
      assert (Hj' : j ∈ l ∨ (j ∈ prPruned r ∨ pending m j)) by tauto. destruct Hj' as [?|Hj']; [by apply Hd|].
      destruct (decide (j = i)) as [->|Hne]; [rewrite lookup_insert_eq; by eexists|rewrite lookup_insert_ne by done; by apply Hm].
    + intros Hn j. rewrite Hpe. specialize (Hb (numbers_insert _ _ _ Hno Hn) j). rewrite <- (Hl Hn j). split; [|tauto].
      intros Hj. assert (Hj' : j ∈ l ∨ (j ∈ prPruned r ∨ pending m j)) by tauto. destruct Hj' as [?|Hj']; [done|].
      apply Hl; [done|]. apply beyond_insert; [done|]. by apply Hb.
    + intros j. change (statusOf _ j) with (statusOf m j). unfold phaseOf. cbn [setPhase withPrune phases]. destruct (decide (i = j)) as [<-|Hne].
      * rewrite !lookup_insert_eq. cbn. split; [done|]. split; [by eexists|by exists l].
      * rewrite !lookup_insert_ne by done. exact (Hv j).
  - assert (Hsc : scores' = prScores r).
    { revert HR. unfold Report. destruct (asFloat raw); [|by intros [= _ ->]]. rewrite Hkeep. cbn [String.eqb negb]. by destruct (_ <=? _)%Z. }
    subst scores'. exists (withScores (prScores r) r). eapply (keeping_phase r _ m _ i PhRelease HK); try done.
    + intros _. cbn. by destruct (statusErr m).
    + intros _. left. cbn. by destruct (statusErr m).
Qed.

Lemma keeping_apply r m i d : keeping r m → phaseOf m i = PhApply d →
  keeping (applyDecision d r) (setPhase i PhRelease (withPrune (applyDecision d r) m)).
Proof.
  intros HK Hi. pose proof HK as [Hr Hp Hs Hm Hb Hv]. pose proof (Hv i) as Hvi. rewrite Hi in Hvi. destruct Hvi as (Hst & Hso & l & ->).
  assert (Hpe : ∀ j, j ∈ prPruned (applyDecision (PruneLosers l) r) ∨ pending (setPhase i PhRelease (withPrune (applyDecision (PruneLosers l) r) m)) j ↔
                     j ∈ prPruned r ∨ pending m j).
  { intros j. cbn [applyDecision prPruned]. rewrite elem_of_union, elem_of_list_to_set.
    assert (Hph : ∀ j', phaseOf (setPhase i PhRelease (withPrune (applyDecision (PruneLosers l) r) m)) j' = if decide (i = j') then PhRelease else phaseOf m j')
      by (intros j'; exact (phaseOf_setPhase i PhRelease m j')).
    split.
    - intros [[Hj|Hj]|(i' & l' & Hi' & Hj)]; [right; by exists i, l|by left|]. rewrite Hph in Hi'.
      destruct (decide (i = i')); [done|]. right. by exists i', l'.
    - intros [Hj|(i' & l' & Hi' & Hj)]; [by do 2 (left; try right) || tauto|]. destruct (decide (i = i')) as [<-|Hne].
      + rewrite Hi in Hi'. injection Hi' as <-. tauto.
      + right. exists i', l'. rewrite Hph. by destruct (decide (i = i')). }
  split; try done.
  - intros j. rewrite Hpe. apply Hm.
  - intros Hn j. rewrite Hpe. by apply Hb.
  - intros j. change (statusOf _ j) with (statusOf m j). unfold phaseOf. cbn [setPhase withPrune phases statusErr applyDecision prScores].
    destruct (decide (i = j)) as [<-|Hne]; [rewrite lookup_insert_eq; cbn; tauto|]. rewrite lookup_insert_ne by done. exact (Hv j).
Qed.

(** The goroutine of an item without a score whose next step is decided by [dispatchItem]. *)
Lemma keeping_failed r m i e : keeping r m → (∀ d, phaseOf m i ≠ PhApply d) → prScores r !! i = None → keeping r (itemFailed i e m).
Proof.
  intros HK Hd Hno. assert (Hnp : prunedItem m i = false).
  { destruct (prunedItem m i) eqn:E; [|done]. apply (pruned_scored r) in E; [|done]. rewrite Hno in E. by destruct E. }
  unfold itemFailed. cbn zeta. assert (Hnp' : prunedItem (setStatus i "" "" (setPhase i PhRelease m)) i = false) by exact Hnp. rewrite Hnp'.
  eapply (keeping_phase r r m _ i PhRelease HK); try done.
  - apply (k_run _ _ HK).
  - intros j Hj. cbn. by rewrite lookup_insert_ne.
  - intros _. cbn. by destruct (statusErr m).
  - intros _. left. cbn. by destruct (statusErr m).
Qed.
Lemma keeping_proceed r m i next st c : keeping r m → (∀ d, phaseOf m i ≠ PhApply d) → prScores r !! i = None →
  (∀ p, next = inl p → (∃ digest, p = PhBody digest) ∨ (∃ digest reason, p = PhSkip digest reason) ∨ (p = PhScore ∧ st = ItemPassed) ∨ (p = PhRelease ∧ st = ItemFailed)) →
  keeping r (proceed i next st c m).
Proof.
  intros HK Hd Hno Hn. destruct next as [p|e]; [|by apply keeping_failed].
  destruct (Hn p eq_refl) as [(dg & ->)|[(dg & rs & ->)|[[-> ->]|[-> ->]]]]; cbn [proceed];
    (eapply (keeping_phase r r m _ i _ HK); [apply (k_run _ _ HK)|done..|reflexivity| |done|done|done|]);
    try (intros j Hj; cbn; by rewrite lookup_insert_ne); try done;
    intros _; cbn; unfold statusOf; cbn; rewrite ?lookup_insert_eq; cbn; tauto.
Qed.

Lemma keeping_log r m s' : keeping r m → keeping r (withSt s' m).
Proof. by intros [A B1 C D E F]. Qed.

Lemma opened_keep i image c p : opened true i image c = inl p → (∃ digest, p = PhBody digest) ∨ p = PhRelease.
Proof. unfold opened. intros Ho. destruct c, image; simplify_eq; eauto. Qed.
Lemma bodyEnded_keep i digest r p : bodyEnded true i digest r = inl p →
  (∃ reason, p = PhSkip digest reason) ∨ (p = PhScore ∧ r.2 = None) ∨ (p = PhRelease ∧ is_Some r.2).
Proof.
  unfold bodyEnded. intros Ho. destruct (skipOf r) as [reason|]; [left; exists reason; by injection Ho|].
  destruct r.2 as [e|]; [destruct (isTypedFailureOutcome _)|destruct (String.eqb _ _)]; simplify_eq; [|by right; left].
  right; right. split; [done|by eexists].
Qed.

Lemma keeping_step r m m' : launches n resume over ∅ m → keeping r m → step m m' → ∃ r', keeping r' m'.
Proof.
  intros HL0 HK Hs. pose proof (k_run _ _ HK) as Hr. pose proof (k_inv _ _ HK) as Hv.
  destruct Hs; try (match goal with H : phaseOf m ?i = _ |- _ => pose proof (Hv i) as Hvi; rewrite H in Hvi; cbn [keepInv] in Hvi end);
    try done; try congruence;
    try (match goal with H : prune m = Some ?x |- _ => tryif constr_eq x r then fail else (assert (x = r) as -> by congruence) end);
    try (match goal with H : phaseOf m ?i = ?p |- _ => assert (Hna : ∀ d, phaseOf m i ≠ PhApply d) by (intros d'; by rewrite H) end);
    try (match goal with H : phaseOf m ?i = _ |- _ => assert (Hnp : prunedItem m i = true → prScores r !! i = None → False)
           by (intros E; apply (pruned_scored r) in E; [|done]; destruct E as [? ->]; done) end).
  - (* launch *) exists r. assert (Hnew : phaseOf m (launched m) = PhNew).
    { destruct (decide (phaseOf m (launched m) = PhNew)) as [|Hne]; [done|]. destruct (l_new _ _ _ _ _ HL0 _ Hne). lia. }
    eapply (keeping_phase r r m _ (launched m) PhStart HK); try done; [by rewrite Hnew|]. by rewrite Hnew.
  - (* register *) exists (register i r). by eapply (keeping_phase r _ m _ i PhRegistered HK).
  - (* registered *) exists r. destruct (prunedItem m i) eqn:E; [destruct (Hnp eq_refl Hvi)|]. by eapply (keeping_phase r r m _ i PhQueued HK).
  - exists r. by eapply (keeping_phase r r m _ i PhHolding HK).
  - (* no slot *) exists r. destruct (prunedItem m i) eqn:E; [destruct (Hnp eq_refl Hvi)|].
    eapply (keeping_phase r r m _ i PhDone HK); try done; [by intros _; cbn; destruct (statusErr m)|]. intros _. left. cbn. by destruct (statusErr m).
  - exfalso. by apply Hnp.
  - (* open *) exists r. unfold isFrontier in *. rewrite Hr in *. apply keeping_proceed; [done..|]. intros p ->.
    destruct (renderImage _ _ _ _ _) as [image|e]; [|done].
    match goal with H : inl p = opened _ _ _ _ |- _ => symmetry in H; apply opened_keep in H as [?| ->] end; tauto.
  - exists r. by apply keeping_log.
  - (* ended *) exists r. unfold isFrontier in *. rewrite Hr in *. apply keeping_proceed; [done..|]. intros p Hp.
    apply bodyEnded_keep in Hp as [[reason ->]|[[-> ->]|[-> [e ->]]]]; [right; left; eauto|tauto|tauto].
  - (* skip *) exists r. unfold isFrontier in *. cbn [withSt prune] in *. rewrite Hr in *. destruct e as [e|].
    + by apply keeping_failed; [apply keeping_log| |].
    + apply keeping_proceed; [by apply keeping_log|done..|]. intros p [= <-]. by right; right; left.
  - (* score *) destruct (rawScore _ _ _ _) as [raw|e].
    + exists (markCompleted i r). by eapply (keeping_phase r _ m _ i (PhReport raw) HK).
    + exists r. eapply (keeping_phase r r m _ i PhRelease HK); try done; [by intros _; cbn; destruct (statusErr m)|]. intros _. left. cbn. by destruct (statusErr m).
  - by apply keeping_report.
  - exists (applyDecision d r). by apply keeping_apply.
  - exists r. by eapply (keeping_phase r r m _ i PhDone HK).
Qed.

Lemma keeping_reach s stepID m : rtc step (mapStart s (Some (newPruneRun policy stepID))) m → ∃ r, keeping r m.
Proof.
  intros Hr. assert (H : ∃ r, keeping r (mapStart s (Some (newPruneRun policy stepID)))) by (eexists; apply keeping_start).
  assert (H0 : launches n resume over ∅ (mapStart s (Some (newPruneRun policy stepID)))) by apply launches_start. revert H H0.
  induction Hr as [m|m1 m2 m3 Hs _ IH]; [done|]. intros [r HK] Hl. apply IH; [by eapply keeping_step|by eapply launches_step].
Qed.
End keep.

(** ** The disposition in the log *)

Section frontier.
Context {HL : TimeCodec} {L B W : Type} {HLog : Log L} {HLaws : LogLaws} {HR : LogRobust} {HB : Blobs B} {HW : World W} {HS : Signals W} {HE : Externals}.
#[local] Notation MapSt := (@MapSt L B W).
Variables (ic : Ictx) (n : MapHead) (mapPath : string) (resume : bool) (over : list value).

Lemma mstep_ok committed (m m' : MapSt) : logOK (stLog (mpS m)) → mstep ic n mapPath resume over committed m m' → logOK (stLog (mpS m')).
Proof.
  assert (Hp : ∀ i next st c (m : MapSt), stLog (mpS (proceed i next st c m)) = stLog (mpS m)).
  { intros i [p|e] st c m0; [by destruct p|]. cbn. unfold itemFailed. cbn zeta. by destruct (prunedItem _ _). }
  assert (Hf : ∀ i e (m : MapSt), stLog (mpS (itemFailed i e m)) = stLog (mpS m)).
  { intros i e m0. unfold itemFailed. cbn zeta. by destruct (prunedItem _ _). }
  assert (Ha : ∀ ty path j (s : St L B W) e s', marshal j = Some j → logOK (stLog s) → appendTo ty path j s = (e, s') → logOK (stLog s')).
  { intros ty path j s [e|] s' Hm Hs He; [by apply appendTo_lost in He as (? & _)|]. by apply appendTo_done in He as (ev & _ & (? & _)). }
  intros Hok Hs. destruct Hs; cbn [launch setStatus setPhase withSt withPrune mpS]; try done; rewrite ?Hp, ?Hf; try done.
  - by destruct (prunedItem m i).
  - by match goal with H : itemStep _ _ _ |- _ => destruct H as (? & _) end.
  - assert (Hok' : logOK (stLog s')) by (eapply Ha, H0; [apply marshal_NodeSkipped|done]). destruct e; by rewrite ?Hf, ?Hp.
  - assert (Hok' : logOK (stLog s')) by (eapply Ha, H0; [apply marshal_MapItem|done]). destruct e; by rewrite ?Hf.
  - assert (Hok' : logOK (stLog s')) by (by eapply syncLog_extends in H0 as (? & _)). destruct e; by rewrite ?Hf.
  - by destruct (rawScore _ _ _ _).
  - by destruct (Report _ _ _ _) as [[]].
Qed.
Lemma mstep_reach_ok committed (m m' : MapSt) : rtc (mstep ic n mapPath resume over committed) m m' → logOK (stLog (mpS m)) → logOK (stLog (mpS m')).
Proof. induction 1 as [|m1 m2 m3 Hs _ IH]; [done|]. intros Hok. by eapply IH, mstep_ok. Qed.

Lemma marshal_MapFrontier d : marshal (MapFrontierData_json d) = Some (MapFrontierData_json d).
Proof.
  apply marshal_obj. cbn [field forallb snd]. rewrite andb_true_r. cbn [nums_ok]. induction (mfItems d) as [|it l IH]; [done|].
  cbn [map forallb]. rewrite andb_true_iff. split; [|exact IH]. pose proof (marshal_MapItem it) as Hm. unfold marshal in Hm. by destruct (nums_ok _).
Qed.

Definition frontierRecord (it : MapItemData) : MapItemRecord := MkMapItem (miN it) VNil (miStatus it) "" (miImageDigest it) (miReason it) (miCause it).
Lemma frontier_items path l : ∀ rs, LookupMapItems (foldl (frontierItem path) rs l) path = LookupMapItems rs path ++ map frontierRecord l.
Proof.
  induction l as [|it l IH]; intros rs; cbn [foldl map]; [by rewrite app_nil_r|]. rewrite IH. unfold LookupMapItems at 1, frontierItem at 1.
  cbn [rsMapItems setMapItems]. rewrite at_path_insert, String.eqb_refl. by rewrite <- app_assoc.
Qed.

Lemma commit_frontier items (s s' : St L B W) get rs0 rs1 : Forall (λ it, in_i64 (miN it) = true) items → logOK (stLog s) → logEvents (stLog s) ≠ [] →
  commitMapFrontier mapPath items s = (None, s') →
  Fold get (logEvents (stLog s)) = Ok rs0 → Fold get (logEvents (stLog s')) = Ok rs1 →
  LookupMapItems rs1 mapPath = LookupMapItems rs0 mapPath ++ map frontierRecord items.
Proof.
  intros Hn Hok Hne. unfold commitMapFrontier. destruct (appendSynced _ _ _ s) as [[e|] s1] eqn:Ha; [done|]. intros [= <-] H0 H1.
  apply appendSynced_cases in Ha as [[[? ?] _]|(ev & (Hp & Ht & _ & Hd) & (_ & El & _) & _)]; [done| |apply marshal_MapFrontier|done].
  cbn [setRS stLog newEvent Path EvType Data] in *. rewrite El, Fold_app, H0 in H1 by done. cbn [res_bind foldEvents] in H1.
  rewrite Ht in H1. cbn in H1. unfold foldArm in H1. rewrite Ht in H1. cbn in H1. unfold foldMapFrontier, parseData in H1. rewrite Hd in H1.
  cbn [mbind option_bind] in H1. rewrite MapFrontierData_read in H1 by done. cbn in H1. injection H1 as <-. rewrite Hp. apply frontier_items.
Qed.

Lemma freshItems_all (m : MapSt) :
  freshItems over ∅ m = map (λ i, itemData i (settled ∅ m i) "" "" "" (if String.eqb (settled ∅ m i) ItemFailed then default "" (causes m !! i) else "")) (indices over).
Proof. unfold freshItems. induction (indices over) as [|i l IH]; [done|]. cbn. rewrite lookup_empty. by rewrite IH. Qed.
End frontier.

(** ** Properties *)


Section example.
#[local] Existing Instance two_times.
#[local] Existing Instance InMemoryLog_laws.
#[local] Existing Instance exSteady_log.
#[local] Existing Instance exSteady_robust.

(** Two items whose bodies were committed before a crash, [keep: top(1)]; the worse one reports first and
    marks last. *)
Definition exPolicy : Prune := MkPrune "score" (Some 1%Z) "".
Definition exScored (score : Z) : NodeResult := MkNodeResult OutcomeOK None (Some [("score", VFloat (f64_of_Z score))]) "" "" "" ∅ zeroTurn "" "".
Definition exBodies : St InMemoryLog InMemoryBlobs () :=
  setRS (RecordCompleted (ItemStepPath "map[0]" 0 "s") (exScored 3)
           (RecordCompleted (ItemStepPath "map[0]" 1 "s") (exScored 7) (stRS exState))) exState.
Definition exKeepMoves : list move :=
  [Launch; Launch; Go 0; Go 0; Go 0; Open 0 (Created ""); Ended 0 okResult; Go 1; Go 1; Go 1; Open 1 (Created ""); Ended 1 okResult;
   Go 0; Go 0; Go 1; Go 1; Go 1; Go 0; Go 0; Go 1].
Definition exKept : option (@MapSt InMemoryLog InMemoryBlobs ()) :=
  plays exIctx exHead "map[0]" false exOver ∅ exKeepMoves (mapStart exBodies (Some (newPruneRun exPolicy "s"))).
Definition exNumbers (m : @MapSt InMemoryLog InMemoryBlobs ()) : bool :=
  match prune m with Some r => forallb (λ ix : nat * f64, f64_eqb ix.2 ix.2) (map_to_list (prScores r)) | None => false end.

Example keep_kept : (λ m, map (settled ∅ m) [0; 1]%nat) <$> exKept = Some [ItemPruned; ItemPassed].
Proof. vm_compute. reflexivity. Qed.
End example.
