(* ===== verification/Reduce.v ===== *)
(** * The fan-in of a map: engine/reduce.go

    After the items of a map with a [reduce:] clause, the committed outputs of the passed items are
    collected and collapsed into one output, committed at the address of the map: a vote, or the result of
    a command that runs over the staged branches. *)

From stdpp Require Import sorting.
From S2P Require Import Prelude GoNum Sort GoJson GoStruct TmplLexer TmplParser TmplSlots TmplEval RetryPolicy EnginePath GoPath.
From S2P Require Import StateBlobs StateLog EngineEvents RunState EngineFold Journal Ir IrShape Commit Scope Artifacts Containers RetryLoop Steps Contracts Exports Runtimes Interp Call InterpFold MapRun.

(** ** The branches *)

(** The outputs of a branch are a map that is never nil. *)
Record reduceBranch : Type := MkBranch { rbN : Z; rbOutputs : list (string * value); rbFiles : gmap string string }.

Record reduceBodyProducer : Type := MkProducer { rpSuffix : string; rpOutputFiles : OutputFiles }.
(** The steps of the body that produce something, in walk order. *)
Definition bodyProducers (body : NodeList) : list reduceBodyProducer :=
  omap (λ np : Node * string,
    match np.1 with
    | NCode s => Some (MkProducer (TrimPrefix np.2 "body.") (csOutputFiles s))
    | NAgent s => Some (MkProducer (TrimPrefix np.2 "body.") (asOutputFiles s))
    | _ => None
    end) (WalkNodes body "body").

(** [b.Outputs[k] = v] for every entry. *)
Definition mergeOutputs (acc : list (string * value)) (o : gomap) : list (string * value) :=
  foldl (λ acc kv, entry_set kv.1 kv.2 acc) acc (default [] o).

(** The named files of one step; [PInternal]: a committed artifact is missing. *)
Fixpoint branchFiles (scope : Scope) (n : Z) (nr : NodeResult) (ofs : OutputFiles) (acc : gmap string string) : res prepErr (gmap string string) :=
  match ofs with
  | [] => Ok acc
  | f :: ofs =>
      if String.eqb (ofName f) "" then branchFiles scope n nr ofs acc
      else match Substitute (Resolve scope) (ofPath f) with
           | Err e => Err (PFail (EWrap "engine.collectReduceBranches: branch %d output_files.%s path %q: %w" [Itoa n; ofName f; ofPath f] (ETmpl e)))
           | Ok containerPath =>
               match nrFiles nr !! containerPath with
               | None => Err (PInternal (EErrf "%w: branch %d output_files.%s not committed at %q" [Itoa n; ofName f; containerPath]))
               | Some ref => branchFiles scope n nr ofs (<[ofName f := ref]> acc)
               end
           end
  end.

Section collect.
Variables (rs : RunState) (wf : Workflow) (mapPath : string).

(** The branch of one item; [None]: no producer of it has committed. *)
Fixpoint branchOf (n : Z) (producers : list reduceBodyProducer) (b : option reduceBranch) : res prepErr (option reduceBranch) :=
  match producers with
  | [] => Ok b
  | p :: producers =>
      match itemBodyStepPath rs mapPath n (rpSuffix p) ≫= λ path, (path,.) <$> LookupCompleted rs path with
      | None => branchOf n producers b
      | Some (path, nr) =>
          let b := default (MkBranch n [] ∅) b in
          let? files := branchFiles (NewScope rs wf path) n nr (rpOutputFiles p) (rbFiles b) in
          branchOf n producers (Some (MkBranch n (mergeOutputs (rbOutputs b) (nrOutputs nr)) files))
      end
  end.
Fixpoint collectItems (producers : list reduceBodyProducer) (items : list MapItemRecord) : res prepErr (list reduceBranch) :=
  match items with
  | [] => Ok []
  | mr :: items =>
      if negb (passedItem mr) then collectItems producers items
      else
        let? b := branchOf (mrN mr) producers None in
        let? bs := collectItems producers items in
        Ok (match b with Some b => b :: bs | None => bs end)
  end.
Definition collectReduceBranches (body : NodeList) : res prepErr (list reduceBranch) :=
  collectItems (bodyProducers body) (itemsByN (LookupMapItems rs mapPath)).
End collect.

(** ** The reducers *)

Definition agrees (field : string) (b : reduceBranch) : bool :=
  match entry_get field (rbOutputs b) with Some (VBool v) => v | _ => false end.
Definition agreeCount (field : string) (branches : list reduceBranch) : Z := Z.of_nat (length (List.filter (agrees field) branches)).
Definition votesDetail (branches : list reduceBranch) : list value :=
  map (λ b, VMap [("index", VInt (rbN b)); ("output", VMap (rbOutputs b))]) branches.
(** The synthetic output: a Go map literal, in which a later key wins. *)
Definition quorumOutput (r : Reduce) (branches : list reduceBranch) (cohort : Z) : list (string * value) :=
  let agree := agreeCount (rdField r) branches in
  foldl (λ acc kv, entry_set kv.1 kv.2 acc) []
    [(rdField r, VBool (quorumThreshold (rdQuorum r) cohort <=? agree)%Z); ("votes", VInt cohort); ("agree", VInt agree);
     ("votes_detail", VMaps (votesDetail branches))].

(** [DispatchResult{Outcome: OutcomeOK, Outputs: out}]. *)
Definition okOutputs (out : list (string * value)) : DispatchResult :=
  MkDispatch OutcomeOK None (Some out) "" [] None 0 None zeroTurn None "" "" "" "" None [] [].

Definition reduceDefaultStagingDir : string := "/work/.awf".
(** [root]: the staging root of the backend, "" for none. *)
Definition reduceStagingRoot (root : string) : string := if String.eqb root "" then reduceDefaultStagingDir else root.

Section reduce.
Context `{Log L} `{Blobs B} `{World W} `{Signals W} `{Externals}.
#[local] Notation St := (St L B W).
Variable ic : Ictx.
Variable backendRoot : string.

Definition runQuorumReduce (r : Reduce) (nodePath : string) (branches : list reduceBranch) (cohort : Z) (s : St) : Result * St :=
  match liftH (Commit xJcs nodePath (okOutputs (quorumOutput r branches cohort)) false) s with
  | (Err e, s) => (internal (EWrap "engine.runReduce: commit quorum at %q: %w" [nodePath] (EEng e)), s)
  | (Ok nr, s) => (okResult, setRS (RecordCompleted nodePath nr (stRS s)) s)
  end.

(** The files of a branch, read in the order of their names. *)
Fixpoint stageFiles (b : B) (root : string) (n : Z) (files : list (string * string)) (acc : gmap string string) : res prepErr (gmap string string) :=
  match files with
  | [] => Ok acc
  | (name, ref) :: files =>
      match blobsGet b ref with
      | Err _ => Err (PInternal (EErrf "engine.runReduce: %w: branch %d file %q: %v" [Itoa n; name]))
      | Ok content => stageFiles b root n files (<[root +:+ "/branch-" +:+ Itoa n +:+ "/" +:+ name := content]> acc)
      end
  end.
Definition byKey (m : gmap string string) : list (string * string) := sort_by (λ a b, String.leb a.1 b.1) (map_to_list m).
Fixpoint stageBranches (b : B) (root : string) (branches : list reduceBranch) (acc : gmap string string) : res prepErr (gmap string string) :=
  match branches with
  | [] => Ok acc
  | br :: branches => let? acc := stageFiles b root (rbN br) (byKey (rbFiles br)) acc in stageBranches b root branches acc
  end.

(** Everything runCommandReduce does before node.started. *)
Definition prepareReduce (rs : RunState) (b : B) (r : Reduce) (nodePath : string) (branches : list reduceBranch) : res prepErr NodeIntent :=
  let root := reduceStagingRoot backendRoot in
  let? raw := match Marshal (VMaps (map (VMap ∘ rbOutputs) branches)) with
              | None => Err (PFail (EErrf "marshal reduce manifest: %w" []))
              | Some raw => Ok raw
              end in
  let? canon := match xJcs raw with
                | None => Err (PFail (EErrf "canonicalize reduce manifest: %w" []))
                | Some canon => Ok canon
                end in
  let? dsts := stageBranches b root branches ∅ in
  let inputs := MkInputFile (root +:+ "/aggregate.json") canon :: map (λ kc, MkInputFile kc.1 kc.2) (byKey dsts) in
  let scope := newReduceTemplateScopeForExec xJcs rs (icWf ic) nodePath (icFrame ic) in
  let? cmd := failing (res_map_err (λ e, EWrap "engine.runReduce: template reduce run %q: %w" [rdRun r] (ETmpl e)) (Substitute scope (rdRun r))) in
  let? (outputFiles, contracts) :=
    failingFile "engine.runReduce: resolve output_files contracts at %q: %w" nodePath
      (EWrap "engine.runReduce: substitute output_files at %q: %w" [nodePath])
      (resolveOutputFiles compileError (blobsGet b) (icModuleID ic) (rsAssets rs) scope (rdOutputFiles r)) in
  Ok (MkIntent nodePath (NCode (MkCodeStep "" (rdContainer r) cmd None (rdOutputSchema r) (rdOutputFiles r) ∅ None None))
        (MkInputs cmd (<["AWF_STAGING_ROOT" := root]> (icRunEnv ic)) outputFiles contracts (rdOutputSchema r) [] 0 0 inputs "" noAgent) "" 0 false false zeroRunContext).

Definition runCommandReduce (cx : Context_) (ld : LocalDispatcher) (r : Reduce) (nodePath : string) (branches : list reduceBranch) (s : St) : Result * St :=
  match prepareReduce (stRS s) (stBlobs s) r nodePath branches with
  | Err (PFail e) => failStep nodePath OutcomePermanentFailure e s
  | Err (PInternal e) => (internal e, s)
  | Ok intent =>
      let s := appendNodeStarted nodePath "reduce" s in
      let '((dr, runErr), (l, w)) := RunWithRetry None cx ld intent CodeDefault (stLog s, stW s) in
      let s := setLog l (setW w s) in
      match runErr with
      | Some e => if String.eqb (drOutcome dr) "" then (internal (EWrap "engine.runReduce: dispatch at %q: %w" [nodePath] e), s)
                  else failStep nodePath (drOutcome dr) e s
      | None =>
          match liftH (Commit xJcs nodePath dr false) s with
          | (Err e, s) => (internal (EWrap "engine.runReduce: commit reduce at %q: %w" [nodePath] (EEng e)), s)
          | (Ok nr, s) => (okResult, setRS (RecordCompleted nodePath nr (stRS s)) s)
          end
      end
  end.

Definition runReduce (cx : Context_) (ld : LocalDispatcher) (r : Reduce) (nodePath : string) (branches : list reduceBranch) (cohort : Z) (s : St) : Result * St :=
  match LookupCompleted (stRS s) nodePath with
  | Some _ => (okResult, s)
  | None =>
      if IsQuorum (Some r) then runQuorumReduce r nodePath branches cohort s
      else if IsRun (Some r) then runCommandReduce cx ld r nodePath branches s
      else (internal (EErrf "engine.runReduce: reduce at %q has neither quorum nor run (validator AWF1035)" [nodePath]), s)
  end.

(** A container the dispatcher has no handle of is created for the reducer. *)
Definition runMapReduce (cx : Context_) (r : Reduce) (body : NodeList) (mapPath : string) (cohort : Z) (s : St) : Result * St :=
  match LookupCompleted (stRS s) mapPath with
  | Some _ => (okResult, s)
  | None =>
      match collectReduceBranches (stRS s) (icWf ic) mapPath body with
      | Err (PFail e) => failStep mapPath OutcomePermanentFailure e s
      | Err (PInternal e) => (internal (EWrap "engine.runMapReduce: collect reduce branches at %q: %w" [mapPath] e), s)
      | Ok branches =>
          let bare := (SplitContainerRef (rdContainer r)).1 in
          let ld := icDispatcher ic in
          let key := handleKey ld bare in
          if IsRun (Some r) && match dpHandles ld !! key with None => true | Some _ => false end then
            match wCreate cx (withName key (ContainerSpecFor (icWf ic) (dpComposeFiles ld) bare)) (stW s) with
            | (Err e, w) => (internal (EWrap "engine.runMapReduce: create reduce container %q: %w" [rdContainer r] e), setW w s)
            | (Ok h, w) =>
                let '(res, s) := runReduce cx (WithItemHandle bare h ld) r mapPath branches cohort (setW w s) in
                (res, setW (wDestroy h (stW s)).2 s)
            end
          else runReduce cx ld r mapPath branches cohort s
      end
  end.

(** [runMap] with its reducer. *)
Definition runMapReduced (cx : Context_) (n : MapHead) (body : NodeList) (mapPath : string) (resume : bool) (s : St) (res : Result) (s' : St) : Prop :=
  runMap ic n body mapPath resume
    (λ cohort s, match mpReduce n with Some r => runMapReduce cx r body mapPath cohort s | None => (okResult, s) end) s res s'.
End reduce.
