(* ===== verification/ReduceLaws.v ===== *)
(** * What the fan-in guarantees

    The branches of a reducer are what a reference from outside the map collects, as long as no failed
    item has committed its producer; a vote is counted against the cohort, so a branch that is missing
    counts against it. *)

From stdpp Require Import sorting.
From S2P Require Import Prelude GoNum Sort GoJson GoStruct TmplLexer TmplParser TmplSlots TmplEval RetryPolicy EnginePath GoPath.
From S2P Require Import StateBlobs StateLog EngineEvents RunState EngineFold Journal Ir IrShape Commit Scope Artifacts Containers RetryLoop Steps Contracts Exports Runtimes Interp Call InterpLaws InterpFold MapRun Reduce.

(** ** Shapes *)

Lemma mapPosition_gateless segs : ∀ i found k, mapPosition segs i found = Some k → Forall (λ x, HasPrefix x "gate[" = false) segs.
Proof.
  induction segs as [|x segs IH]; intros i found k; [constructor|]. cbn [mapPosition].
  destruct (HasPrefix x "map[") eqn:Em.
  - destruct found; [done|]. intros H. constructor; [|by eapply IH].
    apply prefix_spec in Em as [t ->]. reflexivity.
  - destruct (HasPrefix x "gate[") eqn:Eg; [done|]. cbn [orb]. destruct (HasPrefix x "loop["); [done|]. intros H. constructor; [done|by eapply IH].
Qed.
Lemma gatePrefixSegs_none segs : Forall (λ x, HasPrefix x "gate[" = false) segs → gatePrefixSegs segs = None.
Proof. induction 1 as [|x segs Hx _ IH]; [done|]. cbn [gatePrefixSegs]. by rewrite IH, Hx. Qed.
Lemma shape_gateless p m suffix : SingleMapBodyShape p = Some (m, suffix) → gateScopePrefix suffix = None.
Proof.
  unfold SingleMapBodyShape. destruct (mapPosition (SplitDot p) 0 None) as [i|] eqn:E; [|done]. destruct (String.eqb _ _); [|done].
  intros [= _ <-]. apply mapPosition_gateless in E. unfold gateScopePrefix.
  assert (Hl : Forall (λ x, lacks "." x = true) (drop (S (S i)) (SplitDot p))) by apply Forall_drop, Split_lacks.
  apply (Forall_drop _ (S (S i))) in E. revert E Hl. generalize (drop (S (S i)) (SplitDot p)). intros l E Hl.
  rewrite gatePrefixSegs_none; [done|]. unfold SplitDot, JoinDot. destruct l as [|x l]; [by repeat constructor|]. by rewrite Split_Join.
Qed.

(** ** Branches *)

Lemma entry_set_new {A} k (v : A) l : k ∉ l.*1 → entry_set k v l = l ++ [(k, v)].
Proof.
  induction l as [|[k' v'] l IH]; intros Hk; [done|]. cbn in Hk |- *. apply not_elem_of_cons in Hk as [Hne Hk].
  apply String.eqb_neq in Hne as ->. by rewrite IH.
Qed.
Lemma mergeOutputs_acc o : ∀ acc, NoDup (acc.*1 ++ o.*1) → mergeOutputs acc (Some o) = acc ++ o.
Proof.
  unfold mergeOutputs. cbn [default]. induction o as [|[k v] o IH]; intros acc Hn; cbn; [by rewrite app_nil_r|].
  rewrite entry_set_new.
  - rewrite IH; [by rewrite <- app_assoc|]. rewrite fmap_app, <- app_assoc. exact Hn.
  - apply NoDup_app in Hn as (_ & Hd & _). intros Hin. apply (Hd k Hin). left.
Qed.
Lemma mergeOutputs_nil o : NoDup o.*1 → mergeOutputs [] (Some o) = o.
Proof. intros Hn. by rewrite mergeOutputs_acc. Qed.

Lemma itemBodyStepPath_plain rs mapPath n suffix : gateScopePrefix suffix = None →
  itemBodyStepPath rs mapPath n suffix = Some (ItemStepPath mapPath n suffix).
Proof. unfold itemBodyStepPath. by intros ->. Qed.

(** One producer without named files. *)
Lemma branchOf_single rs wf mapPath n suffix : gateScopePrefix suffix = None →
  branchOf rs wf mapPath n [MkProducer suffix []] None =
  Ok ((λ nr, MkBranch n (mergeOutputs [] (nrOutputs nr)) ∅) <$> LookupCompleted rs (ItemStepPath mapPath n suffix)).
Proof.
  intros Hg. cbn [branchOf rpSuffix]. rewrite itemBodyStepPath_plain by done. cbn [mbind option_bind].
  by destruct (LookupCompleted rs _).
Qed.

(** A smaller filter as long as a larger one is the same. *)
Lemma filter_full {A} (P Q : A → bool) l : (∀ x, x ∈ l → P x = true → Q x = true) →
  (length (List.filter P l) ≤ length (List.filter Q l))%nat ∧
  (length (List.filter P l) = length (List.filter Q l) → ∀ x, x ∈ l → Q x = true → P x = true).
Proof.
  induction l as [|x l IH]; intros Hpq; [split; [done|by intros _ x ?%not_elem_of_nil]|].
  destruct IH as [Hle Heq]; [intros y Hy; apply Hpq; by right|]. cbn [List.filter].
  destruct (P x) eqn:Ep; [rewrite (Hpq x ltac:(left) Ep)|destruct (Q x) eqn:Eq]; cbn [length].
  - split; [lia|]. intros He y [->|Hy]%elem_of_cons Hq; [done|]. apply Heq; [lia|done|done].
  - split; [lia|]. intros. lia.
  - split; [done|]. intros He y [->|Hy]%elem_of_cons Hq; [congruence|]. by apply Heq.
Qed.
Lemma passed_notPruned mr : passedItem mr = true → notPruned mr = true.
Proof. unfold notPruned, passedItem. by intros ->%String.eqb_eq. Qed.


(** An item whose producer has committed. *)
Definition committedItem (rs : RunState) (mapPath suffix : string) (mr : MapItemRecord) : bool :=
  bool_decide (is_Some (LookupCompleted rs (ItemStepPath mapPath (mrN mr) suffix))).

Lemma items_agree rs wf sc mapPath suffix id items : gateScopePrefix suffix = None → scRs sc = rs →
  (∀ mr nr, mr ∈ items → LookupCompleted rs (ItemStepPath mapPath (mrN mr) suffix) = Some nr → ∃ o, nrOutputs nr = Some o ∧ NoDup o.*1) →
  let P mr := passedItem mr && committedItem rs mapPath suffix mr in
  let Q mr := notPruned mr && committedItem rs mapPath suffix mr in
  ∃ bs vs, collectItems rs wf mapPath [MkProducer suffix []] items = Ok bs ∧
        itemOutputs sc notPruned mapPath suffix id [] items = Ok vs ∧
        length bs = length (List.filter P items) ∧ length vs = length (List.filter Q items) ∧
        ((∀ mr, mr ∈ items → Q mr = true → P mr = true) → vs = map (VMap ∘ rbOutputs) bs).
Proof.
  intros Hg Hrs. induction items as [|mr items IH]; intros Hi P Q; [by exists [], []|].
  destruct IH as (bs & vs & Hb & Ho & Lb & Lv & He); [intros mr' nr Hin; apply Hi; by right|]. fold P in Lb, He. fold Q in Lv, He.
  cbn [collectItems itemOutputs List.filter]. rewrite Hrs, branchOf_single, Hb, Ho by done. cbn [res_bind].
  specialize (Hi mr). assert (He' : (∀ mr', mr' ∈ mr :: items → Q mr' = true → P mr' = true) → vs = map (VMap ∘ rbOutputs) bs).
  { intros H. apply He. intros mr' Hin. apply H. by right. }
  unfold P at 1, Q at 1, committedItem. destruct (LookupCompleted rs _) as [nr|] eqn:El; cbn [fmap option_fmap option_map].
  - destruct (Hi nr ltac:(left) eq_refl) as (o & Hno & Hd). rewrite Hno, mergeOutputs_nil by done. rewrite bool_decide_true by done.
    rewrite !andb_true_r. destruct (passedItem mr) eqn:Ep; cbn [negb].
    + rewrite (passed_notPruned _ Ep). cbn. rewrite Hno. eexists _, _. do 2 (split; [reflexivity|]). split; [cbn; by rewrite Lb|]. split; [cbn; by rewrite Lv|].
      intros H. by rewrite (He' H).
    + destruct (notPruned mr) eqn:Ek; [|by exists bs, vs]. cbn. rewrite Hno. eexists _, _. do 2 (split; [reflexivity|]). split; [done|]. split; [cbn; by rewrite Lv|].
      intros H. specialize (H mr ltac:(left)). unfold P, Q, committedItem in H. rewrite El, Ep, Ek, bool_decide_true in H by done. by discriminate H.
  - rewrite bool_decide_false by (by intros [? ?]). rewrite !andb_false_r.
    destruct (passedItem mr); cbn [negb]; destruct (notPruned mr); by exists bs, vs.
Qed.

(** ** Votes *)

Lemma entry_get_set {A} k k' (v : A) l : entry_get k (entry_set k' v l) = if String.eqb k k' then Some v else entry_get k l.
Proof.
  induction l as [|[k2 v2] l IH]; cbn; [done|]. destruct (String.eqb_spec k' k2) as [<-|Hne]; cbn.
  - by destruct (String.eqb k k').
  - rewrite IH. destruct (String.eqb_spec k k2) as [->|]; [|done]. apply not_eq_sym, String.eqb_neq in Hne. by rewrite Hne.
Qed.

Definition reservedVerdict (field : string) : bool := mem field ["votes"; "agree"; "votes_detail"].
Lemma quorumOutput_get r branches cohort : reservedVerdict (rdField r) = false →
  entry_get (rdField r) (quorumOutput r branches cohort) =
    Some (VBool (quorumThreshold (rdQuorum r) cohort <=? agreeCount (rdField r) branches)%Z) ∧
  entry_get "votes" (quorumOutput r branches cohort) = Some (VInt cohort) ∧
  entry_get "agree" (quorumOutput r branches cohort) = Some (VInt (agreeCount (rdField r) branches)) ∧
  entry_get "votes_detail" (quorumOutput r branches cohort) = Some (VMaps (votesDetail branches)).
Proof.
  unfold reservedVerdict. cbn [mem]. rewrite !orb_false_iff. intros (H1 & H2 & H3 & _).
  unfold quorumOutput. cbn [foldl fst snd]. rewrite !entry_get_set, H1, H2, H3, String.eqb_refl. by repeat split.
Qed.

(** The vote of an item, read off the committed outputs of the steps of its body: the last step that
    has the field counts, and only [true] is a yes. *)
Definition bodyOutputs (rs : RunState) (mapPath : string) (ps : list reduceBodyProducer) (n : Z) : list (string * value) :=
  flat_map (λ p, match itemBodyStepPath rs mapPath n (rpSuffix p) ≫= LookupCompleted rs with
                 | Some nr => default [] (nrOutputs nr)
                 | None => []
                 end) ps.
Definition lastValue (field : string) (o : list (string * value)) : option value :=
  snd <$> last (List.filter (λ kv, String.eqb field kv.1) o).
Definition votedYes (rs : RunState) (mapPath : string) (body : NodeList) (field : string) (mr : MapItemRecord) : bool :=
  match lastValue field (bodyOutputs rs mapPath (bodyProducers body) (mrN mr)) with Some (VBool b) => b | _ => false end.

Lemma lastValue_app field o o' :
  lastValue field (o ++ o') = match lastValue field o' with Some v => Some v | None => lastValue field o end.
Proof.
  unfold lastValue. rewrite List.filter_app, last_app. by destruct (last (List.filter _ o')).
Qed.
Lemma foldl_set_lastValue field (o : list (string * value)) : ∀ acc,
  entry_get field (foldl (λ acc kv, entry_set kv.1 kv.2 acc) acc o) =
  match lastValue field o with Some v => Some v | None => entry_get field acc end.
Proof.
  induction o as [|[k v] o IH]; intros acc; [done|]. cbn [foldl fst snd].
  change ((k, v) :: o) with ([(k, v)] ++ o). rewrite IH, lastValue_app, entry_get_set.
  destruct (lastValue field o); [done|]. unfold lastValue. cbn. by destruct (String.eqb field k).
Qed.
Lemma mergeOutputs_lastValue field acc (o : gomap) :
  entry_get field (mergeOutputs acc o) = match lastValue field (default [] o) with Some v => Some v | None => entry_get field acc end.
Proof. apply foldl_set_lastValue. Qed.
Lemma branchOf_vote rs wf mapPath n field ps : ∀ b r, branchOf rs wf mapPath n ps b = Ok r →
  (r ≫= λ r, entry_get field (rbOutputs r)) =
  match lastValue field (bodyOutputs rs mapPath ps n) with Some v => Some v | None => b ≫= λ b, entry_get field (rbOutputs b) end.
Proof.
  induction ps as [|p ps IH]; intros b r; cbn [branchOf bodyOutputs flat_map]; [by intros [= <-]|].
  change (flat_map _ ps) with (bodyOutputs rs mapPath ps n). rewrite lastValue_app.
  destruct (itemBodyStepPath rs mapPath n (rpSuffix p)) as [path|]; cbn [mbind option_bind];
    [|intros ->%IH; by destruct (lastValue field (bodyOutputs _ _ _ _))].
  destruct (LookupCompleted rs path) as [nr|]; cbn [fmap option_fmap option_map];
    [|intros ->%IH; by destruct (lastValue field (bodyOutputs _ _ _ _))].
  intros (files & _ & Hb)%res_bind_ok. apply IH in Hb as ->. cbn [mbind option_bind rbOutputs].
  destruct (lastValue field (bodyOutputs _ _ _ _)) as [v|]; [done|].
  rewrite mergeOutputs_lastValue. destruct (lastValue field _); [done|]. by destruct b.
Qed.

Lemma collectItems_votes rs wf mapPath body field items : ∀ bs, collectItems rs wf mapPath (bodyProducers body) items = Ok bs →
  agreeCount field bs = Z.of_nat (length (List.filter (λ mr, passedItem mr && votedYes rs mapPath body field mr) items)).
Proof.
  induction items as [|mr items IH]; intros bs; cbn [collectItems List.filter]; [by intros [= <-]|].
  destruct (passedItem mr); cbn [negb andb]; [|apply IH].
  intros (b & Hb & (bs' & Hbs & [= <-])%res_bind_ok)%res_bind_ok. apply IH in Hbs.
  apply (branchOf_vote _ _ _ _ field) in Hb. unfold votedYes at 1.
  destruct (lastValue field (bodyOutputs rs mapPath (bodyProducers body) (mrN mr))) as [v|]; cbn [mbind option_bind] in Hb.
  - destruct b as [b|]; [|done]. cbn [mbind option_bind] in Hb. unfold agreeCount in *. cbn [List.filter]. unfold agrees at 1. rewrite Hb.
    by destruct v as [|[]| | | | | | | |]; cbn [length]; lia.
  - destruct b as [b|]; [|done]. cbn [mbind option_bind] in Hb. unfold agreeCount in *. cbn [List.filter]. unfold agrees at 1. by rewrite Hb.
Qed.

Lemma filter_Permutation {A} (P : A → bool) l l' : l ≡ₚ l' → List.filter P l ≡ₚ List.filter P l'.
Proof.
  induction 1 as [|x l l' _ IH|x y l|l1 l2 l3 _ IH1 _ IH2]; cbn; [done|by case_match; [constructor|]|repeat case_match; done || by constructor|by rewrite IH1].
Qed.

(** ** Properties *)

(** C17: when a reducer is given what a reference collects.  Take a map that has no result yet, whose
    body has one producer, without named files, at an address the collection supports, and a reference
    to it from outside the map; let every committed producer have outputs.  Then both the branches of
    the reducer and the items of the reference exist, and they are the same, in the same order, exactly
    when every item whose producer has committed has passed or was pruned: an item that failed after
    its producer had committed is collected by the reference only. *)
Theorem collect_agrees_aggregate rs wf sc mapPath body staticPath suffix id :
  bodyProducers body = [MkProducer suffix []] → SingleMapBodyShape staticPath = Some (mapPath, suffix) →
  scRs sc = rs → instanceFromCtx (scCtxPath sc) mapPath itemSep = Ok None → LookupCompleted rs mapPath = None →
  (∀ mr nr, mr ∈ LookupMapItems rs mapPath → LookupCompleted rs (ItemStepPath mapPath (mrN mr) suffix) = Some nr →
     ∃ o, nrOutputs nr = Some o ∧ NoDup o.*1) →
  ∃ branches items, collectReduceBranches rs wf mapPath body = Ok branches ∧
    aggregateMapOutputs sc staticPath id [] = Ok (Some (VSlice items)) ∧
    (items = map (VMap ∘ rbOutputs) branches ↔
     ∀ mr, mr ∈ LookupMapItems rs mapPath → is_Some (LookupCompleted rs (ItemStepPath mapPath (mrN mr) suffix)) →
       mrStatus mr = ItemPassed ∨ mrStatus mr = ItemPruned).
Proof.
  intros Hp Hs Hrs Hi Hn Hall. unfold collectReduceBranches, aggregateMapOutputs. rewrite Hp, Hs, Hi, Hrs, Hn.
  assert (Hin : ∀ mr, mr ∈ itemsByN (LookupMapItems rs mapPath) ↔ mr ∈ LookupMapItems rs mapPath)
    by (intros mr; unfold itemsByN; by rewrite merge_sort_Permutation).
  destruct (items_agree rs wf sc mapPath suffix id (itemsByN (LookupMapItems rs mapPath))) as (bs & vs & Hb & Ho & Lb & Lv & He);
    [by eapply shape_gateless|done|intros mr nr ?%Hin; by apply Hall|].
  exists bs, vs. split; [done|]. split; [by rewrite Ho|].
  assert (Hst : ∀ mr, notPruned mr = true → passedItem mr = true ↔ mrStatus mr = ItemPassed ∨ mrStatus mr = ItemPruned).
  { unfold notPruned, passedItem. intros mr Hk%negb_true_iff%String.eqb_neq. rewrite String.eqb_eq. naive_solver. }
  split.
  - intros E mr Hm Hc. destruct (notPruned mr) eqn:Ek; [|right; by apply negb_false_iff, String.eqb_eq in Ek].
    apply Hst; [done|]. edestruct (filter_full (λ mr, passedItem mr && committedItem rs mapPath suffix mr)
      (λ mr, notPruned mr && committedItem rs mapPath suffix mr)) as [_ Hf].
    + intros mr' _ [H1 H2]%andb_prop. by rewrite (passed_notPruned _ H1), H2.
    + rewrite <- Lb, <- Lv, E in Hf at 1. rewrite length_map in Hf.
      refine (proj1 (andb_prop _ _ (Hf eq_refl mr (proj2 (Hin mr) Hm) _))). rewrite Ek. by apply bool_decide_true.
  - intros H. apply He. intros mr Hm%Hin [H1 H2]%andb_prop. rewrite H2, andb_true_r. apply Hst; [done|].
    apply H; [done|]. by apply bool_decide_eq_true in H2.
Qed.

(** C16: a vote.  Let a quorum reducer end ok on a map that has no result yet.  Then the map has one:
    next to the size of the cohort it holds the number of yes votes, which is exactly the number of
    the passed items whose body's last committed value of the field is [true], and its field says
    whether this number reaches the threshold of the cohort.  If the cohort is the items that were not
    pruned and the threshold asks for all of them, a true verdict means that every such item has passed
    and voted yes.  (The field is not the name of another entry of the result.) *)
Theorem quorum_verdict `{HL : TimeCodec} {L B W : Type} {HLog : Log L} {HB : Blobs B} {HW : World W} {HS : Signals W} {HE : Externals}
    ic backendRoot cx r body mapPath cohort (s s' : St L B W) :
  IsQuorum (Some r) = true → reservedVerdict (rdField r) = false → LookupCompleted (stRS s) mapPath = None →
  runMapReduce ic backendRoot cx r body mapPath cohort s = (okResult, s') →
  let items := LookupMapItems (stRS s) mapPath in
  let yes mr := votedYes (stRS s) mapPath body (rdField r) mr in
  let agree := Z.of_nat (length (List.filter (λ mr, passedItem mr && yes mr) items)) in
  ∃ nr out, LookupCompleted (stRS s') mapPath = Some nr ∧ nrOutputs nr = Some out ∧
    entry_get (rdField r) out = Some (VBool (quorumThreshold (rdQuorum r) cohort <=? agree)%Z) ∧
    entry_get "votes" out = Some (VInt cohort) ∧ entry_get "agree" out = Some (VInt agree) ∧
    (cohort = Z.of_nat (length (List.filter notPruned items)) →
     quorumThreshold (rdQuorum r) cohort = cohort → entry_get (rdField r) out = Some (VBool true) →
     ∀ mr, mr ∈ items → mrStatus mr ≠ ItemPruned → mrStatus mr = ItemPassed ∧ yes mr = true).
Proof.
  intros Hq Hf Hn Hr items yes agree. unfold runMapReduce in Hr. rewrite Hn in Hr.
  destruct (collectReduceBranches _ _ _ _) as [branches|[e|e]] eqn:Hc; [|by apply failStep_not_ok in Hr|discriminate Hr].
  assert (Hs : ∃ s0 s1 : St L B W, stRS s0 = stRS s ∧ stRS s1 = stRS s' ∧ runQuorumReduce r mapPath branches cohort s0 = (okResult, s1)).
  { revert Hr. unfold runReduce. destruct (_ && _).
    - destruct (wCreate _ _ _) as [[h|e] w]; [|done]. cbn [stRS setW]. rewrite Hn, Hq.
      destruct (runQuorumReduce _ _ _ _ _) as [r0 s1] eqn:E. intros [= -> <-]. by exists (setW w s), s1.
    - rewrite Hn, Hq. intros Hr. by exists s, s'. }
  destruct Hs as (s0 & s1 & Ers & Ers' & Hr'). unfold runQuorumReduce in Hr'.
  destruct (liftH _ s0) as [[nr|e] s2] eqn:Hl; [|done]. injection Hr' as <-. pose proof (liftH_state _ _ _ _ Hl) as [E2 _].
  unfold liftH in Hl. destruct (Commit _ _ _ _ _) as [x [l b]] eqn:HC. injection Hl as -> <-. apply Commit_outputs in HC. cbn [okOutputs drOutputs] in HC.
  destruct (quorumOutput_get r branches cohort Hf) as (G1 & G2 & G3 & _).
  apply (collectItems_votes _ _ _ _ (rdField r)) in Hc.
  assert (Ea : agreeCount (rdField r) branches = agree).
  { rewrite Hc. unfold agree. f_equal. apply Permutation_length, filter_Permutation, merge_sort_Permutation. }
  rewrite Ea in *. exists nr, (quorumOutput r branches cohort).
  split; [rewrite <- Ers'; apply lookup_insert_eq|]. do 4 (split; [done|]).
  intros Hco Hth Hv mr Hin Hnp. rewrite G1, Hth in Hv. injection Hv as Hv%Z.leb_le.
  destruct (filter_full (λ mr, passedItem mr && yes mr) notPruned items) as [Hle Hall].
  { intros mr' _ [Hp _]%andb_prop. by apply passed_notPruned. }
  destruct (andb_prop _ _ (Hall ltac:(unfold agree in *; lia) mr Hin ltac:(unfold notPruned; by apply negb_true_iff, String.eqb_neq))) as [Hp Hy].
  split; [by apply String.eqb_eq in Hp|done].
Qed.

Section example.
#[local] Existing Instance two_times.
#[local] Existing Instance InMemoryLog_laws.
#[local] Existing Instance exSteady_log.

Definition exQuorum (k : Z) : Reduce := MkReduce (Some (Itoa k)) "ok" "" "" None [].
Definition exVoters (r : Reduce) (ofs : OutputFiles) : NodeList :=
  Some [NMap (MkMapHead "m" "" (Some [VInt 1; VInt 2; VInt 3]) "it" "" "" None None (Some r) None)
          (Some [NCode (MkCodeStep "v" "" "true" None None ofs ∅ None None)])].
Definition exVoterBody (ofs : OutputFiles) : NodeList := Some [NCode (MkCodeStep "v" "" "true" None None ofs ∅ None None)].
Definition exVoterWf (r : Reduce) (ofs : OutputFiles) : Workflow := MkWorkflow "w" 1 None ∅ [] ∅ ∅ ∅ ∅ None None ∅ ∅ ∅ (exVoters r ofs) "".
Definition exVoteIctx (r : Reduce) : Ictx := MkIctx (exVoterWf r []) "" (MkFrame "" None None) ∅ noHandles.
Definition exVote (b : bool) : NodeResult := MkNodeResult OutcomeOK None (Some [("ok", VBool b)]) "" "" "" ∅ zeroTurn "" "".
(** Items with their statuses, each with a committed vote. *)
Definition exVoteRS (items : list (string * bool)) : RunState :=
  (foldl (λ '(n, rs) '(st, b), ((n + 1)%Z, RecordMapItem "map[0]" (MkMapItem n (VInt n) st "" "" "" "")
                                        (RecordCompleted (ItemStepPath "map[0]" n "v") (exVote b) rs))) (0%Z, stRS exState) items).2.
Definition exBallot : list (string * bool) := [(ItemPassed, true); (ItemPassed, true)].
Definition exVoteRun (items : list (string * bool)) : Result * St InMemoryLog InMemoryBlobs () :=
  runMapReduce (exVoteIctx (exQuorum 2)) "" Cancellable (exQuorum 2) (exVoterBody []) "map[0]" 2 (setRS (exVoteRS items) exState).

Lemma quorum_verdict_witness :
  ∃ nr out, LookupCompleted (stRS (exVoteRun exBallot).2) "map[0]" = Some nr ∧ nrOutputs nr = Some out ∧
    entry_get "ok" out = Some (VBool true) ∧ entry_get "agree" out = Some (VInt 2) ∧
    ∀ mr, mr ∈ LookupMapItems (exVoteRS exBallot) "map[0]" → mrStatus mr ≠ ItemPruned → mrStatus mr = ItemPassed.
Proof.
  destruct (quorum_verdict (exVoteIctx (exQuorum 2)) "" Cancellable (exQuorum 2) (exVoterBody []) "map[0]" 2
              (setRS (exVoteRS exBallot) exState) (exVoteRun exBallot).2) as (nr & out & H1 & H2 & H3 & H4 & H5 & H7).
  - reflexivity.
  - reflexivity.
  - vm_compute. reflexivity.
  - unfold exVoteRun. vm_compute. reflexivity.
  - assert (Ho : (λ nr, default [] (nrOutputs nr)) <$> LookupCompleted (stRS (exVoteRun exBallot).2) "map[0]" =
        Some [("ok", VBool true); ("votes", VInt 2); ("agree", VInt 2);
              ("votes_detail", VMaps [VMap [("index", VInt 0); ("output", VMap [("ok", VBool true)])];
                                      VMap [("index", VInt 1); ("output", VMap [("ok", VBool true)])]])]) by (vm_compute; reflexivity).
    rewrite H1 in Ho. cbn in Ho. rewrite H2 in Ho. cbn in Ho. injection Ho as ->.
    exists nr. eexists. split; [exact H1|]. split; [exact H2|]. split; [reflexivity|]. split; [reflexivity|]. intros mr Hin Hp.
    destruct (H7 ltac:(vm_compute; reflexivity) ltac:(vm_compute; reflexivity) eq_refl mr Hin Hp) as [Hst _]. exact Hst.
Defined.

(** The reference from outside: [step.v] at the top of the graph. *)
Definition exOutside (rs : RunState) : Scope := NewScope rs (exVoterWf (exQuorum 2) []) "after".
Definition exAggregate (rs : RunState) : option value :=
  match aggregateMapOutputs (exOutside rs) "map[0].body.v" "v" [] with Ok v => v | Err _ => None end.
Definition exBranches (rs : RunState) : option (list value) :=
  match collectReduceBranches rs (exVoterWf (exQuorum 2) []) "map[0]" (exVoterBody []) with Ok bs => Some (map (VMap ∘ rbOutputs) bs) | Err _ => None end.

Lemma exItems : LookupMapItems (exVoteRS exBallot) "map[0]" = [MkMapItem 0 (VInt 0) ItemPassed "" "" "" ""; MkMapItem 1 (VInt 1) ItemPassed "" "" "" ""].
Proof. vm_compute. reflexivity. Qed.

Lemma collect_agrees_aggregate_witness :
  ∃ bs, collectReduceBranches (exVoteRS exBallot) (exVoterWf (exQuorum 2) []) "map[0]" (exVoterBody []) = Ok bs ∧
        exAggregate (exVoteRS exBallot) = Some (VSlice (map (VMap ∘ rbOutputs) bs)).
Proof.
  destruct (collect_agrees_aggregate (exVoteRS exBallot) (exVoterWf (exQuorum 2) []) (exOutside (exVoteRS exBallot)) "map[0]" (exVoterBody [])
              "map[0].body.v" "v" "v") as (bs & vs & Hb & Ha & He).
  - vm_compute. reflexivity.
  - vm_compute. reflexivity.
  - reflexivity.
  - vm_compute. reflexivity.
  - vm_compute. reflexivity.
  - rewrite exItems. intros mr nr Hin Hl. exists [("ok", VBool true)]. split; [|repeat constructor; by apply not_elem_of_nil].
    rewrite !elem_of_cons in Hin. destruct Hin as [->|[->|Hin]]; [| |by apply not_elem_of_nil in Hin]; cbn [mrN] in Hl; vm_compute in Hl; by injection Hl as <-.
  - exists bs. split; [exact Hb|]. unfold exAggregate. rewrite Ha. do 2 f_equal. apply He. rewrite exItems. intros mr Hin _. left.
    rewrite !elem_of_cons in Hin. destruct Hin as [->|[->|Hin]]; [reflexivity|reflexivity|by apply not_elem_of_nil in Hin].
Defined.

(** An item that failed after its producer had committed: the reference collects it, the reducer does
    not. *)
Example failed_collected :
  exAggregate (exVoteRS [(ItemPassed, true); (ItemFailed, false)]) = Some (VSlice [VMap [("ok", VBool true)]; VMap [("ok", VBool false)]]) ∧
  exBranches (exVoteRS [(ItemPassed, true); (ItemFailed, false)]) = Some [VMap [("ok", VBool true)]].
Proof. split; vm_compute; reflexivity. Qed.

Definition exDetail : Ref := MkRef [identSegment "step" 0; identSegment "m" 5; identSegment "votes_detail" 7; indexSegment 0 20; identSegment "index" 22].
Definition exFolded : RunState :=
  let s := (exVoteRun exBallot).2 in match Fold (blobsGet (stBlobs s)) (logEvents (stLog s)) with Ok rs => rs | Err _ => zeroRunState end.
(** A ballot of the verdict cannot be referenced in the run that took the vote, and can after a resume. *)
Example ballot_unreadable :
  is_ok (Resolve (exOutside (stRS (exVoteRun exBallot).2)) exDetail) = false ∧ is_ok (Resolve (exOutside exFolded) exDetail) = true.
Proof. split; vm_compute; reflexivity. Qed.

(** In a called workflow the path of a named file is evaluated without the frame of the call: the step
    itself ran with it. *)
Definition exNamed : OutputFiles := [MkOutputFile "f" "/out/{{ it.name }}" "" None ""].
Definition exCallIctx : Ictx := MkIctx (exVoterWf (exQuorum 1) exNamed) "" (MkFrame "sub" (Some []) None) ∅ noHandles.
Definition exCallRS : RunState :=
  RecordMapItem "sub.map[0]" (MkMapItem 0 (VMap [("name", VString "x")]) ItemPassed "" "" "" "")
    (RecordCompleted "sub.map[0].item-0.v" (MkNodeResult OutcomeOK None None "" "" "" {["/out/x" := "ref"]} zeroTurn "" "") zeroRunState).
Example call_frame_lost :
  Substitute (Resolve (scopeAt exCallIctx exCallRS "sub.map[0].item-0.v")) "/out/{{ it.name }}" = Ok "/out/x" ∧
  match collectReduceBranches exCallRS (icWf exCallIctx) "sub.map[0]" (exVoterBody exNamed) with Err (PFail _) => true | _ => false end = true.
Proof. split; vm_compute; reflexivity. Qed.
End example.
