(* ===== verification/SignalLaws.v ===== *)
(** * Signal steps

    engine/signal_step.go: what the log holds after a delivered signal, whatever call fails, and what a
    resumed run makes of it.  A signal without a schema whose payload is not an object is committed in
    a form that no fold can read. *)

From S2P Require Import Prelude GoNum GoJson GoStruct Signal TmplLexer TmplParser TmplEval RetryPolicy EnginePath GoPath.
From S2P Require Import StateBlobs StateLog EngineEvents RunState EngineFold Journal Ir Commit Scope ScopeLaws Artifacts Containers RetryLoop Steps Contracts Exports Runtimes Interp Call InterpLaws InterpFold.

Section signal.
Context `{HL : TimeCodec} {L B W : Type} {HLog : Log L} {HLaws : LogLaws} {HR : LogRobust}.
Context {HB : Blobs B} {HBL : BlobsLaws} {HW : World W} {HS : Signals W} {HE : Externals}.
#[local] Notation St := (St L B W).

(** The record of the completion of a signal step. *)
Definition signalRecord (ref : string) : NodeCompletedData :=
  withUsage (MkNodeCompletedData OutcomeOK None ref "" ∅ None "" "" "" "" "" "").
Definition completionOf (path ref : string) (e : Event) : Prop :=
  same_event (newEvent EventNodeCompleted path (NodeCompletedData_json (signalRecord ref))) e.
Definition receiptOf (name path : string) (seq : Z) (ref : string) (e : Event) : Prop :=
  same_event (newEvent EventSignalReceived path (SignalReceivedData_json (MkSignalReceivedData name seq ref))) e.

(** Step 7b appends the completion, or nothing; an ok result has it. *)
Lemma completeSignal_log path ref o (s : St) r s' :
  logOK (stLog s) → completeSignal path ref o s = (r, s') →
  stW s' = stW s ∧ stBlobs s' = stBlobs s ∧
  ((isOk r = false ∧ logEvents (stLog s') = logEvents (stLog s)) ∨
   ∃ e, completionOf path ref e ∧ logEvents (stLog s') = logEvents (stLog s) ++ [e]).
Proof.
  intros Hok. unfold completeSignal, liftH. destruct (appendNodeCompleted _ _ _) as [x [l b]] eqn:Ha.
  apply append_spec in Ha as [Hb Hc]; [|done]. cbn [fst snd] in *. subst b.
  destruct x as [u|e]; intros [= <- <-]; cbn [setRS stW stBlobs stLog stRS]; (split; [done|]); (split; [done|]).
  - destruct Hc as [[Hf _]|(ev & He & Hl & _)]; [done|]. right. by exists ev.
  - destruct Hc as [[_ Hl]|(ev & He & Hl & _)]; [by left|]. right. by exists ev.
Qed.

(** A payload is stored, or there is none. *)
Definition payload_bytes (typed : gomap) (payload : string) : option string :=
  match typed with Some m => Marshal (VMap m) | None => nonempty payload end.

Lemma putPayload_spec path typed payload (x : L * B) r x' :
  (∀ c, payload_bytes typed payload = Some c → no_collision x.2 c) →
  putPayload path typed payload x = (r, x') →
  x'.1 = x.1 ∧ grows x.2 x'.2 ∧ ∀ ref, r = Ok ref → refers x'.2 ref (payload_bytes typed payload).
Proof.
  intros Hc Hp. unfold putPayload, payload_bytes in *. destruct typed as [m|].
  - destruct (Marshal (VMap m)) as [bytes|]; [|injection Hp as <- <-; by split; [|split; [intros ??|]]].
    apply (hput_spec [bytes]) in Hp as [(H1 & H2 & _) H3]; [done|by left|].
    split; [intros c Hc'; apply list_elem_of_singleton in Hc' as ->; by apply Hc|].
    intros c c' Hc1 Hc2. apply list_elem_of_singleton in Hc1 as ->. by apply list_elem_of_singleton in Hc2 as ->.
  - apply (putNonEmpty_spec (option_list (nonempty payload))) in Hp as [(H1 & H2 & _) H3]; [done| |].
    + intros c Hn. by apply option_list_elem.
    + destruct (nonempty payload) as [c0|]; cbn [option_list]; (split; [|intros c c']).
      * intros c Hc'. apply list_elem_of_singleton in Hc' as ->. by apply Hc.
      * intros Hc1 Hc2. apply list_elem_of_singleton in Hc1 as ->. by apply list_elem_of_singleton in Hc2 as ->.
      * intros c Hc'. by apply not_elem_of_nil in Hc'.
      * intros Hc1. by apply not_elem_of_nil in Hc1.
Qed.

(** A receipt is folded. *)
Lemma fold_receipt get name path seq ref e rs : path ≠ "" → in_i64 seq = true → receiptOf name path seq ref e →
  ∃ rs', foldArm get e rs = Ok rs' ∧ LookupSignalReceivedAt rs' path = Some (MkReceived seq ref) ∧ rsCompleted rs' = rsCompleted rs.
Proof.
  intros Hne Hs (Hp & Ht & _ & Hd). cbn [newEvent Path EvType Data] in *. unfold foldArm. rewrite Ht. cbn [String.eqb].
  cbv beta zeta. unfold foldSignalReceived, parseData. rewrite Hd. cbn [mbind option_bind].
  rewrite SignalReceivedData_read by done. cbn [res_bind srName srSeq srPayloadRef]. rewrite Hp.
  apply String.eqb_neq in Hne as ->. eexists. split; [reflexivity|]. split; [|done].
  unfold LookupSignalReceivedAt. cbn. by rewrite lookup_insert_eq.
Qed.

(** What the log may hold after a delivered signal [d]: nothing of it, its receipt, or its receipt and
    the completion.  The receipt is kept with the payload, and folds to a half-commit. *)
Inductive delivered (ss : SignalStep) (path : string) (d : Delivery) (rs : RunState) (s : St) (r : Result) (s' : St) : Prop :=
  | dl_lost es : isOk r = false → Forall (λ e, folded e = false) es →
      logEvents (stLog s') = logEvents (stLog s) ++ es → delivered ss path d rs s r s'
  | dl_received typed ref e es rs' : receiptOf (ssAwait ss) path (dlSeq d) ref e →
      refers (stBlobs s') ref (payload_bytes typed (dlPayload d)) →
      (ssOutputSchema ss = None → typed = None) →
      logEvents (stLog s') = logEvents (stLog s) ++ e :: es →
      (es = [] ∧ isOk r = false ∨ ∃ e', completionOf path ref e' ∧ es = [e']) →
      Fold (blobsGet (stBlobs s')) (logEvents (stLog s) ++ [e]) = Ok rs' →
      LookupSignalReceivedAt rs' path = Some (MkReceived (dlSeq d) ref) → rsCompleted rs' = rsCompleted rs →
      delivered ss path d rs s r s'.

Lemma commitSignal_delivered ss path d (s : St) rs r s' :
  (∀ typed c, payload_bytes typed (dlPayload d) = Some c → no_collision (stBlobs s) c) →
  logOK (stLog s) → logEvents (stLog s) ≠ [] → path ≠ "" → in_i64 (dlSeq d) = true →
  Fold (blobsGet (stBlobs s)) (logEvents (stLog s)) = Ok rs →
  commitSignal ss path d s = (r, s') → stW s' = stW s ∧ delivered ss path d rs s r s'.
Proof.
  intros Hc Hok Hne Hp Hseq HF. unfold commitSignal.
  destruct (match ssOutputSchema ss with None => _ | Some _ => _ end) as [typed|m] eqn:Ht.
  2: { intros Hf. pose proof (failStep_not_ok _ _ _ _ _ _ Hf) as Hr. pose proof (failStep_state _ _ _ _ _ _ Hf) as (_ & _ & Hw).
       apply failStep_quiet in Hf as (es & (_ & Hl & _) & Hi); [|done]. split; [done|]. by apply (dl_lost _ _ _ _ _ _ _ es). }
  assert (Htyped : ssOutputSchema ss = None → typed = None) by (intros E; rewrite E in Ht; by injection Ht).
  unfold liftH. destruct (putPayload path typed (dlPayload d) (stLog s, stBlobs s)) as [x [l b]] eqn:Hput.
  apply putPayload_spec in Hput as (Hl & Hg & Href); [|by apply Hc]. cbn [fst snd] in *. subst l.
  destruct x as [ref|e].
  2: { intros [= <- <-]. split; [done|]. apply (dl_lost _ _ _ _ _ _ _ []); [done|done|by rewrite app_nil_r]. }
  specialize (Href _ eq_refl). apply (Fold_grows _ _ Hg) in HF.
  set (s1 := MkSt (stLog s) b (stRS s) (stW s)).
  destruct (appendSynced _ _ _ s1) as [e s2] eqn:Ha. pose proof (appendSynced_state _ _ _ _ _ _ Ha) as (_ & Hb2 & Hw2).
  apply appendSynced_cases in Ha as [[[y ->] (_ & Hl2 & _)]|(ev & He & (Hok2 & Hl2 & _) & _)]; [| |apply marshal_SignalReceived|done].
  { intros [= <- <-]. split; [done|]. by apply (dl_lost _ _ _ _ _ _ _ []). }
  cbn [stLog stBlobs stW s1] in *. destruct (fold_receipt (blobsGet b) _ _ _ _ _ rs Hp Hseq He) as (rs' & Harm & Hre & Hcomp).
  assert (HF' : Fold (blobsGet b) (logEvents (stLog s) ++ [ev]) = Ok rs').
  { rewrite Fold_app, HF by done. cbn [res_bind foldEvents]. destruct He as (_ & Hty & _). cbn in Hty. rewrite Hty. cbn [String.eqb].
    cbv beta iota. by rewrite Harm. }
  destruct e as [e|].
  { intros [= <- <-]. split; [done|]. apply (dl_received _ _ _ _ _ _ _ typed ref ev [] rs'); try done; [by rewrite Hb2|by left|by rewrite Hb2]. }
  intros Hs. apply completeSignal_log in Hs as (Hw3 & Hb3 & Hcase); [|done]. cbn [setRS stW stBlobs stLog] in *.
  rewrite Hb2 in Hb3. split; [by rewrite Hw3|]. destruct Hcase as [[Hf Hl3]|(e' & He' & Hl3)].
  - apply (dl_received _ _ _ _ _ _ _ typed ref ev [] rs'); rewrite ?Hb3; try done; [by rewrite Hl3|by left].
  - apply (dl_received _ _ _ _ _ _ _ typed ref ev [e'] rs'); rewrite ?Hb3; try done; [|right; by exists e'].
    by rewrite Hl3, Hl2, <- app_assoc.
Qed.
End signal.

(** ** Properties *)

(** C18: a delivered signal is committed in two steps, each of them whole.  Whatever call fails after the
    delivery, the log holds nothing of the signal and the step is not ok; or it holds its receipt,
    which folds to a half-commit of the step — the sequence number and a readable payload — followed by
    nothing, when the step is not ok, or by its completion.  Nothing outside is called after the delivery. *)
Theorem signal_half_commit `{HL : TimeCodec} {L B W : Type} {HLog : Log L} {HLaws : LogLaws} {HR : LogRobust}
    {HB : Blobs B} {HBL : BlobsLaws} {HW : World W} {HS : Signals W} {HE : Externals} ss path d (s : St L B W) rs r s' :
  (∀ typed c, payload_bytes typed (dlPayload d) = Some c → no_collision (stBlobs s) c) →
  logOK (stLog s) → logEvents (stLog s) ≠ [] → path ≠ "" → in_i64 (dlSeq d) = true →
  Fold (blobsGet (stBlobs s)) (logEvents (stLog s)) = Ok rs →
  commitSignal ss path d s = (r, s') → stW s' = stW s ∧ delivered ss path d rs s r s'.
Proof. apply commitSignal_delivered. Qed.

(** C19: a received signal is not received twice.  A signal step whose receipt an earlier run has logged
    asks the broker for nothing: the resumed step appends the completion with the logged payload, or
    nothing, and calls nothing outside. *)
Theorem signal_resume_silent `{HL : TimeCodec} {L B W : Type} {HLog : Log L} {HLaws : LogLaws}
    {HB : Blobs B} {HBL : BlobsLaws} {HW : World W} {HS : Signals W} {HE : Externals} ic cx ss path entry (s : St L B W) r s' :
  logOK (stLog s) → LookupSignalReceivedAt (stRS s) path = Some entry →
  runSignalStep ic cx ss path s = (r, s') →
  stW s' = stW s ∧ stBlobs s' = stBlobs s ∧
  (logEvents (stLog s') = logEvents (stLog s) ∨
   ∃ e, completionOf path (srePayloadRef entry) e ∧ logEvents (stLog s') = logEvents (stLog s) ++ [e]).
Proof.
  intros Hok He. unfold runSignalStep. destruct (LookupCompleted _ _); [intros [= _ <-]; auto|].
  destruct (negb wBroker); [intros [= _ <-]; auto|]. rewrite He. unfold resumeSignal.
  assert (Hdone : ∀ o, completeSignal path (srePayloadRef entry) o s = (r, s') → stW s' = stW s ∧ stBlobs s' = stBlobs s ∧
    (logEvents (stLog s') = logEvents (stLog s) ∨
     ∃ e, completionOf path (srePayloadRef entry) e ∧ logEvents (stLog s') = logEvents (stLog s) ++ [e])).
  { intros o Hs. apply completeSignal_log in Hs as (H1 & H2 & [[_ H3]|H3]); auto. }
  destruct (if String.eqb _ "" then None else _) as [schema|]; [|by apply Hdone].
  destruct (blobsGet _ _) as [raw|]; [|intros [= _ <-]; auto].
  destruct (ValidateAgainstSchema raw schema); [by apply Hdone|intros [= _ <-]; auto].
Qed.

(** a signal can make its run unreadable.  A signal step without an output_schema commits the bytes
    of any payload as its outputs; when they are no JSON object (and no JSON null), the step ends ok and
    from then on the log does not fold: the run can be neither resumed nor inspected. *)
Theorem signal_payload_unfoldable `{HL : TimeCodec} {L B W : Type} {HLog : Log L} {HLaws : LogLaws} {HR : LogRobust}
    {HB : Blobs B} {HBL : BlobsLaws} {HW : World W} {HS : Signals W} {HE : Externals} ss path d (s : St L B W) rs s' :
  ssOutputSchema ss = None → dlPayload d ≠ "" → unmarshalMap (dlPayload d) = None →
  (∀ typed c, payload_bytes typed (dlPayload d) = Some c → no_collision (stBlobs s) c) →
  logOK (stLog s) → logEvents (stLog s) ≠ [] → path ≠ "" → in_i64 (dlSeq d) = true →
  Fold (blobsGet (stBlobs s)) (logEvents (stLog s)) = Ok rs →
  commitSignal ss path d s = (okResult, s') →
  is_ok (Fold (blobsGet (stBlobs s')) (logEvents (stLog s'))) = false.
Proof.
  intros Hss Hne Hum Hc Hok Hl Hp Hseq HF Hs.
  apply (commitSignal_delivered ss path d s rs) in Hs as [_ Hd]; [|done..].
  destruct Hd as [es Hr|typed ref e es rs' _ Href Ht He Hcase HF' _ _]; [by vm_compute in Hr|].
  specialize (Ht Hss) as ->. destruct Hcase as [[_ Hr]|(e' & (Hp' & Hty & _ & Hda) & ->)]; [by vm_compute in Hr|].
  cbn [newEvent Path EvType Data payload_bytes] in *. unfold nonempty in Href. destruct (String.eqb_spec (dlPayload d) ""); [done|].
  destruct Href as [Hn Hg]. rewrite He. change (e :: [e']) with ([e] ++ [e']). rewrite app_assoc, Fold_app, HF' by (by destruct (logEvents (stLog s))).
  cbn [res_bind foldEvents]. rewrite Hty. cbn [String.eqb]. cbv beta iota. unfold foldArm. rewrite Hty. cbn [String.eqb]. cbv beta zeta.
  unfold foldNodeCompleted, nodeResult, parseData. rewrite Hda. cbn [mbind option_bind].
  rewrite NodeCompletedData_read by (apply withUsage_ok; done). cbn [res_bind signalRecord withUsage ncUsage ncOutcome ncOutputsRef].
  change (ParseOutcome OutcomeOK) with (Some OutcomeOK). cbv beta iota. rewrite String.eqb_refl. cbn [negb].
  unfold readMapIf, readMap, readRef. destruct (String.eqb_spec ref ""); [done|]. rewrite Hg. cbn [res_map_err res_bind].
  by rewrite Hum.
Qed.

Section example.
#[local] Existing Instance two_times.
#[local] Existing Instance InMemoryLog_laws.
#[local] Existing Instance exSteady_log.

Definition exSignal : SignalStep := MkSignalStep "approve" "approval" "" None None.
(** What [awf signal <run> approval --payload 42] delivers. *)
Definition exDelivery : Delivery := MkDelivery "approval" 1 "42".
Definition exSent : Result * St InMemoryLog InMemoryBlobs () := commitSignal exSignal "approve" exDelivery exState.
Lemma exState_empty c : no_collision (stBlobs exState) c.
Proof.
  intros x. unfold exState, exBefore. cbn [stBlobs snd blobsGet InMemoryBlobs_blobs]. unfold memGet.
  rewrite parseRef_RefFor. cbn [res_bind store]. by rewrite lookup_empty.
Qed.
Lemma exSent_ok : exSent = (okResult, exSent.2).
Proof.
  assert (Hs : match exSent.1 with (o, None) => String.eqb o OutcomeOK | _ => false end = true) by (vm_compute; reflexivity).
  destruct exSent as [[o [e|]] s']; cbn [fst snd] in *; [done|]. by apply String.eqb_eq in Hs as ->.
Qed.

Lemma signal_half_commit_witness :
  stW exSent.2 = stW exState ∧ delivered exSignal "approve" exDelivery (stRS exState) exState okResult exSent.2.
Proof.
  apply (signal_half_commit exSignal "approve" exDelivery exState (stRS exState) okResult exSent.2).
  - intros typed c _. apply exState_empty.
  - exact I.
  - discriminate.
  - discriminate.
  - reflexivity.
  - vm_compute. reflexivity.
  - exact exSent_ok.
Defined.

Lemma signal_payload_unfoldable_witness :
  is_ok (Fold (blobsGet (stBlobs exSent.2)) (logEvents (stLog exSent.2))) = false.
Proof.
  apply (signal_payload_unfoldable exSignal "approve" exDelivery exState (stRS exState) exSent.2).
  - reflexivity.
  - discriminate.
  - vm_compute. reflexivity.
  - intros typed c _. apply exState_empty.
  - exact I.
  - discriminate.
  - discriminate.
  - reflexivity.
  - vm_compute. reflexivity.
  - exact exSent_ok.
Defined.

(** A broker that would deliver another payload. *)
#[local] Instance exBroker : Signals () := {
  wBroker := true;
  wReceive _ _ _ _ w := (Ok (MkDelivery "approval" 2 "{}"), w);
  wTicks _ := []
}.
Definition exEntry : SignalReceivedEntry := MkReceived 1 "".
Definition exHalf : St InMemoryLog InMemoryBlobs () := setRS (RecordSignalReceivedAt "approve" exEntry (stRS exState)) exState.
Definition exResumed : Result * St InMemoryLog InMemoryBlobs () := runSignalStep exIctx Cancellable exSignal "approve" exHalf.

Lemma signal_resume_silent_witness :
  stW exResumed.2 = stW exHalf ∧ stBlobs exResumed.2 = stBlobs exHalf ∧
  (logEvents (stLog exResumed.2) = logEvents (stLog exHalf) ∨
   ∃ e, completionOf "approve" "" e ∧ logEvents (stLog exResumed.2) = logEvents (stLog exHalf) ++ [e]).
Proof.
  apply (signal_resume_silent exIctx Cancellable exSignal "approve" exEntry exHalf exResumed.1 exResumed.2).
  - exact I.
  - vm_compute. reflexivity.
  - apply surjective_pairing.
Defined.
End example.
